(* ===== verification/_CoqProject ===== *)
-Q . S2P
Prelude.v
Wire.v
EventWire.v
Copies.v
Records.v
Identity.v
Capabilities.v
Diagnostics.v
NodeStore.v
NodeQueue.v
NodeFacts.v
NodeOps.v
NodeRecovery.v
Ledger.v
LedgerFacts.v
LedgerOps.v
LedgerRecovery.v
LedgerBoot.v
LedgerLife.v
Delivery.v
DeliveryFacts.v
DeliveryOps.v
DeliveryCalls.v
DeliveryLife.v
DeliveryProgress.v
Radio.v
RadioFacts.v
EndToEnd.v
CapabilityFacts.v
HostFrame.v
HostFrameFacts.v
HostTransport.v
HostLink.v
Settings.v
SettingsFacts.v
SettingsLife.v
HostRecords.v
HostMessages.v
HostMessageFacts.v
HostRecordFacts.v
HostService.v
HostServiceFacts.v
HostEvents.v
HostEventFacts.v
WireOps.v
Bridge.v
WireFacts.v
BridgeFacts.v
BridgeLife.v
BridgeEnd.v
HostLife.v
HostRole.v
LifeFacts.v
RoleFacts.v
Input.v
InputFacts.v
CreationFacts.v
Ui.v
UiFacts.v
Boards.v
NodeMain.v
