(* ===== verification/Prelude.v ===== *)
(** * ARGUS REDLINE: the event path, from button to host

    ARGUS REDLINE is firmware for two radio devices.  A Node (src-rx) turns
    button presses and other local happenings into events, keeps them in flash
    and sends them over a lossy radio link; the Hub (src-tx) admits each event
    into its own flash ledger, acknowledges it, and keeps it until a host
    computer consumes it.  Both are single-threaded loops over header-only
    C++ classes under src/lib; everything outside them - radio, flash, clock,
    entropy - is reached through small abstract classes.  This development
    translates those classes and proves what they promise each other.

    ** How the model is built

    - An object of the program is a [Record] with the fields of the class, its
      methods are functions in the state monad [st] of Prelude.v over the pair
      of that record and a world [W] (what lies behind the abstract classes).
      The abstract classes of the source (storage, entropy) are type classes
      over [W]; their documented behaviour is a second class of laws, and
      every file that uses laws ends with an instance of them whose faults are
      scripted, on which the witnesses run.
    - An unsigned [w]-bit integer is a [Z]; each operation that may wrap is
      wrapped where the source wraps it ([u8], [u16], [u32]).  A buffer is a
      [list Z] that a function returns as it leaves it; a null pointer is
      [None].
    - Loops over the eight slots are [Fixpoint]s on the number of slots left,
      started at the constant the source loops to.  The one [while (true)]
      loop, in [Policy::service], has a number of turns computed from the
      record it debits, and is proved equal to the loop without a bound
      ([DeliveryFacts.whileService]).

    ** Files, in dependency order

    - Prelude: machine integers, byte lists, the state monad, record update,
      tactics and hint databases.
    - Wire ([Protocol], [TransactionEngine]): redline_protocol.h, the packet
      codec, and transaction_engine.h, the legacy command and ACK exchange.
      Round trips, canonical decoding, at-most-once execution, bounded retries,
      exact timeouts.
    - EventWire ([EventProtocol]): event_protocol.h.  Event and admission
      response codecs; a response is matched to exactly the event it answers.
    - Copies ([EventStorage]): event_store.h, the choice between two copies of
      a record; Records ([EventRecords]): event_records.h, CRC-32 and the four
      durable record codecs.
    - Identity ([EventIdentity]): event_identity.h, the allocator of event
      identities.  No identity is ever handed out twice.
    - Diagnostics ([RuntimeState], [EventTxDiagnostics]): the counters the other
      components write to.
    - NodeStore ([NodeEventStore]): node_event_store.h, the Node's durable
      queue.  NodeQueue proves its index, NodeFacts its invariant [grounded]
      and one verified write, NodeOps each operation against its
      specification, NodeRecovery recovery and the life of a queued event.
    - Ledger ([HubEventLedger]): hub_event_ledger.h, the Hub's durable ledger.
      LedgerFacts proves one verified write, LedgerOps the invariant
      [hub_grounded] with admission and consumption, LedgerRecovery and
      LedgerBoot recovery and first boot, LedgerLife the contract: each
      operation's outcomes, that an admitted event survives until it is
      consumed, and that admitting it again only repeats the first answer.

    - Delivery ([NodeEventDelivery]): node_event_delivery.h and
      node_event_reclamation.h, the lifetime policy and the controller that
      takes the head of the queue through its attempts.  DeliveryFacts proves
      that the lifetime loop leaves and what it debits, DeliveryOps the
      controller's invariant, DeliveryCalls each call, DeliveryLife the
      contract - the invariant, what is transmitted, why an event leaves the
      queue, exact lifetimes - and DeliveryProgress that five rounds decide an
      event.

    ** The central argument

    A record in flash is two copies with generations.  [authority] (Copies.v)
    says which copy governs; a write of the other copy that is complete, torn
    or absent leaves the old or the new record governing
    ([authority_write]).  From this the stores get their refinement: [custody]
    is the abstract state, eight records governed by the flash, and every
    operation either moves custody from the records it started with to the
    specified new ones and stays [sound], or stops serving with one of the two
    in custody.  A recovery starts from custody alone.  Lifetimes are lists of
    commands; their theorems are inductions over the list.  The controller sits
    on the store's contract alone: [evolves] (DeliveryFacts.v) is a history of
    accepted store operations, each allowed by a predicate, and a call's theorem
    names the predicate its operations satisfy.

    ** Not modelled, and why

    The Arduino entry points, display, GPIO and NVS drivers are I/O around the
    modelled classes.  The settings, capability and host-protocol libraries are
    listed as components of their own and are not part of this development
    yet.  Radio metrics in [RuntimeState] are floats for display. *)

From stdpp Require Export prelude.
From Stdlib Require Export ZArith Lia Sorted.

#[global] Open Scope Z_scope.
#[global] Open Scope bool_scope.

(** Tests and word operations on symbolic integers stay as they are written. *)
#[global] Arguments Z.eqb : simpl never.
#[global] Arguments Z.ltb : simpl never.
#[global] Arguments Z.leb : simpl never.
#[global] Arguments Z.land : simpl never.
#[global] Arguments Z.lor : simpl never.
#[global] Arguments Z.lxor : simpl never.
#[global] Arguments Z.shiftr : simpl never.
#[global] Arguments Z.shiftl : simpl never.
#[global] Arguments Z.of_nat : simpl never.
#[global] Arguments Z.to_nat : simpl never.
#[global] Arguments Z.add : simpl never.
#[global] Arguments Z.sub : simpl never.
#[global] Arguments Z.mul : simpl never.

(** * Machine integers

    An unsigned [w]-bit object of the source is a [Z]; every arithmetic
    operation that may leave the range is wrapped where the source's type
    wraps it. *)

Definition wrap (w z : Z) : Z := z `mod` 2 ^ w.

Abbreviation u8 := (wrap 8).

Abbreviation u16 := (wrap 16).

Abbreviation u32 := (wrap 32).

Abbreviation u64 := (wrap 64).

Definition UINT16_MAX : Z := 65535.

Definition UINT32_MAX : Z := 4294967295.

Definition is_uint (w z : Z) : Prop := 0 ≤ z < 2 ^ w.

Abbreviation is_u8 := (is_uint 8).

Abbreviation is_u16 := (is_uint 16).

Abbreviation is_u32 := (is_uint 32).

Abbreviation is_u64 := (is_uint 64).

(** [static_cast<int32_t>] of a [uint32_t]. *)

Definition sint32 (z : Z) : Z :=
  let v := u32 z in if v <? 2147483648 then v else v - 4294967296.

(** The wrap-around comparison of every millisecond clock in the source:
    [static_cast<uint32_t>(now - then)]. *)

Definition elapsed32 (now since : Z) : Z := u32 (now - since).

(** * Buffers

    A byte buffer is the list of its bytes.  [rd] is the read of a buffer at
    an index (a read past the end, undefined in the source, gives 0), [upd]
    the store, [copy_bytes] the element-wise copy loops. *)

Definition rd (l : list Z) (i : nat) : Z := nth i l 0.

Definition upd (l : list Z) (i : nat) (v : Z) : list Z := <[i := v]> l.

Fixpoint copy_bytes (n : nat) (dst : list Z) (doff : nat) (src : list Z) (soff : nat)
    : list Z :=
  match n with
  | O => dst
  | S m => copy_bytes m (upd dst doff (rd src soff)) (S doff) src (S soff)
  end.

Definition zeros (n : nat) : list Z := replicate n 0.

Fixpoint all_zero (l : list Z) : bool :=
  match l with
  | [] => true
  | b :: l' => if b =? 0 then all_zero l' else false
  end.

Fixpoint bytes_eqb (n : nat) (a b : list Z) (i : nat) : bool :=
  match n with
  | O => true
  | S m => if rd a i =? rd b i then bytes_eqb m a b (S i) else false
  end.

Definition is_byte_list (l : list Z) : Prop := Forall is_u8 l.

(** A [switch] whose listed cases share a branch. *)

Definition one_of (x : Z) (l : list Z) : bool := existsb (Z.eqb x) l.

(** Little-endian words, the mask-and-shift code of every [writeUintNLe] and
    [readUintNLe] of the source. *)

Definition le16 (v : Z) : list Z := [u8 v; u8 (Z.shiftr v 8)].

Definition le32 (v : Z) : list Z :=
  [u8 v; u8 (Z.shiftr v 8); u8 (Z.shiftr v 16); u8 (Z.shiftr v 24)].

Definition write16 (l : list Z) (i : nat) (v : Z) : list Z :=
  upd (upd l i (u8 v)) (i + 1) (u8 (Z.shiftr v 8)).

Definition write32 (l : list Z) (i : nat) (v : Z) : list Z :=
  upd (upd (upd (upd l i (u8 v)) (i + 1) (u8 (Z.shiftr v 8)))
    (i + 2) (u8 (Z.shiftr v 16))) (i + 3) (u8 (Z.shiftr v 24)).

Definition read16 (l : list Z) (i : nat) : Z :=
  Z.lor (rd l i) (Z.shiftl (rd l (i + 1)) 8).

Definition read32 (l : list Z) (i : nat) : Z :=
  Z.lor (Z.lor (Z.lor (rd l i) (Z.shiftl (rd l (i + 1)) 8))
    (Z.shiftl (rd l (i + 2)) 16)) (Z.shiftl (rd l (i + 3)) 24).

(** * State passing

    A method that reads and writes objects is a function from the state of
    those objects to its result and their new state. *)

Definition st (S A : Type) : Type := S → A * S.

Definition ret {S A} (a : A) : st S A := λ s, (a, s).

Definition bind {S A B} (m : st S A) (f : A → st S B) : st S B :=
  λ s, f (m s).1 (m s).2.

Definition gets {S A} (f : S → A) : st S A := λ s, (f s, s).

Definition modify {S} (f : S → S) : st S unit := λ s, (tt, f s).

Definition zoom {S T A} (get : S → T) (put : T → S → S) (m : st T A) : st S A :=
  λ s, ((m (get s)).1, put (m (get s)).2 s).

(** Methods of an object of state [S] that works on an outside of state [W]:
    the object's fields, an assignment to them, a call to the outside. *)

Definition this {S W X} (f : S → X) : st (S * W) X := gets (λ s, f s.1).

Definition update {S W} (f : S → S) : st (S * W) unit := modify (λ s, (f s.1, s.2)).

Definition outside {S W X} (m : st W X) : st (S * W) X := zoom snd (λ w s, (s.1, w)) m.

Fixpoint for_range {S} (n : nat) (i : nat) (body : nat → st S unit) : st S unit :=
  match n with
  | O => ret tt
  | S m => bind (body i) (λ _, for_range m (Datatypes.S i) body)
  end.

Declare Scope redline_scope.
Delimit Scope redline_scope with redline.
#[global] Open Scope redline_scope.

Notation "x <~ m ;; k" := (bind m (λ x, k))
  (at level 100, m at next level, right associativity) : redline_scope.

Notation "m ;;; k" := (bind m (λ _, k))
  (at level 100, right associativity) : redline_scope.

(** * Record update

    [s <| f := v |>] is [s] with field [f] set to [v]; an instance of
    [RecSet] is the rebuilt record, found for any projection. *)

Class RecSet {R T : Type} (f : R → T) : Type := rec_set : T → R → R.

Arguments rec_set {R T} f {_} _ _.

Class RecEta (R : Type) : Type := rec_eta : R → R.

Ltac solve_rec_set :=
  match goal with
  | |- @RecSet ?R ?T ?f =>
      let e := constr:(rec_eta (R := R)) in
      let b := eval cbv beta delta [rec_eta] in e in
      let b := lazymatch b with
               | fun x => _ => b
               | ?c => eval cbv delta [c] in c
               end in
      exact (λ (v : T) (r : R),
        ltac:(let r' := eval cbv beta in (b r) in
              let r' := eval pattern (f r) in r' in
              lazymatch r' with ?g _ => let t := eval cbv beta in (g v) in exact t end))
  end.

#[export] Hint Extern 0 (@RecSet _ _ _) => solve_rec_set : typeclass_instances.

Notation "s <| f := v |>" := (rec_set f v s)
  (at level 1, left associativity, format "s <| f  :=  v |>") : redline_scope.

(** * Integer lemmas *)

Create HintDb uint.

Lemma wrap_range w z : 0 ≤ w → is_uint w (wrap w z).
Proof. intros. apply Z.mod_pos_bound. lia. Qed.

Lemma wrap_small w z : is_uint w z → wrap w z = z.
Proof. apply Z.mod_small. Qed.

Lemma u8_range z : is_u8 (u8 z).
Proof. by apply wrap_range. Qed.

Lemma u16_range z : is_u16 (u16 z).
Proof. by apply wrap_range. Qed.

Lemma u32_range z : is_u32 (u32 z).
Proof. by apply wrap_range. Qed.

#[export] Hint Resolve u8_range u16_range u32_range : uint.

(** [uint] decides goals of linear arithmetic over wrapped integers. *)

Ltac uint_unfold :=
  unfold elapsed32, sint32, is_uint, wrap, UINT16_MAX, UINT32_MAX in *;
  change (2 ^ 8) with 256 in *; change (2 ^ 16) with 65536 in *;
  change (2 ^ 32) with 4294967296 in *;
  change (2 ^ 64) with 18446744073709551616 in *.

Ltac uint := uint_unfold; Z.to_euclidean_division_equations; lia.

Lemma elapsed32_range a b : is_u32 (elapsed32 a b).
Proof. apply u32_range. Qed.

Lemma elapsed32_add a d : is_u32 d → elapsed32 (u32 (a + d)) a = d.
Proof. intros. uint. Qed.

Lemma lor_shiftl_add a b n : 0 ≤ n → is_uint n a → Z.lor a (Z.shiftl b n) = a + b * 2 ^ n.
Proof.
  intros Hn Ha.
  assert (Hland : Z.land a (Z.shiftl b n) = 0).
  { apply Z.bits_inj'. intros i Hi.
    rewrite Z.land_spec, Z.bits_0, Z.shiftl_spec by lia.
    destruct (Z.lt_ge_cases i n).
    - rewrite (Z.testbit_neg_r b) by lia. apply andb_false_r.
    - rewrite <- (wrap_small n a Ha). unfold wrap.
      rewrite Z.mod_pow2_bits_high by lia. done. }
  rewrite <- Z.lxor_lor by done.
  rewrite <- Z.add_nocarry_lxor by done.
  by rewrite Z.shiftl_mul_pow2.
Qed.

(** The value of a little-endian word of bytes. *)

Lemma word16 a b : is_u8 a → is_u8 b → Z.lor a (Z.shiftl b 8) = a + b * 256.
Proof. intros. by rewrite lor_shiftl_add. Qed.

Lemma word32 a b c d :
  is_u8 a → is_u8 b → is_u8 c → is_u8 d →
  Z.lor (Z.lor (Z.lor a (Z.shiftl b 8)) (Z.shiftl c 16)) (Z.shiftl d 24)
  = a + b * 256 + c * 65536 + d * 16777216.
Proof.
  intros. rewrite word16 by done.
  rewrite (lor_shiftl_add _ c 16) by (done || uint).
  rewrite (lor_shiftl_add _ d 24) by (done || uint). done.
Qed.

Ltac shr_unfold :=
  rewrite ?Z.shiftr_div_pow2 in * by lia;
  change (2 ^ 8) with 256 in *; change (2 ^ 16) with 65536 in *;
  change (2 ^ 24) with 16777216 in *.

Lemma word16_le v :
  is_u16 v → Z.lor (u8 v) (Z.shiftl (u8 (Z.shiftr v 8)) 8) = v.
Proof. intros. rewrite word16 by apply u8_range. shr_unfold. uint. Qed.

Lemma word32_le v :
  is_u32 v →
  Z.lor (Z.lor (Z.lor (u8 v) (Z.shiftl (u8 (Z.shiftr v 8)) 8))
    (Z.shiftl (u8 (Z.shiftr v 16)) 16)) (Z.shiftl (u8 (Z.shiftr v 24)) 24) = v.
Proof. intros. rewrite word32 by apply u8_range. shr_unfold. uint. Qed.

Lemma le16_word a b :
  is_u8 a → is_u8 b → le16 (Z.lor a (Z.shiftl b 8)) = [a; b].
Proof.
  intros. rewrite word16 by done. unfold le16. shr_unfold.
  f_equal; [uint | f_equal; uint].
Qed.

Lemma le32_word a b c d :
  is_u8 a → is_u8 b → is_u8 c → is_u8 d →
  le32 (Z.lor (Z.lor (Z.lor a (Z.shiftl b 8)) (Z.shiftl c 16)) (Z.shiftl d 24))
  = [a; b; c; d].
Proof.
  intros. rewrite word32 by done. unfold le32. shr_unfold.
  f_equal; [uint | f_equal; [uint | f_equal; [uint | f_equal; uint]]].
Qed.

Lemma word16_range a b : is_u8 a → is_u8 b → is_u16 (Z.lor a (Z.shiftl b 8)).
Proof. intros. rewrite word16 by done. uint. Qed.

Lemma word32_range a b c d :
  is_u8 a → is_u8 b → is_u8 c → is_u8 d →
  is_u32 (Z.lor (Z.lor (Z.lor a (Z.shiftl b 8)) (Z.shiftl c 16)) (Z.shiftl d 24)).
Proof. intros. rewrite word32 by done. uint. Qed.

#[export] Hint Resolve word16_range word32_range : uint.

(** [skip_if] settles the outermost conditional of the goal by arithmetic. *)

Ltac bsimp := cbn [negb andb orb fst snd].

(** Boolean tests as propositions. *)

Create Rewrite HintDb zbool.

#[export] Hint Rewrite Z.eqb_eq Z.eqb_neq Z.ltb_lt Z.ltb_ge Z.leb_le Z.leb_gt
  andb_true_iff andb_false_iff orb_true_iff orb_false_iff negb_true_iff
  negb_false_iff : zbool.

Ltac zbool := autorewrite with zbool in *.

Ltac blia :=
  unfold is_uint in *;
  first [ lia
        | match goal with
          | |- ?b = false => apply not_true_iff_false; intros ?; zbool; lia
          | |- ?b = true => zbool; lia
          | _ => zbool; lia
          end ].

Ltac skip_if_with tac :=
  match goal with
  | |- context [if ?b then ?x else ?y] =>
      first
        [ let E := fresh in assert (E : b = false) by tac; rewrite E; clear E
        | let E := fresh in assert (E : b = true) by tac; rewrite E; clear E ]
  end; cbv iota.

Ltac skip_if := skip_if_with ltac:(blia).

(** Settles equality tests of concrete or equal values. *)

Ltac decide_eqs :=
  repeat match goal with
  | |- context [bool_decide (?x = ?y)] =>
      first [ rewrite (bool_decide_eq_true_2 (x = y)) by reflexivity
            | rewrite (bool_decide_eq_false_2 (x = y)) by congruence ]
  end; bsimp; cbv iota.

(** * Buffer lemmas *)

Lemma length_upd l i v : length (upd l i v) = length l.
Proof. apply length_insert. Qed.

Lemma length_zeros n : length (zeros n) = n.
Proof. apply length_replicate. Qed.

Lemma length_copy_bytes n dst doff src soff :
  length (copy_bytes n dst doff src soff) = length dst.
Proof.
  revert dst doff soff. induction n as [|n IH]; intros; simpl; [done|].
  by rewrite IH, length_upd.
Qed.

Create Rewrite HintDb len.

#[export] Hint Rewrite length_upd length_zeros length_copy_bytes @length_app
  @length_take @length_drop @length_replicate @length_insert : len.

Ltac len := autorewrite with len in *; simpl length in *; try lia.

Lemma rd_lookup l i v : l !! i = Some v → rd l i = v.
Proof.
  unfold rd. revert i. induction l as [|a l IH]; intros [|i]; simpl; try done.
  - by intros [= ->].
  - apply IH.
Qed.

Lemma lookup_rd l i : (i < length l)%nat → l !! i = Some (rd l i).
Proof.
  intros [v Hv]%lookup_lt_is_Some. by rewrite (rd_lookup _ _ _ Hv).
Qed.

Lemma rd_upd_ne l i j v : i ≠ j → rd (upd l i v) j = rd l j.
Proof.
  intros H. destruct (decide (j < length l)%nat) as [Hj|Hj].
  - apply rd_lookup. unfold upd. rewrite list_lookup_insert_ne by done. by apply lookup_rd.
  - unfold rd. rewrite !nth_overflow; [done|lia|]. unfold upd. rewrite length_insert. lia.
Qed.

Lemma rd_upd_eq l i v : (i < length l)%nat → rd (upd l i v) i = v.
Proof. intros. by apply rd_lookup, list_lookup_insert_eq. Qed.

Lemma rd_byte l i : is_byte_list l → is_u8 (rd l i).
Proof.
  intros Hl. destruct (decide (i < length l)%nat) as [Hi|Hi].
  - apply lookup_rd in Hi. by eapply (Forall_lookup_1 _ l).
  - unfold rd. rewrite nth_overflow by lia. uint.
Qed.

Lemma read32_range l i : is_byte_list l → is_u32 (read32 l i).
Proof. intros Hl. apply word32_range; by apply rd_byte. Qed.

Lemma upd_byte l i v : is_byte_list l → is_u8 v → is_byte_list (upd l i v).
Proof. apply Forall_insert. Qed.

Lemma zeros_byte n : is_byte_list (zeros n).
Proof. apply Forall_replicate. uint. Qed.

Lemma byte_nil : is_byte_list [].
Proof. by apply Forall_nil_2. Qed.

Lemma byte_cons b l : is_u8 b → is_byte_list l → is_byte_list (b :: l).
Proof. by apply Forall_cons_2. Qed.

Lemma byte_app l k : is_byte_list l → is_byte_list k → is_byte_list (l ++ k).
Proof. by apply Forall_app_2. Qed.

Lemma byte_take n l : is_byte_list l → is_byte_list (take n l).
Proof. apply Forall_take. Qed.

Lemma byte_drop n l : is_byte_list l → is_byte_list (drop n l).
Proof. apply Forall_drop. Qed.

Lemma le16_byte v : is_byte_list (le16 v).
Proof. repeat apply byte_cons; apply u8_range || apply byte_nil. Qed.

Lemma le32_byte v : is_byte_list (le32 v).
Proof. repeat apply byte_cons; apply u8_range || apply byte_nil. Qed.

Lemma write16_byte l i v : is_byte_list l → is_byte_list (write16 l i v).
Proof. intros. repeat apply upd_byte; auto with uint. Qed.

Lemma write32_byte l i v : is_byte_list l → is_byte_list (write32 l i v).
Proof. intros. repeat apply upd_byte; auto with uint. Qed.

Lemma copy_bytes_byte n dst doff src soff :
  is_byte_list dst → is_byte_list src → is_byte_list (copy_bytes n dst doff src soff).
Proof.
  intros Hd Hs. revert dst doff soff Hd.
  induction n as [|n IH]; intros; simpl; [done|].
  apply IH, upd_byte; [done|]. by apply rd_byte.
Qed.

#[export] Hint Resolve rd_byte upd_byte zeros_byte byte_nil byte_cons byte_app byte_take
  byte_drop le16_byte le32_byte write16_byte write32_byte copy_bytes_byte : uint.

(** [bytes] proves that a list built from bytes is one of bytes. *)

Ltac bytes := auto 40 with uint.

Lemma length_le16 v : length (le16 v) = 2%nat.
Proof. done. Qed.

Lemma length_le32 v : length (le32 v) = 4%nat.
Proof. done. Qed.

Lemma length_write16 l i v : length (write16 l i v) = length l.
Proof. unfold write16. by rewrite !length_upd. Qed.

Lemma length_write32 l i v : length (write32 l i v) = length l.
Proof. unfold write32. by rewrite !length_upd. Qed.

#[export] Hint Rewrite length_le16 length_le32 length_write16 length_write32 : len.

(** A word written over an exact split of the buffer. *)

Lemma write32_split a b0 b1 b2 b3 c v :
  write32 (a ++ b0 :: b1 :: b2 :: b3 :: c) (length a) v = a ++ le32 v ++ c.
Proof.
  unfold write32, upd, le32.
  rewrite insert_app_r_alt, Nat.sub_diag by lia. simpl.
  rewrite insert_app_r_alt by lia. replace (length a + 1 - length a)%nat with 1%nat by lia.
  rewrite insert_app_r_alt by lia. replace (length a + 2 - length a)%nat with 2%nat by lia.
  rewrite insert_app_r_alt by lia. replace (length a + 3 - length a)%nat with 3%nat by lia.
  done.
Qed.

(** A copy loop replaces the segment it writes. *)

Lemma copy_bytes_spec n dst doff src soff :
  (doff + n ≤ length dst)%nat → (soff + n ≤ length src)%nat →
  copy_bytes n dst doff src soff
  = take doff dst ++ take n (drop soff src) ++ drop (doff + n) dst.
Proof.
  revert dst doff soff. induction n as [|n IH]; intros dst doff soff Hd Hs; simpl.
  - by rewrite Nat.add_0_r, take_drop.
  - rewrite IH by len. unfold upd.
    rewrite (drop_S src (rd src soff) soff) by (apply lookup_rd; lia).
    rewrite (take_S_r _ _ (rd src soff))
      by (apply list_lookup_insert_eq; lia).
    rewrite take_insert_ge by lia. rewrite drop_insert_lt by lia.
    rewrite <- app_assoc. simpl. by rewrite Nat.add_succ_r.
Qed.

Lemma all_zero_spec l : all_zero l = true ↔ l = zeros (length l).
Proof.
  induction l as [|b l IH]; simpl; [done|].
  destruct (Z.eqb_spec b 0) as [->|Hb].
  - rewrite IH. unfold zeros. simpl. split; [by intros <-|].
    by intros [= ].
  - split; [done|]. by intros [= ].
Qed.

Lemma bytes_eqb_spec n a b i :
  bytes_eqb n a b i = true ↔ ∀ k, (i ≤ k < i + n)%nat → rd a k = rd b k.
Proof.
  revert i. induction n as [|n IH]; intros i; simpl.
  - split; [|done]. intros _ k Hk. lia.
  - destruct (Z.eqb_spec (rd a i) (rd b i)) as [E|E].
    + rewrite IH. split; intros H k Hk.
      * destruct (decide (k = i)) as [->|]; [done|]. apply H. lia.
      * apply H. lia.
    + split; [done|]. intros H. destruct E. apply H. lia.
Qed.

Lemma bytes_eqb_eq n a b :
  length a = n → length b = n → bytes_eqb n a b 0 = true ↔ a = b.
Proof.
  intros Ha Hb. rewrite bytes_eqb_spec. split.
  - intros H. apply list_eq. intros k.
    destruct (decide (k < n)%nat) as [Hk|Hk].
    + rewrite !lookup_rd by lia. f_equal. apply H. lia.
    + rewrite !lookup_ge_None_2 by lia. done.
  - by intros ->.
Qed.

(** Copying a prefix into zeros gives the whole of a buffer whose tail is
    zero. *)

Lemma copy_prefix_zero_tail n src :
  (n ≤ length src)%nat → all_zero (drop n src) = true →
  copy_bytes n (zeros (length src)) 0 src 0 = src.
Proof.
  intros Hn Hz. rewrite copy_bytes_spec by len.
  rewrite take_0, drop_0. simpl. unfold zeros. rewrite drop_replicate.
  apply all_zero_spec in Hz. rewrite length_drop in Hz.
  transitivity (take n src ++ drop n src); [|apply take_drop].
  f_equal. by rewrite Hz.
Qed.

Lemma read32_split a b0 b1 b2 b3 c :
  read32 (a ++ b0 :: b1 :: b2 :: b3 :: c) (length a)
  = Z.lor (Z.lor (Z.lor b0 (Z.shiftl b1 8)) (Z.shiftl b2 16)) (Z.shiftl b3 24).
Proof.
  unfold read32, rd. rewrite !app_nth2 by lia.
  replace (length a - length a)%nat with 0%nat by lia.
  replace (length a + 1 - length a)%nat with 1%nat by lia.
  replace (length a + 2 - length a)%nat with 2%nat by lia.
  replace (length a + 3 - length a)%nat with 3%nat by lia. done.
Qed.

Lemma read32_le32 a v c : is_u32 v → read32 (a ++ le32 v ++ c) (length a) = v.
Proof. intros. unfold le32. simpl. by rewrite read32_split, word32_le. Qed.

Lemma lxor_range w a b : 0 ≤ w → is_uint w a → is_uint w b → is_uint w (Z.lxor a b).
Proof.
  intros Hw Ha Hb. assert (E : Z.lxor a b = wrap w (Z.lxor a b)).
  { rewrite <- (wrap_small w a Ha), <- (wrap_small w b Hb) at 1. unfold wrap.
    apply Z.bits_inj'. intros i Hi. rewrite Z.lxor_spec.
    destruct (Z.lt_ge_cases i w).
    - rewrite !Z.mod_pow2_bits_low, Z.lxor_spec by lia. done.
    - rewrite !Z.mod_pow2_bits_high by lia. done. }
  rewrite E. by apply wrap_range.
Qed.

Lemma lxor_u32 a b : is_u32 a → is_u32 b → is_u32 (Z.lxor a b).
Proof. by apply lxor_range. Qed.

#[export] Hint Resolve lxor_u32 : uint.

Lemma length_S_inv (l : list Z) n :
  length l = Datatypes.S n → ∃ a l', l = a :: l' ∧ length l' = n.
Proof. destruct l as [|a l']; simpl; [done|]. intros [= ?]. eauto. Qed.

(** Names every element of a list of known length. *)

Ltac explode l H :=
  repeat (let a := fresh "x" in let l' := fresh "l'" in let H' := fresh "Hlen" in
          apply length_S_inv in H; destruct H as (a & l' & -> & H'); rename H' into H);
  apply nil_length_inv in H; match type of H with ?x = _ => subst x end.

Lemma split_tail4 (l : list Z) :
  (4 ≤ length l)%nat →
  ∃ k b0 b1 b2 b3, l = k ++ [b0; b1; b2; b3] ∧ length l = (length k + 4)%nat.
Proof.
  intros H. exists (take (length l - 4) l).
  assert (Hd : length (drop (length l - 4) l) = 4%nat) by len.
  remember (drop (length l - 4) l) as d eqn:Ed. explode d Hd.
  eexists _, _, _, _. rewrite Ed, take_drop. split; [done|]. rewrite length_take. lia.
Qed.

(** * Switches *)

Lemma one_of_spec x l : one_of x l = true ↔ x ∈ l.
Proof.
  unfold one_of. rewrite existsb_exists. split.
  - intros (y & Hy & E). apply Z.eqb_eq in E as ->. by apply list_elem_of_In.
  - intros Hx. exists x. split; [by apply list_elem_of_In|apply Z.eqb_refl].
Qed.

(** One goal for each case of a switch. *)

Ltac switch_cases H :=
  apply one_of_spec in H; repeat (apply elem_of_cons in H as [->|H]); [..|by apply elem_of_nil in H].

(** * Sorted lists *)

Lemma StronglySorted_snoc {A} (R : A → A → Prop) l x :
  StronglySorted R l → Forall (λ y, R y x) l → StronglySorted R (l ++ [x]).
Proof.
  induction 1 as [|y l Hs IH Hy]; simpl; intros Hx.
  - repeat constructor.
  - apply Forall_cons in Hx as [? Hx]. constructor; [auto|].
    apply Forall_app. split; [done|]. by repeat constructor.
Qed.

(** * State-passing lemmas *)

Lemma bind_inv {S A B} (m : st S A) (f : A → st S B) s b s' :
  bind m f s = (b, s') → ∃ a s1, m s = (a, s1) ∧ f a s1 = (b, s').
Proof. unfold bind. destruct (m s) as [a s1]. eauto. Qed.

Lemma bind_run {S A B} (m : st S A) (f : A → st S B) s a s1 :
  m s = (a, s1) → bind m f s = f a s1.
Proof. unfold bind. by intros ->. Qed.

(** A read of the object. *)
Lemma bind_this {S W X Y} (f : S → X) (k : X → st (S * W) Y) s w :
  (x <~ this f ;; k x) (s, w) = k (f s) (s, w).
Proof. reflexivity. Qed.

(** An assignment to the object. *)
Lemma bind_update {S W X} (f : S → S) (k : unit → st (S * W) X) s w :
  (u <~ update f ;; k u) (s, w) = k tt (f s, w).
Proof. reflexivity. Qed.

(** A method that, started in [P], ends in [Q]. *)
Definition triple {S W X} (P : S → W → Prop) (m : st (S * W) X) (Q : X → S → W → Prop) : Prop :=
  ∀ s w, P s w → Q (m (s, w)).1 (m (s, w)).2.1 (m (s, w)).2.2.

Section Triple.

Context {S W : Type}.

Implicit Types (P : S → W → Prop).

Lemma triple_bind {X Y} P (m : st (S * W) X) R (k : X → st (S * W) Y) Q :
  triple P m R → (∀ x, triple (R x) (k x) Q) → triple P (bind m k) Q.
Proof.
  intros Hm Hk s w HP. specialize (Hm s w HP). unfold bind.
  destruct (m (s, w)) as [x [s1 w1]]. by apply (Hk x s1 w1).
Qed.

Lemma triple_conseq {X} P P' (m : st (S * W) X) Q Q' :
  triple P' m Q' → (∀ s w, P s w → P' s w) → (∀ x s w, Q' x s w → Q x s w) → triple P m Q.
Proof. intros Hm HP HQ s w H. by apply HQ, Hm, HP. Qed.

Lemma triple_ret {X} P (x : X) Q : (∀ s w, P s w → Q x s w) → triple P (ret x) Q.
Proof. intros HQ s w. apply HQ. Qed.

Lemma triple_update P f Q : (∀ s w, P s w → Q tt (f s) w) → triple P (update f) Q.
Proof. intros HQ s w. apply HQ. Qed.

Lemma triple_if {X} P (b : bool) (m m' : st (S * W) X) Q :
  (b = true → triple P m Q) → (b = false → triple P m' Q) → triple P (if b then m else m') Q.
Proof. destruct b; auto. Qed.

(** A read keeps the state, of which the value read is known. *)
Lemma triple_this {X Y} P (f : S → X) (k : X → st (S * W) Y) Q :
  (∀ x, triple (λ s w, P s w ∧ f s = x) (k x) Q) → triple P (bind (this f) k) Q.
Proof. intros Hk s w HP. rewrite bind_this. by apply (Hk (f s)). Qed.

Lemma triple_pure {X} (φ : Prop) P (m : st (S * W) X) Q :
  (φ → triple P m Q) → triple (λ s w, φ ∧ P s w) m Q.
Proof. intros Hm s w [Hφ HP]. by apply Hm. Qed.

End Triple.

(** A method frames an observation of the outside when it leaves it as it is. *)

Definition frame {S W O X} (obs : W → O) (m : st (S * W) X) : Prop :=
  ∀ s, obs (m s).2.2 = obs s.2.

Section Frame.

Context {S W O : Type} (obs : W → O).

Lemma frame_bind {X Y} (m : st (S * W) X) (f : X → st (S * W) Y) :
  frame obs m → (∀ x, frame obs (f x)) → frame obs (bind m f).
Proof. intros Hm Hf s. unfold bind. by rewrite Hf, Hm. Qed.

Lemma frame_ret {X} (x : X) : frame (S := S) obs (ret x).
Proof. done. Qed.

Lemma frame_this {X} (f : S → X) : frame obs (this f).
Proof. done. Qed.

Lemma frame_update (f : S → S) : frame obs (update f).
Proof. done. Qed.

Lemma frame_outside {X} (m : st W X) :
  (∀ w, obs (m w).2 = obs w) → frame (S := S) obs (outside m).
Proof. intros Hm s. unfold outside, zoom. apply Hm. Qed.

End Frame.

Ltac framing :=
  repeat first
    [ progress intros
    | assumption
    | apply frame_bind
    | apply frame_ret
    | apply frame_this
    | apply frame_update
    | match goal with
      | |- frame _ (if ?b then _ else _) => destruct b
      | |- frame _ (match ?x with _ => _ end) => destruct x
      | |- frame _ (let '_ := ?x in _) => destruct x
      end ].

(** Runs the definitional steps of a method. *)
Ltac object :=
  unfold outside, update, this, zoom, bind, gets, modify, ret in *; cbn [fst snd] in *.

(** Runs a state-passing hypothesis forward: binds are split, pure steps are
    substituted, conditionals are left to the caller. *)

Ltac st_step H :=
  lazymatch type of H with
  | bind _ _ _ = (_, _) =>
      let a := fresh "a" in let s1 := fresh "s" in let E := fresh "E" in
      apply bind_inv in H as (a & s1 & E & H); try st_step E
  | ret _ _ = (_, _) => unfold ret in H; injection H as ? ?; subst
  | gets _ _ = (_, _) => unfold gets in H; injection H as ? ?; subst
  | modify _ _ = (_, _) => unfold modify in H; injection H as ? ?; subst
  | (if ?b then _ else _) _ = (_, _) => fail
  end.

Ltac st_run H := repeat st_step H.

(** Well-formedness of concrete data. *)

Ltac concrete :=
  repeat match goal with
  | |- _ ∧ _ => split
  | |- is_uint _ _ => vm_compute; split; [discriminate | reflexivity]
  | |- is_byte_list _ => vm_compute
  | |- Forall _ [] => apply Forall_nil_2
  | |- Forall _ (_ :: _) => apply Forall_cons_2; [split; [discriminate | reflexivity]|]
  | |- _ = _ => vm_compute; reflexivity
  | |- _ ≤ _ => vm_compute; discriminate
  | |- _ < _ => vm_compute; reflexivity
  end.
