(* ===== verification/Wire.v ===== *)
(** The packet layer: [Module Protocol] is lib/redline_protocol (the packet
    record, its encoder and decoder), [Module TransactionEngine] is
    lib/transaction_engine (the legacy command/ACK transaction of Hub and
    Node).  A pointer-and-length argument is an [option] of the bytes, [None]
    the null pointer; an output buffer is returned as it is left. *)

From S2P Require Import Prelude.

Module Protocol.

(* redline_protocol.h:8 VERSION *)
Definition VERSION : Z := 1.

(* redline_protocol.h:10 HEADER_SIZE *)
Definition HEADER_SIZE : Z := 6.

(* redline_protocol.h:11 MAX_PACKET_SIZE *)
Definition MAX_PACKET_SIZE : Z := 32.

(* redline_protocol.h:12 MAX_PAYLOAD_SIZE *)
Definition MAX_PAYLOAD_SIZE : Z := MAX_PACKET_SIZE - HEADER_SIZE.

(* redline_protocol.h:14 OPCODE_CORE_MIN *)
Definition OPCODE_CORE_MIN : Z := 0.

(* redline_protocol.h:15 OPCODE_CORE_MAX *)
Definition OPCODE_CORE_MAX : Z := 31.

(* redline_protocol.h:17 OPCODE_APPLICATION_MIN *)
Definition OPCODE_APPLICATION_MIN : Z := 32.

(* redline_protocol.h:18 OPCODE_APPLICATION_MAX *)
Definition OPCODE_APPLICATION_MAX : Z := 127.

(** The enumerators of [enum class Opcode : uint8_t]; an opcode of the wire
    is any byte. *)

Module Opcode.

(* redline_protocol.h:24 PING *)
Definition PING : Z := 32.

(* redline_protocol.h:25 GET_DEVICE_INFO *)
Definition GET_DEVICE_INFO : Z := 33.

(* redline_protocol.h:26 GET_STATUS *)
Definition GET_STATUS : Z := 34.

(* redline_protocol.h:27 GET_CAPABILITIES *)
Definition GET_CAPABILITIES : Z := 35.

(* redline_protocol.h:28 DESCRIBE_CAPABILITY *)
Definition DESCRIBE_CAPABILITY : Z := 36.

(* redline_protocol.h:29 READ_CAPABILITY *)
Definition READ_CAPABILITY : Z := 37.

(* redline_protocol.h:30 SET_INDICATOR *)
Definition SET_INDICATOR : Z := 38.

(* redline_protocol.h:31 RUN_PROCEDURE *)
Definition RUN_PROCEDURE : Z := 39.

(* redline_protocol.h:32 GET_DIAGNOSTICS *)
Definition GET_DIAGNOSTICS : Z := 40.

(* redline_protocol.h:33 TEST *)
Definition TEST : Z := 100.

End Opcode.

(* redline_protocol.h:36-37 OPCODE_TEST *)
Definition OPCODE_TEST : Z := Opcode.TEST.

(** [enum class PacketType : uint8_t]: a packet that is zero-initialised, or
    whose type is cast from a control byte, holds any byte. *)

Module PacketType.

(* redline_protocol.h:40 COMMAND *)
Definition COMMAND : Z := 1.

(* redline_protocol.h:41 ACK *)
Definition ACK : Z := 2.

(* redline_protocol.h:42 ERROR *)
Definition ERROR : Z := 3.

(* redline_protocol.h:43 RESPONSE *)
Definition RESPONSE : Z := 4.

(* redline_protocol.h:44 EVENT *)
Definition EVENT : Z := 5.

End PacketType.

Module AckStatus.

(* redline_protocol.h:48 SUCCESS *)
Definition SUCCESS : Z := 0.

(* redline_protocol.h:49 UNSUPPORTED_OPCODE *)
Definition UNSUPPORTED_OPCODE : Z := 1.

(* redline_protocol.h:50 MALFORMED_PACKET *)
Definition MALFORMED_PACKET : Z := 2.

End AckStatus.

(* redline_protocol.h:53-55 isSupportedCommandOpcode *)
Definition isSupportedCommandOpcode (opcode : Z) : bool := opcode =? OPCODE_TEST.

(* redline_protocol.h:57-65 expectedCommandPayloadLength *)
Definition expectedCommandPayloadLength (opcode : Z) : Z :=
  if opcode =? OPCODE_TEST then 0 else MAX_PAYLOAD_SIZE + 1.

(* redline_protocol.h:67-78 isValidCommandPayload *)
Definition isValidCommandPayload (opcode payloadLength : Z) : bool :=
  let expectedLength := expectedCommandPayloadLength opcode in
  (expectedLength <=? MAX_PAYLOAD_SIZE) && (payloadLength =? expectedLength).

(* redline_protocol.h:80-90 isValidAckStatus *)
Definition isValidAckStatus (value : Z) : bool :=
  (value =? AckStatus.SUCCESS) || (value =? AckStatus.UNSUPPORTED_OPCODE)
  || (value =? AckStatus.MALFORMED_PACKET).

(* redline_protocol.h:92-100 Packet *)
Record Packet := mkPacket {
  type : Z;
  source : Z;
  destination : Z;
  sequence : Z;
  opcode : Z;
  payloadLength : Z;
  payload : list Z
}.

#[global] Instance eta_Packet : RecEta Packet := λ p,
  mkPacket (type p) (source p) (destination p) (sequence p) (opcode p)
    (payloadLength p) (payload p).

(** [Packet packet = {};] *)
Definition zeroPacket : Packet := mkPacket 0 0 0 0 0 0 (zeros 26).

(* redline_protocol.h:102-107 makeControl *)
Definition makeControl (type : Z) : Z :=
  u8 (Z.lor (Z.shiftl VERSION 4) (Z.land type 15)).

(* redline_protocol.h:109-111 getVersion *)
Definition getVersion (control : Z) : Z := Z.shiftr control 4.

(* redline_protocol.h:113-115 getPacketType *)
Definition getPacketType (control : Z) : Z := Z.land control 15.

(** The result of [encode]: its truth value, the output buffer, and
    [encodedLength]. *)
(* redline_protocol.h:117-153 encode *)
Definition encode (packet : Packet) (output : option (list Z))
    : bool * option (list Z) * Z :=
  match output with
  | None => (false, None, 0)
  | Some out =>
      if MAX_PAYLOAD_SIZE <? payloadLength packet then (false, output, 0) else
      let requiredLength := HEADER_SIZE + payloadLength packet in
      if Z.of_nat (length out) <? requiredLength then (false, output, 0) else
      let out := upd out 0 (makeControl (type packet)) in
      let out := upd out 1 (source packet) in
      let out := upd out 2 (destination packet) in
      let out := upd out 3 (sequence packet) in
      let out := upd out 4 (opcode packet) in
      let out := upd out 5 (payloadLength packet) in
      let out := copy_bytes (Z.to_nat (payloadLength packet)) out 6 (payload packet) 0 in
      (true, Some out, requiredLength)
  end.

(** [decode] writes the packet it is given; the payload bytes past
    [payloadLength] keep what that packet held. *)
(* redline_protocol.h:155-202 decode *)
Definition decode (input : option (list Z)) (packet : Packet) : bool * Packet :=
  match input with
  | None => (false, packet)
  | Some inp =>
      let inputLength := Z.of_nat (length inp) in
      if inputLength <? HEADER_SIZE then (false, packet) else
      if negb (getVersion (rd inp 0) =? VERSION) then (false, packet) else
      let plen := rd inp 5 in
      if MAX_PAYLOAD_SIZE <? plen then (false, packet) else
      if negb (inputLength =? HEADER_SIZE + plen) then (false, packet) else
      let t := getPacketType (rd inp 0) in
      if negb ((t =? PacketType.COMMAND) || (t =? PacketType.ACK)
               || (t =? PacketType.ERROR) || (t =? PacketType.RESPONSE)
               || (t =? PacketType.EVENT)) then (false, packet) else
      (true, mkPacket t (rd inp 1) (rd inp 2) (rd inp 3) (rd inp 4) plen
               (copy_bytes (Z.to_nat plen) (payload packet) 0 inp 6))
  end.

(* redline_protocol.h:204-209 isAddressedTo *)
Definition isAddressedTo (packet : Packet) (deviceId : Z) : bool :=
  destination packet =? deviceId.

(** A packet as the source's types hold it. *)
Definition packet_wf (p : Packet) : Prop :=
  is_u8 (type p) ∧ is_u8 (source p) ∧ is_u8 (destination p) ∧ is_u8 (sequence p)
  ∧ is_u8 (opcode p) ∧ is_u8 (payloadLength p)
  ∧ length (payload p) = 26%nat ∧ is_byte_list (payload p).

(** A packet the wire carries: a known type, a bounded payload, nothing past it. *)
Definition packet_canonical (p : Packet) : Prop :=
  packet_wf p ∧ 1 ≤ type p ≤ 5 ∧ payloadLength p ≤ MAX_PAYLOAD_SIZE
  ∧ all_zero (drop (Z.to_nat (payloadLength p)) (payload p)) = true.

Definition wire_bytes (p : Packet) : list Z :=
  [makeControl (type p); source p; destination p; sequence p; opcode p; payloadLength p]
  ++ take (Z.to_nat (payloadLength p)) (payload p).

Lemma makeControl_known t :
  1 ≤ t ≤ 5 → getVersion (makeControl t) = VERSION ∧ getPacketType (makeControl t) = t.
Proof.
  intros Ht. assert (t = 1 ∨ t = 2 ∨ t = 3 ∨ t = 4 ∨ t = 5) as [->|[->|[->|[->| ->]]]] by lia;
    done.
Qed.

Lemma control_of_version b t :
  is_u8 b → getVersion b = VERSION → getPacketType b = t → makeControl t = b.
Proof.
  unfold getVersion, getPacketType, makeControl, VERSION. intros Hb Hv <-.
  rewrite Z.shiftr_div_pow2 in Hv by lia.
  change 15 with (Z.ones 4). rewrite Z.land_ones by lia.
  rewrite Z.land_ones, Z.mod_mod by lia.
  rewrite Z.lor_comm, lor_shiftl_add by (lia || apply Z.mod_pos_bound; lia).
  change (2 ^ 4) with 16 in *. uint.
Qed.

(** An encode into a large enough buffer writes the wire bytes at its start. *)
Lemma encode_spec p out :
  packet_wf p → payloadLength p ≤ MAX_PAYLOAD_SIZE →
  6 + payloadLength p ≤ Z.of_nat (length out) →
  encode p (Some out)
  = (true, Some (wire_bytes p ++ drop (6 + Z.to_nat (payloadLength p)) out),
     6 + payloadLength p).
Proof.
  intros (_&_&_&_&_&Hl&Hn&_) Hm Hlen. unfold is_uint in Hl.
  unfold encode, MAX_PAYLOAD_SIZE, MAX_PACKET_SIZE, HEADER_SIZE in *.
  destruct (Z.ltb_spec (32 - 6) (payloadLength p)) as [|_]; [lia|].
  destruct (Z.ltb_spec (Z.of_nat (length out)) (6 + payloadLength p)) as [|_]; [lia|].
  do 2 f_equal. rewrite copy_bytes_spec by len. rewrite drop_0.
  destruct out as [|o0 [|o1 [|o2 [|o3 [|o4 [|o5 out]]]]]]; simpl in Hlen; try lia.
  unfold upd, wire_bytes. simpl. done.
Qed.

Lemma wire_bytes_length p :
  packet_wf p → payloadLength p ≤ MAX_PAYLOAD_SIZE →
  length (wire_bytes p) = (6 + Z.to_nat (payloadLength p))%nat.
Proof.
  intros (_&_&_&_&_&Hl&Hn&_) Hm. unfold wire_bytes.
  unfold MAX_PAYLOAD_SIZE, MAX_PACKET_SIZE, HEADER_SIZE, is_uint in *. len.
Qed.

Lemma wire_bytes_byte p : packet_wf p → is_byte_list (wire_bytes p).
Proof.
  intros (?&?&?&?&?&?&?&?). unfold wire_bytes. apply Forall_app. split.
  - repeat (constructor; [done || apply u8_range|]). done.
  - by apply Forall_take.
Qed.

Lemma bool_type_known t :
  negb ((t =? PacketType.COMMAND) || (t =? PacketType.ACK) || (t =? PacketType.ERROR)
        || (t =? PacketType.RESPONSE) || (t =? PacketType.EVENT)) = false ↔ 1 ≤ t ≤ 5.
Proof.
  unfold PacketType.COMMAND, PacketType.ACK, PacketType.ERROR, PacketType.RESPONSE,
    PacketType.EVENT. lia.
Qed.

(** What a successful decode says of the bytes. *)
Lemma decode_inv inp q p :
  is_byte_list inp → decode (Some inp) q = (true, p) →
  length inp = (6 + Z.to_nat (payloadLength p))%nat
  ∧ 1 ≤ type p ≤ 5 ∧ 0 ≤ payloadLength p ≤ MAX_PAYLOAD_SIZE
  ∧ take 6 inp = [makeControl (type p); source p; destination p; sequence p; opcode p;
                  payloadLength p]
  ∧ payload p = copy_bytes (Z.to_nat (payloadLength p)) (payload q) 0 inp 6.
Proof.
  intros Hb. unfold decode.
  destruct (Z.ltb_spec (Z.of_nat (length inp)) HEADER_SIZE) as [|Hlen]; [done|].
  destruct (Z.eqb_spec (getVersion (rd inp 0)) VERSION) as [Hv|]; [|done]. bsimp.
  destruct (Z.ltb_spec MAX_PAYLOAD_SIZE (rd inp 5)) as [|Hp]; [done|].
  destruct (Z.eqb_spec (Z.of_nat (length inp)) (HEADER_SIZE + rd inp 5)) as [Hl|]; [|done].
  bsimp. destruct (negb (_ || _)) eqn:Ht; [done|].
  apply bool_type_known in Ht. intros [= <-]; simpl.
  pose proof (rd_byte inp 5 Hb) as H5. pose proof (rd_byte inp 0 Hb) as H0.
  unfold HEADER_SIZE, is_uint in *. split_and!; try lia; [|done].
  erewrite control_of_version by eauto.
  destruct inp as [|b0 [|b1 [|b2 [|b3 [|b4 [|b5 inp]]]]]]; simpl in Hlen; try lia. done.
Qed.

(** [decode] reads a packet back from its wire bytes. *)
Lemma decode_wire_bytes p :
  packet_canonical p → decode (Some (wire_bytes p)) zeroPacket = (true, p).
Proof.
  intros (Hwf & Ht & Hm & Hz).
  pose proof (wire_bytes_length p Hwf Hm) as HL. unfold decode.
  destruct Hwf as (Ht8&Hs&Hd&Hq&Ho&Hl&Hn&Hb). unfold is_uint in Hl.
  unfold MAX_PAYLOAD_SIZE, MAX_PACKET_SIZE, HEADER_SIZE in *. rewrite HL.
  skip_if. change (rd (wire_bytes p) 0) with (makeControl (type p)).
  change (rd (wire_bytes p) 5) with (payloadLength p).
  destruct (makeControl_known (type p) Ht) as [-> ->]. do 3 skip_if.
  rewrite (proj2 (bool_type_known _) Ht).
  f_equal. destruct p as [t s d q o l pl]; simpl in *. f_equal.
  rewrite copy_bytes_spec by (unfold wire_bytes; simpl; len).
  rewrite take_0. unfold wire_bytes. simpl. rewrite drop_0, firstn_firstn, Nat.min_id.
  apply all_zero_spec in Hz. rewrite length_drop, Hn in Hz.
  unfold zeros in *. change (skipn (Z.to_nat l)) with (drop (A:=Z) (Z.to_nat l)).
  rewrite drop_replicate, <- Hz. apply take_drop.
Qed.

(** Every packet the wire can carry survives it: the bytes [encode] writes
    are [wire_bytes], [encodedLength] of them, and [decode] reads the same
    packet back from them. *)
Theorem packet_roundtrip p out :
  packet_canonical p → 6 + payloadLength p ≤ Z.of_nat (length out) →
  ∃ rest, encode p (Some out) = (true, Some (wire_bytes p ++ rest), Z.of_nat (length (wire_bytes p)))
    ∧ decode (Some (wire_bytes p)) zeroPacket = (true, p).
Proof.
  intros Hc Hlen. pose proof (decode_wire_bytes p Hc). destruct Hc as (Hwf & Ht & Hm & Hz).
  eexists. rewrite encode_spec by done. split; [|done].
  do 2 f_equal. rewrite wire_bytes_length by done. destruct Hwf as (_&_&_&_&_&Hl&_).
  unfold is_uint in Hl. lia.
Qed.

Lemma packet_roundtrip_witness :
  let p := mkPacket 1 7 9 3 100 2 ([170; 187] ++ zeros 24) in
  ∃ rest, encode p (Some (zeros 32)) = (true, Some (wire_bytes p ++ rest), Z.of_nat (length (wire_bytes p)))
    ∧ decode (Some (wire_bytes p)) zeroPacket = (true, p).
Proof.
  apply packet_roundtrip; unfold packet_canonical, packet_wf; concrete.
Defined.

Lemma decode_payload inp p :
  is_byte_list inp → decode (Some inp) zeroPacket = (true, p) →
  payload p = take (Z.to_nat (payloadLength p)) (drop 6 inp)
    ++ zeros (26 - Z.to_nat (payloadLength p)).
Proof.
  intros Hb H. apply decode_inv in H as (HL & Ht & Hm & H6 & Hp); [|done].
  unfold MAX_PAYLOAD_SIZE, MAX_PACKET_SIZE, HEADER_SIZE in *.
  rewrite Hp, copy_bytes_spec by (simpl; len). simpl app.
  unfold zeros. by rewrite drop_replicate.
Qed.

Lemma decode_is_canonical inp p :
  is_byte_list inp → decode (Some inp) zeroPacket = (true, p) → packet_canonical p.
Proof.
  intros Hb H. pose proof (decode_payload inp p Hb H) as Hpl.
  apply decode_inv in H as (HL & Ht & Hm & H6 & _); [|done].
  unfold MAX_PAYLOAD_SIZE, MAX_PACKET_SIZE, HEADER_SIZE in *.
  assert (Hb6 : is_byte_list (take 6 inp)) by by apply Forall_take.
  rewrite H6 in Hb6. repeat (apply Forall_cons in Hb6 as [? Hb6]).
  split; [|split; [done|split; [by apply Hm|]]].
  - assert (length (payload p) = 26%nat) by (rewrite Hpl; len).
    assert (is_byte_list (payload p)).
    { rewrite Hpl. apply Forall_app. split; [|apply zeros_byte].
      by apply Forall_take, Forall_drop. }
    assert (is_u8 (type p)) by (uint_unfold; lia). done.
  - rewrite Hpl. rewrite drop_app_length' by len. apply all_zero_spec. by len.
Qed.

Lemma decode_is_wire_bytes inp p :
  is_byte_list inp → decode (Some inp) zeroPacket = (true, p) → wire_bytes p = inp.
Proof.
  intros Hb H. pose proof (decode_payload inp p Hb H) as Hpl.
  apply decode_inv in H as (HL & Ht & Hm & H6 & _); [|done].
  unfold MAX_PAYLOAD_SIZE, MAX_PACKET_SIZE, HEADER_SIZE in *.
  unfold wire_bytes. rewrite Hpl, take_app_length' by len.
  rewrite <- H6. rewrite (take_ge (drop 6 inp)) by len. apply take_drop.
Qed.

(** The wire format is canonical: bytes that decode are the very bytes the
    decoded packet encodes to, so two different byte strings never decode to
    the same packet. *)
Theorem packet_decode_canonical inp p out :
  is_byte_list inp → decode (Some inp) zeroPacket = (true, p) →
  (length inp ≤ length out)%nat →
  packet_canonical p
  ∧ encode p (Some out) = (true, Some (inp ++ drop (length inp) out), Z.of_nat (length inp)).
Proof.
  intros Hb H Hlen. pose proof (decode_is_canonical inp p Hb H) as Hc. split; [done|].
  rewrite <- (decode_is_wire_bytes inp p Hb H) in *. destruct Hc as (Hwf & _ & Hm & _).
  rewrite wire_bytes_length in * by done.
  assert (is_u8 (payloadLength p)) by apply Hwf. unfold is_uint in *.
  rewrite encode_spec by (done || lia). do 2 f_equal. lia.
Qed.

Lemma packet_decode_canonical_witness :
  let p := mkPacket 2 9 7 3 100 1 ([1] ++ zeros 25) in
  packet_canonical p
  ∧ encode p (Some (zeros 9)) = (true, Some ([18; 9; 7; 3; 100; 1; 1] ++ drop 7 (zeros 9)), 7).
Proof.
  apply (packet_decode_canonical [18; 9; 7; 3; 100; 1; 1]);
    [concrete|vm_compute; reflexivity|simpl; lia].
Defined.

(** Two writings into a long enough buffer that agree are the same bytes. *)
Lemma written_bytes_eq (a b out : list Z) (m n : Z) :
  (true, Some (a ++ drop (length a) out), m) = (true, Some (b ++ drop (length b) out), n) →
  m = Z.of_nat (length a) → n = Z.of_nat (length b) → a = b.
Proof.
  intros He E2 E3. injection He as E E1. apply (f_equal (take (length a))) in E.
  rewrite take_app_length in E. assert (El : length a = length b) by lia.
  by rewrite El, take_app_length in E.
Qed.

(** The packet codec.  A byte string decodes to a packet exactly when the
    packet is one the wire can carry and the string is what [encode] writes for
    it, into any buffer that has room, leaving the rest of the buffer alone.
    So a packet survives the wire, and no two strings decode to one packet. *)
Theorem packet_codec inp p :
  is_byte_list inp →
  decode (Some inp) zeroPacket = (true, p)
  ↔ packet_canonical p
    ∧ ∀ out, (length inp ≤ length out)%nat →
        encode p (Some out) = (true, Some (inp ++ drop (length inp) out), Z.of_nat (length inp)).
Proof.
  intros Hb. split.
  { intros Hd. split; [by eapply decode_is_canonical|].
    intros out Hlen. by apply (packet_decode_canonical inp p out). }
  intros [Hc He]. specialize (He (inp ++ zeros 32) ltac:(len)).
  pose proof Hc as (Hwf & _ & Hm & _). pose proof (wire_bytes_length p Hwf Hm) as HL.
  assert (is_u8 (payloadLength p)) by apply Hwf.
  unfold is_uint, MAX_PAYLOAD_SIZE, MAX_PACKET_SIZE, HEADER_SIZE in *.
  rewrite encode_spec in He
    by (done || (unfold MAX_PAYLOAD_SIZE, MAX_PACKET_SIZE, HEADER_SIZE; len)).
  rewrite <- HL in He. rewrite <- (written_bytes_eq _ _ _ _ _ He) by (rewrite ?HL; lia).
  by apply decode_wire_bytes.
Qed.

Lemma packet_codec_witness :
  let p := mkPacket 2 9 7 3 100 1 ([1] ++ zeros 25) in
  decode (Some [18; 9; 7; 3; 100; 1; 1]) zeroPacket = (true, p)
  ↔ packet_canonical p
    ∧ ∀ out, (7 ≤ length out)%nat →
        encode p (Some out) = (true, Some ([18; 9; 7; 3; 100; 1; 1] ++ drop 7 out), 7).
Proof. apply (packet_codec [18; 9; 7; 3; 100; 1; 1]). concrete. Defined.

End Protocol.


Module TransactionEngine.

Import Protocol.

(* transaction_engine.h:55-62 = NodeDuplicateTracker fields *)
Record NodeDuplicateTracker := mkTracker {
  hasRememberedCommand_ : bool;
  source_ : Z;
  sequence_ : Z;
  opcode_ : Z;
  payloadLength_ : Z;
  payload_ : list Z;
  status_ : Z
}.

(* transaction_engine.h:56-62 = NodeDuplicateTracker initial state *)
Definition newTracker : NodeDuplicateTracker :=
  mkTracker false 0 0 0 0 (zeros 26) AckStatus.SUCCESS.

(* transaction_engine.h:10-29 isDuplicate *)
Definition isDuplicate (t : NodeDuplicateTracker) (command : Packet) : bool :=
  if negb (hasRememberedCommand_ t)
     || negb (source command =? source_ t)
     || negb (sequence command =? sequence_ t)
     || negb (opcode command =? opcode_ t)
     || negb (payloadLength command =? payloadLength_ t)
     || (MAX_PAYLOAD_SIZE <? payloadLength command)
  then false
  else bytes_eqb (Z.to_nat (payloadLength command)) (payload command) (payload_ t) 0.

(* transaction_engine.h:31-47 remember *)
Definition remember (command : Packet) (status : Z) (t : NodeDuplicateTracker)
    : NodeDuplicateTracker :=
  mkTracker true (source command) (sequence command) (opcode command)
    (payloadLength command)
    (map (λ index, if Z.of_nat index <? payloadLength command
                   then rd (payload command) index else 0) (seq 0 26))
    status.

(* transaction_engine.h:50-52 rememberedStatus *)
Definition rememberedStatus (t : NodeDuplicateTracker) : Z := status_ t.

(* transaction_engine.h:64-72 NodeCommandOutcome *)
Inductive NodeCommandOutcome :=
| IGNORE_WRONG_DESTINATION
| IGNORE_WRONG_SENDER
| IGNORE_WRONG_PACKET_TYPE
| DUPLICATE
| ACK_SUCCESS
| ACK_UNSUPPORTED_OPCODE
| ACK_MALFORMED_PACKET.

(* transaction_engine.h:74-78 NodeCommandEvaluation *)
Record NodeCommandEvaluation := mkEvaluation {
  outcome : NodeCommandOutcome;
  status : Z
}.

(* transaction_engine.h:80-138 evaluateNodeCommand *)
Definition evaluateNodeCommand (command : Packet) (localDeviceId peerDeviceId : Z)
    : st NodeDuplicateTracker NodeCommandEvaluation := λ t,
  if negb (isAddressedTo command localDeviceId) then
    (mkEvaluation IGNORE_WRONG_DESTINATION AckStatus.SUCCESS, t)
  else if negb (type command =? PacketType.COMMAND) then
    (mkEvaluation IGNORE_WRONG_PACKET_TYPE AckStatus.SUCCESS, t)
  else if negb (source command =? peerDeviceId) then
    (mkEvaluation IGNORE_WRONG_SENDER AckStatus.SUCCESS, t)
  else if negb (isSupportedCommandOpcode (opcode command)) then
    (mkEvaluation ACK_UNSUPPORTED_OPCODE AckStatus.UNSUPPORTED_OPCODE, t)
  else if negb (isValidCommandPayload (opcode command) (payloadLength command)) then
    (mkEvaluation ACK_MALFORMED_PACKET AckStatus.MALFORMED_PACKET, t)
  else if isDuplicate t command then
    (mkEvaluation DUPLICATE (rememberedStatus t), t)
  else
    (mkEvaluation ACK_SUCCESS AckStatus.SUCCESS,
     remember command AckStatus.SUCCESS t).

(* transaction_engine.h:140-148 HubAckOutcome *)
Inductive HubAckOutcome :=
| HUB_IGNORE_WRONG_DESTINATION
| HUB_IGNORE_WRONG_SENDER
| HUB_IGNORE_WRONG_PACKET_TYPE
| IGNORE_WRONG_SEQUENCE
| IGNORE_WRONG_OPCODE
| IGNORE_MALFORMED_PAYLOAD
| MATCHING_ACK.

(* transaction_engine.h:150-157 HubTransactionAction *)
Inductive HubTransactionAction :=
| NO_ACTION
| TRANSMIT_INITIAL
| RETRANSMIT
| TRANSACTION_SUCCEEDED
| TRANSACTION_REMOTE_ERROR
| TRANSACTION_FAILED.

(* transaction_engine.h:251-256 = HubTransactionState fields *)
Record HubTransactionState := mkHubTransaction {
  hub_sequence_ : Z;
  retryCount_ : Z;
  maximumRetries_ : Z;
  awaitingAcknowledgment_ : bool;
  acknowledgmentDeadline_ : Z;
  acknowledgmentTimeoutMs_ : Z
}.

#[global] Instance eta_HubTransactionState : RecEta HubTransactionState := λ h,
  mkHubTransaction (hub_sequence_ h) (retryCount_ h) (maximumRetries_ h)
    (awaitingAcknowledgment_ h) (acknowledgmentDeadline_ h) (acknowledgmentTimeoutMs_ h).

(* transaction_engine.h:161 DEFAULT_INITIAL_SEQUENCE *)
Definition DEFAULT_INITIAL_SEQUENCE : Z := 1.

(* transaction_engine.h:162 DEFAULT_MAX_RETRIES *)
Definition DEFAULT_MAX_RETRIES : Z := 2.

(* transaction_engine.h:163 DEFAULT_ACK_TIMEOUT_MS *)
Definition DEFAULT_ACK_TIMEOUT_MS : Z := 2500.

(* transaction_engine.h:165-172 = HubTransactionState constructor *)
Definition newHubTransaction (initialSequence maximumRetries acknowledgmentTimeoutMs : Z)
    : HubTransactionState :=
  mkHubTransaction initialSequence 0 maximumRetries false 0 acknowledgmentTimeoutMs.

(* transaction_engine.h:194-198 requestedTransmission *)
Definition requestedTransmission (h : HubTransactionState) : HubTransactionAction :=
  if retryCount_ h =? 0 then TRANSMIT_INITIAL else RETRANSMIT.

(* transaction_engine.h:200-204 beginAcknowledgmentWait *)
Definition beginAcknowledgmentWait (currentTimeMs : Z) (h : HubTransactionState)
    : HubTransactionState :=
  h <| awaitingAcknowledgment_ := true |>
    <| acknowledgmentDeadline_ := u32 (currentTimeMs + acknowledgmentTimeoutMs_ h) |>.

(* transaction_engine.h:206-221 acknowledgmentWaitAction *)
Definition acknowledgmentWaitAction (currentTimeMs : Z) (h : HubTransactionState)
    : HubTransactionAction :=
  if negb (awaitingAcknowledgment_ h)
     || (sint32 (currentTimeMs - acknowledgmentDeadline_ h) <? 0)
  then NO_ACTION
  else if retryCount_ h <? maximumRetries_ h then RETRANSMIT else TRANSACTION_FAILED.

(* transaction_engine.h:223-232 attemptFailed *)
Definition attemptFailed : st HubTransactionState HubTransactionAction := λ h,
  let h := h <| awaitingAcknowledgment_ := false |> in
  if retryCount_ h <? maximumRetries_ h
  then (RETRANSMIT, h <| retryCount_ := u8 (retryCount_ h + 1) |>)
  else (TRANSACTION_FAILED, h).

(* transaction_engine.h:235-241 acknowledgmentCompletionAction *)
Definition acknowledgmentCompletionAction (status : Z) : HubTransactionAction :=
  if status =? AckStatus.SUCCESS then TRANSACTION_SUCCEEDED else TRANSACTION_REMOTE_ERROR.

(* transaction_engine.h:244-248 completeTransaction *)
Definition completeTransaction (h : HubTransactionState) : HubTransactionState :=
  h <| hub_sequence_ := u8 (hub_sequence_ h + 1) |> <| retryCount_ := 0 |>
    <| awaitingAcknowledgment_ := false |>.

(* transaction_engine.h:259-263 HubAckEvaluation *)
Record HubAckEvaluation := mkAckEvaluation {
  ack_outcome : HubAckOutcome;
  rawStatus : Z
}.

(* transaction_engine.h:266-297 evaluateHubAcknowledgment *)
Definition evaluateHubAcknowledgment (acknowledgment outstandingCommand : Packet)
    (localHubId peerNodeId : Z) : HubAckEvaluation :=
  if negb (type acknowledgment =? PacketType.ACK) then
    mkAckEvaluation HUB_IGNORE_WRONG_PACKET_TYPE 0
  else if negb (source acknowledgment =? peerNodeId) then
    mkAckEvaluation HUB_IGNORE_WRONG_SENDER 0
  else if negb (isAddressedTo acknowledgment localHubId) then
    mkAckEvaluation HUB_IGNORE_WRONG_DESTINATION 0
  else if negb (sequence acknowledgment =? sequence outstandingCommand) then
    mkAckEvaluation IGNORE_WRONG_SEQUENCE 0
  else if negb (opcode acknowledgment =? opcode outstandingCommand) then
    mkAckEvaluation IGNORE_WRONG_OPCODE 0
  else if negb (payloadLength acknowledgment =? 1) then
    mkAckEvaluation IGNORE_MALFORMED_PAYLOAD 0
  else mkAckEvaluation MATCHING_ACK (rd (payload acknowledgment) 0).

(* transaction_engine.h:300-313 makeAcknowledgment *)
Definition makeAcknowledgment (command : Packet) (status : Z) : Packet :=
  mkPacket PacketType.ACK (destination command) (source command) (sequence command)
    (opcode command) 1 (upd (zeros 26) 0 status).

(** A run of the Node over a sequence of received packets: the outcomes, and
    the tracker it ends with. *)
Fixpoint evaluateAll (commands : list Packet) (localDeviceId peerDeviceId : Z)
    : st NodeDuplicateTracker (list NodeCommandOutcome) :=
  match commands with
  | [] => ret []
  | c :: cs =>
      e <~ evaluateNodeCommand c localDeviceId peerDeviceId ;;
      os <~ evaluateAll cs localDeviceId peerDeviceId ;;
      ret (outcome e :: os)
  end.

(** [n] failed attempts in a row, with the action each asked for. *)
Fixpoint attemptsFailed (n : nat) : st HubTransactionState (list HubTransactionAction) :=
  match n with
  | O => ret []
  | S m => a <~ attemptFailed ;; l <~ attemptsFailed m ;; ret (a :: l)
  end.

Lemma evaluate_other_keeps c local peer t :
  outcome (evaluateNodeCommand c local peer t).1 ≠ ACK_SUCCESS →
  (evaluateNodeCommand c local peer t).2 = t.
Proof. unfold evaluateNodeCommand. repeat case_match; simpl; congruence. Qed.

Lemma remember_duplicate c status t :
  packet_wf c → payloadLength c ≤ MAX_PAYLOAD_SIZE →
  isDuplicate (remember c status t) c = true.
Proof.
  intros (_&_&_&_&_&Hl&_) Hm. unfold isDuplicate, remember. cbn -[seq].
  rewrite !Z.eqb_refl. bsimp. unfold MAX_PAYLOAD_SIZE, MAX_PACKET_SIZE, HEADER_SIZE in *.
  skip_if. apply bytes_eqb_spec. intros k Hk. unfold is_uint in Hl. symmetry.
  apply rd_lookup. rewrite list_lookup_fmap, lookup_seq_lt by lia. simpl.
  rewrite (proj2 (Z.ltb_lt _ _)) by lia. done.
Qed.

Lemma accepted_inv c local peer t t1 :
  evaluateNodeCommand c local peer t = (mkEvaluation ACK_SUCCESS AckStatus.SUCCESS, t1) →
  isAddressedTo c local = true ∧ (type c =? PacketType.COMMAND) = true
  ∧ (source c =? peer) = true ∧ isSupportedCommandOpcode (opcode c) = true
  ∧ isValidCommandPayload (opcode c) (payloadLength c) = true
  ∧ isDuplicate t c = false ∧ t1 = remember c AckStatus.SUCCESS t.
Proof.
  unfold evaluateNodeCommand.
  destruct (isAddressedTo c local); [|done]. destruct (type c =? _); [|done].
  destruct (source c =? peer); [|done].
  destruct (isSupportedCommandOpcode _); [|done].
  destruct (isValidCommandPayload _ _); [|done].
  destruct (isDuplicate t c); [done|]. by intros [= <-].
Qed.

(** At-most-once execution of the legacy command: once the Node accepts a
    command, the same command received again - after any other traffic that is
    not itself a newly accepted command - is a duplicate that is answered with
    the remembered status and changes nothing. *)
Theorem node_at_most_once c local peer t t1 commands :
  packet_wf c →
  evaluateNodeCommand c local peer t = (mkEvaluation ACK_SUCCESS AckStatus.SUCCESS, t1) →
  Forall (λ o, o ≠ ACK_SUCCESS) (evaluateAll commands local peer t1).1 →
  let t2 := (evaluateAll commands local peer t1).2 in
  evaluateNodeCommand c local peer t2 = (mkEvaluation DUPLICATE AckStatus.SUCCESS, t2).
Proof.
  intros Hwf (H1 & H2 & H3 & H4 & H5 & _ & ->)%accepted_inv Hos t2.
  assert (t2 = remember c AckStatus.SUCCESS t) as ->.
  { subst t2. revert Hos. generalize (remember c AckStatus.SUCCESS t).
    induction commands as [|d ds IH]; intros t1 Hos; [done|].
    simpl in *. unfold bind, ret in *. simpl in *.
    apply Forall_cons in Hos as [Ho Hos].
    by rewrite (evaluate_other_keeps _ _ _ _ Ho) in *; apply IH. }
  unfold evaluateNodeCommand. rewrite H1, H2, H3, H4, H5. bsimp.
  rewrite remember_duplicate; [done|done|].
  unfold isValidCommandPayload in H5. zbool. lia.
Qed.

Lemma node_at_most_once_witness :
  let c := mkPacket 1 1 2 7 100 0 (zeros 26) in
  let noise := mkPacket 1 9 2 8 100 0 (zeros 26) in
  evaluateNodeCommand c 2 1 (evaluateAll [noise; c] 2 1 (remember c 0 newTracker)).2
  = (mkEvaluation DUPLICATE 0, (evaluateAll [noise; c] 2 1 (remember c 0 newTracker)).2).
Proof.
  intros c noise. apply (node_at_most_once c 2 1 newTracker).
  - unfold packet_wf. concrete.
  - reflexivity.
  - vm_compute. repeat constructor; discriminate.
Defined.

(** The Hub sends a command at most [maximumRetries + 1] times: from a new
    transaction, exactly the first [maximumRetries] failed attempts ask for a
    retransmission and the next one ends the transaction. *)
Theorem hub_attempts_bounded s m timeout :
  (m ≤ 255)%nat →
  (attemptsFailed (S m) (newHubTransaction s (Z.of_nat m) timeout)).1
  = replicate m RETRANSMIT ++ [TRANSACTION_FAILED].
Proof.
  intros Hm.
  enough (H : ∀ k r aw dl, (k + r = m)%nat →
    (attemptsFailed (S k) (mkHubTransaction s (Z.of_nat r) (Z.of_nat m) aw dl timeout)).1
    = replicate k RETRANSMIT ++ [TRANSACTION_FAILED]) by (apply (H m 0%nat); lia).
  induction k as [|k IH]; intros r aw dl Hk;
    simpl; unfold bind, attemptFailed; cbn [retryCount_ maximumRetries_ rec_set].
  - rewrite (proj2 (Z.ltb_ge _ _)) by lia. done.
  - rewrite (proj2 (Z.ltb_lt _ _)) by lia.
    replace (u8 (Z.of_nat r + 1)) with (Z.of_nat (S r)) by uint.
    cbn [fst snd ret app replicate]. f_equal. apply (IH (S r)). lia.
Qed.

Lemma hub_attempts_bounded_witness :
  (attemptsFailed 3 (newHubTransaction 1 2 2500)).1
  = [RETRANSMIT; RETRANSMIT; TRANSACTION_FAILED].
Proof. apply (hub_attempts_bounded 1 2 2500). lia. Defined.

(** The ACK timeout is right across the wrap of the millisecond clock:
    [d] milliseconds after the wait began - modulo 2^32 - the Hub acts exactly
    when [d] has reached the timeout. *)
Theorem hub_timeout_exact h now d :
  is_u32 now → 0 ≤ d < 2147483648 → 0 ≤ acknowledgmentTimeoutMs_ h ≤ 2147483648 →
  acknowledgmentWaitAction (u32 (now + d)) (beginAcknowledgmentWait now h) = NO_ACTION
  ↔ d < acknowledgmentTimeoutMs_ h.
Proof.
  intros Hn Hd Ht. unfold acknowledgmentWaitAction, beginAcknowledgmentWait.
  cbn -[sint32 wrap]. bsimp.
  set (T := acknowledgmentTimeoutMs_ h) in *.
  assert (E : (sint32 (u32 (now + d) - u32 (now + T)) <? 0) = (d <? T)).
  { unfold sint32.
    destruct (Z.ltb_spec (u32 (u32 (now + d) - u32 (now + T))) 2147483648),
      (Z.ltb_spec d T); (apply Z.ltb_lt || apply Z.ltb_ge); uint. }
  rewrite E. destruct (Z.ltb_spec d T); [done|].
  split; [|lia]. case_match; intros; discriminate.
Qed.

Lemma hub_timeout_exact_witness :
  acknowledgmentWaitAction (u32 (4294967290 + 100))
    (beginAcknowledgmentWait 4294967290 (newHubTransaction 1 2 2500)) = NO_ACTION
  ↔ 100 < acknowledgmentTimeoutMs_ (newHubTransaction 1 2 2500).
Proof. apply hub_timeout_exact; simpl; uint_unfold; lia. Defined.

Lemma makeAcknowledgment_canonical c status :
  packet_wf c → is_u8 status → packet_canonical (makeAcknowledgment c status).
Proof.
  intros (?&?&?&?&?&?&?&?) Hs. unfold packet_canonical, packet_wf, makeAcknowledgment; simpl.
  split_and!; try done; try (uint_unfold; unfold PacketType.ACK; lia).
  constructor; [done|]. apply (zeros_byte 25).
Qed.

(** The legacy transaction end to end: the ACK the Node makes for a
    command the Hub sent, put on the wire and decoded by the Hub, matches the
    outstanding command and carries the Node's status, and the Hub completes
    the transaction successfully exactly when that status is SUCCESS. *)
Theorem legacy_transaction_matches c hub node status :
  packet_wf c → source c = hub → destination c = node → isValidAckStatus status = true →
  let ack := makeAcknowledgment c status in
  ∃ received, decode (Some (wire_bytes ack)) zeroPacket = (true, received)
    ∧ evaluateHubAcknowledgment received c hub node = mkAckEvaluation MATCHING_ACK status
    ∧ (acknowledgmentCompletionAction status = TRANSACTION_SUCCEEDED
       ↔ status = AckStatus.SUCCESS).
Proof.
  intros Hwf <- <- Hs ack.
  assert (is_u8 status).
  { unfold isValidAckStatus, AckStatus.SUCCESS, AckStatus.UNSUPPORTED_OPCODE,
      AckStatus.MALFORMED_PACKET in Hs. uint_unfold. zbool. lia. }
  exists ack. split; [by apply decode_wire_bytes, makeAcknowledgment_canonical|]. split.
  - unfold evaluateHubAcknowledgment, ack, makeAcknowledgment, isAddressedTo. simpl.
    by rewrite !Z.eqb_refl.
  - unfold acknowledgmentCompletionAction. destruct (Z.eqb_spec status AckStatus.SUCCESS);
      split; congruence.
Qed.

Lemma legacy_transaction_matches_witness :
  let c := mkPacket 1 1 2 7 100 0 (zeros 26) in
  ∃ received, decode (Some (wire_bytes (makeAcknowledgment c 0))) zeroPacket = (true, received)
    ∧ evaluateHubAcknowledgment received c 1 2 = mkAckEvaluation MATCHING_ACK 0
    ∧ (acknowledgmentCompletionAction 0 = TRANSACTION_SUCCEEDED ↔ 0 = AckStatus.SUCCESS).
Proof.
  apply legacy_transaction_matches; [unfold packet_wf; concrete|reflexivity..].
Defined.

End TransactionEngine.
