(* ===== verification/EventWire.v ===== *)
(** The Event wire layer, lib/event_protocol: the Event record, the validity
    rules of its families, its packet codec, and the admission response that a
    Hub answers it with.  The codec is the composition with [Protocol] of
    Wire.v. *)

From S2P Require Import Prelude Wire.

Module EventProtocol.

(* event_protocol.h:10 COMMON_PAYLOAD_SIZE *)
Definition COMMON_PAYLOAD_SIZE : Z := 14.

(* event_protocol.h:11 MAX_BODY_SIZE *)
Definition MAX_BODY_SIZE : Z := 12.

(* event_protocol.h:12 ADMISSION_PAYLOAD_SIZE *)
Definition ADMISSION_PAYLOAD_SIZE : Z := 9.

(* event_protocol.h:14 IMPORTANT_FLAG *)
Definition IMPORTANT_FLAG : Z := 1.

(* event_protocol.h:15 ALLOWED_FLAGS *)
Definition ALLOWED_FLAGS : Z := IMPORTANT_FLAG.

(* event_protocol.h:17 MIN_LIFETIME_SECONDS *)
Definition MIN_LIFETIME_SECONDS : Z := 60.

(* event_protocol.h:18 MAX_LIFETIME_SECONDS *)
Definition MAX_LIFETIME_SECONDS : Z := 86400.

(** The families and body codes, all cast from wire bytes. *)

Module Family.

(* event_protocol.h:22 = BUTTON *)
Definition BUTTON : Z := 64.

(* event_protocol.h:23 = SENSOR_THRESHOLD *)
Definition SENSOR_THRESHOLD : Z := 65.

(* event_protocol.h:24 = MANUAL_CHECK_IN *)
Definition MANUAL_CHECK_IN : Z := 68.

End Family.

Module ButtonEvent.

(* event_protocol.h:27 PRESS *)
Definition PRESS : Z := 1.

(* event_protocol.h:28 RELEASE *)
Definition RELEASE : Z := 2.

(* event_protocol.h:29 SHORT_PRESS *)
Definition SHORT_PRESS : Z := 3.

(* event_protocol.h:30 LONG_PRESS *)
Definition LONG_PRESS : Z := 4.

(* event_protocol.h:31 VERY_LONG_PRESS *)
Definition VERY_LONG_PRESS : Z := 5.

End ButtonEvent.

Module SensorValueType.

(* event_protocol.h:35 UNSIGNED_32 *)
Definition UNSIGNED_32 : Z := 2.

(* event_protocol.h:36 SIGNED_32 *)
Definition SIGNED_32 : Z := 3.

(* event_protocol.h:37 NORMALIZED_U16 *)
Definition NORMALIZED_U16 : Z := 4.

(* event_protocol.h:38 FIXED_Q16_16 *)
Definition FIXED_Q16_16 : Z := 5.

(* event_protocol.h:39 ENUM_U16 *)
Definition ENUM_U16 : Z := 6.

End SensorValueType.

Module ThresholdRelation.

(* event_protocol.h:43 CROSSED_BELOW *)
Definition CROSSED_BELOW : Z := 1.

(* event_protocol.h:44 CROSSED_ABOVE *)
Definition CROSSED_ABOVE : Z := 2.

End ThresholdRelation.

(* event_protocol.h:48 USER_REQUEST *)
Definition USER_REQUEST : Z := 1.

Module AdmissionStatus.

(* event_protocol.h:52 ADMITTED *)
Definition ADMITTED : Z := 0.

(* event_protocol.h:53 CAPACITY *)
Definition CAPACITY : Z := 1.

(* event_protocol.h:54 IDENTITY_CONTENT_MISMATCH *)
Definition IDENTITY_CONTENT_MISMATCH : Z := 2.

(* event_protocol.h:55 UNSUPPORTED_EVENT *)
Definition UNSUPPORTED_EVENT : Z := 3.

(* event_protocol.h:56 MALFORMED_EVENT *)
Definition MALFORMED_EVENT : Z := 4.

End AdmissionStatus.

(* event_protocol.h:59-63 Identity *)
Record Identity := mkIdentity {
  sourceDeviceId : Z;
  identityEpoch : Z;
  identityId : Z
}.

(* event_protocol.h:65-76 Event *)
Record Event := mkEvent {
  source : Z;
  destination : Z;
  sequence : Z;
  family : Z;
  epoch : Z;
  id : Z;
  flags : Z;
  lifetimeBudgetSeconds : Z;
  bodyLength : Z;
  body : list Z
}.

#[global] Instance eta_Event : RecEta Event := λ e,
  mkEvent (source e) (destination e) (sequence e) (family e) (epoch e) (id e)
    (flags e) (lifetimeBudgetSeconds e) (bodyLength e) (body e).

Definition zeroEvent : Event := mkEvent 0 0 0 0 0 0 0 0 0 (zeros 12).

(* event_protocol.h:78-86 AdmissionResponse *)
Record AdmissionResponse := mkResponse {
  responseSource : Z;
  responseDestination : Z;
  responseSequence : Z;
  responseFamily : Z;
  status : Z;
  responseEpoch : Z;
  responseId : Z
}.

Definition zeroResponse : AdmissionResponse := mkResponse 0 0 0 0 0 0 0.

(** Buffer and index for the source's output pointer. *)
(* event_protocol.h:88-93 writeUint32Le *)
Definition writeUint32Le (output : list Z) (i : nat) (value : Z) : list Z :=
  let output := upd output i (Z.land value 255) in
  let output := upd output (i + 1) (Z.land (Z.shiftr value 8) 255) in
  let output := upd output (i + 2) (Z.land (Z.shiftr value 16) 255) in
  upd output (i + 3) (Z.land (Z.shiftr value 24) 255).

(* event_protocol.h:95-100 readUint32Le *)
Definition readUint32Le (input : list Z) (i : nat) : Z := read32 input i.

(* event_protocol.h:102-106 isRegisteredFamily *)
Definition isRegisteredFamily (family : Z) : bool :=
  (family =? Family.BUTTON) || (family =? Family.SENSOR_THRESHOLD)
  || (family =? Family.MANUAL_CHECK_IN).

(* event_protocol.h:108-118 expectedBodyLength *)
Definition expectedBodyLength (family : Z) : Z :=
  if (family =? Family.BUTTON) || (family =? Family.MANUAL_CHECK_IN) then 1
  else if family =? Family.SENSOR_THRESHOLD then 8
  else MAX_BODY_SIZE + 1.

(* event_protocol.h:120-123 isValidButtonEvent *)
Definition isValidButtonEvent (value : Z) : bool :=
  (ButtonEvent.PRESS <=? value) && (value <=? ButtonEvent.VERY_LONG_PRESS).

(* event_protocol.h:125-128 isValidSensorValueType *)
Definition isValidSensorValueType (value : Z) : bool :=
  (SensorValueType.UNSIGNED_32 <=? value) && (value <=? SensorValueType.ENUM_U16).

(* event_protocol.h:130-133 isValidThresholdRelation *)
Definition isValidThresholdRelation (value : Z) : bool :=
  (value =? ThresholdRelation.CROSSED_BELOW) || (value =? ThresholdRelation.CROSSED_ABOVE).

(* event_protocol.h:135-137 isValidAdmissionStatus *)
Definition isValidAdmissionStatus (value : Z) : bool :=
  value <=? AdmissionStatus.MALFORMED_EVENT.

(* event_protocol.h:139-173 isValidFamilyBody *)
Definition isValidFamilyBody (family : Z) (body : option (list Z)) (bodyLength : Z) : bool :=
  match body with
  | None => false
  | Some body =>
      if negb (bodyLength =? expectedBodyLength family) then false else
      if family =? Family.BUTTON then isValidButtonEvent (rd body 0) else
      if family =? Family.SENSOR_THRESHOLD then
        let capabilityId := read16 body 0 in
        if (capabilityId =? 0) || negb (isValidSensorValueType (rd body 2))
           || negb (isValidThresholdRelation (rd body 7)) then false else
        let valueType := rd body 2 in
        if (valueType =? SensorValueType.NORMALIZED_U16)
           || (valueType =? SensorValueType.ENUM_U16)
        then (rd body 5 =? 0) && (rd body 6 =? 0)
        else true
      else if family =? Family.MANUAL_CHECK_IN then rd body 0 =? USER_REQUEST
      else false
  end.

(* event_protocol.h:175-177 hasValidEndpoints *)
Definition hasValidEndpoints (source destination : Z) : bool :=
  negb (source =? 0) && negb (destination =? 0) && negb (source =? destination).

(* event_protocol.h:179-188 isValidEvent *)
Definition isValidEvent (event : Event) : bool :=
  hasValidEndpoints (source event) (destination event)
  && negb (epoch event =? 0) && negb (id event =? 0)
  && (Z.land (flags event) (u8 (Z.lnot ALLOWED_FLAGS)) =? 0)
  && (MIN_LIFETIME_SECONDS <=? lifetimeBudgetSeconds event)
  && (lifetimeBudgetSeconds event <=? MAX_LIFETIME_SECONDS)
  && (bodyLength event <=? MAX_BODY_SIZE)
  && isRegisteredFamily (family event)
  && isValidFamilyBody (family event) (Some (body event)) (bodyLength event).

(* event_protocol.h:190-193 sameIdentity *)
Definition sameIdentity (left right : Identity) : bool :=
  (sourceDeviceId left =? sourceDeviceId right)
  && (identityEpoch left =? identityEpoch right)
  && (identityId left =? identityId right).

(* event_protocol.h:195-209 sameCanonicalContent *)
Definition sameCanonicalContent (left right : Event) : bool :=
  if negb (source left =? source right) || negb (family left =? family right)
     || negb (epoch left =? epoch right) || negb (id left =? id right)
     || negb (flags left =? flags right)
     || negb (lifetimeBudgetSeconds left =? lifetimeBudgetSeconds right)
     || negb (bodyLength left =? bodyLength right) then false
  else bytes_eqb (Z.to_nat (bodyLength left)) (body left) (body right) 0.

(** The packet [encodeEvent] fills in before it calls [Protocol::encode]. *)
(* event_protocol.h:222-238 = encodeEvent *)
Definition eventPacket (event : Event) : Protocol.Packet :=
  let payload := Protocol.payload Protocol.zeroPacket in
  let payload := writeUint32Le payload 0 (epoch event) in
  let payload := writeUint32Le payload 4 (id event) in
  let payload := upd payload 8 (flags event) in
  let payload := writeUint32Le payload 9 (lifetimeBudgetSeconds event) in
  let payload := upd payload 13 (bodyLength event) in
  let payload := copy_bytes (Z.to_nat (bodyLength event)) payload 14 (body event) 0 in
  Protocol.mkPacket Protocol.PacketType.EVENT (source event) (destination event)
    (sequence event) (family event) (u8 (COMMON_PAYLOAD_SIZE + bodyLength event)) payload.

(* event_protocol.h:211-240 encodeEvent *)
Definition encodeEvent (event : Event) (output : option (list Z))
    : bool * option (list Z) * Z :=
  if negb (isValidEvent event) then (false, output, 0)
  else Protocol.encode (eventPacket event) output.

(* event_protocol.h:242-276 decodeEvent *)
Definition decodeEvent (input : option (list Z)) (event : Event) : bool * Event :=
  let (ok, packet) := Protocol.decode input Protocol.zeroPacket in
  if negb ok || negb (Protocol.type packet =? Protocol.PacketType.EVENT)
     || (Protocol.payloadLength packet <? COMMON_PAYLOAD_SIZE) then (false, event) else
  let payload := Protocol.payload packet in
  let length := rd payload 13 in
  let decoded :=
    mkEvent (Protocol.source packet) (Protocol.destination packet)
      (Protocol.sequence packet) (Protocol.opcode packet)
      (readUint32Le payload 0) (readUint32Le payload 4) (rd payload 8)
      (readUint32Le payload 9) length (body zeroEvent) in
  if (MAX_BODY_SIZE <? length)
     || negb (Protocol.payloadLength packet =? COMMON_PAYLOAD_SIZE + length)
  then (false, event) else
  let decoded := decoded <| body := copy_bytes (Z.to_nat length) (body decoded) 0 payload 14 |> in
  if negb (isValidEvent decoded) then (false, event) else (true, decoded).

(* event_protocol.h:278-281 isCorrelatableFamily *)
Definition isCorrelatableFamily (family : Z) : bool :=
  (Protocol.OPCODE_APPLICATION_MIN <=? family) && (family <=? Protocol.OPCODE_APPLICATION_MAX).

(* event_protocol.h:283-288 isValidAdmissionResponse *)
Definition isValidAdmissionResponse (response : AdmissionResponse) : bool :=
  hasValidEndpoints (responseSource response) (responseDestination response)
  && isCorrelatableFamily (responseFamily response)
  && negb (responseEpoch response =? 0) && negb (responseId response =? 0)
  && isValidAdmissionStatus (status response).

(** The packet [encodeAdmissionResponse] fills in. *)
(* event_protocol.h:300-309 = encodeAdmissionResponse *)
Definition responsePacket (response : AdmissionResponse) : Protocol.Packet :=
  let payload := upd (Protocol.payload Protocol.zeroPacket) 0 (status response) in
  let payload := writeUint32Le payload 1 (responseEpoch response) in
  let payload := writeUint32Le payload 5 (responseId response) in
  Protocol.mkPacket Protocol.PacketType.ACK (responseSource response)
    (responseDestination response) (responseSequence response)
    (responseFamily response) ADMISSION_PAYLOAD_SIZE payload.

(* event_protocol.h:290-311 encodeAdmissionResponse *)
Definition encodeAdmissionResponse (response : AdmissionResponse) (output : option (list Z))
    : bool * option (list Z) * Z :=
  if negb (isValidAdmissionResponse response) then (false, output, 0)
  else Protocol.encode (responsePacket response) output.

(* event_protocol.h:313-337 decodeAdmissionResponse *)
Definition decodeAdmissionResponse (input : option (list Z)) (response : AdmissionResponse)
    : bool * AdmissionResponse :=
  let (ok, packet) := Protocol.decode input Protocol.zeroPacket in
  if negb ok || negb (Protocol.type packet =? Protocol.PacketType.ACK)
     || negb (Protocol.payloadLength packet =? ADMISSION_PAYLOAD_SIZE)
  then (false, response) else
  let payload := Protocol.payload packet in
  let decoded :=
    mkResponse (Protocol.source packet) (Protocol.destination packet)
      (Protocol.sequence packet) (Protocol.opcode packet) (rd payload 0)
      (readUint32Le payload 1) (readUint32Le payload 5) in
  if negb (isValidAdmissionResponse decoded) then (false, response) else (true, decoded).

(* event_protocol.h:339-352 makeAdmissionResponse *)
Definition makeAdmissionResponse (event : Event) (status : Z) : AdmissionResponse :=
  mkResponse (destination event) (source event) (sequence event) (family event) status
    (epoch event) (id event).

(* event_protocol.h:354-364 matchesEvent *)
Definition matchesEvent (response : AdmissionResponse) (event : Event) : bool :=
  isValidAdmissionResponse response
  && (responseSource response =? destination event)
  && (responseDestination response =? source event)
  && (responseSequence response =? sequence event)
  && (responseFamily response =? family event)
  && (responseEpoch response =? epoch event) && (responseId response =? id event).

(** An Event as the source's types hold it. *)
Definition event_wf (e : Event) : Prop :=
  is_u8 (source e) ∧ is_u8 (destination e) ∧ is_u8 (sequence e) ∧ is_u8 (family e)
  ∧ is_u32 (epoch e) ∧ is_u32 (id e) ∧ is_u8 (flags e)
  ∧ is_u32 (lifetimeBudgetSeconds e) ∧ is_u8 (bodyLength e)
  ∧ length (body e) = 12%nat ∧ is_byte_list (body e).

(** An Event whose body bytes past [bodyLength] are zero, as every event the
    code builds has them. *)
Definition tail_clear (e : Event) : Prop :=
  all_zero (drop (Z.to_nat (bodyLength e)) (body e)) = true.

Definition response_wf (r : AdmissionResponse) : Prop :=
  is_u8 (responseSource r) ∧ is_u8 (responseDestination r) ∧ is_u8 (responseSequence r)
  ∧ is_u8 (responseFamily r) ∧ is_u8 (status r) ∧ is_u32 (responseEpoch r)
  ∧ is_u32 (responseId r).

(** ** Codec lemmas *)

Lemma writeUint32Le_write32 l i v : writeUint32Le l i v = write32 l i v.
Proof.
  unfold writeUint32Le, write32, wrap. change 255 with (Z.ones 8).
  by rewrite !Z.land_ones by lia.
Qed.

(** The body lengths the registered families allow. *)
Lemma valid_body_length e :
  isValidEvent e = true → bodyLength e = 1 ∨ bodyLength e = 8.
Proof.
  unfold isValidEvent. intros [[_ Hf]%andb_true_iff Hb]%andb_true_iff. revert Hb.
  unfold isValidFamilyBody, expectedBodyLength.
  destruct (Z.eqb_spec (bodyLength e)
    (if (family e =? Family.BUTTON) || (family e =? Family.MANUAL_CHECK_IN) then 1
     else if family e =? Family.SENSOR_THRESHOLD then 8 else MAX_BODY_SIZE + 1)) as [->|];
    [intros _|done].
  unfold isRegisteredFamily in Hf. revert Hf.
  destruct (family e =? Family.BUTTON), (family e =? Family.MANUAL_CHECK_IN),
    (family e =? Family.SENSOR_THRESHOLD); simpl; auto. done.
Qed.

Lemma valid_lifetime e :
  isValidEvent e = true → 60 ≤ lifetimeBudgetSeconds e ≤ 86400.
Proof.
  unfold isValidEvent, MIN_LIFETIME_SECONDS, MAX_LIFETIME_SECONDS. intros. zbool. lia.
Qed.

(** The layout of an event's payload. *)
Definition event_payload (e : Event) : list Z :=
  le32 (epoch e) ++ le32 (id e) ++ [flags e] ++ le32 (lifetimeBudgetSeconds e)
  ++ [bodyLength e] ++ take (Z.to_nat (bodyLength e)) (body e)
  ++ zeros (12 - Z.to_nat (bodyLength e)).

Lemma eventPacket_payload e :
  length (body e) = 12%nat → 0 ≤ bodyLength e ≤ 12 →
  Protocol.payload (eventPacket e) = event_payload e.
Proof.
  intros Hb Hl. unfold eventPacket, event_payload. cbn [Protocol.payload].
  rewrite !writeUint32Le_write32. unfold write32.
  rewrite copy_bytes_spec by len. rewrite drop_0.
  unfold zeros, upd. simpl. do 14 f_equal.
  set (n := Z.to_nat (bodyLength e)).
  assert (n ≤ 12)%nat by lia. f_equal.
  by do 13 (destruct n as [|n]; [done|]); lia.
Qed.

Lemma eventPacket_canonical e :
  event_wf e → isValidEvent e = true → Protocol.packet_canonical (eventPacket e).
Proof.
  intros (?&?&?&?&?&?&?&?&?&Hb&Hbb) Hv.
  assert (Hl : 0 ≤ bodyLength e ≤ 12) by (destruct (valid_body_length e Hv); lia).
  pose proof (eventPacket_payload e Hb Hl) as Hp.
  unfold Protocol.packet_canonical, Protocol.packet_wf. rewrite Hp.
  assert (Hpl : Protocol.payloadLength (eventPacket e) = 14 + bodyLength e).
  { cbn. unfold COMMON_PAYLOAD_SIZE. uint. }
  rewrite Hpl. cbn [Protocol.type Protocol.source Protocol.destination Protocol.sequence
    Protocol.opcode eventPacket].
  unfold Protocol.PacketType.EVENT, Protocol.MAX_PAYLOAD_SIZE, Protocol.MAX_PACKET_SIZE,
    Protocol.HEADER_SIZE.
  split_and!; try done; try (uint_unfold; lia).
  - unfold event_payload. len.
  - unfold event_payload. bytes.
  - unfold event_payload. rewrite !app_assoc, drop_app_length'.
    + apply all_zero_spec. by len.
    + unfold le32. len.
Qed.

Lemma payload_words e :
  event_wf e →
  readUint32Le (event_payload e) 0 = epoch e ∧ readUint32Le (event_payload e) 4 = id e
  ∧ readUint32Le (event_payload e) 9 = lifetimeBudgetSeconds e
  ∧ rd (event_payload e) 8 = flags e ∧ rd (event_payload e) 13 = bodyLength e.
Proof.
  intros (?&?&?&?&?&?&?&?&?&?&?).
  unfold readUint32Le, read32, event_payload, le32, rd. simpl.
  by rewrite !word32_le.
Qed.

Lemma payload_body e :
  length (body e) = 12%nat → 0 ≤ bodyLength e ≤ 12 → tail_clear e →
  copy_bytes (Z.to_nat (bodyLength e)) (zeros 12) 0 (event_payload e) 14 = body e.
Proof.
  intros Hb Hl Ht. set (n := Z.to_nat (bodyLength e)).
  assert (n ≤ 12)%nat by lia.
  transitivity (copy_bytes n (zeros (length (body e))) 0 (body e) 0);
    [|apply copy_prefix_zero_tail; [lia|done]].
  rewrite !copy_bytes_spec by (unfold event_payload; len).
  rewrite Hb, drop_0. do 2 f_equal. unfold event_payload, le32. simpl.
  rewrite drop_0, take_app_length' by len. done.
Qed.

Lemma decode_eventPacket e e0 :
  event_wf e → isValidEvent e = true → tail_clear e →
  decodeEvent (Some (Protocol.wire_bytes (eventPacket e))) e0 = (true, e).
Proof.
  intros Hwf Hv Ht. unfold decodeEvent.
  rewrite Protocol.decode_wire_bytes by by apply eventPacket_canonical.
  destruct (payload_words e Hwf) as (E1 & E2 & E3 & E4 & E5).
  destruct Hwf as (?&?&?&?&?&?&?&?&?&Hb&?).
  assert (Hl : 0 ≤ bodyLength e ≤ 12) by (destruct (valid_body_length e Hv); lia).
  rewrite eventPacket_payload, E1, E2, E3, E4, E5 by done.
  assert (Hp : Protocol.payloadLength (eventPacket e) = 14 + bodyLength e).
  { cbn. unfold COMMON_PAYLOAD_SIZE. uint. }
  rewrite Hp. change (Protocol.type (eventPacket e)) with Protocol.PacketType.EVENT.
  unfold COMMON_PAYLOAD_SIZE, MAX_BODY_SIZE. rewrite Z.eqb_refl. bsimp.
  skip_if. skip_if. cbn [rec_set body zeroEvent source destination sequence family epoch
    id flags lifetimeBudgetSeconds bodyLength].
  rewrite payload_body by done.
  cbn [Protocol.source Protocol.destination Protocol.sequence Protocol.opcode eventPacket].
  destruct e; unfold rec_set; cbn in *. by rewrite Hv.
Qed.

Lemma encodeEvent_spec e out :
  event_wf e → isValidEvent e = true →
  (length (Protocol.wire_bytes (eventPacket e)) ≤ length out)%nat →
  encodeEvent e (Some out)
  = (true, Some (Protocol.wire_bytes (eventPacket e)
       ++ drop (length (Protocol.wire_bytes (eventPacket e))) out), 20 + bodyLength e).
Proof.
  intros Hwf Hv. pose proof (eventPacket_canonical e Hwf Hv) as (Hp & _ & Hm & _).
  rewrite Protocol.wire_bytes_length by done. intros Hlen.
  assert (Hl : bodyLength e = 1 ∨ bodyLength e = 8) by by apply valid_body_length.
  assert (Hpl : Protocol.payloadLength (eventPacket e) = 14 + bodyLength e).
  { cbn. unfold COMMON_PAYLOAD_SIZE. uint. }
  unfold encodeEvent. rewrite Hv. bsimp.
  rewrite Protocol.encode_spec by (done || lia). f_equal. lia.
Qed.

Lemma eventPacket_length e :
  event_wf e → isValidEvent e = true →
  20 + bodyLength e = Z.of_nat (length (Protocol.wire_bytes (eventPacket e))).
Proof.
  intros Hwf Hv. pose proof (eventPacket_canonical e Hwf Hv) as (Hp & _ & Hm & _).
  assert (Hl : bodyLength e = 1 ∨ bodyLength e = 8) by by apply valid_body_length.
  rewrite Protocol.wire_bytes_length by done. cbn. unfold COMMON_PAYLOAD_SIZE. uint.
Qed.

(** Every valid Event survives the wire: [encodeEvent] writes
    [20 + bodyLength] bytes and [decodeEvent] reads the same Event back from
    exactly those bytes, whatever the receiving Event held. *)
Theorem event_roundtrip e out e0 :
  event_wf e → tail_clear e → isValidEvent e = true → (28 ≤ length out)%nat →
  ∃ bytes rest, encodeEvent e (Some out) = (true, Some (bytes ++ rest), Z.of_nat (length bytes))
    ∧ Z.of_nat (length bytes) = 20 + bodyLength e
    ∧ decodeEvent (Some bytes) e0 = (true, e).
Proof.
  intros Hwf Ht Hv Hlen. pose proof (eventPacket_canonical e Hwf Hv) as (Hp & _ & Hm & _).
  assert (Hl : bodyLength e = 1 ∨ bodyLength e = 8) by by apply valid_body_length.
  assert (HL : length (Protocol.wire_bytes (eventPacket e)) = Z.to_nat (20 + bodyLength e)).
  { rewrite Protocol.wire_bytes_length by done. cbn. unfold COMMON_PAYLOAD_SIZE. uint. }
  exists (Protocol.wire_bytes (eventPacket e)),
    (drop (length (Protocol.wire_bytes (eventPacket e))) out).
  rewrite encodeEvent_spec by (done || lia). rewrite HL, Z2Nat.id by lia.
  split_and!; [done..|by apply decode_eventPacket].
Qed.

Definition sampleEvent : Event :=
  mkEvent 17 34 5 Family.BUTTON 3000000000 7 1 3600 1 ([3] ++ zeros 11).

Lemma sampleEvent_wf : event_wf sampleEvent.
Proof. unfold event_wf. concrete. Qed.

Lemma event_roundtrip_witness :
  ∃ bytes rest, encodeEvent sampleEvent (Some (zeros 32))
      = (true, Some (bytes ++ rest), Z.of_nat (length bytes))
    ∧ Z.of_nat (length bytes) = 20 + bodyLength sampleEvent
    ∧ decodeEvent (Some bytes) zeroEvent = (true, sampleEvent).
Proof.
  apply event_roundtrip; [apply sampleEvent_wf|reflexivity..|simpl; lia].
Defined.

(** The packet an accepted Event came from is the packet it encodes to. *)
Lemma eventPacket_of_decoded inp e0 e :
  is_byte_list inp → decodeEvent (Some inp) e0 = (true, e) →
  event_wf e ∧ isValidEvent e = true ∧ tail_clear e ∧ Protocol.wire_bytes (eventPacket e) = inp.
Proof.
  intros Hb. unfold decodeEvent.
  destruct (Protocol.decode (Some inp) Protocol.zeroPacket) as [ok p] eqn:Hd.
  destruct ok; [|done]. bsimp.
  pose proof (Protocol.decode_is_canonical inp p Hb Hd) as (Hwf & _ & Hm & Hz).
  rewrite <- (Protocol.decode_is_wire_bytes inp p Hb Hd).
  destruct Hwf as (Ht8&?&?&?&?&Hpl&Hl&Hpb).
  destruct p as [t s d q o n pl]; cbn [Protocol.type Protocol.source Protocol.destination
    Protocol.sequence Protocol.opcode Protocol.payloadLength Protocol.payload] in *.
  destruct (Z.eqb_spec t Protocol.PacketType.EVENT) as [->|]; [|done]. bsimp.
  destruct (Z.ltb_spec n COMMON_PAYLOAD_SIZE); [done|].
  destruct (Z.ltb_spec MAX_BODY_SIZE (rd pl 13)); [done|].
  destruct (Z.eqb_spec n (COMMON_PAYLOAD_SIZE + rd pl 13)) as [Hn|]; [|done]. bsimp.
  destruct (isValidEvent _) eqn:Hv; [|done]. intros [= <-].
  pose proof (valid_body_length _ Hv) as Hbl. cbn in Hbl.
  unfold COMMON_PAYLOAD_SIZE in *. explode pl Hl.
  repeat (apply Forall_cons in Hpb as [? Hpb]).
  assert (Hx : rd [x; x0; x1; x2; x3; x4; x5; x6; x7; x8; x9; x10; x11; x12; x13; x14; x15;
    x16; x17; x18; x19; x20; x21; x22; x23; x24] 13 = x12) by done.
  rewrite Hx in *. clear Hx. subst n.
  destruct Hbl as [-> | ->]; apply all_zero_spec in Hz; cbn in Hz;
    injection Hz as ?; subst;
    unfold rec_set, readUint32Le, read32, rd; simpl nth; (split_and!; [|done|done|]).
  1, 3: unfold event_wf; cbn; split_and!; auto with uint; bytes; done.
  all: unfold Protocol.wire_bytes; rewrite eventPacket_payload by (done || cbn; lia);
    unfold event_payload; cbn -[Z.lor Z.shiftl le32];
    rewrite !le32_word by done; done.
Qed.

(** The Event codec is canonical: bytes that decode to an Event are a valid
    Event's, and encoding that Event writes those bytes again. *)
Theorem event_decode_canonical inp e0 e out :
  is_byte_list inp → decodeEvent (Some inp) e0 = (true, e) → (length inp ≤ length out)%nat →
  event_wf e ∧ isValidEvent e = true
  ∧ encodeEvent e (Some out) = (true, Some (inp ++ drop (length inp) out), 20 + bodyLength e).
Proof.
  intros Hb Hd Hlen. destruct (eventPacket_of_decoded inp e0 e Hb Hd) as (Hwf & Hv & _ & Hw).
  split_and!; [done..|]. rewrite encodeEvent_spec; rewrite ?Hw; done.
Qed.

Lemma event_decode_canonical_witness :
  let inp := Protocol.wire_bytes (eventPacket sampleEvent) in
  event_wf sampleEvent ∧ isValidEvent sampleEvent = true
  ∧ encodeEvent sampleEvent (Some (zeros 32))
    = (true, Some (inp ++ drop (length inp) (zeros 32)), 20 + bodyLength sampleEvent).
Proof.
  apply (event_decode_canonical _ zeroEvent); [concrete|vm_compute; reflexivity|].
  vm_compute. repeat constructor.
Defined.

(** The Event codec.  A byte string decodes to an Event - whatever the
    receiving Event held - exactly when the Event is valid, its body is clear
    past its length, and the string is the [20 + bodyLength] bytes that
    [encodeEvent] writes for it into any buffer that has room. *)
Theorem event_codec inp e e0 :
  is_byte_list inp →
  decodeEvent (Some inp) e0 = (true, e)
  ↔ (event_wf e ∧ isValidEvent e = true ∧ tail_clear e)
    ∧ Z.of_nat (length inp) = 20 + bodyLength e
    ∧ ∀ out, (length inp ≤ length out)%nat →
        encodeEvent e (Some out) = (true, Some (inp ++ drop (length inp) out), 20 + bodyLength e).
Proof.
  intros Hb. split.
  - intros Hd. pose proof (eventPacket_of_decoded inp e0 e Hb Hd) as (Hwf & Hv & Ht & Hw).
    split; [done|]. split.
    + rewrite <- Hw. symmetry. by apply eventPacket_length.
    + intros out Hlen. by apply (event_decode_canonical inp e0 e out).
  - intros [(Hwf & Hv & Ht) [Hl He]]. specialize (He (inp ++ zeros 32) ltac:(len)).
    pose proof (eventPacket_length e Hwf Hv) as HL.
    pose proof (valid_body_length e Hv).
    rewrite encodeEvent_spec in He by (done || len).
    rewrite <- (Protocol.written_bytes_eq _ _ _ _ _ He HL) by done.
    by apply decode_eventPacket.
Qed.

Lemma event_codec_witness :
  let inp := Protocol.wire_bytes (eventPacket sampleEvent) in
  decodeEvent (Some inp) zeroEvent = (true, sampleEvent)
  ↔ (event_wf sampleEvent ∧ isValidEvent sampleEvent = true ∧ tail_clear sampleEvent)
    ∧ Z.of_nat (length inp) = 20 + bodyLength sampleEvent
    ∧ ∀ out, (length inp ≤ length out)%nat →
        encodeEvent sampleEvent (Some out)
        = (true, Some (inp ++ drop (length inp) out), 20 + bodyLength sampleEvent).
Proof. apply event_codec. concrete. Defined.

(** ** Admission responses *)

Definition response_payload (r : AdmissionResponse) : list Z :=
  [status r] ++ le32 (responseEpoch r) ++ le32 (responseId r) ++ zeros 17.

Lemma responsePacket_payload r : Protocol.payload (responsePacket r) = response_payload r.
Proof.
  unfold responsePacket, response_payload. cbn [Protocol.payload].
  by rewrite !writeUint32Le_write32.
Qed.

Lemma responsePacket_canonical r :
  response_wf r → Protocol.packet_canonical (responsePacket r).
Proof.
  intros (?&?&?&?&?&?&?). unfold Protocol.packet_canonical, Protocol.packet_wf.
  rewrite responsePacket_payload. cbn [Protocol.type Protocol.source Protocol.destination
    Protocol.sequence Protocol.opcode Protocol.payloadLength responsePacket].
  unfold Protocol.PacketType.ACK, Protocol.MAX_PAYLOAD_SIZE, Protocol.MAX_PACKET_SIZE,
    Protocol.HEADER_SIZE, ADMISSION_PAYLOAD_SIZE, response_payload.
  split_and!; try done; try (uint_unfold; lia); bytes.
Qed.

Lemma encodeAdmissionResponse_spec r out :
  response_wf r → isValidAdmissionResponse r = true → (15 ≤ length out)%nat →
  encodeAdmissionResponse r (Some out)
  = (true, Some (Protocol.wire_bytes (responsePacket r) ++ drop 15 out), 15).
Proof.
  intros Hr Hv Hlen. unfold encodeAdmissionResponse. rewrite Hv. bsimp.
  pose proof (responsePacket_canonical r Hr) as (Hp & _ & Hm & _).
  assert (Hpl : Protocol.payloadLength (responsePacket r) = 9) by done.
  rewrite Protocol.encode_spec by (done || lia). done.
Qed.

Lemma decode_responsePacket r r0 :
  response_wf r → isValidAdmissionResponse r = true →
  decodeAdmissionResponse (Some (Protocol.wire_bytes (responsePacket r))) r0 = (true, r).
Proof.
  intros Hr Hv. unfold decodeAdmissionResponse.
  rewrite Protocol.decode_wire_bytes by by apply responsePacket_canonical.
  rewrite responsePacket_payload.
  destruct Hr as (?&?&?&?&?&?&?). destruct r as [s d q f st e i].
  cbn [Protocol.type Protocol.source Protocol.destination Protocol.sequence Protocol.opcode
    Protocol.payloadLength responsePacket responseSource responseDestination
    responseSequence responseFamily status responseEpoch responseId] in *.
  rewrite !Z.eqb_refl. bsimp.
  unfold response_payload, readUint32Le, read32, rd, le32. simpl nth.
  cbn [responseEpoch responseId status]. rewrite !word32_le by done. by rewrite Hv.
Qed.

Lemma registered_correlatable f :
  isRegisteredFamily f = true → isCorrelatableFamily f = true.
Proof.
  unfold isRegisteredFamily, isCorrelatableFamily, Family.BUTTON, Family.SENSOR_THRESHOLD,
    Family.MANUAL_CHECK_IN, Protocol.OPCODE_APPLICATION_MIN, Protocol.OPCODE_APPLICATION_MAX.
  intros. zbool. lia.
Qed.

Lemma hasValidEndpoints_sym a b : hasValidEndpoints a b = hasValidEndpoints b a.
Proof.
  unfold hasValidEndpoints. rewrite (Z.eqb_sym a b). f_equal. apply andb_comm.
Qed.

Lemma makeAdmissionResponse_valid e st :
  isValidEvent e = true → isValidAdmissionStatus st = true →
  isValidAdmissionResponse (makeAdmissionResponse e st) = true.
Proof.
  intros Hv Hs. unfold isValidEvent in Hv. unfold isValidAdmissionResponse; cbn.
  rewrite hasValidEndpoints_sym, Hs.
  rewrite !andb_true_iff in Hv. destruct Hv as [[[[[[[[-> ->] ->] _] _] _] _] Hf] _].
  by rewrite registered_correlatable.
Qed.

(** An admission response finds its Event: the response made for a valid
    Event survives the wire, and it matches exactly the Events that agree with
    that Event in source, destination, sequence, family, epoch and id. *)
Theorem admission_response_correlates e st out r0 :
  event_wf e → isValidEvent e = true → is_u8 st → isValidAdmissionStatus st = true →
  (15 ≤ length out)%nat →
  let r := makeAdmissionResponse e st in
  ∃ bytes rest, encodeAdmissionResponse r (Some out) = (true, Some (bytes ++ rest), 15)
    ∧ length bytes = 15%nat
    ∧ decodeAdmissionResponse (Some bytes) r0 = (true, r)
    ∧ ∀ e', matchesEvent r e' = true ↔
        source e' = source e ∧ destination e' = destination e ∧ sequence e' = sequence e
        ∧ family e' = family e ∧ epoch e' = epoch e ∧ id e' = id e.
Proof.
  intros He Hv Hst Hs Hout r.
  assert (Hr : response_wf r) by (destruct He as (?&?&?&?&?&?&_); done).
  assert (Hvr : isValidAdmissionResponse r = true) by by apply makeAdmissionResponse_valid.
  exists (Protocol.wire_bytes (responsePacket r)), (drop 15 out).
  split; [by apply encodeAdmissionResponse_spec|].
  pose proof (responsePacket_canonical r Hr) as (Hp & _ & Hm & _).
  split; [by rewrite Protocol.wire_bytes_length|].
  split; [by apply decode_responsePacket|]. intros e'.
  unfold matchesEvent. rewrite Hvr. simpl. zbool. intuition congruence.
Qed.

Lemma admission_response_correlates_witness :
  let r := makeAdmissionResponse sampleEvent AdmissionStatus.CAPACITY in
  ∃ bytes rest, encodeAdmissionResponse r (Some (zeros 32)) = (true, Some (bytes ++ rest), 15)
    ∧ length bytes = 15%nat
    ∧ decodeAdmissionResponse (Some bytes) zeroResponse = (true, r)
    ∧ ∀ e', matchesEvent r e' = true ↔
        source e' = source sampleEvent ∧ destination e' = destination sampleEvent
        ∧ sequence e' = sequence sampleEvent ∧ family e' = family sampleEvent
        ∧ epoch e' = epoch sampleEvent ∧ id e' = id sampleEvent.
Proof.
  apply (admission_response_correlates sampleEvent);
    [apply sampleEvent_wf|reflexivity|concrete|reflexivity|simpl; lia].
Defined.

End EventProtocol.
