(* ===== verification/Copies.v ===== *)
(** Two-copy storage, lib/event_storage/event_store.h: the wrap-around order of
    generations, the read-back classification of a write, and the selection
    of the authoritative copy.  The record type, its decoder and its
    generation field are parameters, as in the source's template. *)

From S2P Require Import Prelude.

Module EventStorage.

(* event_store.h:8 CopySlot *)
Inductive CopySlot := A | B.

(* event_store.h:10-14 FixedReadStatus *)
Inductive FixedReadStatus := READ_OK | READ_MISSING | READ_UNAVAILABLE.

(* event_store.h:16-21 ReadBackResult *)
Inductive ReadBackResult := MATCH | MISMATCH | MISSING | UNAVAILABLE.

(* event_store.h:23-28 GenerationOrder *)
Inductive GenerationOrder := LEFT_NEWER | RIGHT_NEWER | EQUAL | AMBIGUOUS.

(* event_store.h:30-39 SelectionResult *)
Inductive SelectionResult :=
  NEWEST_A | NEWEST_B | ONLY_A_VALID | ONLY_B_VALID | BOTH_INVALID | EQUAL_IDENTICAL
| EQUAL_DISAGREEMENT | GENERATION_AMBIGUOUS.

(* event_store.h:42-45 FixedCopy *)
Record FixedCopy := mkCopy {
  status : FixedReadStatus;
  bytes : list Z
}.

#[global] Instance CopySlot_eq_dec : EqDecision CopySlot.
Proof. solve_decision. Defined.

#[global] Instance FixedReadStatus_eq_dec : EqDecision FixedReadStatus.
Proof. solve_decision. Defined.

#[global] Instance SelectionResult_eq_dec : EqDecision SelectionResult.
Proof. solve_decision. Defined.

#[global] Instance GenerationOrder_eq_dec : EqDecision GenerationOrder.
Proof. solve_decision. Defined.

#[global] Instance ReadBackResult_eq_dec : EqDecision ReadBackResult.
Proof. solve_decision. Defined.

(* event_store.h:47-58 compareGenerations *)
Definition compareGenerations (left right : Z) : GenerationOrder :=
  if left =? right then EQUAL else
  let distance := u32 (left - right) in
  if distance =? 2147483648 then AMBIGUOUS
  else if distance <? 2147483648 then LEFT_NEWER else RIGHT_NEWER.

(* event_store.h:60-74 bytesEqual *)
Definition bytesEqual (left right : option (list Z)) (length : nat) : bool :=
  match left, right with
  | Some l, Some r => bytes_eqb length l r 0
  | _, _ => false
  end.

(* event_store.h:76-90 classifyReadBack *)
Definition classifyReadBack (Size : nat) (written : list Z) (readBack : FixedCopy)
    : ReadBackResult :=
  if bool_decide (status readBack = READ_MISSING) then MISSING
  else if negb (bool_decide (status readBack = READ_OK)) then UNAVAILABLE
  else if bytesEqual (Some written) (Some (bytes readBack)) Size then MATCH else MISMATCH.

Section Selection.

(** The template parameters: a record type with its [{}] value, the decoder,
    and the member [generation]. *)
Context {Rec : Type} (zero : Rec) (generation : Rec → Z)
  (decode : option (list Z) → Rec → bool * Rec).

(* event_store.h:92-144 selectCopies *)
Definition selectCopies (Size : nat) (copyA copyB : FixedCopy) (selected : Rec)
    (selectedSlot : CopySlot) : SelectionResult * Rec * CopySlot :=
  let read copy :=
    if bool_decide (status copy = READ_OK) then decode (Some (bytes copy)) zero
    else (false, zero) in
  let (validA, decodedA) := read copyA in
  let (validB, decodedB) := read copyB in
  if negb validA && negb validB then (BOTH_INVALID, selected, selectedSlot) else
  if validA && negb validB then (ONLY_A_VALID, decodedA, A) else
  if negb validA && validB then (ONLY_B_VALID, decodedB, B) else
  let order := compareGenerations (generation decodedA) (generation decodedB) in
  match order with
  | EQUAL =>
      if negb (bytesEqual (Some (bytes copyA)) (Some (bytes copyB)) Size)
      then (EQUAL_DISAGREEMENT, selected, selectedSlot)
      else (EQUAL_IDENTICAL, decodedA, A)
  | AMBIGUOUS => (GENERATION_AMBIGUOUS, selected, selectedSlot)
  | LEFT_NEWER => (NEWEST_A, decodedA, A)
  | RIGHT_NEWER => (NEWEST_B, decodedB, B)
  end.

End Selection.

(** ** Generations *)

Lemma compareGenerations_succ g :
  is_u32 g → compareGenerations (u32 (g + 1)) g = LEFT_NEWER.
Proof.
  intros Hg. unfold compareGenerations.
  destruct (Z.eqb_spec (u32 (g + 1)) g); [uint|].
  assert (u32 (u32 (g + 1) - g) = 1) as -> by uint. done.
Qed.

Lemma compareGenerations_pred g :
  is_u32 g → compareGenerations g (u32 (g + 1)) = RIGHT_NEWER.
Proof.
  intros Hg. unfold compareGenerations.
  destruct (Z.eqb_spec g (u32 (g + 1))); [uint|].
  assert (u32 (g - u32 (g + 1)) = 4294967295) as -> by uint. done.
Qed.

(** The generation order is an order on the circle of 2^32 generations:
    swapping the operands swaps the answer, and the generation reached after
    [k] increments - wrapping included - is newer exactly up to half the
    circle, undecided at half, and equal to itself only. *)
Theorem compareGenerations_circle g k :
  is_u32 g → 0 ≤ k < 4294967296 →
  compareGenerations (u32 (g + k)) g
    = (if k =? 0 then EQUAL else if k <? 2147483648 then LEFT_NEWER
       else if k =? 2147483648 then AMBIGUOUS else RIGHT_NEWER)
  ∧ compareGenerations g (u32 (g + k))
    = (if k =? 0 then EQUAL else if k <? 2147483648 then RIGHT_NEWER
       else if k =? 2147483648 then AMBIGUOUS else LEFT_NEWER).
Proof.
  intros Hg Hk. unfold compareGenerations.
  assert (Hd : u32 (u32 (g + k) - g) = k) by uint.
  assert (He : u32 (g - u32 (g + k)) = if k =? 0 then 0 else 4294967296 - k).
  { destruct (Z.eqb_spec k 0); uint. }
  rewrite Hd, He.
  destruct (Z.eqb_spec k 0) as [->|Hk0].
  - replace (u32 (g + 0)) with g by uint. by rewrite Z.eqb_refl.
  - rewrite (proj2 (Z.eqb_neq (u32 (g + k)) g)) by uint.
    rewrite (proj2 (Z.eqb_neq g (u32 (g + k)))) by uint.
    destruct (Z.ltb_spec k 2147483648).
    + repeat skip_if. done.
    + destruct (Z.eqb_spec k 2147483648) as [->|]; [done|]. by repeat skip_if.
Qed.

Lemma compareGenerations_circle_witness :
  compareGenerations (u32 (4294967295 + 1)) 4294967295 = LEFT_NEWER
  ∧ compareGenerations 4294967295 (u32 (4294967295 + 1)) = RIGHT_NEWER.
Proof. apply (compareGenerations_circle 4294967295 1); [concrete|lia]. Defined.

(** A read-back that matches is the written bytes. *)
Lemma classifyReadBack_match n written s b :
  classifyReadBack n written (mkCopy s b) = MATCH →
  length written = n → length b = n → b = written.
Proof.
  unfold classifyReadBack, bytesEqual. cbn [status bytes].
  do 2 (destruct (bool_decide _); bsimp; [try done|try done]);
  destruct (bytes_eqb n written b 0) eqn:E; try done; intros _ Hw Hb;
  symmetry; by apply (bytes_eqb_eq n).
Qed.

Lemma classifyReadBack_refl n written :
  classifyReadBack n written (mkCopy READ_OK written) = MATCH.
Proof.
  unfold classifyReadBack, bytesEqual. cbn [status bytes]. decide_eqs.
  assert (bytes_eqb n written written 0 = true) as -> by by apply bytes_eqb_spec. done.
Qed.

Lemma compareGenerations_sym g h :
  compareGenerations g h = RIGHT_NEWER → compareGenerations h g = LEFT_NEWER.
Proof.
  unfold compareGenerations. rewrite (Z.eqb_sym h g).
  destruct (Z.eqb_spec g h); [done|].
  destruct (Z.eqb_spec (u32 (g - h)) 2147483648), (Z.ltb_spec (u32 (g - h)) 2147483648);
    try done. intros _.
  destruct (Z.eqb_spec (u32 (h - g)) 2147483648); [uint|].
  destruct (Z.ltb_spec (u32 (h - g)) 2147483648); [done|uint].
Qed.

Lemma compareGenerations_eq g h : compareGenerations g h = EQUAL → g = h.
Proof. unfold compareGenerations. destruct (Z.eqb_spec g h); [done|]. by repeat case_match. Qed.

Lemma compareGenerations_refl g : compareGenerations g g = EQUAL.
Proof. unfold compareGenerations. by rewrite Z.eqb_refl. Qed.

Lemma compareGenerations_newer g h :
  is_u32 g → is_u32 h → compareGenerations g h = LEFT_NEWER →
  compareGenerations h g = RIGHT_NEWER.
Proof.
  intros Hg Hh. unfold compareGenerations. rewrite (Z.eqb_sym h g).
  destruct (Z.eqb_spec g h); [done|].
  destruct (Z.eqb_spec (u32 (g - h)) 2147483648), (Z.ltb_spec (u32 (g - h)) 2147483648);
    try done. intros _.
  destruct (Z.eqb_spec (u32 (h - g)) 2147483648); [uint|].
  destruct (Z.ltb_spec (u32 (h - g)) 2147483648); [uint|done].
Qed.

(** ** Selection *)

Definition other (slot : CopySlot) : CopySlot :=
  match slot with A => B | B => A end.

Section SelectionLemmas.

Context {Rec : Type} (zero : Rec) (generation : Rec → Z)
  (decode : option (list Z) → Rec → bool * Rec) (Size : nat).

(** What a copy holds: its record, when it was read and decodes. *)
Definition holds (c : FixedCopy) : option Rec :=
  if bool_decide (status c = READ_OK) then
    match decode (Some (bytes c)) zero with
    | (true, r) => Some r
    | (false, _) => None
    end
  else None.

(** [selectCopies] on what the copies hold. *)
Lemma selectCopies_holds a b s0 l0 :
  selectCopies zero generation decode Size a b s0 l0 =
  match holds a, holds b with
  | None, None => (BOTH_INVALID, s0, l0)
  | Some ra, None => (ONLY_A_VALID, ra, A)
  | None, Some rb => (ONLY_B_VALID, rb, B)
  | Some ra, Some rb =>
      match compareGenerations (generation ra) (generation rb) with
      | EQUAL => if negb (bytesEqual (Some (bytes a)) (Some (bytes b)) Size)
                 then (EQUAL_DISAGREEMENT, s0, l0) else (EQUAL_IDENTICAL, ra, A)
      | AMBIGUOUS => (GENERATION_AMBIGUOUS, s0, l0)
      | LEFT_NEWER => (NEWEST_A, ra, A)
      | RIGHT_NEWER => (NEWEST_B, rb, B)
      end
  end.
Proof.
  unfold selectCopies, holds.
  destruct (bool_decide (status a = READ_OK)), (bool_decide (status b = READ_OK));
    try destruct (decode (Some (bytes a)) zero) as [[] ra];
    try destruct (decode (Some (bytes b)) zero) as [[] rb]; done.
Qed.

(** The pair of copies, addressed by slot. *)
Definition selectAt (copies : CopySlot → FixedCopy) : SelectionResult * Rec * CopySlot :=
  selectCopies zero generation decode Size (copies A) (copies B) zero A.

(** The record [r] in [slot] is the authority over a pair of record contents:
    whatever the other slot holds is the same record or an older one. *)
Definition authority (content : CopySlot → option Rec) (r : Rec) (slot : CopySlot) : Prop :=
  content slot = Some r ∧
  ∀ r', content (other slot) = Some r' →
    r' = r ∨ compareGenerations (generation r) (generation r') = LEFT_NEWER.

(** The other slot is overwritten by the successor of the authority: whatever
    becomes of the write, the authority is the old record or the new one. *)
Lemma authority_write (content content' : CopySlot → option Rec) r slot r' :
  authority content r slot → is_u32 (generation r) →
  generation r' = u32 (generation r + 1) →
  content' slot = content slot →
  content' (other slot) = content (other slot) ∨ content' (other slot) = Some r'
    ∨ content' (other slot) = None →
  (content' (other slot) = Some r' → authority content' r' (other slot))
  ∧ (authority content' r slot ∨ authority content' r' (other slot)).
Proof.
  intros [Hs Ho] Hg Hg' Hsame Hout.
  assert (Hoo : other (other slot) = slot) by by destruct slot.
  assert (Hnew : content' (other slot) = Some r' → authority content' r' (other slot)).
  { intros Hn. split; [done|]. rewrite Hoo, Hsame, Hs. intros r'' [= <-]. right.
    rewrite Hg'. by apply compareGenerations_succ. }
  split; [done|]. destruct Hout as [Hout|[Hout|Hout]]; [left|by right; auto|left].
  - split; [congruence|]. intros r''. rewrite Hout. apply Ho.
  - split; [congruence|]. intros r''. by rewrite Hout.
Qed.

Definition usable (result : SelectionResult) : bool :=
  match result with
  | BOTH_INVALID | EQUAL_DISAGREEMENT | GENERATION_AMBIGUOUS => false
  | _ => true
  end.

Lemma selectAt_holds copies result r slot :
  selectAt copies = (result, r, slot) → usable result = true → holds (copies slot) = Some r.
Proof.
  unfold selectAt. rewrite selectCopies_holds. intros H Hu.
  repeat case_match; simplify_eq/=; done.
Qed.

(** A usable selection is the authority, provided equal bytes decode alike. *)
Lemma selectAt_authority copies result r slot :
  (∀ s, length (bytes (copies s)) = Size) →
  selectAt copies = (result, r, slot) → usable result = true →
  authority (λ s, holds (copies s)) r slot.
Proof.
  unfold selectAt. rewrite selectCopies_holds. intros Hlen H Hu.
  destruct (holds (copies A)) as [ra|] eqn:Ha, (holds (copies B)) as [rb|] eqn:Hb;
    simplify_eq/=; try done.
  2, 3: split; [done|]; cbn; intros r' Hr'; congruence.
  destruct (compareGenerations _ _) eqn:Hc; simplify_eq/=; try done.
  - split; [done|]. cbn. intros r' Hr'. right. congruence.
  - split; [done|]. cbn. intros r' Hr'. right. apply compareGenerations_sym. congruence.
  - destruct (bytes_eqb Size _ _ 0) eqn:E; simplify_eq/=.
    apply (proj1 (bytes_eqb_eq Size _ _ (Hlen A) (Hlen B))) in E.
    split; [done|]. cbn. intros r' Hr'. left. unfold holds in *. rewrite E in Ha.
    destruct (bool_decide (status (copies A) = _)), (bool_decide (status (copies B) = _));
      try done. destruct (decode _ _) as [[]]; congruence.
Qed.

(** An authority is what selection finds, provided a record has one encoding. *)
Lemma selectAt_of_authority copies r slot :
  authority (λ s, holds (copies s)) r slot →
  (∀ s r', holds (copies s) = Some r' → is_u32 (generation r')) →
  (∀ s s' r', holds (copies s) = Some r' → holds (copies s') = Some r' →
     bytes_eqb Size (bytes (copies s)) (bytes (copies s')) 0 = true) →
  ∃ result slot', usable result = true ∧ selectAt copies = (result, r, slot')
    ∧ holds (copies slot') = Some r.
Proof.
  intros [Hs Ho] Hg Hbytes. unfold selectAt. rewrite selectCopies_holds.
  destruct slot; cbn in Hs, Ho; rewrite Hs.
  - destruct (holds (copies B)) as [rb|] eqn:Hb; [|by exists ONLY_A_VALID, A].
    destruct (Ho rb eq_refl) as [->|E].
    + rewrite compareGenerations_refl. cbn. rewrite (Hbytes A B r) by done. by exists EQUAL_IDENTICAL, A.
    + rewrite E. by exists NEWEST_A, A.
  - destruct (holds (copies A)) as [ra|] eqn:Ha; [|by exists ONLY_B_VALID, B].
    destruct (Ho ra eq_refl) as [->|E].
    + rewrite compareGenerations_refl. cbn. rewrite (Hbytes A B r) by done. by exists EQUAL_IDENTICAL, A.
    + apply compareGenerations_newer in E; [|by eapply Hg..]. rewrite E. by exists NEWEST_B, B.
Qed.

Definition writeSlot (copies : CopySlot → FixedCopy) (slot : CopySlot) (c : FixedCopy)
    : CopySlot → FixedCopy :=
  λ s, if bool_decide (s = slot) then c else copies s.

(** A newer copy in the slot opposite to the selected one takes over; an
    unreadable one leaves the selected record in charge. *)
Lemma selectAt_write copies slot r c :
  holds (copies slot) = Some r → is_u32 (generation r) →
  (∀ r', holds c = Some r' → generation r' = u32 (generation r + 1)) →
  ∃ result, usable result = true ∧
    selectAt (writeSlot copies (other slot) c) =
    match holds c with
    | Some r' => (result, r', other slot)
    | None => (result, r, slot)
    end.
Proof.
  intros Hr Hg Hc. unfold selectAt. rewrite selectCopies_holds. unfold writeSlot.
  destruct slot; cbn [other bool_decide decide_rel CopySlot_eq_dec]; simpl; rewrite Hr;
    destruct (holds c) as [r'|] eqn:Hh; try (by eexists; split; [|done]);
    rewrite (Hc r' eq_refl).
  - rewrite compareGenerations_pred by done. by exists NEWEST_B.
  - rewrite compareGenerations_succ by done. by exists NEWEST_A.
Qed.

(** C12. Updating a record in two copies is atomic: when the authoritative
    record [r] is in [slot] and the other slot is overwritten by a write that
    may be torn at any byte - so that it holds any bytes at all, or cannot be
    read, or is the complete successor of [r] - selection afterwards gives [r]
    again or, only when the write is complete, its successor; never nothing
    and never an older record. *)
Theorem two_copy_update_atomic copies result r slot c :
  selectAt copies = (result, r, slot) → usable result = true → is_u32 (generation r) →
  (∀ r', holds c = Some r' → generation r' = u32 (generation r + 1)) →
  ∃ result', usable result' = true ∧
    selectAt (writeSlot copies (other slot) c) =
    match holds c with
    | Some r' => (result', r', other slot)
    | None => (result', r, slot)
    end.
Proof. intros Hs Hu Hg Hc. eapply selectAt_write; eauto using selectAt_holds. Qed.

End SelectionLemmas.

(** A two-byte record, the generation and its complement as check byte. *)
Definition toyDecode (input : option (list Z)) (r : Z) : bool * Z :=
  match input with
  | Some [g; k] => if k =? 255 - g then (true, g) else (false, r)
  | _ => (false, r)
  end.

Lemma two_copy_update_atomic_witness :
  let copies := λ s, match s with A => mkCopy READ_OK [7; 248] | B => mkCopy READ_OK [6; 249] end in
  let torn := mkCopy READ_OK [8; 249] in
  ∃ result', usable result' = true ∧
    selectAt 0 (λ g, g) toyDecode 2 (writeSlot copies (other A) torn) =
    match holds 0 toyDecode torn with
    | Some r' => (result', r', other A)
    | None => (result', 7, A)
    end.
Proof.
  intros copies torn.
  eapply (two_copy_update_atomic 0 (λ g, g) toyDecode 2 copies NEWEST_A 7 A torn);
    [reflexivity|reflexivity|concrete|discriminate].
Defined.

End EventStorage.
