(* ===== verification/Records.v ===== *)
(** Durable records, lib/event_storage/event_records.h: the envelope (magic,
    schema, length, generation, CRC-32) and the codecs of the Node and Hub
    metadata and of the Node and Hub event records. *)

From S2P Require Import Prelude Wire EventWire.

Module EventRecords.

(* event_records.h:10 NODE_METADATA_SIZE *)
Definition NODE_METADATA_SIZE : nat := 28.

(* event_records.h:11 HUB_METADATA_SIZE *)
Definition HUB_METADATA_SIZE : nat := 24.

(* event_records.h:12 NODE_RECORD_SIZE *)
Definition NODE_RECORD_SIZE : nat := 56.

(* event_records.h:13 HUB_RECORD_SIZE *)
Definition HUB_RECORD_SIZE : nat := 56.

(* event_records.h:14 SCHEMA_VERSION *)
Definition SCHEMA_VERSION : Z := 1.

(* event_records.h:15 MAX_ATTEMPTS *)
Definition MAX_ATTEMPTS : Z := 5.

(* event_records.h:17-32 CodecResult *)
Inductive CodecResult :=
  OK | NULL_POINTER | WRONG_LENGTH | BAD_MAGIC | BAD_SCHEMA | BAD_RECORD_LENGTH | BAD_CRC
| NONZERO_RESERVED | INVALID_STATE | INVALID_METADATA | INVALID_EVENT | INVALID_ATTEMPTS
| INVALID_LIFETIME | NONZERO_BODY_TAIL.

#[global] Instance CodecResult_eq_dec : EqDecision CodecResult.
Proof. solve_decision. Defined.

(** The record states, cast from stored bytes. *)

Module NodeState.

(* event_records.h:35 FREE *)
Definition FREE : Z := 0.

(* event_records.h:36 QUEUED *)
Definition QUEUED : Z := 1.

(* event_records.h:37 FAILED *)
Definition FAILED : Z := 2.

(* event_records.h:38 EXPIRED *)
Definition EXPIRED : Z := 3.

End NodeState.

Module HubState.

(* event_records.h:42 EMPTY *)
Definition EMPTY : Z := 0.

(* event_records.h:43 ACTIVE *)
Definition ACTIVE : Z := 1.

(* event_records.h:44 CONSUMED *)
Definition CONSUMED : Z := 2.

End HubState.

(* event_records.h:47-52 NodeMetadata *)
Record NodeMetadata := mkNodeMetadata {
  nm_generation : Z;
  custodySourceDeviceId : Z;
  eventEpoch : Z;
  nextUnreservedEventId : Z
}.

(* event_records.h:54-57 HubMetadata *)
Record HubMetadata := mkHubMetadata {
  hm_generation : Z;
  nextUnreservedAdmissionOrdinal : Z
}.

(* event_records.h:59-71 NodeRecord *)
Record NodeRecord := mkNodeRecord {
  nr_generation : Z;
  nr_state : Z;
  nr_flags : Z;
  nr_family : Z;
  nr_bodyLength : Z;
  nr_eventEpoch : Z;
  nr_eventId : Z;
  nr_lifetimeBudgetSeconds : Z;
  remainingActiveSeconds : Z;
  attemptsUsed : Z;
  nr_body : list Z
}.

(* event_records.h:73-85 HubRecord *)
Record HubRecord := mkHubRecord {
  hr_generation : Z;
  hr_state : Z;
  hr_sourceDeviceId : Z;
  hr_family : Z;
  hr_flags : Z;
  hr_bodyLength : Z;
  hr_eventEpoch : Z;
  hr_eventId : Z;
  hr_lifetimeBudgetSeconds : Z;
  admissionOrdinal : Z;
  hr_body : list Z
}.

#[global] Instance eta_NodeMetadata : RecEta NodeMetadata := λ r,
  mkNodeMetadata (nm_generation r) (custodySourceDeviceId r) (eventEpoch r)
    (nextUnreservedEventId r).

#[global] Instance eta_HubMetadata : RecEta HubMetadata := λ r,
  mkHubMetadata (hm_generation r) (nextUnreservedAdmissionOrdinal r).

#[global] Instance eta_NodeRecord : RecEta NodeRecord := λ r,
  mkNodeRecord (nr_generation r) (nr_state r) (nr_flags r) (nr_family r) (nr_bodyLength r)
    (nr_eventEpoch r) (nr_eventId r) (nr_lifetimeBudgetSeconds r)
    (remainingActiveSeconds r) (attemptsUsed r) (nr_body r).

#[global] Instance eta_HubRecord : RecEta HubRecord := λ r,
  mkHubRecord (hr_generation r) (hr_state r) (hr_sourceDeviceId r) (hr_family r)
    (hr_flags r) (hr_bodyLength r) (hr_eventEpoch r) (hr_eventId r)
    (hr_lifetimeBudgetSeconds r) (admissionOrdinal r) (hr_body r).

(** The [{}] values. *)

Definition zeroNodeMetadata : NodeMetadata := mkNodeMetadata 0 0 0 0.

Definition zeroHubMetadata : HubMetadata := mkHubMetadata 0 0.

Definition zeroNodeRecord : NodeRecord := mkNodeRecord 0 0 0 0 0 0 0 0 0 0 (zeros 12).

Definition zeroHubRecord : HubRecord := mkHubRecord 0 0 0 0 0 0 0 0 0 0 (zeros 12).

(* event_records.h:87-90 writeUint16Le *)
Definition writeUint16Le (output : list Z) (i : nat) (value : Z) : list Z :=
  write16 output i value.

(* event_records.h:92-97 writeUint32Le *)
Definition writeUint32Le (output : list Z) (i : nat) (value : Z) : list Z :=
  write32 output i value.

(* event_records.h:99-102 readUint16Le *)
Definition readUint16Le (input : list Z) (i : nat) : Z := read16 input i.

(* event_records.h:104-109 readUint32Le *)
Definition readUint32Le (input : list Z) (i : nat) : Z := read32 input i.

(** The inner loop of [crc32IsoHdlc], [n] rounds of it. *)
(* event_records.h:122-126 = crc32IsoHdlc, the loop over bits *)
Fixpoint crcRounds (n : nat) (value : Z) : Z :=
  match n with
  | O => value
  | S m =>
      crcRounds m
        (if negb (Z.land value 1 =? 0) then Z.lxor (Z.shiftr value 1) 3988292384
         else Z.shiftr value 1)
  end.

(* event_records.h:119-127 = crc32IsoHdlc, the loop over bytes *)
Fixpoint crcBytes (n : nat) (i : nat) (input : list Z) (value : Z) : Z :=
  match n with
  | O => value
  | S m => crcBytes m (S i) input (crcRounds 8 (Z.lxor value (rd input i)))
  end.

(* event_records.h:111-130 crc32IsoHdlc *)
Definition crc32IsoHdlc (input : option (list Z)) (length : nat) (crc : Z) : bool * Z :=
  match input with
  | None => (false, crc)
  | Some input => (true, Z.lxor (crcBytes length 0 input UINT32_MAX) UINT32_MAX)
  end.

(** [allZero(bytes + i, length)]. *)
(* event_records.h:132-139 allZero *)
Fixpoint allZero (bytes : list Z) (i : nat) (length : nat) : bool :=
  match length with
  | O => true
  | S m => if negb (rd bytes i =? 0) then false else allZero bytes (S i) m
  end.

(* event_records.h:141-145 clearBytes *)
Fixpoint clearBytes (bytes : list Z) (i : nat) (length : nat) : list Z :=
  match length with
  | O => bytes
  | S m => clearBytes (upd bytes i 0) (S i) m
  end.

(* event_records.h:147-152 sameMagic *)
Definition sameMagic (input magic : list Z) : bool :=
  (rd input 0 =? rd magic 0) && (rd input 1 =? rd magic 1)
  && (rd input 2 =? rd magic 2) && (rd input 3 =? rd magic 3).

(** The record magics "EID1", "HAO1", "EVT1" and "HEV1". *)

(* event_records.h:210 = encodeNodeMetadata magic *)
Definition EID1 : list Z := [69; 73; 68; 49].

(* event_records.h:250 = encodeHubMetadata magic *)
Definition HAO1 : list Z := [72; 65; 79; 49].

(* event_records.h:342 = encodeNodeRecord magic *)
Definition EVT1 : list Z := [69; 86; 84; 49].

(* event_records.h:434 = encodeHubRecord magic *)
Definition HEV1 : list Z := [72; 69; 86; 49].

(* event_records.h:154-175 validateEnvelope *)
Definition validateEnvelope (input : option (list Z)) (expectedLength : nat) (magic : list Z)
    : CodecResult :=
  match input with
  | None => NULL_POINTER
  | Some bytes =>
      if negb (length bytes =? expectedLength)%nat then WRONG_LENGTH else
      if negb (sameMagic bytes magic) then BAD_MAGIC else
      if negb (readUint16Le bytes 6 =? Z.of_nat expectedLength) then BAD_RECORD_LENGTH else
      let crc := (crc32IsoHdlc input (expectedLength - 4) 0).2 in
      if negb (readUint32Le bytes (expectedLength - 4) =? crc) then BAD_CRC else
      if negb (readUint16Le bytes 4 =? SCHEMA_VERSION) then BAD_SCHEMA else OK
  end.

(* event_records.h:177-191 encodeEnvelope *)
Definition encodeEnvelope (output : list Z) (length : nat) (magic : list Z) (generation : Z)
    : list Z :=
  let output := clearBytes output 0 length in
  let output := upd output 0 (rd magic 0) in
  let output := upd output 1 (rd magic 1) in
  let output := upd output 2 (rd magic 2) in
  let output := upd output 3 (rd magic 3) in
  let output := writeUint16Le output 4 SCHEMA_VERSION in
  let output := writeUint16Le output 6 (u16 (Z.of_nat length)) in
  writeUint32Le output 8 generation.

(* event_records.h:193-197 finishCrc *)
Definition finishCrc (output : list Z) (length : nat) : list Z :=
  let crc := (crc32IsoHdlc (Some output) (length - 4) 0).2 in
  writeUint32Le output (length - 4) crc.

(* event_records.h:199-216 encodeNodeMetadata *)
Definition encodeNodeMetadata (value : NodeMetadata) (output : option (list Z))
    : CodecResult * option (list Z) :=
  match output with
  | None => (NULL_POINTER, output)
  | Some out =>
      if negb (length out =? NODE_METADATA_SIZE)%nat then (WRONG_LENGTH, output) else
      if (custodySourceDeviceId value =? 0) || (eventEpoch value =? 0)
         || (nextUnreservedEventId value =? 0) then (INVALID_METADATA, output) else
      let n := length out in
      let out := encodeEnvelope out n EID1 (nm_generation value) in
      let out := upd out 12 (custodySourceDeviceId value) in
      let out := writeUint32Le out 16 (eventEpoch value) in
      let out := writeUint32Le out 20 (nextUnreservedEventId value) in
      (OK, Some (finishCrc out n))
  end.

(* event_records.h:218-238 decodeNodeMetadata *)
Definition decodeNodeMetadata (input : option (list Z)) (value : NodeMetadata)
    : CodecResult * NodeMetadata :=
  match validateEnvelope input NODE_METADATA_SIZE EID1, input with
  | OK, Some inp =>
      if negb (allZero inp 13 3) then (NONZERO_RESERVED, value) else
      let decoded :=
        mkNodeMetadata (readUint32Le inp 8) (rd inp 12) (readUint32Le inp 16)
          (readUint32Le inp 20) in
      if (custodySourceDeviceId decoded =? 0) || (eventEpoch decoded =? 0)
         || (nextUnreservedEventId decoded =? 0) then (INVALID_METADATA, value)
      else (OK, decoded)
  | result, _ => (result, value)
  end.

(* event_records.h:240-254 encodeHubMetadata *)
Definition encodeHubMetadata (value : HubMetadata) (output : option (list Z))
    : CodecResult * option (list Z) :=
  match output with
  | None => (NULL_POINTER, output)
  | Some out =>
      if negb (length out =? HUB_METADATA_SIZE)%nat then (WRONG_LENGTH, output) else
      if nextUnreservedAdmissionOrdinal value =? 0 then (INVALID_METADATA, output) else
      let n := length out in
      let out := encodeEnvelope out n HAO1 (hm_generation value) in
      let out := writeUint32Le out 12 (nextUnreservedAdmissionOrdinal value) in
      (OK, Some (finishCrc out n))
  end.

(* event_records.h:256-273 decodeHubMetadata *)
Definition decodeHubMetadata (input : option (list Z)) (value : HubMetadata)
    : CodecResult * HubMetadata :=
  match validateEnvelope input HUB_METADATA_SIZE HAO1, input with
  | OK, Some inp =>
      if negb (allZero inp 16 4) then (NONZERO_RESERVED, value) else
      let decoded := mkHubMetadata (readUint32Le inp 8) (readUint32Le inp 12) in
      if nextUnreservedAdmissionOrdinal decoded =? 0 then (INVALID_METADATA, value)
      else (OK, decoded)
  | result, _ => (result, value)
  end.

(* event_records.h:275-277 validNodeState *)
Definition validNodeState (state : Z) : bool := state <=? NodeState.EXPIRED.

(* event_records.h:279-281 validHubState *)
Definition validHubState (state : Z) : bool := state <=? HubState.CONSUMED.

(* event_records.h:283-300 validCanonicalEvent *)
Definition validCanonicalEvent (source family flags bodyLength epoch id lifetime : Z)
    (body : list Z) : bool :=
  negb (source =? 0) && negb (epoch =? 0) && negb (id =? 0)
  && (Z.land flags (u8 (Z.lnot EventProtocol.ALLOWED_FLAGS)) =? 0)
  && (EventProtocol.MIN_LIFETIME_SECONDS <=? lifetime)
  && (lifetime <=? EventProtocol.MAX_LIFETIME_SECONDS)
  && (bodyLength <=? EventProtocol.MAX_BODY_SIZE)
  && EventProtocol.isRegisteredFamily family
  && EventProtocol.isValidFamilyBody family (Some body) bodyLength.

(* event_records.h:302-308 canonicalFree *)
Definition canonicalFree (value : NodeRecord) : bool :=
  (nr_flags value =? 0) && (nr_family value =? 0) && (nr_bodyLength value =? 0)
  && (nr_eventEpoch value =? 0) && (nr_eventId value =? 0)
  && (nr_lifetimeBudgetSeconds value =? 0) && (remainingActiveSeconds value =? 0)
  && (attemptsUsed value =? 0) && allZero (nr_body value) 0 12.

(* event_records.h:310-331 validateNodeRecord *)
Definition validateNodeRecord (value : NodeRecord) : CodecResult :=
  if negb (validNodeState (nr_state value)) then INVALID_STATE else
  if nr_state value =? NodeState.FREE then
    if canonicalFree value then OK else INVALID_EVENT
  else
  if MAX_ATTEMPTS <? attemptsUsed value then INVALID_ATTEMPTS else
  if nr_lifetimeBudgetSeconds value <? remainingActiveSeconds value then INVALID_LIFETIME else
  if negb (validCanonicalEvent 1 (nr_family value) (nr_flags value) (nr_bodyLength value)
             (nr_eventEpoch value) (nr_eventId value) (nr_lifetimeBudgetSeconds value)
             (nr_body value)) then INVALID_EVENT else
  if negb (allZero (nr_body value) (Z.to_nat (nr_bodyLength value))
             (12 - Z.to_nat (nr_bodyLength value))) then NONZERO_BODY_TAIL
  else OK.

(* event_records.h:333-357 encodeNodeRecord *)
Definition encodeNodeRecord (value : NodeRecord) (output : option (list Z))
    : CodecResult * option (list Z) :=
  match output with
  | None => (NULL_POINTER, output)
  | Some out =>
      if negb (length out =? NODE_RECORD_SIZE)%nat then (WRONG_LENGTH, output) else
      match validateNodeRecord value with
      | OK =>
          let n := length out in
          let out := encodeEnvelope out n EVT1 (nr_generation value) in
          let out := upd out 12 (nr_state value) in
          let out := upd out 13 (nr_flags value) in
          let out := upd out 14 (nr_family value) in
          let out := upd out 15 (nr_bodyLength value) in
          let out := writeUint32Le out 16 (nr_eventEpoch value) in
          let out := writeUint32Le out 20 (nr_eventId value) in
          let out := writeUint32Le out 24 (nr_lifetimeBudgetSeconds value) in
          let out := writeUint32Le out 28 (remainingActiveSeconds value) in
          let out := upd out 32 (attemptsUsed value) in
          let out := copy_bytes (Z.to_nat (nr_bodyLength value)) out 36 (nr_body value) 0 in
          (OK, Some (finishCrc out n))
      | result => (result, output)
      end
  end.

(* event_records.h:359-395 decodeNodeRecord *)
Definition decodeNodeRecord (input : option (list Z)) (value : NodeRecord)
    : CodecResult * NodeRecord :=
  match validateEnvelope input NODE_RECORD_SIZE EVT1, input with
  | OK, Some inp =>
      if negb (allZero inp 33 3) || negb (allZero inp 48 4) then (NONZERO_RESERVED, value) else
      let decoded :=
        mkNodeRecord (readUint32Le inp 8) (rd inp 12) (rd inp 13) (rd inp 14) (rd inp 15)
          (readUint32Le inp 16) (readUint32Le inp 20) (readUint32Le inp 24)
          (readUint32Le inp 28) (rd inp 32) (nr_body zeroNodeRecord) in
      if EventProtocol.MAX_BODY_SIZE <? nr_bodyLength decoded then (INVALID_EVENT, value) else
      let decoded := decoded <| nr_body := copy_bytes 12 (nr_body decoded) 0 inp 36 |> in
      if negb (allZero inp (36 + Z.to_nat (nr_bodyLength decoded))
                 (12 - Z.to_nat (nr_bodyLength decoded))) then (NONZERO_BODY_TAIL, value) else
      match validateNodeRecord decoded with
      | OK => (OK, decoded)
      | result => (result, value)
      end
  | result, _ => (result, value)
  end.

(* event_records.h:397-402 canonicalEmpty *)
Definition canonicalEmpty (value : HubRecord) : bool :=
  (hr_sourceDeviceId value =? 0) && (hr_family value =? 0) && (hr_flags value =? 0)
  && (hr_bodyLength value =? 0) && (hr_eventEpoch value =? 0) && (hr_eventId value =? 0)
  && (hr_lifetimeBudgetSeconds value =? 0) && (admissionOrdinal value =? 0)
  && allZero (hr_body value) 0 12.

(* event_records.h:404-423 validateHubRecord *)
Definition validateHubRecord (value : HubRecord) : CodecResult :=
  if negb (validHubState (hr_state value)) then INVALID_STATE else
  if hr_state value =? HubState.EMPTY then
    if canonicalEmpty value then OK else INVALID_EVENT
  else
  if admissionOrdinal value =? 0 then INVALID_EVENT else
  if negb (validCanonicalEvent (hr_sourceDeviceId value) (hr_family value) (hr_flags value)
             (hr_bodyLength value) (hr_eventEpoch value) (hr_eventId value)
             (hr_lifetimeBudgetSeconds value) (hr_body value)) then INVALID_EVENT else
  if negb (allZero (hr_body value) (Z.to_nat (hr_bodyLength value))
             (12 - Z.to_nat (hr_bodyLength value))) then NONZERO_BODY_TAIL
  else OK.

(* event_records.h:425-449 encodeHubRecord *)
Definition encodeHubRecord (value : HubRecord) (output : option (list Z))
    : CodecResult * option (list Z) :=
  match output with
  | None => (NULL_POINTER, output)
  | Some out =>
      if negb (length out =? HUB_RECORD_SIZE)%nat then (WRONG_LENGTH, output) else
      match validateHubRecord value with
      | OK =>
          let n := length out in
          let out := encodeEnvelope out n HEV1 (hr_generation value) in
          let out := upd out 12 (hr_state value) in
          let out := upd out 13 (hr_sourceDeviceId value) in
          let out := upd out 14 (hr_family value) in
          let out := upd out 15 (hr_flags value) in
          let out := upd out 16 (hr_bodyLength value) in
          let out := writeUint32Le out 20 (hr_eventEpoch value) in
          let out := writeUint32Le out 24 (hr_eventId value) in
          let out := writeUint32Le out 28 (hr_lifetimeBudgetSeconds value) in
          let out := writeUint32Le out 32 (admissionOrdinal value) in
          let out := copy_bytes (Z.to_nat (hr_bodyLength value)) out 36 (hr_body value) 0 in
          (OK, Some (finishCrc out n))
      | result => (result, output)
      end
  end.

(* event_records.h:451-487 decodeHubRecord *)
Definition decodeHubRecord (input : option (list Z)) (value : HubRecord)
    : CodecResult * HubRecord :=
  match validateEnvelope input HUB_RECORD_SIZE HEV1, input with
  | OK, Some inp =>
      if negb (allZero inp 17 3) || negb (allZero inp 48 4) then (NONZERO_RESERVED, value) else
      let decoded :=
        mkHubRecord (readUint32Le inp 8) (rd inp 12) (rd inp 13) (rd inp 14) (rd inp 15)
          (rd inp 16) (readUint32Le inp 20) (readUint32Le inp 24) (readUint32Le inp 28)
          (readUint32Le inp 32) (hr_body zeroHubRecord) in
      if EventProtocol.MAX_BODY_SIZE <? hr_bodyLength decoded then (INVALID_EVENT, value) else
      let decoded := decoded <| hr_body := copy_bytes 12 (hr_body decoded) 0 inp 36 |> in
      if negb (allZero inp (36 + Z.to_nat (hr_bodyLength decoded))
                 (12 - Z.to_nat (hr_bodyLength decoded))) then (NONZERO_BODY_TAIL, value) else
      match validateHubRecord decoded with
      | OK => (OK, decoded)
      | result => (result, value)
      end
  | result, _ => (result, value)
  end.

Definition is_ok (result : CodecResult) : bool :=
  match result with OK => true | _ => false end.

(* event_records.h:489-492 decodeNodeMetadataForSelection *)
Definition decodeNodeMetadataForSelection (input : option (list Z)) (value : NodeMetadata)
    : bool * NodeMetadata :=
  let (result, value) := decodeNodeMetadata input value in (is_ok result, value).

(* event_records.h:493-496 decodeHubMetadataForSelection *)
Definition decodeHubMetadataForSelection (input : option (list Z)) (value : HubMetadata)
    : bool * HubMetadata :=
  let (result, value) := decodeHubMetadata input value in (is_ok result, value).

(* event_records.h:497-500 decodeNodeRecordForSelection *)
Definition decodeNodeRecordForSelection (input : option (list Z)) (value : NodeRecord)
    : bool * NodeRecord :=
  let (result, value) := decodeNodeRecord input value in (is_ok result, value).

(* event_records.h:501-504 decodeHubRecordForSelection *)
Definition decodeHubRecordForSelection (input : option (list Z)) (value : HubRecord)
    : bool * HubRecord :=
  let (result, value) := decodeHubRecord input value in (is_ok result, value).

(** ** The envelope *)

Definition crcOf (input : list Z) : Z :=
  Z.lxor (crcBytes (length input) 0 input UINT32_MAX) UINT32_MAX.

(** A record: its bytes followed by their CRC. *)
Definition sealed (body : list Z) : list Z := body ++ le32 (crcOf body).

Lemma crcRounds_range n v : is_u32 v → is_u32 (crcRounds n v).
Proof.
  revert v. induction n as [|n IH]; intros v Hv; simpl; [done|]. apply IH.
  assert (Hs : is_u32 (Z.shiftr v 1)).
  { rewrite Z.shiftr_div_pow2 by lia. change (2 ^ 1) with 2. uint. }
  case_match; [|done]. by apply lxor_range.
Qed.

#[export] Hint Resolve crcRounds_range : uint.

Lemma crcBytes_range n i l v :
  is_byte_list l → is_u32 v → is_u32 (crcBytes n i l v).
Proof.
  intros Hl. revert i v. induction n as [|n IH]; intros i v Hv; cbn -[crcRounds]; [done|].
  apply IH, crcRounds_range, lxor_range; [done..|].
  pose proof (rd_byte l i Hl). uint.
Qed.

Lemma crcOf_range l : is_byte_list l → is_u32 (crcOf l).
Proof.
  intros. apply lxor_range; [done|apply crcBytes_range; [done|]|]; unfold UINT32_MAX; uint.
Qed.

Lemma sealed_byte l : is_byte_list l → is_byte_list (sealed l).
Proof. intros. unfold sealed. bytes. Qed.

#[export] Hint Resolve crcOf_range sealed_byte : uint.

Lemma length_sealed l : length (sealed l) = (length l + 4)%nat.
Proof. unfold sealed. len. Qed.

#[export] Hint Rewrite length_sealed : len.

Lemma crcBytes_prefix n i l t v :
  (i + n ≤ length l)%nat → crcBytes n i (l ++ t) v = crcBytes n i l v.
Proof.
  revert i v. induction n as [|n IH]; intros i v H; cbn -[crcRounds]; [done|].
  rewrite IH by lia. unfold rd. by rewrite app_nth1 by lia.
Qed.

Lemma crc32_prefix l t c :
  crc32IsoHdlc (Some (l ++ t)) (length l) c = (true, crcOf l).
Proof. unfold crc32IsoHdlc, crcOf. by rewrite crcBytes_prefix by lia. Qed.

Lemma finishCrc_spec l b0 b1 b2 b3 :
  finishCrc (l ++ [b0; b1; b2; b3]) (length l + 4) = sealed l.
Proof.
  unfold finishCrc, writeUint32Le. replace (length l + 4 - 4)%nat with (length l) by lia.
  rewrite crc32_prefix. cbn [snd]. by rewrite write32_split, app_nil_r.
Qed.

Lemma finishCrc_layout out n body b0 b1 b2 b3 :
  out = body ++ [b0; b1; b2; b3] → n = (length body + 4)%nat → finishCrc out n = sealed body.
Proof. intros -> ->. apply finishCrc_spec. Qed.

Lemma clearBytes_spec l i n :
  (i + n ≤ length l)%nat → clearBytes l i n = take i l ++ zeros n ++ drop (i + n) l.
Proof.
  revert l i. induction n as [|n IH]; intros l i H; simpl.
  { by rewrite Nat.add_0_r, take_drop. }
  rewrite IH by len. unfold upd. rewrite (take_S_r _ _ 0) by (apply list_lookup_insert_eq; lia).
  rewrite take_insert_ge by lia. rewrite drop_insert_lt by lia.
  rewrite <- app_assoc. simpl. by rewrite Nat.add_succ_r.
Qed.

Lemma clearBytes_all l : clearBytes l 0 (length l) = zeros (length l).
Proof. rewrite clearBytes_spec by lia. simpl. by rewrite drop_all, app_nil_r. Qed.

(** The head of a record of [n] bytes. *)
Definition envelope (magic : list Z) (n : nat) (generation : Z) : list Z :=
  magic ++ le16 SCHEMA_VERSION ++ le16 (Z.of_nat n) ++ le32 generation.

Lemma encodeEnvelope_spec out k m0 m1 m2 m3 generation :
  length out = (12 + k)%nat → Z.of_nat (12 + k) < 65536 →
  encodeEnvelope out (length out) [m0; m1; m2; m3] generation
  = envelope [m0; m1; m2; m3] (12 + k) generation ++ zeros k.
Proof.
  intros Hl Hk. unfold encodeEnvelope. rewrite clearBytes_all, Hl.
  rewrite (wrap_small 16 (Z.of_nat (12 + k))) by uint. unfold zeros.
  rewrite replicate_add. unfold envelope, writeUint16Le, writeUint32Le, write16, write32, upd.
  generalize (Z.of_nat (12 + k)) as z. intros z. done.
Qed.

Lemma validateEnvelope_sealed magic n k generation rest :
  length magic = 4%nat → n = (12 + k + 4)%nat → length rest = k →
  Z.of_nat n < 65536 → is_byte_list magic → is_byte_list rest →
  validateEnvelope (Some (sealed (envelope magic n generation ++ rest))) n magic = OK.
Proof.
  intros Hm Hn Hr Hlt Hmb Hrb. explode magic Hm.
  assert (Hcr : is_u32 (crcOf (envelope [x; x0; x1; x2] n generation ++ rest))).
  { apply crcOf_range. unfold envelope. bytes. }
  unfold validateEnvelope. rewrite length_sealed.
  assert (Hl : length (envelope [x; x0; x1; x2] n generation ++ rest) = (n - 4)%nat).
  { unfold envelope. len. }
  rewrite Hl. replace (n - 4 + 4 =? n)%nat with true by (symmetry; apply Nat.eqb_eq; lia).
  bsimp. rewrite <- Hl.
  assert (Hc : (crc32IsoHdlc (Some (sealed (envelope [x; x0; x1; x2] n generation ++ rest)))
    (length (envelope [x; x0; x1; x2] n generation ++ rest)) 0).2
    = crcOf (envelope [x; x0; x1; x2] n generation ++ rest)).
  { unfold sealed. by rewrite crc32_prefix. }
  rewrite Hc.
  assert (Hrd : readUint32Le (sealed (envelope [x; x0; x1; x2] n generation ++ rest))
    (length (envelope [x; x0; x1; x2] n generation ++ rest))
    = crcOf (envelope [x; x0; x1; x2] n generation ++ rest)).
  { unfold sealed, readUint32Le. rewrite <- (app_nil_r (le32 _)). by apply read32_le32. }
  rewrite Hrd, Z.eqb_refl. unfold sealed, envelope, sameMagic, readUint16Le, read16, rd.
  simpl nth. rewrite !Z.eqb_refl. bsimp.
  rewrite !word16_le by (unfold SCHEMA_VERSION; uint). by rewrite !Z.eqb_refl.
Qed.

Lemma validateEnvelope_inv input magic n :
  is_byte_list input → length magic = 4%nat → (16 ≤ n)%nat → is_byte_list magic →
  validateEnvelope (Some input) n magic = OK →
  ∃ generation rest, is_u32 generation ∧ is_byte_list rest ∧ length rest = (n - 16)%nat
    ∧ input = sealed (envelope magic n generation ++ rest).
Proof.
  intros Hb Hm Hn Hmb. unfold validateEnvelope.
  destruct (Nat.eqb_spec (length input) n) as [Hl|]; [|done]. bsimp.
  destruct (sameMagic input magic) eqn:Hmg; [|done]. bsimp.
  destruct (Z.eqb_spec (readUint16Le input 6) (Z.of_nat n)) as [Hln|]; [|done]. bsimp.
  destruct (Z.eqb_spec (readUint32Le input (n - 4)) (crc32IsoHdlc (Some input) (n - 4) 0).2)
    as [Hcrc|]; [|done]. bsimp.
  destruct (Z.eqb_spec (readUint16Le input 4) SCHEMA_VERSION) as [Hsv|]; [|done].
  intros _. explode magic Hm.
  destruct (split_tail4 input) as (l & c0 & c1 & c2 & c3 & -> & Hll); [lia|].
  assert (Hn4 : (n - 4)%nat = length l) by lia. rewrite Hn4, crc32_prefix in Hcrc.
  unfold readUint32Le in Hcrc. rewrite read32_split in Hcrc. cbn [snd] in Hcrc.
  apply Forall_app in Hb as [Hb Hc]. repeat (apply Forall_cons in Hc as [? Hc]).
  assert (Hs : sealed l = l ++ [c0; c1; c2; c3]).
  { unfold sealed. by rewrite <- Hcrc, le32_word. }
  rewrite <- Hs. clear Hs Hcrc.
  assert (H12 : (12 ≤ length l)%nat) by lia.
  do 12 (destruct l as [|? l]; [simpl in H12; lia|]).
  repeat (apply Forall_cons in Hb as [? Hb]).
  unfold sameMagic, rd in Hmg. simpl in Hmg. zbool. destruct Hmg as [[[-> ->] ->] ->].
  unfold readUint16Le, read16, rd in Hln, Hsv. simpl nth in Hln, Hsv.
  exists (Z.lor (Z.lor (Z.lor z7 (Z.shiftl z8 8)) (Z.shiftl z9 16)) (Z.shiftl z10 24)), l.
  split; [by apply word32_range|]. split; [done|]. split; [simpl in *; lia|].
  f_equal. unfold envelope. rewrite <- Hln, <- Hsv.
  rewrite (le16_word z5), (le16_word z3) by done. by rewrite le32_word by done.
Qed.

(** Evaluates reads of a sealed record of known layout. *)
Ltac reads :=
  unfold readUint32Le, readUint16Le, read32, read16, rd, sealed, envelope, le16, le32;
  simpl nth; rewrite ?word32_le by done.

(** ** Metadata codecs *)

Definition node_metadata_wf (v : NodeMetadata) : Prop :=
  is_u32 (nm_generation v) ∧ is_u8 (custodySourceDeviceId v) ∧ is_u32 (eventEpoch v)
  ∧ is_u32 (nextUnreservedEventId v).

Definition node_metadata_valid (v : NodeMetadata) : Prop :=
  custodySourceDeviceId v ≠ 0 ∧ eventEpoch v ≠ 0 ∧ nextUnreservedEventId v ≠ 0.

Definition nodeMetadataBytes (v : NodeMetadata) : list Z :=
  sealed (envelope EID1 28 (nm_generation v)
    ++ [custodySourceDeviceId v; 0; 0; 0] ++ le32 (eventEpoch v)
    ++ le32 (nextUnreservedEventId v)).

Lemma node_metadata_invalid v :
  node_metadata_valid v ↔ (custodySourceDeviceId v =? 0) || (eventEpoch v =? 0)
                          || (nextUnreservedEventId v =? 0) = false.
Proof. unfold node_metadata_valid. zbool. tauto. Qed.

Lemma encodeNodeMetadata_spec v out :
  node_metadata_valid v → length out = 28%nat →
  encodeNodeMetadata v (Some out) = (OK, Some (nodeMetadataBytes v)).
Proof.
  intros Hv Hl. unfold encodeNodeMetadata, EID1.
  rewrite (proj1 (node_metadata_invalid v) Hv), (encodeEnvelope_spec _ 16) by (done || lia).
  rewrite Hl. change (negb _) with false. cbv iota.
  apply (f_equal (λ x, (OK, Some x))), (finishCrc_layout _ _ _ 0 0 0 0); done.
Qed.

Lemma nodeMetadataBytes_byte v : node_metadata_wf v → is_byte_list (nodeMetadataBytes v).
Proof.
  intros (?&?&?&?). assert (is_u8 0) by uint. assert (is_byte_list EID1) by concrete.
  unfold nodeMetadataBytes, envelope. bytes.
Qed.

Lemma length_nodeMetadataBytes v : length (nodeMetadataBytes v) = 28%nat.
Proof. unfold nodeMetadataBytes, envelope, EID1. len. Qed.

Lemma decode_nodeMetadataBytes v v0 :
  node_metadata_wf v → node_metadata_valid v →
  decodeNodeMetadata (Some (nodeMetadataBytes v)) v0 = (OK, v).
Proof.
  intros (?&?&?&?) Hv%node_metadata_invalid. unfold decodeNodeMetadata, nodeMetadataBytes.
  assert (is_u8 0) by uint.
  rewrite (validateEnvelope_sealed EID1 _ 12) by (done || (by concrete) || bytes).
  unfold allZero. reads. bsimp. destruct v; cbn in *. by rewrite Hv.
Qed.

Lemma decodeNodeMetadata_inv inp v0 v :
  is_byte_list inp → decodeNodeMetadata (Some inp) v0 = (OK, v) →
  node_metadata_wf v ∧ node_metadata_valid v ∧ inp = nodeMetadataBytes v.
Proof.
  intros Hb. unfold decodeNodeMetadata.
  destruct (validateEnvelope _ _ _) eqn:He; try done.
  apply validateEnvelope_inv in He as (g & rest & Hg & Hrb & Hrl & ->);
    [|done|done|vm_compute; lia|concrete].
  cbv in Hrl. explode rest Hrl. repeat (apply Forall_cons in Hrb as [? Hrb]).
  destruct (allZero _ 13 3) eqn:Hz; [|done]. bsimp.
  unfold allZero in Hz. revert Hz. reads. intros Hz.
  destruct (Z.eqb_spec x0 0) as [->|]; [|done].
  destruct (Z.eqb_spec x1 0) as [->|]; [|done].
  destruct (Z.eqb_spec x2 0) as [->|]; [|done].
  destruct (_ || _) eqn:Hv; [done|]. intros [= <-].
  apply node_metadata_invalid in Hv. split_and!; [|done|].
  - unfold node_metadata_wf; cbn. split_and!; auto with uint.
  - unfold nodeMetadataBytes; cbn [nm_generation custodySourceDeviceId eventEpoch
      nextUnreservedEventId]. by rewrite !le32_word.
Qed.

Definition hub_metadata_wf (v : HubMetadata) : Prop :=
  is_u32 (hm_generation v) ∧ is_u32 (nextUnreservedAdmissionOrdinal v).

Definition hubMetadataBytes (v : HubMetadata) : list Z :=
  sealed (envelope HAO1 24 (hm_generation v) ++ le32 (nextUnreservedAdmissionOrdinal v)
    ++ [0; 0; 0; 0]).

Lemma encodeHubMetadata_spec v out :
  nextUnreservedAdmissionOrdinal v ≠ 0 → length out = 24%nat →
  encodeHubMetadata v (Some out) = (OK, Some (hubMetadataBytes v)).
Proof.
  intros Hv Hl. unfold encodeHubMetadata, HAO1.
  rewrite (proj2 (Z.eqb_neq _ _) Hv), (encodeEnvelope_spec _ 12) by (done || lia).
  rewrite Hl. change (negb _) with false. cbv iota.
  apply (f_equal (λ x, (OK, Some x))), (finishCrc_layout _ _ _ 0 0 0 0); done.
Qed.

Lemma hubMetadataBytes_byte v : hub_metadata_wf v → is_byte_list (hubMetadataBytes v).
Proof.
  intros (?&?). assert (is_u8 0) by uint. assert (is_byte_list HAO1) by concrete.
  unfold hubMetadataBytes, envelope. bytes.
Qed.

Lemma length_hubMetadataBytes v : length (hubMetadataBytes v) = 24%nat.
Proof. unfold hubMetadataBytes, envelope, HAO1. len. Qed.

Lemma decode_hubMetadataBytes v v0 :
  hub_metadata_wf v → nextUnreservedAdmissionOrdinal v ≠ 0 →
  decodeHubMetadata (Some (hubMetadataBytes v)) v0 = (OK, v).
Proof.
  intros (?&?) Hv. unfold decodeHubMetadata, hubMetadataBytes.
  assert (is_u8 0) by uint.
  rewrite (validateEnvelope_sealed HAO1 _ 8) by (done || (by concrete) || bytes).
  unfold allZero. reads. bsimp. destruct v; cbn in *. by rewrite (proj2 (Z.eqb_neq _ _) Hv).
Qed.

Lemma decodeHubMetadata_inv inp v0 v :
  is_byte_list inp → decodeHubMetadata (Some inp) v0 = (OK, v) →
  hub_metadata_wf v ∧ nextUnreservedAdmissionOrdinal v ≠ 0 ∧ inp = hubMetadataBytes v.
Proof.
  intros Hb. unfold decodeHubMetadata.
  destruct (validateEnvelope _ _ _) eqn:He; try done.
  apply validateEnvelope_inv in He as (g & rest & Hg & Hrb & Hrl & ->);
    [|done|done|vm_compute; lia|concrete].
  cbv in Hrl. explode rest Hrl. repeat (apply Forall_cons in Hrb as [? Hrb]).
  destruct (allZero _ 16 4) eqn:Hz; [|done]. bsimp.
  unfold allZero in Hz. revert Hz. reads. intros Hz.
  destruct (Z.eqb_spec x3 0) as [->|]; [|done].
  destruct (Z.eqb_spec x4 0) as [->|]; [|done].
  destruct (Z.eqb_spec x5 0) as [->|]; [|done].
  destruct (Z.eqb_spec x6 0) as [->|]; [|done].
  destruct (_ =? 0) eqn:Hv; [done|]. intros [= <-].
  apply Z.eqb_neq in Hv. split_and!; [|done|].
  - unfold hub_metadata_wf; cbn. split_and!; auto with uint.
  - unfold hubMetadataBytes; cbn [hm_generation nextUnreservedAdmissionOrdinal].
    by rewrite !le32_word.
Qed.

(** ** Event record codecs *)

Lemma allZero_spec l i n :
  (i + n ≤ length l)%nat → allZero l i n = all_zero (take n (drop i l)).
Proof.
  revert i. induction n as [|n IH]; intros i H; simpl; [done|].
  rewrite (drop_S l (rd l i)) by (apply lookup_rd; lia). simpl.
  rewrite IH by lia. by destruct (rd l i =? 0).
Qed.

Lemma allZero_tail l n : (n ≤ length l)%nat → allZero l n (length l - n) = all_zero (drop n l).
Proof. intros. rewrite allZero_spec by lia. by rewrite take_ge by len. Qed.

(** Copying the used part of a body whose tail is zero into zeros copies it
    whole. *)
Lemma copy_body a body t n :
  (n ≤ length body)%nat → all_zero (drop n body) = true →
  copy_bytes n (a ++ zeros (length body) ++ t) (length a) body 0 = a ++ body ++ t.
Proof.
  intros Hn Hz. rewrite copy_bytes_spec by len.
  rewrite take_app_length, drop_0. f_equal.
  rewrite drop_app_ge by lia. replace (length a + n - length a)%nat with n by lia.
  rewrite drop_app_le by len. unfold zeros. rewrite drop_replicate.
  apply all_zero_spec in Hz. rewrite length_drop in Hz. unfold zeros in Hz.
  rewrite <- Hz, app_assoc. by rewrite take_drop.
Qed.

Lemma validCanonicalEvent_length s f fl bl e i lt b :
  validCanonicalEvent s f fl bl e i lt b = true → bl ≤ 12.
Proof.
  unfold validCanonicalEvent, EventProtocol.MAX_BODY_SIZE. rewrite !andb_true_iff.
  intros [[[_ H] _] _]. zbool. lia.
Qed.

Definition node_record_wf (v : NodeRecord) : Prop :=
  is_u32 (nr_generation v) ∧ is_u8 (nr_state v) ∧ is_u8 (nr_flags v) ∧ is_u8 (nr_family v)
  ∧ is_u8 (nr_bodyLength v) ∧ is_u32 (nr_eventEpoch v) ∧ is_u32 (nr_eventId v)
  ∧ is_u32 (nr_lifetimeBudgetSeconds v) ∧ is_u32 (remainingActiveSeconds v)
  ∧ is_u8 (attemptsUsed v) ∧ length (nr_body v) = 12%nat ∧ is_byte_list (nr_body v).

Definition nodeRecordHead (v : NodeRecord) : list Z :=
  envelope EVT1 56 (nr_generation v)
    ++ [nr_state v; nr_flags v; nr_family v; nr_bodyLength v]
    ++ le32 (nr_eventEpoch v) ++ le32 (nr_eventId v) ++ le32 (nr_lifetimeBudgetSeconds v)
    ++ le32 (remainingActiveSeconds v) ++ [attemptsUsed v; 0; 0; 0].

Definition nodeRecordBytes (v : NodeRecord) : list Z :=
  sealed (nodeRecordHead v ++ nr_body v ++ [0; 0; 0; 0]).

Lemma validateNodeRecord_body v :
  length (nr_body v) = 12%nat → 0 ≤ nr_bodyLength v → validateNodeRecord v = OK →
  nr_bodyLength v ≤ 12
  ∧ all_zero (drop (Z.to_nat (nr_bodyLength v)) (nr_body v)) = true.
Proof.
  intros Hl H0. unfold validateNodeRecord.
  destruct (validNodeState _); [|done]. bsimp.
  destruct (nr_state v =? NodeState.FREE).
  - destruct (canonicalFree v) eqn:Hf; [|done]. intros _. unfold canonicalFree in Hf.
    apply andb_true_iff in Hf as [Hf Hz]. zbool.
    assert (nr_bodyLength v = 0) as -> by tauto. split; [lia|].
    change 12%nat with (12 - 0)%nat in Hz. rewrite <- Hl, allZero_tail in Hz by lia. done.
  - destruct (_ <? _); [done|]. destruct (_ <? _); [done|].
    destruct (validCanonicalEvent _ _ _ _ _ _ _ _) eqn:Hv; [|done]. bsimp.
    apply validCanonicalEvent_length in Hv.
    destruct (allZero _ _ _) eqn:Hz; [|done]. intros _. split; [done|].
    rewrite <- Hl, allZero_tail in Hz by lia. done.
Qed.

Lemma encodeNodeRecord_spec v out :
  node_record_wf v → validateNodeRecord v = OK → length out = 56%nat →
  encodeNodeRecord v (Some out) = (OK, Some (nodeRecordBytes v)).
Proof.
  intros (_&_&_&_&Hbl&_&_&_&_&_&Hlb&_) Hv Hl. unfold is_uint in Hbl.
  destruct (validateNodeRecord_body v Hlb ltac:(lia) Hv) as [Hle Hz].
  unfold encodeNodeRecord, EVT1.
  rewrite Hv, (encodeEnvelope_spec _ 44) by (done || lia).
  rewrite Hl. change (negb _) with false. cbv iota.
  apply (f_equal (λ x, (OK, Some x))), (finishCrc_layout _ _ _ 0 0 0 0);
    [|unfold nodeRecordHead, envelope; len].
  rewrite <- app_assoc, <- app_assoc.
  rewrite <- (copy_body (nodeRecordHead v) (nr_body v) _ (Z.to_nat (nr_bodyLength v)))
    by (done || lia). by rewrite Hlb.
Qed.

Lemma nodeRecordBytes_byte v : node_record_wf v → is_byte_list (nodeRecordBytes v).
Proof.
  intros (?&?&?&?&?&?&?&?&?&?&?&?). assert (is_u8 0) by uint.
  assert (is_byte_list EVT1) by concrete.
  unfold nodeRecordBytes, nodeRecordHead, envelope. bytes.
Qed.

Lemma length_nodeRecordBytes v : node_record_wf v → length (nodeRecordBytes v) = 56%nat.
Proof.
  intros (?&?&?&?&?&?&?&?&?&?&?&?).
  unfold nodeRecordBytes, nodeRecordHead, envelope, EVT1. len.
Qed.

Lemma nodeRecordBytes_envelope v :
  nodeRecordBytes v =
  sealed (envelope EVT1 56 (nr_generation v)
    ++ ([nr_state v; nr_flags v; nr_family v; nr_bodyLength v] ++ le32 (nr_eventEpoch v)
        ++ le32 (nr_eventId v) ++ le32 (nr_lifetimeBudgetSeconds v)
        ++ le32 (remainingActiveSeconds v) ++ [attemptsUsed v; 0; 0; 0]
        ++ nr_body v ++ [0; 0; 0; 0])).
Proof. unfold nodeRecordBytes, nodeRecordHead. by rewrite <- !app_assoc. Qed.

Lemma allZero_shift a l t n :
  (n ≤ length l)%nat →
  allZero (a ++ l ++ t) (length a + n) (length l - n) = all_zero (drop n l).
Proof.
  intros H. rewrite allZero_spec by len.
  rewrite drop_app_add, drop_app_le by lia. rewrite take_app_le by len.
  by rewrite take_ge by len.
Qed.

Lemma decode_nodeRecordBytes v v0 :
  node_record_wf v → validateNodeRecord v = OK →
  decodeNodeRecord (Some (nodeRecordBytes v)) v0 = (OK, v).
Proof.
  intros (?&?&?&?&Hbl&?&?&?&?&?&Hlb&Hb) Hv. unfold is_uint in Hbl.
  destruct (validateNodeRecord_body v Hlb ltac:(lia) Hv) as [Hle Hz].
  rewrite nodeRecordBytes_envelope. unfold decodeNodeRecord. assert (is_u8 0) by uint.
  rewrite (validateEnvelope_sealed EVT1 _ 40) by (done || (by concrete) || bytes || len).
  rewrite <- nodeRecordBytes_envelope.
  assert (Hbz : allZero (nodeRecordBytes v) (36 + Z.to_nat (nr_bodyLength v))
                  (12 - Z.to_nat (nr_bodyLength v)) = true).
  { change 36%nat with (length (nodeRecordHead v)). rewrite <- Hlb.
    unfold nodeRecordBytes, sealed. rewrite <- app_assoc, <- app_assoc.
    by rewrite (allZero_shift (nodeRecordHead v)) by lia. }
  destruct v as [g st fl fa bl ep ei lt rem att body].
  cbn [nr_generation nr_state nr_flags nr_family nr_bodyLength nr_eventEpoch nr_eventId
    nr_lifetimeBudgetSeconds remainingActiveSeconds attemptsUsed nr_body] in *.
  explode body Hlb.
  assert (Hr : rd (nodeRecordBytes (mkNodeRecord g st fl fa bl ep ei lt rem att
     [x; x0; x1; x2; x3; x4; x5; x6; x7; x8; x9; x10])) 15 = bl) by done.
  rewrite Hr. unfold EventProtocol.MAX_BODY_SIZE. unfold rec_set; cbn [nr_bodyLength].
  rewrite Hbz. unfold nodeRecordBytes, nodeRecordHead, allZero at 1 2. reads.
  simpl copy_bytes. unfold upd, rd. cbn -[validateNodeRecord].
  rewrite Hv. change (0 =? 0) with true. bsimp. by skip_if.
Qed.

(** Reads zero bytes off the tests of two reserved areas. *)
Ltac zero_bytes Hz1 Hz2 :=
  unfold allZero in Hz1, Hz2; revert Hz1 Hz2; reads; intros Hz1 Hz2;
  repeat match goal with
  | H : context [?b =? 0] |- _ =>
      is_var b; destruct (Z.eqb_spec b 0) as [->|]; bsimp; [|try done]
  end; try (cbn in Hz1, Hz2; done).

Lemma decodeNodeRecord_inv inp v0 v :
  is_byte_list inp → decodeNodeRecord (Some inp) v0 = (OK, v) →
  node_record_wf v ∧ validateNodeRecord v = OK ∧ inp = nodeRecordBytes v.
Proof.
  intros Hb. unfold decodeNodeRecord.
  destruct (validateEnvelope _ _ _) eqn:He; try done.
  apply validateEnvelope_inv in He as (g & rest & Hg & Hrb & Hrl & ->);
    [|done|done|vm_compute; lia|concrete].
  cbv in Hrl. explode rest Hrl. repeat (apply Forall_cons in Hrb as [? Hrb]).
  destruct (negb _ || negb _) eqn:Hz; [done|]. apply orb_false_iff in Hz as [Hz1 Hz2].
  apply negb_false_iff in Hz1, Hz2.
  zero_bytes Hz1 Hz2.
  destruct (_ <? _); [done|]. destruct (negb (allZero _ _ _)); [done|].
  destruct (validateNodeRecord _) eqn:Hv; try done. intros [= <-].
  split_and!; [|done|].
  - unfold node_record_wf, rec_set; cbn. split_and!; auto with uint; bytes.
  - rewrite nodeRecordBytes_envelope. unfold rec_set; cbn [nr_generation nr_state
      nr_flags nr_family nr_bodyLength nr_eventEpoch nr_eventId nr_lifetimeBudgetSeconds remainingActiveSeconds attemptsUsed
      nr_body]. by rewrite !le32_word.
Qed.

Definition hub_record_wf (v : HubRecord) : Prop :=
  is_u32 (hr_generation v) ∧ is_u8 (hr_state v) ∧ is_u8 (hr_sourceDeviceId v)
  ∧ is_u8 (hr_family v) ∧ is_u8 (hr_flags v) ∧ is_u8 (hr_bodyLength v)
  ∧ is_u32 (hr_eventEpoch v) ∧ is_u32 (hr_eventId v)
  ∧ is_u32 (hr_lifetimeBudgetSeconds v) ∧ is_u32 (admissionOrdinal v) ∧ length (hr_body v) = 12%nat ∧ is_byte_list (hr_body v).

Definition hubRecordHead (v : HubRecord) : list Z :=
  envelope HEV1 56 (hr_generation v)
    ++ [hr_state v; hr_sourceDeviceId v; hr_family v; hr_flags v; hr_bodyLength v; 0; 0; 0]
    ++ le32 (hr_eventEpoch v) ++ le32 (hr_eventId v) ++ le32 (hr_lifetimeBudgetSeconds v)
    ++ le32 (admissionOrdinal v).

Definition hubRecordBytes (v : HubRecord) : list Z :=
  sealed (hubRecordHead v ++ hr_body v ++ [0; 0; 0; 0]).

Lemma validateHubRecord_body v :
  length (hr_body v) = 12%nat → 0 ≤ hr_bodyLength v → validateHubRecord v = OK →
  hr_bodyLength v ≤ 12
  ∧ all_zero (drop (Z.to_nat (hr_bodyLength v)) (hr_body v)) = true.
Proof.
  intros Hl H0. unfold validateHubRecord.
  destruct (validHubState _); [|done]. bsimp.
  destruct (hr_state v =? HubState.EMPTY).
  - destruct (canonicalEmpty v) eqn:Hf; [|done]. intros _. unfold canonicalEmpty in Hf.
    apply andb_true_iff in Hf as [Hf Hz]. zbool.
    assert (hr_bodyLength v = 0) as -> by tauto. split; [lia|].
    change 12%nat with (12 - 0)%nat in Hz. rewrite <- Hl, allZero_tail in Hz by lia. done.
  - destruct (_ =? 0); [done|].
    destruct (validCanonicalEvent _ _ _ _ _ _ _ _) eqn:Hv; [|done]. bsimp.
    apply validCanonicalEvent_length in Hv.
    destruct (allZero _ _ _) eqn:Hz; [|done]. intros _. split; [done|].
    rewrite <- Hl, allZero_tail in Hz by lia. done.
Qed.

Lemma encodeHubRecord_spec v out :
  hub_record_wf v → validateHubRecord v = OK → length out = 56%nat →
  encodeHubRecord v (Some out) = (OK, Some (hubRecordBytes v)).
Proof.
  intros (_&_&_&_&_&Hbl&_&_&_&_&Hlb&_) Hv Hl. unfold is_uint in Hbl.
  destruct (validateHubRecord_body v Hlb ltac:(lia) Hv) as [Hle Hz].
  unfold encodeHubRecord, HEV1.
  rewrite Hv, (encodeEnvelope_spec _ 44) by (done || lia).
  rewrite Hl. change (negb _) with false. cbv iota.
  apply (f_equal (λ x, (OK, Some x))), (finishCrc_layout _ _ _ 0 0 0 0);
    [|unfold hubRecordHead, envelope; len].
  rewrite <- app_assoc, <- app_assoc.
  rewrite <- (copy_body (hubRecordHead v) (hr_body v) _ (Z.to_nat (hr_bodyLength v)))
    by (done || lia). by rewrite Hlb.
Qed.

Lemma hubRecordBytes_byte v : hub_record_wf v → is_byte_list (hubRecordBytes v).
Proof.
  intros (?&?&?&?&?&?&?&?&?&?&?&?). assert (is_u8 0) by uint.
  assert (is_byte_list HEV1) by concrete.
  unfold hubRecordBytes, hubRecordHead, envelope. bytes.
Qed.

Lemma length_hubRecordBytes v : hub_record_wf v → length (hubRecordBytes v) = 56%nat.
Proof.
  intros (?&?&?&?&?&?&?&?&?&?&?&?).
  unfold hubRecordBytes, hubRecordHead, envelope, HEV1. len.
Qed.

Lemma hubRecordBytes_envelope v :
  hubRecordBytes v =
  sealed (envelope HEV1 56 (hr_generation v)
    ++ ([hr_state v; hr_sourceDeviceId v; hr_family v; hr_flags v; hr_bodyLength v; 0; 0; 0]
        ++ le32 (hr_eventEpoch v) ++ le32 (hr_eventId v)
        ++ le32 (hr_lifetimeBudgetSeconds v) ++ le32 (admissionOrdinal v) ++ hr_body v ++ [0; 0; 0; 0])).
Proof. unfold hubRecordBytes, hubRecordHead. by rewrite <- !app_assoc. Qed.

Lemma decode_hubRecordBytes v v0 :
  hub_record_wf v → validateHubRecord v = OK →
  decodeHubRecord (Some (hubRecordBytes v)) v0 = (OK, v).
Proof.
  intros (?&?&?&?&?&Hbl&?&?&?&?&Hlb&Hb) Hv. unfold is_uint in Hbl.
  destruct (validateHubRecord_body v Hlb ltac:(lia) Hv) as [Hle Hz].
  rewrite hubRecordBytes_envelope. unfold decodeHubRecord. assert (is_u8 0) by uint.
  rewrite (validateEnvelope_sealed HEV1 _ 40) by (done || (by concrete) || bytes || len).
  rewrite <- hubRecordBytes_envelope.
  assert (Hbz : allZero (hubRecordBytes v) (36 + Z.to_nat (hr_bodyLength v))
                  (12 - Z.to_nat (hr_bodyLength v)) = true).
  { change 36%nat with (length (hubRecordHead v)). rewrite <- Hlb.
    unfold hubRecordBytes, sealed. rewrite <- app_assoc, <- app_assoc.
    by rewrite (allZero_shift (hubRecordHead v)) by lia. }
  destruct v as [g st sr fa fl bl ep ei lt ord body].
  cbn [hr_generation hr_state hr_sourceDeviceId hr_family hr_flags hr_bodyLength hr_eventEpoch
    hr_eventId hr_lifetimeBudgetSeconds admissionOrdinal hr_body] in *.
  explode body Hlb.
  assert (Hr : rd (hubRecordBytes (mkHubRecord g st sr fa fl bl ep ei lt ord
     [x; x0; x1; x2; x3; x4; x5; x6; x7; x8; x9; x10])) 16 = bl) by done.
  rewrite Hr. unfold EventProtocol.MAX_BODY_SIZE. unfold rec_set; cbn [hr_bodyLength].
  rewrite Hbz. unfold hubRecordBytes, hubRecordHead, allZero at 1 2. reads.
  simpl copy_bytes. unfold upd, rd. cbn -[validateHubRecord].
  rewrite Hv. change (0 =? 0) with true. bsimp. by skip_if.
Qed.

Lemma decodeHubRecord_inv inp v0 v :
  is_byte_list inp → decodeHubRecord (Some inp) v0 = (OK, v) →
  hub_record_wf v ∧ validateHubRecord v = OK ∧ inp = hubRecordBytes v.
Proof.
  intros Hb. unfold decodeHubRecord.
  destruct (validateEnvelope _ _ _) eqn:He; try done.
  apply validateEnvelope_inv in He as (g & rest & Hg & Hrb & Hrl & ->);
    [|done|done|vm_compute; lia|concrete].
  cbv in Hrl. explode rest Hrl. repeat (apply Forall_cons in Hrb as [? Hrb]).
  destruct (negb _ || negb _) eqn:Hz; [done|]. apply orb_false_iff in Hz as [Hz1 Hz2].
  apply negb_false_iff in Hz1, Hz2.
  zero_bytes Hz1 Hz2.
  destruct (_ <? _); [done|]. destruct (negb (allZero _ _ _)); [done|].
  destruct (validateHubRecord _) eqn:Hv; try done. intros [= <-].
  split_and!; [|done|].
  - unfold hub_record_wf, rec_set; cbn. split_and!; auto with uint; bytes.
  - rewrite hubRecordBytes_envelope. unfold rec_set; cbn [hr_generation hr_state
      hr_sourceDeviceId hr_family hr_flags hr_bodyLength hr_eventEpoch hr_eventId
      hr_lifetimeBudgetSeconds admissionOrdinal hr_body]. by rewrite !le32_word.
Qed.


(** ** The codecs are bijections *)

(** C7. Node event records: 56 stored bytes decode to the record [v] exactly
    when [v] is a valid record and those bytes are what [encodeNodeRecord]
    writes for it. *)
Theorem node_record_codec inp v v0 :
  is_byte_list inp →
  decodeNodeRecord (Some inp) v0 = (OK, v) ↔
  node_record_wf v ∧ validateNodeRecord v = OK
  ∧ encodeNodeRecord v (Some (zeros 56)) = (OK, Some inp).
Proof.
  intros Hb. split.
  - intros (Hw & Hv & ->)%decodeNodeRecord_inv; [|done].
    by rewrite encodeNodeRecord_spec.
  - intros (Hw & Hv & He). rewrite encodeNodeRecord_spec in He by done.
    injection He as <-. by apply decode_nodeRecordBytes.
Qed.

Definition sampleNodeRecord : NodeRecord :=
  mkNodeRecord 9 NodeState.QUEUED 1 64 1 77 5 3600 3000 2 ([3] ++ zeros 11).

Lemma sampleNodeRecord_wf : node_record_wf sampleNodeRecord.
Proof. unfold node_record_wf. concrete. Qed.

Lemma node_record_codec_witness :
  decodeNodeRecord (Some (nodeRecordBytes sampleNodeRecord)) zeroNodeRecord
    = (OK, sampleNodeRecord) ↔
  node_record_wf sampleNodeRecord ∧ validateNodeRecord sampleNodeRecord = OK
  ∧ encodeNodeRecord sampleNodeRecord (Some (zeros 56))
    = (OK, Some (nodeRecordBytes sampleNodeRecord)).
Proof.
  apply node_record_codec. apply nodeRecordBytes_byte, sampleNodeRecord_wf.
Defined.

(** Hub ledger records: 56 stored bytes decode to the record [v] exactly
    when [v] is a valid record and those bytes are what [encodeHubRecord]
    writes for it. *)
Theorem hub_record_codec inp v v0 :
  is_byte_list inp →
  decodeHubRecord (Some inp) v0 = (OK, v) ↔
  hub_record_wf v ∧ validateHubRecord v = OK
  ∧ encodeHubRecord v (Some (zeros 56)) = (OK, Some inp).
Proof.
  intros Hb. split.
  - intros (Hw & Hv & ->)%decodeHubRecord_inv; [|done].
    by rewrite encodeHubRecord_spec.
  - intros (Hw & Hv & He). rewrite encodeHubRecord_spec in He by done.
    injection He as <-. by apply decode_hubRecordBytes.
Qed.

Definition sampleHubRecord : HubRecord :=
  mkHubRecord 4 HubState.ACTIVE 17 64 1 1 77 5 3600 12 ([3] ++ zeros 11).

Lemma sampleHubRecord_wf : hub_record_wf sampleHubRecord.
Proof. unfold hub_record_wf. concrete. Qed.

Lemma hub_record_codec_witness :
  decodeHubRecord (Some (hubRecordBytes sampleHubRecord)) zeroHubRecord
    = (OK, sampleHubRecord) ↔
  hub_record_wf sampleHubRecord ∧ validateHubRecord sampleHubRecord = OK
  ∧ encodeHubRecord sampleHubRecord (Some (zeros 56))
    = (OK, Some (hubRecordBytes sampleHubRecord)).
Proof.
  apply hub_record_codec. apply hubRecordBytes_byte, sampleHubRecord_wf.
Defined.

(** Metadata records: stored bytes decode to Node (Hub) metadata exactly
    when they are what the encoder writes for it, and the encoder refuses a
    zero source, epoch, id high-water mark or ordinal high-water mark. *)
Theorem metadata_codec :
  (∀ inp v v0, is_byte_list inp →
     decodeNodeMetadata (Some inp) v0 = (OK, v) ↔
     node_metadata_wf v ∧ encodeNodeMetadata v (Some (zeros 28)) = (OK, Some inp))
  ∧ (∀ inp v v0, is_byte_list inp →
     decodeHubMetadata (Some inp) v0 = (OK, v) ↔
     hub_metadata_wf v ∧ encodeHubMetadata v (Some (zeros 24)) = (OK, Some inp)).
Proof.
  split; intros inp v v0 Hb; (split; [|intros (Hw & He)]).
  - intros (Hw & Hv & ->)%decodeNodeMetadata_inv; [|done]. by rewrite encodeNodeMetadata_spec.
  - destruct (decide (node_metadata_valid v)) as [Hv|Hv].
    + rewrite encodeNodeMetadata_spec in He by done. injection He as <-.
      by apply decode_nodeMetadataBytes.
    + rewrite node_metadata_invalid in Hv. apply not_false_is_true in Hv.
      unfold encodeNodeMetadata in He. by rewrite Hv in He.
  - intros (Hw & Hv & ->)%decodeHubMetadata_inv; [|done]. by rewrite encodeHubMetadata_spec.
  - destruct (Z.eqb_spec (nextUnreservedAdmissionOrdinal v) 0) as [Hv|Hv].
    + unfold encodeHubMetadata in He. rewrite Hv in He. done.
    + rewrite encodeHubMetadata_spec in He by done. injection He as <-.
      by apply decode_hubMetadataBytes.
Qed.

(** ** Corruption *)

Lemma crcRound_inj v w :
  is_u32 v → is_u32 w → crcRounds 1 v = crcRounds 1 w → v = w.
Proof.
  assert (Hone : ∀ x, Z.land x 1 = x mod 2).
  { intros x. change 1 with (Z.ones 1). by rewrite Z.land_ones by lia. }
  assert (Hx : ∀ x, is_u32 x → Z.testbit (Z.shiftr x 1) 31 = false).
  { intros x Hx. rewrite Z.shiftr_spec by lia. apply (Z.testbit_false x); [lia|].
    change (2 ^ (31 + 1)) with 4294967296. rewrite Z.div_small by uint. done. }
  intros Hv Hw. unfold crcRounds. rewrite !Hone.
  pose proof (Hx v Hv) as Bv. pose proof (Hx w Hw) as Bw.
  assert (Hh : ∀ x, x = 2 * Z.shiftr x 1 + x mod 2).
  { intros x. rewrite Z.shiftr_div_pow2 by lia. change (2 ^ 1) with 2.
    apply Z.div_mod. lia. }
  pose proof (Z.mod_pos_bound v 2). pose proof (Z.mod_pos_bound w 2).
  destruct (Z.eqb_spec (v mod 2) 0) as [E1|E1], (Z.eqb_spec (w mod 2) 0) as [E2|E2]; bsimp;
    intros E.
  - rewrite (Hh v), (Hh w). congruence.
  - apply (f_equal (λ z, Z.testbit z 31)) in E. rewrite Z.lxor_spec, Bv, Bw in E. done.
  - apply (f_equal (λ z, Z.testbit z 31)) in E. rewrite Z.lxor_spec, Bv, Bw in E. done.
  - apply (f_equal (λ z, Z.lxor z 3988292384)) in E.
    rewrite !Z.lxor_assoc, Z.lxor_nilpotent, !Z.lxor_0_r in E.
    rewrite (Hh v), (Hh w). lia.
Qed.

Lemma crcRounds_inj n v w :
  is_u32 v → is_u32 w → crcRounds n v = crcRounds n w → v = w.
Proof.
  revert v w. induction n as [|n IH]; intros v w Hv Hw E; [done|].
  apply crcRound_inj; [done..|]. apply IH; [by apply crcRounds_range..|]. exact E.
Qed.

Lemma lxor_cancel_r a b c : Z.lxor a c = Z.lxor b c → a = b.
Proof.
  intros E. apply (f_equal (λ z, Z.lxor z c)) in E.
  by rewrite !Z.lxor_assoc, Z.lxor_nilpotent, !Z.lxor_0_r in E.
Qed.

Lemma byte_u32 b : is_u8 b → is_u32 b.
Proof. intros. uint. Qed.

Lemma crcBytes_inj n i l v w :
  is_byte_list l → is_u32 v → is_u32 w → crcBytes n i l v = crcBytes n i l w → v = w.
Proof.
  intros Hl. revert i v w. induction n as [|n IH]; intros i v w Hv Hw; [done|].
  cbn [crcBytes]. pose proof (byte_u32 _ (rd_byte l i Hl)).
  intros E. apply IH in E; [|auto using byte_u32 with uint..].
  apply crcRounds_inj in E; [|auto with uint..]. by apply lxor_cancel_r in E.
Qed.

(** The CRC tells apart any two buffers that differ in one byte. *)
Lemma crcOf_upd l i b :
  is_byte_list l → is_u8 b → (i < length l)%nat → crcOf (upd l i b) = crcOf l → b = rd l i.
Proof.
  intros Hl Hb Hi E%lxor_cancel_r. rewrite length_upd in E.
  assert (H0 : is_u32 UINT32_MAX) by (unfold UINT32_MAX; uint).
  enough (G : ∀ n j v, is_u32 v → (j ≤ i < j + n)%nat →
    crcBytes n j (upd l i b) v = crcBytes n j l v → b = rd l i)
    by (apply (G (length l) 0%nat UINT32_MAX); [done|lia|done]).
  clear E. induction n as [|n IH]; intros j v Hv Hj; [lia|]. cbn [crcBytes].
  destruct (decide (j = i)) as [->|Hne].
  - assert (Eb : rd (upd l i b) i = b) by (apply rd_lookup, list_lookup_insert_eq; lia).
    rewrite Eb. intros E.
    assert (Hsuf : ∀ m k w, (i < k)%nat → crcBytes m k (upd l i b) w = crcBytes m k l w).
    { clear. induction m as [|m IH]; intros k w Hk; [done|]. cbn [crcBytes].
      rewrite IH by lia. by rewrite rd_upd_ne by lia. }
    rewrite Hsuf in E by lia.
    apply crcBytes_inj in E; [|done|auto using byte_u32 with uint..].
    apply crcRounds_inj in E; [|auto using byte_u32 with uint..].
    rewrite !(Z.lxor_comm v) in E. by apply lxor_cancel_r in E.
  - rewrite rd_upd_ne by lia. apply IH; [|lia].
    auto using byte_u32 with uint.
Qed.

(** C11. A stored record with any one byte changed is rejected: no value of
    any single byte, in the record or in its CRC, leaves a valid envelope. *)
Theorem single_byte_corruption_rejected input n magic i b :
  is_byte_list input → is_byte_list magic → length magic = 4%nat → (16 ≤ n)%nat →
  validateEnvelope (Some input) n magic = OK → (i < n)%nat → is_u8 b → b ≠ rd input i →
  validateEnvelope (Some (upd input i b)) n magic ≠ OK.
Proof.
  intros Hb Hmb Hm Hn Hok Hi Hb8 Hne Hok'.
  apply validateEnvelope_inv in Hok as (g & rest & Hg & Hr & Hrl & ->); [|done..].
  apply validateEnvelope_inv in Hok' as (g' & rest' & Hg' & Hr' & Hrl' & E'); [|auto with uint..].
  set (l := envelope magic n g ++ rest) in *. set (l' := envelope magic n g' ++ rest') in *.
  assert (Hl : length l = (n - 4)%nat) by (subst l; unfold envelope; len).
  assert (Hl' : length l' = (n - 4)%nat) by (subst l'; unfold envelope; len).
  assert (Hlb : is_byte_list l) by (subst l; unfold envelope; bytes).
  assert (Hlb' : is_byte_list l') by (subst l'; unfold envelope; bytes).
  unfold sealed, upd in E', Hne. destruct (decide (i < length l)%nat) as [Hil|Hil].
  - rewrite insert_app_l in E' by done.
    apply app_inj_1 in E' as [El Ec]; [|len].
    assert (Hc : crcOf l = crcOf l').
    { apply (f_equal (λ k, read32 k 0)) in Ec.
      unfold le32, read32, rd in Ec. simpl nth in Ec.
      by rewrite !word32_le in Ec by auto with uint. }
    rewrite <- El in Hc. apply Hne. unfold rd. rewrite app_nth1 by done.
    apply (crcOf_upd l i b Hlb Hb8 Hil). by symmetry.
  - rewrite insert_app_r_alt in E' by lia.
    apply app_inj_1 in E' as [El Ec]; [|len]. rewrite <- El in Ec.
    apply Hne. unfold rd. rewrite app_nth2 by lia. rewrite <- Ec.
    change (b = rd (upd (le32 (crcOf l)) (i - length l) b) (i - length l)).
    symmetry. apply rd_lookup, list_lookup_insert_eq. rewrite length_le32. lia.
Qed.

Lemma single_byte_corruption_rejected_witness :
  validateEnvelope (Some (upd (nodeRecordBytes sampleNodeRecord) 20 6)) 56 EVT1 ≠ OK.
Proof.
  apply single_byte_corruption_rejected;
    [apply nodeRecordBytes_byte, sampleNodeRecord_wf|concrete|reflexivity|lia
    |vm_compute; reflexivity|lia|concrete|vm_compute; discriminate].
Defined.

End EventRecords.
