(* ===== verification/Identity.v ===== *)
(** Event identity allocation, lib/event_identity: the allocator that reserves
    blocks of 32 event ids in two-copy durable metadata before it hands out
    any of them.  The storage and entropy interfaces are type classes over the
    state [W] of the outside world; the two object pointers the allocator keeps
    are those instances, and every method passes its own state and [W]. *)

From S2P Require Import Prelude Wire EventWire Copies Records.

Module EventIdentity.

Import EventStorage EventRecords.

(* event_identity.h:12 RESERVATION_BLOCK_SIZE *)
Definition RESERVATION_BLOCK_SIZE : Z := 32.

(* event_identity.h:14-18 CustodyState *)
Inductive CustodyState := CUSTODY_EMPTY | CUSTODY_NONEMPTY | CUSTODY_UNPROVABLE.

(* event_identity.h:20-25 StorageResult *)
Inductive StorageResult := S_OK | S_MISSING | S_UNAVAILABLE | S_ERROR.

(* event_identity.h:27-41 Status *)
Inductive Status :=
  READY | INVALID_SOURCE_DEVICE_ID | STORAGE_UNAVAILABLE | STORAGE_FAILURE
| READ_BACK_MISSING | READ_BACK_MISMATCH | READ_BACK_INVALID | ENTROPY_FAILURE
| IDENTITY_CONTEXT_MISMATCH | IDENTITY_RECOVERY_REQUIRED | METADATA_CONFLICT
| STATUS_GENERATION_AMBIGUOUS | EPOCH_EXHAUSTED.

#[global] Instance StorageResult_eq_dec : EqDecision StorageResult.
Proof. solve_decision. Defined.

#[global] Instance CustodyState_eq_dec : EqDecision CustodyState.
Proof. solve_decision. Defined.

#[global] Instance Status_eq_dec : EqDecision Status.
Proof. solve_decision. Defined.

(* event_identity.h:43-46 AllocationResult *)
Record AllocationResult := mkAllocation {
  result_status : Status;
  result_identity : EventProtocol.Identity
}.

(** [read] fills a buffer and sets a length. *)
(* event_identity.h:48-66 MetadataStorage *)
Class MetadataStorage (W : Type) := {
  read : CopySlot → list Z → st W (StorageResult * list Z * Z);
  write : CopySlot → list Z → st W StorageResult;
  commit : st W StorageResult
}.

(** [nextUint32] returns its truth value and the output. *)
(* event_identity.h:68-72 EntropySource *)
Class EntropySource (W : Type) := {
  nextUint32 : Z → st W (bool * Z)
}.

(* event_identity.h:343-352 = Allocator members *)
Record Allocator := mkAllocator {
  metadata_ : NodeMetadata;
  activeSlot_ : CopySlot;
  sourceDeviceId_ : Z;
  nextVolatileId_ : Z;
  volatileEndExclusive_ : Z;
  hasAuthoritativeMetadata_ : bool;
  ready_ : bool;
  status_ : Status
}.

#[global] Instance eta_Allocator : RecEta Allocator := λ r,
  mkAllocator (metadata_ r) (activeSlot_ r) (sourceDeviceId_ r) (nextVolatileId_ r)
    (volatileEndExclusive_ r) (hasAuthoritativeMetadata_ r) (ready_ r) (status_ r).

(* event_identity.h:330-341 = reset *)
Definition newAllocator : Allocator :=
  mkAllocator zeroNodeMetadata A 0 0 0 false false IDENTITY_RECOVERY_REQUIRED.

(* event_identity.h:314-318 Allocator::opposite *)
Definition opposite (slot : CopySlot) : CopySlot :=
  if bool_decide (slot = A) then B else A.

(* event_identity.h:320-322 Allocator::validHighWater *)
Definition validHighWater (value : Z) : bool :=
  negb (value =? 0) && ((u32 (value - 1)) `mod` RESERVATION_BLOCK_SIZE =? 0).

Section Methods.

Context {W : Type} `{MetadataStorage W} `{EntropySource W}.

(** A method of the allocator. *)
Abbreviation M := (st (Allocator * W)).

(* event_identity.h:324-328 Allocator::fail *)
Definition fail (status : Status) : M Status :=
  update (λ a, a <| ready_ := false |> <| status_ := status |>) ;;;
  ret status.

(** The copy is filled in place; its status when the function is entered is
    the zero of its type, [OK]. *)
(* event_identity.h:179-204 Allocator::readCopy *)
Definition readCopy (slot : CopySlot) : M (Status * FixedCopy) :=
  r <~ outside (read slot (zeros NODE_METADATA_SIZE)) ;;
  let '(result, bytes, length) := r in
  if bool_decide (result = S_UNAVAILABLE)
  then ret (STORAGE_UNAVAILABLE, mkCopy READ_UNAVAILABLE bytes)
  else if negb (bool_decide (result = S_OK))
          || negb (length =? Z.of_nat NODE_METADATA_SIZE)
  then
    ret (READY,
      mkCopy (if bool_decide (result = S_MISSING) then READ_MISSING else READ_OK)
        (if negb (bool_decide (result = S_MISSING)) then zeros NODE_METADATA_SIZE else bytes))
  else ret (READY, mkCopy READ_OK bytes).

(* event_identity.h:221-227 Allocator::becomeReady *)
Definition becomeReady : M Status :=
  update (λ a, a <| nextVolatileId_ := nextUnreservedEventId (metadata_ a) |>
                 <| volatileEndExclusive_ := nextUnreservedEventId (metadata_ a) |>
                 <| ready_ := true |> <| status_ := READY |>) ;;;
  this status_.

(* event_identity.h:256-312 Allocator::commitMetadata *)
Definition commitMetadata (next : NodeMetadata) : M Status :=
  match encodeNodeMetadata next (Some (zeros NODE_METADATA_SIZE)) with
  | (EventRecords.OK, Some encoded) =>
      has <~ this hasAuthoritativeMetadata_ ;;
      active <~ this activeSlot_ ;;
      let target := if has : bool then opposite active else A in
      writeResult <~ outside (write target encoded) ;;
      if bool_decide (writeResult = S_UNAVAILABLE) then fail STORAGE_UNAVAILABLE else
      if negb (bool_decide (writeResult = S_OK)) then fail STORAGE_FAILURE else
      commitResult <~ outside commit ;;
      if bool_decide (commitResult = S_UNAVAILABLE) then fail STORAGE_UNAVAILABLE else
      if negb (bool_decide (commitResult = S_OK)) then fail STORAGE_FAILURE else
      r <~ outside (read target (zeros NODE_METADATA_SIZE)) ;;
      let '(readResult, bytes, readBackLength) := r in
      if bool_decide (readResult = S_UNAVAILABLE) then fail STORAGE_UNAVAILABLE else
      if bool_decide (readResult = S_MISSING) then fail READ_BACK_MISSING else
      if negb (bool_decide (readResult = S_OK))
         || negb (readBackLength =? Z.of_nat NODE_METADATA_SIZE)
      then fail READ_BACK_INVALID else
      let readBack := mkCopy READ_OK bytes in
      let (decodeResult, verified) :=
        decodeNodeMetadata (Some (EventStorage.bytes readBack)) zeroNodeMetadata in
      if negb (bool_decide (decodeResult = EventRecords.OK)) then fail READ_BACK_INVALID else
      let classification := classifyReadBack NODE_METADATA_SIZE encoded readBack in
      if negb (bool_decide (classification = MATCH)) then fail READ_BACK_MISMATCH else
      update (λ a, a <| metadata_ := verified |> <| activeSlot_ := target |>
                     <| hasAuthoritativeMetadata_ := true |>) ;;;
      becomeReady
  | _ => fail STORAGE_FAILURE
  end.

(* event_identity.h:206-219 Allocator::initializeFresh *)
Definition initializeFresh : M Status :=
  r <~ outside (nextUint32 0) ;;
  let '(drawn, epoch) := r in
  if negb drawn || (epoch =? 0) then fail ENTROPY_FAILURE else
  has <~ this hasAuthoritativeMetadata_ ;;
  metadata <~ this metadata_ ;;
  source <~ this sourceDeviceId_ ;;
  commitMetadata
    (mkNodeMetadata (if has : bool then u32 (nm_generation metadata + 1) else 1)
      source epoch 1).

(* event_identity.h:76-148 Allocator::recover *)
Definition recover (configuredSourceDeviceId : Z) (custodyState : CustodyState) : M Status :=
  update (λ _, newAllocator) ;;;
  update (λ a, a <| sourceDeviceId_ := configuredSourceDeviceId |>) ;;;
  if configuredSourceDeviceId =? 0 then fail INVALID_SOURCE_DEVICE_ID else
  if bool_decide (custodyState = CUSTODY_UNPROVABLE) then fail IDENTITY_RECOVERY_REQUIRED else
  ra <~ readCopy A ;;
  rb <~ readCopy B ;;
  let '(readA, copyA) := ra in
  let '(readB, copyB) := rb in
  if bool_decide (readA = STORAGE_UNAVAILABLE) || bool_decide (readB = STORAGE_UNAVAILABLE)
  then fail STORAGE_UNAVAILABLE else
  let '(selection, selected, selectedSlot) :=
    selectCopies zeroNodeMetadata nm_generation decodeNodeMetadataForSelection
      NODE_METADATA_SIZE copyA copyB zeroNodeMetadata A in
  if bool_decide (selection = EQUAL_DISAGREEMENT) then fail METADATA_CONFLICT else
  if bool_decide (selection = EventStorage.GENERATION_AMBIGUOUS)
  then fail STATUS_GENERATION_AMBIGUOUS else
  if bool_decide (selection = BOTH_INVALID) then
    if bool_decide (custodyState = CUSTODY_NONEMPTY) then fail IDENTITY_RECOVERY_REQUIRED
    else initializeFresh
  else
  update (λ a, a <| metadata_ := selected |> <| activeSlot_ := selectedSlot |>
                 <| hasAuthoritativeMetadata_ := true |>) ;;;
  if negb (validHighWater (nextUnreservedEventId selected)) then
    if bool_decide (custodyState = CUSTODY_NONEMPTY) then fail IDENTITY_RECOVERY_REQUIRED
    else initializeFresh
  else if bool_decide (custodyState = CUSTODY_NONEMPTY) then
    if negb (custodySourceDeviceId selected =? configuredSourceDeviceId)
    then fail IDENTITY_CONTEXT_MISMATCH
    else becomeReady
  else if negb (custodySourceDeviceId selected =? configuredSourceDeviceId)
  then initializeFresh
  else becomeReady.

(* event_identity.h:229-254 Allocator::reserveBlock *)
Definition reserveBlock : M Status :=
  metadata <~ this metadata_ ;;
  let next := metadata <| nm_generation := u32 (nm_generation metadata + 1) |> in
  if UINT32_MAX - RESERVATION_BLOCK_SIZE <? nextUnreservedEventId metadata then
    if eventEpoch metadata =? UINT32_MAX then fail EPOCH_EXHAUSTED else
    let next := next <| eventEpoch := u32 (eventEpoch metadata + 1) |>
                     <| nextUnreservedEventId := 1 + RESERVATION_BLOCK_SIZE |> in
    committed <~ commitMetadata next ;;
    if negb (bool_decide (committed = READY)) then ret committed else
    update (λ a, a <| nextVolatileId_ := 1 |>
                   <| volatileEndExclusive_ := 1 + RESERVATION_BLOCK_SIZE |>) ;;;
    ret READY
  else
    let blockStart := nextUnreservedEventId metadata in
    let next := next <| nextUnreservedEventId := u32 (blockStart + RESERVATION_BLOCK_SIZE) |> in
    committed <~ commitMetadata next ;;
    if negb (bool_decide (committed = READY)) then ret committed else
    update (λ a, a <| nextVolatileId_ := blockStart |>
                   <| volatileEndExclusive_ := u32 (blockStart + RESERVATION_BLOCK_SIZE) |>) ;;;
    ret READY.

Definition noIdentity : EventProtocol.Identity := EventProtocol.mkIdentity 0 0 0.

(** The last three statements of [allocate]. *)
(* event_identity.h:165-170 = allocate, taking the next id *)
Definition take_next : M AllocationResult :=
  source <~ this sourceDeviceId_ ;;
  metadata <~ this metadata_ ;;
  i <~ this nextVolatileId_ ;;
  update (λ a, a <| nextVolatileId_ := u32 (nextVolatileId_ a + 1) |>) ;;;
  ret (mkAllocation READY (EventProtocol.mkIdentity source (eventEpoch metadata) i)).

(* event_identity.h:150-171 Allocator::allocate *)
Definition allocate : M AllocationResult :=
  status <~ this status_ ;;
  ready <~ this ready_ ;;
  if negb ready then ret (mkAllocation status noIdentity) else
  next <~ this nextVolatileId_ ;;
  limit <~ this volatileEndExclusive_ ;;
  if next =? limit then
    reservation <~ reserveBlock ;;
    if negb (bool_decide (reservation = READY)) then ret (mkAllocation reservation noIdentity)
    else take_next
  else take_next.

(** A session: [n] allocations, the identities that were handed out. *)
Fixpoint allocations (n : nat) : M (list EventProtocol.Identity) :=
  match n with
  | O => ret []
  | S m =>
      r <~ allocate ;;
      l <~ allocations m ;;
      ret (if bool_decide (result_status r = READY) then result_identity r :: l else l)
  end.

End Methods.

(** ** Laws of the storage

    What every implementation of [read] does with the caller's buffer. *)

Class MetadataStorageLaws (W : Type) `{MetadataStorage W} := {
  read_buffer slot out w :
    is_byte_list out →
    length ((read slot out w).1.1.2) = length out ∧ is_byte_list (read slot out w).1.1.2
}.

Ltac method := unfold fail, becomeReady in *; object.

(** The branches that end in [fail]. *)
Ltac failed_case := right; eexists; split; [|reflexivity]; discriminate.

(** An observation that storage and entropy leave alone, the allocator leaves
    alone. *)

Section Frames.

Context {W O : Type} `{MetadataStorage W} `{EntropySource W} (obs : W → O)
  (obs_read : ∀ slot out w, obs (read slot out w).2 = obs w)
  (obs_write : ∀ slot b w, obs (write slot b w).2 = obs w)
  (obs_commit : ∀ w, obs (commit w).2 = obs w)
  (obs_entropy : ∀ v w, obs (nextUint32 v w).2 = obs w).

Lemma commitMetadata_frame next : frame obs (commitMetadata next).
Proof.
  unfold commitMetadata, fail, becomeReady. framing; apply frame_outside; auto.
Qed.

Lemma allocate_frame : frame obs allocate.
Proof.
  unfold allocate, reserveBlock, take_next, fail. framing; apply commitMetadata_frame.
Qed.

Lemma recover_frame src custody : frame obs (recover src custody).
Proof.
  unfold recover, initializeFresh, readCopy, becomeReady, fail.
  framing; first [apply commitMetadata_frame | apply frame_outside; auto].
Qed.

End Frames.

Section Allocation.

Context {W : Type} `{MetadataStorageLaws W} `{EntropySource W}.

Implicit Types (a : Allocator) (w : W) (next : NodeMetadata).

Definition commitTarget a : CopySlot :=
  if hasAuthoritativeMetadata_ a then opposite (activeSlot_ a) else A.

Definition committed next a : Allocator :=
  mkAllocator next (commitTarget a) (sourceDeviceId_ a) (nextUnreservedEventId next)
    (nextUnreservedEventId next) true true READY.

Definition failed (status : Status) a : Allocator :=
  a <| ready_ := false |> <| status_ := status |>.

Lemma commitMetadata_invalid next a w :
  ¬ node_metadata_valid next →
  commitMetadata next (a, w) = (STORAGE_FAILURE, (failed STORAGE_FAILURE a, w)).
Proof.
  rewrite node_metadata_invalid. intros Hv%not_false_is_true. unfold commitMetadata.
  unfold encodeNodeMetadata. by rewrite Hv.
Qed.

(** A commit either succeeds, having read the very record back, or fails and
    leaves the allocator refusing service. *)
Lemma commitMetadata_cases next a w :
  node_metadata_wf next →
  ∃ w', commitMetadata next (a, w) = (READY, (committed next a, w')) ∧ node_metadata_valid next
  ∨ ∃ status, status ≠ READY ∧ commitMetadata next (a, w) = (status, (failed status a, w')).
Proof.
  intros Hwf. destruct (decide (node_metadata_valid next)) as [Hv|Hv].
  2:{ exists w. right. exists STORAGE_FAILURE. split; [done|]. by apply commitMetadata_invalid. }
  unfold commitMetadata. rewrite encodeNodeMetadata_spec by done.
  method. change (if hasAuthoritativeMetadata_ a then opposite (activeSlot_ a) else A)
    with (commitTarget a).
  destruct (write (commitTarget a) (nodeMetadataBytes next) w) as [wr w1]; cbn [fst snd].
  destruct wr; decide_eqs; cbn [fst snd]; try (exists w1; failed_case).
  destruct (commit w1) as [cr w2]; cbn [fst snd].
  destruct cr; decide_eqs; cbn [fst snd]; try (exists w2; failed_case).
  pose proof (read_buffer (commitTarget a) (zeros 28) w2 (zeros_byte 28)) as [Hl Hb].
  change NODE_METADATA_SIZE with 28%nat.
  destruct (read (commitTarget a) (zeros 28) w2) as [[[rr bytes] len] w3]; cbn [fst snd] in *.
  exists w3. destruct rr; decide_eqs; cbn [fst snd]; try (failed_case).
  destruct (negb (len =? _)); [failed_case|]. cbn [EventStorage.bytes].
  destruct (decodeNodeMetadata (Some bytes) zeroNodeMetadata) as [dr verified] eqn:Hd.
  destruct (decide (dr = EventRecords.OK)) as [->|]; decide_eqs; [|failed_case].
  destruct (classifyReadBack _ _ _) eqn:Hc; decide_eqs; try (failed_case).
  left. split; [|done]. apply classifyReadBack_match in Hc;
    [|by rewrite length_nodeMetadataBytes|done].
  subst bytes. rewrite decode_nodeMetadataBytes in Hd by done. by injection Hd as <-.
Qed.

End Allocation.

(** ** Durable storage

    What the flash store is documented to do: a read that is available returns
    the stored blob (or that there is none, or that its length is wrong), a
    write touches only its own slot and leaves there the old blob, the new one
    or - torn - something that does not decode, and nothing else changes a
    blob.  A power loss is any point at which an operation failed. *)

Definition content_of (blob : option (list Z)) : option NodeMetadata :=
  match decodeNodeMetadata blob zeroNodeMetadata with
  | (EventRecords.OK, r) => Some r
  | _ => None
  end.

Class DurableMetadata (W : Type) `{MetadataStorage W} `{EntropySource W} := {
  stored : W → CopySlot → option (list Z);
  stored_bytes w slot b : stored w slot = Some b → is_byte_list b;
  read_keeps slot out w s : stored (read slot out w).2 s = stored w s;
  read_result slot out w :
    length out = 28%nat →
    (read slot out w).1.1.1 = S_UNAVAILABLE ∨
    match stored w slot with
    | None => (read slot out w).1.1.1 = S_MISSING
    | Some b =>
        if bool_decide (length b = 28%nat) then (read slot out w).1 = (S_OK, b, 28)
        else (read slot out w).1.1.1 = S_ERROR
    end;
  write_keeps slot b w : stored (write slot b w).2 (other slot) = stored w (other slot);
  write_outcome slot b w :
    is_byte_list b →
    stored (write slot b w).2 slot = stored w slot
    ∨ stored (write slot b w).2 slot = Some b
    ∨ content_of (stored (write slot b w).2 slot) = None;
  commit_keeps w s : stored (commit w).2 s = stored w s;
  entropy_keeps v w s : stored (nextUint32 v w).2 s = stored w s;
  entropy_range v w : is_u32 v → is_u32 (nextUint32 v w).1.2
}.

Section Durable.

Context {W : Type} `{MetadataStorageLaws W} `{!EntropySource W} `{!DurableMetadata W}.

Implicit Types (a : Allocator) (w : W) (next : NodeMetadata).

Definition content w (slot : CopySlot) : option NodeMetadata := content_of (stored w slot).

Abbreviation governs w := (authority nm_generation (content w)).

Definition same_store w w' : Prop := ∀ s, stored w' s = stored w s.

Lemma content_inv w slot r :
  content w slot = Some r →
  node_metadata_wf r ∧ node_metadata_valid r ∧ stored w slot = Some (nodeMetadataBytes r).
Proof.
  unfold content, content_of. destruct (stored w slot) as [b|] eqn:Hs; [|done].
  destruct (decodeNodeMetadata (Some b) zeroNodeMetadata) as [[] r'] eqn:Hd; try done.
  intros [= <-]. apply decodeNodeMetadata_inv in Hd as (?&?&->); [done|].
  by eapply stored_bytes.
Qed.

Lemma content_stored w slot r :
  node_metadata_wf r → node_metadata_valid r → stored w slot = Some (nodeMetadataBytes r) →
  content w slot = Some r.
Proof.
  intros ?? Hs. unfold content, content_of. rewrite Hs. by rewrite decode_nodeMetadataBytes.
Qed.

Lemma same_content w w' s : same_store w w' → content w' s = content w s.
Proof. intros Hs. unfold content. by rewrite Hs. Qed.

Lemma governs_same w w' r slot : same_store w w' → governs w r slot → governs w' r slot.
Proof.
  intros Hs [H1 H2]. split; [by rewrite (same_content w)|].
  intros r'. rewrite (same_content w) by done. apply H2.
Qed.

Lemma governs_unique w r slot r' slot' :
  governs w r slot → governs w r' slot' → r = r'.
Proof.
  intros [Hr Ho] [Hr' Ho']. destruct (decide (slot = slot')) as [->|Hne]; [congruence|].
  assert (slot' = other slot) as -> by by destruct slot, slot'.
  assert (Hoo : other (other slot) = slot) by by destruct slot.
  rewrite Hoo in Ho'. destruct (Ho _ Hr') as [|E1]; [done|].
  destruct (Ho' _ Hr) as [|E2]; [done|].
  apply content_inv in Hr as ((?&_)&_). apply content_inv in Hr' as ((?&_)&_).
  apply compareGenerations_newer in E1; [|done..]. congruence.
Qed.

(** The write of a commit, as it leaves the store. *)
Lemma commitMetadata_store next a w :
  node_metadata_wf next → node_metadata_valid next →
  let s := commitMetadata next (a, w) in
  (∀ slot, stored s.2.2 slot
     = stored (write (commitTarget a) (nodeMetadataBytes next) w).2 slot)
  ∧ (s.1 = READY → stored s.2.2 (commitTarget a) = Some (nodeMetadataBytes next)).
Proof.
  intros Hwf Hv. unfold commitMetadata. rewrite encodeNodeMetadata_spec by done.
  method. change (if hasAuthoritativeMetadata_ a then opposite (activeSlot_ a) else A)
    with (commitTarget a).
  destruct (write (commitTarget a) (nodeMetadataBytes next) w) as [wr w1]; cbn [fst snd].
  destruct wr; decide_eqs; cbn [fst snd]; try done.
  pose proof (commit_keeps w1) as Hck. destruct (commit w1) as [cr w2]; cbn [fst snd] in *.
  destruct cr; decide_eqs; cbn [fst snd]; try done.
  change NODE_METADATA_SIZE with 28%nat.
  pose proof (read_buffer (commitTarget a) (zeros 28) w2 (zeros_byte 28)) as [Hl Hb].
  pose proof (read_keeps (commitTarget a) (zeros 28) w2) as Hrk.
  pose proof (read_result (commitTarget a) (zeros 28) w2 eq_refl) as Hrr.
  destruct (read (commitTarget a) (zeros 28) w2) as [[[rr bytes] len] w3]; cbn [fst snd] in *.
  assert (Hs : ∀ s, stored w3 s = stored w1 s) by (intros; by rewrite Hrk, Hck).
  destruct rr; decide_eqs; cbn [fst snd]; try done.
  destruct (negb (len =? _)); [done|]. cbn [EventStorage.bytes].
  destruct (decodeNodeMetadata (Some bytes) zeroNodeMetadata) as [dr verified] eqn:Hd.
  destruct (decide (dr = EventRecords.OK)) as [->|]; decide_eqs; [|done].
  destruct (classifyReadBack _ _ _) eqn:Hc; decide_eqs; try done.
  split; [done|]. intros _. cbn [fst snd].
  apply classifyReadBack_match in Hc; [|by rewrite length_nodeMetadataBytes|done].
  subst bytes. clear Hd. destruct Hrr as [|Hrr]; [discriminate|]. rewrite Hrk.
  destruct (stored w2 (commitTarget a)) as [b|]; [|discriminate].
  destruct (bool_decide _) in Hrr; [|discriminate]. by injection Hrr as ->.
Qed.

(** What the allocator knows of the store when it commits. *)
Definition prepared a w : Prop :=
  if hasAuthoritativeMetadata_ a then governs w (metadata_ a) (activeSlot_ a)
  else ∀ s, content w s = None.

Definition successor next a : Prop :=
  hasAuthoritativeMetadata_ a = true →
  nm_generation next = u32 (nm_generation (metadata_ a) + 1).

Lemma target_other a :
  hasAuthoritativeMetadata_ a = true → commitTarget a = other (activeSlot_ a).
Proof. unfold commitTarget. intros ->. by destruct (activeSlot_ a). Qed.

(** A commit - complete, torn, refused or interrupted - leaves either the new
    record or the previous one in charge; the new one when it succeeds. *)
Lemma commitMetadata_governs next a w :
  node_metadata_wf next → prepared a w → successor next a →
  let s := commitMetadata next (a, w) in
  (s.1 = READY → governs s.2.2 next (commitTarget a))
  ∧ (hasAuthoritativeMetadata_ a = true →
     governs s.2.2 next (commitTarget a) ∨ governs s.2.2 (metadata_ a) (activeSlot_ a)).
Proof.
  intros Hwf Hp Hs. destruct (commitMetadata_cases next a w Hwf) as [w' [[E Hv]|(st & Hst & E)]].
  - pose proof (commitMetadata_store next a w Hwf Hv) as [Hst Hok].
    rewrite E in *; cbn [fst snd] in *. specialize (Hok eq_refl).
    assert (Hg : governs w' next (commitTarget a)).
    { split; [by apply content_stored|]. intros r'.
      pose proof (write_keeps (commitTarget a) (nodeMetadataBytes next) w) as Hk.
      unfold content. rewrite Hst, Hk. unfold prepared in Hp.
      destruct (hasAuthoritativeMetadata_ a) eqn:Hh.
      - rewrite (target_other a Hh). replace (other (other (activeSlot_ a))) with (activeSlot_ a)
          by by destruct (activeSlot_ a). destruct Hp as [Hc _].
        change (content_of (stored w (activeSlot_ a))) with (content w (activeSlot_ a)).
        rewrite Hc. intros [= <-]. right. rewrite (Hs Hh).
        apply compareGenerations_succ. by apply content_inv in Hc as ((?&_)&_).
      - change (content_of (stored w (other (commitTarget a))))
          with (content w (other (commitTarget a))). by rewrite Hp. }
    auto.
  - rewrite E; cbn [fst snd]. split; [done|]. intros Hh.
    unfold prepared in Hp. rewrite Hh in Hp. destruct Hp as [Hc Ho].
    destruct (decide (node_metadata_valid next)) as [Hv|Hv].
    2:{ right. rewrite commitMetadata_invalid in E by done.
        assert (w' = w) as -> by congruence. by split. }
    pose proof (commitMetadata_store next a w Hwf Hv) as [Hst' _].
    rewrite E in Hst'; cbn [fst snd] in Hst'.
    pose proof (write_keeps (commitTarget a) (nodeMetadataBytes next) w) as Hk.
    rewrite (target_other a Hh) in *.
    assert (Hoo : other (other (activeSlot_ a)) = activeSlot_ a) by by destruct (activeSlot_ a).
    rewrite Hoo in Hk.
    assert (Ha : content w' (activeSlot_ a) = Some (metadata_ a)).
    { unfold content. by rewrite Hst', Hk. }
    destruct (write_outcome (other (activeSlot_ a)) (nodeMetadataBytes next) w)
      as [Hw|[Hw|Hw]]; [by apply nodeMetadataBytes_byte|..];
      rewrite <- Hst' in Hw.
    + right. split; [done|]. intros r'. unfold content. rewrite Hw. apply Ho.
    + left. split; [by apply content_stored|]. rewrite Hoo, Ha. intros r' [= <-]. right.
      rewrite (Hs Hh). apply compareGenerations_succ. by apply content_inv in Hc as ((?&_)&_).
    + right. split; [done|]. intros r'. unfold content. by rewrite Hw.
Qed.

Lemma readCopy_spec slot a w :
  ∃ st c w', readCopy slot (a, w) = ((st, c), (a, w')) ∧ same_store w w'
    ∧ length (bytes c) = 28%nat
    ∧ (st = STORAGE_UNAVAILABLE
       ∨ st = READY ∧ holds zeroNodeMetadata decodeNodeMetadataForSelection c = content w slot).
Proof.
  unfold readCopy. method. change NODE_METADATA_SIZE with 28%nat.
  pose proof (read_buffer slot (zeros 28) w (zeros_byte 28)) as [Hl Hb].
  pose proof (read_keeps slot (zeros 28) w) as Hrk.
  pose proof (read_result slot (zeros 28) w eq_refl) as Hrr.
  destruct (read slot (zeros 28) w) as [[[rr b] len] w1]; cbn [fst snd] in *.
  assert (Hz : holds zeroNodeMetadata decodeNodeMetadataForSelection
                 (mkCopy READ_OK (zeros 28)) = None) by (vm_compute; reflexivity).
  destruct Hrr as [->|Hrr]; [by do 3 eexists; decide_eqs; cbn; eauto|].
  unfold content. destruct (stored w slot) as [b'|].
  - destruct (bool_decide_reflect (length b' = 28%nat)) as [E|E] in Hrr.
    + injection Hrr as -> -> ->. decide_eqs.
      do 3 eexists. split; [done|]. split; [done|]. split; [done|]. right. split; [done|].
      unfold holds. cbn [status EventStorage.bytes]. decide_eqs.
      unfold decodeNodeMetadataForSelection, content_of.
      by destruct (decodeNodeMetadata (Some b') zeroNodeMetadata) as [[] ?].
    + subst rr. decide_eqs. do 3 eexists. split; [done|]. split; [done|]. split; [done|].
      right. split; [done|]. rewrite Hz. symmetry. unfold content_of, decodeNodeMetadata,
        validateEnvelope. rewrite (proj2 (Nat.eqb_neq _ _)) by done. done.
  - subst rr. decide_eqs. do 3 eexists. split; [done|]. split; [done|]. split; [done|].
    right. split; [done|]. unfold holds. by cbn [status]; decide_eqs.
Qed.

(** A ready allocator, over a store whose record in charge is its own. *)
Record in_charge (src : Z) a w : Prop := mkInCharge {
  ic_ready : ready_ a = true;
  ic_has : hasAuthoritativeMetadata_ a = true;
  ic_source : sourceDeviceId_ a = src;
  ic_custody : custodySourceDeviceId (metadata_ a) = src;
  ic_high : validHighWater (nextUnreservedEventId (metadata_ a)) = true;
  ic_governs : governs w (metadata_ a) (activeSlot_ a);
  ic_next : 1 ≤ nextVolatileId_ a ≤ nextUnreservedEventId (metadata_ a);
  ic_end : volatileEndExclusive_ a = nextUnreservedEventId (metadata_ a)
}.

(** How a recovery can end: refused, resumed on the record in charge, or gone
    on to a fresh epoch when no record in charge is this source's. *)
Inductive recovered (src : Z) w (st : Status) a w' : Prop :=
| recovered_refused :
    st ≠ READY → ready_ a = false → status_ a = st → same_store w w' →
    recovered src w st a w'
| recovered_resumed :
    st = READY → in_charge src a w' → same_store w w' →
    nextVolatileId_ a = nextUnreservedEventId (metadata_ a) → recovered src w st a w'
| recovered_fresh a1 w1 :
    same_store w w1 → initializeFresh (a1, w1) = (st, (a, w')) → prepared a1 w1 →
    sourceDeviceId_ a1 = src →
    (∀ r slot, governs w r slot → custodySourceDeviceId r = src →
       validHighWater (nextUnreservedEventId r) = false) →
    recovered src w st a w'.

Lemma resumed_in_charge w result r slot copies :
  (∀ s, length (bytes (copies s)) = 28%nat) →
  (∀ s, holds zeroNodeMetadata decodeNodeMetadataForSelection (copies s) = content w s) →
  selectAt zeroNodeMetadata nm_generation decodeNodeMetadataForSelection 28 copies
    = (result, r, slot) → usable result = true →
  governs w r slot.
Proof.
  intros Hl Hh Hs Hu. eapply selectAt_authority in Hs; [|done|done].
  destruct Hs as [H1 H2]. split; [by rewrite <- Hh|]. intros r'. rewrite <- Hh. apply H2.
Qed.

Ltac refused := apply recovered_refused; [discriminate|reflexivity|reflexivity|assumption].

Lemma recover_cases src custody a0 w :
  ∃ st a w', recover src custody (a0, w) = (st, (a, w')) ∧ recovered src w st a w'.
Proof.
  unfold recover. method.
  set (a1 := newAllocator <| sourceDeviceId_ := src |>).
  assert (Hww : same_store w w) by done.
  destruct (src =? 0); [do 3 eexists; split; [reflexivity|refused]|].
  destruct (decide (custody = CUSTODY_UNPROVABLE)) as [->|Hc]; decide_eqs;
    [do 3 eexists; split; [reflexivity|refused]|].
  destruct (readCopy_spec A a1 w) as (sa & ca & wa & -> & Hwa & Hla & Hca).
  cbn [fst snd].
  destruct (readCopy_spec B a1 wa) as (sb & cb & wb & -> & Hwb & Hlb & Hcb).
  cbn [fst snd].
  assert (Hs : same_store w wb) by (intros s; by rewrite Hwb, Hwa).
  destruct Hca as [->|[-> Hca]]; decide_eqs; [do 3 eexists; split; [reflexivity|refused]|].
  destruct Hcb as [->|[-> Hcb]]; decide_eqs; [do 3 eexists; split; [reflexivity|refused]|].
  rewrite (same_content w wa) in Hcb by done.
  set (copies := λ s, match s with A => ca | B => cb end).
  assert (Hh : ∀ s, holds zeroNodeMetadata decodeNodeMetadataForSelection (copies s)
                 = content w s) by by intros [].
  assert (Hl : ∀ s, length (bytes (copies s)) = 28%nat) by by intros [].
  change (selectCopies zeroNodeMetadata nm_generation decodeNodeMetadataForSelection
    NODE_METADATA_SIZE ca cb zeroNodeMetadata A) with
    (selectAt zeroNodeMetadata nm_generation decodeNodeMetadataForSelection 28 copies).
  destruct (selectAt _ _ _ _ _) as [[selection r] slot] eqn:Hsel.
  destruct (decide (selection = EQUAL_DISAGREEMENT)) as [->|H1]; decide_eqs;
    [do 3 eexists; split; [reflexivity|refused]|].
  destruct (decide (selection = EventStorage.GENERATION_AMBIGUOUS)) as [->|H2]; decide_eqs;
    [do 3 eexists; split; [reflexivity|refused]|].
  destruct (decide (selection = BOTH_INVALID)) as [->|H3]; decide_eqs.
  - assert (Hnone : ∀ s, content w s = None).
    { intros s. rewrite <- Hh. revert Hsel. unfold selectAt. rewrite selectCopies_holds.
      destruct s; repeat case_match; intros; simplify_eq; done. }
    destruct (decide (custody = CUSTODY_NONEMPTY)) as [->|Hc2]; decide_eqs;
      [do 3 eexists; split; [reflexivity|refused]|].
    destruct (initializeFresh (a1, wb)) as [st [a w']] eqn:Hf.
    do 3 eexists. split; [reflexivity|]. eapply recovered_fresh; [done|done| |done|].
    + unfold prepared. cbn. intros s. by rewrite (same_content w).
    + intros r' s' [Hr' _]. by rewrite Hnone in Hr'.
  - assert (Hg : governs w r slot).
    { eapply resumed_in_charge; [done..|]. by destruct selection. }
    assert (Hg' : governs wb r slot) by by eapply governs_same.
    cbn [fst snd].
    destruct (validHighWater (nextUnreservedEventId r)) eqn:Hhw; bsimp.
    2:{ destruct (decide (custody = CUSTODY_NONEMPTY)) as [->|Hc2]; decide_eqs;
          [do 3 eexists; split; [reflexivity|refused]|].
        match goal with |- context [initializeFresh ?s] =>
          destruct (initializeFresh s) as [st [a w']] eqn:Hf end.
        do 3 eexists. split; [reflexivity|]. eapply recovered_fresh; [done|done|done|done|].
        intros r' s' Hr' _. by rewrite (governs_unique w r' s' r slot). }
    assert (Hic : recovered src w READY
      (mkAllocator r slot src (nextUnreservedEventId r) (nextUnreservedEventId r) true true READY)
      wb ∨ custodySourceDeviceId r ≠ src).
    { destruct (decide (custodySourceDeviceId r = src)) as [Hsrc|]; [left|by right].
      apply recovered_resumed; [done| |done|done].
      destruct Hg as [Hr _]. apply content_inv in Hr as ((?&?&?&Hn)&(?&?&?)&_).
      split; cbn; try done. unfold is_uint in Hn. lia. }
    destruct (Z.eqb_spec (custodySourceDeviceId r) src) as [Hsrc|Hsrc].
    + destruct Hic as [Hic|]; [|done].
      destruct (decide (custody = CUSTODY_NONEMPTY)) as [->|Hc2]; decide_eqs;
        do 3 eexists; (split; [reflexivity|exact Hic]).
    + destruct (decide (custody = CUSTODY_NONEMPTY)) as [->|Hc2]; decide_eqs;
        [do 3 eexists; split; [reflexivity|refused]|].
      match goal with |- context [initializeFresh ?s] =>
          destruct (initializeFresh s) as [st [a w']] eqn:Hf end.
      do 3 eexists. split; [reflexivity|]. eapply recovered_fresh; [done|done|done|done|].
      intros r' s' Hr' E. by rewrite (governs_unique w r' s' r slot) in E.
Qed.

Lemma validHighWater_spec v :
  is_u32 v → validHighWater v = true ↔ v ≠ 0 ∧ (v - 1) `mod` 32 = 0.
Proof.
  intros Hv. unfold validHighWater, RESERVATION_BLOCK_SIZE. zbool.
  split; intros [H1 H2]; (split; [done|]); rewrite wrap_small in * by uint; done.
Qed.

Lemma initializeFresh_cases src a1 w1 st a w' :
  is_u8 src → prepared a1 w1 → sourceDeviceId_ a1 = src →
  initializeFresh (a1, w1) = (st, (a, w')) →
  st = READY ∧ in_charge src a w' ∧ nextVolatileId_ a = nextUnreservedEventId (metadata_ a)
  ∨ st ≠ READY ∧ ready_ a = false ∧ status_ a = st.
Proof.
  intros Hsrc Hp Hs. unfold initializeFresh. method.
  assert (Hz : is_u32 0) by uint. pose proof (entropy_range 0 w1 Hz) as Her.
  pose proof (entropy_keeps 0 w1) as Hek.
  destruct (nextUint32 0 w1) as [[drawn epoch] w2]; cbn [fst snd] in *.
  destruct (negb drawn || (epoch =? 0)) eqn:Hd; [intros [= <- <- <-]; by right|].
  cbn [fst snd]. zbool. destruct Hd as [_ He].
  set (next := mkNodeMetadata _ _ _ _). intros Hcm.
  assert (Hwf : node_metadata_wf next).
  { unfold node_metadata_wf, next; cbn. rewrite Hs.
    split_and!; [case_match; [apply u32_range|uint]|done|done|uint]. }
  assert (Hp2 : prepared a1 w2).
  { unfold prepared in *. destruct (hasAuthoritativeMetadata_ a1).
    - by eapply governs_same.
    - intros s. rewrite (same_content w1); [done|exact Hek]. }
  assert (Hsu : successor next a1) by (intros Hh; unfold next; cbn; by rewrite Hh).
  pose proof (commitMetadata_governs next a1 w2 Hwf Hp2 Hsu) as [Hg _].
  rewrite Hcm in Hg; cbn [fst snd] in Hg.
  destruct (commitMetadata_cases next a1 w2 Hwf) as [w3 [[E Hv]|(st' & Hst' & E)]];
    rewrite E in Hcm; injection Hcm as <- <- <-; [left|by right].
  split; [done|]. split; [|done]. by split; cbn; auto with lia.
Qed.

(** ** The order of identities *)

Definition id_lt (x y : EventProtocol.Identity) : Prop :=
  EventProtocol.identityEpoch x < EventProtocol.identityEpoch y
  ∨ EventProtocol.identityEpoch x = EventProtocol.identityEpoch y
    ∧ EventProtocol.identityId x < EventProtocol.identityId y.

Definition below (x : EventProtocol.Identity) (epoch i : Z) : Prop :=
  EventProtocol.identityEpoch x < epoch
  ∨ EventProtocol.identityEpoch x = epoch ∧ EventProtocol.identityId x < i.

(** Every identity of [l] is below the record in charge of the store. *)
Definition covered (src : Z) w (l : list EventProtocol.Identity) : Prop :=
  l = [] ∨ ∃ r slot, governs w r slot ∧ custodySourceDeviceId r = src
    ∧ validHighWater (nextUnreservedEventId r) = true
    ∧ Forall (λ x, below x (eventEpoch r) (nextUnreservedEventId r)) l.

(** The part of a reservation that is common to both branches. *)
Lemma commit_in_charge src next a w :
  in_charge src a w → node_metadata_wf next → custodySourceDeviceId next = src →
  nm_generation next = u32 (nm_generation (metadata_ a) + 1) →
  validHighWater (nextUnreservedEventId next) = true →
  (∀ x, below x (eventEpoch (metadata_ a)) (nextUnreservedEventId (metadata_ a)) →
        below x (eventEpoch next) (nextUnreservedEventId next)) →
  ∃ w', commitMetadata next (a, w) = (READY, (committed next a, w'))
          ∧ governs w' next (commitTarget a)
  ∨ ∃ st, st ≠ READY ∧ commitMetadata next (a, w) = (st, (failed st a, w'))
      ∧ ∀ l, Forall (λ x, below x (eventEpoch (metadata_ a)) (nextUnreservedEventId (metadata_ a))) l →
             covered src w' l.
Proof.
  intros [? Hh ? ? ? Hgov ? ?] Hwf Hcs Hgen Hhw Hb.
  assert (Hp : prepared a w) by (unfold prepared; by rewrite Hh).
  assert (Hsu : successor next a) by (intros _; exact Hgen).
  pose proof (commitMetadata_governs next a w Hwf Hp Hsu) as [Hok Hany].
  destruct (commitMetadata_cases next a w Hwf) as [w' [[E Hv]|(st & Hst & E)]];
    exists w'; rewrite E in *; cbn [fst snd] in *; [left; auto|right].
  exists st. split; [done|]. split; [done|]. intros l Hl. right.
  destruct (Hany Hh) as [Hg|Hg]; eexists _, _; (split; [exact Hg|]); split_and!; try done.
  eapply Forall_impl; [exact Hl|]. exact Hb.
Qed.

Definition cursor_below (x : EventProtocol.Identity) a : Prop :=
  below x (eventEpoch (metadata_ a)) (nextVolatileId_ a).

Definition high_below (x : EventProtocol.Identity) a : Prop :=
  below x (eventEpoch (metadata_ a)) (nextUnreservedEventId (metadata_ a)).

Lemma cursor_high src a w x : in_charge src a w → cursor_below x a → high_below x a.
Proof. intros Hic. unfold cursor_below, high_below, below. destruct Hic. lia. Qed.

Lemma reserveBlock_in_charge src a w :
  in_charge src a w → nextVolatileId_ a = volatileEndExclusive_ a →
  ∃ a' w', reserveBlock (a, w) = (READY, (a', w')) ∧ in_charge src a' w'
      ∧ nextVolatileId_ a' < nextUnreservedEventId (metadata_ a')
      ∧ (∀ x, cursor_below x a → cursor_below x a')
  ∨ ∃ st, st ≠ READY ∧ reserveBlock (a, w) = (st, (a', w')) ∧ ready_ a' = false
      ∧ status_ a' = st ∧ ∀ l, Forall (λ x, high_below x a) l → covered src w' l.
Proof.
  intros Hic Heq. unfold reserveBlock. method.
  pose proof (ic_governs _ _ _ Hic) as [Hr _].
  apply content_inv in Hr as ((Hg&Hs&He&Hn)&(?&?&?)&_).
  pose proof (proj1 (validHighWater_spec _ Hn) (ic_high _ _ _ Hic)) as [Hn0 Hmod].
  pose proof (ic_next _ _ _ Hic). pose proof (ic_end _ _ _ Hic) as Hend.
  unfold RESERVATION_BLOCK_SIZE.
  destruct (Z.ltb_spec (UINT32_MAX - 32) (nextUnreservedEventId (metadata_ a))) as [Hroll|Hroll].
  - destruct (Z.eqb_spec (eventEpoch (metadata_ a)) UINT32_MAX) as [|Hem].
    { exists (failed EPOCH_EXHAUSTED a), w. right. eexists. split; [|split; [reflexivity|]]; [done|].
      split; [done|]. split; [done|]. intros l Hl. right. destruct Hic. by eexists _, _. }
    set (next := _ <| eventEpoch := _ |> <| nextUnreservedEventId := _ |>).
    assert (Hee : eventEpoch next = eventEpoch (metadata_ a) + 1).
    { unfold next, rec_set; cbn. unfold UINT32_MAX in *. apply wrap_small. uint. }
    destruct (commit_in_charge src next a w Hic) as [w' [[E Hgv]|(st & Hst & E & Hl)]].
    { unfold node_metadata_wf. rewrite Hee. unfold next, rec_set; cbn.
      split_and!; [apply u32_range|done|unfold UINT32_MAX in *; uint|uint]. }
    { apply Hic. } { done. } { done. }
    { intros x. unfold below. rewrite Hee. lia. }
    + rewrite E. decide_eqs. do 2 eexists. left. split; [reflexivity|].
      split; [|split; [unfold rec_set; cbn; lia|]].
      * destruct Hic. by split; unfold rec_set; cbn; try lia.
      * intros x. unfold cursor_below, below, committed, rec_set; cbn [metadata_ nextVolatileId_].
        rewrite Hee. lia.
    + rewrite E. exists (failed st a), w'. right. exists st. split; [done|].
      rewrite bool_decide_eq_false_2 by done. by split_and!.
  - set (next := _ <| nextUnreservedEventId := _ |>).
    assert (Hnn : nextUnreservedEventId next = nextUnreservedEventId (metadata_ a) + 32).
    { unfold next, rec_set; cbn. unfold UINT32_MAX in *. apply wrap_small. uint. }
    assert (Hn32 : is_u32 (nextUnreservedEventId next)) by (unfold UINT32_MAX in *; uint).
    assert (Hhw : validHighWater (nextUnreservedEventId next) = true).
    { apply validHighWater_spec; [done|]. rewrite Hnn. split; [lia|].
      replace (nextUnreservedEventId (metadata_ a) + 32 - 1)
        with (nextUnreservedEventId (metadata_ a) - 1 + 1 * 32) by lia.
      by rewrite Z.mod_add by lia. }
    destruct (commit_in_charge src next a w Hic) as [w' [[E Hgv]|(st & Hst & E & Hl)]].
    { unfold node_metadata_wf. split_and!; try done. apply u32_range. }
    { apply Hic. } { done. } { done. }
    { intros x. unfold below. rewrite Hnn. change (eventEpoch next) with (eventEpoch (metadata_ a)).
      lia. }
    + rewrite E. decide_eqs. do 2 eexists. left. split; [reflexivity|].
      split; [|split; [unfold committed, rec_set; cbn [metadata_ nextVolatileId_]; lia|]].
      * destruct Hic. split; unfold committed, rec_set; cbn; try done;
          rewrite ?wrap_small by (unfold UINT32_MAX in *; uint); lia.
      * intros x. unfold cursor_below, below, committed, rec_set; cbn [metadata_ nextVolatileId_].
        change (eventEpoch next) with (eventEpoch (metadata_ a)). lia.
    + rewrite E. exists (failed st a), w'. right. exists st. split; [done|].
      rewrite bool_decide_eq_false_2 by done. by split_and!.
Qed.

Definition valid_identity (x : EventProtocol.Identity) : Prop :=
  is_u32 (EventProtocol.identityEpoch x) ∧ EventProtocol.identityEpoch x ≠ 0
  ∧ is_u32 (EventProtocol.identityId x) ∧ EventProtocol.identityId x ≠ 0.

Lemma take_next_in_charge src a w :
  in_charge src a w → nextVolatileId_ a < nextUnreservedEventId (metadata_ a) →
  ∃ x a', take_next (a, w) = (mkAllocation READY x, (a', w)) ∧ in_charge src a' w
    ∧ EventProtocol.sourceDeviceId x = src ∧ valid_identity x
    ∧ cursor_below x a' ∧ (∀ y, cursor_below y a → id_lt y x ∧ cursor_below y a').
Proof.
  intros Hic Hlt. pose proof (ic_governs _ _ _ Hic) as [Hr _].
  apply content_inv in Hr as ((_&_&He&Hn)&(_&He0&_)&_).
  pose proof (ic_next _ _ _ Hic) as Hnx. pose proof (ic_source _ _ _ Hic) as Hsr.
  unfold take_next. method. do 2 eexists. split; [reflexivity|].
  assert (Hw : u32 (nextVolatileId_ a + 1) = nextVolatileId_ a + 1).
  { apply wrap_small. uint. }
  unfold cursor_below, below, id_lt, valid_identity, rec_set.
  cbn [EventProtocol.identityEpoch EventProtocol.identityId EventProtocol.sourceDeviceId
       metadata_ nextVolatileId_]. rewrite Hw.
  split_and!; [|done|done|done|uint|lia|lia|intros y Hy; lia].
  destruct Hic. split; cbn; try done. rewrite ?Hw. lia.
Qed.

(** One allocation: the next identity above every earlier one, or a refusal
    that leaves all earlier identities covered by the store. *)
Lemma allocate_in_charge src a w :
  in_charge src a w →
  ∃ a' w',
    (∃ x, allocate (a, w) = (mkAllocation READY x, (a', w')) ∧ in_charge src a' w'
       ∧ EventProtocol.sourceDeviceId x = src ∧ valid_identity x ∧ cursor_below x a'
       ∧ ∀ y, cursor_below y a → id_lt y x ∧ cursor_below y a')
    ∨ (∃ st, st ≠ READY ∧ allocate (a, w) = (mkAllocation st noIdentity, (a', w'))
       ∧ ready_ a' = false ∧ status_ a' = st
       ∧ ∀ l, Forall (λ x, cursor_below x a) l → covered src w' l).
Proof.
  intros Hic. unfold allocate. method. rewrite (ic_ready _ _ _ Hic). bsimp. cbn [fst snd].
  pose proof (ic_end _ _ _ Hic) as Hend. pose proof (ic_next _ _ _ Hic) as Hnx.
  destruct (Z.eqb_spec (nextVolatileId_ a) (volatileEndExclusive_ a)) as [Heq|Hne].
  - destruct (reserveBlock_in_charge src a w Hic Heq)
      as (a1 & w1 & [(E & Hic1 & Hlt & Hcur)|(st & Hst & E & Hr & Hs & Hl)]);
      rewrite E; cbn [fst snd].
    + decide_eqs. destruct (take_next_in_charge src a1 w1 Hic1 Hlt)
        as (x & a' & Ex & Hic' & Hsx & Hvx & Hx & Hy).
      exists a', w1. left. exists x. split_and!; auto.
    + rewrite bool_decide_eq_false_2 by done. bsimp. exists a1, w1. right. exists st.
      split_and!; auto. intros l Hfl. apply Hl. eapply Forall_impl; [exact Hfl|].
      intros x. by apply (cursor_high src a w).
  - destruct (take_next_in_charge src a w Hic) as (x & a' & Ex & Hic' & Hsx & Hvx & Hx & Hy); [lia|].
    exists a', w. left. exists x. split_and!; auto.
Qed.

Lemma allocate_refused a w :
  ready_ a = false → allocate (a, w) = (mkAllocation (status_ a) noIdentity, (a, w)).
Proof. intros Hr. unfold allocate. method. by rewrite Hr. Qed.

Lemma allocations_refused n a w :
  ready_ a = false → status_ a ≠ READY → allocations n (a, w) = ([], (a, w)).
Proof.
  intros Hr Hs. induction n as [|n IH]; [done|]. cbn [allocations]. unfold bind, ret.
  rewrite allocate_refused by done. cbn [fst snd]. rewrite IH. cbn [fst snd result_status].
  by rewrite bool_decide_eq_false_2.
Qed.

(** A session extends a sorted history by larger identities. *)
Lemma allocations_in_charge n src a w l :
  in_charge src a w → StronglySorted id_lt l → Forall (λ x, cursor_below x a) l →
  ∃ l' a' w', allocations n (a, w) = (l', (a', w')) ∧ StronglySorted id_lt (l ++ l')
    ∧ covered src w' (l ++ l') ∧ Forall (λ x, EventProtocol.sourceDeviceId x = src) l'.
Proof.
  revert a w l. induction n as [|n IH]; intros a w l Hic Hsort Hl.
  - exists [], a, w. rewrite app_nil_r. split_and!; try done. right.
    eexists _, _. split; [apply (ic_governs _ _ _ Hic)|]. split; [apply Hic|].
    split; [apply Hic|]. eapply Forall_impl; [exact Hl|].
    intros x. apply (cursor_high src a w x Hic).
  - cbn [allocations]. unfold bind, ret.
    destruct (allocate_in_charge src a w Hic)
      as (a1 & w1 & [(x & E & Hic1 & Hsx & _ & Hx & Hy)|(st & Hst & E & Hr & Hs & Hc)]);
      rewrite E; cbn [fst snd result_status result_identity].
    + destruct (IH a1 w1 (l ++ [x])) as (l' & a' & w' & El & Hso & Hco & Hsrc); [done| | |].
      * apply StronglySorted_snoc; [done|]. eapply Forall_impl; [exact Hl|].
        intros y Hya. by apply Hy.
      * apply Forall_app. split; [|by apply Forall_singleton].
        eapply Forall_impl; [exact Hl|]. intros y Hya. by apply Hy.
      * rewrite El. decide_eqs. cbn [fst snd]. exists (x :: l'), a', w'.
        rewrite <- app_assoc in *. split_and!; try done. by constructor.
    + rewrite allocations_refused by (done || congruence). cbn [fst snd].
      rewrite bool_decide_eq_false_2 by done. exists [], a1, w1. rewrite app_nil_r.
      split_and!; auto.
Qed.

(** ** A lifetime of boots

    Each boot recovers - from whatever the last one left, with the custody
    state the queue reports - and allocates some number of times.  The
    allocator itself is lost at every reboot. *)

Fixpoint lifetime (src : Z) (boots : list (CustodyState * nat))
    : st W (list EventProtocol.Identity) := λ w,
  match boots with
  | [] => ([], w)
  | (custody, n) :: boots' =>
      let '(_, s1) := recover src custody (newAllocator, w) in
      let '(l, (_, w2)) := allocations n s1 in
      let '(l', w3) := lifetime src boots' w2 in
      (l ++ l', w3)
  end.

Lemma governs_covered src w w' l : same_store w w' → covered src w l → covered src w' l.
Proof.
  intros Hs [->|(r & slot & Hg & ?&?&?)]; [by left|right].
  exists r, slot. split; [by eapply governs_same|]. done.
Qed.

(** After a recovery a session starts above all covered identities. *)
Lemma recover_covered src custody w l st a w' :
  is_u8 src → covered src w l → recover src custody (newAllocator, w) = (st, (a, w')) →
  st = READY ∧ in_charge src a w' ∧ Forall (λ x, cursor_below x a) l
  ∨ st ≠ READY ∧ ready_ a = false ∧ status_ a ≠ READY ∧ covered src w' l.
Proof.
  intros Hsrc Hcov E.
  destruct (recover_cases src custody newAllocator w) as (st' & a'' & w'' & E' & Hrec).
  rewrite E in E'. injection E' as <- <- <-.
  destruct Hrec as [Hst Hr Hs Hss| -> Hic Hss Hnext|a1 w1 Hss Hf Hp Hs Hno].
  - right. split_and!; [done|done|congruence|]. by eapply governs_covered.
  - left. do 2 (split; [done|]). destruct Hcov as [->|(r & slot & Hg & Hc & Hh & Hl)]; [done|].
    assert (r = metadata_ a) as ->.
    { eapply governs_unique; [|apply (ic_governs _ _ _ Hic)]. by eapply governs_same. }
    unfold cursor_below. by rewrite Hnext.
  - destruct Hcov as [->|(r & slot & Hg & Hc & Hh & Hl)].
    + destruct (initializeFresh_cases src a1 w1 st a w' Hsrc Hp Hs Hf)
        as [(-> & Hic & Hn)|(Hst & Hr & Hst')]; [by left|right].
      split_and!; [done|done|congruence|by left].
    + rewrite (Hno r slot Hg Hc) in Hh. done.
Qed.

Lemma lifetime_sorted src boots w l :
  is_u8 src → StronglySorted id_lt l → covered src w l →
  StronglySorted id_lt (l ++ (lifetime src boots w).1).
Proof.
  intros Hsrc. revert w l. induction boots as [|[custody n] boots IH]; intros w l Hsort Hcov.
  { simpl. by rewrite app_nil_r. }
  cbn [lifetime].
  destruct (recover src custody (newAllocator, w)) as [st [a w1]] eqn:E.
  destruct (recover_covered src custody w l st a w1 Hsrc Hcov E)
    as [(_ & Hic & Hl)|(_ & Hr & Hs & Hcov1)].
  - destruct (allocations_in_charge n src a w1 l Hic Hsort Hl)
      as (l' & a' & w' & El & Hso & Hco & _). rewrite El.
    specialize (IH w' (l ++ l') Hso Hco).
    destruct (lifetime src boots w') as [l'' w3]. cbn [fst] in *. by rewrite app_assoc.
  - rewrite allocations_refused by done. specialize (IH w1 l Hsort Hcov1).
    destruct (lifetime src boots w1) as [l'' w3]. cbn [fst] in *. done.
Qed.

(** C3. No event identity is ever handed out twice: over any sequence of
    reboots, whatever writes are refused, torn or interrupted and whatever
    reads are unavailable, the identities one device hands out are strictly
    increasing in (epoch, id) - including the roll-over of the 32-bit id into
    a new epoch and the wrap of the metadata generation. *)
Theorem identities_never_reused src boots w :
  is_u8 src → StronglySorted id_lt (lifetime src boots w).1.
Proof. intros Hsrc. apply (lifetime_sorted src boots w []); [done|constructor|by left]. Qed.

End Durable.

(** ** A flash store with scripted faults

    Two cells, and a list that says how the next operations go; a write may be
    refused, torn after half of its bytes, or stored with its answer lost. *)

Inductive Fault := FINE | OFFLINE | REFUSED | TORN | ANSWER_LOST.

Record Flash := mkFlash {
  cellA : option (list Z);
  cellB : option (list Z);
  faults : list Fault;
  noise : Z
}.

Definition cell (f : Flash) (slot : CopySlot) : option (list Z) :=
  map u8 <$> match slot with A => cellA f | B => cellB f end.

Definition nextFault (f : Flash) : Fault * Flash :=
  match faults f with
  | [] => (FINE, f)
  | x :: l => (x, mkFlash (cellA f) (cellB f) l (noise f))
  end.

Definition putCell (f : Flash) (slot : CopySlot) (b : list Z) : Flash :=
  match slot with
  | A => mkFlash (Some b) (cellB f) (faults f) (noise f)
  | B => mkFlash (cellA f) (Some b) (faults f) (noise f)
  end.

#[export] Instance flash_storage : MetadataStorage Flash := {
  read slot out f :=
    let (fault, f) := nextFault f in
    match fault, cell f slot with
    | OFFLINE, _ => (S_UNAVAILABLE, out, 0, f)
    | _, None => (S_MISSING, out, 0, f)
    | _, Some b =>
        if bool_decide (length b = length out)
        then (S_OK, b, Z.of_nat (length b), f) else (S_ERROR, out, 0, f)
    end;
  write slot b f :=
    let (fault, f) := nextFault f in
    match fault with
    | OFFLINE => (S_UNAVAILABLE, f)
    | REFUSED => (S_ERROR, f)
    | TORN => (S_ERROR, putCell f slot (take 14 b))
    | ANSWER_LOST => (S_ERROR, putCell f slot b)
    | FINE => (S_OK, putCell f slot b)
    end;
  commit f :=
    let (fault, f) := nextFault f in
    (match fault with FINE => S_OK | OFFLINE => S_UNAVAILABLE | _ => S_ERROR end, f)
}.

#[export] Instance flash_entropy : EntropySource Flash := {
  nextUint32 _ f := (true, u32 (noise f), mkFlash (cellA f) (cellB f) (faults f) (noise f + 1))
}.

Lemma nextFault_cell f slot : cell (nextFault f).2 slot = cell f slot.
Proof. unfold nextFault. by destruct (faults f). Qed.

Lemma map_u8_bytes l : is_byte_list (map u8 l).
Proof. apply Forall_fmap, Forall_true. intros. apply u8_range. Qed.

Lemma map_u8_id l : is_byte_list l → map u8 l = l.
Proof. induction 1 as [|b l Hb]; simpl; [done|]. by rewrite wrap_small by done; f_equal. Qed.

Lemma cell_bytes f slot b : cell f slot = Some b → is_byte_list b.
Proof.
  unfold cell. intros (l & _ & ->)%fmap_Some. apply map_u8_bytes.
Qed.

Lemma cell_putCell f slot b s :
  is_byte_list b → cell (putCell f slot b) s = if bool_decide (s = slot) then Some b else cell f s.
Proof.
  intros Hb. unfold cell. destruct s, slot; decide_eqs; simpl; by rewrite ?map_u8_id.
Qed.

#[export] Instance flash_laws : MetadataStorageLaws Flash.
Proof.
  split. intros slot out f Hout. simpl.
  destruct (nextFault f) as [fault f']. destruct (cell f' slot) as [b|] eqn:E.
  - apply cell_bytes in E. destruct fault, (bool_decide_reflect (length b = length out)); done.
  - by destruct fault.
Qed.

Lemma flash_torn (b : list Z) : length (take 14 b) ≠ 28%nat.
Proof. rewrite length_take. lia. Qed.

Lemma content_wrong_length b : length b ≠ 28%nat → content_of (Some b) = None.
Proof.
  intros Hb. unfold content_of, decodeNodeMetadata, validateEnvelope.
  by rewrite (proj2 (Nat.eqb_neq _ _)).
Qed.

#[export, refine] Instance flash_durable : DurableMetadata Flash := {
  stored := cell
}.
Proof.
  - intros f slot b. apply cell_bytes.
  - intros slot out f s. simpl. pose proof (nextFault_cell f s) as H.
    destruct (nextFault f) as [fault f']. cbn [snd] in H.
    destruct fault, (cell f' slot); try case_bool_decide; done.
  - intros slot out f Hout. simpl. pose proof (nextFault_cell f slot) as H.
    destruct (nextFault f) as [fault f']. cbn [snd] in H. rewrite <- H, Hout.
    destruct (cell f' slot) as [b|]; [|destruct fault; auto].
    destruct (bool_decide_reflect (length b = 28%nat)) as [E|E];
      destruct fault; simpl; rewrite ?E; auto.
  - intros slot b f. simpl. pose proof (nextFault_cell f (other slot)) as H.
    destruct (nextFault f) as [fault f']. cbn [snd] in H.
    by destruct fault, slot.
  - intros slot b f Hb. simpl. pose proof (nextFault_cell f slot) as H.
    destruct (nextFault f) as [fault f']. cbn [snd] in H.
    destruct fault; cbn [snd]; auto.
    + right. left. rewrite cell_putCell by done. by decide_eqs.
    + right. right. rewrite cell_putCell by bytes. decide_eqs.
      apply content_wrong_length, flash_torn.
    + right. left. rewrite cell_putCell by done. by decide_eqs.
  - intros f s. simpl. pose proof (nextFault_cell f s) as H.
    by destruct (nextFault f) as [[] f'].
  - done.
  - intros v f _. apply u32_range.
Defined.

Definition blankFlash : Flash := mkFlash None None [] 77.

(** Three boots: a fresh one, one whose reservation write is torn, and one
    that resumes.  The identities handed out run on without a gap in order. *)
Definition sampleBoots : list (CustodyState * nat) :=
  [(CUSTODY_EMPTY, 2%nat); (CUSTODY_NONEMPTY, 1%nat); (CUSTODY_NONEMPTY, 2%nat)].

Definition faultyFlash : Flash :=
  mkFlash None None
    (replicate 5 FINE ++ replicate 3 FINE ++ [FINE; FINE; TORN] ++ [FINE; FINE]) 77.

Example lifetime_runs :
  map EventProtocol.identityId (lifetime 17 sampleBoots faultyFlash).1 = [1; 2; 33; 34].
Proof. vm_compute. reflexivity. Qed.

Lemma identities_never_reused_witness :
  StronglySorted id_lt (lifetime 17 sampleBoots faultyFlash).1.
Proof. apply identities_never_reused. concrete. Defined.

End EventIdentity.
