(* ===== verification/Capabilities.v ===== *)
(** What a device can do, lib/device_capabilities: capability descriptors and
    values with their validity rules, the registry, the local policy of
    authorization and interlock, and the dispatch of an operation to the
    device's handler.  An [enum class : uint8_t] is a byte: the source casts
    wire bytes to it and its switches fall through on the others. *)

From S2P Require Import Prelude.

Module DeviceCapabilities.

(* device_capabilities.h:9 = INVALID_CAPABILITY_ID *)
Definition INVALID_CAPABILITY_ID : Z := 0.

Module CapabilityClass.

(* device_capabilities.h:12 = CapabilityClass::INVALID *)
Definition INVALID : Z := 0.

(* device_capabilities.h:13 = CapabilityClass::DIGITAL_INPUT *)
Definition DIGITAL_INPUT : Z := 1.

(* device_capabilities.h:14 = CapabilityClass::ANALOG_INPUT *)
Definition ANALOG_INPUT : Z := 2.

(* device_capabilities.h:15 = CapabilityClass::SENSOR *)
Definition SENSOR : Z := 3.

(* device_capabilities.h:16 = CapabilityClass::INDICATOR_OUTPUT *)
Definition INDICATOR_OUTPUT : Z := 4.

(* device_capabilities.h:17 = CapabilityClass::SIGNAL_OUTPUT *)
Definition SIGNAL_OUTPUT : Z := 5.

(* device_capabilities.h:18 = CapabilityClass::RELAY_OUTPUT *)
Definition RELAY_OUTPUT : Z := 6.

(* device_capabilities.h:19 = CapabilityClass::POWER_MONITOR *)
Definition POWER_MONITOR : Z := 7.

(* device_capabilities.h:20 = CapabilityClass::LOCATION_PROVIDER *)
Definition LOCATION_PROVIDER : Z := 8.

(* device_capabilities.h:21 = CapabilityClass::LOCAL_STORAGE *)
Definition LOCAL_STORAGE : Z := 9.

(* device_capabilities.h:22 = CapabilityClass::LOCAL_PROCEDURE *)
Definition LOCAL_PROCEDURE : Z := 10.

End CapabilityClass.

Module Operation.

(* device_capabilities.h:26 = Operation::ENUMERATE *)
Definition ENUMERATE : Z := 0.

(* device_capabilities.h:27 = Operation::DESCRIBE *)
Definition DESCRIBE : Z := 1.

(* device_capabilities.h:28 = Operation::READ *)
Definition READ : Z := 2.

(* device_capabilities.h:29 = Operation::SET *)
Definition SET : Z := 3.

(* device_capabilities.h:30 = Operation::TRIGGER *)
Definition TRIGGER : Z := 4.

(* device_capabilities.h:31 = Operation::RUN_LOCAL_PROCEDURE *)
Definition RUN_LOCAL_PROCEDURE : Z := 5.

End Operation.

Module OperationFlag.

(* device_capabilities.h:35 = OperationFlag::DESCRIBE *)
Definition DESCRIBE : Z := 1.

(* device_capabilities.h:36 = OperationFlag::READ *)
Definition READ : Z := 2.

(* device_capabilities.h:37 = OperationFlag::SET *)
Definition SET : Z := 4.

(* device_capabilities.h:38 = OperationFlag::TRIGGER *)
Definition TRIGGER : Z := 8.

(* device_capabilities.h:39 = OperationFlag::RUN_LOCAL_PROCEDURE *)
Definition RUN_LOCAL_PROCEDURE : Z := 16.

End OperationFlag.

(* device_capabilities.h:42-43 = OPERATION_FLAG_DESCRIBE *)
Definition OPERATION_FLAG_DESCRIBE : Z := OperationFlag.DESCRIBE.

(* device_capabilities.h:44-45 = OPERATION_FLAG_READ *)
Definition OPERATION_FLAG_READ : Z := OperationFlag.READ.

(* device_capabilities.h:46-47 = OPERATION_FLAG_SET *)
Definition OPERATION_FLAG_SET : Z := OperationFlag.SET.

(* device_capabilities.h:48-49 = OPERATION_FLAG_TRIGGER *)
Definition OPERATION_FLAG_TRIGGER : Z := OperationFlag.TRIGGER.

(* device_capabilities.h:50-51 = OPERATION_FLAG_RUN_LOCAL_PROCEDURE *)
Definition OPERATION_FLAG_RUN_LOCAL_PROCEDURE : Z := OperationFlag.RUN_LOCAL_PROCEDURE.

(* device_capabilities.h:52-57 = KNOWN_OPERATION_FLAGS *)
Definition KNOWN_OPERATION_FLAGS : Z :=
  Z.lor (Z.lor (Z.lor (Z.lor OPERATION_FLAG_DESCRIBE OPERATION_FLAG_READ) OPERATION_FLAG_SET)
    OPERATION_FLAG_TRIGGER) OPERATION_FLAG_RUN_LOCAL_PROCEDURE.

(* device_capabilities.h:58 = RESERVED_OPERATION_FLAGS *)
Definition RESERVED_OPERATION_FLAGS : Z := 224.

Module ValueType.

(* device_capabilities.h:61 = ValueType::NONE *)
Definition NONE : Z := 0.

(* device_capabilities.h:62 = ValueType::BOOLEAN *)
Definition BOOLEAN : Z := 1.

(* device_capabilities.h:63 = ValueType::UNSIGNED_32 *)
Definition UNSIGNED_32 : Z := 2.

(* device_capabilities.h:64 = ValueType::SIGNED_32 *)
Definition SIGNED_32 : Z := 3.

(* device_capabilities.h:65 = ValueType::NORMALIZED_U16 *)
Definition NORMALIZED_U16 : Z := 4.

(* device_capabilities.h:66 = ValueType::FIXED_Q16_16 *)
Definition FIXED_Q16_16 : Z := 5.

(* device_capabilities.h:67 = ValueType::ENUM_U16 *)
Definition ENUM_U16 : Z := 6.

End ValueType.

Module UnitCode.

(* device_capabilities.h:71 = UnitCode::NONE *)
Definition NONE : Z := 0.

(* device_capabilities.h:72 = UnitCode::BOOLEAN *)
Definition BOOLEAN : Z := 1.

(* device_capabilities.h:73 = UnitCode::COUNT *)
Definition COUNT : Z := 2.

(* device_capabilities.h:74 = UnitCode::RAW_ADC *)
Definition RAW_ADC : Z := 3.

(* device_capabilities.h:75 = UnitCode::NORMALIZED *)
Definition NORMALIZED : Z := 4.

(* device_capabilities.h:76 = UnitCode::MILLIVOLTS *)
Definition MILLIVOLTS : Z := 5.

End UnitCode.

Module CallerClass.

(* device_capabilities.h:80 = CallerClass::INVALID *)
Definition INVALID : Z := 0.

(* device_capabilities.h:81 = CallerClass::FIRMWARE_LOCAL *)
Definition FIRMWARE_LOCAL : Z := 1.

(* device_capabilities.h:82 = CallerClass::UI_LOCAL *)
Definition UI_LOCAL : Z := 2.

(* device_capabilities.h:83 = CallerClass::TEST *)
Definition TEST : Z := 3.

(* device_capabilities.h:84 = CallerClass::FUTURE_REMOTE *)
Definition FUTURE_REMOTE : Z := 4.

(* device_capabilities.h:85 = CallerClass::HOST_LOCAL *)
Definition HOST_LOCAL : Z := 5.

End CallerClass.

Module InterlockState.

(* device_capabilities.h:94 = InterlockState::CLEAR *)
Definition CLEAR : Z := 0.

(* device_capabilities.h:95 = InterlockState::ACTIVE *)
Definition ACTIVE : Z := 1.

End InterlockState.

Module OperationStatus.

(* device_capabilities.h:105 = OperationStatus::OK *)
Definition OK : Z := 0.

(* device_capabilities.h:106 = OperationStatus::CAPABILITY_NOT_FOUND *)
Definition CAPABILITY_NOT_FOUND : Z := 1.

(* device_capabilities.h:107 = OperationStatus::UNSUPPORTED_OPERATION *)
Definition UNSUPPORTED_OPERATION : Z := 2.

(* device_capabilities.h:108 = OperationStatus::INVALID_VALUE_TYPE *)
Definition INVALID_VALUE_TYPE : Z := 3.

(* device_capabilities.h:109 = OperationStatus::VALUE_OUT_OF_RANGE *)
Definition VALUE_OUT_OF_RANGE : Z := 4.

(* device_capabilities.h:110 = OperationStatus::UNAUTHORIZED *)
Definition UNAUTHORIZED : Z := 5.

(* device_capabilities.h:111 = OperationStatus::INTERLOCK_ACTIVE *)
Definition INTERLOCK_ACTIVE : Z := 6.

(* device_capabilities.h:112 = OperationStatus::HARDWARE_UNAVAILABLE *)
Definition HARDWARE_UNAVAILABLE : Z := 7.

(* device_capabilities.h:113 = OperationStatus::OPERATION_FAILED *)
Definition OPERATION_FAILED : Z := 8.

(* device_capabilities.h:114 = OperationStatus::BUSY *)
Definition BUSY : Z := 9.

(* device_capabilities.h:115 = OperationStatus::INVALID_DESCRIPTOR *)
Definition INVALID_DESCRIPTOR : Z := 10.

End OperationStatus.

(* device_capabilities.h:142 = LOCAL_ONLY_AUTHORIZATION_POLICY_ID *)
Definition LOCAL_ONLY_AUTHORIZATION_POLICY_ID : Z := 0.

(* device_capabilities.h:143-144 = DEFAULT_AUTHORIZATION_POLICY_ID *)
Definition DEFAULT_AUTHORIZATION_POLICY_ID : Z := LOCAL_ONLY_AUTHORIZATION_POLICY_ID.

(* device_capabilities.h:145 = NO_ADDITIONAL_SAFETY_POLICY_ID *)
Definition NO_ADDITIONAL_SAFETY_POLICY_ID : Z := 0.

(* device_capabilities.h:146 = MUTATING_INTERLOCK_SAFETY_POLICY_ID *)
Definition MUTATING_INTERLOCK_SAFETY_POLICY_ID : Z := 1.

(* device_capabilities.h:148 = METADATA_SIMULATED *)
Definition METADATA_SIMULATED : Z := 1.

(* device_capabilities.h:149 = KNOWN_METADATA_FLAGS *)
Definition KNOWN_METADATA_FLAGS : Z := METADATA_SIMULATED.

(* device_capabilities.h:189 = MAX_CAPABILITIES *)
Definition MAX_CAPABILITIES : Z := 16.

(** ** Data *)

(* device_capabilities.h:88-91 CallerContext *)
Record CallerContext := mkCaller { callerClass : Z; caller_reserved : list Z }.

(* device_capabilities.h:98-102 CapabilityValue *)
Record CapabilityValue := mkValue { value_type : Z; value_reserved : list Z; bits : Z }.

(* device_capabilities.h:118-122 OperationResult *)
Record OperationResult := mkResult {
  result_status : Z;
  result_reserved : list Z;
  result_value : CapabilityValue
}.

(* device_capabilities.h:124-133 CapabilityDiagnosticCounters *)
Record CapabilityDiagnosticCounters := mkCounters {
  lookupAttempts : Z;
  acceptedOperations : Z;
  authorizationDenials : Z;
  unsupportedOperations : Z;
  validationFailures : Z;
  interlockDenials : Z;
  busyOutcomes : Z;
  hardwareFailures : Z
}.

(* device_capabilities.h:135-140 CapabilityDiagnosticsSnapshot *)
Record CapabilityDiagnosticsSnapshot := mkSnapshot {
  counters : CapabilityDiagnosticCounters;
  lastStatusAvailable : Z;
  lastStatus : Z;
  snapshot_reserved : list Z
}.

(* device_capabilities.h:151-163 CapabilityDescriptor *)
Record CapabilityDescriptor := mkDescriptor {
  cap_id : Z;
  capabilityClass : Z;
  operationFlags : Z;
  valueType : Z;
  authorizationPolicyId : Z;
  safetyPolicyId : Z;
  unitCode : Z;
  metadataFlags : Z;
  cap_reserved : Z;
  minimumBits : Z;
  maximumBits : Z
}.

#[global] Instance eta_CapabilityDiagnosticCounters : RecEta CapabilityDiagnosticCounters := λ c,
  mkCounters (lookupAttempts c) (acceptedOperations c) (authorizationDenials c)
    (unsupportedOperations c) (validationFailures c) (interlockDenials c) (busyOutcomes c)
    (hardwareFailures c).

#[global] Instance eta_CapabilityDiagnosticsSnapshot : RecEta CapabilityDiagnosticsSnapshot := λ s,
  mkSnapshot (counters s) (lastStatusAvailable s) (lastStatus s) (snapshot_reserved s).

(** [CapabilityDescriptor descriptor = {};] *)
Definition zeroDescriptor : CapabilityDescriptor := mkDescriptor 0 0 0 0 0 0 0 0 0 0 0.

(** A view is a pointer to an array, [None] if null, and a count. *)
(* device_capabilities.h:191-194 CapabilityRegistryView *)
Record CapabilityRegistryView := mkRegistry {
  descriptors : option (list CapabilityDescriptor);
  count : Z
}.

(** [registry.descriptors[index]]. *)
Definition descriptor_at (registry : CapabilityRegistryView) (index : nat) : CapabilityDescriptor :=
  nth index (default [] (descriptors registry)) zeroDescriptor.

(** The device's side of an operation. *)
(* device_capabilities.h:196-206 = LocalCapabilityHandler *)
Class LocalCapabilityHandler (W : Type) :=
  execute : CapabilityDescriptor → Z → CapabilityValue → st W OperationResult.

(** [value.reserved] of three bytes is zero. *)
Definition reserved3_zero (r : list Z) : bool :=
  (rd r 0 =? 0) && (rd r 1 =? 0) && (rd r 2 =? 0).

(** ** Vocabulary *)

(* device_capabilities.h:208-227 isKnownCapabilityClass *)
Definition isKnownCapabilityClass (c : Z) : bool :=
  one_of c [CapabilityClass.DIGITAL_INPUT; CapabilityClass.ANALOG_INPUT; CapabilityClass.SENSOR;
    CapabilityClass.INDICATOR_OUTPUT; CapabilityClass.SIGNAL_OUTPUT;
    CapabilityClass.RELAY_OUTPUT; CapabilityClass.POWER_MONITOR;
    CapabilityClass.LOCATION_PROVIDER; CapabilityClass.LOCAL_STORAGE;
    CapabilityClass.LOCAL_PROCEDURE].

(* device_capabilities.h:229-242 isKnownValueType *)
Definition isKnownValueType (t : Z) : bool :=
  one_of t [ValueType.NONE; ValueType.BOOLEAN; ValueType.UNSIGNED_32; ValueType.SIGNED_32;
    ValueType.NORMALIZED_U16; ValueType.FIXED_Q16_16; ValueType.ENUM_U16].

(* device_capabilities.h:244-270 isValidCapabilityValue *)
Definition isValidCapabilityValue (value : CapabilityValue) : bool :=
  if negb (reserved3_zero (value_reserved value)) || negb (isKnownValueType (value_type value))
  then false else
  let t := value_type value in
  if t =? ValueType.NONE then bits value =? 0 else
  if t =? ValueType.BOOLEAN then bits value <=? 1 else
  if one_of t [ValueType.UNSIGNED_32; ValueType.SIGNED_32; ValueType.FIXED_Q16_16] then true else
  if one_of t [ValueType.NORMALIZED_U16; ValueType.ENUM_U16]
  then Z.land (bits value) 4294901760 =? 0 else false.

(* device_capabilities.h:272-289 isKnownOperationStatus *)
Definition isKnownOperationStatus (status : Z) : bool :=
  one_of status [OperationStatus.OK; OperationStatus.CAPABILITY_NOT_FOUND;
    OperationStatus.UNSUPPORTED_OPERATION; OperationStatus.INVALID_VALUE_TYPE;
    OperationStatus.VALUE_OUT_OF_RANGE; OperationStatus.UNAUTHORIZED;
    OperationStatus.INTERLOCK_ACTIVE; OperationStatus.HARDWARE_UNAVAILABLE;
    OperationStatus.OPERATION_FAILED; OperationStatus.BUSY; OperationStatus.INVALID_DESCRIPTOR].

(* device_capabilities.h:291-305 isValidCapabilityDiagnosticsSnapshot *)
Definition isValidCapabilityDiagnosticsSnapshot (s : CapabilityDiagnosticsSnapshot) : bool :=
  if (1 <? lastStatusAvailable s) || negb (rd (snapshot_reserved s) 0 =? 0)
     || negb (rd (snapshot_reserved s) 1 =? 0) then false else
  if lastStatusAvailable s =? 0 then lastStatus s =? OperationStatus.OK else
  isKnownOperationStatus (lastStatus s).

(** ** Diagnostics *)

(* device_capabilities.h:393-397 saturatingIncrement *)
Definition saturatingIncrement (value amount : Z) : Z :=
  if UINT32_MAX - value <? amount then UINT32_MAX else value + amount.

(** The counters after the outcome [status]. *)
(* device_capabilities.h:317-381 = recordOutcome, the counters *)
Definition countOutcome (status amount : Z) (c : CapabilityDiagnosticCounters)
    : CapabilityDiagnosticCounters :=
  let plus v := saturatingIncrement v amount in
  let c := if negb (status =? OperationStatus.INVALID_DESCRIPTOR)
           then c <| lookupAttempts := plus (lookupAttempts c) |> else c in
  if status =? OperationStatus.OK
  then c <| acceptedOperations := plus (acceptedOperations c) |> else
  if status =? OperationStatus.CAPABILITY_NOT_FOUND then c else
  if status =? OperationStatus.UNSUPPORTED_OPERATION
  then c <| unsupportedOperations := plus (unsupportedOperations c) |> else
  if one_of status [OperationStatus.INVALID_DESCRIPTOR; OperationStatus.INVALID_VALUE_TYPE;
       OperationStatus.VALUE_OUT_OF_RANGE]
  then c <| validationFailures := plus (validationFailures c) |> else
  if status =? OperationStatus.UNAUTHORIZED
  then c <| authorizationDenials := plus (authorizationDenials c) |> else
  if status =? OperationStatus.INTERLOCK_ACTIVE
  then c <| interlockDenials := plus (interlockDenials c) |> else
  if status =? OperationStatus.BUSY
  then c <| acceptedOperations := plus (acceptedOperations c) |>
         <| busyOutcomes := plus (busyOutcomes c) |> else
  if one_of status [OperationStatus.HARDWARE_UNAVAILABLE; OperationStatus.OPERATION_FAILED]
  then c <| acceptedOperations := plus (acceptedOperations c) |>
         <| hardwareFailures := plus (hardwareFailures c) |> else c.

(* device_capabilities.h:309-386 recordOutcome *)
Definition recordOutcome (status amount : Z) (s : CapabilityDiagnosticsSnapshot)
    : bool * CapabilityDiagnosticsSnapshot :=
  if negb (isKnownOperationStatus status) then (false, s) else
  if amount =? 0 then (true, s) else
  (true, s <| counters := countOutcome status amount (counters s) |>
           <| lastStatusAvailable := 1 |> <| lastStatus := status |>).

(** ** Descriptors *)

(* device_capabilities.h:402-414 isKnownUnitCode *)
Definition isKnownUnitCode (code : Z) : bool :=
  one_of code [UnitCode.NONE; UnitCode.BOOLEAN; UnitCode.COUNT; UnitCode.RAW_ADC;
    UnitCode.NORMALIZED; UnitCode.MILLIVOLTS].

(* device_capabilities.h:416-418 hasKnownOperationFlags *)
Definition hasKnownOperationFlags (flags : Z) : bool :=
  Z.land flags (u8 (Z.lnot KNOWN_OPERATION_FLAGS)) =? 0.

(* device_capabilities.h:420-422 hasKnownAuthorizationPolicy *)
Definition hasKnownAuthorizationPolicy (policyId : Z) : bool :=
  policyId =? LOCAL_ONLY_AUTHORIZATION_POLICY_ID.

(* device_capabilities.h:424-427 hasKnownSafetyPolicy *)
Definition hasKnownSafetyPolicy (policyId : Z) : bool :=
  (policyId =? NO_ADDITIONAL_SAFETY_POLICY_ID) || (policyId =? MUTATING_INTERLOCK_SAFETY_POLICY_ID).

(* device_capabilities.h:429-467 hasValidOperations *)
Definition hasValidOperations (class flags : Z) : bool :=
  if negb (hasKnownOperationFlags flags) || (Z.land flags OPERATION_FLAG_DESCRIBE =? 0)
  then false else
  let describeRead := Z.lor OPERATION_FLAG_DESCRIBE OPERATION_FLAG_READ in
  let describeSet := Z.lor OPERATION_FLAG_DESCRIBE OPERATION_FLAG_SET in
  let describeReadSet := Z.lor describeRead OPERATION_FLAG_SET in
  if one_of class [CapabilityClass.DIGITAL_INPUT; CapabilityClass.ANALOG_INPUT;
       CapabilityClass.SENSOR; CapabilityClass.POWER_MONITOR; CapabilityClass.LOCATION_PROVIDER]
  then flags =? describeRead else
  if class =? CapabilityClass.INDICATOR_OUTPUT
  then (flags =? describeSet) || (flags =? describeReadSet) else
  if one_of class [CapabilityClass.SIGNAL_OUTPUT; CapabilityClass.RELAY_OUTPUT;
       CapabilityClass.LOCAL_STORAGE; CapabilityClass.LOCAL_PROCEDURE]
  then flags =? OPERATION_FLAG_DESCRIBE else false.

(* device_capabilities.h:469-499 hasValidBounds *)
Definition hasValidBounds (type minimum maximum : Z) : bool :=
  if type =? ValueType.NONE then (minimum =? 0) && (maximum =? 0) else
  if type =? ValueType.BOOLEAN
  then (minimum <=? 1) && (maximum <=? 1) && (minimum <=? maximum) else
  if type =? ValueType.UNSIGNED_32 then minimum <=? maximum else
  if one_of type [ValueType.SIGNED_32; ValueType.FIXED_Q16_16]
  then Z.lxor minimum 2147483648 <=? Z.lxor maximum 2147483648 else
  if one_of type [ValueType.NORMALIZED_U16; ValueType.ENUM_U16]
  then (Z.land minimum 4294901760 =? 0) && (Z.land maximum 4294901760 =? 0)
       && (minimum <=? maximum) else false.

(* device_capabilities.h:501-510 hasCompatibleValueContract *)
Definition hasCompatibleValueContract (flags type : Z) : bool :=
  let valueOperations := Z.lor OPERATION_FLAG_READ OPERATION_FLAG_SET in
  if negb (Z.land flags valueOperations =? 0)
  then negb (type =? ValueType.NONE) else type =? ValueType.NONE.

(* device_capabilities.h:512-537 isValidCapabilityDescriptor *)
Definition isValidCapabilityDescriptor (d : CapabilityDescriptor) : bool :=
  negb (cap_id d =? INVALID_CAPABILITY_ID) && isKnownCapabilityClass (capabilityClass d)
  && isKnownValueType (valueType d) && hasValidOperations (capabilityClass d) (operationFlags d)
  && hasCompatibleValueContract (operationFlags d) (valueType d)
  && hasKnownAuthorizationPolicy (authorizationPolicyId d)
  && hasKnownSafetyPolicy (safetyPolicyId d) && isKnownUnitCode (unitCode d)
  && (Z.land (metadataFlags d) (u16 (Z.lnot KNOWN_METADATA_FLAGS)) =? 0)
  && (cap_reserved d =? 0) && hasValidBounds (valueType d) (minimumBits d) (maximumBits d).

(** ** Who may do what *)

(* device_capabilities.h:539-559 isValidCallerContext *)
Definition isValidCallerContext (caller : CallerContext) : bool :=
  if negb (reserved3_zero (caller_reserved caller)) then false else
  one_of (callerClass caller) [CallerClass.FIRMWARE_LOCAL; CallerClass.UI_LOCAL;
    CallerClass.TEST; CallerClass.FUTURE_REMOTE; CallerClass.HOST_LOCAL].

(* device_capabilities.h:561-569 isValidInterlockState *)
Definition isValidInterlockState (interlock : Z) : bool :=
  one_of interlock [InterlockState.CLEAR; InterlockState.ACTIVE].

(** The flag [supportsOperation] asks for; none for [ENUMERATE] and for bytes
    that are no operation. *)
(* device_capabilities.h:579-598 = supportsOperation, the switch *)
Definition requiredFlag (operation : Z) : Z :=
  if operation =? Operation.DESCRIBE then OPERATION_FLAG_DESCRIBE else
  if operation =? Operation.READ then OPERATION_FLAG_READ else
  if operation =? Operation.SET then OPERATION_FLAG_SET else
  if operation =? Operation.TRIGGER then OPERATION_FLAG_TRIGGER else
  if operation =? Operation.RUN_LOCAL_PROCEDURE then OPERATION_FLAG_RUN_LOCAL_PROCEDURE else 0.

(* device_capabilities.h:571-601 supportsOperation *)
Definition supportsOperation (d : CapabilityDescriptor) (operation : Z) : bool :=
  if negb (isValidCapabilityDescriptor d) then false else
  if operation =? Operation.ENUMERATE then false else
  negb (Z.land (operationFlags d) (requiredFlag operation) =? 0).

(* device_capabilities.h:603-620 isOperationAuthorized *)
Definition isOperationAuthorized (d : CapabilityDescriptor) (operation : Z)
    (caller : CallerContext) : bool :=
  if (operation =? Operation.ENUMERATE) || (operation =? Operation.DESCRIBE)
     || negb (supportsOperation d operation) || negb (isValidCallerContext caller)
     || negb (authorizationPolicyId d =? LOCAL_ONLY_AUTHORIZATION_POLICY_ID) then false else
  one_of (callerClass caller) [CallerClass.FIRMWARE_LOCAL; CallerClass.UI_LOCAL;
    CallerClass.TEST; CallerClass.HOST_LOCAL].

(* device_capabilities.h:622-640 isOperationSafe *)
Definition isOperationSafe (d : CapabilityDescriptor) (operation interlock : Z) : bool :=
  if (operation =? Operation.ENUMERATE) || (operation =? Operation.DESCRIBE)
     || negb (supportsOperation d operation) || negb (isValidInterlockState interlock)
     || negb (hasKnownSafetyPolicy (safetyPolicyId d)) then false else
  (safetyPolicyId d =? NO_ADDITIONAL_SAFETY_POLICY_ID) || (interlock =? InterlockState.CLEAR)
  || (operation =? Operation.READ).

(* device_capabilities.h:642-649 isValueCompatible *)
Definition isValueCompatible (d : CapabilityDescriptor) (value : CapabilityValue) : bool :=
  isValidCapabilityDescriptor d && isValidCapabilityValue value
  && (valueType d =? value_type value).

(* device_capabilities.h:651-653 signedOrderingKey *)
Definition signedOrderingKey (bits : Z) : Z := Z.lxor bits 2147483648.

(* device_capabilities.h:655-681 isValueWithinBounds *)
Definition isValueWithinBounds (d : CapabilityDescriptor) (value : CapabilityValue) : bool :=
  if negb (isValueCompatible d value) then false else
  if one_of (value_type value) [ValueType.NONE; ValueType.BOOLEAN; ValueType.UNSIGNED_32;
       ValueType.NORMALIZED_U16; ValueType.ENUM_U16]
  then (minimumBits d <=? bits value) && (bits value <=? maximumBits d) else
  if one_of (value_type value) [ValueType.SIGNED_32; ValueType.FIXED_Q16_16]
  then let key := signedOrderingKey (bits value) in
       (signedOrderingKey (minimumBits d) <=? key) && (key <=? signedOrderingKey (maximumBits d))
  else false.

(* device_capabilities.h:683-697 isValidOperationResult *)
Definition isValidOperationResult (result : OperationResult) : bool :=
  if negb (isKnownOperationStatus (result_status result))
     || negb (reserved3_zero (result_reserved result))
     || negb (isValidCapabilityValue (result_value result)) then false else
  if result_status result =? OperationStatus.OK then true else
  (value_type (result_value result) =? ValueType.NONE) && (bits (result_value result) =? 0).

(** ** The registry *)

(** No descriptor before [index] has the id of the one there. *)
(* device_capabilities.h:720-724 = isValidCapabilityRegistry, the inner loop *)
Fixpoint idUnusedBelow (registry : CapabilityRegistryView) (id : Z) (left previous : nat) : bool :=
  match left with
  | O => true
  | S left' =>
      if cap_id (descriptor_at registry previous) =? id then false
      else idUnusedBelow registry id left' (S previous)
  end.

(* device_capabilities.h:714-725 = isValidCapabilityRegistry, the outer loop *)
Fixpoint descriptorsValid (registry : CapabilityRegistryView) (left index : nat) : bool :=
  match left with
  | O => true
  | S left' =>
      let descriptor := descriptor_at registry index in
      if negb (isValidCapabilityDescriptor descriptor) then false else
      if negb (idUnusedBelow registry (cap_id descriptor) index 0) then false else
      descriptorsValid registry left' (S index)
  end.

(* device_capabilities.h:699-728 isValidCapabilityRegistry *)
Definition isValidCapabilityRegistry (registry : CapabilityRegistryView) : bool :=
  if MAX_CAPABILITIES <? count registry then false else
  if count registry =? 0 then bool_decide (descriptors registry = None) else
  if bool_decide (descriptors registry = None) then false else
  descriptorsValid registry (Z.to_nat (count registry)) 0.

(* device_capabilities.h:730-732 capabilityCount *)
Definition capabilityCount (registry : CapabilityRegistryView) : Z :=
  if isValidCapabilityRegistry registry then count registry else 0.

(* device_capabilities.h:734-745 getCapabilityByIndex *)
Definition getCapabilityByIndex (registry : CapabilityRegistryView) (index : Z)
    (output : CapabilityDescriptor) : bool * CapabilityDescriptor :=
  if negb (isValidCapabilityRegistry registry) || (count registry <=? index)
  then (false, output) else (true, descriptor_at registry (Z.to_nat index)).

(* device_capabilities.h:757-762 = findCapability, the loop *)
Fixpoint searchCapability (registry : CapabilityRegistryView) (id : Z) (left index : nat)
    (output : CapabilityDescriptor) : bool * CapabilityDescriptor :=
  match left with
  | O => (false, output)
  | S left' =>
      if cap_id (descriptor_at registry index) =? id then (true, descriptor_at registry index)
      else searchCapability registry id left' (S index) output
  end.

(* device_capabilities.h:747-765 findCapability *)
Definition findCapability (registry : CapabilityRegistryView) (id : Z)
    (output : CapabilityDescriptor) : bool * CapabilityDescriptor :=
  if (id =? INVALID_CAPABILITY_ID) || negb (isValidCapabilityRegistry registry)
  then (false, output) else searchCapability registry id (Z.to_nat (count registry)) 0 output.

(** ** Dispatch *)

(* device_capabilities.h:767-769 isCanonicalNoneValue *)
Definition isCanonicalNoneValue (value : CapabilityValue) : bool :=
  isValidCapabilityValue value && (value_type value =? ValueType.NONE).

(* device_capabilities.h:771-776 makeCanonicalFailureResult *)
Definition makeCanonicalFailureResult (status : Z) : OperationResult :=
  mkResult status (zeros 3) (mkValue ValueType.NONE (zeros 3) 0).

(* device_capabilities.h:778-792 isHandlerDispatchableOperation *)
Definition isHandlerDispatchableOperation (operation : Z) : bool :=
  one_of operation [Operation.READ; Operation.SET; Operation.TRIGGER;
    Operation.RUN_LOCAL_PROCEDURE].

(* device_capabilities.h:794-813 isHandlerOwnedStatus *)
Definition isHandlerOwnedStatus (status : Z) : bool :=
  one_of status [OperationStatus.OK; OperationStatus.HARDWARE_UNAVAILABLE;
    OperationStatus.OPERATION_FAILED; OperationStatus.BUSY].

Section Dispatch.

Context {W : Type} `{LocalCapabilityHandler W}.

(** The handler is called, and its result is checked. *)
(* device_capabilities.h:870-895 = dispatchCapabilityOperation, the handler *)
Definition checkedExecute (descriptor : CapabilityDescriptor) (operation : Z)
    (input : CapabilityValue) : st W OperationResult :=
  handlerResult <~ execute descriptor operation input ;;
  ret (
    if negb (isValidOperationResult handlerResult)
       || negb (isHandlerOwnedStatus (result_status handlerResult))
    then makeCanonicalFailureResult OperationStatus.OPERATION_FAILED else
    if negb (result_status handlerResult =? OperationStatus.OK) then handlerResult else
    if operation =? Operation.READ then
      if negb (isValueWithinBounds descriptor (result_value handlerResult))
      then makeCanonicalFailureResult OperationStatus.OPERATION_FAILED else handlerResult
    else if negb (isCanonicalNoneValue (result_value handlerResult))
    then makeCanonicalFailureResult OperationStatus.OPERATION_FAILED else handlerResult).

(* device_capabilities.h:815-896 dispatchCapabilityOperation *)
Definition dispatchCapabilityOperation (registry : CapabilityRegistryView) (capabilityId : Z)
    (operation : Z) (input : CapabilityValue) (caller : CallerContext) (interlock : Z)
    : st W OperationResult :=
  let refuse status := ret (makeCanonicalFailureResult status) in
  if negb (isValidCapabilityRegistry registry) then refuse OperationStatus.INVALID_DESCRIPTOR else
  let (found, descriptor) := findCapability registry capabilityId zeroDescriptor in
  if negb found then refuse OperationStatus.CAPABILITY_NOT_FOUND else
  if negb (isHandlerDispatchableOperation operation) || negb (supportsOperation descriptor operation)
  then refuse OperationStatus.UNSUPPORTED_OPERATION else
  if (operation =? Operation.SET)
     && (negb (isValidCapabilityValue input) || negb (value_type input =? valueType descriptor))
  then refuse OperationStatus.INVALID_VALUE_TYPE else
  if (operation =? Operation.SET) && negb (isValueWithinBounds descriptor input)
  then refuse OperationStatus.VALUE_OUT_OF_RANGE else
  if negb (operation =? Operation.SET) && negb (isCanonicalNoneValue input)
  then refuse OperationStatus.INVALID_VALUE_TYPE else
  if negb (isOperationAuthorized descriptor operation caller)
  then refuse OperationStatus.UNAUTHORIZED else
  if negb (isOperationSafe descriptor operation interlock)
  then refuse OperationStatus.INTERLOCK_ACTIVE else
  checkedExecute descriptor operation input.

(* device_capabilities.h:898-919 dispatchCapabilityOperationObserved *)
Definition dispatchCapabilityOperationObserved (registry : CapabilityRegistryView)
    (capabilityId operation : Z) (input : CapabilityValue) (caller : CallerContext)
    (interlock : Z) : st (CapabilityDiagnosticsSnapshot * W) OperationResult :=
  result <~ outside (dispatchCapabilityOperation registry capabilityId operation input caller
    interlock) ;;
  update (λ s, (recordOutcome (result_status result) 1 s).2) ;;;
  ret result.

End Dispatch.

End DeviceCapabilities.
