(* ===== verification/Diagnostics.v ===== *)
(** Volatile diagnostics, lib/runtime_state: [Module EventTxDiagnostics] is
    event_tx_diagnostics.h, [Module RuntimeState] the state of runtime_state.h
    that the components share.  A radio metric, a [float] that is only stored
    and returned, is the 32 bits of its representation. *)

From S2P Require Import Prelude Capabilities.

Module EventTxDiagnostics.

(* event_tx_diagnostics.h:8-18 = Counter *)
Inductive Counter :=
  READY_SELECTED | ARBITRATION_GRANTED | START_CALLED | START_ACCEPTED | START_FAILED |
  TX_ENTERED | DIO_EVENT | DIO_OTHER | DIO_CLASSIFIED_EVENT | DIO_OTHER_PATH_DURING_TX |
  TX_COMPLETED_CALLED | WAIT_ENTERED | ACK_DECODED | ACK_MATCHED | ADMISSION_TIMEOUT |
  BACKOFF_ENTERED | BACKOFF_DUE | RETRY_READY | EXPIRED_QUEUED | EXPIRED_READY | EXPIRED_TX |
  EXPIRED_WAIT | EXPIRED_BACKOFF | EXPIRED_PREPARE | CLOCK_REVERSED | RECEIVE_DURING_TX |
  HOST_DURING_TX | MAINTENANCE_DURING_TX | PENDING_FLAG_CLEARED_DURING_TX |
  TERMINAL_RECLAIMED.

(* event_tx_diagnostics.h:18 COUNTER_COUNT *)
Definition COUNTER_COUNT : Z := 30.

(** [static_cast<uint8_t>(counter)]. *)
Definition index_of (counter : Counter) : nat :=
  match counter with
  | READY_SELECTED => 0
  | ARBITRATION_GRANTED => 1
  | START_CALLED => 2
  | START_ACCEPTED => 3
  | START_FAILED => 4
  | TX_ENTERED => 5
  | DIO_EVENT => 6
  | DIO_OTHER => 7
  | DIO_CLASSIFIED_EVENT => 8
  | DIO_OTHER_PATH_DURING_TX => 9
  | TX_COMPLETED_CALLED => 10
  | WAIT_ENTERED => 11
  | ACK_DECODED => 12
  | ACK_MATCHED => 13
  | ADMISSION_TIMEOUT => 14
  | BACKOFF_ENTERED => 15
  | BACKOFF_DUE => 16
  | RETRY_READY => 17
  | EXPIRED_QUEUED => 18
  | EXPIRED_READY => 19
  | EXPIRED_TX => 20
  | EXPIRED_WAIT => 21
  | EXPIRED_BACKOFF => 22
  | EXPIRED_PREPARE => 23
  | CLOCK_REVERSED => 24
  | RECEIVE_DURING_TX => 25
  | HOST_DURING_TX => 26
  | MAINTENANCE_DURING_TX => 27
  | PENDING_FLAG_CLEARED_DURING_TX => 28
  | TERMINAL_RECLAIMED => 29
  end%nat.

(* event_tx_diagnostics.h:20-37 Snapshot *)
Record Snapshot := mkSnapshot {
  available : bool;
  lastStep : Z;
  controllerState : Z;
  radioOwner : Z;
  attempt_ : Z;
  source : Z;
  epoch : Z;
  id : Z;
  lastAt : Z;
  startAt : Z;
  completedAt : Z;
  previousClock : Z;
  inputClock : Z;
  startResult_ : Z;
  admissionStatus : Z;
  counters : list Z
}.

#[global] Instance eta_Snapshot : RecEta Snapshot := λ r,
  mkSnapshot
    (available r) (lastStep r) (controllerState r) (radioOwner r) (attempt_ r) (source r)
    (epoch r) (id r) (lastAt r) (startAt r) (completedAt r) (previousClock r)
    (inputClock r) (startResult_ r) (admissionStatus r) (counters r).

Definition newSnapshot : Snapshot :=
  mkSnapshot false 0 0 0 0 0 0 0 0 0 0 0 0 0 255 (zeros 30).

(* event_tx_diagnostics.h:79-81 = Observer members *)
Record Observer := mkObserver {
  snapshot_ : Snapshot;
  lastClock_ : Z;
  clockSeen_ : bool
}.

#[global] Instance eta_Observer : RecEta Observer := λ r,
  mkObserver
    (snapshot_ r) (lastClock_ r) (clockSeen_ r).

Definition newObserver : Observer := mkObserver newSnapshot 0 false.

Definition on_snapshot (f : Snapshot → Snapshot) (o : Observer) : Observer :=
  o <| snapshot_ := f (snapshot_ o) |>.

(* event_tx_diagnostics.h:41-46 Observer::note *)
Definition note (counter : Counter) (now : Z) : Observer → Observer := on_snapshot (λ s,
  let index := index_of counter in
  let s :=
    if negb (rd (counters s) index =? UINT16_MAX)
    then s <| counters := upd (counters s) index (rd (counters s) index + 1) |> else s in
  s <| lastStep := u8 (Z.of_nat index + 1) |> <| lastAt := now |>).

(* event_tx_diagnostics.h:47-50 Observer::attempt *)
Definition attempt (source epoch id used : Z) : Observer → Observer := on_snapshot (λ s,
  s <| EventTxDiagnostics.source := source |> <| EventTxDiagnostics.epoch := epoch |>
    <| EventTxDiagnostics.id := id |> <| attempt_ := used |>).

(* event_tx_diagnostics.h:51 Observer::start *)
Definition start (now : Z) (o : Observer) : Observer :=
  note START_CALLED now (on_snapshot (λ s, s <| startAt := now |>) o).

(* event_tx_diagnostics.h:52-55 Observer::startResult *)
Definition startResult (code now : Z) (o : Observer) : Observer :=
  note (if code =? 0 then START_ACCEPTED else START_FAILED) now
    (on_snapshot (λ s, s <| startResult_ := code |>) o).

(* event_tx_diagnostics.h:56-58 Observer::completed *)
Definition completed (now : Z) (o : Observer) : Observer :=
  note TX_COMPLETED_CALLED now (on_snapshot (λ s, s <| completedAt := now |>) o).

(* event_tx_diagnostics.h:59-62 Observer::dispatchDio *)
Definition dispatchDio (eventOwner controllerTx : bool) (now : Z) (o : Observer) : Observer :=
  if eventOwner then note DIO_CLASSIFIED_EVENT now o
  else if controllerTx then note DIO_OTHER_PATH_DURING_TX now o else o.

(* event_tx_diagnostics.h:63-65 Observer::clearingFlag *)
Definition clearingFlag (pending controllerTx : bool) (now : Z) (o : Observer) : Observer :=
  if pending && controllerTx then note PENDING_FLAG_CLEARED_DURING_TX now o else o.

(* event_tx_diagnostics.h:66-68 Observer::admission *)
Definition admission (status now : Z) (o : Observer) : Observer :=
  note ACK_DECODED now (on_snapshot (λ s, s <| admissionStatus := status |>) o).

(* event_tx_diagnostics.h:69-75 Observer::clock *)
Definition clock (now : Z) (o : Observer) : Observer :=
  let o :=
    if clockSeen_ o && (2147483647 <? u32 (now - lastClock_ o))
    then note CLOCK_REVERSED now
           (on_snapshot (λ s, s <| previousClock := lastClock_ o |> <| inputClock := now |>) o)
    else o in
  o <| lastClock_ := now |> <| clockSeen_ := true |>.

(* event_tx_diagnostics.h:76 Observer::enable *)
Definition enable : Observer → Observer := on_snapshot (λ s, s <| available := true |>).

End EventTxDiagnostics.


Module RuntimeState.

(* runtime_state.h:10-13 DeviceRole *)
Inductive DeviceRole := HUB | NODE.

(* runtime_state.h:15-23 RuntimePhase *)
Inductive RuntimePhase :=
  IDLE | TRANSMITTING | WAITING_FOR_ACK | LISTENING | TRANSMITTING_ACK
| WAITING_FOR_RESPONSE | TRANSMITTING_RESPONSE.

(* runtime_state.h:25-30 Health *)
Inductive Health := STARTING | HEALTH_READY | DEGRADED | HEALTH_ERROR.

(* runtime_state.h:32-44 ErrorClass *)
Inductive ErrorClass :=
  NONE | RADIO_INITIALIZATION | RADIO_START_RECEIVE | RADIO_START_TRANSMIT | RADIO_READ
| PACKET_LENGTH | PACKET_DECODE | PACKET_IGNORED | ACK_TIMEOUT | REMOTE_ACK | ACK_STATUS.

(* runtime_state.h:46-57 LastInboundPacket *)
Record LastInboundPacket := mkInbound {
  inboundAvailable : bool;
  rawType : Z;
  source : Z;
  destination : Z;
  sequence : Z;
  opcode : Z;
  payloadLength : Z;
  ackStatusAvailable : bool;
  rawAckStatus : Z;
  observedAtMs : Z
}.

(* runtime_state.h:59-70 DiagnosticCounters *)
Record DiagnosticCounters := mkCounters {
  transmissionsCompleted : Z;
  decodedPacketsReceived : Z;
  successfulTransactions : Z;
  acceptedCommands : Z;
  retransmissions : Z;
  acknowledgmentTimeouts : Z;
  duplicates : Z;
  malformedPackets : Z;
  ignoredPackets : Z;
  radioErrors : Z
}.

#[global] Instance eta_DiagnosticCounters : RecEta DiagnosticCounters := λ r,
  mkCounters
    (transmissionsCompleted r) (decodedPacketsReceived r) (successfulTransactions r)
    (acceptedCommands r) (retransmissions r) (acknowledgmentTimeouts r) (duplicates r)
    (malformedPackets r) (ignoredPackets r) (radioErrors r).

(* runtime_state.h:72-88 EventDiagnosticCounters *)
Record EventDiagnosticCounters := mkEventCounters {
  enqueueAccepted : Z;
  queueFullRejected : Z;
  persistenceFailures : Z;
  eventsRecovered : Z;
  storageCorruptions : Z;
  eventAttempts : Z;
  eventsExpired : Z;
  attemptsExhausted : Z;
  hubCapacityRejections : Z;
  identityContentMismatches : Z;
  duplicateRetransmissions : Z;
  successfulAdmissions : Z;
  admissionsAcknowledged : Z;
  hostPollsReturnedEvent : Z;
  hostConsumptions : Z
}.

#[global] Instance eta_EventDiagnosticCounters : RecEta EventDiagnosticCounters := λ r,
  mkEventCounters
    (enqueueAccepted r) (queueFullRejected r) (persistenceFailures r) (eventsRecovered r)
    (storageCorruptions r) (eventAttempts r) (eventsExpired r) (attemptsExhausted r)
    (hubCapacityRejections r) (identityContentMismatches r) (duplicateRetransmissions r)
    (successfulAdmissions r) (admissionsAcknowledged r) (hostPollsReturnedEvent r)
    (hostConsumptions r).

(* runtime_state.h:90-97 EventSnapshot *)
Record EventSnapshot := mkEventSnapshot {
  eventCounters : EventDiagnosticCounters;
  queuedCount : Z;
  queueCapacity : Z;
  activeCount : Z;
  hubUnavailable : bool;
  persistenceDegraded : bool
}.

#[global] Instance eta_EventSnapshot : RecEta EventSnapshot := λ r,
  mkEventSnapshot
    (eventCounters r) (queuedCount r) (queueCapacity r) (activeCount r) (hubUnavailable r)
    (persistenceDegraded r).

(* runtime_state.h:99-112 EventDetailState *)
Inductive EventDetailState :=
  EMPTY | QUEUED | DETAIL_READY | TX_PREPARE | DETAIL_TRANSMITTING | WAIT_ADMISSION | BACKOFF
| RELEASED | FAILED | EXPIRED | ACTIVE | CONSUMED.

(* runtime_state.h:114-119 EventProducerKind *)
Inductive EventProducerKind := KIND_NONE | KIND_BUTTON | KIND_SENSOR_THRESHOLD | KIND_MANUAL_CHECK_IN.

(* runtime_state.h:121-128 EventProducerResult *)
Inductive EventProducerResult :=
  PRODUCER_NONE | CREATED | QUEUE_FULL | INVALID_EVENT | STORAGE_FAILURE | SUPPRESSED.

(* runtime_state.h:130-134 EventIdentitySnapshot *)
Record EventIdentitySnapshot := mkIdentitySnapshot {
  sourceDeviceId : Z;
  eventEpoch : Z;
  eventId : Z
}.

(* runtime_state.h:136-141 EventProducerSnapshot *)
Record EventProducerSnapshot := mkProducer {
  kind : EventProducerKind;
  result : EventProducerResult;
  identityAvailable : bool;
  identity : EventIdentitySnapshot
}.

(* runtime_state.h:145-169 EventDetailSnapshot *)
Record EventDetailSnapshot := mkDetail {
  txLifecycle : EventTxDiagnostics.Snapshot;
  custodyCount : Z;
  detailCapacity : Z;
  detailActiveCount : Z;
  consumedCount : Z;
  recordAvailable : bool;
  detailState : EventDetailState;
  detailIdentity : EventIdentitySnapshot;
  family : Z;
  attemptsUsed : Z;
  attemptsMaximum : Z;
  waitingForAdmission : bool;
  waitingForRetry : bool;
  remainingLifetimeAvailable : bool;
  remainingLifetimeSeconds : Z;
  admissionOrdinalAvailable : bool;
  admissionOrdinal : Z;
  recentAdmissionAvailable : bool;
  recentAdmission : EventIdentitySnapshot;
  detailPersistenceDegraded : bool;
  detailHubUnavailable : bool;
  lastProducer : EventProducerSnapshot;
  detailCounters : EventDiagnosticCounters
}.

(* runtime_state.h:171-177 EventDiagnostic *)
Inductive EventDiagnostic :=
  ENQUEUE_ACCEPTED | QUEUE_FULL_REJECTED | PERSISTENCE_FAILURE | EVENT_RECOVERED |
  STORAGE_CORRUPTION | EVENT_ATTEMPT | EVENT_EXPIRED | ATTEMPT_EXHAUSTED |
  HUB_CAPACITY_REJECTION | IDENTITY_CONTENT_MISMATCH | DUPLICATE_RETRANSMISSION |
  SUCCESSFUL_ADMISSION | ADMISSION_ACKNOWLEDGED | HOST_POLL_RETURNED_EVENT |
  HOST_CONSUMPTION.

(* runtime_state.h:420-438 = State members *)
Record State := mkState {
  role_ : DeviceRole;
  localId_ : Z;
  peerId_ : Z;
  ready_ : bool;
  phase_ : RuntimePhase;
  health_ : Health;
  lastError_ : ErrorClass;
  radioMetricsAvailable_ : bool;
  latestRssi_ : Z;
  latestSnr_ : Z;
  lastInboundPacket_ : LastInboundPacket;
  lastActivityAvailable_ : bool;
  lastActivityAtMs_ : Z;
  counters_ : DiagnosticCounters;
  eventSnapshot_ : EventSnapshot;
  lastEventProducer_ : EventProducerSnapshot;
  capabilityDiagnosticsAvailable_ : bool;
  capabilityDiagnostics_ : DeviceCapabilities.CapabilityDiagnosticsSnapshot
}.

#[global] Instance eta_State : RecEta State := λ r,
  mkState
    (role_ r) (localId_ r) (peerId_ r) (ready_ r) (phase_ r) (health_ r) (lastError_ r)
    (radioMetricsAvailable_ r) (latestRssi_ r) (latestSnr_ r) (lastInboundPacket_ r) (lastActivityAvailable_ r) (lastActivityAtMs_ r) (counters_ r)
    (eventSnapshot_ r) (lastEventProducer_ r) (capabilityDiagnosticsAvailable_ r)
    (capabilityDiagnostics_ r).

Definition zeroEventSnapshot : EventSnapshot :=
  mkEventSnapshot (mkEventCounters 0 0 0 0 0 0 0 0 0 0 0 0 0 0 0) 0 0 0 false false.

Definition zeroProducer : EventProducerSnapshot :=
  mkProducer KIND_NONE PRODUCER_NONE false (mkIdentitySnapshot 0 0 0).

(** [CapabilityDiagnosticsSnapshot snapshot = {};] *)
Definition zeroCapabilityDiagnostics : DeviceCapabilities.CapabilityDiagnosticsSnapshot :=
  DeviceCapabilities.mkSnapshot (DeviceCapabilities.mkCounters 0 0 0 0 0 0 0 0) 0 0 (zeros 2).

(* runtime_state.h:182-191 = State constructor *)
Definition newState (role : DeviceRole) (localId peerId : Z) : State :=
  mkState role localId peerId false (match role with HUB => IDLE | NODE => LISTENING end)
    STARTING NONE false 0 0 (mkInbound false 0 0 0 0 0 0 false 0 0) false 0
    (mkCounters 0 0 0 0 0 0 0 0 0 0) zeroEventSnapshot zeroProducer false
    zeroCapabilityDiagnostics.

(* runtime_state.h:414-418 saturatingIncrement *)
Definition saturatingIncrement (value amount : Z) : Z :=
  if UINT32_MAX - value <? amount then UINT32_MAX else value + amount.

(* runtime_state.h:208-210 setReady *)
Definition setReady (ready : bool) (s : State) : State := s <| ready_ := ready |>.

(* runtime_state.h:216-218 setPhase *)
Definition setPhase (phase : RuntimePhase) (s : State) : State := s <| phase_ := phase |>.

(* runtime_state.h:224-226 setHealth *)
Definition setHealth (health : Health) (s : State) : State := s <| health_ := health |>.

(* runtime_state.h:232-234 recordError *)
Definition recordError (error : ErrorClass) (s : State) : State := s <| lastError_ := error |>.

(* runtime_state.h:248-252 updateRadioMetrics *)
Definition updateRadioMetrics (rssi snr : Z) (s : State) : State :=
  s <| latestRssi_ := rssi |> <| latestSnr_ := snr |> <| radioMetricsAvailable_ := true |>.

(* runtime_state.h:258-281 recordInboundPacket *)
Definition recordInboundPacket (rawType source destination sequence opcode payloadLength : Z)
    (ackStatusAvailable : bool) (rawAckStatus observedAtMs : Z) (s : State) : State :=
  s <| lastInboundPacket_ :=
         mkInbound true rawType source destination sequence opcode payloadLength
           ackStatusAvailable (if ackStatusAvailable then rawAckStatus else 0) observedAtMs |>.

(* runtime_state.h:291-294 recordActivity *)
Definition recordActivity (observedAtMs : Z) (s : State) : State :=
  s <| lastActivityAvailable_ := true |> <| lastActivityAtMs_ := observedAtMs |>.

(* runtime_state.h:304-317 recordEventProducer *)
Definition recordEventProducer (kind : EventProducerKind) (result : EventProducerResult)
    (identity : option EventIdentitySnapshot) (s : State) : State :=
  s <| lastEventProducer_ :=
         match identity with
         | Some i =>
             if negb (sourceDeviceId i =? 0) && negb (eventEpoch i =? 0)
                && negb (eventId i =? 0)
             then mkProducer kind result true i
             else mkProducer kind result false (mkIdentitySnapshot 0 0 0)
         | None => mkProducer kind result false (mkIdentitySnapshot 0 0 0)
         end |>.

Definition on_events (f : EventSnapshot → EventSnapshot) (s : State) : State :=
  s <| eventSnapshot_ := f (eventSnapshot_ s) |>.

(* runtime_state.h:318-321 setEventQueue *)
Definition setEventQueue (count capacity : Z) : State → State := on_events (λ e,
  e <| queuedCount := if capacity <? count then capacity else count |>
    <| queueCapacity := capacity |>).

(* runtime_state.h:322 setActiveEventCount *)
Definition setActiveEventCount (count : Z) : State → State := on_events (λ e,
  e <| activeCount := count |>).

(* runtime_state.h:323 setHubUnavailable *)
Definition setHubUnavailable (unavailable : bool) : State → State := on_events (λ e,
  e <| hubUnavailable := unavailable |>).

(* runtime_state.h:324-326 setEventPersistenceDegraded *)
Definition setEventPersistenceDegraded (degraded : bool) : State → State := on_events (λ e,
  e <| persistenceDegraded := degraded |>).

(** The counter an [EventDiagnostic] selects, updated. *)
(* runtime_state.h:327-348 incrementEventDiagnostic *)
Definition incrementEventDiagnostic (diagnostic : EventDiagnostic) (amount : Z)
    : State → State := on_events (λ e,
  let c := eventCounters e in
  e <| eventCounters :=
    match diagnostic with
    | ENQUEUE_ACCEPTED => c <| enqueueAccepted := saturatingIncrement (enqueueAccepted c) amount |>
    | QUEUE_FULL_REJECTED => c <| queueFullRejected := saturatingIncrement (queueFullRejected c) amount |>
    | PERSISTENCE_FAILURE => c <| persistenceFailures := saturatingIncrement (persistenceFailures c) amount |>
    | EVENT_RECOVERED => c <| eventsRecovered := saturatingIncrement (eventsRecovered c) amount |>
    | STORAGE_CORRUPTION => c <| storageCorruptions := saturatingIncrement (storageCorruptions c) amount |>
    | EVENT_ATTEMPT => c <| eventAttempts := saturatingIncrement (eventAttempts c) amount |>
    | EVENT_EXPIRED => c <| eventsExpired := saturatingIncrement (eventsExpired c) amount |>
    | ATTEMPT_EXHAUSTED => c <| attemptsExhausted := saturatingIncrement (attemptsExhausted c) amount |>
    | HUB_CAPACITY_REJECTION => c <| hubCapacityRejections := saturatingIncrement (hubCapacityRejections c) amount |>
    | IDENTITY_CONTENT_MISMATCH => c <| identityContentMismatches := saturatingIncrement (identityContentMismatches c) amount |>
    | DUPLICATE_RETRANSMISSION => c <| duplicateRetransmissions := saturatingIncrement (duplicateRetransmissions c) amount |>
    | SUCCESSFUL_ADMISSION => c <| successfulAdmissions := saturatingIncrement (successfulAdmissions c) amount |>
    | ADMISSION_ACKNOWLEDGED => c <| admissionsAcknowledged := saturatingIncrement (admissionsAcknowledged c) amount |>
    | HOST_POLL_RETURNED_EVENT => c <| hostPollsReturnedEvent := saturatingIncrement (hostPollsReturnedEvent c) amount |>
    | HOST_CONSUMPTION => c <| hostConsumptions := saturatingIncrement (hostConsumptions c) amount |>
    end |>).

(* runtime_state.h:359-371 updateCapabilityDiagnostics *)
Definition updateCapabilityDiagnostics (snapshot : DeviceCapabilities.CapabilityDiagnosticsSnapshot)
    (s : State) : bool * State :=
  if negb (DeviceCapabilities.isValidCapabilityDiagnosticsSnapshot snapshot) then (false, s) else
  (true, s <| capabilityDiagnostics_ := snapshot |> <| capabilityDiagnosticsAvailable_ := true |>).

Definition on_counters (f : DiagnosticCounters → DiagnosticCounters) (s : State) : State :=
  s <| counters_ := f (counters_ s) |>.

(* runtime_state.h:373-375 incrementTransmissionsCompleted *)
Definition incrementTransmissionsCompleted (amount : Z) : State → State := on_counters (λ c,
  c <| transmissionsCompleted := saturatingIncrement (transmissionsCompleted c) amount |>).

(* runtime_state.h:377-379 incrementDecodedPacketsReceived *)
Definition incrementDecodedPacketsReceived (amount : Z) : State → State := on_counters (λ c,
  c <| decodedPacketsReceived := saturatingIncrement (decodedPacketsReceived c) amount |>).

(* runtime_state.h:381-383 incrementSuccessfulTransactions *)
Definition incrementSuccessfulTransactions (amount : Z) : State → State := on_counters (λ c,
  c <| successfulTransactions := saturatingIncrement (successfulTransactions c) amount |>).

(* runtime_state.h:385-387 incrementAcceptedCommands *)
Definition incrementAcceptedCommands (amount : Z) : State → State := on_counters (λ c,
  c <| acceptedCommands := saturatingIncrement (acceptedCommands c) amount |>).

(* runtime_state.h:389-391 incrementRetransmissions *)
Definition incrementRetransmissions (amount : Z) : State → State := on_counters (λ c,
  c <| retransmissions := saturatingIncrement (retransmissions c) amount |>).

(* runtime_state.h:393-395 incrementAcknowledgmentTimeouts *)
Definition incrementAcknowledgmentTimeouts (amount : Z) : State → State := on_counters (λ c,
  c <| acknowledgmentTimeouts := saturatingIncrement (acknowledgmentTimeouts c) amount |>).

(* runtime_state.h:397-399 incrementDuplicates *)
Definition incrementDuplicates (amount : Z) : State → State := on_counters (λ c,
  c <| duplicates := saturatingIncrement (duplicates c) amount |>).

(* runtime_state.h:401-403 incrementMalformedPackets *)
Definition incrementMalformedPackets (amount : Z) : State → State := on_counters (λ c,
  c <| malformedPackets := saturatingIncrement (malformedPackets c) amount |>).

(* runtime_state.h:405-407 incrementIgnoredPackets *)
Definition incrementIgnoredPackets (amount : Z) : State → State := on_counters (λ c,
  c <| ignoredPackets := saturatingIncrement (ignoredPackets c) amount |>).

(* runtime_state.h:409-411 incrementRadioErrors *)
Definition incrementRadioErrors (amount : Z) : State → State := on_counters (λ c,
  c <| radioErrors := saturatingIncrement (radioErrors c) amount |>).

(** ** Saturation *)

(** [saturatingIncrement] never wraps and never loses a count before its
    ceiling. *)
Lemma saturatingIncrement_spec value amount :
  is_u32 value → is_u32 amount →
  saturatingIncrement value amount = Z.min UINT32_MAX (value + amount).
Proof.
  intros. unfold saturatingIncrement, UINT32_MAX.
  destruct (Z.ltb_spec (4294967295 - value) amount); uint.
Qed.

End RuntimeState.
