(* ===== verification/NodeStore.v ===== *)
(** The Node's durable event queue, lib/node_event_store: eight logical slots
    of two copies each, recovered, indexed in identity order and mutated one
    verified write at a time.  A slot is a number; an array of slots is the
    list of them. *)

From S2P Require Import Prelude Wire EventWire Copies Records Identity Diagnostics.


Module NodeEventStore.

Import EventStorage EventRecords.

Abbreviation S_OK := EventIdentity.S_OK.

Abbreviation S_MISSING := EventIdentity.S_MISSING.

Abbreviation S_UNAVAILABLE := EventIdentity.S_UNAVAILABLE.

(* node_event_store.h:14 NODE_EVENT_CAPACITY *)
Definition NODE_EVENT_CAPACITY : nat := 8.

(* node_event_store.h:16-29 Status *)
Inductive Status :=
  READY | INVALID_SOURCE_DEVICE_ID | STORAGE_UNAVAILABLE | STATUS_STORAGE_FAILURE
| READ_BACK_MISSING | READ_BACK_MISMATCH | READ_BACK_INVALID | INDETERMINATE_SLOT
| RECORD_CONFLICT | STATUS_GENERATION_AMBIGUOUS | DUPLICATE_IDENTITY | STATUS_IDENTITY_FAILURE.

(* node_event_store.h:31-38 EnqueueStatus *)
Inductive EnqueueStatus :=
  ENQUEUED | QUEUE_FULL | ENQUEUE_INVALID_EVENT | ENQUEUE_STORAGE_FAILURE
| ENQUEUE_IDENTITY_FAILURE | ENQUEUE_DEGRADED.

(* node_event_store.h:40-46 MutationStatus *)
Inductive MutationStatus :=
  MUTATION_OK | MUTATION_INVALID_SLOT | INVALID_TRANSITION | MUTATION_STORAGE_FAILURE
| MUTATION_DEGRADED.

(* node_event_store.h:48-55 AttemptStatus *)
Inductive AttemptStatus :=
  ARMED | EXHAUSTED | ATTEMPT_INVALID_SLOT | NOT_QUEUED | ATTEMPT_STORAGE_FAILURE
| ATTEMPT_DEGRADED.

#[global] Instance Status_eq_dec : EqDecision Status.
Proof. solve_decision. Defined.

#[global] Instance MutationStatus_eq_dec : EqDecision MutationStatus.
Proof. solve_decision. Defined.

(* node_event_store.h:57-63 EventInput *)
Record EventInput := mkInput {
  in_family : Z;
  in_flags : Z;
  in_lifetimeBudgetSeconds : Z;
  in_bodyLength : Z;
  in_body : list Z
}.

(* node_event_store.h:65-69 EnqueueResult *)
Record EnqueueResult := mkEnqueueResult {
  enqueue_status : EnqueueStatus;
  enqueue_identity : EventProtocol.Identity;
  enqueue_slot : nat
}.

(* node_event_store.h:71-87 Storage *)
Class Storage (W : Type) `{EventIdentity.MetadataStorage W} := {
  readEventCopy : nat → CopySlot → list Z → st W (EventIdentity.StorageResult * list Z * Z);
  writeEventCopy : nat → CopySlot → list Z → st W EventIdentity.StorageResult
}.

(* node_event_store.h:348-352 SlotState *)
Record SlotState := mkSlot {
  present : bool;
  record : NodeRecord;
  activeCopy : CopySlot
}.

Definition zeroSlot : SlotState := mkSlot false zeroNodeRecord A.

(* node_event_store.h:549-558 = Store members *)
Record Store := mkStore {
  allocator_ : EventIdentity.Allocator;
  slots_ : list SlotState;
  queue_ : list nat;
  sourceDeviceId_ : Z;
  queueCount_ : nat;
  healthy_ : bool;
  status_ : Status;
  diagnostics_ : option RuntimeState.State;
  identityStatus_ : EventIdentity.Status
}.

#[global] Instance eta_SlotState : RecEta SlotState := λ r,
  mkSlot (present r) (record r) (activeCopy r).

#[global] Instance eta_Store : RecEta Store := λ r,
  mkStore (allocator_ r) (slots_ r) (queue_ r) (sourceDeviceId_ r) (queueCount_ r)
    (healthy_ r) (status_ r) (diagnostics_ r) (identityStatus_ r).

(** [slots_[slot]], and an assignment to it. *)

Definition slot_at (s : Store) (slot : nat) : SlotState := nth slot (slots_ s) zeroSlot.

Definition record_at (s : Store) (slot : nat) : NodeRecord := record (slot_at s slot).

Definition set_slot (slot : nat) (x : SlotState) (s : Store) : Store :=
  s <| slots_ := <[slot := x]> (slots_ s) |>.

Definition queue_at (s : Store) (i : nat) : nat := nth i (queue_ s) 0%nat.

(** [reset] keeps the diagnostics pointer. *)
(* node_event_store.h:537-547 Store::reset *)
Definition reset (s : Store) : Store :=
  mkStore EventIdentity.newAllocator (replicate NODE_EVENT_CAPACITY zeroSlot)
    (replicate NODE_EVENT_CAPACITY 0%nat) 0 0 false INDETERMINATE_SLOT (diagnostics_ s)
    EventIdentity.IDENTITY_RECOVERY_REQUIRED.

Definition newStore : Store :=
  mkStore EventIdentity.newAllocator (replicate NODE_EVENT_CAPACITY zeroSlot)
    (replicate NODE_EVENT_CAPACITY 0%nat) 0 0 false INDETERMINATE_SLOT None
    EventIdentity.IDENTITY_RECOVERY_REQUIRED.

(* node_event_store.h:91 setDiagnostics *)
Definition setDiagnostics (state : option RuntimeState.State) (s : Store) : Store :=
  s <| diagnostics_ := state |>.

(* node_event_store.h:531-534 Store::opposite *)
Definition opposite (copy : CopySlot) : CopySlot :=
  if bool_decide (copy = A) then B else A.

(* node_event_store.h:526-530 identityLess *)
Definition identityLess (left right : NodeRecord) : bool :=
  (nr_eventEpoch left <? nr_eventEpoch right)
  || ((nr_eventEpoch left =? nr_eventEpoch right) && (nr_eventId left <? nr_eventId right)).

(* node_event_store.h:485-498 validInput *)
Definition validInput (input : EventInput) : bool :=
  if negb (Z.land (in_flags input) (u8 (Z.lnot EventProtocol.ALLOWED_FLAGS)) =? 0)
     || (in_lifetimeBudgetSeconds input <? EventProtocol.MIN_LIFETIME_SECONDS)
     || (EventProtocol.MAX_LIFETIME_SECONDS <? in_lifetimeBudgetSeconds input)
     || (EventProtocol.MAX_BODY_SIZE <? in_bodyLength input)
     || negb (EventProtocol.isRegisteredFamily (in_family input))
     || negb (EventProtocol.isValidFamilyBody (in_family input) (Some (in_body input))
                (in_bodyLength input)) then false
  else allZero (in_body input) (Z.to_nat (in_bodyLength input))
         (12 - Z.to_nat (in_bodyLength input)).

Definition owned (x : SlotState) : bool :=
  present x && negb (nr_state (record x) =? NodeState.FREE).

(* node_event_store.h:319-325 ownedCount *)
Definition ownedCount (s : Store) : nat :=
  length (filter (λ i, owned (slot_at s i) = true) (seq 0 NODE_EVENT_CAPACITY)).

(** The record and its slot. *)
(* node_event_store.h:326-330 queuedAt *)
Definition queuedAt (index : nat) (s : Store) : option (NodeRecord * nat) :=
  if (queueCount_ s <=? index)%nat then None
  else Some (record_at s (queue_at s index), queue_at s index).

(* node_event_store.h:331-334 recordAt *)
Definition recordAt (slot : nat) (s : Store) : option NodeRecord :=
  if (slot <? NODE_EVENT_CAPACITY)%nat && present (slot_at s slot)
  then Some (record_at s slot) else None.

Section Methods.

Context {W : Type} `{Storage W} `{EventIdentity.EntropySource W}.

Abbreviation M := (st (Store * W)).

(** A call on the member [allocator_], which works on the same outside. *)
Definition on_allocator {X} (m : st (EventIdentity.Allocator * W) X) : M X :=
  zoom (λ s, (allocator_ s.1, s.2)) (λ t s, (s.1 <| allocator_ := t.1 |>, t.2)) m.

(** A call on the diagnostics object, when there is one. *)
Definition diagnose (f : RuntimeState.State → RuntimeState.State) : M unit :=
  update (λ s, s <| diagnostics_ := f <$> diagnostics_ s |>).

(* node_event_store.h:337-339 Store::note *)
Definition note (event : RuntimeState.EventDiagnostic) (amount : Z) : M unit :=
  diagnose (RuntimeState.incrementEventDiagnostic event amount).

(* node_event_store.h:340-343 Store::persistenceFailure *)
Definition persistenceFailure : M unit :=
  note RuntimeState.PERSISTENCE_FAILURE 1 ;;;
  diagnose (RuntimeState.setEventPersistenceDegraded true).

(* node_event_store.h:344-347 Store::updateQueueSnapshot *)
Definition updateQueueSnapshot : M unit :=
  count <~ this queueCount_ ;;
  diagnose (RuntimeState.setEventQueue (u8 (Z.of_nat count)) (Z.of_nat NODE_EVENT_CAPACITY)).

(* node_event_store.h:535 Store::fail *)
Definition fail (status : Status) : M Status :=
  update (λ s, s <| healthy_ := false |> <| status_ := status |>) ;;;
  ret status.

(* node_event_store.h:536 Store::failBool *)
Definition failBool (status : Status) : M bool := fail status ;;; ret false.

(** The copy is returned with the truth value; its status on entry is [OK]. *)
(* node_event_store.h:354-379 Store::readRecordCopy *)
Definition readRecordCopy (slot : nat) (copySlot : CopySlot) : M (bool * FixedCopy) :=
  r <~ outside (readEventCopy slot copySlot (zeros NODE_RECORD_SIZE)) ;;
  let '(result, bytes, length) := r in
  if bool_decide (result = S_UNAVAILABLE) then
    fail STORAGE_UNAVAILABLE ;;;
    ret (false, mkCopy READ_UNAVAILABLE bytes)
  else if bool_decide (result = S_MISSING) then ret (true, mkCopy READ_MISSING bytes)
  else if negb (bool_decide (result = S_OK)) || negb (length =? Z.of_nat NODE_RECORD_SIZE)
  then ret (true, mkCopy READ_OK (zeros NODE_RECORD_SIZE))
  else ret (true, mkCopy READ_OK bytes).

(* node_event_store.h:381-391 Store::acceptSelection *)
Definition acceptSelection (selection : SelectionResult) : M bool :=
  if bool_decide (selection = EQUAL_DISAGREEMENT) then failBool RECORD_CONFLICT
  else if bool_decide (selection = EventStorage.GENERATION_AMBIGUOUS)
  then failBool STATUS_GENERATION_AMBIGUOUS
  else ret true.

(** [EventStorage::selectCopies] at the record type. *)
Definition selectRecords (copyA copyB : FixedCopy) : SelectionResult * NodeRecord * CopySlot :=
  selectCopies zeroNodeRecord nr_generation decodeNodeRecordForSelection NODE_RECORD_SIZE
    copyA copyB zeroNodeRecord A.

(* node_event_store.h:431-461 Store::writeVerify *)
Definition writeVerify (slot : nat) (target : CopySlot) (encoded : list Z) : M bool :=
  result <~ outside (writeEventCopy slot target encoded) ;;
  if negb (bool_decide (result = S_OK)) then
    failBool (if bool_decide (result = S_UNAVAILABLE) then STORAGE_UNAVAILABLE
              else STATUS_STORAGE_FAILURE)
  else
  result <~ outside EventIdentity.commit ;;
  if negb (bool_decide (result = S_OK)) then
    failBool (if bool_decide (result = S_UNAVAILABLE) then STORAGE_UNAVAILABLE
              else STATUS_STORAGE_FAILURE)
  else
  r <~ outside (readEventCopy slot target (zeros NODE_RECORD_SIZE)) ;;
  let '(result, bytes, length) := r in
  if bool_decide (result = S_MISSING) then failBool READ_BACK_MISSING else
  if bool_decide (result = S_UNAVAILABLE) then failBool STORAGE_UNAVAILABLE else
  if negb (bool_decide (result = S_OK)) || negb (length =? Z.of_nat NODE_RECORD_SIZE)
  then failBool READ_BACK_INVALID else
  let (decodeResult, _) := decodeNodeRecord (Some bytes) zeroNodeRecord in
  if negb (bool_decide (decodeResult = OK)) then failBool READ_BACK_INVALID else
  if negb (bytesEqual (Some encoded) (Some bytes) NODE_RECORD_SIZE)
  then failBool READ_BACK_MISMATCH
  else ret true.

(* node_event_store.h:393-402 Store::commitInitialFree *)
Definition commitInitialFree (slot : nat) (r : NodeRecord) : M bool :=
  match encodeNodeRecord r (Some (zeros NODE_RECORD_SIZE)) with
  | (OK, Some encoded) =>
      verified <~ writeVerify slot A encoded ;;
      if negb verified then ret false else
      update (set_slot slot (mkSlot true r A)) ;;;
      ret true
  | _ => failBool STATUS_STORAGE_FAILURE
  end.

(** The last checks of [commitMutation]: the two copies are read again and
    must select the new record. *)
(* node_event_store.h:411-428 = commitMutation, from the second read *)
Definition confirmMutation (slot : nat) (active target : CopySlot) (r : NodeRecord) : M bool :=
  old <~ readRecordCopy slot active ;;
  let (okOld, oldCopy) := (old : bool * FixedCopy) in
  if negb okOld then ret false else
  new <~ readRecordCopy slot target ;;
  let (okNew, newCopy) := (new : bool * FixedCopy) in
  if negb okNew then ret false else
  let '(selection, selected, selectedSlot) :=
    selectRecords (if bool_decide (active = A) then oldCopy else newCopy)
      (if bool_decide (active = A) then newCopy else oldCopy) in
  accepted <~ acceptSelection selection ;;
  if negb accepted || negb (bool_decide (selectedSlot = target))
     || negb (nr_generation selected =? nr_generation r)
  then failBool STATUS_STORAGE_FAILURE
  else
  update (set_slot slot (mkSlot true r target)) ;;;
  ret true.

(* node_event_store.h:404-429 Store::commitMutation *)
Definition commitMutation (slot : nat) (r : NodeRecord) : M bool :=
  match encodeNodeRecord r (Some (zeros NODE_RECORD_SIZE)) with
  | (OK, Some encoded) =>
      active <~ this (λ s, activeCopy (slot_at s slot)) ;;
      let target := opposite active in
      verified <~ writeVerify slot target encoded ;;
      if negb verified then ret false else confirmMutation slot active target r
  | _ => failBool STATUS_STORAGE_FAILURE
  end.

(** The inner loop of [rebuildIndex]: does a slot below [slot] own the same
    identity? *)
(* node_event_store.h:504-510 = rebuildIndex, the inner loop *)
Fixpoint duplicateBelow (n : nat) (other slot : nat) (s : Store) : bool :=
  match n with
  | O => false
  | S m =>
      if negb (present (slot_at s other)) || (nr_state (record_at s other) =? NodeState.FREE)
      then duplicateBelow m (S other) slot s
      else if (nr_eventEpoch (record_at s other) =? nr_eventEpoch (record_at s slot))
              && (nr_eventId (record_at s other) =? nr_eventId (record_at s slot))
      then true
      else duplicateBelow m (S other) slot s
  end.

(* node_event_store.h:502-512 = rebuildIndex, the loop over slots *)
Fixpoint indexSlots (n : nat) (slot : nat) : M bool :=
  match n with
  | O => ret true
  | S m =>
      s <~ this id ;;
      if negb (present (slot_at s slot)) || (nr_state (record_at s slot) =? NodeState.FREE)
      then indexSlots m (S slot)
      else if duplicateBelow slot 0 slot s then failBool DUPLICATE_IDENTITY
      else
      update (λ s,
        if nr_state (record_at s slot) =? NodeState.QUEUED
        then s <| queue_ := <[queueCount_ s := slot]> (queue_ s) |>
               <| queueCount_ := S (queueCount_ s) |>
        else s) ;;;
      indexSlots m (S slot)
  end.

(** The loop that moves larger entries up and stores [value]. *)
(* node_event_store.h:516-521 = rebuildIndex, the insertion *)
Fixpoint insertDown (position : nat) (value : nat) (s : Store) : Store :=
  match position with
  | O => s <| queue_ := <[0%nat := value]> (queue_ s) |>
  | S p =>
      if identityLess (record_at s value) (record_at s (queue_at s p))
      then insertDown p value (s <| queue_ := <[S p := queue_at s p]> (queue_ s) |>)
      else s <| queue_ := <[S p := value]> (queue_ s) |>
  end.

(* node_event_store.h:513-522 = rebuildIndex, the insertion sort *)
Fixpoint sortQueue (n : nat) (i : nat) (s : Store) : Store :=
  match n with
  | O => s
  | S m => sortQueue m (S i) (insertDown i (queue_at s i) s)
  end.

(* node_event_store.h:500-524 Store::rebuildIndex *)
Definition rebuildIndex : M bool :=
  update (λ s, s <| queueCount_ := 0%nat |>) ;;;
  indexed <~ indexSlots NODE_EVENT_CAPACITY 0 ;;
  if negb indexed then ret false else
  update (λ s, sortQueue (queueCount_ s - 1) 1 s) ;;;
  ret true.

(** The loop of [recover] over the slots; [None] is an early return, otherwise
    [allCopiesMissing] and [anyNonempty]. *)
(* node_event_store.h:106-132 = recover, the first loop *)
Fixpoint recoverSlots (n : nat) (slot : nat) (allCopiesMissing anyNonempty : bool)
    : M (option (bool * bool)) :=
  match n with
  | O => ret (Some (allCopiesMissing, anyNonempty))
  | S m =>
      ra <~ readRecordCopy slot A ;;
      let (okA, copyA) := (ra : bool * FixedCopy) in
      if negb okA then ret None else
      rb <~ readRecordCopy slot B ;;
      let (okB, copyB) := (rb : bool * FixedCopy) in
      if negb okB then ret None else
      let allCopiesMissing :=
        if negb (bool_decide (EventStorage.status copyA = READ_MISSING))
           || negb (bool_decide (EventStorage.status copyB = READ_MISSING))
        then false else allCopiesMissing in
      let '(selection, selected, selectedCopy) := selectRecords copyA copyB in
      accepted <~ acceptSelection selection ;;
      if negb accepted then ret None else
      if bool_decide (selection = BOTH_INVALID) then
        update (λ s, set_slot slot ((slot_at s slot) <| present := false |>) s) ;;;
        recoverSlots m (S slot) allCopiesMissing anyNonempty
      else
      update (set_slot slot (mkSlot true selected selectedCopy)) ;;;
      recoverSlots m (S slot) allCopiesMissing
        (if negb (nr_state selected =? NodeState.FREE) then true else anyNonempty)
  end.

(* node_event_store.h:135-140 = recover, initialising every slot *)
Fixpoint initializeSlots (n : nat) (slot : nat) : M bool :=
  match n with
  | O => ret true
  | S m =>
      done <~ commitInitialFree slot (zeroNodeRecord <| nr_generation := 1 |>
                                                     <| nr_state := NodeState.FREE |>) ;;
      if negb done then ret false else initializeSlots m (S slot)
  end.

(* node_event_store.h:142-144 = recover, checking every slot *)
Fixpoint checkSlots (n : nat) (slot : nat) : M bool :=
  match n with
  | O => ret true
  | S m =>
      s <~ this id ;;
      if negb (present (slot_at s slot)) then failBool INDETERMINATE_SLOT
      else checkSlots m (S slot)
  end.

(* node_event_store.h:92-167 Store::recover *)
Definition recover (configuredSourceDeviceId : Z) : M Status :=
  update reset ;;;
  update (λ s, s <| sourceDeviceId_ := configuredSourceDeviceId |>) ;;;
  if configuredSourceDeviceId =? 0 then fail INVALID_SOURCE_DEVICE_ID else
  scanned <~ recoverSlots NODE_EVENT_CAPACITY 0 true false ;;
  match scanned with
  | None => this status_
  | Some (allCopiesMissing, anyNonempty) =>
      complete <~ (if (allCopiesMissing : bool) then initializeSlots NODE_EVENT_CAPACITY 0
                   else checkSlots NODE_EVENT_CAPACITY 0) ;;
      if negb complete then this status_ else
      let custody :=
        if (anyNonempty : bool) then EventIdentity.CUSTODY_NONEMPTY
        else EventIdentity.CUSTODY_EMPTY in
      identityStatus <~ on_allocator (EventIdentity.recover configuredSourceDeviceId custody) ;;
      if negb (bool_decide (identityStatus = EventIdentity.READY)) then
        update (λ s, s <| identityStatus_ := identityStatus |>) ;;;
        fail STATUS_IDENTITY_FAILURE
      else
      indexed <~ rebuildIndex ;;
      if negb indexed then this status_ else
      update (λ s, s <| healthy_ := true |> <| status_ := READY |>) ;;;
      count <~ this queueCount_ ;;
      note RuntimeState.EVENT_RECOVERED (u32 (Z.of_nat count)) ;;;
      updateQueueSnapshot ;;;
      this status_
  end.

(** The first slot whose record is FREE, or 0xFF. *)
(* node_event_store.h:178-184 = enqueue, the search *)
Fixpoint findFree (n : nat) (slot : nat) (s : Store) : nat :=
  match n with
  | O => 255%nat
  | S m => if nr_state (record_at s slot) =? NodeState.FREE then slot else findFree m (S slot) s
  end.

Definition noIdentity : EventProtocol.Identity := EventProtocol.mkIdentity 0 0 0.

(** The record [enqueue] builds. *)
(* node_event_store.h:201-212 = enqueue, the record *)
Definition enqueuedRecord (previous : NodeRecord) (identity : EventProtocol.Identity)
    (input : EventInput) : NodeRecord :=
  mkNodeRecord (u32 (nr_generation previous + 1)) NodeState.QUEUED (in_flags input)
    (in_family input) (in_bodyLength input) (EventProtocol.identityEpoch identity)
    (EventProtocol.identityId identity) (in_lifetimeBudgetSeconds input)
    (in_lifetimeBudgetSeconds input) 0
    (copy_bytes (Z.to_nat (in_bodyLength input)) (nr_body zeroNodeRecord) 0 (in_body input) 0).

(* node_event_store.h:169-230 Store::enqueue *)
Definition enqueue (input : EventInput) : M EnqueueResult :=
  let result status := ret (mkEnqueueResult status noIdentity 255%nat) in
  healthy <~ this healthy_ ;;
  if negb healthy then result ENQUEUE_DEGRADED else
  if negb (validInput input) then result ENQUEUE_INVALID_EVENT else
  freeSlot <~ this (findFree NODE_EVENT_CAPACITY 0) ;;
  if (freeSlot =? 255)%nat then
    note RuntimeState.QUEUE_FULL_REJECTED 1 ;;;
    result QUEUE_FULL
  else
  allocation <~ on_allocator EventIdentity.allocate ;;
  if negb (bool_decide (EventIdentity.result_status allocation = EventIdentity.READY)) then
    update (λ s, s <| identityStatus_ := EventIdentity.result_status allocation |>
                   <| healthy_ := false |> <| status_ := STATUS_IDENTITY_FAILURE |>) ;;;
    persistenceFailure ;;;
    result ENQUEUE_IDENTITY_FAILURE
  else
  let identity := EventIdentity.result_identity allocation in
  previous <~ this (λ s, record_at s freeSlot) ;;
  committed <~ commitMutation freeSlot (enqueuedRecord previous identity input) ;;
  if negb committed then
    persistenceFailure ;;;
    result ENQUEUE_STORAGE_FAILURE
  else
  indexed <~ rebuildIndex ;;
  if negb indexed then
    persistenceFailure ;;;
    result ENQUEUE_STORAGE_FAILURE
  else
  note RuntimeState.ENQUEUE_ACCEPTED 1 ;;;
  updateQueueSnapshot ;;;
  ret (mkEnqueueResult ENQUEUED identity freeSlot).

(** A commit and the index after it. *)
Definition commitAndIndex (slot : nat) (next : NodeRecord) : M MutationStatus :=
  committed <~ commitMutation slot next ;;
  if negb committed then ret MUTATION_STORAGE_FAILURE else
  indexed <~ rebuildIndex ;;
  if negb indexed then ret MUTATION_STORAGE_FAILURE else ret MUTATION_OK.

(* node_event_store.h:463-474 Store::transition *)
Definition transition (slot : nat) (from to : Z) : M MutationStatus :=
  healthy <~ this healthy_ ;;
  if negb healthy then ret MUTATION_DEGRADED else
  if (NODE_EVENT_CAPACITY <=? slot)%nat then ret MUTATION_INVALID_SLOT else
  current <~ this (λ s, record_at s slot) ;;
  if negb (nr_state current =? from) then ret INVALID_TRANSITION else
  commitAndIndex slot
    (current <| nr_generation := u32 (nr_generation current + 1) |> <| nr_state := to |>).

(* node_event_store.h:476-483 Store::makeFree *)
Definition makeFree (slot : nat) : M MutationStatus :=
  current <~ this (λ s, record_at s slot) ;;
  commitAndIndex slot
    (zeroNodeRecord <| nr_generation := u32 (nr_generation current + 1) |>
                    <| nr_state := NodeState.FREE |>).

(* node_event_store.h:232-239 Store::markFailed *)
Definition markFailed (slot : nat) : M MutationStatus :=
  result <~ transition slot NodeState.QUEUED NodeState.FAILED ;;
  (if bool_decide (result = MUTATION_OK) then
     note RuntimeState.ATTEMPT_EXHAUSTED 1 ;;; updateQueueSnapshot
   else if bool_decide (result = MUTATION_STORAGE_FAILURE) then persistenceFailure
   else ret tt) ;;;
  ret result.

(* node_event_store.h:240-247 Store::markExpired *)
Definition markExpired (slot : nat) : M MutationStatus :=
  result <~ transition slot NodeState.QUEUED NodeState.EXPIRED ;;
  (if bool_decide (result = MUTATION_OK) then
     note RuntimeState.EVENT_EXPIRED 1 ;;; updateQueueSnapshot
   else if bool_decide (result = MUTATION_STORAGE_FAILURE) then persistenceFailure
   else ret tt) ;;;
  ret result.

(* node_event_store.h:248-259 Store::reclaim *)
Definition reclaim (slot : nat) : M MutationStatus :=
  healthy <~ this healthy_ ;;
  if negb healthy then ret MUTATION_DEGRADED else
  if (NODE_EVENT_CAPACITY <=? slot)%nat then ret MUTATION_INVALID_SLOT else
  state <~ this (λ s, nr_state (record_at s slot)) ;;
  if negb (state =? NodeState.FAILED) && negb (state =? NodeState.EXPIRED)
  then ret INVALID_TRANSITION else
  result <~ makeFree slot ;;
  (if bool_decide (result = MUTATION_STORAGE_FAILURE) then persistenceFailure else ret tt) ;;;
  ret result.

(* node_event_store.h:260-270 Store::releaseQueued *)
Definition releaseQueued (slot : nat) : M MutationStatus :=
  healthy <~ this healthy_ ;;
  if negb healthy then ret MUTATION_DEGRADED else
  if (NODE_EVENT_CAPACITY <=? slot)%nat then ret MUTATION_INVALID_SLOT else
  state <~ this (λ s, nr_state (record_at s slot)) ;;
  if negb (state =? NodeState.QUEUED) then ret INVALID_TRANSITION else
  result <~ makeFree slot ;;
  (if bool_decide (result = MUTATION_OK) then updateQueueSnapshot
   else if bool_decide (result = MUTATION_STORAGE_FAILURE) then persistenceFailure
   else ret tt) ;;;
  ret result.

(* node_event_store.h:272-292 Store::checkpointRemaining *)
Definition checkpointRemaining (slot : nat) (remaining : Z) : M MutationStatus :=
  healthy <~ this healthy_ ;;
  if negb healthy then ret MUTATION_DEGRADED else
  if (NODE_EVENT_CAPACITY <=? slot)%nat then ret MUTATION_INVALID_SLOT else
  current <~ this (λ s, record_at s slot) ;;
  if negb (nr_state current =? NodeState.QUEUED) || (remaining =? 0)
     || (remainingActiveSeconds current <=? remaining) then ret INVALID_TRANSITION else
  committed <~ commitMutation slot
    (current <| nr_generation := u32 (nr_generation current + 1) |>
             <| remainingActiveSeconds := remaining |>) ;;
  if negb committed then
    persistenceFailure ;;;
    ret MUTATION_STORAGE_FAILURE
  else ret MUTATION_OK.

(* node_event_store.h:294-313 Store::armAttempt *)
Definition armAttempt (slot : nat) : M AttemptStatus :=
  healthy <~ this healthy_ ;;
  if negb healthy then ret ATTEMPT_DEGRADED else
  if (NODE_EVENT_CAPACITY <=? slot)%nat then ret ATTEMPT_INVALID_SLOT else
  current <~ this (λ s, record_at s slot) ;;
  if negb (nr_state current =? NodeState.QUEUED) then ret NOT_QUEUED else
  if MAX_ATTEMPTS <=? attemptsUsed current then ret EXHAUSTED else
  committed <~ commitMutation slot
    (current <| nr_generation := u32 (nr_generation current + 1) |>
             <| attemptsUsed := u8 (attemptsUsed current + 1) |>) ;;
  if negb committed then
    persistenceFailure ;;;
    ret ATTEMPT_STORAGE_FAILURE
  else
  note RuntimeState.EVENT_ATTEMPT 1 ;;;
  ret ARMED.

End Methods.

End NodeEventStore.
