(* ===== verification/NodeQueue.v ===== *)
(** The queue index of the Node event store: what [rebuildIndex] of
    lib/node_event_store computes.  The insertion sort of the source is related
    to a permutation in identity order. *)

From S2P Require Import Prelude Wire EventWire Copies Records Identity Diagnostics NodeStore.

Module NodeQueue.

Import EventStorage EventRecords NodeEventStore.

(** [later x y]: slot [y] does not come before slot [x]. *)
Definition later (s : Store) (x y : nat) : Prop :=
  identityLess (record_at s y) (record_at s x) = false.

Definition queued (s : Store) (slot : nat) : bool :=
  present (slot_at s slot) && (nr_state (record_at s slot) =? NodeState.QUEUED).

Definition queuedSlots (s : Store) : list nat :=
  filter (λ i, queued s i = true) (seq 0 NODE_EVENT_CAPACITY).

(** The queue as a list of slots. *)
Definition queueList (s : Store) : list nat := take (queueCount_ s) (queue_ s).

(** The index is right: it lists the queued slots, oldest identity first. *)
Definition indexed (s : Store) : Prop :=
  queueList s ≡ₚ queuedSlots s ∧ StronglySorted (later s) (queueList s)
  ∧ length (queue_ s) = NODE_EVENT_CAPACITY ∧ (queueCount_ s ≤ NODE_EVENT_CAPACITY)%nat.

(** Two slots own one identity. *)
Definition sameIdentity (s : Store) (i j : nat) : Prop :=
  nr_eventEpoch (record_at s i) = nr_eventEpoch (record_at s j)
  ∧ nr_eventId (record_at s i) = nr_eventId (record_at s j).

Definition distinctIdentities (s : Store) : Prop :=
  ∀ i j, (i < j < NODE_EVENT_CAPACITY)%nat → owned (slot_at s i) = true →
    owned (slot_at s j) = true → ¬ sameIdentity s i j.

(** ** The order *)

Lemma identityLess_spec l r :
  identityLess l r = true ↔
  nr_eventEpoch l < nr_eventEpoch r
  ∨ nr_eventEpoch l = nr_eventEpoch r ∧ nr_eventId l < nr_eventId r.
Proof. unfold identityLess. zbool. done. Qed.

Lemma later_spec s x y :
  later s x y ↔
  nr_eventEpoch (record_at s x) < nr_eventEpoch (record_at s y)
  ∨ nr_eventEpoch (record_at s x) = nr_eventEpoch (record_at s y)
    ∧ nr_eventId (record_at s x) ≤ nr_eventId (record_at s y).
Proof.
  unfold later. rewrite <- not_true_iff_false, identityLess_spec. lia.
Qed.

Lemma later_trans s x y z : later s x y → later s y z → later s x z.
Proof. rewrite !later_spec. lia. Qed.

Lemma less_later s x y :
  identityLess (record_at s x) (record_at s y) = true → later s x y.
Proof. rewrite identityLess_spec, later_spec. lia. Qed.

(** ** The insertion sort, on the queue alone *)

Section Sort.

Context (less : nat → nat → bool).

Fixpoint ins (position value : nat) (q : list nat) : list nat :=
  match position with
  | O => <[0%nat := value]> q
  | S p =>
      if less value (nth p q 0%nat) then ins p value (<[S p := nth p q 0%nat]> q)
      else <[S p := value]> q
  end.

Fixpoint isort (n i : nat) (q : list nat) : list nat :=
  match n with
  | O => q
  | S m => isort m (S i) (ins i (nth i q 0%nat) q)
  end.

Lemma nth_lookup_nat (q : list nat) i : (i < length q)%nat → q !! i = Some (nth i q 0%nat).
Proof.
  intros [x Hx]%lookup_lt_is_Some. rewrite Hx. by erewrite nth_lookup_Some.
Qed.

(** The insertion splits the entries before [position]. *)
Lemma ins_split p v q :
  (p < length q)%nat →
  ∃ l1 l2, take p q = l1 ++ l2 ∧ ins p v q = l1 ++ v :: l2 ++ drop (S p) q
    ∧ Forall (λ x, less v x = true) l2
    ∧ (∀ l x, l1 = l ++ [x] → less v x = false).
Proof.
  revert q. induction p as [|p IH]; intros q Hp; cbn [ins].
  - exists [], []. destruct q as [|a q]; [simpl in Hp; lia|].
    split_and!; [done..|]. intros l x. by destruct l.
  - set (y := nth p q 0%nat).
    assert (Hy : q !! p = Some y) by (apply nth_lookup_nat; lia).
    rewrite (take_S_r _ _ _ Hy). destruct (less v y) eqn:Hl.
    + destruct (IH (<[S p := y]> q)) as (l1 & l2 & E1 & E2 & H2 & H1); [rewrite length_insert; lia|].
      exists l1, (l2 ++ [y]). rewrite take_insert_ge in E1 by lia.
      split_and!; [by rewrite E1, app_assoc| |apply Forall_app; by repeat constructor|done].
      rewrite E2. rewrite (drop_S _ y) by (apply list_lookup_insert_eq; lia).
      rewrite drop_insert_lt by lia. by rewrite <- app_assoc.
    + exists (take p q ++ [y]), []. rewrite app_nil_r. split_and!; [done| |done|].
      * rewrite <- (take_S_r _ _ _ Hy). simpl. by apply insert_take_drop.
      * intros l x [_ [= <-]]%app_inj_tail_iff. done.
Qed.

Context (R : nat → nat → Prop) (R_trans : ∀ x y z, R x y → R y z → R x z)
  (R_less : ∀ x y, less x y = true → R x y) (R_not : ∀ x y, less x y = false → R y x).

Lemma sorted_split l1 l2 v :
  StronglySorted R (l1 ++ l2) → Forall (R v) l2 → (∀ l x, l1 = l ++ [x] → R x v) →
  StronglySorted R (l1 ++ v :: l2).
Proof.
  intros Hs Hv Hx. induction l1 as [|a l1 IH]; simpl in *.
  - by constructor.
  - apply StronglySorted_inv in Hs as [Hs Ha].
    assert (Hlast : ∀ l x, l1 = l ++ [x] → R x v).
    { intros l x ->. by apply (Hx (a :: l)). }
    constructor; [by apply IH|]. apply Forall_app in Ha as [Ha1 Ha2].
    apply Forall_app. split; [done|]. constructor; [|done].
    destruct (decide (l1 = [])) as [->|Hne].
    + by apply (Hx []).
    + destruct (exists_last Hne) as (l & x & ->). eapply R_trans; [|by eapply Hlast].
      apply Forall_app in Ha1 as [_ Ha1]. by rewrite Forall_singleton in Ha1.
Qed.

Lemma ins_sorted p q :
  (p < length q)%nat → StronglySorted R (take p q) →
  let q' := ins p (nth p q 0%nat) q in
  take (S p) q' ≡ₚ take (S p) q ∧ StronglySorted R (take (S p) q')
  ∧ drop (S p) q' = drop (S p) q ∧ length q' = length q.
Proof.
  intros Hp Hs q'. set (v := nth p q 0%nat) in *.
  assert (Hv : q !! p = Some v) by by apply nth_lookup_nat.
  destruct (ins_split p v q Hp) as (l1 & l2 & E1 & E2 & H2 & H1).
  assert (Hlen : length (l1 ++ v :: l2) = S p).
  { assert (length (l1 ++ l2) = p) by (rewrite <- E1, length_take; lia).
    rewrite length_app in *. simpl. lia. }
  subst q'. assert (E3 : ins p v q = (l1 ++ v :: l2) ++ drop (S p) q) by by rewrite E2, <- app_assoc.
  rewrite E3, take_app_length', drop_app_length' by done. split_and!; [| |done|].
  - rewrite (take_S_r _ _ _ Hv), E1. rewrite <- app_assoc. apply Permutation_app_head.
    by rewrite Permutation_app_comm.
  - apply sorted_split; [by rewrite <- E1| |].
    + eapply Forall_impl; [exact H2|]. intros x. apply R_less.
    + intros l x E. apply R_not. by eapply H1.
  - rewrite length_app, Hlen, length_drop. lia.
Qed.

Lemma isort_sorted n i q :
  (i + n ≤ length q)%nat → StronglySorted R (take i q) →
  take (i + n) (isort n i q) ≡ₚ take (i + n) q
  ∧ StronglySorted R (take (i + n) (isort n i q)) ∧ length (isort n i q) = length q.
Proof.
  revert i q. induction n as [|n IH]; intros i q Hlen Hs; cbn [isort].
  - by rewrite Nat.add_0_r.
  - destruct (ins_sorted i q) as (Hp & Hs' & Hd & Hl); [lia|done|].
    set (q' := ins i (nth i q 0%nat) q) in *.
    destruct (IH (S i) q') as (Hp2 & Hs2 & Hl2); [lia|done|].
    rewrite Nat.add_succ_r. split_and!; [|done|by rewrite Hl2].
    etrans; [exact Hp2|]. change (S i + n)%nat with (S (i + n)).
    rewrite <- (take_drop (S i) (take (S (i + n)) q')), <- (take_drop (S i) (take (S (i + n)) q)).
    rewrite !take_take, !skipn_firstn_comm, Hd. rewrite !Nat.min_l by lia.
    by rewrite Hp.
Qed.

End Sort.

(** ** The source's loops *)

Definition less_at (s : Store) (x y : nat) : bool :=
  identityLess (record_at s x) (record_at s y).

Definition with_queue (q : list nat) (s : Store) : Store := s <| queue_ := q |>.

Lemma insertDown_ins p v s : insertDown p v s = with_queue (ins (less_at s) p v (queue_ s)) s.
Proof.
  revert s. induction p as [|p IH]; intros s; cbn [insertDown ins]; [done|].
  change (identityLess (record_at s v) (record_at s (queue_at s p)))
    with (less_at s v (nth p (queue_ s) 0%nat)).
  destruct (less_at s v _); [|done]. by rewrite IH.
Qed.

Lemma sortQueue_isort n i s : sortQueue n i s = with_queue (isort (less_at s) n i (queue_ s)) s.
Proof.
  revert i s. induction n as [|n IH]; intros i s; cbn [sortQueue isort]; [by destruct s|].
  rewrite insertDown_ins, IH. done.
Qed.

Lemma duplicateBelow_false n other slot s :
  owned (slot_at s slot) = true → duplicateBelow n other slot s = false →
  ∀ i, (other ≤ i < other + n)%nat → owned (slot_at s i) = true → ¬ sameIdentity s i slot.
Proof.
  intros Hs. revert other. induction n as [|n IH]; intros other H i Hi Ho; [lia|].
  cbn [duplicateBelow] in H. change (record (slot_at s other)) with (record_at s other) in *.
  destruct (decide (i = other)) as [->|Hne].
  - unfold owned in Ho. change (record (slot_at s other)) with (record_at s other) in Ho.
    destruct (present (slot_at s other)), (nr_state (record_at s other) =? NodeState.FREE); try done.
    bsimp. revert H. bsimp. unfold sameIdentity.
    destruct (Z.eqb_spec (nr_eventEpoch (record_at s other)) (nr_eventEpoch (record_at s slot)));
      destruct (Z.eqb_spec (nr_eventId (record_at s other)) (nr_eventId (record_at s slot)));
      bsimp; try done; tauto.
  - destruct (negb _ || _); [|destruct (_ && _); [done|]]; (eapply IH; [exact H|lia|done]).
Qed.

Lemma duplicateBelow_true n other slot s :
  duplicateBelow n other slot s = true →
  ∃ i, (other ≤ i < other + n)%nat ∧ owned (slot_at s i) = true ∧ sameIdentity s i slot.
Proof.
  revert other. induction n as [|n IH]; intros other H; [done|].
  cbn [duplicateBelow] in H.
  destruct (negb (present (slot_at s other)) || _) eqn:Ho.
  - destruct (IH _ H) as (i & ? & ?). exists i. split; [lia|done].
  - destruct ((_ =? _) && (_ =? _)) eqn:E.
    + exists other. split; [lia|]. unfold owned, sameIdentity.
      change (record (slot_at s other)) with (record_at s other). zbool.
      tauto.
    + destruct (IH _ H) as (i & ? & ?). exists i. split; [lia|done].
Qed.

Section Index.

Context {W : Type}.

Implicit Types (s : Store) (w : W).

Definition with_index (q : list nat) (n : nat) (s : Store) : Store :=
  s <| queue_ := q |> <| queueCount_ := n |>.

Definition failed (status : Status) (s : Store) : Store :=
  s <| healthy_ := false |> <| status_ := status |>.

Lemma with_index_id s : with_index (queue_ s) (queueCount_ s) s = s.
Proof. by destruct s. Qed.

Lemma indexSlots_spec n slot s w :
  (slot + n = 8)%nat → length (queue_ s) = 8%nat → (queueCount_ s ≤ slot)%nat →
  ∃ q c, length q = 8%nat ∧
   ((indexSlots n slot (s, w) = (true, (with_index q c s, w))
     ∧ (c ≤ 8)%nat
     ∧ take c q = take (queueCount_ s) (queue_ s)
         ++ filter (λ i, queued s i = true) (seq slot n)
     ∧ ∀ i j, (i < j)%nat → (slot ≤ j < 8)%nat → owned (slot_at s i) = true →
         owned (slot_at s j) = true → ¬ sameIdentity s i j)
    ∨ (indexSlots n slot (s, w) = (false, (failed DUPLICATE_IDENTITY (with_index q c s), w))
       ∧ ∃ i j, (i < j < 8)%nat ∧ owned (slot_at s i) = true ∧ owned (slot_at s j) = true
           ∧ sameIdentity s i j)).
Proof.
  revert slot s. induction n as [|n IH]; intros slot s Hn Hq Hc.
  { exists (queue_ s), (queueCount_ s). split; [done|]. left. cbn. rewrite with_index_id, app_nil_r.
    split_and!; [done|lia|done|intros; lia]. }
  cbn [indexSlots]. object. cbn [id].
  destruct (negb (present (slot_at s slot)) || (nr_state (record_at s slot) =? NodeState.FREE))
    eqn:Hown.
  - assert (Hno : owned (slot_at s slot) = false).
    { unfold owned. change (record (slot_at s slot)) with (record_at s slot).
      destruct (present (slot_at s slot)), (nr_state (record_at s slot) =? NodeState.FREE); done. }
    assert (Hnq : queued s slot = false).
    { unfold queued. destruct (present (slot_at s slot)); [|done]. simpl in *.
      apply Z.eqb_eq in Hown. rewrite Hown. done. }
    destruct (IH (S slot) s) as (q & c & Hlq & [(E & Hc8 & Ht & Hd)|(E & i & j & Hij & Hi & Hj & Hs)]);
      [lia|done|lia| |].
    + exists q, c. split; [done|]. left. split; [done|]. split; [done|]. split.
      * simpl seq. rewrite filter_cons_False by (rewrite Hnq; done). done.
      * intros i j Hlt Hj Hoi Hoj. destruct (decide (j = slot)) as [->|]; [congruence|].
        apply Hd; [done|lia|done|done].
    + exists q, c. split; [done|]. right. split; [done|]. eauto 10.
  - assert (Ho : owned (slot_at s slot) = true).
    { unfold owned. change (record (slot_at s slot)) with (record_at s slot).
      destruct (present (slot_at s slot)), (nr_state (record_at s slot) =? NodeState.FREE); done. }
    destruct (duplicateBelow slot 0 slot s) eqn:Hdup.
    { exists (queue_ s), (queueCount_ s). split; [done|]. right.
      apply duplicateBelow_true in Hdup as (i & Hi & Hoi & Hs).
      split; [by rewrite with_index_id|]. exists i, slot. split_and!; try done; lia. }
    pose proof (duplicateBelow_false slot 0 slot s Ho Hdup) as Hnd.
    assert (Hp : present (slot_at s slot) = true) by (unfold owned in Ho; by apply andb_true_iff in Ho as [-> _]).
    cbn [fst snd]. destruct (nr_state (record_at s slot) =? NodeState.QUEUED) eqn:Hqd.
    + assert (Hqs : queued s slot = true) by (unfold queued; by rewrite Hp, Hqd).
      set (s1 := s <| queue_ := <[queueCount_ s := slot]> (queue_ s) |> <| queueCount_ := S (queueCount_ s) |>).
      destruct (IH (S slot) s1) as (q & c & Hlq & [(E & Hc8 & Ht & Hd)|(E & i & j & Hij & Hi & Hj & Hs)]);
        [lia|unfold s1, rec_set; cbn; by rewrite length_insert|unfold s1, rec_set; cbn; lia| |].
      * exists q, c. split; [done|]. left. split; [done|]. split; [done|]. split.
        -- rewrite Ht. unfold s1, rec_set. cbn [queue_ queueCount_].
           rewrite (take_S_r _ _ slot) by (apply list_lookup_insert_eq; lia).
           rewrite take_insert_ge by lia. simpl seq.
           rewrite filter_cons_True by done. by rewrite <- app_assoc.
        -- intros i j Hlt Hj Hoi Hoj. destruct (decide (j = slot)) as [->|].
           ++ apply Hnd; [lia|done].
           ++ apply (Hd i j); [done|lia|done|done].
      * exists q, c. split; [done|]. right. split; [done|]. by exists i, j.
    + assert (Hqs : queued s slot = false) by (unfold queued; by rewrite Hp, Hqd).
      destruct (IH (S slot) s) as (q & c & Hlq & [(E & Hc8 & Ht & Hd)|(E & i & j & Hij & Hi & Hj & Hs)]);
        [lia|done|lia| |].
      * exists q, c. split; [done|]. left. split; [done|]. split; [done|]. split.
        -- simpl seq. by rewrite filter_cons_False by (rewrite Hqs; done).
        -- intros i j Hlt Hj Hoi Hoj. destruct (decide (j = slot)) as [->|].
           ++ apply Hnd; [lia|done].
           ++ apply (Hd i j); [done|lia|done|done].
      * exists q, c. split; [done|]. right. split; [done|]. by exists i, j.
Qed.

(** [rebuildIndex] indexes a queue without duplicates, and refuses any other. *)
Lemma rebuildIndex_cases `{EventIdentity.MetadataStorage W} s w :
  length (queue_ s) = 8%nat →
  ∃ q c, length q = 8%nat ∧
    ((rebuildIndex (s, w) = (true, (with_index q c s, w)) ∧ indexed (with_index q c s)
      ∧ distinctIdentities s)
     ∨ (rebuildIndex (s, w) = (false, (failed DUPLICATE_IDENTITY (with_index q c s), w))
        ∧ ¬ distinctIdentities s)).
Proof.
  intros Hq. unfold rebuildIndex. object.
  set (s0 := s <| queueCount_ := 0%nat |>).
  destruct (indexSlots_spec 8 0 s0 w) as
    (q & c & Hlq & [(E & Hc & Ht & Hd)|(E & i & j & Hij & Hi & Hj & Hs)]); [done..| |].
  - change NODE_EVENT_CAPACITY with 8%nat. rewrite E. bsimp. rewrite sortQueue_isort.
    set (s1 := with_index q c s0) in *.
    change (queueCount_ s1) with c. change (queue_ s1) with q.
    exists (isort (less_at s1) (c - 1) 1 q), c.
    destruct (isort_sorted (less_at s1) (later s1) (later_trans s1) (less_later s1)
      ltac:(done) (c - 1) 1 q) as (Hp & Hs & Hl).
    + lia.
    + destruct q as [|a q]; [done|]. repeat constructor.
    + rewrite Hl. split; [done|]. left. split; [done|]. split.
      * cbn [queueCount_ queue_ s0 rec_set] in Ht. rewrite take_0 in Ht. simpl app in Ht.
        unfold indexed, queueList, with_index, rec_set. cbn [queueCount_ queue_].
        destruct c as [|c].
        { cbn [Nat.sub isort]. rewrite take_0 in *.
          split_and!; [|constructor|done|unfold NODE_EVENT_CAPACITY; lia].
          change ([] ≡ₚ filter (λ i, queued s0 i = true) (seq 0 8)). simpl seq.
          by rewrite <- Ht. }
        replace (1 + (S c - 1))%nat with (S c) in Hp, Hs by lia.
        split_and!; [|exact Hs|by rewrite Hl|done]. rewrite Hp, Ht. done.
      * unfold distinctIdentities, NODE_EVENT_CAPACITY. intros i j Hij Hi Hj. apply (Hd i j); [lia|lia|done|done].
  - exists q, c. split; [done|]. right. change NODE_EVENT_CAPACITY with 8%nat. rewrite E.
    split; [done|]. intros Hd. by apply (Hd i j Hij Hi Hj).
Qed.

Lemma sorted_lookup {A} (R : A → A → Prop) l k k' x y :
  StronglySorted R l → (k < k')%nat → l !! k = Some x → l !! k' = Some y → R x y.
Proof.
  intros Hs. revert k k'. induction Hs as [|a l Hs IH Ha]; intros k k' Hk Hx Hy; [done|].
  destruct k' as [|k']; [lia|]. destruct k as [|k]; simpl in *.
  - injection Hx as ->. rewrite Forall_lookup in Ha. by eapply Ha.
  - by eapply (IH k k'); [lia|..].
Qed.

Lemma queuedAt_lookup s k r i :
  (queueCount_ s ≤ length (queue_ s))%nat →
  queuedAt k s = Some (r, i) ↔ queueList s !! k = Some i ∧ r = record_at s i.
Proof.
  intros Hc. unfold queuedAt, queueList, queue_at.
  destruct (Nat.leb_spec (queueCount_ s) k) as [Hk|Hk].
  - rewrite lookup_take_ge by done. split; [done|]. by intros [? _].
  - rewrite lookup_take_lt by done. rewrite nth_lookup_nat by lia.
    split; [by intros [= <- <-]|]. by intros [[= ->] ->].
Qed.

Lemma queuedSlots_in s i : i ∈ queuedSlots s ↔ (i < 8)%nat ∧ queued s i = true.
Proof.
  unfold queuedSlots. rewrite list_elem_of_filter, elem_of_seq.
  unfold NODE_EVENT_CAPACITY. split; intros [G1 G2]; (split; [lia|done]) || (split; [done|lia]).
Qed.

Lemma queued_owned s i : queued s i = true → owned (slot_at s i) = true.
Proof.
  unfold queued, owned, record_at. destruct (present _); [|done]. simpl.
  intros ->%Z.eqb_eq. done.
Qed.

Lemma distinct_any s i j :
  distinctIdentities s → i ≠ j → (i < 8)%nat → (j < 8)%nat →
  owned (slot_at s i) = true → owned (slot_at s j) = true → ¬ sameIdentity s i j.
Proof.
  intros Hd Hne Hi Hj Ho1 Ho2 Hs. unfold distinctIdentities, NODE_EVENT_CAPACITY in Hd.
  destruct (decide (i < j)%nat); [by apply (Hd i j)|].
  apply (Hd j i); [lia|done|done|]. by destruct Hs.
Qed.

(** The insertion sort of [rebuildIndex] computes the delivery queue: it
    succeeds exactly when no identity is owned by two slots, it then lists
    each QUEUED slot once and nothing else, with strictly increasing
    identities, and touches only the index; on a duplicate it takes the store
    out of service. *)
Theorem rebuildIndex_sorts `{EventIdentity.MetadataStorage W} s w :
  length (queue_ s) = 8%nat →
  ∃ b s', rebuildIndex (s, w) = (b, (s', w)) ∧ slots_ s' = slots_ s
    ∧ allocator_ s' = allocator_ s
    ∧ (b = true ↔ distinctIdentities s)
    ∧ (b = false → healthy_ s' = false ∧ status_ s' = DUPLICATE_IDENTITY)
    ∧ (b = true →
       (∀ i r, (∃ k, queuedAt k s' = Some (r, i)) ↔
          (i < 8)%nat ∧ queued s i = true ∧ r = record_at s i)
       ∧ ∀ k k' r r' i i', (k < k')%nat → queuedAt k s' = Some (r, i) →
           queuedAt k' s' = Some (r', i') → i ≠ i' ∧ identityLess r r' = true).
Proof.
  intros Hq. destruct (rebuildIndex_cases s w Hq) as (q & c & Hl & [(E & Hix & Hd)|(E & Hd)]).
  2:{ do 2 eexists. split; [exact E|]. split; [done|]. split; [done|]. split; [|split; done].
      by split. }
  do 2 eexists. split; [exact E|]. do 2 (split; [done|]). split; [done|]. split; [done|]. intros _.
  set (s' := with_index q c s) in *. destruct Hix as (Hp & Hs & Hlq & Hcq).
  assert (Hqd : ∀ i, queued s' i = queued s i) by done.
  assert (Hrec : ∀ i, record_at s' i = record_at s i) by done.
  assert (Hin : ∀ i, i ∈ queueList s' ↔ (i < 8)%nat ∧ queued s i = true).
  { intros i. by rewrite Hp, queuedSlots_in. }
  split.
  - intros i r. setoid_rewrite queuedAt_lookup; [|by rewrite Hlq].
    split.
    + intros (k & Hk & ->). apply list_elem_of_lookup_2, Hin in Hk as [? ?]. done.
    + intros (Hi & Hqi & ->). assert (Hm : i ∈ queueList s') by by apply Hin.
      apply list_elem_of_lookup_1 in Hm as [k Hk]. by exists k.
  - intros k k' r r' i i' Hk. rewrite !queuedAt_lookup by by rewrite Hlq.
    intros [Hi ->] [Hi' ->].
    assert (Hne : i ≠ i').
    { intros ->. assert (Hnd : NoDup (queueList s')).
      { rewrite Hp. apply NoDup_filter, NoDup_seq. }
      pose proof (NoDup_lookup _ _ _ _ Hnd Hi Hi'). lia. }
    split; [done|].
    pose proof (sorted_lookup _ _ _ _ _ _ Hs Hk Hi Hi') as Hlt. rewrite later_spec in Hlt.
    apply list_elem_of_lookup_2, Hin in Hi as [Hi1 Hi2].
    apply list_elem_of_lookup_2, Hin in Hi' as [Hi1' Hi2'].
    pose proof (distinct_any _ _ _ Hd Hne Hi1 Hi1' (queued_owned _ _ Hi2) (queued_owned _ _ Hi2')) as Hsame.
    rewrite !Hrec in *. apply identityLess_spec. unfold sameIdentity in Hsame. lia.
Qed.

End Index.

(** Four slots whose identities are out of order; slot 2 has failed. *)
Definition queuedRecord (epoch id state : Z) : NodeRecord :=
  mkNodeRecord 1 state 0 1 2 epoch id 60 60 0 [1; 2; 0; 0; 0; 0; 0; 0; 0; 0; 0; 0].

Definition unsortedStore : Store :=
  newStore <| slots_ :=
    [mkSlot true (queuedRecord 6 2 NodeState.QUEUED) A;
     mkSlot true (queuedRecord 5 9 NodeState.QUEUED) B;
     mkSlot true (queuedRecord 5 8 NodeState.FAILED) A;
     mkSlot true (queuedRecord 6 1 NodeState.QUEUED) A]
    ++ replicate 4 (mkSlot true zeroNodeRecord A) |>.

#[local] Existing Instance EventIdentity.flash_storage.

Lemma rebuildIndex_sorts_witness :
  (∃ b s', rebuildIndex (unsortedStore, EventIdentity.blankFlash)
             = (b, (s', EventIdentity.blankFlash))
           ∧ (b = true ↔ distinctIdentities unsortedStore))
  ∧ queueList (rebuildIndex (unsortedStore, EventIdentity.blankFlash)).2.1 = [1; 3; 0]%nat.
Proof.
  split; [|vm_compute; reflexivity].
  destruct (rebuildIndex_sorts unsortedStore EventIdentity.blankFlash eq_refl)
    as (b & s' & E & _ & _ & Hd & _). by exists b, s'.
Defined.

End NodeQueue.
