(* ===== verification/NodeFacts.v ===== *)
(** The Node event store over durable storage: laws of the event copies, the
    soundness invariant of the store, and that every operation keeps it or
    leaves the store refusing service with every slot intact. *)

From S2P Require Import Prelude Wire EventWire Copies Records Identity Diagnostics NodeStore NodeQueue.

Module NodeFacts.

Import EventStorage EventRecords NodeEventStore NodeQueue.

Definition content_of (blob : option (list Z)) : option NodeRecord :=
  match decodeNodeRecord blob zeroNodeRecord with
  | (OK, r) => Some r
  | _ => None
  end.

(** What [readEventCopy] does with the caller's buffer. *)
Class StorageLaws (W : Type) `{Storage W} := {
  readEvent_buffer slot copy out w :
    is_byte_list out →
    length ((readEventCopy slot copy out w).1.1.2) = length out
    ∧ is_byte_list (readEventCopy slot copy out w).1.1.2
}.

(** What the flash store is documented to do with the sixteen event blobs. *)
Class DurableEvents (W : Type) `{Storage W} `{EventIdentity.EntropySource W}
    `{!EventIdentity.DurableMetadata W} := {
  storedEvent : W → nat → CopySlot → option (list Z);
  storedEvent_bytes w i c b : storedEvent w i c = Some b → is_byte_list b;
  readEvent_keeps slot copy out w i c :
    storedEvent (readEventCopy slot copy out w).2 i c = storedEvent w i c;
  readEvent_result slot copy out w :
    length out = 56%nat →
    (readEventCopy slot copy out w).1.1.1 = S_UNAVAILABLE ∨
    match storedEvent w slot copy with
    | None => (readEventCopy slot copy out w).1.1.1 = S_MISSING
    | Some b =>
        if bool_decide (length b = 56%nat) then (readEventCopy slot copy out w).1 = (S_OK, b, 56)
        else (readEventCopy slot copy out w).1.1.1 = EventIdentity.S_ERROR
    end;
  writeEvent_keeps slot copy b w i c :
    (i, c) ≠ (slot, copy) → storedEvent (writeEventCopy slot copy b w).2 i c = storedEvent w i c;
  writeEvent_outcome slot copy b w :
    is_byte_list b →
    storedEvent (writeEventCopy slot copy b w).2 slot copy = storedEvent w slot copy
    ∨ storedEvent (writeEventCopy slot copy b w).2 slot copy = Some b
    ∨ content_of (storedEvent (writeEventCopy slot copy b w).2 slot copy) = None;
  commit_keeps_events w i c : storedEvent (EventIdentity.commit w).2 i c = storedEvent w i c;
  (* event and metadata blobs are different blobs *)
  metadata_read_keeps slot out w i c :
    storedEvent (EventIdentity.read slot out w).2 i c = storedEvent w i c;
  metadata_write_keeps slot b w i c :
    storedEvent (EventIdentity.write slot b w).2 i c = storedEvent w i c;
  entropy_keeps_events v w i c :
    storedEvent (EventIdentity.nextUint32 v w).2 i c = storedEvent w i c;
  readEvent_keeps_metadata slot copy out w s :
    EventIdentity.stored (readEventCopy slot copy out w).2 s = EventIdentity.stored w s;
  writeEvent_keeps_metadata slot copy b w s :
    EventIdentity.stored (writeEventCopy slot copy b w).2 s = EventIdentity.stored w s
}.

Section Durable.

Context {W : Type} `{Storage W} `{!EventIdentity.MetadataStorageLaws W} `{!StorageLaws W}
  `{EventIdentity.EntropySource W} `{!EventIdentity.DurableMetadata W} `{!DurableEvents W}.

Implicit Types (s : Store) (w : W).

Definition content w (i : nat) (c : CopySlot) : option NodeRecord :=
  content_of (storedEvent w i c).

Abbreviation governs w i := (authority nr_generation (content w i)).

(** The outside changed in nothing but, at most, event slot [i]. *)
Definition only_slot (i : nat) w w' : Prop :=
  (∀ j c, j ≠ i → storedEvent w' j c = storedEvent w j c)
  ∧ EventIdentity.same_store w w'.

Lemma only_slot_refl i w : only_slot i w w.
Proof. by split. Qed.

Lemma only_slot_trans i w w' w'' : only_slot i w w' → only_slot i w' w'' → only_slot i w w''.
Proof.
  intros [G1 G2] [G3 G4]. split.
  - intros j c Hj. by rewrite G3, G1.
  - intros k. by rewrite G4, G2.
Qed.

Lemma event_content_inv w i c r :
  content w i c = Some r →
  node_record_wf r ∧ validateNodeRecord r = OK ∧ storedEvent w i c = Some (nodeRecordBytes r).
Proof.
  unfold content, content_of. destruct (storedEvent w i c) as [b|] eqn:Hs; [|done].
  destruct (decodeNodeRecord (Some b) zeroNodeRecord) as [[] r'] eqn:Hd; try done.
  intros [= <-]. apply decodeNodeRecord_inv in Hd as (?&?&->); [done|].
  by eapply storedEvent_bytes.
Qed.

Lemma event_content_stored w i c r :
  node_record_wf r → validateNodeRecord r = OK → storedEvent w i c = Some (nodeRecordBytes r) →
  content w i c = Some r.
Proof.
  intros Hw Hv Hs. unfold content, content_of. rewrite Hs.
  rewrite (decode_nodeRecordBytes r zeroNodeRecord Hw Hv). reflexivity.
Qed.

Lemma governs_eq w w' i r slot :
  (∀ c, storedEvent w' i c = storedEvent w i c) → governs w i r slot → governs w' i r slot.
Proof.
  intros Hs [G1 G2]. split; [by unfold content; rewrite Hs|].
  intros r'. unfold content. rewrite Hs. apply G2.
Qed.

Lemma readRecordCopy_cases i c s w :
  ∃ w', (∀ j d, storedEvent w' j d = storedEvent w j d) ∧ EventIdentity.same_store w w'
    ∧ ((∃ copy, readRecordCopy i c (s, w) = ((true, copy), (s, w'))
          ∧ length (bytes copy) = 56%nat ∧ is_byte_list (bytes copy)
          ∧ holds zeroNodeRecord decodeNodeRecordForSelection copy = content w i c
          ∧ (EventStorage.status copy = READ_MISSING ↔ storedEvent w i c = None))
       ∨ ∃ copy, readRecordCopy i c (s, w)
           = ((false, copy), (failed STORAGE_UNAVAILABLE s, w'))).
Proof.
  unfold readRecordCopy, fail. object. change NODE_RECORD_SIZE with 56%nat.
  pose proof (readEvent_buffer i c (zeros 56) w (zeros_byte 56)) as [Hl Hb].
  pose proof (readEvent_keeps i c (zeros 56) w) as Hk.
  pose proof (readEvent_keeps_metadata i c (zeros 56) w) as Hm.
  pose proof (readEvent_result i c (zeros 56) w eq_refl) as Hr.
  destruct (readEventCopy i c (zeros 56) w) as [[[rr b] len] w1]; cbn [fst snd] in *.
  exists w1. split; [done|]. split; [done|].
  assert (Hz : holds zeroNodeRecord decodeNodeRecordForSelection (mkCopy READ_OK (zeros 56)) = None)
    by (vm_compute; reflexivity).
  destruct Hr as [->|Hr]; [right; eexists; by decide_eqs|]. left. unfold content.
  destruct (storedEvent w i c) as [b'|].
  - destruct (bool_decide_reflect (length b' = 56%nat)) as [E|E] in Hr.
    + injection Hr as -> -> ->. decide_eqs. change (negb (56 =? Z.of_nat 56)) with false.
      cbv iota. eexists. do 3 (split; [done|]). split; [|done].
      unfold holds. cbn [EventStorage.status EventStorage.bytes]. decide_eqs.
      unfold decodeNodeRecordForSelection, content_of.
      by destruct (decodeNodeRecord (Some b') zeroNodeRecord) as [[] ?].
    + subst rr. decide_eqs. eexists. do 2 (split; [done|]). split; [apply zeros_byte|].
      split; [|done]. rewrite Hz. unfold content_of, decodeNodeRecord, validateEnvelope.
      by rewrite (proj2 (Nat.eqb_neq _ _)) by done.
  - subst rr. decide_eqs. eexists. do 3 (split; [done|]).
    split; [|done]. unfold holds. by cbn [EventStorage.status]; decide_eqs.
Qed.

Ltac failed_with := eexists; split; [|reflexivity]; first [done | by case_bool_decide].

(** A write either is verified or fails the store; only its own blob changes. *)
Lemma writeVerify_cases i c b s w :
  length b = 56%nat →
  ∃ w', (∀ j d, storedEvent w' j d = storedEvent (writeEventCopy i c b w).2 j d)
    ∧ EventIdentity.same_store w w'
    ∧ (writeVerify i c b (s, w) = (true, (s, w')) ∧ storedEvent w' i c = Some b
       ∨ ∃ st, st ≠ READY ∧ writeVerify i c b (s, w) = (false, (failed st s, w'))).
Proof.
  intros Hlb. unfold writeVerify, failBool, fail. object.
  pose proof (writeEvent_keeps_metadata i c b w) as Hwm.
  destruct (writeEventCopy i c b w) as [wr w1]; cbn [fst snd] in *.
  destruct (decide (wr = S_OK)) as [->|]; decide_eqs;
    [|exists w1; split_and!; [done|done|right; failed_with]].
  pose proof (commit_keeps_events w1) as Hck. pose proof (EventIdentity.commit_keeps w1) as Hcm.
  destruct (EventIdentity.commit w1) as [cr w2]; cbn [fst snd] in *.
  destruct (decide (cr = S_OK)) as [->|]; decide_eqs;
    [|exists w2; split_and!; [done|intros k; by rewrite Hcm, Hwm|right; failed_with]].
  change NODE_RECORD_SIZE with 56%nat.
  pose proof (readEvent_buffer i c (zeros 56) w2 (zeros_byte 56)) as [Hl Hb].
  pose proof (readEvent_keeps i c (zeros 56) w2) as Hk.
  pose proof (readEvent_keeps_metadata i c (zeros 56) w2) as Hm.
  pose proof (readEvent_result i c (zeros 56) w2 eq_refl) as Hr.
  destruct (readEventCopy i c (zeros 56) w2) as [[[rr b'] len] w3]; cbn [fst snd] in *.
  exists w3. split; [intros j d; by rewrite Hk, Hck|]. split; [intros k; by rewrite Hm, Hcm, Hwm|].
  destruct rr; decide_eqs; try (right; failed_with).
  destruct (negb (len =? _)); [right; failed_with|].
  destruct (decodeNodeRecord (Some b') zeroNodeRecord) as [dr v].
  destruct (decide (dr = OK)) as [->|]; decide_eqs; [|right; failed_with].
  unfold bytesEqual. destruct (bytes_eqb 56 b b' 0) eqn:E; bsimp; [|right; failed_with].
  left. split; [done|]. apply bytes_eqb_eq in E; [|done..]. subst b'.
  destruct Hr as [|Hr]; [discriminate|]. rewrite Hk.
  destruct (storedEvent w2 i c) as [b''|]; [|discriminate].
  destruct (bool_decide _) in Hr; [|discriminate]. by injection Hr as ->.
Qed.

Lemma opposite_other c : opposite c = other c.
Proof. by destruct c. Qed.

(** A mutation of slot [i] ends with the new record in charge, or fails the
    store with the old record or the new one in charge. *)
Lemma commitMutation_cases i r s w :
  governs w i (record_at s i) (activeCopy (slot_at s i)) →
  node_record_wf r → validateNodeRecord r = OK →
  nr_generation r = u32 (nr_generation (record_at s i) + 1) →
  ∃ w', only_slot i w w' ∧
    (commitMutation i r (s, w)
       = (true, (set_slot i (mkSlot true r (other (activeCopy (slot_at s i)))) s, w'))
     ∧ governs w' i r (other (activeCopy (slot_at s i)))
     ∨ (∃ st, commitMutation i r (s, w) = (false, (failed st s, w')))
       ∧ (governs w' i (record_at s i) (activeCopy (slot_at s i))
          ∨ governs w' i r (other (activeCopy (slot_at s i))))).
Proof.
  intros Hg Hwf Hv Hgen. set (a := activeCopy (slot_at s i)) in *.
  unfold commitMutation. rewrite encodeNodeRecord_spec by done.
  rewrite (bind_run (this (λ s0, activeCopy (slot_at s0 i))) _ (s, w) a (s, w)) by done.
  rewrite opposite_other.
  destruct (writeVerify_cases i (other a) (nodeRecordBytes r) s w) as (w1 & Hw1 & Hm1 & Hcase);
    [by apply length_nodeRecordBytes|].
  assert (Hsame : ∀ j d, (j, d) ≠ (i, other a) → storedEvent w1 j d = storedEvent w j d).
  { intros j d Hne. rewrite Hw1. by apply writeEvent_keeps. }
  assert (Hold : content w1 i a = content w i a).
  { unfold content. rewrite Hsame; [done|]. intros [=]. by destruct a. }
  assert (Hout : content w1 i (other a) = content w i (other a)
      ∨ content w1 i (other a) = Some r ∨ content w1 i (other a) = None).
  { unfold content. rewrite Hw1.
    destruct (writeEvent_outcome i (other a) (nodeRecordBytes r) w) as [->|[->|Ht]];
      [by apply nodeRecordBytes_byte|by left|right; left|by right; right].
    unfold content_of. rewrite (decode_nodeRecordBytes r zeroNodeRecord Hwf Hv). reflexivity. }
  assert (Hgr : is_u32 (nr_generation (record_at s i))).
  { destruct Hg as [Hc _]. by apply event_content_inv in Hc as ((?&_)&_). }
  destruct (authority_write nr_generation _ (content w1 i) _ _ r Hg Hgr Hgen Hold Hout)
    as [Hnew Hany].
  assert (Ho1 : only_slot i w w1) by (split; [intros j c Hj; apply Hsame; congruence|done]).
  destruct Hcase as [[E Hst]|(st & _ & E)].
  2:{ exists w1. split; [done|]. right. split; [|done]. exists st.
      by rewrite (bind_run _ _ _ _ _ E). }
  rewrite (bind_run _ _ _ _ _ E). bsimp. specialize (Hnew (event_content_stored _ _ _ _ Hwf Hv Hst)).
  unfold confirmMutation.
  destruct (readRecordCopy_cases i a s w1) as (w2 & He2 & Hm2 & Hc2).
  destruct Hc2 as [(oldc & E2 & _)|(oldc & E2)].
  2:{ exists w2. split; [eapply only_slot_trans; [exact Ho1|by split]|]. right.
      split; [exists STORAGE_UNAVAILABLE; by rewrite (bind_run _ _ _ _ _ E2)|].
      destruct Hany as [Hq|Hq]; [left|right]; (eapply governs_eq; [apply He2|exact Hq]). }
  rewrite (bind_run _ _ _ _ _ E2). bsimp.
  destruct (readRecordCopy_cases i (other a) s w2) as (w3 & He3 & Hm3 & Hc3).
  assert (He13 : ∀ j d, storedEvent w3 j d = storedEvent w1 j d) by (intros; by rewrite He3, He2).
  assert (Ho3 : only_slot i w w3).
  { eapply only_slot_trans; [exact Ho1|]. split; [done|]. intros k. by rewrite Hm3, Hm2. }
  assert (Hany3 : governs w3 i (record_at s i) a ∨ governs w3 i r (other a)).
  { destruct Hany as [Hq|Hq]; [left|right]; (eapply governs_eq; [apply He13|exact Hq]). }
  exists w3. split; [done|].
  destruct Hc3 as [(newc & E3 & _)|(newc & E3)].
  2:{ right. split; [exists STORAGE_UNAVAILABLE; by rewrite (bind_run _ _ _ _ _ E3)|done]. }
  rewrite (bind_run _ _ _ _ _ E3). bsimp.
  destruct (selectRecords _ _) as [[selection selected] sslot].
  unfold acceptSelection, failBool, fail. object.
  destruct (decide (selection = EQUAL_DISAGREEMENT)) as [->|Hn1]; decide_eqs;
    [right; split; [by eexists|done]|].
  destruct (decide (selection = EventStorage.GENERATION_AMBIGUOUS)) as [->|Hn2]; decide_eqs;
    [right; split; [by eexists|done]|].
  cbn [fst snd]. destruct (negb (bool_decide (sslot = other a))); bsimp;
    [right; split; [by eexists|done]|].
  destruct (negb _); [right; split; [by eexists|done]|]. left. split; [done|].
  eapply governs_eq; [apply He13|exact Hnew].
Qed.

(** ** The soundness invariant *)

Definition identity_of (src : Z) (r : NodeRecord) : EventProtocol.Identity :=
  EventProtocol.mkIdentity src (nr_eventEpoch r) (nr_eventId r).

Definition holdsEvent (r : NodeRecord) : bool := negb (nr_state r =? NodeState.FREE).

(** Everything but the index: each slot is the record in charge of its two
    copies, no identity is owned twice, and the identity allocator is ahead of
    every identity in custody. *)
Record grounded (src : Z) s w : Prop := mkGrounded {
  gr_slots : length (slots_ s) = 8%nat;
  gr_queue : length (queue_ s) = 8%nat;
  gr_present i : (i < 8)%nat → present (slot_at s i) = true;
  gr_governs i : (i < 8)%nat → governs w i (record_at s i) (activeCopy (slot_at s i));
  gr_distinct : distinctIdentities s;
  gr_alloc : EventIdentity.in_charge src (allocator_ s) w;
  gr_below i :
    (i < 8)%nat → holdsEvent (record_at s i) = true →
    EventIdentity.cursor_below (identity_of src (record_at s i)) (allocator_ s)
}.

Definition sound (src : Z) s w : Prop :=
  grounded src s w ∧ indexed s ∧ healthy_ s = true.

(** What custody means of the store alone, with no program running: the eight
    records [R] are in charge, their identities are distinct, and the identity
    metadata covers them. *)
Record custody (src : Z) w (R : nat → NodeRecord) : Prop := mkCustody {
  cu_governs i : (i < 8)%nat → ∃ c, governs w i (R i) c;
  cu_distinct i j :
    (i < j < 8)%nat → holdsEvent (R i) = true → holdsEvent (R j) = true →
    ¬ (nr_eventEpoch (R i) = nr_eventEpoch (R j) ∧ nr_eventId (R i) = nr_eventId (R j));
  cu_covered :
    ∃ l, EventIdentity.covered src w l ∧
      ∀ i, (i < 8)%nat → holdsEvent (R i) = true → identity_of src (R i) ∈ l
}.

Lemma owned_holds s i : present (slot_at s i) = true → owned (slot_at s i) = holdsEvent (record_at s i).
Proof. unfold owned. by intros ->. Qed.

Lemma slot_at_set i x s j :
  (i < length (slots_ s))%nat →
  slot_at (set_slot i x s) j = if decide (j = i) then x else slot_at s j.
Proof.
  intros Hi. unfold slot_at, set_slot, rec_set; cbn [slots_].
  destruct (decide (j = i)) as [->|Hne].
  - apply nth_lookup_Some. by apply list_lookup_insert_eq.
  - rewrite !nth_lookup. by rewrite list_lookup_insert_ne by done.
Qed.

Lemma record_at_set i x s j :
  (i < length (slots_ s))%nat →
  record_at (set_slot i x s) j = if decide (j = i) then record x else record_at s j.
Proof. intros Hi. unfold record_at. rewrite slot_at_set by done. by destruct (decide _). Qed.

(** The list of the identities in custody. *)
Definition identities (src : Z) (R : nat → NodeRecord) : list EventProtocol.Identity :=
  map (λ i, identity_of src (R i)) (filter (λ i, holdsEvent (R i) = true) (seq 0 8)).

Lemma identities_in src R i :
  (i < 8)%nat → holdsEvent (R i) = true → identity_of src (R i) ∈ identities src R.
Proof.
  intros Hi Ho. apply (list_elem_of_fmap_2 (λ i, identity_of src (R i))).
  apply list_elem_of_filter. split; [done|]. apply elem_of_seq. lia.
Qed.

Lemma identities_forall src R (P : EventProtocol.Identity → Prop) :
  (∀ i, (i < 8)%nat → holdsEvent (R i) = true → P (identity_of src (R i))) →
  Forall P (identities src R).
Proof.
  intros HP. apply Forall_fmap, Forall_forall. intros i Hi.
  apply list_elem_of_filter in Hi as [Ho Hi]. apply elem_of_seq in Hi. apply HP; [lia|done].
Qed.

Lemma grounded_custody src s w : grounded src s w → custody src w (record_at s).
Proof.
  intros [Hl Hq Hp Hg Hd Ha Hb]. split.
  - intros i Hi. eexists. by apply Hg.
  - intros i j Hij Hi Hj Hs. apply (Hd i j); [done| | |done]; rewrite owned_holds; auto with lia.
  - exists (identities src (record_at s)). split; [|by apply identities_in]. right.
    eexists _, _. split; [apply (EventIdentity.ic_governs _ _ _ Ha)|].
    split; [apply Ha|]. split; [apply Ha|]. apply identities_forall.
    intros i Hi Ho. by eapply EventIdentity.cursor_high, Hb.
Qed.

(** An allocator is in charge whatever happens to event slots. *)
Lemma in_charge_same src a w w' :
  EventIdentity.same_store w w' → EventIdentity.in_charge src a w → EventIdentity.in_charge src a w'.
Proof.
  intros Hs [? ? ? ? ? ? ? ?]. split; try done. by eapply EventIdentity.governs_same.
Qed.

(** Slot [i] takes the record [r]: it holds no event, or one whose identity no
    other slot owns and the allocator is ahead of. *)
Definition admissible (src : Z) s (i : nat) (r : NodeRecord) : Prop :=
  holdsEvent r = true →
  EventIdentity.cursor_below (identity_of src r) (allocator_ s)
  ∧ ∀ j, (j < 8)%nat → j ≠ i → holdsEvent (record_at s j) = true →
      ¬ (nr_eventEpoch (record_at s j) = nr_eventEpoch r ∧ nr_eventId (record_at s j) = nr_eventId r).

Lemma grounded_set src s w w' i r c :
  grounded src s w → (i < 8)%nat → only_slot i w w' → admissible src s i r →
  governs w' i r c → grounded src (set_slot i (mkSlot true r c) s) w'.
Proof.
  intros [Hl Hq Hp Hg Hd Ha Hb] Hi [Hoe Hom] Had Hgr.
  assert (Hil : (i < length (slots_ s))%nat) by lia.
  split.
  - unfold set_slot, rec_set; cbn. by rewrite length_insert.
  - done.
  - intros j Hj. rewrite slot_at_set by done. destruct (decide _); [done|by apply Hp].
  - intros j Hj. rewrite slot_at_set, record_at_set by done.
    destruct (decide (j = i)) as [->|Hne]; [done|].
    eapply governs_eq; [|by apply Hg]. intros d. by apply Hoe.
  - intros j k Hjk. rewrite !slot_at_set by done. unfold sameIdentity.
    rewrite !record_at_set by done. unfold NODE_EVENT_CAPACITY in *.
    destruct (decide (j = i)) as [->|Hj], (decide (k = i)) as [->|Hk]; [lia| | |].
    + intros Ho1 Ho2. unfold owned in Ho1. cbn in Ho1. rewrite owned_holds in Ho2 by (apply Hp; lia).
      destruct (Had Ho1) as [_ Hno]. intros [E1 E2]. apply (Hno k); [lia|done|done|by split].
    + intros Ho1 Ho2. unfold owned in Ho2. cbn in Ho2. rewrite owned_holds in Ho1 by (apply Hp; lia).
      destruct (Had Ho2) as [_ Hno]. by apply (Hno j); [lia|done|done].
    + by apply Hd.
  - by eapply in_charge_same.
  - intros j Hj. rewrite record_at_set by done. change (allocator_ (set_slot i _ s)) with (allocator_ s).
    destruct (decide (j = i)) as [->|Hne]; [|by apply Hb]. cbn. intros Ho. by apply Had.
Qed.

Definition replaced (i : nat) (r : NodeRecord) (R : nat → NodeRecord) (j : nat) : NodeRecord :=
  if decide (j = i) then r else R j.

(** After a failed mutation the old or the new record is in custody. *)
Lemma custody_failed src s w w' i r c c' :
  grounded src s w → (i < 8)%nat → only_slot i w w' → admissible src s i r →
  governs w' i (record_at s i) c ∨ governs w' i r c' →
  custody src w' (record_at s) ∨ custody src w' (replaced i r (record_at s)).
Proof.
  intros Hgr Hi Ho Had [Hg|Hg].
  - left. destruct (grounded_custody src s w Hgr) as [Hcg Hcd (l & Hcov & Hin)].
    split; [|done|].
    + intros j Hj. destruct (decide (j = i)) as [->|Hne]; [by eexists|].
      destruct (Hcg j Hj) as [d Hd]. exists d. eapply governs_eq; [|exact Hd].
      intros k. by apply Ho.
    + exists l. split; [|done]. eapply EventIdentity.governs_covered; [apply Ho|done].
  - right. pose proof (grounded_set src s w w' i r c' Hgr Hi Ho Had Hg) as Hgs.
    apply grounded_custody in Hgs as [Hcg Hcd (l & Hcov & Hin)].
    assert (HR : ∀ j, record_at (set_slot i (mkSlot true r c') s) j = replaced i r (record_at s) j).
    { intros j. rewrite record_at_set by (rewrite (gr_slots _ _ _ Hgr); lia). done. }
    split.
    + intros j Hj. rewrite <- HR. auto.
    + intros j k. rewrite <- !HR. auto.
    + exists l. split; [done|]. intros j. rewrite <- HR. auto.
Qed.

(** ** Mutations *)

(** Bookkeeping that no invariant looks at. *)
Definition with_diagnostics (d : option RuntimeState.State) s : Store :=
  s <| diagnostics_ := d |>.

Lemma sound_diagnostics src d s w : sound src s w → sound src (with_diagnostics d s) w.
Proof. by intros ([? ? ? ? ? ? ?] & ? & ?). Qed.

Lemma note_run event amount s w :
  ∃ d, note event amount (s, w) = (tt, (with_diagnostics d s, w)).
Proof. by eexists. Qed.

Lemma updateQueueSnapshot_run s w :
  ∃ d, updateQueueSnapshot (s, w) = (tt, (with_diagnostics d s, w)).
Proof. by eexists. Qed.

Lemma persistenceFailure_run s w :
  ∃ d, persistenceFailure (s, w) = (tt, (with_diagnostics d s, w)).
Proof. by eexists. Qed.

Lemma grounded_index src q n s w :
  length q = 8%nat → grounded src s w → grounded src (with_index q n s) w.
Proof. intros Hq [? ? ? ? ? ? ?]. by split. Qed.

(** The record may replace the one of slot [i]. *)
Record replacement (src : Z) s (i : nat) (r : NodeRecord) : Prop := mkReplacement {
  re_wf : node_record_wf r;
  re_valid : validateNodeRecord r = OK;
  re_generation : nr_generation r = u32 (nr_generation (record_at s i) + 1);
  re_admissible : admissible src s i r
}.

(** How a mutation that returns [st] ends: done, with the record in its slot
    and nothing else changed, or failed, with the store out of service and
    every slot's record - slot [i]'s old or new one - in custody. *)
Definition mutated (src : Z) s (i : nat) (r : NodeRecord) s' w' : Prop :=
  sound src s' w' ∧ (∀ j, record_at s' j = replaced i r (record_at s) j)
  ∧ allocator_ s' = allocator_ s.

Definition broken (src : Z) s (i : nat) (r : NodeRecord) s' w' : Prop :=
  healthy_ s' = false
  ∧ (custody src w' (record_at s) ∨ custody src w' (replaced i r (record_at s))).

Lemma commitMutation_grounded src s w i r :
  grounded src s w → (i < 8)%nat → replacement src s i r →
  ∃ s' w', (commitMutation i r (s, w) = (true, (s', w')) ∧ grounded src s' w'
      ∧ (∀ j, record_at s' j = replaced i r (record_at s) j)
      ∧ (∀ j, slot_at s' j = if decide (j = i) then mkSlot true r (other (activeCopy (slot_at s i)))
                             else slot_at s j)
      ∧ allocator_ s' = allocator_ s ∧ healthy_ s' = healthy_ s ∧ queue_ s' = queue_ s
      ∧ queueCount_ s' = queueCount_ s)
    ∨ commitMutation i r (s, w) = (false, (s', w')) ∧ broken src s i r s' w'.
Proof.
  intros Hg Hi [Hwf Hv Hgen Had].
  destruct (commitMutation_cases i r s w) as (w' & Ho & [[E Hgv]|[[st E] Hany]]);
    [by eapply gr_governs|done..| |].
  - do 2 eexists. left. split; [exact E|]. split; [by eapply grounded_set|].
    assert (Hil : (i < length (slots_ s))%nat) by (rewrite (gr_slots _ _ _ Hg); lia).
    split; [intros j; by rewrite record_at_set by done|].
    split; [intros j; by apply slot_at_set|]. done.
  - do 2 eexists. right. split; [exact E|]. split; [done|]. by eapply custody_failed.
Qed.

Lemma commitAndIndex_sound src s w i r :
  sound src s w → (i < 8)%nat → replacement src s i r →
  ∃ s' w', (commitAndIndex i r (s, w) = (MUTATION_OK, (s', w')) ∧ mutated src s i r s' w')
    ∨ commitAndIndex i r (s, w) = (MUTATION_STORAGE_FAILURE, (s', w')) ∧ broken src s i r s' w'.
Proof.
  intros (Hg & Hix & Hh) Hi Hr. unfold commitAndIndex.
  destruct (commitMutation_grounded src s w i r Hg Hi Hr)
    as (s1 & w1 & [(E & Hg1 & Hrec & _ & Hal & Hh1 & _)|(E & Hb)]).
  - rewrite (bind_run _ _ _ _ _ E). bsimp.
    destruct (rebuildIndex_cases s1 w1 (gr_queue _ _ _ Hg1))
      as (q & c & Hq & [(Ei & Hidx & _)|(_ & Hnd)]); [|by pose proof (gr_distinct _ _ _ Hg1)].
    rewrite (bind_run _ _ _ _ _ Ei). bsimp. do 2 eexists. left. split; [reflexivity|].
    split; [|done]. split; [by apply grounded_index|]. split; [done|]. cbn. by rewrite Hh1.
  - rewrite (bind_run _ _ _ _ _ E). bsimp. do 2 eexists. right. by split.
Qed.

(** ** The records the mutations write *)

Lemma validateNodeRecord_held r :
  nr_state r ≠ NodeState.FREE →
  validateNodeRecord r = OK ↔
  nr_state r ≤ 3 ∧ attemptsUsed r ≤ MAX_ATTEMPTS
  ∧ remainingActiveSeconds r ≤ nr_lifetimeBudgetSeconds r
  ∧ validCanonicalEvent 1 (nr_family r) (nr_flags r) (nr_bodyLength r) (nr_eventEpoch r)
      (nr_eventId r) (nr_lifetimeBudgetSeconds r) (nr_body r) = true
  ∧ allZero (nr_body r) (Z.to_nat (nr_bodyLength r)) (12 - Z.to_nat (nr_bodyLength r)) = true.
Proof.
  intros Hs. unfold validateNodeRecord, validNodeState, NodeState.EXPIRED.
  rewrite (proj2 (Z.eqb_neq _ _) Hs).
  destruct (Z.leb_spec (nr_state r) 3), (Z.ltb_spec MAX_ATTEMPTS (attemptsUsed r)),
    (Z.ltb_spec (nr_lifetimeBudgetSeconds r) (remainingActiveSeconds r)),
    (validCanonicalEvent _ _ _ _ _ _ _ _), (allZero _ _ _); bsimp;
    split; intros; try done; intuition (done || lia).
Qed.

Lemma holdsEvent_spec r : holdsEvent r = true ↔ nr_state r ≠ NodeState.FREE.
Proof. unfold holdsEvent. by zbool. Qed.

Lemma grounded_record src s w i :
  grounded src s w → (i < 8)%nat →
  node_record_wf (record_at s i) ∧ validateNodeRecord (record_at s i) = OK.
Proof.
  intros Hg Hi. destruct (gr_governs _ _ _ Hg i Hi) as [Hc _].
  by apply event_content_inv in Hc as (?&?&_).
Qed.

(** A change of a held record that keeps its identity. *)
Lemma replacement_kept src s w i r :
  grounded src s w → (i < 8)%nat → holdsEvent (record_at s i) = true →
  node_record_wf r → validateNodeRecord r = OK →
  nr_generation r = u32 (nr_generation (record_at s i) + 1) →
  nr_eventEpoch r = nr_eventEpoch (record_at s i) → nr_eventId r = nr_eventId (record_at s i) →
  replacement src s i r.
Proof.
  intros Hg Hi Ho Hwf Hv Hgen He Hid. split; [done..|]. intros _. split.
  - unfold identity_of. rewrite He, Hid. by apply Hg.
  - intros j Hj Hne Hoj Hs. rewrite He, Hid in Hs.
    assert (Hp : ∀ k, (k < 8)%nat → owned (slot_at s k) = holdsEvent (record_at s k)).
    { intros k Hk. apply owned_holds. by apply Hg. }
    destruct (decide (j < i)%nat) as [Hlt|Hge].
    + apply (gr_distinct _ _ _ Hg j i); [unfold NODE_EVENT_CAPACITY; lia|by rewrite Hp..|done].
    + apply (gr_distinct _ _ _ Hg i j); [unfold NODE_EVENT_CAPACITY; lia|by rewrite Hp..|].
      destruct Hs. by split.
Qed.

Definition freeRecord (previous : NodeRecord) : NodeRecord :=
  zeroNodeRecord <| nr_generation := u32 (nr_generation previous + 1) |>
                 <| nr_state := NodeState.FREE |>.

Lemma replacement_free src s i : replacement src s i (freeRecord (record_at s i)).
Proof.
  split.
  - unfold node_record_wf, freeRecord, rec_set; cbn.
    split_and!; try (apply u32_range); try done; try (by apply zeros_byte); concrete.
  - reflexivity.
  - reflexivity.
  - done.
Qed.

Definition transitioned (to : Z) (r : NodeRecord) : NodeRecord :=
  r <| nr_generation := u32 (nr_generation r + 1) |> <| nr_state := to |>.

Lemma replacement_transition src s w i to :
  grounded src s w → (i < 8)%nat → nr_state (record_at s i) = NodeState.QUEUED →
  1 ≤ to ≤ 3 → replacement src s i (transitioned to (record_at s i)).
Proof.
  intros Hg Hi Hq Hto. destruct (grounded_record src s w i Hg Hi) as [Hwf Hv].
  assert (Hh : nr_state (record_at s i) ≠ NodeState.FREE) by by rewrite Hq.
  apply (replacement_kept src s w); try done; [by apply holdsEvent_spec| |].
  - destruct Hwf as (?&?&?&?&?&?&?&?&?&?&?&?). unfold node_record_wf, transitioned, rec_set; cbn.
    split_and!; try done; [apply u32_range|uint].
  - apply (validateNodeRecord_held _ Hh) in Hv.
    apply validateNodeRecord_held; unfold transitioned, rec_set; cbn; [unfold NodeState.FREE; lia|].
    intuition lia.
Qed.

Definition checkpointed (remaining : Z) (r : NodeRecord) : NodeRecord :=
  r <| nr_generation := u32 (nr_generation r + 1) |> <| remainingActiveSeconds := remaining |>.

Lemma replacement_checkpoint src s w i remaining :
  grounded src s w → (i < 8)%nat → nr_state (record_at s i) = NodeState.QUEUED →
  0 < remaining < remainingActiveSeconds (record_at s i) →
  replacement src s i (checkpointed remaining (record_at s i)).
Proof.
  intros Hg Hi Hq Hrem. destruct (grounded_record src s w i Hg Hi) as [Hwf Hv].
  assert (Hh : nr_state (record_at s i) ≠ NodeState.FREE) by by rewrite Hq.
  apply (replacement_kept src s w); try done; [by apply holdsEvent_spec| |].
  - destruct Hwf as (?&?&?&?&?&?&?&?&?&?&?&?). unfold node_record_wf, checkpointed, rec_set; cbn.
    split_and!; try done; [apply u32_range|uint].
  - apply (validateNodeRecord_held _ Hh) in Hv.
    apply validateNodeRecord_held; unfold checkpointed, rec_set; cbn; [done|].
    intuition lia.
Qed.

Definition armed (r : NodeRecord) : NodeRecord :=
  r <| nr_generation := u32 (nr_generation r + 1) |> <| attemptsUsed := u8 (attemptsUsed r + 1) |>.

Lemma replacement_armed src s w i :
  grounded src s w → (i < 8)%nat → nr_state (record_at s i) = NodeState.QUEUED →
  attemptsUsed (record_at s i) < MAX_ATTEMPTS → replacement src s i (armed (record_at s i)).
Proof.
  intros Hg Hi Hq Hat. destruct (grounded_record src s w i Hg Hi) as [Hwf Hv].
  assert (Hh : nr_state (record_at s i) ≠ NodeState.FREE) by by rewrite Hq.
  unfold MAX_ATTEMPTS in *.
  apply (replacement_kept src s w); try done; [by apply holdsEvent_spec| |].
  - destruct Hwf as (?&?&?&?&?&?&?&?&?&?&?&?). unfold node_record_wf, armed, rec_set; cbn.
    split_and!; try done; [apply u32_range|apply u8_range].
  - destruct Hwf as (_&_&_&_&_&_&_&_&_&Ha&_).
    apply (validateNodeRecord_held _ Hh) in Hv.
    apply validateNodeRecord_held; unfold armed, rec_set; cbn; [done|].
    rewrite wrap_small by uint. unfold MAX_ATTEMPTS in *. intuition lia.
Qed.

End Durable.

End NodeFacts.
