(* ===== verification/NodeOps.v ===== *)
(** The Node event store as its callers see it: each mutation refines one
    change of one record, an enqueue takes the first free slot, and a recovery
    restores exactly the records in custody. *)

From S2P Require Import Prelude Wire EventWire Copies Records Identity Diagnostics NodeStore NodeQueue NodeFacts.

Module NodeOps.

Import EventStorage EventRecords NodeEventStore NodeQueue NodeFacts.

(** ** The mutations and their specification *)

Inductive Op :=
| MarkFailed (slot : nat)
| MarkExpired (slot : nat)
| Reclaim (slot : nat)
| ReleaseQueued (slot : nat)
| Checkpoint (slot : nat) (remaining : Z)
| Arm (slot : nat).

Definition op_slot (op : Op) : nat :=
  match op with
  | MarkFailed i | MarkExpired i | Reclaim i | ReleaseQueued i | Checkpoint i _ | Arm i => i
  end.

(** The two status types of the operations. *)
Definition Answer : Type := MutationStatus + AttemptStatus.

Definition bad_slot (op : Op) : Answer :=
  match op with Arm _ => inr ATTEMPT_INVALID_SLOT | _ => inl MUTATION_INVALID_SLOT end.

Definition accepted (op : Op) : Answer :=
  match op with Arm _ => inr ARMED | _ => inl MUTATION_OK end.

Definition storage_failed (op : Op) : Answer :=
  match op with Arm _ => inr ATTEMPT_STORAGE_FAILURE | _ => inl MUTATION_STORAGE_FAILURE end.

Definition degraded (op : Op) : Answer :=
  match op with Arm _ => inr ATTEMPT_DEGRADED | _ => inl MUTATION_DEGRADED end.

(** What an operation makes of the record in its slot: a refusal, or the
    record that replaces it. *)
Definition op_record (op : Op) (r : NodeRecord) : Answer + NodeRecord :=
  match op with
  | MarkFailed _ =>
      if nr_state r =? NodeState.QUEUED then inr (transitioned NodeState.FAILED r)
      else inl (inl INVALID_TRANSITION)
  | MarkExpired _ =>
      if nr_state r =? NodeState.QUEUED then inr (transitioned NodeState.EXPIRED r)
      else inl (inl INVALID_TRANSITION)
  | Reclaim _ =>
      if (nr_state r =? NodeState.FAILED) || (nr_state r =? NodeState.EXPIRED)
      then inr (freeRecord r) else inl (inl INVALID_TRANSITION)
  | ReleaseQueued _ =>
      if nr_state r =? NodeState.QUEUED then inr (freeRecord r)
      else inl (inl INVALID_TRANSITION)
  | Checkpoint _ remaining =>
      if (nr_state r =? NodeState.QUEUED) && (0 <? remaining)
         && (remaining <? remainingActiveSeconds r)
      then inr (checkpointed remaining r) else inl (inl INVALID_TRANSITION)
  | Arm _ =>
      if nr_state r =? NodeState.QUEUED then
        if attemptsUsed r <? MAX_ATTEMPTS then inr (armed r) else inl (inr EXHAUSTED)
      else inl (inr NOT_QUEUED)
  end.

Definition op_spec (op : Op) (s : Store) : Answer + NodeRecord :=
  if (op_slot op <? NODE_EVENT_CAPACITY)%nat then op_record op (record_at s (op_slot op))
  else inl (bad_slot op).

(** [remaining] is an unsigned 32-bit argument. *)
Definition op_wf (op : Op) : Prop :=
  match op with Checkpoint _ remaining => is_u32 remaining | _ => True end.

Section Run.

Context {W : Type} `{Storage W}.

Definition run_op (op : Op) : st (Store * W) Answer :=
  match op with
  | MarkFailed i => a <~ markFailed i ;; ret (inl a)
  | MarkExpired i => a <~ markExpired i ;; ret (inl a)
  | Reclaim i => a <~ reclaim i ;; ret (inl a)
  | ReleaseQueued i => a <~ releaseQueued i ;; ret (inl a)
  | Checkpoint i remaining => a <~ checkpointRemaining i remaining ;; ret (inl a)
  | Arm i => a <~ armAttempt i ;; ret (inr a)
  end.

End Run.

Section Durable.

Context {W : Type} `{Storage W} `{!EventIdentity.MetadataStorageLaws W} `{!StorageLaws W}
  `{EventIdentity.EntropySource W} `{!EventIdentity.DurableMetadata W} `{!DurableEvents W}.

Implicit Types (s : Store) (w : W).

Lemma sound_healthy src s w : sound src s w → healthy_ s = true.
Proof. by intros (_ & _ & ->). Qed.

Lemma broken_diagnostics src s i r d s' w' :
  broken src s i r s' w' → broken src s i r (with_diagnostics d s') w'.
Proof. done. Qed.

Lemma mutated_diagnostics src s i r d s' w' :
  mutated src s i r s' w' → mutated src s i r (with_diagnostics d s') w'.
Proof. intros (?&?&?). split; [by apply sound_diagnostics|done]. Qed.

Lemma filter_seq_ext (f g : nat → bool) a n :
  (∀ j, (a ≤ j < a + n)%nat → f j = g j) →
  filter (λ i, f i = true) (seq a n) = filter (λ i, g i = true) (seq a n).
Proof.
  revert a. induction n as [|n IH]; intros a Hfg; [done|]. simpl seq.
  rewrite !filter_cons, IH by (intros; apply Hfg; lia). by rewrite (Hfg a) by lia.
Qed.

(** The index looks at the state and identity of each slot only. *)
Lemma indexed_same s s' :
  queue_ s' = queue_ s → queueCount_ s' = queueCount_ s →
  (∀ j, (j < 8)%nat → queued s' j = queued s j) →
  (∀ j, nr_eventEpoch (record_at s' j) = nr_eventEpoch (record_at s j)
        ∧ nr_eventId (record_at s' j) = nr_eventId (record_at s j)) →
  indexed s → indexed s'.
Proof.
  intros Hq Hc Hqd Hid (Hp & Hs & Hl). unfold indexed, queueList in *. rewrite Hq, Hc.
  assert (Hqs : queuedSlots s' = queuedSlots s).
  { apply filter_seq_ext. intros j Hj. apply Hqd. unfold NODE_EVENT_CAPACITY in Hj. lia. }
  rewrite Hqs. split; [done|]. split; [|done].
  assert (Heq : ∀ x y, later s x y → later s' x y).
  { intros x y. rewrite !later_spec. destruct (Hid x), (Hid y). lia. }
  clear -Hs Heq. induction Hs as [|a l Hs IH Ha]; constructor; [done|].
  eapply Forall_impl; [exact Ha|]. auto.
Qed.

(** A mutation of slot [i] that leaves its state and identity alone. *)
Lemma commitMutation_sound src s w i r :
  sound src s w → (i < 8)%nat → replacement src s i r →
  nr_state r = nr_state (record_at s i) → nr_eventEpoch r = nr_eventEpoch (record_at s i) →
  nr_eventId r = nr_eventId (record_at s i) →
  ∃ s' w', (commitMutation i r (s, w) = (true, (s', w')) ∧ mutated src s i r s' w')
    ∨ commitMutation i r (s, w) = (false, (s', w')) ∧ broken src s i r s' w'.
Proof.
  intros (Hg & Hix & Hh) Hi Hr Est Eep Eid.
  destruct (commitMutation_grounded src s w i r Hg Hi Hr)
    as (s1 & w1 & [(E & Hg1 & Hrec & Hsl & Hal & Hh1 & Hq & Hc)|(E & Hb)]);
    do 2 eexists; [left|by right].
  split; [exact E|]. split; [|done]. split; [done|]. split; [|by rewrite Hh1].
  apply (indexed_same s); try done.
  - intros j Hj. unfold queued. rewrite Hrec, Hsl. unfold replaced.
    destruct (decide (j = i)) as [->|]; [|done].
    rewrite Est. by rewrite (gr_present _ _ _ Hg).
  - intros j. rewrite Hrec. unfold replaced. by destruct (decide (j = i)) as [->|].
Qed.

(** Bookkeeping: an action that changes nothing but the diagnostics. *)
Definition quiet (m : st (Store * W) unit) : Prop :=
  ∀ s w, ∃ d, m (s, w) = (tt, (with_diagnostics d s, w)).

Lemma quiet_bind m m' : quiet m → quiet m' → quiet (m ;;; m').
Proof.
  intros G1 G2 s w. destruct (G1 s w) as [d E]. rewrite (bind_run _ _ _ _ _ E).
  destruct (G2 (with_diagnostics d s) w) as [d' E']. eexists. exact E'.
Qed.

Lemma quiet_ret : quiet (ret tt).
Proof. intros s w. exists (diagnostics_ s). by destruct s. Qed.

Lemma quiet_if (b : bool) m m' : quiet m → quiet m' → quiet (if b then m else m').
Proof. by destruct b. Qed.

Lemma quiet_persistenceFailure : quiet persistenceFailure.
Proof. intros s w. apply persistenceFailure_run. Qed.

Lemma quiet_note event amount : quiet (note event amount).
Proof. intros s w. apply note_run. Qed.

Lemma quiet_snapshot : quiet updateQueueSnapshot.
Proof. intros s w. apply updateQueueSnapshot_run. Qed.

(** How an operation with answers of type [X] ends. *)
Definition ended {X} (done failed : X) src s i r (result : X * (Store * W)) : Prop :=
  (∃ s' w', result = (done, (s', w')) ∧ mutated src s i r s' w')
  ∨ (∃ s' w', result = (failed, (s', w')) ∧ broken src s i r s' w').

Lemma ended_quiet {X} (a b : X) src s i r s' w' m (x : X) :
  quiet m → ended a b src s i r (x, (s', w')) →
  ended a b src s i r ((m ;;; ret x) (s', w')).
Proof.
  intros Hm. destruct (Hm s' w') as [d E]. rewrite (bind_run _ _ _ _ _ E).
  intros [(?&?&[= -> -> ->]&He)|(?&?&[= -> -> ->]&He)]; [left|right]; do 2 eexists;
    (split; [reflexivity|]); [by apply mutated_diagnostics|by apply broken_diagnostics].
Qed.

(** A commit with its index, followed by bookkeeping. *)
Lemma index_ended src s w i r (m : st (Store * W) MutationStatus) after :
  sound src s w → (i < 8)%nat → replacement src s i r →
  m (s, w) = commitAndIndex i r (s, w) → (∀ a, quiet (after a)) →
  ended MUTATION_OK MUTATION_STORAGE_FAILURE src s i r
    ((result <~ m ;; after result ;;; ret result) (s, w)).
Proof.
  intros Hs Hi Hr E Ha.
  destruct (commitAndIndex_sound src s w i r Hs Hi Hr) as (s1 & w1 & [(Ec & Hm)|(Ec & Hb)]);
    rewrite Ec in E; rewrite (bind_run _ _ _ _ _ E); apply ended_quiet; try done;
    [left|right]; by do 2 eexists.
Qed.

(** A commit without an index, followed by bookkeeping. *)
Lemma commit_ended {X} (a b : X) src s w i r (on_failure after : st (Store * W) unit) :
  sound src s w → (i < 8)%nat → replacement src s i r →
  nr_state r = nr_state (record_at s i) → nr_eventEpoch r = nr_eventEpoch (record_at s i) →
  nr_eventId r = nr_eventId (record_at s i) → quiet on_failure → quiet after →
  ended a b src s i r
    ((committed <~ commitMutation i r ;;
      if negb committed then on_failure ;;; ret b else after ;;; ret a) (s, w)).
Proof.
  intros Hs Hi Hr E1 E2 E3 Q1 Q2.
  destruct (commitMutation_sound src s w i r Hs Hi Hr E1 E2 E3)
    as (s1 & w1 & [(Ec & Hm)|(Ec & Hb)]); rewrite (bind_run _ _ _ _ _ Ec); bsimp;
    apply ended_quiet; try done; [left|right]; by do 2 eexists.
Qed.

#[local] Hint Resolve quiet_bind quiet_ret quiet_if quiet_persistenceFailure quiet_note
  quiet_snapshot : core.

Lemma ended_map {X Y} (f : X → Y) a b src s i r (m : st (Store * W) X) w :
  ended a b src s i r (m (s, w)) → ended (f a) (f b) src s i r ((x <~ m ;; ret (f x)) (s, w)).
Proof.
  intros [(s'&w'&E&He)|(s'&w'&E&He)]; rewrite (bind_run _ _ _ _ _ E); [left|right];
    by do 2 eexists.
Qed.

(** The guards all mutations share pass on a sound store with a slot in range. *)
Ltac guards Hs Hi :=
  rewrite bind_this, (sound_healthy _ _ _ Hs); cbn [negb];
  change NODE_EVENT_CAPACITY with 8%nat; rewrite (proj2 (Nat.leb_gt _ _) Hi), bind_this.

Definition op_refines src s w op : Prop :=
  match op_spec op s with
  | inl refusal => run_op op (s, w) = (refusal, (s, w))
  | inr next => ended (accepted op) (storage_failed op) src s (op_slot op) next (run_op op (s, w))
  end.

Ltac quiet := intros; cbv beta; repeat (solve [auto] || apply quiet_if || apply quiet_bind); auto.

Lemma transition_refines src s w i to after :
  1 ≤ to ≤ 3 → sound src s w → (i < 8)%nat →
  (∀ a, quiet (after a)) → after INVALID_TRANSITION = ret tt →
  match (if nr_state (record_at s i) =? NodeState.QUEUED
         then inr (transitioned to (record_at s i))
         else inl (inl INVALID_TRANSITION : Answer)) with
  | inl refusal => ∃ x, refusal = inl x ∧
      (result <~ transition i NodeState.QUEUED to ;; after result ;;; ret result) (s, w) = (x, (s, w))
  | inr next => ended MUTATION_OK MUTATION_STORAGE_FAILURE src s i next
      ((result <~ transition i NodeState.QUEUED to ;; after result ;;; ret result) (s, w))
  end.
Proof.
  intros Hto Hs Hi Hq Hn.
  destruct (Z.eqb_spec (nr_state (record_at s i)) NodeState.QUEUED) as [Hst|Hst].
  - apply index_ended; try done.
    + by apply replacement_transition with (w := w); [apply Hs|..].
    + unfold transition. guards Hs Hi. by rewrite Hst.
  - assert (E : transition i NodeState.QUEUED to (s, w) = (INVALID_TRANSITION, (s, w))).
    { unfold transition. guards Hs Hi. by rewrite (proj2 (Z.eqb_neq _ _) Hst). }
    eexists. split; [reflexivity|]. by rewrite (bind_run _ _ _ _ _ E), Hn.
Qed.

(** An operation whose answers are wrapped in [f]. *)
Lemma refines_map {X} (f : X → Answer) src s w op (m : st (Store * W) X) a b :
  run_op op = (x <~ m ;; ret (f x)) → accepted op = f a → storage_failed op = f b →
  (match op_spec op s with
   | inl refusal => ∃ x, refusal = f x ∧ m (s, w) = (x, (s, w))
   | inr next => ended a b src s (op_slot op) next (m (s, w))
   end) → op_refines src s w op.
Proof.
  intros Hm Ha Hb. unfold op_refines. rewrite Hm, Ha, Hb. destruct (op_spec op s).
  - intros (x & -> & E). by rewrite (bind_run _ _ _ _ _ E).
  - apply ended_map.
Qed.

Lemma makeFree_ended src s w i after :
  sound src s w → (i < 8)%nat → (∀ a, quiet (after a)) →
  ended MUTATION_OK MUTATION_STORAGE_FAILURE src s i (freeRecord (record_at s i))
    ((result <~ makeFree i ;; after result ;;; ret result) (s, w)).
Proof.
  intros Hs Hi Ha. apply index_ended; try done. apply replacement_free.
Qed.

Lemma op_in_range src s w op :
  sound src s w → op_wf op → (op_slot op < 8)%nat → op_refines src s w op.
Proof.
  intros Hs Hwf Hi.
  destruct op as [i|i|i|i|i rem|i]; cbn [op_slot op_wf] in *;
    (eapply refines_map; [reflexivity..|]); unfold op_spec; cbn [op_slot op_record];
    change NODE_EVENT_CAPACITY with 8%nat; rewrite (proj2 (Nat.ltb_lt _ _) Hi).
  - apply transition_refines; [concrete|done|done|quiet|done].
  - apply transition_refines; [concrete|done|done|quiet|done].
  - unfold reclaim. guards Hs Hi.
    destruct (nr_state (record_at s i) =? NodeState.FAILED),
      (nr_state (record_at s i) =? NodeState.EXPIRED); bsimp;
      [apply makeFree_ended; [done..|quiet]..|by eexists].
  - unfold releaseQueued. guards Hs Hi.
    destruct (nr_state (record_at s i) =? NodeState.QUEUED); bsimp;
      [apply makeFree_ended; [done..|quiet]|by eexists].
  - unfold checkpointRemaining. guards Hs Hi.
    destruct (Z.eqb_spec (nr_state (record_at s i)) NodeState.QUEUED) as [Hq|];
      destruct (Z.eqb_spec rem 0), (Z.ltb_spec 0 rem),
        (Z.leb_spec (remainingActiveSeconds (record_at s i)) rem),
        (Z.ltb_spec rem (remainingActiveSeconds (record_at s i))); bsimp; try uint;
      try (by eexists).
    apply (commit_ended MUTATION_OK MUTATION_STORAGE_FAILURE src s w i
      (checkpointed rem (record_at s i)) persistenceFailure (ret tt)); quiet.
    by apply replacement_checkpoint with (w := w); [apply Hs|..].
  - unfold armAttempt. guards Hs Hi.
    destruct (Z.eqb_spec (nr_state (record_at s i)) NodeState.QUEUED) as [Hq|];
      destruct (Z.leb_spec MAX_ATTEMPTS (attemptsUsed (record_at s i))),
        (Z.ltb_spec (attemptsUsed (record_at s i)) MAX_ATTEMPTS); bsimp; try lia;
      try (by eexists).
    apply (commit_ended ARMED ATTEMPT_STORAGE_FAILURE src s w i
      (armed (record_at s i)) persistenceFailure (note RuntimeState.EVENT_ATTEMPT 1)); quiet.
    by apply replacement_armed with (w := w); [apply Hs|..].
Qed.

(** ** Enqueue *)

Definition input_wf (input : EventInput) : Prop :=
  is_u8 (in_family input) ∧ is_u8 (in_flags input) ∧ is_u32 (in_lifetimeBudgetSeconds input)
  ∧ is_u8 (in_bodyLength input) ∧ length (in_body input) = 12%nat ∧ is_byte_list (in_body input).

(** The first slot that holds no event. *)
Definition first_free s (i : nat) : Prop :=
  (i < 8)%nat ∧ holdsEvent (record_at s i) = false
  ∧ ∀ j, (j < i)%nat → holdsEvent (record_at s j) = true.

Lemma findFree_spec n slot s :
  (slot + n = 8)%nat → (∀ j, (j < slot)%nat → holdsEvent (record_at s j) = true) →
  first_free s (findFree n slot s)
  ∨ findFree n slot s = 255%nat ∧ ∀ j, (j < 8)%nat → holdsEvent (record_at s j) = true.
Proof.
  revert slot. induction n as [|n IH]; intros slot Hn Hb; cbn [findFree].
  - right. split; [done|]. intros j Hj. apply Hb. lia.
  - destruct (nr_state (record_at s slot) =? NodeState.FREE) eqn:E.
    + left. split; [lia|]. split; [|done]. unfold holdsEvent. by rewrite E.
    + apply IH; [lia|]. intros j Hj. destruct (decide (j = slot)) as [->|]; [|apply Hb; lia].
      unfold holdsEvent. by rewrite E.
Qed.

Lemma validInput_spec input :
  length (in_body input) = 12%nat → validInput input = true →
  in_bodyLength input ≤ 12 ∧ in_lifetimeBudgetSeconds input ≤ EventProtocol.MAX_LIFETIME_SECONDS
  ∧ all_zero (drop (Z.to_nat (in_bodyLength input)) (in_body input)) = true
  ∧ ∀ epoch id, epoch ≠ 0 → id ≠ 0 →
      validCanonicalEvent 1 (in_family input) (in_flags input) (in_bodyLength input) epoch id
        (in_lifetimeBudgetSeconds input) (in_body input) = true.
Proof.
  intros Hl. unfold validInput.
  destruct (_ || _ || _ || _ || _ || _) eqn:E; [done|].
  rewrite !orb_false_iff, !negb_false_iff in E. destruct E as [[[[[E1 E2] E3] E4] E5] E6].
  change EventProtocol.MAX_BODY_SIZE with 12 in *.
  rewrite Z.ltb_ge in E2, E3, E4.
  rewrite allZero_spec by lia. rewrite take_ge by (rewrite length_drop; lia).
  intros Hz. split_and!; [done..|]. intros epoch id He Hi. unfold validCanonicalEvent.
  rewrite E1, E5, E6, !andb_true_iff, !negb_true_iff, !Z.eqb_neq, !Z.leb_le.
  change EventProtocol.MAX_BODY_SIZE with 12. split_and!; done.
Qed.

Lemma enqueued_wf r x input :
  input_wf input → EventIdentity.valid_identity x → validInput input = true →
  node_record_wf (enqueuedRecord r x input) ∧ validateNodeRecord (enqueuedRecord r x input) = OK
  ∧ nr_body (enqueuedRecord r x input) = in_body input.
Proof.
  intros (Hf & Hfl & Hlt & Hbl & Hlb & Hb) (He & He0 & Hid & Hid0) Hv.
  destruct (validInput_spec input Hlb Hv) as (Hle & Hmax & Hz & Hc).
  assert (Hbody : copy_bytes (Z.to_nat (in_bodyLength input)) (nr_body zeroNodeRecord) 0
                    (in_body input) 0 = in_body input).
  { change (nr_body zeroNodeRecord) with (zeros 12). replace 12%nat with (length (in_body input)).
    apply copy_prefix_zero_tail; [lia|done]. }
  unfold enqueuedRecord. rewrite Hbody. split_and!; [| |done].
  - unfold node_record_wf; cbn. split_and!; try done; try (by apply u32_range); concrete.
  - apply validateNodeRecord_held; [done|]. cbn. unfold MAX_ATTEMPTS, NodeState.QUEUED.
    split_and!; try lia; [by apply Hc|].
    rewrite allZero_spec by lia. by rewrite take_ge by (rewrite length_drop; lia).
Qed.

Definition with_allocator (a : EventIdentity.Allocator) s : Store := s <| allocator_ := a |>.

Lemma on_allocator_run {X} (m : st (EventIdentity.Allocator * W) X) s w x a w' :
  m (allocator_ s, w) = (x, (a, w')) → on_allocator m (s, w) = (x, (with_allocator a s, w')).
Proof. intros E. unfold on_allocator, zoom. cbn [fst snd]. by rewrite E. Qed.

Lemma allocate_events a w i c :
  storedEvent (EventIdentity.allocate (a, w)).2.2 i c = storedEvent w i c.
Proof.
  apply (EventIdentity.allocate_frame (λ v, storedEvent v i c)
    ltac:(intros; apply metadata_read_keeps) ltac:(intros; apply metadata_write_keeps)
    ltac:(intros; apply commit_keeps_events) (a, w)).
Qed.

Lemma grounded_allocator src s w a w' :
  grounded src s w → EventIdentity.in_charge src a w' →
  (∀ i c, storedEvent w' i c = storedEvent w i c) →
  (∀ x, EventIdentity.cursor_below x (allocator_ s) → EventIdentity.cursor_below x a) →
  grounded src (with_allocator a s) w'.
Proof.
  intros [Hl Hq Hp Hg Hd Ha Hb] Ha' He Hc. split; try done.
  - intros i Hi. eapply governs_eq; [|by apply Hg]. done.
  - intros i Hi Ho. apply Hc. by apply Hb.
Qed.

(** The identities of the events in custody. *)
Definition in_custody (src : Z) s (y : EventProtocol.Identity) : Prop :=
  ∃ j, (j < 8)%nat ∧ holdsEvent (record_at s j) = true ∧ y = identity_of src (record_at s j).

Lemma replacement_enqueued src s w a w' i x input :
  grounded src s w → input_wf input → validInput input = true →
  EventIdentity.valid_identity x → EventIdentity.cursor_below x a →
  (∀ y, EventIdentity.cursor_below y (allocator_ s) → EventIdentity.id_lt y x) →
  replacement src (with_allocator a s) i (enqueuedRecord (record_at s i) x input).
Proof.
  intros Hg Hwf Hv Hx Hcx Hlt.
  destruct (enqueued_wf (record_at s i) x input Hwf Hx Hv) as (H1' & H2' & _).
  split; [done..|]. intros _. split; [done|].
  intros j Hj Hne Ho [E1 E2]. specialize (Hlt _ (gr_below _ _ _ Hg j Hj Ho)).
  unfold EventIdentity.id_lt, identity_of, enqueuedRecord in *. cbn in *.
  change (record_at (with_allocator a s) j) with (record_at s j) in *. lia.
Qed.

Lemma commitAndIndex_fused {X} i r (k1 k2 : st (Store * W) X) s w :
  (committed <~ commitMutation i r ;;
   if negb committed then k1 else
   indexed <~ rebuildIndex ;;
   if negb indexed then k1 else k2) (s, w)
  = (a <~ commitAndIndex i r ;;
     if bool_decide (a = MUTATION_OK) then k2 else k1) (s, w).
Proof.
  unfold commitAndIndex, bind, ret. destruct (commitMutation i r (s, w)) as [[] s1]; [|done].
  cbn [negb fst snd]. by destruct (rebuildIndex s1) as [[] s2].
Qed.

(** How an enqueue ends. *)
Inductive enqueue_outcome src s w (input : EventInput) :
    EnqueueResult → Store → W → Prop :=
| enqueue_invalid :
    validInput input = false →
    enqueue_outcome src s w input (mkEnqueueResult ENQUEUE_INVALID_EVENT noIdentity 255) s w
| enqueue_full s' :
    validInput input = true → (∀ j, (j < 8)%nat → holdsEvent (record_at s j) = true) →
    sound src s' w → slots_ s' = slots_ s → allocator_ s' = allocator_ s →
    enqueue_outcome src s w input (mkEnqueueResult QUEUE_FULL noIdentity 255) s' w
| enqueue_identity_failed i s' w' :
    validInput input = true → first_free s i → healthy_ s' = false →
    custody src w' (record_at s) →
    enqueue_outcome src s w input (mkEnqueueResult ENQUEUE_IDENTITY_FAILURE noIdentity 255) s' w'
| enqueue_storage_failed i x s' w' :
    validInput input = true → first_free s i →
    broken src s i (enqueuedRecord (record_at s i) x input) s' w' →
    enqueue_outcome src s w input (mkEnqueueResult ENQUEUE_STORAGE_FAILURE noIdentity 255) s' w'
| enqueue_done i x s' w' :
    validInput input = true → first_free s i →
    EventProtocol.sourceDeviceId x = src → EventIdentity.valid_identity x →
    (∀ y, in_custody src s y → EventIdentity.id_lt y x) →
    sound src s' w' →
    (∀ j, record_at s' j = replaced i (enqueuedRecord (record_at s i) x input) (record_at s) j) →
    enqueue_outcome src s w input (mkEnqueueResult ENQUEUED x i) s' w'.

(** The part of [enqueue] after the identity is allocated. *)
Lemma enqueue_commits src s w i x a w1 input :
  sound src s w → input_wf input → validInput input = true → first_free s i →
  EventIdentity.in_charge src a w1 → EventProtocol.sourceDeviceId x = src →
  EventIdentity.valid_identity x → EventIdentity.cursor_below x a →
  (∀ y, EventIdentity.cursor_below y (allocator_ s) →
     EventIdentity.id_lt y x ∧ EventIdentity.cursor_below y a) →
  (∀ j c, storedEvent w1 j c = storedEvent w j c) →
  ∃ res s' w', enqueue_outcome src s w input res s' w' ∧
   (committed <~ commitMutation i (enqueuedRecord (record_at s i) x input) ;;
    if negb committed then
      persistenceFailure ;;; ret (mkEnqueueResult ENQUEUE_STORAGE_FAILURE noIdentity 255)
    else
    indexed <~ rebuildIndex ;;
    if negb indexed then
      persistenceFailure ;;; ret (mkEnqueueResult ENQUEUE_STORAGE_FAILURE noIdentity 255)
    else
    note RuntimeState.ENQUEUE_ACCEPTED 1 ;;;
    updateQueueSnapshot ;;;
    ret (mkEnqueueResult ENQUEUED x i)) (with_allocator a s, w1) = (res, (s', w')).
Proof.
  intros Hs Hwf Hv Hi Ha Hsx Hx Hcx Hlt He.
  assert (Hg1 : grounded src (with_allocator a s) w1).
  { eapply grounded_allocator; [apply Hs|done|done|]. intros y Hy. by apply Hlt. }
  assert (Hs1 : sound src (with_allocator a s) w1) by (split; [done|apply Hs]).
  assert (Hr : replacement src (with_allocator a s) i (enqueuedRecord (record_at s i) x input)).
  { eapply replacement_enqueued; try done; [apply Hs|]. intros y Hy. by apply Hlt. }
  rewrite commitAndIndex_fused.
  destruct (commitAndIndex_sound src _ w1 i _ Hs1 (proj1 Hi) Hr)
    as (s2 & w2 & [(E & Hsd & Hrec & _)|(E & Hb)]);
    rewrite (bind_run _ _ _ _ _ E); decide_eqs.
  - destruct (note_run RuntimeState.ENQUEUE_ACCEPTED 1 s2 w2) as [d1 E1].
    rewrite (bind_run _ _ _ _ _ E1).
    destruct (updateQueueSnapshot_run (with_diagnostics d1 s2) w2) as [d2 E2].
    rewrite (bind_run _ _ _ _ _ E2). do 3 eexists. split; [|reflexivity].
    apply enqueue_done; try done; [|by do 2 apply sound_diagnostics].
    intros y (j & Hj & Ho & ->). apply Hlt. by apply (gr_below _ _ _ (proj1 Hs)).
  - destruct (persistenceFailure_run s2 w2) as [d E1]. rewrite (bind_run _ _ _ _ _ E1).
    do 3 eexists. split; [|reflexivity]. by apply (enqueue_storage_failed src s w input i x).
Qed.

Lemma enqueue_cases src s w input :
  sound src s w → input_wf input →
  ∃ res s' w', enqueue_outcome src s w input res s' w' ∧ enqueue input (s, w) = (res, (s', w')).
Proof.
  intros Hs Hwf. unfold enqueue. rewrite bind_this, (sound_healthy _ _ _ Hs). cbn [negb].
  destruct (validInput input) eqn:Hv; cbn [negb].
  2:{ do 3 eexists. split; [by apply enqueue_invalid|reflexivity]. }
  rewrite bind_this.
  destruct (findFree_spec 8 0 s) as [Hi|[E Hfull]]; [done|intros; lia| |].
  2:{ change NODE_EVENT_CAPACITY with 8%nat. rewrite E. cbn [Nat.eqb].
      destruct (note_run RuntimeState.QUEUE_FULL_REJECTED 1 s w) as [d E1].
      rewrite (bind_run _ _ _ _ _ E1). do 3 eexists. split; [|reflexivity].
      apply enqueue_full; try done. by apply sound_diagnostics. }
  change NODE_EVENT_CAPACITY with 8%nat. set (i := findFree 8 0 s) in *.
  rewrite (proj2 (Nat.eqb_neq i 255)) by (destruct Hi; lia).
  destruct Hs as (Hg & Hix & Hh). pose proof (gr_alloc _ _ _ Hg) as Hic.
  destruct (EventIdentity.allocate_in_charge src (allocator_ s) w Hic)
    as (a & w1 & [(x & E & Ha & Hsx & Hx & Hcx & Hlt)|(st & Hst & E & _ & _ & Hcov)]);
    pose proof (λ i c, allocate_events (allocator_ s) w i c) as He;
    pose proof (on_allocator_run _ s w _ _ _ E) as Eo; rewrite E in He; cbn [fst snd] in He;
    rewrite (bind_run _ _ _ _ _ Eo); cbn [EventIdentity.result_status EventIdentity.result_identity].
  - decide_eqs. cbn [negb]. rewrite bind_this. by apply (enqueue_commits src s w i x a w1 input).
  - rewrite bool_decide_eq_false_2 by done. cbn [negb].
    do 3 eexists. split; [|reflexivity].
    apply (enqueue_identity_failed src s w input i); try done.
    destruct (grounded_custody _ _ _ Hg) as [Hcg Hcd _]. split; [|done|].
    + intros j Hj. destruct (Hcg j Hj) as [c Hgc]. exists c. eapply governs_eq; [|exact Hgc]. done.
    + exists (identities src (record_at s)). split; [|by apply identities_in].
      apply Hcov, identities_forall. by apply Hg.
Qed.

(** ** The contract *)

Lemma op_out_of_range src s w op :
  sound src s w → (8 ≤ op_slot op)%nat → run_op op (s, w) = (bad_slot op, (s, w)).
Proof.
  intros Hs Hi. pose proof (sound_healthy _ _ _ Hs) as Hh.
  destruct op; cbn [op_slot run_op bad_slot] in *;
    unfold markFailed, markExpired, transition, reclaim, releaseQueued, checkpointRemaining,
      armAttempt; object; rewrite Hh; bsimp; change NODE_EVENT_CAPACITY with 8%nat;
    by rewrite (proj2 (Nat.leb_le _ _) Hi).
Qed.

Lemma op_refines_spec src s w op : sound src s w → op_wf op → op_refines src s w op.
Proof.
  intros Hs Hwf. destruct (decide (op_slot op < 8)%nat) as [Hi|Hi].
  - exact (op_in_range src s w op Hs Hwf Hi).
  - unfold op_refines, op_spec. change NODE_EVENT_CAPACITY with 8%nat.
    rewrite (proj2 (Nat.ltb_ge _ _)) by lia. apply (op_out_of_range src s w); [done|lia].
Qed.

(** C5. Every mutation of a sound store refines one change of one record.  A
    slot out of range or a record in the wrong state is refused with the exact
    status and nothing changes.  Otherwise the store either answers success, is
    sound again and holds exactly the new record in that slot; or answers a
    storage failure, stops serving, and the two flash copies of every slot
    still hold exactly one authoritative record - in that slot the old one or
    the new one, never a mixture and never none - whatever the storage did. *)
Theorem mutations_refine src s w op :
  sound src s w → op_wf op →
  match op_spec op s with
  | inl refusal => run_op op (s, w) = (refusal, (s, w))
  | inr next =>
      (∃ s' w', run_op op (s, w) = (accepted op, (s', w')) ∧ sound src s' w'
         ∧ (∀ j, record_at s' j = replaced (op_slot op) next (record_at s) j)
         ∧ allocator_ s' = allocator_ s)
      ∨ (∃ s' w', run_op op (s, w) = (storage_failed op, (s', w')) ∧ healthy_ s' = false
         ∧ (custody src w' (record_at s)
            ∨ custody src w' (replaced (op_slot op) next (record_at s))))
  end.
Proof.
  exact (op_refines_spec src s w op).
Qed.

(** C6. An enqueue on a sound store has exactly five endings: an invalid input
    or a full queue changes nothing; otherwise the first free slot is taken,
    and either the event is stored there under an identity later than that of
    every event in custody, with all other slots untouched, or the store stops
    serving with every earlier event still in custody. *)
Theorem enqueue_refines src s w input :
  sound src s w → input_wf input →
  enqueue_outcome src s w input (enqueue input (s, w)).1 (enqueue input (s, w)).2.1
    (enqueue input (s, w)).2.2.
Proof.
  intros Hs Hwf. destruct (enqueue_cases src s w input Hs Hwf) as (res & s' & w' & Ho & ->).
  exact Ho.
Qed.

End Durable.

Lemma degraded_op {W : Type} `{Storage W} `{EventIdentity.EntropySource W}
    (s : Store) (w : W) (op : Op) :
  healthy_ s = false → run_op op (s, w) = (degraded op, (s, w)).
Proof.
  intros Hh. destruct op; cbn [run_op degraded];
    unfold markFailed, markExpired, transition, reclaim, releaseQueued, checkpointRemaining,
      armAttempt; object; by rewrite Hh.
Qed.

Lemma degraded_enqueue {W : Type} `{Storage W} `{EventIdentity.EntropySource W}
    (s : Store) (w : W) (input : EventInput) :
  healthy_ s = false →
  enqueue input (s, w) = (mkEnqueueResult ENQUEUE_DEGRADED noIdentity 255, (s, w)).
Proof. intros Hh. unfold enqueue. object. by rewrite Hh. Qed.

(** C13. A store that has failed once serves nothing any more: whatever the
    operation, it answers that it is degraded and touches neither its state nor
    the storage. *)
Theorem degraded_store_refuses {W : Type} `{Storage W} `{EventIdentity.EntropySource W}
    (s : Store) (w : W) (op : Op) (input : EventInput) :
  healthy_ s = false →
  run_op op (s, w) = (degraded op, (s, w))
  ∧ enqueue input (s, w) = (mkEnqueueResult ENQUEUE_DEGRADED noIdentity 255, (s, w)).
Proof.
  intros Hh. split; [by apply degraded_op|by apply degraded_enqueue].
Qed.

End NodeOps.
