(* ===== verification/NodeRecovery.v ===== *)
(** Recovery of the Node event store: the records in custody in the flash are
    exactly the records of a recovered store, over any history of faults. *)

From S2P Require Import Prelude Wire EventWire Copies Records Identity Diagnostics NodeStore NodeQueue NodeFacts NodeOps.

Module NodeRecovery.

Import EventStorage EventRecords NodeEventStore NodeQueue NodeFacts NodeOps.

Section Durable.

Context {W : Type} `{Storage W} `{!EventIdentity.MetadataStorageLaws W} `{!StorageLaws W}
  `{EventIdentity.EntropySource W} `{!EventIdentity.DurableMetadata W} `{!DurableEvents W}.

Implicit Types (s : Store) (w : W).

Abbreviation governs w i := (authority nr_generation (content w i)).

(** The flash holds the same blobs. *)
Definition same_flash w w' : Prop :=
  (∀ i c, storedEvent w' i c = storedEvent w i c) ∧ EventIdentity.same_store w w'.

Lemma same_flash_trans w w' w'' : same_flash w w' → same_flash w' w'' → same_flash w w''.
Proof.
  intros [G1 G2] [G3 G4]. split; [intros i c; by rewrite G3|intros k; by rewrite G4].
Qed.

Lemma custody_same src w w' R : same_flash w w' → custody src w R → custody src w' R.
Proof.
  intros [He Hm] [Hg Hd (l & Hc & Hl)]. split; [|done|].
  - intros i Hi. destruct (Hg i Hi) as [c Hgc]. exists c. eapply governs_eq; [|exact Hgc]. done.
  - exists l. split; [by eapply EventIdentity.governs_covered|done].
Qed.

(** Equal records have equal bytes. *)
Lemma holds_bytes copy r :
  is_byte_list (bytes copy) → holds zeroNodeRecord decodeNodeRecordForSelection copy = Some r →
  bytes copy = nodeRecordBytes r ∧ node_record_wf r.
Proof.
  intros Hb. unfold holds. destruct (bool_decide _); [|done].
  unfold decodeNodeRecordForSelection.
  destruct (decodeNodeRecord (Some (bytes copy)) zeroNodeRecord) as [[] r'] eqn:E; try done.
  intros [= <-]. by apply decodeNodeRecord_inv in E as (?&?&->).
Qed.

(** Reading both copies of a slot whose authority is [r] selects [r]. *)
Lemma select_governed w i r c ca cb :
  governs w i r c →
  length (bytes ca) = 56%nat → is_byte_list (bytes ca) →
  holds zeroNodeRecord decodeNodeRecordForSelection ca = content w i A →
  length (bytes cb) = 56%nat → is_byte_list (bytes cb) →
  holds zeroNodeRecord decodeNodeRecordForSelection cb = content w i B →
  ∃ result c', usable result = true ∧ selectRecords ca cb = (result, r, c') ∧ governs w i r c'.
Proof.
  intros Hg Hla Hba Hca Hlb Hbb Hcb.
  set (copies := λ k, match k with A => ca | B => cb end).
  assert (Hh : ∀ k, holds zeroNodeRecord decodeNodeRecordForSelection (copies k) = content w i k)
    by by intros [].
  assert (Hl : ∀ k, length (bytes (copies k)) = 56%nat) by by intros [].
  assert (Hb : ∀ k, is_byte_list (bytes (copies k))) by by intros [].
  assert (Hau : authority nr_generation
    (λ k, holds zeroNodeRecord decodeNodeRecordForSelection (copies k)) r c).
  { destruct Hg as [G1 G2]. split; [by rewrite Hh|]. intros r'. rewrite Hh. apply G2. }
  change (selectRecords ca cb) with
    (selectAt zeroNodeRecord nr_generation decodeNodeRecordForSelection 56 copies).
  destruct (selectAt_of_authority zeroNodeRecord nr_generation decodeNodeRecordForSelection 56
    copies r c Hau) as (result & c' & Hu & E & Hc').
  - intros k r' Hr'. apply holds_bytes in Hr' as [_ (?&_)]; done.
  - intros k k' r' H1' H2'. apply holds_bytes in H1' as [E1 Hwf]; [|done].
    apply holds_bytes in H2' as [E2 _]; [|done]. rewrite E1, E2.
    apply bytes_eqb_eq; [by apply length_nodeRecordBytes..|done].
  - exists result, c'. split; [done|]. split; [done|].
    apply selectAt_authority in E as [G1 G2]; [|done|done].
    split; [by rewrite <- Hh|]. intros r'. rewrite <- Hh. apply G2.
Qed.

Definition with_slots (l : list SlotState) s : Store := s <| slots_ := l |>.

Lemma set_slot_with i x s : set_slot i x s = with_slots (<[i := x]> (slots_ s)) s.
Proof. reflexivity. Qed.

(** The slots below [n] hold the records [R]. *)
Definition filled w (R : nat → NodeRecord) (n : nat) s : Prop :=
  length (slots_ s) = 8%nat
  ∧ ∀ j, (j < n)%nat → ∃ c, slot_at s j = mkSlot true (R j) c ∧ governs w j (R j) c.

Lemma filled_same w w' R n s : same_flash w w' → filled w R n s → filled w' R n s.
Proof.
  intros [He _] [Hl Hf]. split; [done|]. intros j Hj. destruct (Hf j Hj) as (c & E & Hg).
  exists c. split; [done|]. eapply governs_eq; [|exact Hg]. done.
Qed.

Lemma filled_next w R n s c :
  (n < 8)%nat → filled w R n s → governs w n (R n) c →
  filled w R (S n) (set_slot n (mkSlot true (R n) c) s).
Proof.
  intros Hn [Hl Hf] Hg. split; [unfold set_slot, rec_set; cbn; by rewrite length_insert|].
  intros j Hj. rewrite slot_at_set by lia. destruct (decide (j = n)) as [->|]; [by exists c|].
  apply Hf. lia.
Qed.

Lemma acceptSelection_usable result s w :
  usable result = true → acceptSelection result (s, w) = (true, (s, w)).
Proof. by destruct result. Qed.

(** The scan of a flash in custody finds the records in custody. *)
Lemma recoverSlots_custody R n slot miss any s w :
  (slot + n = 8)%nat → (∀ i, (i < 8)%nat → ∃ c, governs w i (R i) c) → filled w R slot s →
  ∃ s' w', same_flash w w'
   ∧ ((recoverSlots n slot miss any (s, w)
         = (Some (miss && bool_decide (n = 0%nat),
                  any || existsb (λ i, holdsEvent (R i)) (seq slot n)), (s', w'))
       ∧ filled w' R 8 s' ∧ s' = with_slots (slots_ s') s)
      ∨ (recoverSlots n slot miss any (s, w) = (None, (s', w'))
         ∧ healthy_ s' = false ∧ status_ s' ≠ READY)).
Proof.
  revert slot miss any s w. induction n as [|n IH]; intros slot miss any s w Hn Hg Hf.
  { exists s, w. split; [done|]. left. assert (slot = 8)%nat as -> by lia. cbn.
    rewrite andb_true_r, orb_false_r. split; [done|]. split; [done|]. by destruct s. }
  cbn [recoverSlots].
  destruct (readRecordCopy_cases slot A s w) as (w1 & He1 & Hm1 & [(ca & E1 & Hla & Hba & Hca & Hma)|(ca & E1)]);
    rewrite (bind_run _ _ _ _ _ E1); cbn [negb].
  2:{ do 2 eexists. split; [by split|]. right. by split. }
  destruct (readRecordCopy_cases slot B s w1) as (w2 & He2 & Hm2 & [(cb & E2 & Hlb & Hbb & Hcb & Hmb)|(cb & E2)]);
    rewrite (bind_run _ _ _ _ _ E2); cbn [negb];
    assert (Hs2 : same_flash w w2) by (by apply (same_flash_trans w w1)).
  2:{ do 2 eexists. split; [exact Hs2|]. right. by split. }
  destruct (Hg slot) as [c Hgc]; [lia|].
  assert (Hcb' : holds zeroNodeRecord decodeNodeRecordForSelection cb = content w slot B).
  { rewrite Hcb. unfold content. by rewrite He1. }
  destruct (select_governed w slot (R slot) c ca cb) as (result & c' & Hu & Es & Hgc'); [done..|].
  rewrite Es, (bind_run _ _ _ _ _ (acceptSelection_usable _ _ _ Hu)). cbn [negb].
  assert (Hmiss : (if negb (bool_decide (EventStorage.status ca = READ_MISSING))
      || negb (bool_decide (EventStorage.status cb = READ_MISSING)) then false else miss) = false).
  { destruct (bool_decide_reflect (EventStorage.status ca = READ_MISSING)) as [Ga|]; [|done].
    destruct (bool_decide_reflect (EventStorage.status cb = READ_MISSING)) as [Gb|]; [|done].
    apply Hma in Ga. apply Hmb in Gb. rewrite He1 in Gb. destruct Hgc as [Hc _].
    apply event_content_inv in Hc as (_&_&Hst). destruct c; congruence. }
  rewrite Hmiss. replace (bool_decide (result = BOTH_INVALID)) with false
    by (symmetry; by destruct result).
  rewrite (bind_run (update _) _ (s, w2) tt (set_slot slot (mkSlot true (R slot) c') s, w2)) by done.
  destruct (IH (S slot) false (if negb (nr_state (R slot) =? NodeState.FREE) then true else any)
    (set_slot slot (mkSlot true (R slot) c') s) w2) as (s' & w' & Hs' & [(E & Hfl & Hsl)|(E & Hh)]).
  - lia.
  - intros i Hi. destruct (Hg i Hi) as [d Hd]. exists d. eapply governs_eq; [|exact Hd]. apply Hs2.
  - apply filled_next; [lia|by apply (filled_same w)|]. eapply governs_eq; [|exact Hgc']. apply Hs2.
  - exists s', w'. split; [by eapply same_flash_trans|]. left. split; [|split; [done|]].
    + rewrite E. cbn [seq existsb]. decide_eqs. rewrite andb_false_r. cbn [andb].
      change (negb (nr_state (R slot) =? NodeState.FREE)) with (holdsEvent (R slot)).
      by destruct (holdsEvent (R slot)), any.
    + rewrite set_slot_with in Hsl. by destruct s, s'.
  - exists s', w'. split; [by eapply same_flash_trans|]. right. by split.
Qed.

Lemma checkSlots_present n slot s w :
  (slot + n = 8)%nat → (∀ j, (j < 8)%nat → present (slot_at s j) = true) →
  checkSlots n slot (s, w) = (true, (s, w)).
Proof.
  revert slot. induction n as [|n IH]; intros slot Hn Hp; [done|]. cbn [checkSlots].
  rewrite bind_this. cbn [id]. rewrite Hp by lia. cbn [negb]. apply IH; [lia|done].
Qed.

Lemma identity_recover_events src custody_state a w i c :
  storedEvent (EventIdentity.recover src custody_state (a, w)).2.2 i c = storedEvent w i c.
Proof.
  apply (EventIdentity.recover_frame (λ v, storedEvent v i c)
    ltac:(intros; apply metadata_read_keeps) ltac:(intros; apply metadata_write_keeps)
    ltac:(intros; apply commit_keeps_events) ltac:(intros; apply entropy_keeps_events)
    src custody_state (a, w)).
Qed.

Lemma filled_record w R n s j : (j < n)%nat → filled w R n s → record_at s j = R j.
Proof. intros Hj [_ Hf]. unfold record_at. destruct (Hf j Hj) as (c & -> & _). done. Qed.

Lemma filled_grounded src w R s :
  is_u8 src → filled w R 8 s → length (queue_ s) = 8%nat →
  (∀ i j, (i < j < 8)%nat → holdsEvent (R i) = true → holdsEvent (R j) = true →
     ¬ (nr_eventEpoch (R i) = nr_eventEpoch (R j) ∧ nr_eventId (R i) = nr_eventId (R j))) →
  EventIdentity.in_charge src (allocator_ s) w →
  (∀ i, (i < 8)%nat → holdsEvent (R i) = true →
     EventIdentity.cursor_below (identity_of src (R i)) (allocator_ s)) →
  grounded src s w.
Proof.
  intros Hsrc Hf Hq Hd Hic Hb. pose proof (λ j Hj, filled_record w R 8 s j Hj Hf) as Hr.
  destruct Hf as [Hl Hf].
  assert (Hp : ∀ i, (i < 8)%nat → present (slot_at s i) = true).
  { intros i Hi. by destruct (Hf i Hi) as (c & -> & _). }
  split; try done.
  - intros i Hi. rewrite Hr by done. by destruct (Hf i Hi) as (c & -> & Hg).
  - intros i j Hij Hi Hj. unfold NODE_EVENT_CAPACITY in Hij. unfold sameIdentity.
    rewrite !Hr by lia. rewrite owned_holds, Hr in Hi by auto with lia.
    rewrite owned_holds, Hr in Hj by auto with lia. by apply Hd.
  - intros i Hi. rewrite Hr by done. by apply Hb.
Qed.

(** How a recovery over custody ends. *)
Definition restored src (R : nat → NodeRecord) (result : Status * (Store * W)) : Prop :=
  let '(st, (s', w')) := result in
  (st = READY ∧ sound src s' w' ∧ ∀ i, (i < 8)%nat → record_at s' i = R i)
  ∨ (st ≠ READY ∧ healthy_ s' = false ∧ custody src w' R).

Definition in_service s : Store := s <| healthy_ := true |> <| status_ := READY |>.

Lemma grounded_service src s w : grounded src s w → grounded src (in_service s) w.
Proof. intros [? ? ? ? ? ? ?]. by split. Qed.

(** [recover] once every slot is loaded. *)
Lemma recover_resumes src R custody_state s w :
  is_u8 src → custody src w R → filled w R 8 s → length (queue_ s) = 8%nat →
  allocator_ s = EventIdentity.newAllocator → healthy_ s = false →
  restored src R ((identityStatus <~ on_allocator (EventIdentity.recover src custody_state) ;;
    if negb (bool_decide (identityStatus = EventIdentity.READY)) then
      update (λ s, s <| identityStatus_ := identityStatus |>) ;;;
      fail STATUS_IDENTITY_FAILURE
    else
    indexed <~ rebuildIndex ;;
    if negb indexed then this status_ else
    update (λ s, s <| healthy_ := true |> <| status_ := READY |>) ;;;
    count <~ this queueCount_ ;;
    note RuntimeState.EVENT_RECOVERED (u32 (Z.of_nat count)) ;;;
    updateQueueSnapshot ;;;
    this status_) (s, w)).
Proof.
  intros Hsrc [Hcg Hcd (l & Hcov & Hin)] Hf Hq Ha Hh.
  destruct (EventIdentity.recover src custody_state (allocator_ s, w)) as [st [a w1]] eqn:E.
  pose proof (identity_recover_events src custody_state (allocator_ s) w) as He.
  rewrite E in He; cbn [fst snd] in He.
  rewrite (bind_run _ _ _ _ _ (on_allocator_run _ s w _ _ _ E)).
  rewrite Ha in E.
  destruct (EventIdentity.recover_covered src custody_state w l st a w1 Hsrc Hcov E)
    as [(-> & Hic & Hl)|(Hst & _ & _ & Hcov1)].
  2:{ rewrite bool_decide_eq_false_2 by done. cbn [negb]. right. split; [done|]. split; [done|].
      split; [|done|by exists l].
      intros i Hi. destruct (Hcg i Hi) as [c Hc]. exists c. eapply governs_eq; [|exact Hc]. done. }
  decide_eqs. cbn [negb].
  assert (Hf1 : filled w1 R 8 (with_allocator a s)).
  { destruct Hf as [Hll Hf]. split; [done|]. intros j Hj. destruct (Hf j Hj) as (c & E1 & Hg).
    exists c. split; [done|]. eapply governs_eq; [|exact Hg]. done. }
  assert (Hg1 : grounded src (with_allocator a s) w1).
  { apply (filled_grounded src w1 R); try done. intros i Hi Ho. cbn.
    rewrite Forall_forall in Hl. by apply Hl, Hin. }
  destruct (rebuildIndex_cases (with_allocator a s) w1 Hq)
    as (q & c & Hlq & [(E1 & Hix & _)|(E1 & Hnd)]); [|by pose proof (gr_distinct _ _ _ Hg1)].
  rewrite (bind_run _ _ _ _ _ E1). cbn [negb].
  set (s2 := in_service (with_index q c (with_allocator a s))).
  rewrite (bind_run (update _) _ _ tt (s2, w1)) by done. rewrite bind_this.
  destruct (note_run RuntimeState.EVENT_RECOVERED (u32 (Z.of_nat (queueCount_ s2))) s2 w1) as [d1 E2].
  rewrite (bind_run _ _ _ _ _ E2).
  destruct (updateQueueSnapshot_run (with_diagnostics d1 s2) w1) as [d2 E3].
  rewrite (bind_run _ _ _ _ _ E3). left. split; [reflexivity|]. split.
  - do 2 apply sound_diagnostics. split; [|split; [exact Hix|done]].
    apply grounded_service, grounded_index; done.
  - intros i Hi. by apply (filled_record w1 R 8 (with_allocator a s)).
Qed.

Lemma recover_restored src R s0 w :
  is_u8 src → custody src w R → restored src R (recover src (s0, w)).
Proof.
  intros Hsrc Hcu. unfold recover.
  rewrite (bind_run (update _) _ _ tt (reset s0, w)) by done.
  set (s := (reset s0) <| sourceDeviceId_ := src |>).
  rewrite (bind_run (update _) _ _ tt (s, w)) by done.
  destruct (src =? 0); [by right|].
  destruct (recoverSlots_custody R 8 0 true false s w) as (s1 & w1 & Hw1 & [(E & Hf & Hs)|(E & Hh & Hst)]);
    [done|apply Hcu|split; [done|lia]|rewrite (bind_run _ _ _ _ _ E)..].
  2:{ right. split; [done|]. split; [done|]. by eapply custody_same. }
  cbn [andb bool_decide].
  assert (Hcu1 : custody src w1 R) by by eapply custody_same.
  rewrite bool_decide_eq_false_2 by done. cbn [andb].
  assert (Hp : ∀ j, (j < 8)%nat → present (slot_at s1 j) = true).
  { intros j Hj. by destruct (proj2 Hf j Hj) as (c & -> & _). }
  rewrite (bind_run _ _ _ _ _ (checkSlots_present 8 0 s1 w1 eq_refl Hp)).
  cbn [negb].
  apply (recover_resumes src R _ s1 w1); try done; by rewrite Hs.
Qed.

(** ** The first boot *)

Definition initialRecord : NodeRecord :=
  zeroNodeRecord <| nr_generation := 1 |> <| nr_state := NodeState.FREE |>.

Lemma initialRecord_ok : node_record_wf initialRecord ∧ validateNodeRecord initialRecord = OK.
Proof. split; [|reflexivity]. unfold node_record_wf. split_and!; concrete. Qed.

Definition blank w : Prop := ∀ i c, storedEvent w i c = None.

Lemma clear_blank_slot slot s :
  slots_ s = replicate 8 zeroSlot →
  set_slot slot ((slot_at s slot) <| present := false |>) s = s.
Proof.
  intros Hs. assert (Hz : (slot_at s slot) <| present := false |> = zeroSlot).
  { unfold slot_at. rewrite Hs. do 8 (destruct slot as [|slot]; [done|]). by destruct slot. }
  rewrite Hz, set_slot_with. assert (Hi : <[slot := zeroSlot]> (slots_ s) = slots_ s).
  { rewrite Hs. do 8 (destruct slot as [|slot]; [done|]). done. }
  rewrite Hi. by destruct s.
Qed.

Lemma recoverSlots_blank n slot miss any s w :
  blank w → slots_ s = replicate 8 zeroSlot →
  ∃ w', same_flash w w'
   ∧ (recoverSlots n slot miss any (s, w) = (Some (miss, any), (s, w'))
      ∨ ∃ s', recoverSlots n slot miss any (s, w) = (None, (s', w'))
          ∧ healthy_ s' = false ∧ status_ s' ≠ READY).
Proof.
  intros Hb Hs. revert slot w Hb. induction n as [|n IH]; intros slot w Hb.
  { exists w. split; [done|]. by left. }
  cbn [recoverSlots].
  destruct (readRecordCopy_cases slot A s w) as (w1 & He1 & Hm1 & [(ca & E1 & _ & _ & Hca & Hma)|(ca & E1)]);
    rewrite (bind_run _ _ _ _ _ E1); cbn [negb].
  2:{ exists w1. split; [by split|]. right. by eexists. }
  destruct (readRecordCopy_cases slot B s w1) as (w2 & He2 & Hm2 & [(cb & E2 & _ & _ & Hcb & Hmb)|(cb & E2)]);
    rewrite (bind_run _ _ _ _ _ E2); cbn [negb];
    assert (Hs2 : same_flash w w2) by (by apply (same_flash_trans w w1)).
  2:{ exists w2. split; [done|]. right. by eexists. }
  rewrite (proj2 Hma) by apply Hb. rewrite (proj2 Hmb) by (rewrite He1; apply Hb).
  assert (Hnone : ∀ v k, (∀ i c, storedEvent v i c = None) → content v slot k = None).
  { intros v k Hv. unfold content. rewrite Hv. reflexivity. }
  unfold selectRecords. rewrite selectCopies_holds, Hca, Hcb, !Hnone by
    (try done; intros; by rewrite He1).
  decide_eqs. unfold acceptSelection. decide_eqs.
  rewrite (bind_run (ret true) _ _ true (s, w2)) by done. cbn [negb].
  pose proof (clear_blank_slot slot s Hs) as Hset.
  rewrite (bind_run (update _) _ _ tt (s, w2)) by (object; by rewrite Hset).
  destruct (IH (S slot) w2) as (w3 & Hw3 & Hc); [intros i c; rewrite He2, He1; apply Hb|].
  exists w3. split; [by eapply same_flash_trans|]. exact Hc.
Qed.

(** The first [n] slots are initialised, the others are blank. *)
Record initialised n s w : Prop := mkInitialised {
  in_filled : filled w (λ _, initialRecord) n s;
  in_blank i c : (n ≤ i)%nat ∨ c = B → storedEvent w i c = None
}.

Lemma commitInitialFree_cases slot s w :
  (slot < 8)%nat → initialised slot s w →
  ∃ w', (commitInitialFree slot initialRecord (s, w)
           = (true, (set_slot slot (mkSlot true initialRecord A) s, w'))
         ∧ initialised (S slot) (set_slot slot (mkSlot true initialRecord A) s) w')
    ∨ ∃ st, commitInitialFree slot initialRecord (s, w) = (false, (failed st s, w'))
        ∧ st ≠ READY.
Proof.
  intros Hi [Hf Hb]. destruct initialRecord_ok as [Hwf Hv]. unfold commitInitialFree.
  rewrite encodeNodeRecord_spec by done.
  destruct (writeVerify_cases slot A (nodeRecordBytes initialRecord) s w)
    as (w1 & Hw & Hm & [[E Hst]|(st & Hne & E)]); [by apply length_nodeRecordBytes|..];
    rewrite (bind_run _ _ _ _ _ E); exists w1; [left|right; by exists st].
  assert (Hk : ∀ i c, (i, c) ≠ (slot, A) → storedEvent w1 i c = storedEvent w i c).
  { intros i c Hne. rewrite Hw. by apply writeEvent_keeps. }
  split; [reflexivity|]. split.
  - apply (filled_next w1 (λ _, initialRecord)); [done| |].
    + destruct Hf as [Hl Hf]. split; [done|]. intros j Hj. destruct (Hf j Hj) as (c & E1 & Hg).
      exists c. split; [done|]. eapply governs_eq; [|exact Hg].
      intros d. apply Hk. intros [=]. lia.
    + split; [by apply event_content_stored|]. intros r'. unfold content, other.
      rewrite Hk by done. rewrite Hb by auto. done.
  - intros i c Hic. rewrite Hk; [apply Hb|]; [|intros [=]]; destruct Hic; auto with lia; subst; done.
Qed.

Lemma initializeSlots_cases n slot s w :
  (slot + n = 8)%nat → initialised slot s w →
  ∃ s' w', (initializeSlots n slot (s, w) = (true, (s', w')) ∧ initialised 8 s' w'
              ∧ s' = with_slots (slots_ s') s)
    ∨ (initializeSlots n slot (s, w) = (false, (s', w'))
       ∧ healthy_ s' = false ∧ status_ s' ≠ READY).
Proof.
  revert slot s w. induction n as [|n IH]; intros slot s w Hn Hin.
  { exists s, w. left. assert (slot = 8)%nat as -> by lia. split; [done|]. split; [done|].
    by destruct s. }
  cbn [initializeSlots]. change (zeroNodeRecord <| nr_generation := 1 |> <| nr_state := _ |>)
    with initialRecord.
  destruct (commitInitialFree_cases slot s w) as (w1 & [(E & Hin1)|(st & E & Hst)]); [lia|done|..];
    rewrite (bind_run _ _ _ _ _ E); cbn [negb].
  - destruct (IH (S slot) _ w1 ltac:(lia) Hin1) as (s' & w' & [(E' & Hin' & Hs')|Hf]);
      exists s', w'; [left|by right].
    split; [done|]. split; [done|]. rewrite set_slot_with in Hs'. by destruct s, s'.
  - do 2 eexists. right. by split.
Qed.

Lemma first_boot_cases src s0 w :
  is_u8 src → blank w →
  let '(st, (s', w')) := recover src (s0, w) in
  (st = READY ∧ sound src s' w' ∧ ∀ i, (i < 8)%nat → record_at s' i = initialRecord)
  ∨ (st ≠ READY ∧ healthy_ s' = false).
Proof.
  intros Hsrc Hb. unfold recover.
  rewrite (bind_run (update _) _ _ tt (reset s0, w)) by done.
  set (s := (reset s0) <| sourceDeviceId_ := src |>).
  rewrite (bind_run (update _) _ _ tt (s, w)) by done.
  destruct (src =? 0); [by right|].
  destruct (recoverSlots_blank 8 0 true false s w Hb eq_refl) as (w1 & [He1 _] & [E|(s' & E & Hh & Hst)]);
    rewrite (bind_run _ _ _ _ _ E); [|by right].
  destruct (initializeSlots_cases 8 0 s w1 eq_refl) as (s1 & w2 & [(E1 & [Hf _] & Hs)|(E1 & Hh & Hst)]).
  { split; [split; [done|intros; lia]|]. intros i c _. rewrite He1. apply Hb. }
  2:{ rewrite (bind_run _ _ _ _ _ E1). by right. }
  rewrite (bind_run _ _ _ _ _ E1). cbn [negb].
  pose proof (recover_resumes src (λ _, initialRecord) EventIdentity.CUSTODY_EMPTY s1 w2) as Hr.
  specialize (Hr Hsrc). unfold restored in Hr.
  assert (Hcu : custody src w2 (λ _, initialRecord)).
  { split; [|done|exists []; split; [by left|done]]. intros i Hi.
    destruct (proj2 Hf i Hi) as (c & _ & Hg). by exists c. }
  specialize (Hr Hcu Hf ltac:(by rewrite Hs) ltac:(by rewrite Hs) ltac:(by rewrite Hs)).
  cbv iota. revert Hr. destruct (bind _ _ _) as [st [s' w']].
  intros [?|(?&?&_)]; [by left|by right].
Qed.

(** ** Recovery as a contract *)

(** C4. A recovery loses no event and invents none.  Whatever the flash does
    during the recovery, on a flash in custody of the eight records [R] it
    either ends READY, sound and holding exactly [R] - with the index sorted
    and the allocator ahead of every identity - or it ends refusing service
    with [R] still in custody for the next boot. *)
Theorem recover_restores_custody src R s0 w st s' w' :
  is_u8 src → custody src w R → recover src (s0, w) = (st, (s', w')) →
  (st = READY ∧ sound src s' w' ∧ ∀ i, (i < 8)%nat → record_at s' i = R i)
  ∨ (st ≠ READY ∧ healthy_ s' = false ∧ custody src w' R).
Proof.
  intros Hsrc Hcu E. pose proof (recover_restored src R s0 w Hsrc Hcu) as Hr.
  rewrite E in Hr. exact Hr.
Qed.

(** On a blank flash a recovery either initialises all eight slots, and is
    then sound with every slot free, or ends refusing service. *)
Theorem first_boot_initialises src s0 w st s' w' :
  is_u8 src → (∀ i c, storedEvent w i c = None) → recover src (s0, w) = (st, (s', w')) →
  (st = READY ∧ sound src s' w' ∧ ∀ i, (i < 8)%nat → record_at s' i = initialRecord)
  ∨ (st ≠ READY ∧ healthy_ s' = false).
Proof.
  intros Hsrc Hb E. pose proof (first_boot_cases src s0 w Hsrc Hb) as Hr.
  rewrite E in Hr. exact Hr.
Qed.

(** ** A lifetime of commands and reboots *)

Inductive Command :=
| Do (op : Op)
| Enqueue (input : EventInput)
| Reboot.

Definition command_wf (c : Command) : Prop :=
  match c with Do op => op_wf op | Enqueue input => input_wf input | Reboot => True end.

Definition run_command (src : Z) (c : Command) : st (Store * W) unit :=
  match c with
  | Do op => run_op op ;;; ret tt
  | Enqueue input => enqueue input ;;; ret tt
  | Reboot => recover src ;;; ret tt
  end.

Fixpoint run_commands (src : Z) (cs : list Command) : st (Store * W) unit :=
  match cs with
  | [] => ret tt
  | c :: cs' => run_command src c ;;; run_commands src cs'
  end.

(** Serving the records [R], or out of service with [R] in custody. *)
Definition serving src (R : nat → NodeRecord) (x : Store * W) : Prop :=
  (sound src x.1 x.2 ∧ ∀ i, (i < 8)%nat → record_at x.1 i = R i)
  ∨ (healthy_ x.1 = false ∧ custody src x.2 R).

(** The event of the record [r] is still queued in [r'], with the same content
    and identity, no more lifetime and no fewer attempts. *)
Definition still_queued (r r' : NodeRecord) : Prop :=
  nr_state r = NodeState.QUEUED ∧ nr_state r' = NodeState.QUEUED
  ∧ nr_eventEpoch r' = nr_eventEpoch r ∧ nr_eventId r' = nr_eventId r
  ∧ nr_family r' = nr_family r ∧ nr_flags r' = nr_flags r
  ∧ nr_bodyLength r' = nr_bodyLength r ∧ nr_body r' = nr_body r
  ∧ nr_lifetimeBudgetSeconds r' = nr_lifetimeBudgetSeconds r
  ∧ remainingActiveSeconds r' ≤ remainingActiveSeconds r
  ∧ attemptsUsed r ≤ attemptsUsed r'.

(** The commands that end the event of slot [i]. *)
Definition ends_slot (i : nat) (c : Command) : Prop :=
  match c with
  | Do (MarkFailed j) | Do (MarkExpired j) | Do (ReleaseQueued j) => j = i
  | _ => False
  end.

Lemma still_queued_refl r : nr_state r = NodeState.QUEUED → still_queued r r.
Proof. intros Hq. unfold still_queued. split_and!; done || lia. Qed.

Lemma still_queued_trans r1 r2 r3 : still_queued r1 r2 → still_queued r2 r3 → still_queued r1 r3.
Proof. unfold still_queued. intros. intuition congruence || lia. Qed.

Lemma custody_ext src w R R' :
  (∀ i, (i < 8)%nat → R i = R' i) → custody src w R → custody src w R'.
Proof.
  intros HR [Hg Hd (l & Hc & Hl)]. split.
  - intros i Hi. rewrite <- HR by done. auto.
  - intros i j Hij. rewrite <- !HR by lia. auto.
  - exists l. split; [done|]. intros i Hi. rewrite <- HR by done. auto.
Qed.

Lemma op_record_keeps op i r next :
  is_u8 (attemptsUsed r) → nr_state r = NodeState.QUEUED →
  ¬ ends_slot i (Do op) → op_slot op = i → op_record op r = inr next → still_queued r next.
Proof.
  intros Ha Hq Hne Hs. destruct op as [j|j|j|j|j rem|j]; cbn in *; rewrite ?Hq; cbn; try done.
  - destruct (0 <? rem) eqn:E0, (rem <? remainingActiveSeconds r) eqn:E1; cbn; try done.
    intros [= <-]. unfold still_queued, checkpointed, rec_set; cbn. zbool. split_and!; done || lia.
  - destruct (attemptsUsed r <? MAX_ATTEMPTS) eqn:E; [|done]. zbool.
    intros [= <-]. unfold still_queued, armed, MAX_ATTEMPTS, rec_set in *; cbn.
    rewrite wrap_small by uint. split_and!; done || lia.
Qed.

Lemma serving_done src s w : sound src s w → serving src (record_at s) (s, w).
Proof. intros Hs. left. by split. Qed.

(** After a failure either of two record arrays may be in custody. *)
Lemma serving_broken src s i r s' w' (P : (nat → NodeRecord) → Prop) :
  broken src s i r s' w' → P (record_at s) → P (replaced i r (record_at s)) →
  ∃ R', serving src R' (s', w') ∧ P R'.
Proof. intros (Hh & [Hc|Hc]) P1 P2; eexists; (split; [by right|done]). Qed.

Lemma op_keeps src i op s w :
  op_wf op → ¬ ends_slot i (Do op) → (i < 8)%nat → sound src s w →
  nr_state (record_at s i) = NodeState.QUEUED →
  ∃ R', serving src R' (run_op op (s, w)).2 ∧ still_queued (record_at s i) (R' i).
Proof.
  intros Hwf Hne Hi Hs Hq. pose proof (op_refines_spec src s w op Hs Hwf) as Hr.
  unfold op_refines in Hr. destruct (op_spec op s) as [refusal|next] eqn:E.
  { rewrite Hr. exists (record_at s). split; [by apply serving_done|by apply still_queued_refl]. }
  assert (Hk : still_queued (record_at s i) (replaced (op_slot op) next (record_at s) i)).
  { unfold replaced. destruct (decide (i = op_slot op)) as [Heq|]; [|by apply still_queued_refl].
    unfold op_spec in E. destruct (op_slot op <? NODE_EVENT_CAPACITY)%nat; [|done].
    rewrite <- Heq in E. apply (op_record_keeps op i); try done.
    destruct (grounded_record src s w i (proj1 Hs) Hi) as [Hw _]. by apply Hw. }
  destruct Hr as [(s' & w' & Er & Hs' & Hrec & _)|(s' & w' & Er & Hb)]; rewrite Er.
  - exists (record_at s'). split; [by apply serving_done|]. by rewrite Hrec.
  - eapply serving_broken; [exact Hb|by apply still_queued_refl|exact Hk].
Qed.

Lemma enqueue_keeps src i input s w :
  input_wf input → (i < 8)%nat → sound src s w → nr_state (record_at s i) = NodeState.QUEUED →
  ∃ R', serving src R' (enqueue input (s, w)).2 ∧ still_queued (record_at s i) (R' i).
Proof.
  intros Hwf Hi Hs Hq.
  destruct (enqueue_cases src s w input Hs Hwf) as (res & s' & w' & Ho & ->).
  assert (Hself : still_queued (record_at s i) (record_at s i)) by by apply still_queued_refl.
  assert (Hfree : ∀ k r, first_free s k →
    still_queued (record_at s i) (replaced k r (record_at s) i)).
  { intros k r (_ & Hf & _). unfold replaced. destruct (decide (i = k)) as [->|]; [|done].
    unfold holdsEvent in Hf. by rewrite Hq in Hf. }
  destruct Ho as [?|s1 ?? Hs1 Hsl|k s1 w1 ?? Hh Hc|k x s1 w1 ? Hff Hb|k x s1 w1 ? Hff ??? Hs1 Hrec].
  - exists (record_at s). split; [by apply serving_done|done].
  - exists (record_at s1). split; [by apply serving_done|].
    unfold record_at, slot_at. by rewrite Hsl.
  - exists (record_at s). split; [by right|done].
  - eapply serving_broken; [exact Hb|done|by apply Hfree].
  - exists (record_at s1). split; [by apply serving_done|]. rewrite Hrec. by apply Hfree.
Qed.

Lemma reboot_keeps src R x :
  is_u8 src → serving src R x → serving src R (recover src x).2.
Proof.
  intros Hsrc Hx. destruct x as [s w].
  assert (Hcu : custody src w R).
  { destruct Hx as [(Hs & HR)|[_ Hc]]; [|done]. cbn in *.
    eapply custody_ext; [exact HR|]. apply grounded_custody, Hs. }
  pose proof (recover_restored src R s w Hsrc Hcu) as Hr.
  destruct (recover src (s, w)) as [st [s' w']]. cbn in *.
  destruct Hr as [(_&?&?)|(_&?&?)]; [by left|by right].
Qed.

Lemma command_keeps src i c R x :
  is_u8 src → command_wf c → ¬ ends_slot i c → (i < 8)%nat → serving src R x →
  nr_state (R i) = NodeState.QUEUED →
  ∃ R', serving src R' (run_command src c x).2 ∧ still_queued (R i) (R' i).
Proof.
  intros Hsrc Hwf Hne Hi Hx Hq. destruct x as [s w].
  destruct c as [op|input|]; cbn [run_command].
  3:{ exists R. split; [|by apply still_queued_refl]. unfold bind.
      pose proof (reboot_keeps src R (s, w) Hsrc Hx). by destruct (recover src (s, w)). }
  all: destruct Hx as [(Hs & HR)|[Hh Hc]]; cbn [fst snd] in *.
  1, 3: rewrite <- HR in Hq |- * by done.
  - destruct (op_keeps src i op s w) as (R' & HR' & Hk); [done..|].
    exists R'. split; [|done]. unfold bind. by destruct (run_op op (s, w)).
  - destruct (enqueue_keeps src i input s w) as (R' & HR' & Hk); [done..|].
    exists R'. split; [|done]. unfold bind. by destruct (enqueue input (s, w)).
  - rewrite (bind_run _ _ _ _ _ (degraded_op s w op Hh)).
    exists R. split; [by right|by apply still_queued_refl].
  - rewrite (bind_run _ _ _ _ _ (degraded_enqueue s w input Hh)).
    exists R. split; [by right|by apply still_queued_refl].
Qed.

(** C2. No queued event is ever lost.  Run any list of commands and reboots on
    a store, let the flash refuse, tear or forget the answer of any write and
    be unavailable at any read: unless a command marks it failed, marks it
    expired or releases it, the event queued in slot [i] is at the end still
    queued in slot [i], with its identity and content, in a sound store or in
    custody of the flash for the next boot. *)
Theorem queued_event_survives src i cs R x :
  is_u8 src → Forall command_wf cs → Forall (λ c, ¬ ends_slot i c) cs → (i < 8)%nat →
  serving src R x → nr_state (R i) = NodeState.QUEUED →
  ∃ R', serving src R' (run_commands src cs x).2 ∧ still_queued (R i) (R' i).
Proof.
  intros Hsrc Hwf Hne Hi. revert R x.
  induction cs as [|c cs IH]; intros R x Hx Hq.
  { exists R. split; [done|by apply still_queued_refl]. }
  apply Forall_cons in Hwf as [Hwc Hwf]. apply Forall_cons in Hne as [Hnc Hne].
  destruct (command_keeps src i c R x) as (R1 & Hx1 & Hk1); [done..|].
  cbn [run_commands]. unfold bind. destruct (run_command src c x) as [u x1]. cbn [snd] in *.
  destruct (IH Hwf Hne R1 x1 Hx1) as (R2 & Hx2 & Hk2); [by apply Hk1|].
  exists R2. split; [done|]. by eapply still_queued_trans.
Qed.

End Durable.

(** ** A flash with event cells

    The metadata cells and the scripted faults are those of
    [EventIdentity.Flash]; sixteen event cells are added. *)

Record Board := mkBoard {
  board_flash : EventIdentity.Flash;
  board_cells : list (nat * CopySlot * list Z)
}.

Fixpoint find_cell (l : list (nat * CopySlot * list Z)) (i : nat) (c : CopySlot)
    : option (list Z) :=
  match l with
  | [] => None
  | (j, d, b) :: l' => if bool_decide ((i, c) = (j, d)) then Some b else find_cell l' i c
  end.

Definition board_event (b : Board) (i : nat) (c : CopySlot) : option (list Z) :=
  map u8 <$> find_cell (board_cells b) i c.

Definition put_event (b : Board) (i : nat) (c : CopySlot) (l : list Z) : Board :=
  mkBoard (board_flash b) ((i, c, l) :: board_cells b).

(** A metadata operation on the board. *)
Definition on_flash {X} (f : EventIdentity.Flash → X * EventIdentity.Flash) (b : Board)
    : X * Board :=
  let (x, f') := f (board_flash b) in (x, mkBoard f' (board_cells b)).

Definition board_fault (b : Board) : EventIdentity.Fault * Board :=
  on_flash EventIdentity.nextFault b.

#[export] Instance board_metadata : EventIdentity.MetadataStorage Board := {
  read slot out := on_flash (@EventIdentity.read _ EventIdentity.flash_storage slot out);
  write slot l := on_flash (@EventIdentity.write _ EventIdentity.flash_storage slot l);
  commit := on_flash (@EventIdentity.commit _ EventIdentity.flash_storage)
}.

#[export] Instance board_entropy : EventIdentity.EntropySource Board := {
  nextUint32 v := on_flash (@EventIdentity.nextUint32 _ EventIdentity.flash_entropy v)
}.

#[export] Instance board_storage : Storage Board := {
  readEventCopy i c out b :=
    let (fault, b) := board_fault b in
    match fault, board_event b i c with
    | EventIdentity.OFFLINE, _ => (S_UNAVAILABLE, out, 0, b)
    | _, None => (S_MISSING, out, 0, b)
    | _, Some l =>
        if bool_decide (length l = length out)
        then (S_OK, l, Z.of_nat (length l), b) else (EventIdentity.S_ERROR, out, 0, b)
    end;
  writeEventCopy i c l b :=
    let (fault, b) := board_fault b in
    match fault with
    | EventIdentity.OFFLINE => (S_UNAVAILABLE, b)
    | EventIdentity.REFUSED => (EventIdentity.S_ERROR, b)
    | EventIdentity.TORN => (EventIdentity.S_ERROR, put_event b i c (take 14 l))
    | EventIdentity.ANSWER_LOST => (EventIdentity.S_ERROR, put_event b i c l)
    | EventIdentity.FINE => (S_OK, put_event b i c l)
    end
}.

#[export] Instance board_metadata_laws : EventIdentity.MetadataStorageLaws Board.
Proof.
  split. intros slot out [f l] Hout.
  pose proof (@EventIdentity.read_buffer _ _ EventIdentity.flash_laws slot out f Hout) as Hr.
  unfold EventIdentity.read, board_metadata, on_flash. cbn [board_flash].
  destruct (@EventIdentity.read _ EventIdentity.flash_storage slot out f) as [[[? ?] ?] ?].
  exact Hr.
Qed.

Lemma board_cell_bytes b i c l : board_event b i c = Some l → is_byte_list l.
Proof. unfold board_event. intros (l' & _ & ->)%fmap_Some. apply EventIdentity.map_u8_bytes. Qed.

Lemma board_fault_event b i c : board_event (board_fault b).2 i c = board_event b i c.
Proof. unfold board_fault, on_flash. by destruct (EventIdentity.nextFault _). Qed.

Lemma board_fault_cell b s :
  EventIdentity.cell (board_flash (board_fault b).2) s = EventIdentity.cell (board_flash b) s.
Proof.
  unfold board_fault, on_flash. pose proof (EventIdentity.nextFault_cell (board_flash b) s) as H.
  by destruct (EventIdentity.nextFault _).
Qed.

Lemma board_put b i c l j d :
  is_byte_list l →
  board_event (put_event b i c l) j d
  = if bool_decide ((j, d) = (i, c)) then Some l else board_event b j d.
Proof.
  intros Hl. unfold board_event, put_event. cbn [board_cells find_cell].
  case_bool_decide; [|done]. simpl. by rewrite EventIdentity.map_u8_id.
Qed.

#[export] Instance board_laws : StorageLaws Board.
Proof.
  split. intros i c out b Hout. simpl.
  destruct (board_fault b) as [fault b']. destruct (board_event b' i c) as [l|] eqn:E.
  - apply board_cell_bytes in E. destruct fault, (bool_decide_reflect (length l = length out)); done.
  - by destruct fault.
Qed.

#[local] Existing Instances EventIdentity.flash_storage EventIdentity.flash_entropy
  EventIdentity.flash_laws EventIdentity.flash_durable.

#[export, refine] Instance board_durable_metadata : EventIdentity.DurableMetadata Board := {
  stored b := EventIdentity.cell (board_flash b)
}.
Proof.
  - intros [f l] slot b. apply EventIdentity.cell_bytes.
  - intros slot out [f l] s. pose proof (EventIdentity.read_keeps slot out f s) as Hr.
    change (EventIdentity.read slot out (mkBoard f l))
      with (on_flash (EventIdentity.read slot out) (mkBoard f l)). unfold on_flash. cbn [board_flash].
    by destruct (EventIdentity.read slot out f) as [[[? ?] ?] ?].
  - intros slot out [f l] Hl. pose proof (EventIdentity.read_result slot out f Hl) as Hr.
    change (EventIdentity.read slot out (mkBoard f l))
      with (on_flash (EventIdentity.read slot out) (mkBoard f l)). unfold on_flash. cbn [board_flash].
    by destruct (EventIdentity.read slot out f) as [[[? ?] ?] ?].
  - intros slot b [f l]. pose proof (EventIdentity.write_keeps slot b f) as Hr.
    change (EventIdentity.write slot b (mkBoard f l))
      with (on_flash (EventIdentity.write slot b) (mkBoard f l)). unfold on_flash. cbn [board_flash].
    by destruct (EventIdentity.write slot b f).
  - intros slot b [f l] Hb. pose proof (EventIdentity.write_outcome slot b f Hb) as Hr.
    change (EventIdentity.write slot b (mkBoard f l))
      with (on_flash (EventIdentity.write slot b) (mkBoard f l)). unfold on_flash. cbn [board_flash].
    by destruct (EventIdentity.write slot b f).
  - intros [f l] s. pose proof (EventIdentity.commit_keeps f s) as Hr.
    change (EventIdentity.commit (mkBoard f l))
      with (on_flash EventIdentity.commit (mkBoard f l)). unfold on_flash. cbn [board_flash].
    by destruct (EventIdentity.commit f).
  - done.
  - intros v w _. apply u32_range.
Defined.

Lemma content_torn l : content_of (Some (take 14 l)) = None.
Proof.
  unfold content_of, decodeNodeRecord, validateEnvelope.
  rewrite (proj2 (Nat.eqb_neq _ _)); [done|]. rewrite length_take. unfold NODE_RECORD_SIZE. lia.
Qed.

#[export, refine] Instance board_durable_events : DurableEvents Board := {
  storedEvent := board_event
}.
Proof.
  - intros b i c l. apply board_cell_bytes.
  - intros i c out b j d. simpl. pose proof (board_fault_event b j d) as Hf.
    destruct (board_fault b) as [fault b']. cbn [snd] in Hf.
    destruct fault, (board_event b' i c); try case_bool_decide; done.
  - intros i c out b Hout. simpl. pose proof (board_fault_event b i c) as Hf.
    destruct (board_fault b) as [fault b']. cbn [snd] in Hf. rewrite <- Hf, Hout.
    destruct (board_event b' i c) as [l|]; [|destruct fault; auto].
    destruct (bool_decide_reflect (length l = 56%nat)) as [E|E];
      destruct fault; simpl; rewrite ?E; auto.
  - intros i c l b j d Hne. simpl. pose proof (board_fault_event b j d) as Hf.
    destruct (board_fault b) as [fault b']. cbn [snd] in Hf. rewrite <- Hf.
    assert (Hput : ∀ l', board_event (put_event b' i c l') j d = board_event b' j d).
    { intros l'. unfold board_event, put_event. cbn [board_cells find_cell].
      by rewrite bool_decide_eq_false_2. }
    by destruct fault; cbn [snd]; rewrite ?Hput.
  - intros i c l b Hl. simpl. pose proof (board_fault_event b i c) as Hf.
    destruct (board_fault b) as [fault b']. cbn [snd] in Hf.
    destruct fault; cbn [snd]; auto; rewrite board_put by bytes; decide_eqs; [by auto| |by auto].
    right. right. apply content_torn.
  - intros [f l] i c. change (EventIdentity.commit (mkBoard f l))
      with (on_flash EventIdentity.commit (mkBoard f l)). unfold on_flash. cbn [board_flash].
    by destruct (EventIdentity.commit f).
  - intros slot out [f l] i c.
    change (EventIdentity.read slot out (mkBoard f l))
      with (on_flash (EventIdentity.read slot out) (mkBoard f l)). unfold on_flash. cbn [board_flash].
    by destruct (EventIdentity.read slot out f) as [[[? ?] ?] ?].
  - intros slot b [f l] i c.
    change (EventIdentity.write slot b (mkBoard f l))
      with (on_flash (EventIdentity.write slot b) (mkBoard f l)). unfold on_flash. cbn [board_flash].
    by destruct (EventIdentity.write slot b f).
  - done.
  - intros i c out b s. simpl. pose proof (board_fault_cell b s) as Hf.
    destruct (board_fault b) as [fault b']. cbn [snd] in Hf.
    destruct fault, (board_event b' i c); try case_bool_decide; done.
  - intros i c l b s. simpl. pose proof (board_fault_cell b s) as Hf.
    destruct (board_fault b) as [fault b']. cbn [snd] in Hf. by destruct fault.
Defined.

(** ** Witnesses: a board that boots, stores an event, and reboots *)

Definition blankBoard (script : list EventIdentity.Fault) : Board :=
  mkBoard (EventIdentity.mkFlash None None script 77) [].

Definition sampleInput : EventInput :=
  mkInput EventProtocol.Family.BUTTON 0 60 1 [3; 0; 0; 0; 0; 0; 0; 0; 0; 0; 0; 0].

Definition booted : Store * Board := (recover 17 (newStore, blankBoard [])).2.

Definition stored_one : Store * Board := (enqueue sampleInput booted).2.

Lemma booted_sound : sound 17 booted.1 booted.2.
Proof.
  pose proof (first_boot_cases 17 newStore (blankBoard []) ltac:(concrete) ltac:(done)) as Hf.
  assert (E : (recover 17 (newStore, blankBoard [])).1 = READY) by (vm_compute; reflexivity).
  unfold booted. destruct (recover 17 (newStore, blankBoard [])) as [st [s w]].
  cbn [fst snd] in *. subst st. by destruct Hf as [(_&?&_)|[? _]].
Qed.

Lemma sampleInput_wf : input_wf sampleInput.
Proof. unfold input_wf. split_and!; concrete. Qed.

Lemma stored_one_sound : sound 17 stored_one.1 stored_one.2.
Proof.
  destruct (enqueue_cases 17 booted.1 booted.2 sampleInput booted_sound sampleInput_wf)
    as (res & s' & w' & Ho & E).
  assert (Es : enqueue_status (enqueue sampleInput booted).1 = ENQUEUED) by (vm_compute; reflexivity).
  unfold stored_one. rewrite <- surjective_pairing in E. rewrite E in *. cbn [fst snd] in *.
  by destruct Ho.
Qed.

Lemma stored_one_queued : nr_state (record_at stored_one.1 0) = NodeState.QUEUED.
Proof. vm_compute. reflexivity. Qed.

Lemma first_boot_initialises_witness :
  (READY = READY ∧ sound 17 booted.1 booted.2
     ∧ ∀ i, (i < 8)%nat → record_at booted.1 i = initialRecord)
  ∨ (READY ≠ READY ∧ healthy_ booted.1 = false).
Proof.
  apply (first_boot_initialises 17 newStore (blankBoard []) READY booted.1 booted.2);
    [concrete|done|vm_compute; reflexivity].
Defined.

Lemma enqueue_refines_witness :
  enqueue_outcome 17 booted.1 booted.2 sampleInput (enqueue sampleInput (booted.1, booted.2)).1
    (enqueue sampleInput (booted.1, booted.2)).2.1 (enqueue sampleInput (booted.1, booted.2)).2.2
  ∧ enqueue_status (enqueue sampleInput (booted.1, booted.2)).1 = ENQUEUED.
Proof.
  split; [|vm_compute; reflexivity].
  apply (enqueue_refines 17 booted.1 booted.2 sampleInput); [apply booted_sound|apply sampleInput_wf].
Defined.

(** The stored event is armed for its first attempt. *)
Lemma mutations_refine_witness :
  (∃ s' w', run_op (Arm 0) (stored_one.1, stored_one.2) = (inr ARMED, (s', w')) ∧ sound 17 s' w'
     ∧ (∀ j, record_at s' j = replaced 0 (armed (record_at stored_one.1 0)) (record_at stored_one.1) j)
     ∧ allocator_ s' = allocator_ stored_one.1)
  ∨ (∃ s' w', run_op (Arm 0) (stored_one.1, stored_one.2) = (inr ATTEMPT_STORAGE_FAILURE, (s', w'))
     ∧ healthy_ s' = false
     ∧ (custody 17 w' (record_at stored_one.1)
        ∨ custody 17 w' (replaced 0 (armed (record_at stored_one.1 0)) (record_at stored_one.1)))).
Proof.
  assert (E : op_spec (Arm 0) stored_one.1 = inr (armed (record_at stored_one.1 0)))
    by (vm_compute; reflexivity).
  pose proof (mutations_refine 17 stored_one.1 stored_one.2 (Arm 0) stored_one_sound I) as Hm.
  rewrite E in Hm. exact Hm.
Defined.

Lemma recover_restores_custody_witness :
  (READY = READY
   ∧ sound 17 (recover 17 (newStore, stored_one.2)).2.1 (recover 17 (newStore, stored_one.2)).2.2
   ∧ ∀ i, (i < 8)%nat →
       record_at (recover 17 (newStore, stored_one.2)).2.1 i = record_at stored_one.1 i)
  ∨ (READY ≠ READY ∧ healthy_ (recover 17 (newStore, stored_one.2)).2.1 = false
     ∧ custody 17 (recover 17 (newStore, stored_one.2)).2.2 (record_at stored_one.1)).
Proof.
  apply (recover_restores_custody 17 (record_at stored_one.1) newStore stored_one.2);
    [concrete|apply grounded_custody, stored_one_sound|vm_compute; reflexivity].
Defined.

(** Two reboots, an attempt and a checkpoint later the event is still there. *)
Lemma queued_event_survives_witness :
  ∃ R', serving 17 R'
    (run_commands 17 [Reboot; Do (Arm 0); Enqueue sampleInput; Do (Checkpoint 0 30); Reboot]
       (stored_one.1, stored_one.2)).2
    ∧ still_queued (record_at stored_one.1 0) (R' 0%nat).
Proof.
  apply (queued_event_survives 17 0); [concrete| | |lia| |apply stored_one_queued].
  - repeat constructor; try apply sampleInput_wf; concrete.
  - repeat constructor; intros [].
  - apply serving_done, stored_one_sound.
Defined.

Lemma degraded_store_refuses_witness :
  run_op (Arm 0) (newStore, blankBoard []) = (degraded (Arm 0), (newStore, blankBoard []))
  ∧ enqueue sampleInput (newStore, blankBoard [])
    = (mkEnqueueResult ENQUEUE_DEGRADED noIdentity 255, (newStore, blankBoard [])).
Proof. apply degraded_store_refuses. reflexivity. Defined.

End NodeRecovery.
