(* ===== verification/Ledger.v ===== *)
(** The Hub's durable event ledger, lib/hub_event_ledger: eight slots of two
    copies each, an admission ordinal reserved in blocks, admission of events
    with duplicate detection, tombstones of consumed events.  A slot is a
    number, 255 standing for "none". *)

From S2P Require Import Prelude Wire EventWire Copies Records Identity Diagnostics.

Module HubEventLedger.

Import EventStorage EventRecords.

Abbreviation S_OK := EventIdentity.S_OK.

Abbreviation S_MISSING := EventIdentity.S_MISSING.

Abbreviation S_UNAVAILABLE := EventIdentity.S_UNAVAILABLE.

Abbreviation StorageResult := EventIdentity.StorageResult.

(* hub_event_ledger.h:14 HUB_EVENT_CAPACITY *)
Definition HUB_EVENT_CAPACITY : nat := 8.

(* hub_event_ledger.h:15 ORDINAL_RESERVATION_BLOCK_SIZE *)
Definition ORDINAL_RESERVATION_BLOCK_SIZE : Z := 32.

(* hub_event_ledger.h:17-29 Status *)
Inductive Status :=
  READY | INVALID_CONFIGURATION | STORAGE_UNAVAILABLE | STATUS_STORAGE_FAILURE
| INDETERMINATE_SLOT | RECORD_CONFLICT | STATUS_GENERATION_AMBIGUOUS | DUPLICATE_IDENTITY
| DUPLICATE_ORDINAL | ORDINAL_UNAVAILABLE | ORDINAL_EXHAUSTED.

(* hub_event_ledger.h:31-41 AdmissionStatus *)
Inductive AdmissionStatus :=
  DURABLE_NEW_ADMISSION | EXACT_DUPLICATE | CAPACITY | ADMIT_IDENTITY_CONTENT_MISMATCH
| UNSUPPORTED_EVENT | MALFORMED_EVENT | ROUTING_REJECTED | ADMIT_STORAGE_FAILURE
| ADMIT_DEGRADED.

(* hub_event_ledger.h:43-49 ConsumeStatus *)
Inductive ConsumeStatus :=
  CONSUMED | ALREADY_CONSUMED | NOT_FOUND | CONSUME_STORAGE_FAILURE | CONSUME_DEGRADED.

#[global] Instance Status_eq_dec : EqDecision Status.
Proof. solve_decision. Defined.

#[global] Instance AdmissionStatus_eq_dec : EqDecision AdmissionStatus.
Proof. solve_decision. Defined.

#[global] Instance ConsumeStatus_eq_dec : EqDecision ConsumeStatus.
Proof. solve_decision. Defined.

(* hub_event_ledger.h:51-55 AdmissionResult *)
Record AdmissionResult := mkAdmission {
  admission_status : AdmissionStatus;
  admission_slot : nat;
  result_admissionOrdinal : Z
}.

(* hub_event_ledger.h:57-60 ConsumeResult *)
Record ConsumeResult := mkConsume {
  consume_status : ConsumeStatus;
  consume_slot : nat
}.

(** A read returns its result, the buffer and the length. *)
(* hub_event_ledger.h:62-77 Storage *)
Class Storage (W : Type) := {
  readHubMetadata : CopySlot → list Z → st W (StorageResult * list Z * Z);
  writeHubMetadata : CopySlot → list Z → st W StorageResult;
  readHubEventCopy : nat → CopySlot → list Z → st W (StorageResult * list Z * Z);
  writeHubEventCopy : nat → CopySlot → list Z → st W StorageResult;
  commit : st W StorageResult
}.

(* hub_event_ledger.h:291-295 SlotState *)
Record SlotState := mkSlot {
  present : bool;
  activeCopy : CopySlot;
  record : HubRecord
}.

Definition zeroSlot : SlotState := mkSlot false A zeroHubRecord.

(* hub_event_ledger.h:638-650 = Ledger members *)
Record Ledger := mkLedger {
  slots_ : list SlotState;
  metadata_ : HubMetadata;
  metadataCopy_ : CopySlot;
  nextVolatileOrdinal_ : Z;
  volatileEndExclusive_ : Z;
  hubDeviceId_ : Z;
  nodeDeviceId_ : Z;
  hasMetadata_ : bool;
  ledgerHealthy_ : bool;
  ordinalReady_ : bool;
  status_ : Status;
  diagnostics_ : option RuntimeState.State
}.

#[global] Instance eta_SlotState : RecEta SlotState := λ r,
  mkSlot (present r) (activeCopy r) (record r).

#[global] Instance eta_Ledger : RecEta Ledger := λ r,
  mkLedger (slots_ r) (metadata_ r) (metadataCopy_ r) (nextVolatileOrdinal_ r)
    (volatileEndExclusive_ r) (hubDeviceId_ r) (nodeDeviceId_ r) (hasMetadata_ r)
    (ledgerHealthy_ r) (ordinalReady_ r) (status_ r) (diagnostics_ r).

(** [slots_[slot]], and an assignment to it. *)

Definition slot_at (s : Ledger) (slot : nat) : SlotState := nth slot (slots_ s) zeroSlot.

Definition record_at (s : Ledger) (slot : nat) : HubRecord := record (slot_at s slot).

Definition set_slot (slot : nat) (x : SlotState) (s : Ledger) : Ledger :=
  s <| slots_ := <[slot := x]> (slots_ s) |>.

(** [reset] keeps the diagnostics pointer. *)
(* hub_event_ledger.h:623-636 Ledger::reset *)
Definition reset (s : Ledger) : Ledger :=
  mkLedger (replicate HUB_EVENT_CAPACITY zeroSlot) zeroHubMetadata A 0 0 0 0 false false false
    INDETERMINATE_SLOT (diagnostics_ s).

Definition newLedger : Ledger :=
  mkLedger (replicate HUB_EVENT_CAPACITY zeroSlot) zeroHubMetadata A 0 0 0 0 false false false
    INDETERMINATE_SLOT None.

(* hub_event_ledger.h:81 setDiagnostics *)
Definition setDiagnostics (state : option RuntimeState.State) (s : Ledger) : Ledger :=
  s <| diagnostics_ := state |>.

(* hub_event_ledger.h:297-300 Ledger::isOwned *)
Definition isOwned (record : HubRecord) : bool :=
  (hr_state record =? HubState.ACTIVE) || (hr_state record =? HubState.CONSUMED).

(* hub_event_ledger.h:301-305 Ledger::sameIdentity *)
Definition sameIdentity (record : HubRecord) (event : EventProtocol.Event) : bool :=
  (hr_sourceDeviceId record =? EventProtocol.source event)
  && (hr_eventEpoch record =? EventProtocol.epoch event)
  && (hr_eventId record =? EventProtocol.id event).

(* hub_event_ledger.h:306-313 Ledger::sameCanonical *)
Definition sameCanonical (record : HubRecord) (event : EventProtocol.Event) : bool :=
  if negb (sameIdentity record event)
     || negb (hr_family record =? EventProtocol.family event)
     || negb (hr_flags record =? EventProtocol.flags event)
     || negb (hr_lifetimeBudgetSeconds record =? EventProtocol.lifetimeBudgetSeconds event)
     || negb (hr_bodyLength record =? EventProtocol.bodyLength event) then false
  else bytesEqual (Some (hr_body record)) (Some (EventProtocol.body event))
         (Z.to_nat (EventProtocol.bodyLength event)).

(* hub_event_ledger.h:314-317 Ledger::opposite *)
Definition opposite (copy : CopySlot) : CopySlot :=
  if bool_decide (copy = A) then B else A.

(* hub_event_ledger.h:318-320 Ledger::validHighWater *)
Definition validHighWater (value : Z) : bool :=
  negb (value =? 0) && (u32 (value - 1) mod ORDINAL_RESERVATION_BLOCK_SIZE =? 0).

(* hub_event_ledger.h:322-340 Ledger::validateAdmission *)
Definition validateAdmission (event : EventProtocol.Event) (s : Ledger) : AdmissionStatus :=
  if negb (EventProtocol.hasValidEndpoints (EventProtocol.source event)
             (EventProtocol.destination event))
     || negb (EventProtocol.source event =? nodeDeviceId_ s)
     || negb (EventProtocol.destination event =? hubDeviceId_ s)
     || (EventProtocol.epoch event =? 0) || (EventProtocol.id event =? 0)
  then ROUTING_REJECTED else
  if negb (EventProtocol.isRegisteredFamily (EventProtocol.family event))
  then UNSUPPORTED_EVENT else
  if negb (Z.land (EventProtocol.flags event) (u8 (Z.lnot EventProtocol.ALLOWED_FLAGS)) =? 0)
     || (EventProtocol.lifetimeBudgetSeconds event <? EventProtocol.MIN_LIFETIME_SECONDS)
     || (EventProtocol.MAX_LIFETIME_SECONDS <? EventProtocol.lifetimeBudgetSeconds event)
     || (EventProtocol.MAX_BODY_SIZE <? EventProtocol.bodyLength event)
     || negb (EventProtocol.isValidFamilyBody (EventProtocol.family event)
                (Some (EventProtocol.body event)) (EventProtocol.bodyLength event))
  then MALFORMED_EVENT else
  if allZero (EventProtocol.body event) (Z.to_nat (EventProtocol.bodyLength event))
       (12 - Z.to_nat (EventProtocol.bodyLength event))
  then DURABLE_NEW_ADMISSION else MALFORMED_EVENT.

(** The first of the [n] slots from [i] on that satisfies [P], or 255. *)
(* hub_event_ledger.h:256-257 = find, the loop *)
Fixpoint firstSlot (P : nat → bool) (n i : nat) : nat :=
  match n with
  | O => 255%nat
  | S m => if P i then i else firstSlot P m (S i)
  end.

(** The slot satisfying [P] of least ordinal, the first of equals: the loop the
    two searches share. *)
(* hub_event_ledger.h:241-246 = oldestActive, the search *)
Fixpoint leastOrdinal (P : nat → bool) (n i found : nat) (s : Ledger) : nat :=
  match n with
  | O => found
  | S m =>
      leastOrdinal P m (S i)
        (if P i && ((found =? 255)%nat
                    || (admissionOrdinal (record_at s i) <? admissionOrdinal (record_at s found)))
         then i else found) s
  end.

(* hub_event_ledger.h:342-347 Ledger::firstEmpty *)
Definition firstEmpty (s : Ledger) : nat :=
  firstSlot (λ i, hr_state (record_at s i) =? HubState.EMPTY) HUB_EVENT_CAPACITY 0.

(* hub_event_ledger.h:349-354 Ledger::incomingLater *)
Definition incomingLater (event : EventProtocol.Event) (tombstone : HubRecord) : bool :=
  (EventProtocol.source event =? hr_sourceDeviceId tombstone)
  && ((hr_eventEpoch tombstone <? EventProtocol.epoch event)
      || ((EventProtocol.epoch event =? hr_eventEpoch tombstone)
          && (hr_eventId tombstone <? EventProtocol.id event))).

(* hub_event_ledger.h:356-366 Ledger::oldestReclaimable *)
Definition oldestReclaimable (event : EventProtocol.Event) (s : Ledger) : nat :=
  leastOrdinal
    (λ i, (hr_state (record_at s i) =? HubState.CONSUMED) && incomingLater event (record_at s i))
    HUB_EVENT_CAPACITY 0 255 s.

(* hub_event_ledger.h:600-606 Ledger::countState *)
Definition countState (state : Z) (s : Ledger) : nat :=
  if negb (ledgerHealthy_ s) then 0%nat else
  length (filter (λ i, (hr_state (record_at s i) =? state) = true) (seq 0 HUB_EVENT_CAPACITY)).

(* hub_event_ledger.h:272 activeCount *)
Definition activeCount (s : Ledger) : nat := countState HubState.ACTIVE s.

(* hub_event_ledger.h:273 consumedCount *)
Definition consumedCount (s : Ledger) : nat := countState HubState.CONSUMED s.

(* hub_event_ledger.h:239-251 Ledger::oldestActive *)
Definition oldestActive (s : Ledger) : option (nat * HubRecord) :=
  if negb (ledgerHealthy_ s) then None else
  let found := leastOrdinal (λ i, hr_state (record_at s i) =? HubState.ACTIVE)
                 HUB_EVENT_CAPACITY 0 255 s in
  if (found =? 255)%nat then None else Some (found, record_at s found).

(** Does the record carry the identity? *)
(* hub_event_ledger.h:258-262 = find, the test of one slot *)
Definition hasIdentity (identity : EventProtocol.Identity) (r : HubRecord) : bool :=
  isOwned r && (hr_sourceDeviceId r =? EventProtocol.sourceDeviceId identity)
  && (hr_eventEpoch r =? EventProtocol.identityEpoch identity)
  && (hr_eventId r =? EventProtocol.identityId identity).

(* hub_event_ledger.h:253-267 Ledger::find *)
Definition find (identity : EventProtocol.Identity) (s : Ledger) : option (nat * HubRecord) :=
  if negb (ledgerHealthy_ s) then None else
  let i := firstSlot (λ i, hasIdentity identity (record_at s i)) HUB_EVENT_CAPACITY 0 in
  if (i =? 255)%nat then None else Some (i, record_at s i).

(* hub_event_ledger.h:275-277 Ledger::record *)
Definition recordAt (slot : nat) (s : Ledger) : option HubRecord :=
  if (slot <? HUB_EVENT_CAPACITY)%nat && present (slot_at s slot)
  then Some (record_at s slot) else None.

(* hub_event_ledger.h:608-611 Ledger::storageStatus *)
Definition storageStatus (result : StorageResult) : Status :=
  if bool_decide (result = S_UNAVAILABLE) then STORAGE_UNAVAILABLE else STATUS_STORAGE_FAILURE.

Section Methods.

Context {W : Type} `{Storage W}.

Abbreviation M := (st (Ledger * W)).

(** A call on the diagnostics object, when there is one. *)
Definition diagnose (f : RuntimeState.State → RuntimeState.State) : M unit :=
  update (λ s, s <| diagnostics_ := f <$> diagnostics_ s |>).

(* hub_event_ledger.h:280-282 Ledger::note *)
Definition note (event : RuntimeState.EventDiagnostic) (amount : Z) : M unit :=
  diagnose (RuntimeState.incrementEventDiagnostic event amount).

(* hub_event_ledger.h:283-286 Ledger::persistenceFailure *)
Definition persistenceFailure : M unit :=
  note RuntimeState.PERSISTENCE_FAILURE 1 ;;;
  diagnose (RuntimeState.setEventPersistenceDegraded true).

(* hub_event_ledger.h:287-290 Ledger::updateActiveSnapshot *)
Definition updateActiveSnapshot : M unit :=
  count <~ this activeCount ;;
  diagnose (RuntimeState.setActiveEventCount (u8 (Z.of_nat count))).

(* hub_event_ledger.h:612-616 Ledger::failLedger *)
Definition failLedger (status : Status) : M Status :=
  update (λ s, s <| ledgerHealthy_ := false |> <| status_ := status |>) ;;;
  ret status.

(* hub_event_ledger.h:617 Ledger::failLedgerBool *)
Definition failLedgerBool (status : Status) : M bool := failLedger status ;;; ret false.

(* hub_event_ledger.h:618-622 Ledger::failOrdinal *)
Definition failOrdinal (status : Status) : M bool :=
  update (λ s, s <| ordinalReady_ := false |> <| status_ := status |>) ;;;
  ret false.

(** The status is returned with the truth value. *)
(* hub_event_ledger.h:554-573 Ledger::classifyRead *)
Definition classifyRead (result : StorageResult) (length expected : Z) (ledgerRead : bool)
    : M (bool * FixedReadStatus) :=
  if bool_decide (result = S_MISSING) then ret (true, READ_MISSING) else
  if bool_decide (result = S_UNAVAILABLE) then
    (if ledgerRead then failLedger STORAGE_UNAVAILABLE ;;; ret tt
     else update (λ s, s <| status_ := ORDINAL_UNAVAILABLE |>)) ;;;
    ret (false, READ_UNAVAILABLE)
  else ret (true, READ_OK).

(* hub_event_ledger.h:538-544 Ledger::readMetadataCopy *)
Definition readMetadataCopy (slot : CopySlot) : M (bool * FixedCopy) :=
  r <~ outside (readHubMetadata slot (zeros HUB_METADATA_SIZE)) ;;
  let '(result, bytes, length) := r in
  c <~ classifyRead result length (Z.of_nat HUB_METADATA_SIZE) false ;;
  let (ok, status) := (c : bool * FixedReadStatus) in
  ret (ok, mkCopy status bytes).

(* hub_event_ledger.h:546-552 Ledger::readRecordCopy *)
Definition readRecordCopy (slot : nat) (copySlot : CopySlot) : M (bool * FixedCopy) :=
  r <~ outside (readHubEventCopy slot copySlot (zeros HUB_RECORD_SIZE)) ;;
  let '(result, bytes, length) := r in
  c <~ classifyRead result length (Z.of_nat HUB_RECORD_SIZE) true ;;
  let (ok, status) := (c : bool * FixedReadStatus) in
  ret (ok, mkCopy status bytes).

(* hub_event_ledger.h:575-581 Ledger::acceptRecordSelection *)
Definition acceptRecordSelection (result : SelectionResult) : M bool :=
  if bool_decide (result = EQUAL_DISAGREEMENT) then failLedgerBool RECORD_CONFLICT
  else if bool_decide (result = EventStorage.GENERATION_AMBIGUOUS)
  then failLedgerBool STATUS_GENERATION_AMBIGUOUS
  else ret true.

(** [EventStorage::selectCopies] at the two record types. *)

Definition selectRecords (copyA copyB : FixedCopy) : SelectionResult * HubRecord * CopySlot :=
  selectCopies zeroHubRecord hr_generation decodeHubRecordForSelection HUB_RECORD_SIZE
    copyA copyB zeroHubRecord A.

Definition selectMetadata (copyA copyB : FixedCopy) : SelectionResult * HubMetadata * CopySlot :=
  selectCopies zeroHubMetadata hm_generation decodeHubMetadataForSelection HUB_METADATA_SIZE
    copyA copyB zeroHubMetadata A.

Definition refusedSelection (selection : SelectionResult) : bool :=
  bool_decide (selection = BOTH_INVALID) || bool_decide (selection = EQUAL_DISAGREEMENT)
  || bool_decide (selection = EventStorage.GENERATION_AMBIGUOUS).

Definition refusalStatus (selection : SelectionResult) : Status :=
  if bool_decide (selection = EventStorage.GENERATION_AMBIGUOUS)
  then STATUS_GENERATION_AMBIGUOUS else STATUS_STORAGE_FAILURE.

(** The second half of [commitMetadata]: both copies are read again and must
    select what was written. *)
(* hub_event_ledger.h:456-479 = commitMetadata, from the second read *)
Definition confirmMetadata (next : HubMetadata) (target : CopySlot) : M bool :=
  ra <~ readMetadataCopy A ;;
  let (okA, copyA) := (ra : bool * FixedCopy) in
  if negb okA then failOrdinal STORAGE_UNAVAILABLE else
  rb <~ readMetadataCopy B ;;
  let (okB, copyB) := (rb : bool * FixedCopy) in
  if negb okB then failOrdinal STORAGE_UNAVAILABLE else
  let '(selection, authoritative, authoritativeCopy) := selectMetadata copyA copyB in
  if negb (bool_decide (authoritativeCopy = target))
     || negb (hm_generation authoritative =? hm_generation next)
     || refusedSelection selection
  then failOrdinal (refusalStatus selection)
  else
  update (λ s, s <| metadata_ := authoritative |> <| metadataCopy_ := target |>
                 <| hasMetadata_ := true |> <| ordinalReady_ := true |>) ;;;
  ret true.

(* hub_event_ledger.h:433-479 Ledger::commitMetadata *)
Definition commitMetadata (next : HubMetadata) (target : CopySlot) : M bool :=
  match encodeHubMetadata next (Some (zeros HUB_METADATA_SIZE)) with
  | (OK, Some encoded) =>
      result <~ outside (writeHubMetadata target encoded) ;;
      if negb (bool_decide (result = S_OK)) then failOrdinal (storageStatus result) else
      result <~ outside commit ;;
      if negb (bool_decide (result = S_OK)) then failOrdinal (storageStatus result) else
      r <~ outside (readHubMetadata target (zeros HUB_METADATA_SIZE)) ;;
      let '(result, readBack, length) := r in
      if negb (bool_decide (result = S_OK)) || negb (length =? Z.of_nat HUB_METADATA_SIZE)
      then failOrdinal (storageStatus result) else
      let (decodeResult, _) := decodeHubMetadata (Some readBack) zeroHubMetadata in
      if negb (bool_decide (decodeResult = OK))
         || negb (bytesEqual (Some encoded) (Some readBack) HUB_METADATA_SIZE)
      then failOrdinal STATUS_STORAGE_FAILURE
      else confirmMetadata next target
  | _ => failOrdinal STATUS_STORAGE_FAILURE
  end.

(** The second half of [commitRecord]. *)
(* hub_event_ledger.h:516-536 = commitRecord, from the second read *)
Definition confirmRecord (slot : nat) (next : HubRecord) (target : CopySlot) : M bool :=
  ra <~ readRecordCopy slot A ;;
  let (okA, copyA) := (ra : bool * FixedCopy) in
  if negb okA then ret false else
  rb <~ readRecordCopy slot B ;;
  let (okB, copyB) := (rb : bool * FixedCopy) in
  if negb okB then ret false else
  let '(selection, authoritative, authoritativeCopy) := selectRecords copyA copyB in
  if negb (bool_decide (authoritativeCopy = target))
     || negb (hr_generation authoritative =? hr_generation next)
     || refusedSelection selection
  then failLedgerBool (refusalStatus selection)
  else
  update (set_slot slot (mkSlot true target authoritative)) ;;;
  ret true.

(* hub_event_ledger.h:493-536 Ledger::commitRecord#2 *)
Definition commitRecordTo (slot : nat) (next : HubRecord) (target : CopySlot) : M bool :=
  match encodeHubRecord next (Some (zeros HUB_RECORD_SIZE)) with
  | (OK, Some encoded) =>
      result <~ outside (writeHubEventCopy slot target encoded) ;;
      if negb (bool_decide (result = S_OK)) then failLedgerBool (storageStatus result) else
      result <~ outside commit ;;
      if negb (bool_decide (result = S_OK)) then failLedgerBool (storageStatus result) else
      r <~ outside (readHubEventCopy slot target (zeros HUB_RECORD_SIZE)) ;;
      let '(result, readBack, length) := r in
      if negb (bool_decide (result = S_OK)) || negb (length =? Z.of_nat HUB_RECORD_SIZE)
      then failLedgerBool (storageStatus result) else
      let (decodeResult, _) := decodeHubRecord (Some readBack) zeroHubRecord in
      if negb (bool_decide (decodeResult = OK))
         || negb (bytesEqual (Some encoded) (Some readBack) HUB_RECORD_SIZE)
      then failLedgerBool STATUS_STORAGE_FAILURE
      else confirmRecord slot next target
  | _ => failLedgerBool STATUS_STORAGE_FAILURE
  end.

(* hub_event_ledger.h:489-491 Ledger::commitRecord *)
Definition commitRecord (slot : nat) (next : HubRecord) : M bool :=
  active <~ this (λ s, activeCopy (slot_at s slot)) ;;
  commitRecordTo slot next (opposite active).

(* hub_event_ledger.h:481-487 Ledger::commitInitialRecord *)
Definition commitInitialRecord (slot : nat) (next : HubRecord) : M bool :=
  update (set_slot slot (mkSlot true B next)) ;;;
  done <~ commitRecordTo slot next A ;;
  if negb done then ret false else ret true.

(* hub_event_ledger.h:373-379 = initializeFresh, the loop *)
Fixpoint initializeSlots (n slot : nat) : M bool :=
  match n with
  | O => ret true
  | S m =>
      update (λ s, set_slot slot ((slot_at s slot) <| activeCopy := A |>) s) ;;;
      done <~ commitInitialRecord slot (zeroHubRecord <| hr_generation := 1 |>
                                                      <| hr_state := HubState.EMPTY |>) ;;
      if negb done then ret false else initializeSlots m (S slot)
  end.

(* hub_event_ledger.h:368-381 Ledger::initializeFresh *)
Definition initializeFresh : M bool :=
  done <~ commitMetadata (mkHubMetadata 1 1) A ;;
  if negb done then ret false else initializeSlots HUB_EVENT_CAPACITY 0.

(* hub_event_ledger.h:383-410 Ledger::recoverMetadata *)
Definition recoverMetadata (a b : FixedCopy) : M unit :=
  let '(selection, selected, copy) := selectMetadata a b in
  if bool_decide (selection = EQUAL_DISAGREEMENT)
  then update (λ s, s <| status_ := RECORD_CONFLICT |>) else
  if bool_decide (selection = EventStorage.GENERATION_AMBIGUOUS)
  then update (λ s, s <| status_ := STATUS_GENERATION_AMBIGUOUS |>) else
  if bool_decide (selection = BOTH_INVALID)
     || negb (validHighWater (nextUnreservedAdmissionOrdinal selected))
  then update (λ s, s <| status_ := ORDINAL_UNAVAILABLE |>)
  else update (λ s,
    s <| metadata_ := selected |> <| metadataCopy_ := copy |> <| hasMetadata_ := true |>
      <| nextVolatileOrdinal_ := nextUnreservedAdmissionOrdinal selected |>
      <| volatileEndExclusive_ := nextUnreservedAdmissionOrdinal selected |>
      <| ordinalReady_ := true |> <| status_ := READY |>).

(** The reservation inside [allocateOrdinal]. *)
(* hub_event_ledger.h:415-428 = allocateOrdinal, the reservation *)
Definition reserveOrdinals : M bool :=
  start <~ this (λ s, nextUnreservedAdmissionOrdinal (metadata_ s)) ;;
  if UINT32_MAX - ORDINAL_RESERVATION_BLOCK_SIZE <? start then
    update (λ s, s <| ordinalReady_ := false |> <| status_ := ORDINAL_EXHAUSTED |>) ;;;
    ret false
  else
  s <~ this id ;;
  let next := (metadata_ s) <| hm_generation := u32 (hm_generation (metadata_ s) + 1) |>
                <| nextUnreservedAdmissionOrdinal :=
                     u32 (start + ORDINAL_RESERVATION_BLOCK_SIZE) |> in
  done <~ commitMetadata next (opposite (metadataCopy_ s)) ;;
  if negb done then ret false else
  update (λ s, s <| nextVolatileOrdinal_ := start |>
                 <| volatileEndExclusive_ := u32 (start + ORDINAL_RESERVATION_BLOCK_SIZE) |>) ;;;
  ret true.

(** The ordinal, or nothing. *)
(* hub_event_ledger.h:412-431 Ledger::allocateOrdinal *)
Definition allocateOrdinal : M (option Z) :=
  ready <~ this ordinalReady_ ;;
  if negb ready then ret None else
  s <~ this id ;;
  reserved <~ (if nextVolatileOrdinal_ s =? volatileEndExclusive_ s
               then reserveOrdinals else ret true) ;;
  if negb reserved then ret None else
  ordinal <~ this nextVolatileOrdinal_ ;;
  update (λ s, s <| nextVolatileOrdinal_ := u32 (ordinal + 1) |>) ;;;
  ret (Some ordinal).

(** The inner loop of [validateRecoveredSlots]: what slot [i] conflicts in with
    the owned slots before it. *)
(* hub_event_ledger.h:587-595 = validateRecoveredSlots, the inner loop *)
Fixpoint conflictBelow (n j i : nat) (s : Ledger) : option Status :=
  match n with
  | O => None
  | S m =>
      if negb (isOwned (record_at s j)) then conflictBelow m (S j) i s else
      if (hr_sourceDeviceId (record_at s i) =? hr_sourceDeviceId (record_at s j))
         && (hr_eventEpoch (record_at s i) =? hr_eventEpoch (record_at s j))
         && (hr_eventId (record_at s i) =? hr_eventId (record_at s j))
      then Some DUPLICATE_IDENTITY else
      if admissionOrdinal (record_at s i) =? admissionOrdinal (record_at s j)
      then Some DUPLICATE_ORDINAL
      else conflictBelow m (S j) i s
  end.

(* hub_event_ledger.h:584-597 = validateRecoveredSlots, the outer loop *)
Fixpoint validateSlots (n i : nat) : M bool :=
  match n with
  | O => ret true
  | S m =>
      s <~ this id ;;
      if negb (present (slot_at s i)) then failLedgerBool INDETERMINATE_SLOT else
      if negb (isOwned (record_at s i)) then validateSlots m (S i) else
      match conflictBelow i 0 i s with
      | Some status => failLedgerBool status
      | None => validateSlots m (S i)
      end
  end.

(* hub_event_ledger.h:583-598 Ledger::validateRecoveredSlots *)
Definition validateRecoveredSlots : M bool := validateSlots HUB_EVENT_CAPACITY 0.

(** The loop of [recover] over the slots; [None] is an early return, otherwise
    [allSlotCopiesMissing]. *)
(* hub_event_ledger.h:91-114 = recover, the loop over slots *)
Fixpoint recoverSlots (n slot : nat) (allSlotCopiesMissing : bool) : M (option bool) :=
  match n with
  | O => ret (Some allSlotCopiesMissing)
  | S m =>
      ra <~ readRecordCopy slot A ;;
      let (okA, a) := (ra : bool * FixedCopy) in
      if negb okA then ret None else
      rb <~ readRecordCopy slot B ;;
      let (okB, b) := (rb : bool * FixedCopy) in
      if negb okB then ret None else
      let allSlotCopiesMissing :=
        if negb (bool_decide (EventStorage.status a = READ_MISSING))
           || negb (bool_decide (EventStorage.status b = READ_MISSING))
        then false else allSlotCopiesMissing in
      let '(selection, selected, selectedCopy) := selectRecords a b in
      accepted <~ acceptRecordSelection selection ;;
      if negb accepted then ret None else
      (if negb (bool_decide (selection = BOTH_INVALID))
       then update (set_slot slot (mkSlot true selectedCopy selected)) else ret tt) ;;;
      recoverSlots m (S slot) allSlotCopiesMissing
  end.

(* hub_event_ledger.h:134-136 = recover, checking every slot *)
Fixpoint checkSlots (n slot : nat) : M bool :=
  match n with
  | O => ret true
  | S m =>
      s <~ this id ;;
      if negb (present (slot_at s slot)) then failLedgerBool INDETERMINATE_SLOT
      else checkSlots m (S slot)
  end.

(** Both metadata copies, unless one is unavailable. *)
(* hub_event_ledger.h:116-119 = recover, reading the metadata *)
Definition readMetadataCopies : M (option (FixedCopy * FixedCopy)) :=
  ra <~ readMetadataCopy A ;;
  let (okA, metaA) := (ra : bool * FixedCopy) in
  if negb okA then ret None else
  rb <~ readMetadataCopy B ;;
  let (okB, metaB) := (rb : bool * FixedCopy) in
  if negb okB then ret None else ret (Some (metaA, metaB)).

(** [recover] once the metadata copies are read; the truth value says whether
    the ledger may serve. *)
(* hub_event_ledger.h:127-139 = recover, from the metadata copies *)
Definition recoverState (allSlotCopiesMissing : bool) (metaA metaB : FixedCopy) : M bool :=
  let allMetadataMissing :=
    bool_decide (EventStorage.status metaA = READ_MISSING)
    && bool_decide (EventStorage.status metaB = READ_MISSING) in
  if allSlotCopiesMissing && allMetadataMissing then initializeFresh
  else
  complete <~ checkSlots HUB_EVENT_CAPACITY 0 ;;
  if negb complete then ret false else
  valid <~ validateRecoveredSlots ;;
  if negb valid then ret false else
  recoverMetadata metaA metaB ;;;
  ret true.

(** [recover] once the slots are scanned. *)
(* hub_event_ledger.h:116-142 = recover, from the scanned slots *)
Definition recoverServing (allSlotCopiesMissing : bool) : M Status :=
  copies <~ readMetadataCopies ;;
  match copies with
  | None =>
      valid <~ (if negb allSlotCopiesMissing then validateRecoveredSlots else ret false) ;;
      (if (valid : bool) then
         update (λ s, s <| ledgerHealthy_ := true |> <| status_ := ORDINAL_UNAVAILABLE |>)
       else ret tt) ;;;
      this status_
  | Some (metaA, metaB) =>
      serving <~ recoverState allSlotCopiesMissing metaA metaB ;;
      if negb serving then this status_ else
      update (λ s, s <| ledgerHealthy_ := true |>) ;;;
      update (λ s, if ordinalReady_ s then s <| status_ := READY |> else s) ;;;
      this status_
  end.

(* hub_event_ledger.h:82-143 Ledger::recover *)
Definition recover (hubDeviceId nodeDeviceId : Z) : M Status :=
  update reset ;;;
  update (λ s, s <| hubDeviceId_ := hubDeviceId |> <| nodeDeviceId_ := nodeDeviceId |>) ;;;
  if (hubDeviceId =? 0) || (nodeDeviceId =? 0) || (hubDeviceId =? nodeDeviceId)
  then failLedger INVALID_CONFIGURATION else
  scanned <~ recoverSlots HUB_EVENT_CAPACITY 0 true ;;
  match scanned with
  | None => this status_
  | Some allSlotCopiesMissing => recoverServing allSlotCopiesMissing
  end.

(** The record [admit] builds. *)
(* hub_event_ledger.h:185-196 = admit, the record *)
Definition admittedRecord (previous : HubRecord) (event : EventProtocol.Event) (ordinal : Z)
    : HubRecord :=
  mkHubRecord (u32 (hr_generation previous + 1)) HubState.ACTIVE (EventProtocol.source event)
    (EventProtocol.family event) (EventProtocol.flags event) (EventProtocol.bodyLength event)
    (EventProtocol.epoch event) (EventProtocol.id event)
    (EventProtocol.lifetimeBudgetSeconds event) ordinal
    (copy_bytes (Z.to_nat (EventProtocol.bodyLength event)) (hr_body zeroHubRecord) 0
       (EventProtocol.body event) 0).

(** The slot that already owns the identity of the event, or 255. *)
(* hub_event_ledger.h:154-155 = admit, the search for the identity *)
Definition ownedSlot (event : EventProtocol.Event) (s : Ledger) : nat :=
  firstSlot (λ i, isOwned (record_at s i) && sameIdentity (record_at s i) event)
    HUB_EVENT_CAPACITY 0.

(** The slot a new event goes to: an empty one, else a reclaimable tombstone. *)
(* hub_event_ledger.h:167-168 = admit, the target *)
Definition targetSlot (event : EventProtocol.Event) (s : Ledger) : nat :=
  if (firstEmpty s =? 255)%nat then oldestReclaimable event s else firstEmpty s.

(* hub_event_ledger.h:145-208 Ledger::admit *)
Definition admit_event (event : EventProtocol.Event) : M AdmissionResult :=
  let result status := ret (mkAdmission status 255%nat 0) in
  healthy <~ this ledgerHealthy_ ;;
  if negb healthy then result ADMIT_DEGRADED else
  validation <~ this (validateAdmission event) ;;
  if negb (bool_decide (validation = DURABLE_NEW_ADMISSION)) then result validation else
  slot <~ this (ownedSlot event) ;;
  if negb (slot =? 255)%nat then
    owned <~ this (λ s, record_at s slot) ;;
    let status :=
      if sameCanonical owned event then EXACT_DUPLICATE else ADMIT_IDENTITY_CONTENT_MISMATCH in
    note (if bool_decide (status = EXACT_DUPLICATE)
          then RuntimeState.DUPLICATE_RETRANSMISSION
          else RuntimeState.IDENTITY_CONTENT_MISMATCH) 1 ;;;
    ret (mkAdmission status slot (admissionOrdinal owned))
  else
  target <~ this (targetSlot event) ;;
  if (target =? 255)%nat then result CAPACITY else
  ready <~ this ordinalReady_ ;;
  if negb ready then
    persistenceFailure ;;;
    result ADMIT_STORAGE_FAILURE
  else
  allocated <~ allocateOrdinal ;;
  match allocated with
  | None =>
      persistenceFailure ;;;
      result ADMIT_STORAGE_FAILURE
  | Some ordinal =>
      previous <~ this (λ s, record_at s target) ;;
      committed <~ commitRecord target (admittedRecord previous event ordinal) ;;
      if negb committed then
        persistenceFailure ;;;
        result ADMIT_STORAGE_FAILURE
      else
      note RuntimeState.SUCCESSFUL_ADMISSION 1 ;;;
      updateActiveSnapshot ;;;
      ret (mkAdmission DURABLE_NEW_ADMISSION target ordinal)
  end.

(* hub_event_ledger.h:210-237 Ledger::consume *)
Definition consume (identity : EventProtocol.Identity) : M ConsumeResult :=
  healthy <~ this ledgerHealthy_ ;;
  if negb healthy then ret (mkConsume CONSUME_DEGRADED 255) else
  slot <~ this (λ s, firstSlot (λ i, hasIdentity identity (record_at s i)) HUB_EVENT_CAPACITY 0) ;;
  if (slot =? 255)%nat then ret (mkConsume NOT_FOUND 255) else
  current <~ this (λ s, record_at s slot) ;;
  if hr_state current =? HubState.CONSUMED then ret (mkConsume ALREADY_CONSUMED slot) else
  committed <~ commitRecord slot
    (current <| hr_generation := u32 (hr_generation current + 1) |>
             <| hr_state := HubState.CONSUMED |>) ;;
  if (committed : bool) then
    note RuntimeState.HOST_CONSUMPTION 1 ;;;
    updateActiveSnapshot ;;;
    ret (mkConsume CONSUMED slot)
  else
  persistenceFailure ;;;
  ret (mkConsume CONSUME_STORAGE_FAILURE slot).

End Methods.

End HubEventLedger.
