(* ===== verification/LedgerFacts.v ===== *)
(** The Hub event ledger over durable storage: laws of its cells, and what one
    read and one verified write do to what the flash holds. *)

From S2P Require Import Prelude Wire EventWire Copies Records Identity Diagnostics Ledger.

Module LedgerFacts.

Import EventStorage EventRecords HubEventLedger.

(** A cell is the metadata ([None]) or an event slot, in two copies. *)

Definition cellSize (k : option nat) : nat :=
  match k with None => 24 | Some _ => 56 end.

Definition metadata_of (blob : option (list Z)) : option HubMetadata :=
  match decodeHubMetadata blob zeroHubMetadata with
  | (OK, r) => Some r
  | _ => None
  end.

Definition record_of (blob : option (list Z)) : option HubRecord :=
  match decodeHubRecord blob zeroHubRecord with
  | (OK, r) => Some r
  | _ => None
  end.

(** A blob that decodes to nothing. *)
Definition unreadable (k : option nat) (blob : option (list Z)) : Prop :=
  match k with
  | None => metadata_of blob = None
  | Some _ => record_of blob = None
  end.

Section Cells.

Context {W : Type} `{Storage W}.

Definition readCell (k : option nat) (c : CopySlot) (out : list Z)
    : st W (StorageResult * list Z * Z) :=
  match k with None => readHubMetadata c out | Some i => readHubEventCopy i c out end.

Definition writeCell (k : option nat) (c : CopySlot) (b : list Z) : st W StorageResult :=
  match k with None => writeHubMetadata c b | Some i => writeHubEventCopy i c b end.

End Cells.

(** What the flash store is documented to do with a cell: an available read
    returns the blob, or that there is none, or that its length is wrong,
    leaving the buffer alone; a write leaves the old blob, the new one or an
    undecodable one, and touches no other cell. *)
Class DurableCells (W : Type) `{Storage W} := {
  stored : W → option nat → CopySlot → option (list Z);
  stored_bytes w k c b : stored w k c = Some b → is_byte_list b;
  readCell_buffer k c out w :
    is_byte_list out →
    length ((readCell k c out w).1.1.2) = length out ∧ is_byte_list (readCell k c out w).1.1.2;
  readCell_keeps k c out w k' c' : stored (readCell k c out w).2 k' c' = stored w k' c';
  readCell_result k c out w :
    length out = cellSize k →
    (readCell k c out w).1.1.1 = S_UNAVAILABLE ∨
    match stored w k c with
    | None => (readCell k c out w).1.1.1 = S_MISSING
    | Some b =>
        if bool_decide (length b = cellSize k)
        then (readCell k c out w).1 = (S_OK, b, Z.of_nat (cellSize k))
        else (readCell k c out w).1.1 = (EventIdentity.S_ERROR, out)
    end;
  writeCell_keeps k c b w k' c' :
    (k', c') ≠ (k, c) → stored (writeCell k c b w).2 k' c' = stored w k' c';
  writeCell_outcome k c b w :
    is_byte_list b →
    stored (writeCell k c b w).2 k c = stored w k c
    ∨ stored (writeCell k c b w).2 k c = Some b
    ∨ unreadable k (stored (writeCell k c b w).2 k c);
  commit_keeps w k c : stored (commit w).2 k c = stored w k c
}.

Section Durable.

Context {W : Type} `{DurableCells W}.

Implicit Types (s : Ledger) (w : W).

Definition metadata_in w (c : CopySlot) : option HubMetadata := metadata_of (stored w None c).

Definition record_in w (i : nat) (c : CopySlot) : option HubRecord :=
  record_of (stored w (Some i) c).

Abbreviation governs w i := (authority hr_generation (record_in w i)).

Abbreviation presides w := (authority hm_generation (metadata_in w)).

(** The flash holds the same blobs; it may differ in one cell only. *)

Definition same_cells w w' : Prop := ∀ k c, stored w' k c = stored w k c.

Definition only_cell (k : option nat) w w' : Prop :=
  ∀ k' c, k' ≠ k → stored w' k' c = stored w k' c.

Lemma same_cells_trans w w' w'' : same_cells w w' → same_cells w' w'' → same_cells w w''.
Proof. intros G1 G2 k c. by rewrite G2. Qed.

Lemma only_cell_same k w w' w'' : only_cell k w w' → same_cells w' w'' → only_cell k w w''.
Proof. intros G1 G2 k' c Hk. rewrite G2. by apply G1. Qed.

Lemma hub_governs_eq w w' i r c :
  (∀ d, stored w' (Some i) d = stored w (Some i) d) → governs w i r c → governs w' i r c.
Proof.
  intros Hs [G1 G2]. split; [by unfold record_in; rewrite Hs|].
  intros r'. unfold record_in. rewrite Hs. apply G2.
Qed.

Lemma presides_eq w w' m c :
  (∀ d, stored w' None d = stored w None d) → presides w m c → presides w' m c.
Proof.
  intros Hs [G1 G2]. split; [by unfold metadata_in; rewrite Hs|].
  intros r'. unfold metadata_in. rewrite Hs. apply G2.
Qed.

Lemma record_in_inv w i c r :
  record_in w i c = Some r →
  hub_record_wf r ∧ validateHubRecord r = OK ∧ stored w (Some i) c = Some (hubRecordBytes r).
Proof.
  unfold record_in, record_of. destruct (stored w (Some i) c) as [b|] eqn:Hs; [|done].
  destruct (decodeHubRecord (Some b) zeroHubRecord) as [[] r'] eqn:Hd; try done.
  intros [= <-]. apply decodeHubRecord_inv in Hd as (?&?&->); [done|].
  by eapply stored_bytes.
Qed.

Lemma record_in_stored w i c r :
  hub_record_wf r → validateHubRecord r = OK → stored w (Some i) c = Some (hubRecordBytes r) →
  record_in w i c = Some r.
Proof.
  intros Hw Hv Hs. unfold record_in, record_of. rewrite Hs.
  rewrite (decode_hubRecordBytes r zeroHubRecord Hw Hv). reflexivity.
Qed.

Definition metadata_ok (m : HubMetadata) : Prop :=
  hub_metadata_wf m ∧ nextUnreservedAdmissionOrdinal m ≠ 0.

Lemma metadata_in_inv w c m :
  metadata_in w c = Some m → metadata_ok m ∧ stored w None c = Some (hubMetadataBytes m).
Proof.
  unfold metadata_in, metadata_of. destruct (stored w None c) as [b|] eqn:Hs; [|done].
  destruct (decodeHubMetadata (Some b) zeroHubMetadata) as [[] r'] eqn:Hd; try done.
  intros [= <-]. apply decodeHubMetadata_inv in Hd as (?&?&->); [done|].
  by eapply stored_bytes.
Qed.

Lemma metadata_in_stored w c m :
  metadata_ok m → stored w None c = Some (hubMetadataBytes m) → metadata_in w c = Some m.
Proof.
  intros [Hw Hv] Hs. unfold metadata_in, metadata_of. rewrite Hs.
  rewrite (decode_hubMetadataBytes m zeroHubMetadata Hw Hv). reflexivity.
Qed.

(** ** Reading a copy *)

Definition ledger_failed (status : Status) s : Ledger :=
  s <| ledgerHealthy_ := false |> <| status_ := status |>.

Definition with_status (status : Status) s : Ledger := s <| status_ := status |>.

Definition holds_record (copy : FixedCopy) : option HubRecord :=
  holds zeroHubRecord decodeHubRecordForSelection copy.

Definition holds_metadata (copy : FixedCopy) : option HubMetadata :=
  holds zeroHubMetadata decodeHubMetadataForSelection copy.

(** What the two reads share: the copy holds what the flash holds. *)
Definition faithful_copy (k : option nat) w c (copy : FixedCopy) : Prop :=
  length (bytes copy) = cellSize k ∧ is_byte_list (bytes copy)
  ∧ (EventStorage.status copy = READ_MISSING ↔ stored w k c = None)
  ∧ match k with
    | None => holds_metadata copy = metadata_in w c
    | Some i => holds_record copy = record_in w i c
    end.

Lemma readCell_faithful k c w r b l w' :
  readCell k c (zeros (cellSize k)) w = ((r, b, l), w') →
  same_cells w w' ∧
  (r = S_UNAVAILABLE
   ∨ r = S_MISSING ∧ faithful_copy k w c (mkCopy READ_MISSING b)
   ∨ r ≠ S_UNAVAILABLE ∧ r ≠ S_MISSING ∧ faithful_copy k w c (mkCopy READ_OK b)).
Proof.
  intros E. pose proof (readCell_buffer k c (zeros (cellSize k)) w (zeros_byte _)) as [Hl Hb].
  pose proof (λ k' c', readCell_keeps k c (zeros (cellSize k)) w k' c') as Hk.
  pose proof (readCell_result k c (zeros (cellSize k)) w (length_zeros _)) as Hr.
  rewrite E in *. cbn [fst snd] in *. split; [exact Hk|]. rewrite length_zeros in Hl.
  destruct Hr as [->|Hr]; [by left|right]. unfold faithful_copy.
  destruct (stored w k c) as [b'|] eqn:Hs.
  - right. destruct (bool_decide_reflect (length b' = cellSize k)) as [El|El] in Hr.
    + injection Hr as -> -> ->. do 2 (split; [done|]). do 3 (split; [done|]).
      destruct k as [i|]; unfold holds_record, holds_metadata, record_in, metadata_in, holds,
        record_of, metadata_of, decodeHubRecordForSelection, decodeHubMetadataForSelection;
        rewrite Hs; cbn [EventStorage.status EventStorage.bytes]; decide_eqs;
        [by destruct (decodeHubRecord (Some b') zeroHubRecord) as [[] ?]
        |by destruct (decodeHubMetadata (Some b') zeroHubMetadata) as [[] ?]].
    + injection Hr as -> ->. do 2 (split; [done|]). do 3 (split; [done|]).
      destruct k as [i|]; unfold record_in, metadata_in, record_of, metadata_of; rewrite Hs;
        unfold decodeHubRecord, decodeHubMetadata, validateEnvelope;
        rewrite (proj2 (Nat.eqb_neq _ _)) by done; vm_compute; reflexivity.
  - left. split; [done|]. do 3 (split; [done|]).
    destruct k as [i|]; unfold holds_record, holds_metadata, record_in, metadata_in, holds;
      rewrite Hs; cbn [EventStorage.status]; by decide_eqs.
Qed.

Lemma readRecordCopy_hub_cases i c s w :
  ∃ w', same_cells w w' ∧
   ((∃ copy, readRecordCopy i c (s, w) = ((true, copy), (s, w')) ∧ faithful_copy (Some i) w c copy)
    ∨ ∃ copy, readRecordCopy i c (s, w)
        = ((false, copy), (ledger_failed STORAGE_UNAVAILABLE s, w'))).
Proof.
  unfold readRecordCopy, classifyRead, failLedger. object. change HUB_RECORD_SIZE with 56%nat.
  change (readHubEventCopy i c) with (readCell (Some i) c).
  destruct (readCell (Some i) c (zeros 56) w) as [[[r b] l] w'] eqn:E.
  apply (readCell_faithful (Some i) c w) in E as (Hs & Hc). exists w'. split; [done|].
  destruct Hc as [->|[[-> Hc]|(G1 & G2 & Hc)]]; cbn [fst snd]; decide_eqs; cbn [fst snd];
    [right; by eexists|left; by eexists|].
  left. by eexists.
Qed.

Lemma readMetadataCopy_cases c s w :
  ∃ w', same_cells w w' ∧
   ((∃ copy, readMetadataCopy c (s, w) = ((true, copy), (s, w')) ∧ faithful_copy None w c copy)
    ∨ ∃ copy, readMetadataCopy c (s, w)
        = ((false, copy), (with_status ORDINAL_UNAVAILABLE s, w'))).
Proof.
  unfold readMetadataCopy, classifyRead, failLedger. object. change HUB_METADATA_SIZE with 24%nat.
  change (readHubMetadata c) with (readCell None c).
  destruct (readCell None c (zeros 24) w) as [[[r b] l] w'] eqn:E.
  apply (readCell_faithful None c w) in E as (Hs & Hc). exists w'. split; [done|].
  destruct Hc as [->|[[-> Hc]|(G1 & G2 & Hc)]]; cbn [fst snd]; decide_eqs; cbn [fst snd];
    [right; by eexists|left; by eexists|].
  left. by eexists.
Qed.

(** ** Selecting between the copies *)

Lemma refusedSelection_usable result : refusedSelection result = negb (usable result).
Proof. by destruct result. Qed.

Definition pair_of (a b : FixedCopy) (c : CopySlot) : FixedCopy :=
  match c with A => a | B => b end.

Lemma holds_record_bytes copy r :
  is_byte_list (bytes copy) → holds_record copy = Some r →
  bytes copy = hubRecordBytes r ∧ hub_record_wf r.
Proof.
  intros Hb. unfold holds_record, holds. destruct (bool_decide _); [|done].
  unfold decodeHubRecordForSelection.
  destruct (decodeHubRecord (Some (bytes copy)) zeroHubRecord) as [[] r'] eqn:E; try done.
  intros [= <-]. by apply decodeHubRecord_inv in E as (?&?&->).
Qed.

Lemma holds_metadata_bytes copy m :
  is_byte_list (bytes copy) → holds_metadata copy = Some m →
  bytes copy = hubMetadataBytes m ∧ hub_metadata_wf m.
Proof.
  intros Hb. unfold holds_metadata, holds. destruct (bool_decide _); [|done].
  unfold decodeHubMetadataForSelection.
  destruct (decodeHubMetadata (Some (bytes copy)) zeroHubMetadata) as [[] r'] eqn:E; try done.
  intros [= <-]. by apply decodeHubMetadata_inv in E as (?&?&->).
Qed.

Lemma selectRecords_usable w i a b result r c :
  faithful_copy (Some i) w A a → faithful_copy (Some i) w B b →
  selectRecords a b = (result, r, c) → usable result = true → governs w i r c.
Proof.
  intros (Hla & _ & _ & Ha) (Hlb & _ & _ & Hb) E Hu.
  change (selectRecords a b) with
    (selectAt zeroHubRecord hr_generation decodeHubRecordForSelection 56 (pair_of a b)) in E.
  assert (Hh : ∀ d, holds zeroHubRecord decodeHubRecordForSelection (pair_of a b d) = record_in w i d)
    by by intros [].
  apply selectAt_authority in E as [G1 G2]; [|by intros []|done].
  split; [by rewrite <- Hh|]. intros r'. rewrite <- Hh. apply G2.
Qed.

Lemma selectRecords_governed w i a b r c :
  faithful_copy (Some i) w A a → faithful_copy (Some i) w B b → governs w i r c →
  ∃ result c', usable result = true ∧ selectRecords a b = (result, r, c') ∧ governs w i r c'.
Proof.
  intros Ha Hb [G1 G2]. pose proof Ha as (Hla & Hba & _ & Hha). pose proof Hb as (Hlb & Hbb & _ & Hhb).
  assert (Hh : ∀ d, holds zeroHubRecord decodeHubRecordForSelection (pair_of a b d) = record_in w i d)
    by by intros [].
  assert (Hby : ∀ d, is_byte_list (bytes (pair_of a b d))) by by intros [].
  destruct (selectAt_of_authority zeroHubRecord hr_generation decodeHubRecordForSelection 56
    (pair_of a b) r c) as (result & c' & Hu & E & _).
  - split; [by rewrite Hh|]. intros r'. rewrite Hh. apply G2.
  - intros d r' Hr'. by apply holds_record_bytes in Hr' as [_ (?&_)].
  - intros d d' r' Hd Hd'. apply holds_record_bytes in Hd as [-> Hwf]; [|done].
    apply holds_record_bytes in Hd' as [-> _]; [|done].
    by apply bytes_eqb_eq; [by apply length_hubRecordBytes..|].
  - exists result, c'. split; [done|]. split; [exact E|]. by eapply selectRecords_usable.
Qed.

Lemma selectMetadata_usable w a b result m c :
  faithful_copy None w A a → faithful_copy None w B b →
  selectMetadata a b = (result, m, c) → usable result = true → presides w m c.
Proof.
  intros (Hla & _ & _ & Ha) (Hlb & _ & _ & Hb) E Hu.
  change (selectMetadata a b) with
    (selectAt zeroHubMetadata hm_generation decodeHubMetadataForSelection 24 (pair_of a b)) in E.
  assert (Hh : ∀ d, holds zeroHubMetadata decodeHubMetadataForSelection (pair_of a b d)
                = metadata_in w d) by by intros [].
  apply selectAt_authority in E as [G1 G2]; [|by intros []|done].
  split; [by rewrite <- Hh|]. intros r'. rewrite <- Hh. apply G2.
Qed.

Lemma selectMetadata_presided w a b m c :
  faithful_copy None w A a → faithful_copy None w B b → presides w m c →
  ∃ result c', usable result = true ∧ selectMetadata a b = (result, m, c') ∧ presides w m c'.
Proof.
  intros Ha Hb [G1 G2]. pose proof Ha as (Hla & Hba & _ & Hha). pose proof Hb as (Hlb & Hbb & _ & Hhb).
  assert (Hh : ∀ d, holds zeroHubMetadata decodeHubMetadataForSelection (pair_of a b d)
                = metadata_in w d) by by intros [].
  assert (Hby : ∀ d, is_byte_list (bytes (pair_of a b d))) by by intros [].
  destruct (selectAt_of_authority zeroHubMetadata hm_generation decodeHubMetadataForSelection 24
    (pair_of a b) m c) as (result & c' & Hu & E & _).
  - split; [by rewrite Hh|]. intros r'. rewrite Hh. apply G2.
  - intros d r' Hr'. by apply holds_metadata_bytes in Hr' as [_ (?&_)].
  - intros d d' r' Hd Hd'. apply holds_metadata_bytes in Hd as [-> Hwf]; [|done].
    apply holds_metadata_bytes in Hd' as [-> _]; [|done].
    by apply bytes_eqb_eq; [by apply length_hubMetadataBytes..|].
  - exists result, c'. split; [done|]. split; [exact E|]. by eapply selectMetadata_usable.
Qed.

(** ** Verified writes *)

(** What a write of a cell and the reads after it leave behind. *)
Definition written (k : option nat) (c : CopySlot) (b : list Z) w w' : Prop :=
  ∀ k' c', stored w' k' c' = stored (writeCell k c b w).2 k' c'.

Lemma written_only k c b w w' : written k c b w w' → only_cell k w w'.
Proof. intros Hw k' c' Hk. rewrite Hw. apply writeCell_keeps. congruence. Qed.

Ltac refused_write := right; eexists; split; [|reflexivity]; unfold storageStatus;
  repeat case_bool_decide; done.

Lemma commitRecordTo_writes i target r s w :
  hub_record_wf r → validateHubRecord r = OK →
  ∃ w', written (Some i) target (hubRecordBytes r) w w'
    ∧ (commitRecordTo i r target (s, w) = confirmRecord i r target (s, w')
         ∧ stored w' (Some i) target = Some (hubRecordBytes r)
       ∨ ∃ st, st ≠ READY ∧ commitRecordTo i r target (s, w) = (false, (ledger_failed st s, w'))).
Proof.
  intros Hwf Hv. unfold commitRecordTo. rewrite encodeHubRecord_spec by done.
  unfold failLedgerBool, failLedger. object.
  change (writeHubEventCopy i) with (writeCell (Some i)).
  change (readHubEventCopy i target) with (readCell (Some i) target).
  set (b := hubRecordBytes r). unfold written.
  destruct (writeCell (Some i) target b w) as [wr w1]; cbn [fst snd].
  destruct (decide (wr = S_OK)) as [->|]; decide_eqs;
    [|exists w1; split; [done|refused_write]].
  pose proof (commit_keeps w1) as Hck. destruct (commit w1) as [cr w2]; cbn [fst snd] in *.
  destruct (decide (cr = S_OK)) as [->|]; decide_eqs;
    [|exists w2; split; [done|refused_write]].
  change HUB_RECORD_SIZE with (cellSize (Some i)).
  pose proof (readCell_result (Some i) target (zeros (cellSize (Some i))) w2 (length_zeros _)) as Hr.
  pose proof (readCell_keeps (Some i) target (zeros (cellSize (Some i))) w2) as Hk.
  pose proof (readCell_buffer (Some i) target (zeros (cellSize (Some i))) w2 (zeros_byte _)) as [Hl _].
  destruct (readCell (Some i) target _ w2) as [[[rr b'] l] w3]; cbn [fst snd] in *.
  exists w3. split; [intros k' c'; by rewrite Hk, Hck|].
  destruct (decide (rr = S_OK)) as [->|]; decide_eqs; [|refused_write].
  destruct (negb (l =? _)); [refused_write|].
  destruct (decodeHubRecord (Some b') zeroHubRecord) as [dr v].
  destruct (decide (dr = OK)) as [->|]; decide_eqs; [|refused_write].
  unfold bytesEqual. destruct (bytes_eqb (cellSize (Some i)) b b' 0) eqn:E; bsimp; [|refused_write].
  left. split; [done|]. apply bytes_eqb_eq in E;
    [|by apply length_hubRecordBytes|by rewrite Hl, length_zeros]. subst b'.
  destruct Hr as [|Hr]; [discriminate|]. rewrite Hk.
  destruct (stored w2 (Some i) target) as [b''|]; [|discriminate].
  destruct (bool_decide _) in Hr; [|discriminate]. by injection Hr as ->.
Qed.

Definition ordinal_failed (status : Status) s : Ledger :=
  s <| ordinalReady_ := false |> <| status_ := status |>.

Lemma commitMetadata_writes target m s w :
  metadata_ok m →
  ∃ w', written None target (hubMetadataBytes m) w w'
    ∧ (commitMetadata m target (s, w) = confirmMetadata m target (s, w')
         ∧ stored w' None target = Some (hubMetadataBytes m)
       ∨ ∃ st, st ≠ READY ∧ commitMetadata m target (s, w) = (false, (ordinal_failed st s, w'))).
Proof.
  intros [Hwf Hv]. unfold commitMetadata. rewrite encodeHubMetadata_spec by done.
  unfold failOrdinal. object.
  change writeHubMetadata with (writeCell None).
  change (readHubMetadata target) with (readCell None target).
  set (b := hubMetadataBytes m). unfold written.
  destruct (writeCell None target b w) as [wr w1]; cbn [fst snd].
  destruct (decide (wr = S_OK)) as [->|]; decide_eqs;
    [|exists w1; split; [done|refused_write]].
  pose proof (commit_keeps w1) as Hck. destruct (commit w1) as [cr w2]; cbn [fst snd] in *.
  destruct (decide (cr = S_OK)) as [->|]; decide_eqs;
    [|exists w2; split; [done|refused_write]].
  change HUB_METADATA_SIZE with (cellSize None).
  pose proof (readCell_result None target (zeros (cellSize None)) w2 (length_zeros _)) as Hr.
  pose proof (readCell_keeps None target (zeros (cellSize None)) w2) as Hk.
  pose proof (readCell_buffer None target (zeros (cellSize None)) w2 (zeros_byte _)) as [Hl _].
  destruct (readCell None target _ w2) as [[[rr b'] l] w3]; cbn [fst snd] in *.
  exists w3. split; [intros k' c'; by rewrite Hk, Hck|].
  destruct (decide (rr = S_OK)) as [->|]; decide_eqs; [|refused_write].
  destruct (negb (l =? _)); [refused_write|].
  destruct (decodeHubMetadata (Some b') zeroHubMetadata) as [dr v].
  destruct (decide (dr = OK)) as [->|]; decide_eqs; [|refused_write].
  unfold bytesEqual. destruct (bytes_eqb (cellSize None) b b' 0) eqn:E; bsimp; [|refused_write].
  left. split; [done|]. apply bytes_eqb_eq in E;
    [|by apply length_hubMetadataBytes|by rewrite Hl, length_zeros]. subst b'.
  destruct Hr as [|Hr]; [discriminate|]. rewrite Hk.
  destruct (stored w2 None target) as [b''|]; [|discriminate].
  destruct (bool_decide _) in Hr; [|discriminate]. by injection Hr as ->.
Qed.

(** ** The second read *)

Lemma refusalStatus_ready selection : refusalStatus selection ≠ READY.
Proof. by destruct selection. Qed.

Lemma confirmRecord_cases i r target s w :
  record_in w i target = Some r →
  ∃ w', same_cells w w' ∧
   (confirmRecord i r target (s, w) = (true, (set_slot i (mkSlot true target r) s, w'))
    ∨ ∃ st, st ≠ READY ∧ confirmRecord i r target (s, w) = (false, (ledger_failed st s, w'))).
Proof.
  intros Hr. unfold confirmRecord.
  destruct (readRecordCopy_hub_cases i A s w) as (w1 & Hs1 & [(a & E1 & Ha)|(a & E1)]);
    rewrite (bind_run _ _ _ _ _ E1); cbn [negb];
    [|exists w1; split; [done|]; right; by exists STORAGE_UNAVAILABLE].
  destruct (readRecordCopy_hub_cases i B s w1) as (w2 & Hs2 & [(b & E2 & Hb)|(b & E2)]);
    rewrite (bind_run _ _ _ _ _ E2); cbn [negb]; exists w2;
    (split; [by eapply same_cells_trans|]);
    [|right; by exists STORAGE_UNAVAILABLE].
  destruct (selectRecords a b) as [[selection chosen] c] eqn:E.
  rewrite refusedSelection_usable.
  destruct (decide (c = target)) as [->|]; decide_eqs; cbn [negb orb];
    [|right; eexists; split; [apply refusalStatus_ready|reflexivity]].
  destruct (negb (hr_generation chosen =? hr_generation r)); cbn [orb];
    [right; eexists; split; [apply refusalStatus_ready|reflexivity]|].
  destruct (usable selection) eqn:Hu; cbn [negb];
    [|right; eexists; split; [apply refusalStatus_ready|reflexivity]].
  left. assert (Hb' : faithful_copy (Some i) w B b).
  { destruct Hb as (G1 & G2 & G3 & G4). split; [done|]. split; [done|].
    split; [by rewrite G3, Hs1|]. rewrite G4. unfold record_in. by rewrite Hs1. }
  destruct (selectRecords_usable w i a b selection chosen target Ha Hb' E Hu) as [Hc _].
  rewrite Hr in Hc. injection Hc as <-. reflexivity.
Qed.

Definition with_metadata (m : HubMetadata) (c : CopySlot) s : Ledger :=
  s <| metadata_ := m |> <| metadataCopy_ := c |> <| hasMetadata_ := true |>
    <| ordinalReady_ := true |>.

Lemma confirmMetadata_cases m target s w :
  metadata_in w target = Some m →
  ∃ w', same_cells w w' ∧
   (confirmMetadata m target (s, w) = (true, (with_metadata m target s, w'))
    ∨ ∃ st, st ≠ READY ∧ confirmMetadata m target (s, w) = (false, (ordinal_failed st s, w'))).
Proof.
  intros Hm. unfold confirmMetadata.
  destruct (readMetadataCopy_cases A s w) as (w1 & Hs1 & [(a & E1 & Ha)|(a & E1)]);
    rewrite (bind_run _ _ _ _ _ E1); cbn [negb];
    [|exists w1; split; [done|]; right; by exists STORAGE_UNAVAILABLE].
  destruct (readMetadataCopy_cases B s w1) as (w2 & Hs2 & [(b & E2 & Hb)|(b & E2)]);
    rewrite (bind_run _ _ _ _ _ E2); cbn [negb]; exists w2;
    (split; [by eapply same_cells_trans|]);
    [|right; by exists STORAGE_UNAVAILABLE].
  destruct (selectMetadata a b) as [[selection chosen] c] eqn:E.
  rewrite refusedSelection_usable.
  destruct (decide (c = target)) as [->|]; decide_eqs; cbn [negb orb];
    [|right; eexists; split; [apply refusalStatus_ready|reflexivity]].
  destruct (negb (hm_generation chosen =? hm_generation m)); cbn [orb];
    [right; eexists; split; [apply refusalStatus_ready|reflexivity]|].
  destruct (usable selection) eqn:Hu; cbn [negb];
    [|right; eexists; split; [apply refusalStatus_ready|reflexivity]].
  left. assert (Hb' : faithful_copy None w B b).
  { destruct Hb as (G1 & G2 & G3 & G4). split; [done|]. split; [done|].
    split; [by rewrite G3, Hs1|]. rewrite G4. unfold metadata_in. by rewrite Hs1. }
  destruct (selectMetadata_usable w a b selection chosen target Ha Hb' E Hu) as [Hc _].
  rewrite Hm in Hc. injection Hc as <-. reflexivity.
Qed.

(** ** One update of a cell pair

    The record in charge is replaced by its successor, or stays in charge. *)

Lemma hub_opposite_other c : opposite c = other c.
Proof. by destruct c. Qed.

Lemma written_record w w' i target r :
  hub_record_wf r → validateHubRecord r = OK → written (Some i) target (hubRecordBytes r) w w' →
  (∀ c, c ≠ target → record_in w' i c = record_in w i c)
  ∧ (record_in w' i target = record_in w i target ∨ record_in w' i target = Some r
     ∨ record_in w' i target = None).
Proof.
  intros Hwf Hv Hw. split.
  - intros c Hc. unfold record_in. rewrite Hw, writeCell_keeps; [done|congruence].
  - unfold record_in. rewrite Hw.
    destruct (writeCell_outcome (Some i) target (hubRecordBytes r) w) as [->|[->|Hu]];
      [by apply hubRecordBytes_byte|by left|right; left|by right; right].
    unfold record_of. rewrite (decode_hubRecordBytes r zeroHubRecord Hwf Hv). reflexivity.
Qed.

Lemma written_metadata w w' target m :
  metadata_ok m → written None target (hubMetadataBytes m) w w' →
  (∀ c, c ≠ target → metadata_in w' c = metadata_in w c)
  ∧ (metadata_in w' target = metadata_in w target ∨ metadata_in w' target = Some m
     ∨ metadata_in w' target = None).
Proof.
  intros [Hwf Hv] Hw. split.
  - intros c Hc. unfold metadata_in. rewrite Hw, writeCell_keeps; [done|congruence].
  - unfold metadata_in. rewrite Hw.
    destruct (writeCell_outcome None target (hubMetadataBytes m) w) as [->|[->|Hu]];
      [by apply hubMetadataBytes_byte|by left|right; left|by right; right].
    unfold metadata_of. rewrite (decode_hubMetadataBytes m zeroHubMetadata Hwf Hv). reflexivity.
Qed.

Lemma commitRecord_cases i r s w old a :
  governs w i old a → activeCopy (slot_at s i) = a →
  hub_record_wf r → validateHubRecord r = OK →
  hr_generation r = u32 (hr_generation old + 1) →
  ∃ w', only_cell (Some i) w w' ∧
   (commitRecord i r (s, w) = (true, (set_slot i (mkSlot true (other a) r) s, w'))
      ∧ governs w' i r (other a)
    ∨ (∃ st, st ≠ READY ∧ commitRecord i r (s, w) = (false, (ledger_failed st s, w')))
      ∧ (governs w' i old a ∨ governs w' i r (other a))).
Proof.
  intros Hg Ha Hwf Hv Hgen. unfold commitRecord.
  rewrite (bind_run (this _) _ (s, w) a (s, w)) by (unfold this; by rewrite <- Ha).
  rewrite hub_opposite_other.
  destruct (commitRecordTo_writes i (other a) r s w Hwf Hv) as (w1 & Hw & Hcase).
  pose proof (written_record w w1 i (other a) r Hwf Hv Hw) as [Hkeep Hout].
  assert (Hgr : is_u32 (hr_generation old)).
  { destruct Hg as [Hc _]. by apply record_in_inv in Hc as ((?&_)&_). }
  destruct (authority_write hr_generation _ (record_in w1 i) _ _ r Hg Hgr Hgen) as [Hnew Hany];
    [apply Hkeep; by destruct a|exact Hout|].
  assert (Ho1 : only_cell (Some i) w w1) by by eapply written_only.
  destruct Hcase as [[E Hst]|(st & Hst & E)].
  2:{ exists w1. split; [done|]. right. split; [by exists st|done]. }
  assert (Hin : record_in w1 i (other a) = Some r) by by apply record_in_stored.
  specialize (Hnew Hin).
  destruct (confirmRecord_cases i r (other a) s w1 Hin) as (w2 & Hs2 & Hc).
  exists w2. split; [by eapply only_cell_same|]. rewrite E.
  destruct Hc as [Hc|(st & Hne & Hc)]; rewrite Hc; [left|right; split; [by exists st|right]].
  - split; [done|]. eapply hub_governs_eq; [|exact Hnew]. intros d. by rewrite Hs2.
  - eapply hub_governs_eq; [|exact Hnew]. intros d. by rewrite Hs2.
Qed.

Lemma hub_commitMetadata_cases m s w old a :
  presides w old a → metadata_ok m → hm_generation m = u32 (hm_generation old + 1) →
  ∃ w', only_cell None w w' ∧
   (commitMetadata m (other a) (s, w) = (true, (with_metadata m (other a) s, w'))
      ∧ presides w' m (other a)
    ∨ (∃ st, st ≠ READY ∧ commitMetadata m (other a) (s, w) = (false, (ordinal_failed st s, w')))
      ∧ (presides w' old a ∨ presides w' m (other a))).
Proof.
  intros Hg Hok Hgen.
  destruct (commitMetadata_writes (other a) m s w Hok) as (w1 & Hw & Hcase).
  pose proof (written_metadata w w1 (other a) m Hok Hw) as [Hkeep Hout].
  assert (Hgr : is_u32 (hm_generation old)).
  { destruct Hg as [Hc _]. by apply metadata_in_inv in Hc as (((?&_)&_)&_). }
  destruct (authority_write hm_generation _ (metadata_in w1) _ _ m Hg Hgr Hgen) as [Hnew Hany];
    [apply Hkeep; by destruct a|exact Hout|].
  assert (Ho1 : only_cell None w w1) by by eapply written_only.
  destruct Hcase as [[E Hst]|(st & Hst & E)].
  2:{ exists w1. split; [done|]. right. split; [by exists st|done]. }
  assert (Hin : metadata_in w1 (other a) = Some m) by by apply metadata_in_stored.
  specialize (Hnew Hin).
  destruct (confirmMetadata_cases m (other a) s w1 Hin) as (w2 & Hs2 & Hc).
  exists w2. split; [by eapply only_cell_same|]. rewrite E.
  destruct Hc as [Hc|(st & Hne & Hc)]; rewrite Hc; [left|right; split; [by exists st|right]].
  - split; [done|]. eapply presides_eq; [|exact Hnew]. intros d. by rewrite Hs2.
  - eapply presides_eq; [|exact Hnew]. intros d. by rewrite Hs2.
Qed.

End Durable.

End LedgerFacts.
