(* ===== verification/LedgerOps.v ===== *)
(** The Hub event ledger as its callers see it: admission, consumption and
    recovery as changes of an array of records with their ordinals. *)

From S2P Require Import Prelude Wire EventWire Copies Records Identity Diagnostics Ledger LedgerFacts.

Module LedgerOps.

Import EventStorage EventRecords HubEventLedger LedgerFacts.

(** The identity of the record of an event. *)
Definition hub_identity (r : HubRecord) : EventProtocol.Identity :=
  EventProtocol.mkIdentity (hr_sourceDeviceId r) (hr_eventEpoch r) (hr_eventId r).

(** The ordinals of the records [R] are all below [bound]. *)
Definition ordinals_below (bound : Z) (R : nat → HubRecord) : Prop :=
  ∀ i, (i < 8)%nat → isOwned (R i) = true → admissionOrdinal (R i) < bound.

(** No two records own one identity, or one ordinal. *)
Definition hub_distinct (R : nat → HubRecord) : Prop :=
  ∀ i j, (i < 8)%nat → (j < 8)%nat → i ≠ j → isOwned (R i) = true → isOwned (R j) = true →
    hub_identity (R i) ≠ hub_identity (R j) ∧ admissionOrdinal (R i) ≠ admissionOrdinal (R j).

(** The next ordinal the ledger hands out. *)
Definition cursor (s : Ledger) : Z :=
  if nextVolatileOrdinal_ s =? volatileEndExclusive_ s
  then nextUnreservedAdmissionOrdinal (metadata_ s) else nextVolatileOrdinal_ s.

Section Durable.

Context {W : Type} `{DurableCells W}.

Implicit Types (s : Ledger) (w : W) (R : nat → HubRecord).

Abbreviation governs w i := (authority hr_generation (record_in w i)).

Abbreviation presides w := (authority hm_generation (metadata_in w)).

(** Metadata in charge that covers the ordinals of [R]. *)
Definition ordinals_covered w R : Prop :=
  ∃ m c, presides w m c ∧ validHighWater (nextUnreservedAdmissionOrdinal m) = true
    ∧ ordinals_below (nextUnreservedAdmissionOrdinal m) R.

(** Custody of the flash alone. *)
Record hub_custody w R : Prop := mkHubCustody {
  hc_governs i : (i < 8)%nat → ∃ c, governs w i (R i) c;
  hc_distinct : hub_distinct R;
  hc_covered : ordinals_covered w R
}.

(** The ledger that holds the ordinal block in its memory. *)
Record ordinals_ready s w : Prop := mkOrdinalsReady {
  or_presides : presides w (metadata_ s) (metadataCopy_ s);
  or_high : validHighWater (nextUnreservedAdmissionOrdinal (metadata_ s)) = true;
  or_cursor :
    nextVolatileOrdinal_ s = volatileEndExclusive_ s
    ∨ 1 ≤ nextVolatileOrdinal_ s < volatileEndExclusive_ s
      ∧ volatileEndExclusive_ s = nextUnreservedAdmissionOrdinal (metadata_ s);
  or_below : ordinals_below (cursor s) (record_at s)
}.

(** The invariant of a ledger that serves. *)
Record hub_grounded (hub node : Z) s w : Prop := mkHubGrounded {
  hg_hub : hubDeviceId_ s = hub;
  hg_node : nodeDeviceId_ s = node;
  hg_slots : length (slots_ s) = 8%nat;
  hg_present i : (i < 8)%nat → present (slot_at s i) = true;
  hg_governs i : (i < 8)%nat → governs w i (record_at s i) (activeCopy (slot_at s i));
  hg_distinct : hub_distinct (record_at s);
  hg_covered : ordinals_covered w (record_at s);
  hg_ordinals : ordinalReady_ s = true → ordinals_ready s w
}.

Definition hub_sound (hub node : Z) s w : Prop :=
  hub_grounded hub node s w ∧ ledgerHealthy_ s = true.

Lemma hub_grounded_custody hub node s w : hub_grounded hub node s w → hub_custody w (record_at s).
Proof. intros []. split; try done. intros i Hi. eexists. by auto. Qed.

Lemma ordinals_covered_eq w w' R :
  (∀ d, stored w' None d = stored w None d) → ordinals_covered w R → ordinals_covered w' R.
Proof.
  intros Hs (m & c & Hp & ? & ?). exists m, c. split; [|done]. by eapply presides_eq.
Qed.

Lemma ordinals_ready_eq s w w' :
  (∀ d, stored w' None d = stored w None d) → ordinals_ready s w → ordinals_ready s w'.
Proof. intros Hs [Hp ? ? ?]. split; try done. by eapply presides_eq. Qed.

Lemma hub_slot_at_set i x s j :
  (i < length (slots_ s))%nat →
  slot_at (set_slot i x s) j = if decide (j = i) then x else slot_at s j.
Proof.
  intros Hi. unfold slot_at, set_slot, rec_set; cbn [slots_].
  destruct (decide (j = i)) as [->|Hne].
  - apply nth_lookup_Some. by apply list_lookup_insert_eq.
  - rewrite !nth_lookup. by rewrite list_lookup_insert_ne by done.
Qed.

Lemma hub_record_at_set i x s j :
  (i < length (slots_ s))%nat →
  record_at (set_slot i x s) j = if decide (j = i) then record x else record_at s j.
Proof. intros Hi. unfold record_at. rewrite hub_slot_at_set by done. by destruct (decide _). Qed.

Definition hub_replaced (i : nat) (r : HubRecord) R (j : nat) : HubRecord :=
  if decide (j = i) then r else R j.

(** Slot [i] may take the record [r]: it owns nothing, or an identity and an
    ordinal that no other slot owns, the ordinal being covered. *)
Definition hub_admissible s w (i : nat) (r : HubRecord) : Prop :=
  isOwned r = true →
  (∀ j, (j < 8)%nat → j ≠ i → isOwned (record_at s j) = true →
     hub_identity (record_at s j) ≠ hub_identity r
     ∧ admissionOrdinal (record_at s j) ≠ admissionOrdinal r)
  ∧ (∀ m c, presides w m c → admissionOrdinal r < nextUnreservedAdmissionOrdinal m)
  ∧ (ordinalReady_ s = true → admissionOrdinal r < cursor s).

Lemma presides_unique w m c m' c' : presides w m c → presides w m' c' → m = m'.
Proof.
  intros [Hr Ho] [Hr' Ho']. destruct (decide (c = c')) as [->|Hne]; [congruence|].
  assert (c' = other c) as -> by by destruct c, c'.
  assert (Hoo : other (other c) = c) by by destruct c.
  rewrite Hoo in Ho'. destruct (Ho _ Hr') as [|E1]; [done|].
  destruct (Ho' _ Hr) as [|E2]; [done|].
  apply metadata_in_inv in Hr as (((?&_)&_)&_). apply metadata_in_inv in Hr' as (((?&_)&_)&_).
  apply compareGenerations_newer in E1; [|done..]. congruence.
Qed.

Lemma hub_grounded_set hub node s w w' i r c :
  hub_grounded hub node s w → (i < 8)%nat → only_cell (Some i) w w' →
  hub_admissible s w i r → governs w' i r c →
  hub_grounded hub node (set_slot i (mkSlot true c r) s) w'.
Proof.
  intros [Hh Hn Hl Hp Hg Hd Hc Ho] Hi Hoc Had Hgr.
  assert (Hil : (i < length (slots_ s))%nat) by lia.
  assert (Hmeta : ∀ d, stored w' None d = stored w None d) by (intros d; by apply Hoc).
  assert (Hrec : ∀ j, record_at (set_slot i (mkSlot true c r) s) j = hub_replaced i r (record_at s) j).
  { intros j. by rewrite hub_record_at_set. }
  assert (Hbelow : ∀ b, ordinals_below b (record_at s) → (isOwned r = true → admissionOrdinal r < b) →
    ordinals_below b (record_at (set_slot i (mkSlot true c r) s))).
  { intros b Hb Hr j Hj. rewrite Hrec. unfold hub_replaced.
    destruct (decide (j = i)); [done|by apply Hb]. }
  split; try done.
  - unfold set_slot, rec_set; cbn. by rewrite length_insert.
  - intros j Hj. rewrite hub_slot_at_set by done. destruct (decide _); [done|by apply Hp].
  - intros j Hj. rewrite hub_slot_at_set, Hrec by done. unfold hub_replaced.
    destruct (decide (j = i)) as [->|Hne]; [done|].
    eapply hub_governs_eq; [|by apply Hg]. intros d. apply Hoc. congruence.
  - intros j k Hj Hk Hne. rewrite !Hrec. unfold hub_replaced.
    destruct (decide (j = i)) as [->|Hji], (decide (k = i)) as [->|Hki]; [done| | |by apply Hd].
    + intros Ho1 Ho2. destruct (Had Ho1) as [Hno _]. destruct (Hno k Hk Hki Ho2). by split.
    + intros Ho1 Ho2. destruct (Had Ho2) as [Hno _]. by destruct (Hno j Hj Hji Ho1).
  - apply (ordinals_covered_eq w); [done|]. destruct Hc as (m & d & Hm & Hv & Hb).
    exists m, d. split; [done|]. split; [done|]. apply Hbelow; [done|].
    intros Hr. by apply (proj1 (proj2 (Had Hr)) m d).
  - intros Hor. apply (ordinals_ready_eq _ w); [done|].
    destruct (Ho Hor) as [H1' H2' H3' H4']. split; try done.
    apply (Hbelow (cursor s)); [done|]. intros Hr. by apply Had.
Qed.

(** After a failed write of slot [i] the old or the new record is in custody. *)
Lemma hub_custody_failed hub node s w w' i r c c' :
  hub_grounded hub node s w → (i < 8)%nat → only_cell (Some i) w w' → hub_admissible s w i r →
  governs w' i (record_at s i) c ∨ governs w' i r c' →
  hub_custody w' (record_at s) ∨ hub_custody w' (hub_replaced i r (record_at s)).
Proof.
  intros Hgr Hi Ho Had [Hg|Hg].
  - left. split; [|apply Hgr|].
    + intros j Hj. destruct (decide (j = i)) as [->|Hne]; [by eexists|].
      eexists. eapply hub_governs_eq; [|by apply Hgr]. intros d. apply Ho. congruence.
    + eapply ordinals_covered_eq; [|apply Hgr]. intros d. by apply Ho.
  - right. pose proof (hub_grounded_set hub node s w w' i r c' Hgr Hi Ho Had Hg) as Hgs.
    apply hub_grounded_custody in Hgs as [Hcg Hcd (m & d & Hm & Hv & Hb)].
    assert (HR : ∀ j, record_at (set_slot i (mkSlot true c' r) s) j = hub_replaced i r (record_at s) j).
    { intros j. rewrite hub_record_at_set by (rewrite (hg_slots _ _ _ _ Hgr); lia). done. }
    split.
    + intros j Hj. rewrite <- HR. auto.
    + intros j k. rewrite <- !HR. apply Hcd.
    + exists m, d. split; [done|]. split; [done|]. intros j. rewrite <- HR. apply Hb.
Qed.

Lemma hub_custody_ext w R R' : (∀ i, R i = R' i) → hub_custody w R → hub_custody w R'.
Proof.
  intros HR [Hg Hd (m & c & ? & ? & Hb)]. split.
  - intros i Hi. rewrite <- HR. auto.
  - intros i j. rewrite <- !HR. apply Hd.
  - exists m, c. split; [done|]. split; [done|]. intros i. rewrite <- HR. apply Hb.
Qed.

(** ** Ordinals *)

(** A change of the ordinal state and the metadata cells only. *)
Record ordinal_step s w s' w' : Prop := mkOrdinalStep {
  os_slots : slots_ s' = slots_ s;
  os_hub : hubDeviceId_ s' = hubDeviceId_ s;
  os_node : nodeDeviceId_ s' = nodeDeviceId_ s;
  os_healthy : ledgerHealthy_ s' = ledgerHealthy_ s;
  os_cells k c : k ≠ None → stored w' k c = stored w k c
}.

Lemma same_slots_record s s' : slots_ s' = slots_ s → ∀ i, record_at s' i = record_at s i.
Proof. intros Hs i. unfold record_at, slot_at. by rewrite Hs. Qed.

Lemma ordinals_below_mono b b' R : b ≤ b' → ordinals_below b R → ordinals_below b' R.
Proof. intros Hb Hr i Hi Ho. specialize (Hr i Hi Ho). lia. Qed.

Lemma ordinals_below_ext b R R' :
  (∀ i, R' i = R i) → ordinals_below b R → ordinals_below b R'.
Proof. intros HR Hb i. rewrite HR. apply Hb. Qed.

Lemma hub_grounded_step hub node s w s' w' :
  hub_grounded hub node s w → ordinal_step s w s' w' → ordinals_covered w' (record_at s) →
  (ordinalReady_ s' = true → ordinals_ready s' w') → hub_grounded hub node s' w'.
Proof.
  intros [Hh Hn Hl Hp Hg Hd Hc Ho] [Es Eh En _ Hcells] Hcov Hor.
  pose proof (same_slots_record s s' Es) as Hrec.
  assert (Hsl : ∀ i, slot_at s' i = slot_at s i) by (intros; unfold slot_at; by rewrite Es).
  split; try congruence.
  - intros i Hi. rewrite Hsl. auto.
  - intros i Hi. rewrite Hsl, Hrec. eapply hub_governs_eq; [|by apply Hg]. intros d. by apply Hcells.
  - intros i k. rewrite !Hrec. apply Hd.
  - destruct Hcov as (m & c & ? & ? & Hb). exists m, c. split; [done|]. split; [done|].
    by eapply ordinals_below_ext.
  - done.
Qed.

Lemma hub_validHighWater_next v :
  is_u32 v → validHighWater v = true → v ≤ UINT32_MAX - 32 →
  validHighWater (u32 (v + 32)) = true ∧ u32 (v + 32) = v + 32 ∧ 1 ≤ v.
Proof.
  intros Hv Hh Hle. unfold validHighWater, ORDINAL_RESERVATION_BLOCK_SIZE, UINT32_MAX in *.
  zbool. destruct Hh as [H0' Hm]. assert (1 ≤ v) by uint.
  assert (Hw : u32 (v + 32) = v + 32) by (apply wrap_small; uint).
  rewrite Hw. split; [|by split]. rewrite wrap_small in * by uint.
  split; [lia|]. replace (v + 32 - 1) with (v - 1 + 1 * 32) by lia. by rewrite Z.mod_add by lia.
Qed.

Lemma only_cell_step s w s' w' :
  only_cell None w w' → slots_ s' = slots_ s → hubDeviceId_ s' = hubDeviceId_ s →
  nodeDeviceId_ s' = nodeDeviceId_ s → ledgerHealthy_ s' = ledgerHealthy_ s →
  ordinal_step s w s' w'.
Proof. intros Ho ????. by split. Qed.

(** A reservation starts a block at the cursor, or ends the ordinal service. *)
Lemma reserveOrdinals_cases hub node s w :
  hub_grounded hub node s w → ordinalReady_ s = true →
  nextVolatileOrdinal_ s = volatileEndExclusive_ s →
  ∃ s' w', ordinal_step s w s' w' ∧ hub_grounded hub node s' w'
    ∧ ((reserveOrdinals (s, w) = (true, (s', w')) ∧ ordinalReady_ s' = true
        ∧ nextVolatileOrdinal_ s' = cursor s ∧ cursor s' = cursor s
        ∧ nextVolatileOrdinal_ s' < volatileEndExclusive_ s')
       ∨ (reserveOrdinals (s, w) = (false, (s', w')) ∧ ordinalReady_ s' = false)).
Proof.
  intros Hg Hor Heq. destruct (hg_ordinals _ _ _ _ Hg Hor) as [Hp Hh Hcu Hb].
  pose proof Hp as [Hin _]. apply metadata_in_inv in Hin as (((Hgen&Hnx)&Hnz)&_).
  assert (Hc : cursor s = nextUnreservedAdmissionOrdinal (metadata_ s)).
  { unfold cursor. by rewrite (proj2 (Z.eqb_eq _ _)). }
  unfold reserveOrdinals. rewrite bind_this.
  change (UINT32_MAX - ORDINAL_RESERVATION_BLOCK_SIZE) with (UINT32_MAX - 32).
  set (start := nextUnreservedAdmissionOrdinal (metadata_ s)) in *.
  destruct (Z.ltb_spec (UINT32_MAX - 32) start) as [Hx|Hx].
  { exists (ordinal_failed ORDINAL_EXHAUSTED s), w.
    split; [by apply only_cell_step|]. split; [|by right].
    eapply hub_grounded_step; [exact Hg|by apply only_cell_step|apply Hg|done]. }
  destruct (hub_validHighWater_next start Hnx Hh Hx) as (Hh' & Hw & H1').
  rewrite bind_this. cbn [id]. rewrite hub_opposite_other.
  change ORDINAL_RESERVATION_BLOCK_SIZE with 32.
  set (next := (metadata_ s) <| hm_generation := u32 (hm_generation (metadata_ s) + 1) |>
                 <| nextUnreservedAdmissionOrdinal := u32 (start + 32) |>).
  assert (Hnext : nextUnreservedAdmissionOrdinal next = start + 32) by exact Hw.
  assert (Hok : metadata_ok next).
  { split; [split; [apply u32_range|apply u32_range]|]. rewrite Hnext. lia. }
  assert (Hhn : validHighWater (nextUnreservedAdmissionOrdinal next) = true) by exact Hh'.
  assert (Hbn : ordinals_below (nextUnreservedAdmissionOrdinal next) (record_at s)).
  { eapply ordinals_below_mono; [|exact Hb]. rewrite Hnext, Hc. lia. }
  destruct (hub_commitMetadata_cases next s w (metadata_ s) (metadataCopy_ s) Hp Hok eq_refl)
    as (w' & Ho & [(E & Hp')|((st & Hst & E) & Hp')]); rewrite (bind_run _ _ _ _ _ E); cbn [negb].
  - set (s' := (with_metadata next (other (metadataCopy_ s)) s) <| nextVolatileOrdinal_ := start |>
      <| volatileEndExclusive_ := u32 (start + 32) |>).
    assert (Hc' : cursor s' = start).
    { unfold cursor, s', with_metadata, rec_set; cbn. rewrite Hw.
      rewrite (proj2 (Z.eqb_neq _ _)) by lia. done. }
    assert (Hrs : ordinals_ready s' w').
    { split; [exact Hp'|exact Hhn| |].
      - right. unfold s', with_metadata, rec_set; cbn. rewrite Hw. lia.
      - rewrite Hc'. rewrite Hc in Hb. exact Hb. }
    exists s', w'. assert (Hst' : ordinal_step s w s' w') by by apply only_cell_step.
    split; [done|]. split.
    { eapply hub_grounded_step; [exact Hg|done| |done]. by exists next, (other (metadataCopy_ s)). }
    left. split; [done|]. split; [done|]. split; [by rewrite Hc|]. split; [by rewrite Hc', Hc|].
    unfold s', with_metadata, rec_set; cbn. lia.
  - exists (ordinal_failed st s), w'. split; [by apply only_cell_step|]. split; [|by right].
    eapply hub_grounded_step; [exact Hg|by apply only_cell_step| |done].
    rewrite Hc in Hb. destruct Hp' as [Hp'|Hp']; [exists (metadata_ s)|exists next];
      eexists; (split; [exact Hp'|by split]).
Qed.

Lemma ordinal_step_trans s w s' w' s'' w'' :
  ordinal_step s w s' w' → ordinal_step s' w' s'' w'' → ordinal_step s w s'' w''.
Proof.
  intros [E1 E2 E3 E4 E5] [F1 F2 F3 F4 F5]. split; try congruence.
  intros k c Hk. by rewrite F5, E5.
Qed.

(** The next ordinal of a block that is not used up. *)
Lemma take_ordinal hub node s w :
  hub_grounded hub node s w → ordinalReady_ s = true →
  nextVolatileOrdinal_ s < volatileEndExclusive_ s →
  let o := nextVolatileOrdinal_ s in
  let s' := s <| nextVolatileOrdinal_ := u32 (o + 1) |> in
  ordinal_step s w s' w ∧ hub_grounded hub node s' w ∧ 1 ≤ o ∧ is_u32 o ∧ o < cursor s'
  ∧ (∀ m c, presides w m c → o < nextUnreservedAdmissionOrdinal m)
  ∧ ordinals_below o (record_at s).
Proof.
  intros Hg Hor Hlt o s'. destruct (hg_ordinals _ _ _ _ Hg Hor) as [Hp Hh Hcu Hb].
  pose proof Hp as [Hin _]. apply metadata_in_inv in Hin as (((Hgen&Hnx)&Hnz)&_).
  destruct Hcu as [Hcu|[[H1' _] He]]; [lia|].
  assert (Hw : u32 (o + 1) = o + 1) by (apply wrap_small; unfold o in *; uint).
  assert (Hco : cursor s = o) by (unfold cursor; by rewrite (proj2 (Z.eqb_neq _ _)) by lia).
  assert (Hcs : cursor s' = o + 1).
  { unfold cursor, s', rec_set; cbn. rewrite Hw.
    destruct (Z.eqb_spec (o + 1) (volatileEndExclusive_ s)); lia. }
  assert (Hst : ordinal_step s w s' w) by by split.
  rewrite Hco in Hb. split; [done|]. split.
  - eapply hub_grounded_step; [exact Hg|done|apply Hg|]. intros _.
    split; [done|done| |].
    + unfold s', rec_set; cbn. rewrite Hw. unfold o in *. lia.
    + rewrite Hcs. eapply ordinals_below_mono; [|exact Hb]. lia.
  - split; [done|]. split; [unfold o in *; uint|]. split; [lia|]. split; [|done].
    intros m c Hm. rewrite (presides_unique w m c (metadata_ s) (metadataCopy_ s) Hm Hp).
    unfold o. lia.
Qed.

Definition fresh_ordinal o s' w' R : Prop :=
  1 ≤ o ∧ is_u32 o ∧ o < cursor s' ∧ (∀ m c, presides w' m c → o < nextUnreservedAdmissionOrdinal m)
  ∧ ordinals_below o R.

Lemma allocateOrdinal_cases hub node s w :
  hub_grounded hub node s w →
  ∃ s' w', ordinal_step s w s' w' ∧ hub_grounded hub node s' w'
    ∧ ((∃ o, allocateOrdinal (s, w) = (Some o, (s', w')) ∧ ordinalReady_ s' = true
         ∧ fresh_ordinal o s' w' (record_at s))
       ∨ (allocateOrdinal (s, w) = (None, (s', w')) ∧ ordinalReady_ s' = false)).
Proof.
  intros Hg. unfold allocateOrdinal. rewrite bind_this.
  destruct (ordinalReady_ s) eqn:Hor; cbn [negb].
  2:{ exists s, w. split; [by split|]. split; [done|]. by right. }
  rewrite bind_this. cbn [id].
  destruct (Z.eqb_spec (nextVolatileOrdinal_ s) (volatileEndExclusive_ s)) as [Heq|Hne].
  - destruct (reserveOrdinals_cases hub node s w Hg Hor Heq)
      as (s1 & w1 & Hst & Hg1 & [(E & Hor1 & Hn1 & Hc1 & Hlt)|(E & Hor1)]);
      rewrite (bind_run _ _ _ _ _ E); cbn [negb].
    2:{ exists s1, w1. split; [done|]. split; [done|]. by right. }
    destruct (take_ordinal hub node s1 w1 Hg1 Hor1 Hlt) as (Hst2 & Hg2 & Ht).
    do 2 eexists. split; [eapply ordinal_step_trans; [exact Hst|exact Hst2]|].
    split; [exact Hg2|]. left. exists (nextVolatileOrdinal_ s1).
    split; [reflexivity|]. split; [done|]. destruct Ht as (?&?&?&?&Hb).
    split_and!; try done. eapply ordinals_below_ext; [|exact Hb].
    intros i. symmetry. apply same_slots_record. by apply os_slots in Hst.
  - assert (Hlt : nextVolatileOrdinal_ s < volatileEndExclusive_ s).
    { destruct (or_cursor _ _ (hg_ordinals _ _ _ _ Hg Hor)); lia. }
    rewrite (bind_run (ret true) _ _ true (s, w)) by done. cbn [negb].
    destruct (take_ordinal hub node s w Hg Hor Hlt) as (Hst2 & Hg2 & Ht).
    do 2 eexists. split; [exact Hst2|]. split; [exact Hg2|]. left.
    exists (nextVolatileOrdinal_ s). split; [reflexivity|]. split; [done|exact Ht].
Qed.

(** ** One commit *)

Record hub_replacement s w (i : nat) (r : HubRecord) : Prop := mkHubReplacement {
  hr_wf : hub_record_wf r;
  hr_valid : validateHubRecord r = OK;
  hr_successor : hr_generation r = u32 (hr_generation (record_at s i) + 1);
  hr_admissible : hub_admissible s w i r
}.

Definition hub_mutated hub node s i r s' w' : Prop :=
  hub_sound hub node s' w' ∧ (∀ j, record_at s' j = hub_replaced i r (record_at s) j).

Definition hub_broken s i r s' w' : Prop :=
  ledgerHealthy_ s' = false
  ∧ (hub_custody w' (record_at s) ∨ hub_custody w' (hub_replaced i r (record_at s))).

Lemma commitRecord_sound hub node s w i r :
  hub_sound hub node s w → (i < 8)%nat → hub_replacement s w i r →
  ∃ s' w', (commitRecord i r (s, w) = (true, (s', w')) ∧ hub_mutated hub node s i r s' w')
    ∨ commitRecord i r (s, w) = (false, (s', w')) ∧ hub_broken s i r s' w'.
Proof.
  intros [Hg Hh] Hi [Hwf Hv Hgen Had].
  destruct (commitRecord_cases i r s w (record_at s i) _ (hg_governs _ _ _ _ Hg i Hi) eq_refl Hwf Hv Hgen)
    as (w' & Ho & [(E & Hgv)|((st & Hst & E) & Hany)]); do 2 eexists; [left|right].
  - split; [exact E|]. split; [split; [by eapply hub_grounded_set|done]|].
    intros j. rewrite hub_record_at_set by (rewrite (hg_slots _ _ _ _ Hg); lia). done.
  - split; [exact E|]. split; [done|]. by eapply hub_custody_failed.
Qed.

(** Bookkeeping that no invariant looks at. *)

Definition hub_diagnostics (d : option RuntimeState.State) s : Ledger := s <| diagnostics_ := d |>.

Definition hub_quiet (m : st (Ledger * W) unit) : Prop :=
  ∀ s w, ∃ d, m (s, w) = (tt, (hub_diagnostics d s, w)).

Lemma hub_quiet_note event amount : hub_quiet (note event amount).
Proof. intros s w. by eexists. Qed.

Lemma hub_quiet_failure : hub_quiet persistenceFailure.
Proof. intros s w. by eexists. Qed.

Lemma hub_quiet_snapshot : hub_quiet updateActiveSnapshot.
Proof. intros s w. by eexists. Qed.

Lemma hub_grounded_diagnostics hub node d s w :
  hub_grounded hub node s w → hub_grounded hub node (hub_diagnostics d s) w.
Proof.
  intros [? ? ? ? ? ? ? Ho]. split; try done.
  intros Hor. by destruct (Ho Hor); split.
Qed.

Lemma hub_sound_diagnostics hub node d s w :
  hub_sound hub node s w → hub_sound hub node (hub_diagnostics d s) w.
Proof. intros [Hg Hh]. split; [by apply hub_grounded_diagnostics|done]. Qed.

(** ** Consumption *)

Definition consumedRecord (r : HubRecord) : HubRecord :=
  r <| hr_generation := u32 (hr_generation r + 1) |> <| hr_state := HubState.CONSUMED |>.

Lemma firstSlot_spec (P : nat → bool) n i :
  (i + n = 8)%nat →
  (∃ k, firstSlot P n i = k ∧ (i ≤ k < 8)%nat ∧ P k = true ∧ ∀ j, (i ≤ j < k)%nat → P j = false)
  ∨ firstSlot P n i = 255%nat ∧ ∀ j, (i ≤ j < 8)%nat → P j = false.
Proof.
  revert i. induction n as [|n IH]; intros i Hn; cbn [firstSlot].
  - right. split; [done|]. intros j Hj. lia.
  - destruct (P i) eqn:E.
    + left. exists i. split; [done|]. split; [lia|]. split; [done|]. intros j Hj. lia.
    + destruct (IH (S i)) as [(k & Hk & Hr & Hp & Hb)|(Hk & Hb)]; [lia|left|right].
      * exists k. split; [done|]. split; [lia|]. split; [done|]. intros j Hj.
        destruct (decide (j = i)) as [->|]; [done|apply Hb; lia].
      * split; [done|]. intros j Hj. destruct (decide (j = i)) as [->|]; [done|apply Hb; lia].
Qed.

Lemma hub_record_valid hub node s w i :
  hub_grounded hub node s w → (i < 8)%nat →
  hub_record_wf (record_at s i) ∧ validateHubRecord (record_at s i) = OK.
Proof.
  intros Hg Hi. destruct (hg_governs _ _ _ _ Hg i Hi) as [Hc _].
  by apply record_in_inv in Hc as (?&?&_).
Qed.

Lemma validateHubRecord_owned r :
  isOwned r = true →
  validateHubRecord r = OK ↔
  admissionOrdinal r ≠ 0
  ∧ validCanonicalEvent (hr_sourceDeviceId r) (hr_family r) (hr_flags r) (hr_bodyLength r)
      (hr_eventEpoch r) (hr_eventId r) (hr_lifetimeBudgetSeconds r) (hr_body r) = true
  ∧ allZero (hr_body r) (Z.to_nat (hr_bodyLength r)) (12 - Z.to_nat (hr_bodyLength r)) = true.
Proof.
  intros Ho. unfold validateHubRecord, validHubState, isOwned, HubState.ACTIVE, HubState.CONSUMED,
    HubState.EMPTY in *.
  assert (Hs : hr_state r = 1 ∨ hr_state r = 2) by (zbool; tauto).
  rewrite (proj2 (Z.leb_le _ _)) by lia. rewrite (proj2 (Z.eqb_neq _ _)) by lia.
  cbn [negb].
  destruct (Z.eqb_spec (admissionOrdinal r) 0), (validCanonicalEvent _ _ _ _ _ _ _ _), (allZero _ _ _);
    cbn [negb]; split; intros; try done; intuition done.
Qed.

Lemma hub_admissible_self hub node s w i r :
  hub_grounded hub node s w → (i < 8)%nat → isOwned (record_at s i) = true →
  hub_identity r = hub_identity (record_at s i) →
  admissionOrdinal r = admissionOrdinal (record_at s i) → hub_admissible s w i r.
Proof.
  intros Hg Hi Ho Hid Hao _. split; [|split].
  - intros j Hj Hne Hoj. rewrite Hid, Hao. by apply (hg_distinct _ _ _ _ Hg j i).
  - intros m c Hm. destruct (hg_covered _ _ _ _ Hg) as (m' & c' & Hm' & _ & Hb).
    rewrite (presides_unique w m c m' c' Hm Hm'), Hao. by apply Hb.
  - intros Hor. rewrite Hao. by apply (or_below _ _ (hg_ordinals _ _ _ _ Hg Hor)).
Qed.

Lemma replacement_consumed hub node s w i :
  hub_sound hub node s w → (i < 8)%nat → isOwned (record_at s i) = true →
  hub_replacement s w i (consumedRecord (record_at s i)).
Proof.
  intros [Hg _] Hi Ho. destruct (hub_record_valid hub node s w i Hg Hi) as [Hwf Hv].
  split.
  - destruct Hwf as (?&?&?&?&?&?&?&?&?&?&?&?). unfold hub_record_wf, consumedRecord, rec_set; cbn.
    split_and!; try done. apply u32_range.
  - by apply (validateHubRecord_owned _ Ho) in Hv; apply validateHubRecord_owned.
  - done.
  - by eapply hub_admissible_self.
Qed.

(** How a consumption ends. *)
Inductive consume_outcome hub node s w (identity : EventProtocol.Identity) :
    ConsumeResult → Ledger → W → Prop :=
| consume_not_found :
    (∀ i, (i < 8)%nat → hasIdentity identity (record_at s i) = false) →
    consume_outcome hub node s w identity (mkConsume NOT_FOUND 255) s w
| consume_already i :
    (i < 8)%nat → hasIdentity identity (record_at s i) = true →
    hr_state (record_at s i) = HubState.CONSUMED →
    consume_outcome hub node s w identity (mkConsume ALREADY_CONSUMED i) s w
| consume_done i s' w' :
    (i < 8)%nat → hasIdentity identity (record_at s i) = true →
    hr_state (record_at s i) = HubState.ACTIVE →
    hub_mutated hub node s i (consumedRecord (record_at s i)) s' w' →
    consume_outcome hub node s w identity (mkConsume CONSUMED i) s' w'
| consume_failed i s' w' :
    (i < 8)%nat → hasIdentity identity (record_at s i) = true →
    hr_state (record_at s i) = HubState.ACTIVE →
    hub_broken s i (consumedRecord (record_at s i)) s' w' →
    consume_outcome hub node s w identity (mkConsume CONSUME_STORAGE_FAILURE i) s' w'.

Lemma hub_quiet_run m s w :
  hub_quiet m → ∃ d, ∀ X (k : unit → st (Ledger * W) X),
    (u <~ m ;; k u) (s, w) = k tt (hub_diagnostics d s, w).
Proof. intros Hm. destruct (Hm s w) as [d E]. exists d. intros X k. by rewrite (bind_run _ _ _ _ _ E). Qed.

Lemma hub_mutated_diagnostics hub node s i r d s' w' :
  hub_mutated hub node s i r s' w' → hub_mutated hub node s i r (hub_diagnostics d s') w'.
Proof. intros [Hs Hr]. split; [by apply hub_sound_diagnostics|done]. Qed.

Lemma hasIdentity_owned identity r : hasIdentity identity r = true → isOwned r = true.
Proof. unfold hasIdentity. rewrite !andb_true_iff. tauto. Qed.

Lemma consume_cases hub node s w identity :
  hub_sound hub node s w →
  ∃ res s' w', consume_outcome hub node s w identity res s' w'
    ∧ consume identity (s, w) = (res, (s', w')).
Proof.
  intros Hs. unfold consume. rewrite bind_this, (proj2 Hs). cbn [negb]. rewrite bind_this.
  change HUB_EVENT_CAPACITY with 8%nat.
  destruct (firstSlot_spec (λ i, hasIdentity identity (record_at s i)) 8 0 eq_refl)
    as [(i & -> & [_ Hi] & Hid & _)|[-> Hno]].
  2:{ cbn [Nat.eqb]. do 3 eexists. split; [apply consume_not_found|reflexivity].
      intros i Hi. apply Hno. lia. }
  rewrite (proj2 (Nat.eqb_neq i 255)) by lia. rewrite bind_this.
  pose proof (hasIdentity_owned _ _ Hid) as Ho.
  destruct (Z.eqb_spec (hr_state (record_at s i)) HubState.CONSUMED) as [Hc|Hc].
  { do 3 eexists. split; [by apply (consume_already _ _ _ _ _ i)|reflexivity]. }
  assert (Ha : hr_state (record_at s i) = HubState.ACTIVE).
  { unfold isOwned in Ho. zbool. tauto. }
  destruct (commitRecord_sound hub node s w i _ Hs Hi (replacement_consumed hub node s w i Hs Hi Ho))
    as (s1 & w1 & [(E & Hm)|(E & Hb)]); rewrite (bind_run _ _ _ _ _ E).
  - destruct (hub_quiet_run (note RuntimeState.HOST_CONSUMPTION 1) s1 w1) as [d1 ->];
      [apply hub_quiet_note|].
    destruct (hub_quiet_run updateActiveSnapshot (hub_diagnostics d1 s1) w1) as [d2 ->];
      [apply hub_quiet_snapshot|].
    do 3 eexists. split; [|reflexivity]. apply consume_done; [done..|].
    by do 2 apply hub_mutated_diagnostics.
  - destruct (hub_quiet_run persistenceFailure s1 w1) as [d1 ->]; [apply hub_quiet_failure|].
    do 3 eexists. split; [|reflexivity]. by apply consume_failed.
Qed.

(** ** Admission *)

Lemma validateAdmission_spec event s :
  length (EventProtocol.body event) = 12%nat →
  validateAdmission event s = DURABLE_NEW_ADMISSION →
  EventProtocol.source event = nodeDeviceId_ s ∧ EventProtocol.destination event = hubDeviceId_ s
  ∧ EventProtocol.bodyLength event ≤ 12
  ∧ all_zero (drop (Z.to_nat (EventProtocol.bodyLength event)) (EventProtocol.body event)) = true
  ∧ validCanonicalEvent (EventProtocol.source event) (EventProtocol.family event)
      (EventProtocol.flags event) (EventProtocol.bodyLength event) (EventProtocol.epoch event)
      (EventProtocol.id event) (EventProtocol.lifetimeBudgetSeconds event)
      (EventProtocol.body event) = true.
Proof.
  intros Hl. unfold validateAdmission.
  match goal with |- context [if ?b then ROUTING_REJECTED else _] => destruct b eqn:E1 end;
    [done|].
  destruct (EventProtocol.isRegisteredFamily (EventProtocol.family event)) eqn:Ef; [|done].
  cbn [negb].
  match goal with |- context [if ?b then MALFORMED_EVENT else _] => destruct b eqn:E2 end;
    [done|].
  rewrite !orb_false_iff, !negb_false_iff, !Z.eqb_eq in E1.
  destruct E1 as [[[[E1 Es] Ed] Ee] Ei].
  rewrite !orb_false_iff, !negb_false_iff in E2. destruct E2 as [[[[G1 G2] G3] G4] G5].
  change EventProtocol.MAX_BODY_SIZE with 12 in G4. rewrite Z.ltb_ge in G2, G3, G4.
  rewrite allZero_spec by lia. rewrite take_ge by (rewrite length_drop; lia).
  destruct (all_zero _) eqn:Hz; [|done]. intros _. split_and!; try done.
  unfold EventProtocol.hasValidEndpoints in E1. rewrite !andb_true_iff in E1.
  unfold validCanonicalEvent.
  rewrite G1, Ef, G5, !andb_true_iff, !negb_true_iff, !Z.leb_le.
  change EventProtocol.MAX_BODY_SIZE with 12. rewrite negb_true_iff in E1. tauto.
Qed.

Lemma admitted_wf previous event o s :
  EventProtocol.event_wf event → validateAdmission event s = DURABLE_NEW_ADMISSION →
  is_u32 o → 1 ≤ o →
  hub_record_wf (admittedRecord previous event o)
  ∧ validateHubRecord (admittedRecord previous event o) = OK
  ∧ hr_body (admittedRecord previous event o) = EventProtocol.body event.
Proof.
  intros (?&?&?&?&?&?&?&?&?&Hl&Hb) Hv Ho H1'.
  destruct (validateAdmission_spec event s Hl Hv) as (_ & _ & Hbl & Hz & Hc).
  assert (Hbody : copy_bytes (Z.to_nat (EventProtocol.bodyLength event)) (hr_body zeroHubRecord) 0
                    (EventProtocol.body event) 0 = EventProtocol.body event).
  { change (hr_body zeroHubRecord) with (zeros 12).
    replace 12%nat with (length (EventProtocol.body event)).
    apply copy_prefix_zero_tail; [lia|done]. }
  unfold admittedRecord. rewrite Hbody. split_and!; [| |done].
  - unfold hub_record_wf; cbn. split_and!; try done; try (by apply u32_range); concrete.
  - apply validateHubRecord_owned; [done|]. cbn. split_and!; [lia|done|].
    rewrite allZero_spec by lia. by rewrite take_ge by (rewrite length_drop; lia).
Qed.

(** The slot a new event may take: an empty one, or the tombstone of an earlier
    event of the same source. *)
Definition takes s (event : EventProtocol.Event) (i : nat) : Prop :=
  (i < 8)%nat
  ∧ (hr_state (record_at s i) = HubState.EMPTY
     ∨ hr_state (record_at s i) = HubState.CONSUMED ∧ incomingLater event (record_at s i) = true
       ∧ ∀ j, (j < 8)%nat → hr_state (record_at s j) ≠ HubState.EMPTY).

Lemma leastOrdinal_spec (P : nat → bool) n i found s :
  (i + n = 8)%nat → found = 255%nat ∨ (found < 8)%nat ∧ P found = true →
  (leastOrdinal P n i found s = 255%nat ∧ found = 255%nat
   ∧ ∀ j, (i ≤ j < 8)%nat → P j = false)
  ∨ ∃ k, leastOrdinal P n i found s = k ∧ (k < 8)%nat ∧ P k = true
      ∧ (∀ j, (i ≤ j < 8)%nat → P j = true →
           admissionOrdinal (record_at s k) ≤ admissionOrdinal (record_at s j))
      ∧ (found ≠ 255%nat → admissionOrdinal (record_at s k) ≤ admissionOrdinal (record_at s found)).
Proof.
  revert i found. induction n as [|n IH]; intros i found Hn Hf; cbn [leastOrdinal].
  - destruct Hf as [->|[Hf Hp]]; [left; split_and!; [done|done|lia]|right].
    exists found. split_and!; [done|done|done|lia|lia].
  - set (better := P i && _). assert (Hb : better = true → P i = true) by (unfold better; destruct (P i); done).
    destruct (IH (S i) (if better then i else found)) as [(E & Eb & Hno)|(k & E & Hk & Hp & Hmin & Hle)].
    + lia.
    + destruct better; [right; split; [lia|auto]|done].
    + left. destruct better eqn:Ebt; [lia|]. split; [done|]. split; [done|]. subst found.
      intros j Hj. destruct (decide (j = i)) as [->|]; [|apply Hno; lia].
      unfold better in Ebt. cbn in Ebt. by rewrite andb_true_r in Ebt.
    + right. exists k. split; [done|]. split; [done|]. split; [done|].
      destruct better eqn:Ebt.
      * split.
        -- intros j Hj Hpj. destruct (decide (j = i)) as [->|]; [apply Hle; lia|apply Hmin; [lia|done]].
        -- intros Hfn. unfold better in Ebt. rewrite (proj2 (Nat.eqb_neq _ _)) in Ebt by done.
           zbool. specialize (Hle ltac:(lia)). lia.
      * split; [|done]. intros j Hj Hpj. destruct (decide (j = i)) as [->|]; [|apply Hmin; [lia|done]].
        unfold better in Ebt. rewrite Hpj in Ebt. cbn in Ebt.
        destruct (Nat.eqb_spec found 255) as [|Hfn]; [done|]. cbn in Ebt. zbool.
        specialize (Hle Hfn). lia.
Qed.

Lemma targetSlot_spec s event :
  targetSlot event s = 255%nat
    ∧ (∀ i, (i < 8)%nat → hr_state (record_at s i) ≠ HubState.EMPTY
         ∧ ¬ (hr_state (record_at s i) = HubState.CONSUMED ∧ incomingLater event (record_at s i) = true))
  ∨ takes s event (targetSlot event s).
Proof.
  unfold targetSlot, firstEmpty, oldestReclaimable. change HUB_EVENT_CAPACITY with 8%nat.
  destruct (firstSlot_spec (λ i, hr_state (record_at s i) =? HubState.EMPTY) 8 0 eq_refl)
    as [(i & -> & [_ Hi] & He & _)|[-> Hno]].
  - right. rewrite (proj2 (Nat.eqb_neq i 255)) by lia. split; [done|]. left. by apply Z.eqb_eq.
  - cbn [Nat.eqb].
    assert (Hne : ∀ j, (j < 8)%nat → hr_state (record_at s j) ≠ HubState.EMPTY).
    { intros j Hj. apply Z.eqb_neq, Hno. lia. }
    edestruct (leastOrdinal_spec
      (λ i, (hr_state (record_at s i) =? HubState.CONSUMED) && incomingLater event (record_at s i))
      8 0 255 s eq_refl (or_introl eq_refl)) as [(-> & _ & Hnone)|(k & -> & Hk & Hp & _)].
    + left. split; [done|]. intros i Hi. split; [by apply Hne|]. intros [Hc Hl].
      specialize (Hnone i ltac:(lia)). rewrite Hc, Hl in Hnone. done.
    + right. split; [done|]. right. zbool. tauto.
Qed.

Lemma sameIdentity_spec r event :
  sameIdentity r event = true ↔
  hub_identity r = EventProtocol.mkIdentity (EventProtocol.source event)
    (EventProtocol.epoch event) (EventProtocol.id event).
Proof.
  unfold sameIdentity, hub_identity. zbool. split; [intros [[-> ->] ->]; done|].
  intros [= -> -> ->]. done.
Qed.

(** Every record owned by the ledger has another identity than the event. *)
Definition unknown s event : Prop :=
  ∀ j, (j < 8)%nat → isOwned (record_at s j) = true → sameIdentity (record_at s j) event = false.

(** How an admission ends. *)
Inductive admit_outcome hub node s w (event : EventProtocol.Event) :
    AdmissionResult → Ledger → W → Prop :=
| admit_refused status :
    validateAdmission event s = status → status ≠ DURABLE_NEW_ADMISSION →
    admit_outcome hub node s w event (mkAdmission status 255 0) s w
| admit_known i s' :
    validateAdmission event s = DURABLE_NEW_ADMISSION → (i < 8)%nat →
    isOwned (record_at s i) = true → sameIdentity (record_at s i) event = true →
    hub_sound hub node s' w → (∀ j, record_at s' j = record_at s j) →
    admit_outcome hub node s w event
      (mkAdmission (if sameCanonical (record_at s i) event then EXACT_DUPLICATE
                    else ADMIT_IDENTITY_CONTENT_MISMATCH) i (admissionOrdinal (record_at s i))) s' w
| admit_capacity :
    validateAdmission event s = DURABLE_NEW_ADMISSION →
    (∀ i, (i < 8)%nat → isOwned (record_at s i) = true ∧ sameIdentity (record_at s i) event = false
       ∧ ¬ (hr_state (record_at s i) = HubState.CONSUMED ∧ incomingLater event (record_at s i) = true)) →
    admit_outcome hub node s w event (mkAdmission CAPACITY 255 0) s w
| admit_no_ordinal s' w' :
    validateAdmission event s = DURABLE_NEW_ADMISSION → unknown s event →
    hub_sound hub node s' w' → ordinalReady_ s' = false → (∀ j, record_at s' j = record_at s j) →
    admit_outcome hub node s w event (mkAdmission ADMIT_STORAGE_FAILURE 255 0) s' w'
| admit_failed i o s' w' :
    validateAdmission event s = DURABLE_NEW_ADMISSION → unknown s event → takes s event i →
    hub_broken s i (admittedRecord (record_at s i) event o) s' w' →
    admit_outcome hub node s w event (mkAdmission ADMIT_STORAGE_FAILURE 255 0) s' w'
| admit_done i o s' w' :
    validateAdmission event s = DURABLE_NEW_ADMISSION → takes s event i →
    (∀ j, (j < 8)%nat → isOwned (record_at s j) = true →
       sameIdentity (record_at s j) event = false ∧ admissionOrdinal (record_at s j) < o) →
    hub_mutated hub node s i (admittedRecord (record_at s i) event o) s' w' →
    admit_outcome hub node s w event (mkAdmission DURABLE_NEW_ADMISSION i o) s' w'.

Lemma hub_state_cases hub node s w i :
  hub_grounded hub node s w → (i < 8)%nat →
  hr_state (record_at s i) = HubState.EMPTY ∨ isOwned (record_at s i) = true.
Proof.
  intros Hg Hi. destruct (hub_record_valid hub node s w i Hg Hi) as [(_ & [Hlo _] & _) Hv].
  unfold validateHubRecord, validHubState in Hv.
  destruct (Z.leb_spec (hr_state (record_at s i)) HubState.CONSUMED) as [Hle|]; [|done].
  unfold isOwned, HubState.EMPTY, HubState.ACTIVE, HubState.CONSUMED in *. zbool. lia.
Qed.

Lemma ownedSlot_spec s event :
  (∃ i, ownedSlot event s = i ∧ (i < 8)%nat ∧ isOwned (record_at s i) = true
     ∧ sameIdentity (record_at s i) event = true)
  ∨ ownedSlot event s = 255%nat ∧ unknown s event.
Proof.
  unfold ownedSlot. change HUB_EVENT_CAPACITY with 8%nat.
  destruct (firstSlot_spec (λ i, isOwned (record_at s i) && sameIdentity (record_at s i) event) 8 0 eq_refl)
    as [(i & E & [_ Hi] & Hp & _)|[E Hno]]; [left|right].
  - apply andb_true_iff in Hp as [? ?]. by exists i.
  - split; [done|]. intros j Hj Ho. specialize (Hno j ltac:(lia)). by rewrite Ho in Hno.
Qed.

Lemma replacement_admitted hub node s w s1 w1 event i o :
  hub_sound hub node s w → ordinal_step s w s1 w1 → hub_grounded hub node s1 w1 →
  EventProtocol.event_wf event → validateAdmission event s = DURABLE_NEW_ADMISSION →
  unknown s event → fresh_ordinal o s1 w1 (record_at s) →
  hub_replacement s1 w1 i (admittedRecord (record_at s i) event o).
Proof.
  intros Hs Hst Hg1 Hwf Hv Hun (Ho1 & Ho & Hoc & Hom & Hob).
  pose proof (same_slots_record s s1 (os_slots _ _ _ _ Hst)) as Hrec.
  destruct (admitted_wf (record_at s i) event o s Hwf Hv Ho Ho1) as (Hw & Hval & _).
  split; [done|done|by rewrite Hrec|]. intros _. split; [|split].
  - intros j Hj Hne Hoj. rewrite Hrec in *. split.
    + specialize (Hun j Hj Hoj). intros Hid. apply not_true_iff_false in Hun. apply Hun.
      apply sameIdentity_spec. exact Hid.
    + specialize (Hob j Hj Hoj). cbn. lia.
  - exact Hom.
  - intros _. exact Hoc.
Qed.

(** The part of an admission after the ordinal is allocated. *)
Lemma admit_commits hub node s w s1 w1 event i o :
  hub_sound hub node s w → EventProtocol.event_wf event →
  validateAdmission event s = DURABLE_NEW_ADMISSION → unknown s event → takes s event i →
  ordinal_step s w s1 w1 → hub_grounded hub node s1 w1 → fresh_ordinal o s1 w1 (record_at s) →
  ∃ res s' w', admit_outcome hub node s w event res s' w' ∧
   (previous <~ this (λ s, record_at s i) ;;
    committed <~ commitRecord i (admittedRecord previous event o) ;;
    if negb committed then
      persistenceFailure ;;;
      ret (mkAdmission ADMIT_STORAGE_FAILURE 255 0)
    else
    note RuntimeState.SUCCESSFUL_ADMISSION 1 ;;;
    updateActiveSnapshot ;;;
    ret (mkAdmission DURABLE_NEW_ADMISSION i o)) (s1, w1) = (res, (s', w')).
Proof.
  intros Hs Hwf Hv Hun Ht Hst Hg1 Hfr.
  pose proof (same_slots_record s s1 (os_slots _ _ _ _ Hst)) as Hrec.
  rewrite bind_this, Hrec.
  assert (Hs1 : hub_sound hub node s1 w1).
  { split; [done|]. rewrite (os_healthy _ _ _ _ Hst). apply Hs. }
  pose proof (replacement_admitted hub node s w s1 w1 event i o Hs Hst Hg1 Hwf Hv Hun Hfr) as Hrep.
  assert (Hrr : ∀ r j, hub_replaced i r (record_at s1) j = hub_replaced i r (record_at s) j).
  { intros r j. unfold hub_replaced. by rewrite Hrec. }
  destruct (commitRecord_sound hub node s1 w1 i _ Hs1 (proj1 Ht) Hrep)
    as (s2 & w2 & [(Ec & Hm)|(Ec & Hb)]); rewrite (bind_run _ _ _ _ _ Ec); cbn [negb].
  - destruct (hub_quiet_run (note RuntimeState.SUCCESSFUL_ADMISSION 1) s2 w2 (hub_quiet_note _ _)) as [d1 ->].
    destruct (hub_quiet_run updateActiveSnapshot (hub_diagnostics d1 s2) w2 hub_quiet_snapshot) as [d2 ->].
    do 3 eexists. split; [|reflexivity]. apply admit_done; try done.
    + intros j Hj Ho. split; [by apply Hun|]. by apply Hfr.
    + do 2 apply hub_mutated_diagnostics. destruct Hm as [Hsd Hmr]. split; [done|].
      intros j. by rewrite Hmr, Hrr.
  - destruct (hub_quiet_run persistenceFailure s2 w2 hub_quiet_failure) as [d1 ->].
    do 3 eexists. split; [|reflexivity]. apply (admit_failed hub node s w event i o); try done.
    destruct Hb as [Hh Hc]. split; [done|].
    destruct Hc as [Hc|Hc]; [left|right]; (eapply hub_custody_ext; [|exact Hc]); done.
Qed.

Lemma admit_cases hub node s w event :
  hub_sound hub node s w → EventProtocol.event_wf event →
  ∃ res s' w', admit_outcome hub node s w event res s' w'
    ∧ admit_event event (s, w) = (res, (s', w')).
Proof.
  intros Hs Hwf. unfold admit_event. rewrite bind_this, (proj2 Hs). cbn [negb]. rewrite bind_this.
  destruct (decide (validateAdmission event s = DURABLE_NEW_ADMISSION)) as [Hv|Hv].
  2:{ rewrite bool_decide_eq_false_2 by done. cbn [negb]. do 3 eexists.
      split; [by eapply admit_refused|reflexivity]. }
  rewrite Hv. decide_eqs. cbn [negb]. rewrite bind_this.
  destruct (ownedSlot_spec s event) as [(i & -> & Hi & Ho & Hid)|[-> Hun]].
  { rewrite (proj2 (Nat.eqb_neq i 255)) by lia. cbn [negb]. rewrite bind_this.
    match goal with |- context [bind (note ?e ?n) _] =>
      destruct (hub_quiet_run (note e n) s w (hub_quiet_note e n)) as [d ->] end.
    do 3 eexists. split; [|reflexivity].
    apply (admit_known hub node s w event i); try done. by apply hub_sound_diagnostics. }
  cbn [Nat.eqb negb]. rewrite bind_this.
  destruct (targetSlot_spec s event) as [[-> Hfull]|Ht].
  { cbn [Nat.eqb]. do 3 eexists. split; [apply admit_capacity; [done|]|reflexivity].
    intros j Hj. destruct (Hfull j Hj) as [He Hc].
    destruct (hub_state_cases hub node s w j (proj1 Hs) Hj) as [|Ho]; [done|].
    split; [done|]. split; [by apply Hun|done]. }
  set (i := targetSlot event s) in *.
  rewrite (proj2 (Nat.eqb_neq i 255)) by (destruct Ht; lia). rewrite bind_this.
  destruct (ordinalReady_ s) eqn:Hor; cbn [negb].
  2:{ destruct (hub_quiet_run persistenceFailure s w hub_quiet_failure) as [d ->].
      do 3 eexists. split; [|reflexivity].
      apply admit_no_ordinal; try done. by apply hub_sound_diagnostics. }
  destruct (allocateOrdinal_cases hub node s w (proj1 Hs))
    as (s1 & w1 & Hst & Hg1 & [(o & E & Hor1 & Hfr)|(E & Hor1)]); rewrite (bind_run _ _ _ _ _ E).
  2:{ destruct (hub_quiet_run persistenceFailure s1 w1 hub_quiet_failure) as [d ->].
      do 3 eexists. split; [|reflexivity].
      apply admit_no_ordinal; try done.
      - apply hub_sound_diagnostics. split; [done|]. rewrite (os_healthy _ _ _ _ Hst). apply Hs.
      - intros j. by apply same_slots_record, Hst. }
  by apply (admit_commits hub node s w s1 w1 event i o).
Qed.

End Durable.

End LedgerOps.
