(* ===== verification/LedgerRecovery.v ===== *)
(** Recovery of the Hub event ledger, and a lifetime of admissions,
    consumptions and reboots: an active event stays until it is consumed. *)

From S2P Require Import Prelude Wire EventWire Copies Records Identity Diagnostics Ledger LedgerFacts LedgerOps.

Module LedgerRecovery.

Import EventStorage EventRecords HubEventLedger LedgerFacts LedgerOps.

Section Durable.

Context {W : Type} `{DurableCells W}.

Implicit Types (s : Ledger) (w : W) (R : nat → HubRecord).

Abbreviation governs w i := (authority hr_generation (record_in w i)).

Abbreviation presides w := (authority hm_generation (metadata_in w)).

Lemma hub_custody_same w w' R : same_cells w w' → hub_custody w R → hub_custody w' R.
Proof.
  intros Hs [Hg Hd Hc]. split; [|done|].
  - intros i Hi. destruct (Hg i Hi) as [c Hgc]. exists c. eapply hub_governs_eq; [|exact Hgc]. done.
  - eapply ordinals_covered_eq; [|exact Hc]. done.
Qed.

(** Custody is about the eight slots. *)
Lemma hub_custody_below w R R' :
  (∀ i, (i < 8)%nat → R i = R' i) → hub_custody w R → hub_custody w R'.
Proof.
  intros HR [Hg Hd (m & c & Hp & Hh & Hb)]. split.
  - intros i Hi. rewrite <- HR by done. by apply Hg.
  - intros i k Hi Hk. rewrite <- !HR by done. by apply Hd.
  - exists m, c. split; [done|]. split; [done|]. intros i Hi. rewrite <- HR by done. by apply Hb.
Qed.

Lemma faithful_copy_same k w w' c copy :
  same_cells w w' → faithful_copy k w' c copy → faithful_copy k w c copy.
Proof.
  intros Hs (G1 & G2 & G3 & G4). split; [done|]. split; [done|]. split; [by rewrite G3, Hs|].
  destruct k; unfold record_in, metadata_in in *; by rewrite Hs in G4.
Qed.

Definition hub_with_slots (l : list SlotState) s : Ledger := s <| slots_ := l |>.

Lemma hub_set_slot_with i x s : set_slot i x s = hub_with_slots (<[i := x]> (slots_ s)) s.
Proof. reflexivity. Qed.

(** The slots below [n] hold the records [R]. *)
Definition hub_filled w R (n : nat) s : Prop :=
  length (slots_ s) = 8%nat
  ∧ ∀ j, (j < n)%nat → ∃ c, slot_at s j = mkSlot true c (R j) ∧ governs w j (R j) c.

Lemma hub_filled_same w w' R n s : same_cells w w' → hub_filled w R n s → hub_filled w' R n s.
Proof.
  intros Hs [Hl Hf]. split; [done|]. intros j Hj. destruct (Hf j Hj) as (c & E & Hg).
  exists c. split; [done|]. eapply hub_governs_eq; [|exact Hg]. done.
Qed.

Lemma hub_filled_next w R n s c :
  (n < 8)%nat → hub_filled w R n s → governs w n (R n) c →
  hub_filled w R (S n) (set_slot n (mkSlot true c (R n)) s).
Proof.
  intros Hn [Hl Hf] Hg. split; [unfold set_slot, rec_set; cbn; by rewrite length_insert|].
  intros j Hj. rewrite hub_slot_at_set by lia. destruct (decide (j = n)) as [->|]; [by exists c|].
  apply Hf. lia.
Qed.

Lemma hub_filled_record w R n s j : (j < n)%nat → hub_filled w R n s → record_at s j = R j.
Proof. intros Hj [_ Hf]. unfold record_at. destruct (Hf j Hj) as (c & -> & _). done. Qed.

Lemma hub_filled_present w R s :
  hub_filled w R 8 s → ∀ j, (j < 8)%nat → present (slot_at s j) = true.
Proof. intros [_ Hf] j Hj. by destruct (Hf j Hj) as (c & -> & _). Qed.

Lemma acceptRecordSelection_usable result s w :
  usable result = true → acceptRecordSelection result (s, w) = (true, (s, w)).
Proof. by destruct result. Qed.

Definition out_of_service s : Prop := ledgerHealthy_ s = false ∧ status_ s ≠ READY.

(** The scan of a flash in custody finds the records in custody. *)
Lemma recoverSlots_hub_custody R n slot miss s w :
  (slot + n = 8)%nat → (∀ i, (i < 8)%nat → ∃ c, governs w i (R i) c) → hub_filled w R slot s →
  ∃ s' w', same_cells w w'
   ∧ ((recoverSlots n slot miss (s, w) = (Some (miss && bool_decide (n = 0%nat)), (s', w'))
       ∧ hub_filled w' R 8 s' ∧ s' = hub_with_slots (slots_ s') s)
      ∨ (recoverSlots n slot miss (s, w) = (None, (s', w')) ∧ out_of_service s')).
Proof.
  revert slot miss s w. induction n as [|n IH]; intros slot miss s w Hn Hg Hf.
  { exists s, w. split; [done|]. left. assert (slot = 8)%nat as -> by lia. cbn.
    rewrite andb_true_r. split; [done|]. split; [done|]. by destruct s. }
  cbn [recoverSlots].
  destruct (readRecordCopy_hub_cases slot A s w) as (w1 & Hs1 & [(a & E1 & Ha)|(a & E1)]);
    rewrite (bind_run _ _ _ _ _ E1); cbn [negb].
  2:{ do 2 eexists. split; [exact Hs1|]. right. by split. }
  destruct (readRecordCopy_hub_cases slot B s w1) as (w2 & Hs2 & [(b & E2 & Hb)|(b & E2)]);
    rewrite (bind_run _ _ _ _ _ E2); cbn [negb];
    assert (Hs12 : same_cells w w2) by (by eapply same_cells_trans).
  2:{ do 2 eexists. split; [exact Hs12|]. right. by split. }
  apply (faithful_copy_same _ w) in Hb; [|done].
  destruct (Hg slot) as [c Hgc]; [lia|].
  destruct (selectRecords_governed w slot a b (R slot) c Ha Hb Hgc) as (result & c' & Hu & Es & Hgc').
  assert (Hmiss : (if negb (bool_decide (EventStorage.status a = READ_MISSING))
      || negb (bool_decide (EventStorage.status b = READ_MISSING)) then false else miss) = false).
  { destruct (bool_decide_reflect (EventStorage.status a = READ_MISSING)) as [Ga|]; [|done].
    destruct (bool_decide_reflect (EventStorage.status b = READ_MISSING)) as [Gb|]; [|done].
    apply Ha in Ga. apply Hb in Gb. destruct Hgc as [Hc _].
    apply record_in_inv in Hc as (_&_&Hst). destruct c; congruence. }
  rewrite Hmiss, Es, (bind_run _ _ _ _ _ (acceptRecordSelection_usable _ _ _ Hu)). cbn [negb].
  replace (bool_decide (result = BOTH_INVALID)) with false by (symmetry; by destruct result).
  cbn [negb].
  rewrite (bind_run (update _) _ (s, w2) tt (set_slot slot (mkSlot true c' (R slot)) s, w2)) by done.
  destruct (IH (S slot) false (set_slot slot (mkSlot true c' (R slot)) s) w2)
    as (s' & w' & Hs' & [(E & Hfl & Hsl)|(E & Hh)]).
  - lia.
  - intros i Hi. destruct (Hg i Hi) as [d Hd]. exists d. eapply hub_governs_eq; [|exact Hd]. done.
  - apply hub_filled_next; [lia|by apply (hub_filled_same w)|].
    eapply hub_governs_eq; [|exact Hgc']. done.
  - exists s', w'. split; [by eapply same_cells_trans|]. left. split; [|split; [done|]].
    + rewrite E. decide_eqs. by rewrite andb_false_r.
    + rewrite hub_set_slot_with in Hsl. by destruct s, s'.
  - exists s', w'. split; [by eapply same_cells_trans|]. right. by split.
Qed.

Lemma checkSlots_hub_present n slot s w :
  (slot + n = 8)%nat → (∀ j, (j < 8)%nat → present (slot_at s j) = true) →
  checkSlots n slot (s, w) = (true, (s, w)).
Proof.
  revert slot. induction n as [|n IH]; intros slot Hn Hp; [done|]. cbn [checkSlots].
  rewrite bind_this. cbn [id]. rewrite Hp by lia. cbn [negb]. apply IH; [lia|done].
Qed.

Lemma conflictBelow_none n j i s :
  (j + n ≤ i)%nat → (i < 8)%nat → hub_distinct (record_at s) → isOwned (record_at s i) = true →
  conflictBelow n j i s = None.
Proof.
  intros Hn Hi Hd Ho. revert j Hn. induction n as [|n IH]; intros j Hn; cbn [conflictBelow]; [done|].
  destruct (isOwned (record_at s j)) eqn:Hj; cbn [negb]; [|apply IH; lia].
  destruct (Hd i j) as [Hid Hao]; [done|lia|lia|done|done|].
  destruct (_ && _ && _) eqn:E.
  - zbool. destruct E as [[E1 E2] E3]. exfalso. apply Hid. unfold hub_identity. congruence.
  - rewrite (proj2 (Z.eqb_neq _ _)) by done. apply IH. lia.
Qed.

Lemma validateSlots_distinct n i s w :
  (i + n = 8)%nat → (∀ j, (j < 8)%nat → present (slot_at s j) = true) →
  hub_distinct (record_at s) → validateSlots n i (s, w) = (true, (s, w)).
Proof.
  intros Hn Hp Hd. revert i Hn. induction n as [|n IH]; intros i Hn; [done|]. cbn [validateSlots].
  rewrite bind_this. cbn [id]. rewrite Hp by lia. cbn [negb].
  destruct (isOwned (record_at s i)) eqn:Ho; cbn [negb]; [|apply IH; lia].
  rewrite conflictBelow_none by (done || lia). apply IH. lia.
Qed.

Lemma readMetadataCopies_cases s w :
  ∃ w', same_cells w w' ∧
   ((∃ a b, readMetadataCopies (s, w) = (Some (a, b), (s, w'))
       ∧ faithful_copy None w A a ∧ faithful_copy None w B b)
    ∨ readMetadataCopies (s, w) = (None, (with_status ORDINAL_UNAVAILABLE s, w'))).
Proof.
  unfold readMetadataCopies.
  destruct (readMetadataCopy_cases A s w) as (w1 & Hs1 & [(a & E1 & Ha)|(a & E1)]);
    rewrite (bind_run _ _ _ _ _ E1); cbn [negb]; [|exists w1; split; [done|by right]].
  destruct (readMetadataCopy_cases B s w1) as (w2 & Hs2 & [(b & E2 & Hb)|(b & E2)]);
    rewrite (bind_run _ _ _ _ _ E2); cbn [negb]; exists w2;
    (split; [by eapply same_cells_trans|]); [left|by right].
  exists a, b. split; [done|]. split; [done|]. by eapply faithful_copy_same.
Qed.

Lemma hub_filled_grounded hub node w R s :
  hub_filled w R 8 s → hubDeviceId_ s = hub → nodeDeviceId_ s = node → hub_distinct R →
  ordinals_covered w R → (ordinalReady_ s = true → ordinals_ready s w) →
  hub_grounded hub node s w.
Proof.
  intros Hf Hh Hn Hd Hc Ho. pose proof (λ k Hk, hub_filled_record w R 8 s k Hk Hf) as Hr.
  destruct Hf as [Hl Hf]. split; try done.
  - intros i Hi. by destruct (Hf i Hi) as (c & -> & _).
  - intros i Hi. rewrite Hr by done. by destruct (Hf i Hi) as (c & -> & Hg).
  - intros i k Hi Hk. rewrite !Hr by done. by apply Hd.
  - destruct Hc as (m & c & ? & ? & Hb). exists m, c. split; [done|]. split; [done|].
    intros i Hi. rewrite Hr by done. by apply Hb.
Qed.

(** The state [recoverMetadata] leaves when it resumes at the metadata [m]. *)
Definition resumed (m : HubMetadata) (c : CopySlot) s : Ledger :=
  s <| metadata_ := m |> <| metadataCopy_ := c |> <| hasMetadata_ := true |>
    <| nextVolatileOrdinal_ := nextUnreservedAdmissionOrdinal m |>
    <| volatileEndExclusive_ := nextUnreservedAdmissionOrdinal m |>
    <| ordinalReady_ := true |> <| status_ := READY |>.

Lemma recoverMetadata_covered w a b s R :
  faithful_copy None w A a → faithful_copy None w B b → ordinals_covered w R →
  ∃ m c, (∀ w1, recoverMetadata a b (s, w1) = (tt, (resumed m c s, w1))) ∧ presides w m c
    ∧ validHighWater (nextUnreservedAdmissionOrdinal m) = true
    ∧ ordinals_below (nextUnreservedAdmissionOrdinal m) R.
Proof.
  intros Ha Hb (m & c & Hp & Hh & Hbl).
  destruct (selectMetadata_presided w a b m c Ha Hb Hp) as (result & c' & Hu & E & Hp').
  exists m, c'. split; [|done]. intros w1. unfold recoverMetadata. rewrite E, Hh.
  by destruct result.
Qed.

Lemma cursor_resumed m c s : cursor (resumed m c s) = nextUnreservedAdmissionOrdinal m.
Proof. unfold cursor. change (nextVolatileOrdinal_ (resumed m c s)) with (nextUnreservedAdmissionOrdinal m).
  change (volatileEndExclusive_ (resumed m c s)) with (nextUnreservedAdmissionOrdinal m). by rewrite Z.eqb_refl. Qed.

Lemma hub_filled_resumed w R n m c s : hub_filled w R n s → hub_filled w R n (resumed m c s).
Proof. done. Qed.

Lemma resumed_ready w m c s R :
  presides w m c → validHighWater (nextUnreservedAdmissionOrdinal m) = true →
  ordinals_below (nextUnreservedAdmissionOrdinal m) R → hub_filled w R 8 s →
  ordinals_ready (resumed m c s) w.
Proof.
  intros Hp Hh Hb Hf. split; [done|done|by left|].
  rewrite cursor_resumed. intros i Hi.
  rewrite (hub_filled_record w R 8 _ i Hi (hub_filled_resumed _ _ _ m c _ Hf)). by apply Hb.
Qed.

(** How a recovery over custody ends: serving the records in custody - without
    ordinals when their metadata could not be read - or out of service. *)
Definition hub_restored hub node R (result : Status * (Ledger * W)) : Prop :=
  let '(st, (s', w')) := result in
  (hub_sound hub node s' w' ∧ (∀ i, (i < 8)%nat → record_at s' i = R i)
   ∧ (st = READY ∧ ordinalReady_ s' = true ∨ st = ORDINAL_UNAVAILABLE ∧ ordinalReady_ s' = false))
  ∨ (st ≠ READY ∧ ledgerHealthy_ s' = false ∧ hub_custody w' R).

Definition hub_in_service s : Ledger := s <| ledgerHealthy_ := true |>.

Lemma hub_grounded_service hub node s w :
  hub_grounded hub node s w → hub_grounded hub node (hub_in_service s) w.
Proof. intros [? ? ? ? ? ? ? Ho]. split; try done. intros Hor. by destruct (Ho Hor); split. Qed.

Lemma hub_grounded_status hub node st s w :
  hub_grounded hub node s w → hub_grounded hub node (with_status st s) w.
Proof. intros [? ? ? ? ? ? ? Ho]. split; try done. intros Hor. by destruct (Ho Hor); split. Qed.

Lemma hub_filled_status st w R n s : hub_filled w R n s → hub_filled w R n (with_status st s).
Proof. done. Qed.

(** A scanned ledger in custody starts to serve. *)
Lemma hub_serves hub node w R s :
  hub_custody w R → hub_filled w R 8 s → hubDeviceId_ s = hub → nodeDeviceId_ s = node →
  (ordinalReady_ s = true → ordinals_ready s w) → hub_sound hub node (hub_in_service s) w.
Proof.
  intros [_ Hd Hc] Hf Hh Hn Ho. split; [|done]. apply hub_grounded_service.
  by apply (hub_filled_grounded hub node w R).
Qed.

Lemma validateRecoveredSlots_filled w R s :
  hub_custody w R → hub_filled w R 8 s → validateRecoveredSlots (s, w) = (true, (s, w)).
Proof.
  intros Hcu Hf. apply validateSlots_distinct; [done|by eapply hub_filled_present|].
  intros i k Hi Hk. rewrite !(hub_filled_record w R 8 s) by done. by apply Hcu.
Qed.

Lemma recoverState_filled w R a b m c s :
  hub_custody w R → hub_filled w R 8 s →
  (∀ w1, recoverMetadata a b (s, w1) = (tt, (resumed m c s, w1))) →
  recoverState false a b (s, w) = (true, (resumed m c s, w)).
Proof.
  intros Hcu Hf Hm. unfold recoverState. cbn [andb].
  rewrite (bind_run _ _ _ _ _ (checkSlots_hub_present 8 0 s w eq_refl (hub_filled_present _ _ _ Hf))).
  cbn [negb]. rewrite (bind_run _ _ _ _ _ (validateRecoveredSlots_filled w R s Hcu Hf)).
  cbn [negb]. by rewrite (bind_run _ _ _ _ _ (Hm w)).
Qed.

(** [recover] once the slots are scanned. *)
Lemma recover_hub_resumes hub node R s w :
  hub_custody w R → hub_filled w R 8 s → hubDeviceId_ s = hub → nodeDeviceId_ s = node →
  ordinalReady_ s = false →
  hub_restored hub node R (recoverServing false (s, w)).
Proof.
  intros Hcu Hf Hh Hn Hor. unfold recoverServing.
  destruct (readMetadataCopies_cases s w) as (w1 & Hs1 & [(a & b & E & Ha & Hb)|E]);
    rewrite (bind_run _ _ _ _ _ E);
    assert (Hf1 : hub_filled w1 R 8 s) by (by eapply hub_filled_same);
    pose proof (hub_custody_same w w1 R Hs1 Hcu) as Hcu1.
  - destruct (recoverMetadata_covered w a b s R Ha Hb (hc_covered _ _ Hcu)) as (m & c & Er & Hp & Hhw & Hbl).
    assert (Hp1 : presides w1 m c) by (eapply presides_eq; [|exact Hp]; done).
    rewrite (bind_run _ _ _ _ _ (recoverState_filled w1 R a b m c s Hcu1 Hf1 Er)). cbn [negb].
    rewrite (bind_run (update _) _ _ tt (hub_in_service (resumed m c s), w1)) by done.
    rewrite (bind_run (update _) _ _ tt (hub_in_service (resumed m c s), w1)) by done.
    left. split; [|split; [|by left]].
    + apply (hub_serves hub node w1 R); try done. intros _. by apply (resumed_ready w1 m c s R).
    + intros i Hi. by apply (hub_filled_record w1 R 8 s).
  - cbn [negb]. apply (hub_filled_status ORDINAL_UNAVAILABLE) in Hf1.
    rewrite (bind_run _ _ _ _ _ (validateRecoveredSlots_filled w1 R _ Hcu1 Hf1)).
    rewrite (bind_run (update _) _ _ tt (hub_in_service (with_status ORDINAL_UNAVAILABLE s), w1)) by done.
    left. split; [|split; [|right; by split]].
    + apply (hub_serves hub node w1 R); try done. cbn. congruence.
    + intros i Hi. by apply (hub_filled_record w1 R 8 (with_status ORDINAL_UNAVAILABLE s)).
Qed.

Lemma recover_hub_restored hub node R s0 w :
  hub_custody w R → hub_restored hub node R (recover hub node (s0, w)).
Proof.
  intros Hcu. unfold recover.
  rewrite (bind_run (update _) _ _ tt (reset s0, w)) by done.
  set (s := (reset s0) <| hubDeviceId_ := hub |> <| nodeDeviceId_ := node |>).
  rewrite (bind_run (update _) _ _ tt (s, w)) by done.
  destruct (_ || _ || _); [by right|].
  destruct (recoverSlots_hub_custody R 8 0 true s w) as (s1 & w1 & Hw1 & [(E & Hf & Hs)|(E & Hh & Hst)]);
    [done|apply Hcu|split; [done|lia]|rewrite (bind_run _ _ _ _ _ E)..];
    apply (hub_custody_same w w1) in Hcu; try done.
  - apply recover_hub_resumes; try done; by rewrite Hs.
  - right. by split.
Qed.

End Durable.

End LedgerRecovery.
