(* ===== verification/LedgerBoot.v ===== *)
(** The first boot of the Hub event ledger: a blank flash is given its first
    metadata and eight empty records, or the ledger does not serve. *)

From S2P Require Import Prelude Wire EventWire Copies Records Identity Diagnostics Ledger LedgerFacts LedgerOps LedgerRecovery.

Module LedgerBoot.

Import EventStorage EventRecords HubEventLedger LedgerFacts LedgerOps LedgerRecovery.

Section Durable.

Context {W : Type} `{DurableCells W}.

Implicit Types (s : Ledger) (w : W) (R : nat → HubRecord).

Abbreviation governs w i := (authority hr_generation (record_in w i)).

Abbreviation presides w := (authority hm_generation (metadata_in w)).

Definition emptyRecord : HubRecord :=
  zeroHubRecord <| hr_generation := 1 |> <| hr_state := HubState.EMPTY |>.

Lemma emptyRecord_ok : hub_record_wf emptyRecord ∧ validateHubRecord emptyRecord = OK.
Proof. split; [|reflexivity]. unfold hub_record_wf. split_and!; concrete. Qed.

Definition firstMetadata : HubMetadata := mkHubMetadata 1 1.

Lemma firstMetadata_ok : metadata_ok firstMetadata.
Proof. split; [split; concrete|done]. Qed.

Definition hub_blank w : Prop := ∀ k c, stored w k c = None.

Lemma hub_blank_same w w' : same_cells w w' → hub_blank w → hub_blank w'.
Proof. intros Hs Hb k c. by rewrite Hs. Qed.

Lemma selectRecords_blank a b i w :
  faithful_copy (Some i) w A a → faithful_copy (Some i) w B b →
  record_in w i A = None → record_in w i B = None →
  selectRecords a b = (BOTH_INVALID, zeroHubRecord, A).
Proof.
  intros (_&_&_&Ha) (_&_&_&Hb) HA HB. unfold selectRecords.
  rewrite selectCopies_holds. unfold holds_record in *. by rewrite Ha, Hb, HA, HB.
Qed.

Lemma record_in_missing w i c : stored w (Some i) c = None → record_in w i c = None.
Proof. unfold record_in. by intros ->. Qed.

Lemma metadata_in_missing w c : stored w None c = None → metadata_in w c = None.
Proof. unfold metadata_in. by intros ->. Qed.

Lemma recoverSlots_hub_blank n slot miss s w :
  hub_blank w →
  ∃ w', same_cells w w'
   ∧ (recoverSlots n slot miss (s, w) = (Some miss, (s, w'))
      ∨ ∃ s', recoverSlots n slot miss (s, w) = (None, (s', w')) ∧ out_of_service s').
Proof.
  intros Hb. revert slot w Hb. induction n as [|n IH]; intros slot w Hb.
  { exists w. split; [done|]. by left. }
  cbn [recoverSlots].
  destruct (readRecordCopy_hub_cases slot A s w) as (w1 & Hs1 & [(a & E1 & Ha)|(a & E1)]);
    rewrite (bind_run _ _ _ _ _ E1); cbn [negb].
  2:{ exists w1. split; [done|]. right. eexists. by split. }
  destruct (readRecordCopy_hub_cases slot B s w1) as (w2 & Hs2 & [(b & E2 & Hbb)|(b & E2)]);
    rewrite (bind_run _ _ _ _ _ E2); cbn [negb];
    assert (Hs12 : same_cells w w2) by (by eapply same_cells_trans).
  2:{ exists w2. split; [done|]. right. eexists. by split. }
  apply (faithful_copy_same _ w) in Hbb; [|done].
  assert (EventStorage.status a = READ_MISSING) as -> by (apply Ha, Hb).
  assert (EventStorage.status b = READ_MISSING) as -> by (apply Hbb, Hb).
  rewrite (selectRecords_blank a b slot w) by (done || apply record_in_missing, Hb).
  decide_eqs. cbn [negb orb].
  unfold acceptRecordSelection. decide_eqs.
  rewrite (bind_run (ret true) _ _ true (s, w2)) by done. cbn [negb].
  rewrite (bind_run (ret tt) _ _ tt (s, w2)) by done.
  destruct (IH (S slot) w2) as (w3 & Hw3 & Hc); [by eapply hub_blank_same|].
  exists w3. split; [by eapply same_cells_trans|]. exact Hc.
Qed.

(** The first [n] slots are initialised, the others are blank. *)
Record hub_initialised n s w : Prop := mkHubInitialised {
  hi_filled : hub_filled w (λ _, emptyRecord) n s;
  hi_blank i c : (n ≤ i)%nat ∨ c = B → stored w (Some i) c = None
}.

Lemma hub_initialised_same n s w w' :
  same_cells w w' → hub_initialised n s w → hub_initialised n s w'.
Proof.
  intros Hs [Hf Hb]. split; [by eapply hub_filled_same|]. intros i c Hic. rewrite Hs. by apply Hb.
Qed.

(** What another cell's write leaves of the initialised slots. *)
Lemma hub_filled_only w w' R n s k :
  (n ≤ k)%nat → only_cell (Some k) w w' → hub_filled w R n s → hub_filled w' R n s.
Proof.
  intros Hk Ho [Hl Hf]. split; [done|]. intros j Hj. destruct (Hf j Hj) as (c & E & Hg).
  exists c. split; [done|]. eapply hub_governs_eq; [|exact Hg]. intros d. apply Ho. intros [=]. lia.
Qed.

Lemma hub_filled_slots w R n s s' : slots_ s' = slots_ s → hub_filled w R n s → hub_filled w R n s'.
Proof. unfold hub_filled, slot_at. by intros ->. Qed.

Lemma commitInitialRecord_cases slot s w :
  (slot < 8)%nat → hub_initialised slot s w →
  ∃ s' w', (commitInitialRecord slot emptyRecord (s, w) = (true, (s', w'))
         ∧ hub_initialised (S slot) s' w' ∧ s' = hub_with_slots (slots_ s') s
         ∧ only_cell (Some slot) w w')
    ∨ (commitInitialRecord slot emptyRecord (s, w) = (false, (s', w'))
        ∧ status_ s' ≠ READY ∧ ledgerHealthy_ s' = false).
Proof.
  intros Hi [Hf Hb]. destruct emptyRecord_ok as [Hwf Hv]. unfold commitInitialRecord.
  set (s1 := set_slot slot (mkSlot true B emptyRecord) s).
  rewrite (bind_run (update _) _ _ tt (s1, w)) by done.
  destruct (commitRecordTo_writes slot A emptyRecord s1 w Hwf Hv) as (w1 & Hw & Hcase).
  pose proof (written_only _ _ _ _ _ Hw) as Ho.
  destruct Hcase as [[E Hst]|(st & Hst & E)].
  2:{ rewrite (bind_run _ _ (s1, w) false (ledger_failed st s1, w1)) by done.
      do 2 eexists. right. by split. }
  assert (Hin : record_in w1 slot A = Some emptyRecord) by by apply record_in_stored.
  destruct (confirmRecord_cases slot emptyRecord A s1 w1 Hin) as (w2 & Hs2 & Hc).
  destruct Hc as [Hc|(st & Hne & Hc)]; rewrite Hc in E; rewrite (bind_run _ _ _ _ _ E).
  2:{ do 2 eexists. right. by split. }
  set (s2 := set_slot slot (mkSlot true A emptyRecord) s).
  assert (Hs12 : set_slot slot (mkSlot true A emptyRecord) s1 = s2).
  { unfold s1, s2, set_slot, rec_set. cbn. by rewrite list_insert_insert_eq. }
  rewrite Hs12. exists s2, w2. left.
  assert (Hblank : ∀ i c, (S slot ≤ i)%nat ∨ c = B → stored w2 (Some i) c = None).
  { intros i c Hic. rewrite Hs2, Hw, writeCell_keeps; [apply Hb|].
    - destruct Hic; [left; lia|by right].
    - intros [= -> ->]. destruct Hic; [lia|done]. }
  split; [reflexivity|]. split; [|split; [by destruct s|by eapply only_cell_same]].
  split; [|exact Hblank]. apply (hub_filled_next w2 (λ _, emptyRecord)); [done| |].
  - eapply hub_filled_only; [| |exact Hf]; [reflexivity|]. by eapply only_cell_same.
  - apply (hub_governs_eq w1); [intros d; by rewrite Hs2|]. split; [done|]. intros r' Hr'.
    rewrite (record_in_missing w1) in Hr'; [done|]. rewrite <- Hs2. apply Hblank. by right.
Qed.

(** Marking a slot not yet initialised changes nothing that matters. *)
Lemma hub_initialised_mark slot x s w :
  (slot < 8)%nat → hub_initialised slot s w → hub_initialised slot (set_slot slot x s) w.
Proof.
  intros Hs8 [[Hl Hf] Hb]. split; [|exact Hb]. split; [cbn; by rewrite length_insert|].
  intros j Hj. destruct (Hf j Hj) as (c & E & Hg). exists c. split; [|done]. rewrite <- E.
  rewrite hub_slot_at_set by lia. destruct (decide (j = slot)); [lia|done].
Qed.

Lemma hub_initializeSlots_cases n slot s w :
  (slot + n = 8)%nat → hub_initialised slot s w →
  ∃ s' w', (initializeSlots n slot (s, w) = (true, (s', w')) ∧ hub_initialised 8 s' w'
      ∧ s' = hub_with_slots (slots_ s') s ∧ ∀ c, stored w' None c = stored w None c)
    ∨ (initializeSlots n slot (s, w) = (false, (s', w'))
       ∧ status_ s' ≠ READY ∧ ledgerHealthy_ s' = false).
Proof.
  revert slot s w. induction n as [|n IH]; intros slot s w Hn Hin.
  { exists s, w. left. assert (slot = 8)%nat as -> by lia. split; [done|]. split; [done|].
    split; [by destruct s|done]. }
  cbn [initializeSlots]. change (zeroHubRecord <| hr_generation := 1 |> <| hr_state := _ |>)
    with emptyRecord.
  set (s0 := set_slot slot ((slot_at s slot) <| activeCopy := A |>) s).
  rewrite (bind_run (update _) _ _ tt (s0, w)) by done.
  assert (Hin0 : hub_initialised slot s0 w) by (apply hub_initialised_mark; [lia|done]).
  destruct (commitInitialRecord_cases slot s0 w ltac:(lia) Hin0)
    as (s1 & w1 & [(E & Hin1 & Hs1 & Ho)|(E & Hst & Hh)]); rewrite (bind_run _ _ _ _ _ E); cbn [negb].
  2:{ exists s1, w1. right. by split. }
  destruct (IH (S slot) s1 w1 ltac:(lia) Hin1) as (s' & w' & [(E' & Hin' & Hs' & Hk)|Hf]);
    exists s', w'; [left|by right].
  split; [done|]. split; [done|]. split.
  - rewrite Hs', Hs1. unfold s0. rewrite hub_set_slot_with. by destruct s, s', s1.
  - intros c. rewrite Hk. by apply Ho.
Qed.

Lemma commitFirstMetadata_cases s w :
  hub_blank w →
  ∃ w', (∀ i c, stored w' (Some i) c = None)
    ∧ (commitMetadata firstMetadata A (s, w) = (true, (with_metadata firstMetadata A s, w'))
         ∧ presides w' firstMetadata A
       ∨ ∃ st, st ≠ READY ∧ commitMetadata firstMetadata A (s, w) = (false, (ordinal_failed st s, w'))).
Proof.
  intros Hb. destruct (commitMetadata_writes A firstMetadata s w firstMetadata_ok) as (w1 & Hw & Hcase).
  assert (Hkeep : ∀ k c, (k, c) ≠ (None, A) → stored w1 k c = None).
  { intros k c Hne. rewrite Hw, writeCell_keeps by congruence. apply Hb. }
  destruct Hcase as [[E Hst]|(st & Hst & E)].
  2:{ exists w1. split; [intros; by apply Hkeep|]. right. by exists st. }
  assert (Hin : metadata_in w1 A = Some firstMetadata)
    by (apply metadata_in_stored; [apply firstMetadata_ok|done]).
  destruct (confirmMetadata_cases firstMetadata A s w1 Hin) as (w2 & Hs2 & Hc).
  exists w2. split; [intros; rewrite Hs2; by apply Hkeep|]. rewrite E.
  destruct Hc as [Hc|(st & Hne & Hc)]; rewrite Hc; [left|right; by exists st].
  split; [done|]. eapply presides_eq; [intros d; apply Hs2|]. split; [done|]. intros m' Hm'.
  rewrite metadata_in_missing in Hm'; [done|by apply Hkeep].
Qed.

Lemma hub_custody_first w s :
  presides w firstMetadata A → hub_filled w (λ _, emptyRecord) 8 s → hub_custody w (λ _, emptyRecord).
Proof.
  intros Hp [_ Hf]. split; [|done|].
  - intros i Hi. destruct (Hf i Hi) as (c & _ & Hg). by exists c.
  - exists firstMetadata, A. by split.
Qed.

Definition fresh_ledger s : Prop :=
  nextVolatileOrdinal_ s = 0 ∧ volatileEndExclusive_ s = 0 ∧ slots_ s = replicate 8 zeroSlot
  ∧ ledgerHealthy_ s = false ∧ status_ s ≠ READY.

(** A fresh ledger over a blank flash initialises it, or does not serve. *)
Lemma hub_initializeFresh_cases s w :
  hub_blank w → fresh_ledger s →
  ∃ s' w', (initializeFresh (s, w) = (true, (s', w')) ∧ hub_custody w' (λ _, emptyRecord)
      ∧ hub_filled w' (λ _, emptyRecord) 8 s' ∧ ordinals_ready s' w' ∧ ordinalReady_ s' = true
      ∧ hubDeviceId_ s' = hubDeviceId_ s ∧ nodeDeviceId_ s' = nodeDeviceId_ s)
    ∨ (initializeFresh (s, w) = (false, (s', w')) ∧ status_ s' ≠ READY ∧ ledgerHealthy_ s' = false).
Proof.
  intros Hb (Hn & Hv & Hsl & Hh & Hst). unfold initializeFresh.
  destruct (commitFirstMetadata_cases s w Hb) as (w1 & Hw1 & [[E Hp]|(st & Hne & E)]);
    change (mkHubMetadata 1 1) with firstMetadata; rewrite (bind_run _ _ _ _ _ E); cbn [negb].
  2:{ do 2 eexists. right. by split. }
  destruct (hub_initializeSlots_cases 8 0 (with_metadata firstMetadata A s) w1 eq_refl)
    as (s2 & w2 & [(E2 & [Hf _] & Hs2 & Hk)|Hfail]).
  { split; [|by intros]. split; [cbn; by rewrite Hsl|intros; lia]. }
  2:{ exists s2, w2. by right. }
  assert (Hp2 : presides w2 firstMetadata A) by (by eapply presides_eq).
  exists s2, w2. left. rewrite Hs2 in *. split; [done|]. split; [by eapply hub_custody_first|].
  split; [done|]. split; [|done]. split; [done|done|left; cbn; congruence|].
  intros i Hi. rewrite (hub_filled_record w2 (λ _, emptyRecord) 8 _ i Hi Hf). done.
Qed.

End Durable.

End LedgerBoot.
