(* ===== verification/LedgerLife.v ===== *)
(** The contract of the Hub event ledger: what an admission, a consumption and
    a recovery do, and what a lifetime of them keeps. *)

From S2P Require Import Prelude Wire EventWire Copies Records Identity Diagnostics Ledger LedgerFacts LedgerOps LedgerRecovery LedgerBoot.

Module LedgerLife.

Import EventStorage EventRecords HubEventLedger LedgerFacts LedgerOps LedgerRecovery LedgerBoot.

Section Durable.

Context {W : Type} `{DurableCells W}.

Implicit Types (s : Ledger) (w : W) (R : nat → HubRecord).

Definition hub_started hub node (result : Status * (Ledger * W)) : Prop :=
  let '(st, (s', w')) := result in
  (st = READY ∧ hub_sound hub node s' w' ∧ ordinalReady_ s' = true
     ∧ ∀ i, (i < 8)%nat → record_at s' i = emptyRecord)
  ∨ (st ≠ READY ∧ ledgerHealthy_ s' = false).

Lemma hub_ready_run s w :
  ordinalReady_ s = true →
  update (λ s, if ordinalReady_ s then s <| status_ := READY |> else s) (s, w)
  = (tt, (with_status READY s, w)).
Proof. intros Hr. unfold update, modify. cbn [fst snd]. by rewrite Hr. Qed.

Lemma recoverServing_blank hub node s w :
  hub_blank w → fresh_ledger s → hubDeviceId_ s = hub → nodeDeviceId_ s = node →
  hub_started hub node (recoverServing true (s, w)).
Proof.
  intros Hb Hfr Hh Hn. unfold recoverServing.
  destruct (readMetadataCopies_cases s w) as (w1 & Hs1 & [(a & b & E & Ha & Hbb)|E]);
    rewrite (bind_run _ _ _ _ _ E).
  2:{ right. split; [done|]. apply Hfr. }
  unfold recoverState.
  assert (EventStorage.status a = READ_MISSING) as -> by (apply Ha, Hb).
  assert (EventStorage.status b = READ_MISSING) as -> by (apply Hbb, Hb).
  decide_eqs. cbn [andb].
  destruct (hub_initializeFresh_cases s w1 (hub_blank_same _ _ Hs1 Hb) Hfr)
    as (s2 & w2 & [(E2 & Hcu & Hf & Hr & Hor & Hh2 & Hn2)|(E2 & Hst & Hu)]);
    rewrite (bind_run _ _ _ _ _ E2); cbn [negb]; [|by right].
  rewrite (bind_run (update _) _ _ tt (hub_in_service s2, w2)) by done.
  rewrite (bind_run _ _ _ _ _ (hub_ready_run (hub_in_service s2) w2 Hor)).
  left. split; [done|]. split; [|split; [done|]].
  - split; [|done]. apply hub_grounded_status. apply (hub_serves hub node w2 (λ _, emptyRecord)); congruence.
  - intros i Hi. by apply (hub_filled_record w2 (λ _, emptyRecord) 8 s2).
Qed.

Lemma hub_first_boot_cases hub node s0 w :
  hub_blank w → hub_started hub node (recover hub node (s0, w)).
Proof.
  intros Hb. unfold recover.
  rewrite (bind_run (update _) _ _ tt (reset s0, w)) by done.
  set (s := (reset s0) <| hubDeviceId_ := hub |> <| nodeDeviceId_ := node |>).
  rewrite (bind_run (update _) _ _ tt (s, w)) by done.
  destruct (_ || _ || _); [by right|].
  destruct (recoverSlots_hub_blank 8 0 true s w Hb) as (w1 & Hw1 & [E|(s' & E & Hh & Hst)]);
    rewrite (bind_run _ _ _ _ _ E); [|by right].
  apply recoverServing_blank; [by eapply hub_blank_same|by split_and!|done|done].
Qed.

(** ** The operations *)

(** C10. Every admission ends in one of six ways, whatever the storage does: the
    event is refused for its form or source; it is known already, and the
    answer names the slot and ordinal it got the first time and changes no
    record; every slot is taken; no ordinal can be reserved; the write fails,
    the ledger stops serving and the flash still holds the old or the new
    record of one slot; or the event is stored in an empty slot, or over a
    consumed earlier event, under an ordinal above those of all records. *)
Theorem admit_refines hub node s w event :
  hub_sound hub node s w → EventProtocol.event_wf event →
  admit_outcome hub node s w event (admit_event event (s, w)).1
    (admit_event event (s, w)).2.1 (admit_event event (s, w)).2.2.
Proof.
  intros Hs Hwf. destruct (admit_cases hub node s w event Hs Hwf) as (res & s' & w' & Ho & ->).
  exact Ho.
Qed.

(** Consuming an identity answers that no record carries it, or that its
    record is consumed already, and changes nothing; or it makes exactly that
    active record a tombstone; or the write fails, the ledger stops serving,
    and the flash holds the active record or its tombstone. *)
Theorem consume_refines hub node s w identity :
  hub_sound hub node s w →
  consume_outcome hub node s w identity (consume identity (s, w)).1
    (consume identity (s, w)).2.1 (consume identity (s, w)).2.2.
Proof.
  intros Hs. destruct (consume_cases hub node s w identity Hs) as (res & s' & w' & Ho & ->).
  exact Ho.
Qed.

(** A recovery over a flash in custody of the records [R] serves exactly
    those - READY, or without ordinals when the metadata cells cannot be read -
    or ends out of service with [R] still in custody. *)
Theorem hub_recover_restores hub node R s0 w st s' w' :
  hub_custody w R → recover hub node (s0, w) = (st, (s', w')) →
  (hub_sound hub node s' w' ∧ (∀ i, (i < 8)%nat → record_at s' i = R i)
   ∧ (st = READY ∧ ordinalReady_ s' = true ∨ st = ORDINAL_UNAVAILABLE ∧ ordinalReady_ s' = false))
  ∨ (st ≠ READY ∧ ledgerHealthy_ s' = false ∧ hub_custody w' R).
Proof.
  intros Hcu E. pose proof (recover_hub_restored hub node R s0 w Hcu) as Hr.
  rewrite E in Hr. exact Hr.
Qed.

(** On a blank flash a recovery either writes the first metadata and eight
    empty records and is then sound and READY with ordinals in hand, or it ends
    out of service. *)
Theorem hub_first_boot hub node s0 w st s' w' :
  (∀ k c, stored w k c = None) → recover hub node (s0, w) = (st, (s', w')) →
  (st = READY ∧ hub_sound hub node s' w' ∧ ordinalReady_ s' = true
     ∧ ∀ i, (i < 8)%nat → record_at s' i = emptyRecord)
  ∨ (st ≠ READY ∧ ledgerHealthy_ s' = false).
Proof.
  intros Hb E. pose proof (hub_first_boot_cases hub node s0 w Hb) as Hr.
  rewrite E in Hr. exact Hr.
Qed.

(** ** A lifetime of admissions, consumptions and restarts *)

Inductive HubCommand :=
| Admit (event : EventProtocol.Event)
| Consume (identity : EventProtocol.Identity)
| Restart.

Definition hub_command_wf (c : HubCommand) : Prop :=
  match c with Admit event => EventProtocol.event_wf event | _ => True end.

Definition run_hub_command (hub node : Z) (c : HubCommand) : st (Ledger * W) unit :=
  match c with
  | Admit event => admit_event event ;;; ret tt
  | Consume identity => consume identity ;;; ret tt
  | Restart => recover hub node ;;; ret tt
  end.

Fixpoint run_hub_commands (hub node : Z) (cs : list HubCommand) : st (Ledger * W) unit :=
  match cs with
  | [] => ret tt
  | c :: cs' => run_hub_command hub node c ;;; run_hub_commands hub node cs'
  end.

(** Serving the records [R], or out of service with [R] in custody. *)
Definition hub_serving hub node R (x : Ledger * W) : Prop :=
  (hub_sound hub node x.1 x.2 ∧ ∀ i, (i < 8)%nat → record_at x.1 i = R i)
  ∨ (ledgerHealthy_ x.1 = false ∧ hub_custody x.2 R).

Lemma hub_serving_sound hub node s w : hub_sound hub node s w → hub_serving hub node (record_at s) (s, w).
Proof. intros Hs. by left. Qed.

Lemma hub_serving_broken hub node s i r s' w' (P : (nat → HubRecord) → Prop) :
  hub_broken s i r s' w' → P (record_at s) → P (hub_replaced i r (record_at s)) →
  ∃ R', hub_serving hub node R' (s', w') ∧ P R'.
Proof. intros (Hh & [Hc|Hc]) P1 P2; eexists; (split; [by right|done]). Qed.

Lemma admit_keeps hub node i event s w :
  EventProtocol.event_wf event → (i < 8)%nat → hub_sound hub node s w →
  hr_state (record_at s i) = HubState.ACTIVE →
  ∃ R', hub_serving hub node R' (admit_event event (s, w)).2 ∧ R' i = record_at s i.
Proof.
  intros Hwf Hi Hs Ha.
  destruct (admit_cases hub node s w event Hs Hwf) as (res & s' & w' & Ho & ->).
  assert (Hother : ∀ k r, takes s event k → hub_replaced k r (record_at s) i = record_at s i).
  { intros k r (_ & Hk). unfold hub_replaced. case_decide as E; [|done]. subst k.
    rewrite Ha in Hk. by destruct Hk as [?|[? _]]. }
  destruct Ho as [|? s1 ??? Hid Hs1 Hr|?|s1 w1 ? Hun Hs1 _ Hr|k o s1 w1 ? _ Ht Hb|k o s1 w1 ? Ht _ [Hs1 Hr]].
  1, 3: by exists (record_at s); split; [by apply hub_serving_sound|].
  1, 2: by exists (record_at s1); split; [by apply hub_serving_sound|].
  - eapply hub_serving_broken; [exact Hb|done|by apply Hother].
  - exists (record_at s1). split; [by apply hub_serving_sound|]. rewrite Hr. by apply Hother.
Qed.

Lemma hasIdentity_spec identity r :
  hasIdentity identity r = true → identity = hub_identity r.
Proof.
  unfold hasIdentity, hub_identity. intros Hi. zbool. destruct identity. cbn in *.
  by destruct Hi as [[[_ ->] ->] ->].
Qed.

Lemma consume_keeps hub node i identity s w :
  (i < 8)%nat → hub_sound hub node s w → identity ≠ hub_identity (record_at s i) →
  ∃ R', hub_serving hub node R' (consume identity (s, w)).2 ∧ R' i = record_at s i.
Proof.
  intros Hi Hs Hne.
  destruct (consume_cases hub node s w identity Hs) as (res & s' & w' & Ho & ->).
  assert (Hother : ∀ k r, hasIdentity identity (record_at s k) = true →
    hub_replaced k r (record_at s) i = record_at s i).
  { intros k r Hk%hasIdentity_spec. unfold hub_replaced. case_decide as E; [|done]. by subst k. }
  destruct Ho as [?|????|k s1 w1 ? Hid ? [Hs1 Hr]|k s1 w1 ? Hid ? Hb].
  1, 2: by exists (record_at s); split; [by apply hub_serving_sound|].
  - exists (record_at s1). split; [by apply hub_serving_sound|]. rewrite Hr. by apply Hother.
  - eapply hub_serving_broken; [exact Hb|done|by apply Hother].
Qed.

Lemma restart_keeps hub node R x :
  hub_serving hub node R x → hub_serving hub node R (recover hub node x).2.
Proof.
  intros Hx. destruct x as [s w].
  assert (Hcu : hub_custody w R).
  { destruct Hx as [([Hg _] & HR)|[_ Hc]]; [|done]. cbn in *.
    apply hub_grounded_custody in Hg. by eapply hub_custody_below. }
  pose proof (recover_hub_restored hub node R s w Hcu) as Hr.
  destruct (recover hub node (s, w)) as [st [s' w']]. cbn in *.
  destruct Hr as [(?&?&_)|(_&?&?)]; [by left|by right].
Qed.

Lemma admit_degraded event s w :
  ledgerHealthy_ s = false → admit_event event (s, w) = (mkAdmission ADMIT_DEGRADED 255 0, (s, w)).
Proof. intros Hh. unfold admit_event. by rewrite bind_this, Hh. Qed.

Lemma consume_degraded identity s w :
  ledgerHealthy_ s = false → consume identity (s, w) = (mkConsume CONSUME_DEGRADED 255, (s, w)).
Proof. intros Hh. unfold consume. by rewrite bind_this, Hh. Qed.

Lemma hub_command_keeps hub node i c R x :
  hub_command_wf c → c ≠ Consume (hub_identity (R i)) → (i < 8)%nat → hub_serving hub node R x →
  hr_state (R i) = HubState.ACTIVE →
  ∃ R', hub_serving hub node R' (run_hub_command hub node c x).2 ∧ R' i = R i.
Proof.
  intros Hwf Hne Hi Hx Ha. destruct x as [s w]. destruct c as [event|identity|]; cbn [run_hub_command].
  3:{ exists R. split; [|done]. unfold bind.
      pose proof (restart_keeps hub node R (s, w) Hx). by destruct (recover hub node (s, w)). }
  all: destruct Hx as [(Hs & HR)|[Hh Hc]]; cbn [fst snd] in *.
  1, 3: rewrite <- HR in * by done.
  - destruct (admit_keeps hub node i event s w) as (R' & HR' & Hk); [done..|].
    exists R'. split; [|done]. unfold bind. by destruct (admit_event event (s, w)).
  - destruct (consume_keeps hub node i identity s w) as (R' & HR' & Hk); [done..|congruence|].
    exists R'. split; [|done]. unfold bind. by destruct (consume identity (s, w)).
  - rewrite (bind_run _ _ _ _ _ (admit_degraded event s w Hh)). exists R. split; [by right|done].
  - rewrite (bind_run _ _ _ _ _ (consume_degraded identity s w Hh)). exists R. split; [by right|done].
Qed.

Lemma hub_commands_keep hub node i cs R x :
  Forall hub_command_wf cs → Forall (λ c, c ≠ Consume (hub_identity (R i))) cs → (i < 8)%nat →
  hub_serving hub node R x → hr_state (R i) = HubState.ACTIVE →
  ∃ R', hub_serving hub node R' (run_hub_commands hub node cs x).2 ∧ R' i = R i.
Proof.
  intros Hwf Hne Hi. revert R x Hne. induction cs as [|c cs IH]; intros R x Hne Hx Ha.
  { by exists R. }
  apply Forall_cons in Hwf as [Hwc Hwf]. apply Forall_cons in Hne as [Hnc Hne].
  destruct (hub_command_keeps hub node i c R x) as (R1 & Hx1 & Hk1); [done..|].
  cbn [run_hub_commands]. unfold bind. destruct (run_hub_command hub node c x) as [u x1]. cbn [snd] in *.
  destruct (IH Hwf R1 x1) as (R2 & Hx2 & Hk2); rewrite ?Hk1; [done..|].
  exists R2. split; [done|congruence].
Qed.

(** C8. The Hub never loses an event it admitted.  Run any list of admissions,
    consumptions and restarts, let the flash refuse, tear or forget the answer
    of any write and be unavailable at any read: unless the identity of the
    active record of slot [i] is consumed, that record is unchanged at the end,
    in a ledger that serves or in custody of the flash for the next start. *)
Theorem active_event_survives hub node i cs R x :
  Forall hub_command_wf cs → Forall (λ c, c ≠ Consume (hub_identity (R i))) cs → (i < 8)%nat →
  hub_serving hub node R x → hr_state (R i) = HubState.ACTIVE →
  ∃ R', hub_serving hub node R' (run_hub_commands hub node cs x).2 ∧ R' i = R i.
Proof. apply hub_commands_keep. Qed.

Lemma sameIdentity_admitted previous event o : sameIdentity (admittedRecord previous event o) event = true.
Proof. by apply sameIdentity_spec. Qed.

Lemma sameCanonical_admitted previous event o s :
  EventProtocol.event_wf event → validateAdmission event s = DURABLE_NEW_ADMISSION →
  sameCanonical (admittedRecord previous event o) event = true.
Proof.
  intros Hwf Hv. destruct (admitted_wf previous event 1 s Hwf Hv) as (_ & _ & Hb); [concrete|done|].
  change (hr_body (admittedRecord previous event 1)) with (hr_body (admittedRecord previous event o)) in Hb.
  unfold sameCanonical. rewrite Hb, sameIdentity_admitted. cbn -[bytesEqual].
  rewrite !Z.eqb_refl. by apply bytes_eqb_spec.
Qed.

Lemma validateAdmission_grounded hub node s w s' w' event :
  hub_grounded hub node s w → hub_grounded hub node s' w' →
  validateAdmission event s' = validateAdmission event s.
Proof. intros [Hh Hn _ _ _ _ _ _] [Hh' Hn' _ _ _ _ _ _]. unfold validateAdmission. by rewrite Hh, Hn, Hh', Hn'. Qed.

(** A known event is answered from its record. *)
Lemma admit_known_event hub node s w event i :
  hub_sound hub node s w → EventProtocol.event_wf event →
  validateAdmission event s = DURABLE_NEW_ADMISSION → (i < 8)%nat →
  isOwned (record_at s i) = true → sameIdentity (record_at s i) event = true →
  sameCanonical (record_at s i) event = true →
  ∃ s', admit_event event (s, w)
      = (mkAdmission EXACT_DUPLICATE i (admissionOrdinal (record_at s i)), (s', w))
    ∧ hub_sound hub node s' w ∧ ∀ j, record_at s' j = record_at s j.
Proof.
  intros Hs Hwf Hv Hi Ho Hid Hc.
  assert (Hk : unknown s event → False).
  { intros Hun. specialize (Hun i Hi Ho). congruence. }
  destruct (admit_cases hub node s w event Hs Hwf) as (res & s' & w' & Hout & ->).
  destruct Hout as [|j s1 _ Hj Hoj Hidj Hs1 Hr|_ Hfull|s1 w1 _ Hun|k o s1 w1 _ Hun|k o s1 w1 _ Ht Hold]; try tauto.
  - congruence.
  - assert (j = i) as ->.
    { destruct (decide (j = i)) as [|Hne]; [done|]. exfalso.
      destruct (hg_distinct _ _ _ _ (proj1 Hs) j i Hj Hi Hne Hoj Ho) as [Hd _]. apply Hd.
      apply sameIdentity_spec in Hid, Hidj. congruence. }
    rewrite Hc. by exists s1.
  - destruct (Hfull i Hi) as (_ & Hf & _). congruence.
  - destruct Hk. intros j Hj Hoj. by apply Hold.
Qed.

Definition event_identity (event : EventProtocol.Event) : EventProtocol.Identity :=
  EventProtocol.mkIdentity (EventProtocol.source event) (EventProtocol.epoch event)
    (EventProtocol.id event).

Lemma admitted_serving hub node s w event i o s1 w1 :
  hub_sound hub node s w → EventProtocol.event_wf event →
  admit_event event (s, w) = (mkAdmission DURABLE_NEW_ADMISSION i o, (s1, w1)) →
  validateAdmission event s = DURABLE_NEW_ADMISSION ∧ (i < 8)%nat ∧ hub_sound hub node s1 w1
  ∧ record_at s1 i = admittedRecord (record_at s i) event o.
Proof.
  intros Hs Hwf E. destruct (admit_cases hub node s w event Hs Hwf) as (res & s' & w' & Ho & E').
  rewrite E in E'. injection E' as Er -> ->.
  destruct Ho as [st _ Hst|j s2 _ _ _ _ _ _|_ _|s2 w2 _ _ _ _ _|k o' s2 w2 _ _ _ _|k o' s2 w2 Hv Ht _ [Hs2 Hr]];
    try (destruct (sameCanonical _ _)); try discriminate Er; try (injection Er as <- ; by destruct Hst).
  injection Er as -> ->. split; [done|]. split; [apply Ht|]. split; [done|].
  rewrite Hr. unfold hub_replaced. by rewrite decide_True.
Qed.

(** C9. An admission is final and idempotent.  Once an event is answered as
    newly admitted in slot [i] under ordinal [o], then after any commands,
    faults and restarts that do not consume it, a ledger that serves answers
    the same event as an exact duplicate with the same slot and the same
    ordinal, and changes no record and no flash cell. *)
Theorem readmission_is_duplicate hub node s w event i o s1 w1 cs s2 w2 :
  hub_sound hub node s w → EventProtocol.event_wf event →
  admit_event event (s, w) = (mkAdmission DURABLE_NEW_ADMISSION i o, (s1, w1)) →
  Forall hub_command_wf cs → Forall (λ c, c ≠ Consume (event_identity event)) cs →
  run_hub_commands hub node cs (s1, w1) = (tt, (s2, w2)) → ledgerHealthy_ s2 = true →
  ∃ s3, admit_event event (s2, w2) = (mkAdmission EXACT_DUPLICATE i o, (s3, w2))
    ∧ hub_sound hub node s3 w2 ∧ ∀ j, record_at s3 j = record_at s2 j.
Proof.
  intros Hs Hwf E Hcw Hcn Er Hh.
  destruct (admitted_serving hub node s w event i o s1 w1 Hs Hwf E) as (Hv & Hi & Hs1 & Hr1).
  destruct (hub_commands_keep hub node i cs (record_at s1) (s1, w1)) as (R' & Hx & HR');
    [done|by rewrite Hr1|done|by apply hub_serving_sound|by rewrite Hr1|].
  rewrite Er in Hx. destruct Hx as [(Hs2 & HR2)|[Hc _]]; cbn [fst snd] in *; [|congruence].
  assert (Hrec : record_at s2 i = admittedRecord (record_at s i) event o).
  { by rewrite HR2, HR', Hr1. }
  destruct (admit_known_event hub node s2 w2 event i) as (s3 & E3 & Hs3 & Hr3); rewrite ?Hrec;
    [done|done| |done|done|apply sameIdentity_admitted|by eapply sameCanonical_admitted|].
  - rewrite <- Hv. eapply validateAdmission_grounded; [apply Hs|apply Hs2].
  - exists s3. by rewrite Hrec in E3.
Qed.

End Durable.

(** The host is handed the events in the order of their admission: what
    [oldestActive] offers is an active record with the least ordinal of all
    active records, and it offers nothing only when there is none. *)
Theorem oldestActive_first (s : Ledger) :
  ledgerHealthy_ s = true →
  match oldestActive s with
  | Some (i, r) =>
      (i < 8)%nat ∧ r = record_at s i ∧ hr_state r = HubState.ACTIVE
      ∧ ∀ j, (j < 8)%nat → hr_state (record_at s j) = HubState.ACTIVE →
          admissionOrdinal r ≤ admissionOrdinal (record_at s j)
  | None => ∀ j, (j < 8)%nat → hr_state (record_at s j) ≠ HubState.ACTIVE
  end.
Proof.
  intros Hh. unfold oldestActive. rewrite Hh. cbn [negb]. change HUB_EVENT_CAPACITY with 8%nat.
  destruct (leastOrdinal_spec (λ i, hr_state (record_at s i) =? HubState.ACTIVE) 8 0 255 s
    eq_refl (or_introl eq_refl)) as [(-> & _ & Hno)|(k & -> & Hk & Hp & Hmin & _)].
  - intros j Hj. apply Z.eqb_neq, Hno. lia.
  - rewrite (proj2 (Nat.eqb_neq k 255)) by lia. zbool. split_and!; try done.
    intros j Hj Ha. apply Hmin; [lia|by apply Z.eqb_eq].
Qed.

(** ** A flash of hub cells

    The blobs last written, and a list that says how the next operations go:
    as in [EventIdentity.Flash], a write may be refused, torn, or stored with
    its answer lost. *)

Record Shelf := mkShelf {
  shelf_cells : list (option nat * CopySlot * list Z);
  shelf_faults : list EventIdentity.Fault
}.

Fixpoint find_blob (l : list (option nat * CopySlot * list Z)) (k : option nat) (c : CopySlot)
    : option (list Z) :=
  match l with
  | [] => None
  | (j, d, b) :: l' => if bool_decide ((k, c) = (j, d)) then Some b else find_blob l' k c
  end.

Definition shelf_blob (f : Shelf) (k : option nat) (c : CopySlot) : option (list Z) :=
  map u8 <$> find_blob (shelf_cells f) k c.

Definition shelf_put (f : Shelf) (k : option nat) (c : CopySlot) (b : list Z) : Shelf :=
  mkShelf ((k, c, b) :: shelf_cells f) (shelf_faults f).

Definition shelf_fault (f : Shelf) : EventIdentity.Fault * Shelf :=
  match shelf_faults f with
  | [] => (EventIdentity.FINE, f)
  | x :: l => (x, mkShelf (shelf_cells f) l)
  end.

Definition shelf_read (k : option nat) (c : CopySlot) (out : list Z)
    : st Shelf (StorageResult * list Z * Z) := λ f,
  let (fault, f) := shelf_fault f in
  match fault, shelf_blob f k c with
  | EventIdentity.OFFLINE, _ => (S_UNAVAILABLE, out, 0, f)
  | _, None => (S_MISSING, out, 0, f)
  | _, Some b =>
      if bool_decide (length b = length out)
      then (S_OK, b, Z.of_nat (length b), f) else (EventIdentity.S_ERROR, out, 0, f)
  end.

Definition shelf_write (k : option nat) (c : CopySlot) (b : list Z) : st Shelf StorageResult := λ f,
  let (fault, f) := shelf_fault f in
  match fault with
  | EventIdentity.OFFLINE => (S_UNAVAILABLE, f)
  | EventIdentity.REFUSED => (EventIdentity.S_ERROR, f)
  | EventIdentity.TORN => (EventIdentity.S_ERROR, shelf_put f k c (take 14 b))
  | EventIdentity.ANSWER_LOST => (EventIdentity.S_ERROR, shelf_put f k c b)
  | EventIdentity.FINE => (S_OK, shelf_put f k c b)
  end.

#[export] Instance shelf_storage : Storage Shelf := {
  readHubMetadata := shelf_read None;
  writeHubMetadata := shelf_write None;
  readHubEventCopy i := shelf_read (Some i);
  writeHubEventCopy i := shelf_write (Some i);
  commit f :=
    let (fault, f) := shelf_fault f in
    (match fault with
     | EventIdentity.FINE => S_OK
     | EventIdentity.OFFLINE => S_UNAVAILABLE
     | _ => EventIdentity.S_ERROR
     end, f)
}.

Lemma shelf_readCell k c out : readCell k c out = shelf_read k c out.
Proof. by destruct k. Qed.

Lemma shelf_writeCell k c b : writeCell k c b = shelf_write k c b.
Proof. by destruct k. Qed.

Lemma shelf_fault_blob f k c : shelf_blob (shelf_fault f).2 k c = shelf_blob f k c.
Proof. unfold shelf_fault. by destruct (shelf_faults f). Qed.

Lemma shelf_blob_bytes f k c b : shelf_blob f k c = Some b → is_byte_list b.
Proof. unfold shelf_blob. intros (b' & _ & ->)%fmap_Some. apply EventIdentity.map_u8_bytes. Qed.

Lemma shelf_put_blob f k c b k' c' :
  is_byte_list b →
  shelf_blob (shelf_put f k c b) k' c'
  = if bool_decide ((k', c') = (k, c)) then Some b else shelf_blob f k' c'.
Proof.
  intros Hb. unfold shelf_blob, shelf_put. cbn [shelf_cells find_blob].
  case_bool_decide; [|done]. simpl. by rewrite EventIdentity.map_u8_id.
Qed.

Lemma torn_unreadable k b : unreadable k (Some (take 14 b)).
Proof.
  destruct k; unfold unreadable, record_of, metadata_of, decodeHubRecord, decodeHubMetadata, validateEnvelope;
    (rewrite (proj2 (Nat.eqb_neq _ _)); [done|]); rewrite length_take;
    unfold HUB_RECORD_SIZE, HUB_METADATA_SIZE; lia.
Qed.

#[export, refine] Instance shelf_durable : DurableCells Shelf := {
  stored := shelf_blob
}.
Proof.
  - intros f k c b. apply shelf_blob_bytes.
  - intros k c out f Hout. rewrite shelf_readCell. unfold shelf_read.
    destruct (shelf_fault f) as [fault f']. destruct (shelf_blob f' k c) as [b|] eqn:E.
    + apply shelf_blob_bytes in E. destruct fault, (bool_decide_reflect (length b = length out)); done.
    + by destruct fault.
  - intros k c out f k' c'. rewrite shelf_readCell. unfold shelf_read.
    pose proof (shelf_fault_blob f k' c') as Hf. destruct (shelf_fault f) as [fault f'].
    destruct fault, (shelf_blob f' k c); try case_bool_decide; done.
  - intros k c out f Hout. rewrite shelf_readCell. unfold shelf_read.
    pose proof (shelf_fault_blob f k c) as Hf. destruct (shelf_fault f) as [fault f'].
    cbn [snd] in Hf. rewrite <- Hf, Hout. destruct (shelf_blob f' k c) as [b|]; [|destruct fault; auto].
    destruct (bool_decide_reflect (length b = cellSize k)) as [E|E];
      destruct fault; simpl; rewrite ?E; auto.
  - intros k c b f k' c' Hne. rewrite shelf_writeCell. unfold shelf_write.
    pose proof (shelf_fault_blob f k' c') as Hf. destruct (shelf_fault f) as [fault f'].
    cbn [snd] in Hf. rewrite <- Hf.
    assert (Hput : ∀ b', shelf_blob (shelf_put f' k c b') k' c' = shelf_blob f' k' c').
    { intros b'. unfold shelf_blob, shelf_put. cbn [shelf_cells find_blob].
      by rewrite bool_decide_eq_false_2. }
    by destruct fault; cbn [snd]; rewrite ?Hput.
  - intros k c b f Hb. rewrite shelf_writeCell. unfold shelf_write.
    pose proof (shelf_fault_blob f k c) as Hf. destruct (shelf_fault f) as [fault f'].
    cbn [snd] in Hf. rewrite <- Hf.
    destruct fault; cbn [snd]; auto; rewrite shelf_put_blob by bytes; decide_eqs; [by auto| |by auto].
    right. right. apply torn_unreadable.
  - intros f k c. simpl. pose proof (shelf_fault_blob f k c) as Hf.
    by destruct (shelf_fault f).
Defined.

(** ** Witnesses: a Hub that boots, admits an event, and restarts *)

Definition sampleEvent : EventProtocol.Event :=
  EventProtocol.mkEvent 17 1 1 EventProtocol.Family.BUTTON 5 9 0 60 1
    [3; 0; 0; 0; 0; 0; 0; 0; 0; 0; 0; 0].

Lemma sampleEvent_ok : EventProtocol.event_wf sampleEvent.
Proof. unfold EventProtocol.event_wf. split_and!; concrete. Qed.

Definition started : Ledger * Shelf := (recover 1 17 (newLedger, mkShelf [] [])).2.

Definition admitted_one : Ledger * Shelf := (admit_event sampleEvent started).2.

Lemma started_sound : hub_sound 1 17 started.1 started.2.
Proof.
  pose proof (hub_first_boot_cases 1 17 newLedger (mkShelf [] []) (λ _ _, eq_refl)) as Hf.
  assert (E : (recover 1 17 (newLedger, mkShelf [] [])).1 = READY) by (vm_compute; reflexivity).
  unfold started. destruct (recover 1 17 (newLedger, mkShelf [] [])) as [st [s w]].
  cbn [fst snd] in *. subst st. by destruct Hf as [(_&?&_)|[? _]].
Qed.

Lemma admitted_one_run :
  admit_event sampleEvent (started.1, started.2)
  = (mkAdmission DURABLE_NEW_ADMISSION 0 1, (admitted_one.1, admitted_one.2)).
Proof. vm_compute. reflexivity. Qed.

Lemma admitted_one_facts :
  hub_sound 1 17 admitted_one.1 admitted_one.2
  ∧ record_at admitted_one.1 0 = admittedRecord (record_at started.1 0) sampleEvent 1.
Proof.
  destruct (admitted_serving 1 17 started.1 started.2 sampleEvent 0 1 _ _ started_sound
    sampleEvent_ok admitted_one_run) as (_ & _ & Hs & Hr).
  exact (conj Hs Hr).
Qed.

Lemma hub_first_boot_witness :
  (READY = READY ∧ hub_sound 1 17 started.1 started.2 ∧ ordinalReady_ started.1 = true
     ∧ ∀ i, (i < 8)%nat → record_at started.1 i = emptyRecord)
  ∨ (READY ≠ READY ∧ ledgerHealthy_ started.1 = false).
Proof.
  apply (hub_first_boot 1 17 newLedger (mkShelf [] []) READY started.1 started.2);
    [done|vm_compute; reflexivity].
Defined.

Lemma admit_refines_witness :
  admit_outcome 1 17 started.1 started.2 sampleEvent
    (admit_event sampleEvent (started.1, started.2)).1
    (admit_event sampleEvent (started.1, started.2)).2.1
    (admit_event sampleEvent (started.1, started.2)).2.2.
Proof. apply (admit_refines 1 17); [apply started_sound|apply sampleEvent_ok]. Defined.

Lemma consume_refines_witness :
  consume_outcome 1 17 admitted_one.1 admitted_one.2 (event_identity sampleEvent)
    (consume (event_identity sampleEvent) (admitted_one.1, admitted_one.2)).1
    (consume (event_identity sampleEvent) (admitted_one.1, admitted_one.2)).2.1
    (consume (event_identity sampleEvent) (admitted_one.1, admitted_one.2)).2.2
  ∧ (consume (event_identity sampleEvent) (admitted_one.1, admitted_one.2)).1
    = mkConsume CONSUMED 0.
Proof.
  split; [|vm_compute; reflexivity]. apply (consume_refines 1 17), admitted_one_facts.
Defined.

(** The metadata cells cannot be read at this restart. *)
Definition blind : Shelf :=
  mkShelf (shelf_cells admitted_one.2)
    (replicate 16 EventIdentity.FINE ++ [EventIdentity.OFFLINE]).

Lemma shelf_same_cells f l : same_cells f (mkShelf (shelf_cells f) l).
Proof. intros k c. reflexivity. Qed.

Lemma blind_custody : hub_custody blind (record_at admitted_one.1).
Proof.
  exact (hub_custody_same _ _ _ (shelf_same_cells admitted_one.2 _)
    (hub_grounded_custody 1 17 _ _ (proj1 (proj1 admitted_one_facts)))).
Qed.

Lemma hub_recover_restores_witness :
  let '(st, (s', w')) := recover 1 17 (newLedger, blind) in
  st = ORDINAL_UNAVAILABLE ∧
  ((hub_sound 1 17 s' w' ∧ (∀ i, (i < 8)%nat → record_at s' i = record_at admitted_one.1 i)
    ∧ (st = READY ∧ ordinalReady_ s' = true ∨ st = ORDINAL_UNAVAILABLE ∧ ordinalReady_ s' = false))
   ∨ (st ≠ READY ∧ ledgerHealthy_ s' = false ∧ hub_custody w' (record_at admitted_one.1))).
Proof.
  assert (E : (recover 1 17 (newLedger, blind)).1 = ORDINAL_UNAVAILABLE) by (vm_compute; reflexivity).
  destruct (recover 1 17 (newLedger, blind)) as [st [s' w']] eqn:Er. split; [exact E|].
  exact (hub_recover_restores 1 17 (record_at admitted_one.1) newLedger blind st s' w' blind_custody Er).
Defined.

Definition sampleCommands : list HubCommand :=
  [Restart; Admit sampleEvent; Consume (EventProtocol.mkIdentity 17 5 8); Restart].

Lemma sampleCommands_ok :
  Forall hub_command_wf sampleCommands
  ∧ Forall (λ c, c ≠ Consume (event_identity sampleEvent)) sampleCommands.
Proof. split; repeat constructor; try apply sampleEvent_ok; discriminate. Qed.

Lemma active_event_survives_witness :
  ∃ R', hub_serving 1 17 R' (run_hub_commands 1 17 sampleCommands (admitted_one.1, admitted_one.2)).2
    ∧ R' 0%nat = record_at admitted_one.1 0.
Proof.
  destruct sampleCommands_ok as [Hw Hc]. destruct admitted_one_facts as [Hs Hr].
  apply (active_event_survives 1 17 0); [exact Hw| |lia|exact (hub_serving_sound 1 17 _ _ Hs)|];
    rewrite Hr; [exact Hc|reflexivity].
Defined.

Lemma readmission_is_duplicate_witness :
  let x := (run_hub_commands 1 17 sampleCommands (admitted_one.1, admitted_one.2)).2 in
  ledgerHealthy_ x.1 = true ∧
  ∃ s3, admit_event sampleEvent (x.1, x.2) = (mkAdmission EXACT_DUPLICATE 0 1, (s3, x.2))
    ∧ hub_sound 1 17 s3 x.2 ∧ ∀ j, record_at s3 j = record_at x.1 j.
Proof.
  assert (Hh : ledgerHealthy_
    (run_hub_commands 1 17 sampleCommands (admitted_one.1, admitted_one.2)).2.1 = true)
    by (vm_compute; reflexivity).
  destruct (run_hub_commands 1 17 sampleCommands (admitted_one.1, admitted_one.2))
    as [[] [s2 w2]] eqn:Er. split; [exact Hh|].
  exact (readmission_is_duplicate 1 17 started.1 started.2 sampleEvent 0 1 admitted_one.1
    admitted_one.2 sampleCommands s2 w2 started_sound sampleEvent_ok admitted_one_run
    (proj1 sampleCommands_ok) (proj2 sampleCommands_ok) Er Hh).
Defined.

Lemma oldestActive_first_witness :
  match oldestActive admitted_one.1 with
  | Some (i, r) =>
      (i < 8)%nat ∧ r = record_at admitted_one.1 i ∧ hr_state r = HubState.ACTIVE
      ∧ ∀ j, (j < 8)%nat → hr_state (record_at admitted_one.1 j) = HubState.ACTIVE →
          admissionOrdinal r ≤ admissionOrdinal (record_at admitted_one.1 j)
  | None => ∀ j, (j < 8)%nat → hr_state (record_at admitted_one.1 j) ≠ HubState.ACTIVE
  end.
Proof. apply oldestActive_first. vm_compute. reflexivity. Defined.

End LedgerLife.
