(* ===== verification/Delivery.v ===== *)
(** Delivery of the Node's queued events, lib/node_event_delivery: [Policy]
    meters the lifetime of every queued event in durable steps of a minute,
    [Controller] takes the head of the queue through its attempts.

    The controller and its policy keep pointers to the same store, observer
    and runtime diagnostics.  The store and the observer are therefore one
    field each of the state below, and the null tests of the source are the
    flags [policyBound_], [bound_] and the option of the observer; the
    diagnostics object is the one the store points to, and [diagnosed_] says
    whether the controller was given it as well. *)

From S2P Require Import Prelude Wire EventWire Copies Records Identity Diagnostics NodeStore.

Module NodeEventDelivery.

Import EventRecords.

Import NodeEventStore (Store, Storage, record_at, slot_at, recordAt, queuedAt, healthy_,
  MutationStatus, MUTATION_OK, NODE_EVENT_CAPACITY).

(* node_event_delivery.h:10 CHECKPOINT_SECONDS *)
Definition CHECKPOINT_SECONDS : Z := 60.

(* node_event_delivery.h:11 CHECKPOINT_MILLISECONDS *)
Definition CHECKPOINT_MILLISECONDS : Z := 60000.

(* node_event_delivery.h:13-21 Status *)
Inductive Status :=
  READY | STORE_DEGRADED | DEBIT_FAILURE | CHECKPOINT_FAILURE | EXPIRY_FAILURE
| POLICY_INVALID_SLOT | POLICY_NOT_QUEUED.

(* node_event_delivery.h:23-31 AttemptResult *)
Inductive AttemptResult :=
  ATTEMPT_ARMED | ATTEMPT_EXHAUSTED | ATTEMPT_EXPIRED | ATTEMPT_NOT_QUEUED
| ATTEMPT_INVALID_SLOT | ATTEMPT_STORAGE_FAILURE | ATTEMPT_DEGRADED.

(* node_event_delivery.h:184-188 SlotRuntime *)
Record SlotRuntime := mkRuntime {
  tracked : bool;
  baselineMilliseconds : Z;
  uncommittedMilliseconds : Z
}.

Definition zeroRuntime : SlotRuntime := mkRuntime false 0 0.

(* node_event_delivery.h:213-217 = Policy members *)
Record Policy := mkPolicy {
  policyBound_ : bool;
  runtime_ : list SlotRuntime;
  ready_ : bool;
  policyStatus_ : Status
}.

(* node_event_delivery.h:220 ADMISSION_TIMEOUT_MILLISECONDS *)
Definition ADMISSION_TIMEOUT_MILLISECONDS : Z := 2500.

(* node_event_delivery.h:221 MAX_BACKOFF_JITTER_MILLISECONDS *)
Definition MAX_BACKOFF_JITTER_MILLISECONDS : Z := 250.

(* node_event_delivery.h:223-226 RuntimeState *)
Inductive DeliveryState :=
  D_QUEUED | D_READY | TX_PREPARE | TX | WAIT_ADMISSION | BACKOFF
| D_RELEASED | D_FAILED | D_EXPIRED.

(* node_event_delivery.h:228 RadioActionType *)
Inductive RadioActionType := NONE | TRANSMIT | RECEIVE.

(* node_event_delivery.h:229-232 ControllerStatus *)
Inductive ControllerStatus :=
  OK | NO_ACTIVE_EVENT | INVALID_CONFIGURATION | INVALID_STATE | SEQUENCE_FAILURE
| ENCODE_FAILURE | POLICY_FAILURE | STORAGE_FAILURE | DEGRADED.

(* node_event_delivery.h:234-238 RadioAction *)
Record RadioAction := mkAction {
  action_type : RadioActionType;
  action_bytes : list Z;
  action_length : Z
}.

(* node_event_delivery.h:240-243 ControllerResult *)
Record ControllerResult := mkResult {
  result_status : ControllerStatus;
  result_action : RadioAction
}.

#[global] Instance Status_eq_dec : EqDecision Status.
Proof. solve_decision. Defined.

#[global] Instance AttemptResult_eq_dec : EqDecision AttemptResult.
Proof. solve_decision. Defined.

#[global] Instance DeliveryState_eq_dec : EqDecision DeliveryState.
Proof. solve_decision. Defined.

#[global] Instance ControllerStatus_eq_dec : EqDecision ControllerStatus.
Proof. solve_decision. Defined.

(* node_event_delivery.h:526 Controller::result *)
Definition result (status : ControllerStatus) : ControllerResult :=
  mkResult status (mkAction NONE (zeros (Z.to_nat Protocol.MAX_PACKET_SIZE)) 0).

Definition receiving (r : ControllerResult) : ControllerResult :=
  mkResult (result_status r)
    (mkAction RECEIVE (action_bytes (result_action r)) (action_length (result_action r))).

(* node_event_delivery.h:523-525 Controller::receiveResult *)
Definition receiveResult : ControllerResult := receiving (result OK).

(* node_event_delivery.h:538-549 = Controller members *)
Record Controller := mkController {
  store_ : Store;
  policy_ : Policy;
  observer_ : option EventTxDiagnostics.Observer;
  bound_ : bool;
  diagnosed_ : bool;
  source_ : Z;
  destination_ : Z;
  activeSlot_ : nat;
  active_ : bool;
  initialized_ : bool;
  degraded_ : bool;
  correlationValid_ : bool;
  state_ : DeliveryState;
  deadlineOrigin_ : Z;
  deadlineDuration_ : Z;
  attemptEvent_ : EventProtocol.Event;
  degradedResult_ : ControllerResult
}.

#[global] Instance eta_Runtime : RecEta SlotRuntime := λ r,
  mkRuntime (tracked r) (baselineMilliseconds r) (uncommittedMilliseconds r).

#[global] Instance eta_Policy : RecEta Policy := λ r,
  mkPolicy (policyBound_ r) (runtime_ r) (ready_ r) (policyStatus_ r).

#[global] Instance eta_Controller : RecEta Controller := λ r,
  mkController (store_ r) (policy_ r) (observer_ r) (bound_ r) (diagnosed_ r) (source_ r)
    (destination_ r) (activeSlot_ r) (active_ r) (initialized_ r) (degraded_ r)
    (correlationValid_ r) (state_ r) (deadlineOrigin_ r) (deadlineDuration_ r)
    (attemptEvent_ r) (degradedResult_ r).

Definition zeroPolicy (bound : bool) : Policy :=
  mkPolicy bound (replicate NODE_EVENT_CAPACITY zeroRuntime) false STORE_DEGRADED.

(** A controller that was never recovered, beside the store [store]. *)
Definition newController (store : Store) : Controller :=
  mkController store (zeroPolicy false) None false false 0 0 255 false false false false
    D_QUEUED 0 0 EventProtocol.zeroEvent (result OK).

(** ** Queries *)

Definition runtime_at (slot : nat) (s : Controller) : SlotRuntime :=
  nth slot (runtime_ (policy_ s)) zeroRuntime.

Definition set_runtime (slot : nat) (r : SlotRuntime) (s : Controller) : Controller :=
  s <| policy_ := (policy_ s) <| runtime_ := <[slot := r]> (runtime_ (policy_ s)) |> |>.

(** [record != nullptr && record->state == QUEUED] for the record of a slot. *)
Definition queued (slot : nat) (s : Controller) : bool :=
  match recordAt slot (store_ s) with
  | Some r => nr_state r =? NodeState.QUEUED
  | None => false
  end.

(* node_event_delivery.h:132-141 Policy::effectiveRemainingSeconds *)
Definition policyRemainingSeconds (slot : nat) (s : Controller) : Z :=
  if negb (ready_ (policy_ s)) || negb (policyBound_ (policy_ s))
     || (NODE_EVENT_CAPACITY <=? slot)%nat then 0 else
  if negb (queued slot s) || negb (tracked (runtime_at slot s)) then 0 else
  let elapsedSeconds := uncommittedMilliseconds (runtime_at slot s) / 1000 in
  let remaining := remainingActiveSeconds (record_at (store_ s) slot) in
  if remaining <=? elapsedSeconds then 0 else u32 (remaining - u32 elapsedSeconds).

(* node_event_delivery.h:143-152 Policy::eligible *)
Definition eligible (slot : nat) (s : Controller) : bool :=
  if negb (ready_ (policy_ s)) || negb (policyBound_ (policy_ s)) || negb (healthy_ (store_ s))
     || (NODE_EVENT_CAPACITY <=? slot)%nat || negb (tracked (runtime_at slot s)) then false
  else queued slot s
       && (uncommittedMilliseconds (runtime_at slot s)
           <? u64 (remainingActiveSeconds (record_at (store_ s) slot) * 1000)).

(* node_event_delivery.h:466-468 Controller::record *)
Definition record (s : Controller) : option NodeRecord :=
  if active_ s && bound_ s then recordAt (activeSlot_ s) (store_ s) else None.

(* node_event_delivery.h:469 Controller::usable *)
Definition usable (s : Controller) : bool :=
  initialized_ s && negb (degraded_ s) && bound_ s && healthy_ (store_ s) && ready_ (policy_ s).

(* node_event_delivery.h:470 Controller::terminal *)
Definition terminal (s : Controller) : bool :=
  bool_decide (state_ s = D_RELEASED) || bool_decide (state_ s = D_FAILED)
  || bool_decide (state_ s = D_EXPIRED).

(* node_event_delivery.h:471-474 Controller::headStillAuthoritative *)
Definition headStillAuthoritative (s : Controller) : bool :=
  match queuedAt 0 (store_ s) with
  | Some (_, slot) =>
      (slot =? activeSlot_ s)%nat
      && match record s with Some r => nr_state r =? NodeState.QUEUED | None => false end
  | None => false
  end.

(* node_event_delivery.h:465 Controller::elapsed *)
Definition elapsed (now thence : Z) : Z := u32 (now - thence).

(* node_event_delivery.h:432-434 Controller::effectiveRemainingSeconds *)
Definition effectiveRemainingSeconds (s : Controller) : Z :=
  if active_ s then policyRemainingSeconds (activeSlot_ s) s else 0.

(* node_event_delivery.h:522 Controller::clearAttempt *)
Definition clearAttempt (s : Controller) : Controller :=
  mkController (store_ s) (policy_ s) (observer_ s) (bound_ s) (diagnosed_ s) (source_ s)
    (destination_ s) (activeSlot_ s) (active_ s) (initialized_ s) (degraded_ s) false
    (state_ s) 0 0 EventProtocol.zeroEvent (degradedResult_ s).

(* node_event_delivery.h:475-478 Controller::loadHead *)
Definition loadHead (s : Controller) : Controller :=
  match (if bound_ s then queuedAt 0 (store_ s) else None) with
  | Some (_, slot) =>
      s <| active_ := true |> <| activeSlot_ := slot |> <| state_ := D_QUEUED |>
  | None => s
  end.

(* node_event_delivery.h:532-536 Controller::reset *)
Definition reset (s : Controller) : Controller :=
  mkController (store_ s) (policy_ s) (observer_ s) false (diagnosed_ s) 0 0 255 false false
    false false D_QUEUED 0 0 EventProtocol.zeroEvent (result OK).

(** ** The sources of sequence numbers and jitter *)

(** [next] is given what its argument holds. *)
(* node_event_delivery.h:245-249 SequenceSource *)
Class SequenceSource (W : Type) := {
  next : Z → st W (bool * Z)
}.

(* node_event_delivery.h:251-255 JitterSource *)
Class JitterSource (W : Type) := {
  nextMilliseconds : st W Z
}.

Section Policy.

Context {W : Type} `{Storage W}.

Abbreviation M := (st (Controller * W)).

(** A call on the store, which works on the same outside. *)
Definition on_store {X} (m : st (Store * W) X) : M X :=
  zoom (λ s, (store_ s.1, s.2)) (λ t s, (s.1 <| store_ := t.1 |>, t.2)) m.

(** A call on the observer, when there is one. *)
Definition observe (f : EventTxDiagnostics.Observer → EventTxDiagnostics.Observer) : M unit :=
  update (λ s, s <| observer_ := f <$> observer_ s |>).

Definition on_policy (f : Policy → Policy) : M unit :=
  update (λ s, s <| policy_ := f (policy_ s) |>).

(* node_event_delivery.h:201-205 Policy::fail *)
Definition fail (status : Status) : M Status :=
  on_policy (λ p, mkPolicy (policyBound_ p) (runtime_ p) false status) ;;;
  ret status.

(** The loop of [recover] that debits every queued event; [false] is the early
    return. *)
(* node_event_delivery.h:43-56 = Policy::recover, the loop over slots *)
Fixpoint debitSlots (n slot : nat) (now : Z) : M bool :=
  match n with
  | O => ret true
  | S m =>
      found <~ this (λ s, recordAt slot (store_ s)) ;;
      match found with
      | None => debitSlots m (S slot) now
      | Some r =>
          if negb (nr_state r =? NodeState.QUEUED) then debitSlots m (S slot) now else
          mutation <~ on_store
            (if remainingActiveSeconds r <=? CHECKPOINT_SECONDS
             then NodeEventStore.markExpired slot
             else NodeEventStore.checkpointRemaining slot
                    (u32 (remainingActiveSeconds r - CHECKPOINT_SECONDS))) ;;
          if negb (bool_decide (mutation = MUTATION_OK)) then
            fail DEBIT_FAILURE ;;;
            ret false
          else
          state <~ this (λ s, nr_state (record_at (store_ s) slot)) ;;
          (if state =? NodeState.EXPIRED
           then observe (EventTxDiagnostics.note EventTxDiagnostics.EXPIRED_QUEUED now)
           else ret tt) ;;;
          debitSlots m (S slot) now
      end
  end.

(* node_event_delivery.h:190-199 Policy::initializeTrackedSlots *)
Fixpoint initializeTrackedSlots (n slot : nat) (now : Z) (s : Controller) : Controller :=
  match n with
  | O => s
  | S m =>
      initializeTrackedSlots m (S slot) now
        (if queued slot s then set_runtime slot (mkRuntime true now 0) s else s)
  end.

(* node_event_delivery.h:35-62 Policy::recover *)
Definition policyRecover (now : Z) : M Status :=
  update (λ s, s <| policy_ := zeroPolicy false |>) ;;;
  observe (EventTxDiagnostics.clock now) ;;;
  on_policy (λ p, p <| policyBound_ := true |>) ;;;
  healthy <~ this (λ s, healthy_ (store_ s)) ;;
  if negb healthy then fail STORE_DEGRADED else
  debited <~ debitSlots NODE_EVENT_CAPACITY 0 now ;;
  if negb debited then ret DEBIT_FAILURE else
  update (initializeTrackedSlots NODE_EVENT_CAPACITY 0 now) ;;;
  on_policy (λ p, mkPolicy (policyBound_ p) (runtime_ p) true READY) ;;;
  ret READY.

(* node_event_delivery.h:64-79 Policy::trackEnqueued *)
Definition policyTrackEnqueued (slot : nat) (now : Z) : M Status :=
  s <~ this id ;;
  if negb (ready_ (policy_ s)) || negb (policyBound_ (policy_ s)) || negb (healthy_ (store_ s))
  then fail STORE_DEGRADED else
  if (NODE_EVENT_CAPACITY <=? slot)%nat then ret POLICY_INVALID_SLOT else
  if negb (queued slot s) then ret POLICY_NOT_QUEUED else
  observe (EventTxDiagnostics.clock now) ;;;
  update (set_runtime slot (mkRuntime true now 0)) ;;;
  ret READY.

(** One turn of the [while] loop of [service]: what it does and whether the
    loop goes on. *)
Inductive Turn := CONTINUE | LEAVE | RETURN (status : Status).

(* node_event_delivery.h:103-126 = Policy::service, one turn of the inner loop *)
Definition serviceTurn (slot : nat) : M Turn :=
  s <~ this id ;;
  let runtime := runtime_at slot s in
  let r := record_at (store_ s) slot in
  if negb (queued slot s) then
    update (set_runtime slot zeroRuntime) ;;;
    ret LEAVE
  else if (CHECKPOINT_SECONDS <? remainingActiveSeconds r)
          && (CHECKPOINT_MILLISECONDS <=? uncommittedMilliseconds runtime) then
    mutation <~ on_store (NodeEventStore.checkpointRemaining slot
                  (u32 (remainingActiveSeconds r - CHECKPOINT_SECONDS))) ;;
    if negb (bool_decide (mutation = MUTATION_OK)) then
      status <~ fail CHECKPOINT_FAILURE ;;
      ret (RETURN status)
    else
    update (λ s, set_runtime slot (runtime <| uncommittedMilliseconds :=
      u64 (uncommittedMilliseconds runtime - CHECKPOINT_MILLISECONDS) |>) s) ;;;
    ret CONTINUE
  else if u64 (remainingActiveSeconds r * 1000) <=? uncommittedMilliseconds runtime then
    mutation <~ on_store (NodeEventStore.markExpired slot) ;;
    if negb (bool_decide (mutation = MUTATION_OK)) then
      status <~ fail EXPIRY_FAILURE ;;
      ret (RETURN status)
    else
    update (set_runtime slot zeroRuntime) ;;;
    ret LEAVE
  else ret LEAVE.

(** The [while] loop, with the number of turns it may take; [None] when it has
    left the loop. *)
(* node_event_delivery.h:102-127 = Policy::service, the inner loop *)
Fixpoint serviceLoop (turns slot : nat) : M (option Status) :=
  turn <~ serviceTurn slot ;;
  match turn with
  | LEAVE => ret None
  | RETURN status => ret (Some status)
  | CONTINUE =>
      match turns with
      | O => ret None
      | S m => serviceLoop m slot
      end
  end.

(** A turn that goes on takes a minute from the record, so this many suffice. *)
Definition serviceTurns (slot : nat) (s : Controller) : nat :=
  Z.to_nat (remainingActiveSeconds (record_at (store_ s) slot) / CHECKPOINT_SECONDS).

(* node_event_delivery.h:87-127 = Policy::service, one slot *)
Definition serviceSlot (slot : nat) (now : Z) : M (option Status) :=
  s <~ this id ;;
  let runtime := runtime_at slot s in
  if negb (queued slot s) then
    update (set_runtime slot zeroRuntime) ;;;
    ret None
  else if negb (tracked runtime) then
    update (set_runtime slot (mkRuntime true now 0)) ;;;
    ret None
  else
  let elapsed := u32 (now - baselineMilliseconds runtime) in
  update (set_runtime slot (mkRuntime (tracked runtime) now
    (u64 (uncommittedMilliseconds runtime + elapsed)))) ;;;
  serviceLoop (serviceTurns slot s) slot.

(* node_event_delivery.h:86-129 = Policy::service, the loop over slots *)
Fixpoint serviceSlots (n slot : nat) (now : Z) : M Status :=
  match n with
  | O => ret READY
  | S m =>
      left <~ serviceSlot slot now ;;
      match left with
      | Some status => ret status
      | None => serviceSlots m (S slot) now
      end
  end.

(* node_event_delivery.h:81-130 Policy::service *)
Definition policyService (now : Z) : M Status :=
  observe (EventTxDiagnostics.clock now) ;;;
  s <~ this id ;;
  if negb (ready_ (policy_ s)) || negb (policyBound_ (policy_ s)) || negb (healthy_ (store_ s))
  then fail STORE_DEGRADED else
  serviceSlots NODE_EVENT_CAPACITY 0 now.

(* node_event_delivery.h:154-178 Policy::armAttempt *)
Definition policyArmAttempt (slot : nat) (now : Z) : M AttemptResult :=
  ready <~ this (λ s, ready_ (policy_ s)) ;;
  if negb ready then ret ATTEMPT_DEGRADED else
  serviced <~ policyService now ;;
  if negb (bool_decide (serviced = READY)) then ret ATTEMPT_STORAGE_FAILURE else
  if (NODE_EVENT_CAPACITY <=? slot)%nat then ret ATTEMPT_INVALID_SLOT else
  found <~ this (λ s, recordAt slot (store_ s)) ;;
  match found with
  | None => ret ATTEMPT_EXPIRED
  | Some r =>
      if nr_state r =? NodeState.EXPIRED then ret ATTEMPT_EXPIRED else
      if negb (nr_state r =? NodeState.QUEUED) then ret ATTEMPT_NOT_QUEUED else
      ok <~ this (eligible slot) ;;
      if negb ok then ret ATTEMPT_EXPIRED else
      armed <~ on_store (NodeEventStore.armAttempt slot) ;;
      match armed with
      | NodeEventStore.ARMED => ret ATTEMPT_ARMED
      | NodeEventStore.EXHAUSTED => ret ATTEMPT_EXHAUSTED
      | NodeEventStore.ATTEMPT_INVALID_SLOT => ret ATTEMPT_INVALID_SLOT
      | NodeEventStore.NOT_QUEUED => ret ATTEMPT_NOT_QUEUED
      | NodeEventStore.ATTEMPT_STORAGE_FAILURE =>
          fail STORE_DEGRADED ;;;
          ret ATTEMPT_STORAGE_FAILURE
      | NodeEventStore.ATTEMPT_DEGRADED =>
          fail STORE_DEGRADED ;;;
          ret ATTEMPT_DEGRADED
      end
  end.

End Policy.

Section Controller.

Context {W : Type} `{Storage W} `{EventIdentity.EntropySource W} `{SequenceSource W}
  `{JitterSource W}.

Abbreviation M := (st (Controller * W)).

(** A call on the diagnostics object, when the controller has it. *)
Definition diagnose (f : RuntimeState.State → RuntimeState.State) : M unit :=
  update (λ s, if diagnosed_ s
    then s <| store_ := (store_ s) <| NodeEventStore.diagnostics_ :=
                f <$> NodeEventStore.diagnostics_ (store_ s) |> |>
    else s).

(* node_event_delivery.h:440-442 Controller::note *)
Definition note (counter : EventTxDiagnostics.Counter) (now : Z) : M unit :=
  observe (EventTxDiagnostics.note counter now).

(** The counter of an expiry in a state. *)
(* node_event_delivery.h:451-460 = Controller::changeState, the counter of an expiry *)
Definition expiryCounter (state : DeliveryState) : option EventTxDiagnostics.Counter :=
  match state with
  | D_QUEUED => Some EventTxDiagnostics.EXPIRED_QUEUED
  | D_READY => Some EventTxDiagnostics.EXPIRED_READY
  | TX_PREPARE => Some EventTxDiagnostics.EXPIRED_PREPARE
  | TX => Some EventTxDiagnostics.EXPIRED_TX
  | WAIT_ADMISSION => Some EventTxDiagnostics.EXPIRED_WAIT
  | BACKOFF => Some EventTxDiagnostics.EXPIRED_BACKOFF
  | _ => None
  end.

(* node_event_delivery.h:443-462 = Controller::changeState, the counter *)
Definition changeCounter (next : DeliveryState) (s : Controller)
    : option EventTxDiagnostics.Counter :=
  if bool_decide (next = state_ s) then None else
  match next with
  | TX => Some EventTxDiagnostics.TX_ENTERED
  | WAIT_ADMISSION => Some EventTxDiagnostics.WAIT_ENTERED
  | BACKOFF => Some EventTxDiagnostics.BACKOFF_ENTERED
  | D_READY =>
      match record s with
      | Some r => if 0 <? attemptsUsed r then Some EventTxDiagnostics.RETRY_READY else None
      | None => None
      end
  | D_EXPIRED => expiryCounter (state_ s)
  | _ => None
  end.

(* node_event_delivery.h:443-464 Controller::changeState *)
Definition changeState (next : DeliveryState) (now : Z) : M unit :=
  counter <~ this (changeCounter next) ;;
  match counter with Some c => note c now | None => ret tt end ;;;
  update (λ s, s <| state_ := next |>).

(* node_event_delivery.h:527-531 Controller::degrade *)
Definition degrade (status : ControllerStatus) (receive : bool) : M ControllerResult :=
  let r := if receive then receiving (result status) else result status in
  update (λ s, s <| degraded_ := true |> <| degradedResult_ := r |>) ;;;
  ret r.

(* node_event_delivery.h:502-505 Controller::markFailed *)
Definition markFailed : M bool :=
  slot <~ this activeSlot_ ;;
  mutation <~ on_store (NodeEventStore.markFailed slot) ;;
  if negb (bool_decide (mutation = MUTATION_OK)) then ret false else
  update (λ s, clearAttempt (s <| state_ := D_FAILED |>)) ;;;
  ret true.

(* node_event_delivery.h:516 = failedAttempt, the table *)
Definition backoffBase (index : Z) : Z :=
  nth (Z.to_nat index) [1000; 2000; 4000; 8000] 0.

(* node_event_delivery.h:506-521 Controller::failedAttempt *)
Definition failedAttempt (now : Z) (hubUnavailableEvidence : bool) : M ControllerResult :=
  (if hubUnavailableEvidence then diagnose (RuntimeState.setHubUnavailable true) else ret tt) ;;;
  current <~ this record ;;
  let exhausted :=
    marked <~ markFailed ;;
    if negb marked then degrade STORAGE_FAILURE true else ret receiveResult in
  match current with
  | None => exhausted
  | Some r =>
      if MAX_ATTEMPTS <=? attemptsUsed r then exhausted else
      jitter <~ outside nextMilliseconds ;;
      if MAX_BACKOFF_JITTER_MILLISECONDS <? jitter
      then degrade INVALID_CONFIGURATION true else
      update (λ s, s <| deadlineOrigin_ := now |>
        <| deadlineDuration_ := u32 (backoffBase (u32 (attemptsUsed r - 1)) + jitter) |>) ;;;
      changeState BACKOFF now ;;;
      ret receiveResult
  end.

(** The slots queued before the service that are expired after it, but for the
    active one, are counted. *)
(* node_event_delivery.h:489-494 = serviceLifetime, the second loop *)
Fixpoint noteExpired (n slot : nat) (before : list bool) (now : Z) : M unit :=
  match n with
  | O => ret tt
  | S m =>
      expired <~ this (λ s, nth slot before false && negb (slot =? activeSlot_ s)%nat
        && match recordAt slot (store_ s) with
           | Some r => nr_state r =? NodeState.EXPIRED
           | None => false
           end) ;;
      (if (expired : bool) then note EventTxDiagnostics.EXPIRED_QUEUED now else ret tt) ;;;
      noteExpired m (S slot) before now
  end.

(* node_event_delivery.h:479-501 Controller::serviceLifetime *)
Definition serviceLifetime (now : Z) : M bool :=
  before <~ this (λ s, map (λ slot, queued slot s) (seq 0 NODE_EVENT_CAPACITY)) ;;
  serviced <~ policyService now ;;
  if negb (bool_decide (serviced = READY)) then
    degrade POLICY_FAILURE true ;;;
    ret false
  else
  noteExpired NODE_EVENT_CAPACITY 0 before now ;;;
  current <~ this record ;;
  (if match current with Some r => nr_state r =? NodeState.EXPIRED | None => false end then
     changeState D_EXPIRED now ;;;
     update clearAttempt
   else ret tt) ;;;
  ret true.

(** The start of a handler: service the lifetimes, give up when that failed or
    when the active event expired, otherwise go on. *)
(* node_event_delivery.h:329-330 = the start of a handler *)
Definition serviced (now : Z) (k : M ControllerResult) : M ControllerResult :=
  ok <~ serviceLifetime now ;;
  if negb ok then this degradedResult_ else
  state <~ this state_ ;;
  if bool_decide (state = D_EXPIRED) then ret receiveResult else k.

(* node_event_delivery.h:259-279 Controller::recover *)
Definition recover (sourceDeviceId hubDeviceId now : Z)
    (diagnosed : bool) (observer : option EventTxDiagnostics.Observer) : M ControllerResult :=
  update reset ;;;
  update (λ s, s <| observer_ := observer |> <| diagnosed_ := diagnosed |>) ;;;
  if negb (EventProtocol.hasValidEndpoints sourceDeviceId hubDeviceId)
  then ret (result INVALID_CONFIGURATION) else
  update (λ s, s <| bound_ := true |> <| source_ := sourceDeviceId |>
                 <| destination_ := hubDeviceId |>) ;;;
  recovered <~ policyRecover now ;;
  if negb (bool_decide (recovered = READY)) then degrade POLICY_FAILURE false else
  update (λ s, loadHead (s <| initialized_ := true |>)) ;;;
  s <~ this id ;;
  let failed := active_ s
    && match record s with Some r => MAX_ATTEMPTS <=? attemptsUsed r | None => false end in
  marked <~ (if failed then markFailed else ret true) ;;
  if negb marked then degrade STORAGE_FAILURE true else
  active <~ this active_ ;;
  ret (result (if active then OK else NO_ACTIVE_EVENT)).

(* node_event_delivery.h:283-288 Controller::trackEnqueued *)
Definition trackEnqueued (slot : nat) (now : Z) : M ControllerStatus :=
  ok <~ this usable ;;
  if negb ok then
    r <~ degrade DEGRADED false ;;
    ret (result_status r)
  else
  tracked <~ policyTrackEnqueued slot now ;;
  if negb (bool_decide (tracked = READY)) then
    r <~ degrade POLICY_FAILURE false ;;
    ret (result_status r)
  else ret OK.

(** The switch of [service]. *)
(* node_event_delivery.h:297-321 = Controller::service, the switch *)
Definition serviceState (now : Z) (synchronousWork : bool) : M ControllerResult :=
  s <~ this id ;;
  match state_ s with
  | D_QUEUED =>
      if match record s with Some r => MAX_ATTEMPTS <=? attemptsUsed r | None => false end then
        marked <~ markFailed ;;
        if negb marked then degrade STORAGE_FAILURE true else ret (result OK)
      else
        (if negb synchronousWork then changeState D_READY now else ret tt) ;;;
        ret (result OK)
  | D_READY =>
      update (λ s, if synchronousWork then s <| state_ := D_QUEUED |> else s) ;;;
      ret (result OK)
  | WAIT_ADMISSION =>
      if ADMISSION_TIMEOUT_MILLISECONDS <=? elapsed now (deadlineOrigin_ s) then
        note EventTxDiagnostics.ADMISSION_TIMEOUT now ;;;
        failedAttempt now true
      else ret (result OK)
  | BACKOFF =>
      (if deadlineDuration_ s <=? elapsed now (deadlineOrigin_ s) then
         note EventTxDiagnostics.BACKOFF_DUE now ;;;
         changeState (if synchronousWork then D_QUEUED else D_READY) now
       else ret tt) ;;;
      ret (result OK)
  | _ => ret (result OK)
  end.

(* node_event_delivery.h:290-322 Controller::service *)
Definition service (now : Z) (synchronousWork : bool) : M ControllerResult :=
  ok <~ this usable ;;
  if negb ok then ret (result DEGRADED) else
  update (λ s, if bool_decide (state_ s = D_RELEASED)
               then loadHead ((clearAttempt s) <| active_ := false |>) else s) ;;;
  update (λ s, if negb (active_ s) then loadHead s else s) ;;;
  active <~ this active_ ;;
  if negb active then ret (result NO_ACTIVE_EVENT) else
  serviced now
    (over <~ this terminal ;;
     if (over : bool) then ret (result OK) else serviceState now synchronousWork).

(** The Event of an attempt. *)
(* node_event_delivery.h:341-348 = grantTransmit, the attempt *)
Definition attemptOf (s : Controller) (sequence : Z) (r : NodeRecord) : EventProtocol.Event :=
  EventProtocol.mkEvent (source_ s) (destination_ s) sequence (nr_family r) (nr_eventEpoch r)
    (nr_eventId r) (nr_flags r) (nr_lifetimeBudgetSeconds r) (nr_bodyLength r)
    (copy_bytes (Z.to_nat (nr_bodyLength r)) (EventProtocol.body EventProtocol.zeroEvent) 0
       (nr_body r) 0).

(** [grantTransmit] once the attempt is armed. *)
(* node_event_delivery.h:338-356 = grantTransmit, sending the attempt *)
Definition sendAttempt (now : Z) : M ControllerResult :=
  sequenced <~ outside (next 0) ;;
  let (ok, sequence) := (sequenced : bool * Z) in
  if negb ok then degrade SEQUENCE_FAILURE true else
  s <~ this id ;;
  let current := record_at (store_ s) (activeSlot_ s) in
  let event := attemptOf s sequence current in
  update (λ s, s <| attemptEvent_ := event |>) ;;;
  match EventProtocol.encodeEvent event (Some (zeros (Z.to_nat Protocol.MAX_PACKET_SIZE))) with
  | (true, Some bytes, length) =>
      observe (EventTxDiagnostics.attempt (source_ s) (nr_eventEpoch current)
                 (nr_eventId current) (attemptsUsed current)) ;;;
      update (λ s, s <| correlationValid_ := true |>) ;;;
      changeState TX now ;;;
      ret (mkResult OK (mkAction TRANSMIT bytes length))
  | _ => degrade ENCODE_FAILURE true
  end.

(* node_event_delivery.h:324-357 Controller::grantTransmit *)
Definition grantTransmit (now : Z) : M ControllerResult :=
  s <~ this id ;;
  if negb (usable s) then ret (result DEGRADED) else
  if negb (active_ s) || negb (bool_decide (state_ s = D_READY))
  then ret (result INVALID_STATE) else
  update (λ s, s <| state_ := TX_PREPARE |>) ;;;
  serviced now
    (head <~ this headStillAuthoritative ;;
     if negb head then degrade POLICY_FAILURE true else
     slot <~ this activeSlot_ ;;
     armed <~ policyArmAttempt slot now ;;
     match armed with
     | ATTEMPT_ARMED => sendAttempt now
     | ATTEMPT_EXPIRED =>
         update (λ s, s <| state_ := D_EXPIRED |>) ;;;
         ret receiveResult
     | ATTEMPT_EXHAUSTED =>
         marked <~ markFailed ;;
         if (marked : bool) then ret receiveResult else degrade STORAGE_FAILURE true
     | _ => degrade STORAGE_FAILURE true
     end).

(** The guard the three transmission callbacks and their service share. *)
(* node_event_delivery.h:360-362 = the guard of the transmission callbacks *)
Definition transmitting (now : Z) (k : M ControllerResult) : M ControllerResult :=
  s <~ this id ;;
  if negb (usable s) || negb (bool_decide (state_ s = TX))
  then ret (result INVALID_STATE) else serviced now k.

(* node_event_delivery.h:359-363 Controller::txStarted *)
Definition txStarted (now : Z) : M ControllerResult := transmitting now (ret (result OK)).

(* node_event_delivery.h:364-369 Controller::txStartFailed *)
Definition txStartFailed (now : Z) : M ControllerResult :=
  transmitting now (failedAttempt now false).

(* node_event_delivery.h:370-379 Controller::txCompleted *)
Definition txCompleted (now : Z) : M ControllerResult :=
  observe (EventTxDiagnostics.completed now) ;;;
  transmitting now
    (changeState WAIT_ADMISSION now ;;;
     update (λ s, s <| deadlineOrigin_ := now |>
                    <| deadlineDuration_ := ADMISSION_TIMEOUT_MILLISECONDS |>) ;;;
     ret receiveResult).

(** The switch of [admissionCandidate] over a matched response. *)
(* node_event_delivery.h:394-412 = admissionCandidate, the switch *)
Definition admissionMatched (status now : Z) : M ControllerResult :=
  if status =? EventProtocol.AdmissionStatus.ADMITTED then
    slot <~ this activeSlot_ ;;
    mutation <~ on_store (NodeEventStore.releaseQueued slot) ;;
    if negb (bool_decide (mutation = MUTATION_OK)) then degrade STORAGE_FAILURE true else
    diagnose (RuntimeState.incrementEventDiagnostic RuntimeState.ADMISSION_ACKNOWLEDGED 1) ;;;
    diagnose (RuntimeState.setHubUnavailable false) ;;;
    update (λ s, clearAttempt (s <| state_ := D_RELEASED |>)) ;;;
    ret receiveResult
  else if status =? EventProtocol.AdmissionStatus.CAPACITY then failedAttempt now true
  else if (status =? EventProtocol.AdmissionStatus.IDENTITY_CONTENT_MISMATCH)
       || (status =? EventProtocol.AdmissionStatus.UNSUPPORTED_EVENT)
       || (status =? EventProtocol.AdmissionStatus.MALFORMED_EVENT) then
    marked <~ markFailed ;;
    if negb marked then degrade STORAGE_FAILURE true else ret receiveResult
  else ret receiveResult.

(* node_event_delivery.h:381-413 Controller::admissionCandidate *)
Definition admissionCandidate (bytes : option (list Z)) (now : Z) : M ControllerResult :=
  s <~ this id ;;
  if negb (usable s) || negb (bool_decide (state_ s = WAIT_ADMISSION))
  then ret (result INVALID_STATE) else
  serviced now
    (let (decoded, response) :=
       EventProtocol.decodeAdmissionResponse bytes EventProtocol.zeroResponse in
     if negb decoded then ret receiveResult else
     observe (EventTxDiagnostics.admission (EventProtocol.status response) now) ;;;
     s <~ this id ;;
     if negb (correlationValid_ s)
        || negb (EventProtocol.matchesEvent response (attemptEvent_ s))
     then ret receiveResult else
     note EventTxDiagnostics.ACK_MATCHED now ;;;
     admissionMatched (EventProtocol.status response) now).

(* node_event_delivery.h:415-423 Controller::reclaimTerminal *)
Definition reclaimTerminal : M ControllerResult :=
  s <~ this id ;;
  if negb (usable s) || negb (active_ s)
     || (negb (bool_decide (state_ s = D_FAILED)) && negb (bool_decide (state_ s = D_EXPIRED)))
  then ret (result INVALID_STATE) else
  mutation <~ on_store (NodeEventStore.reclaim (activeSlot_ s)) ;;
  if negb (bool_decide (mutation = MUTATION_OK)) then degrade STORAGE_FAILURE true else
  update (λ s, clearAttempt (s <| active_ := false |>)) ;;;
  ret (result OK).

(* node_event_delivery.h:435-437 Controller::successfulHubExchange *)
Definition successfulHubExchange : M unit := diagnose (RuntimeState.setHubUnavailable false).

(** ** Reclamation and creation *)

(* node_event_reclamation.h:7-10 isTerminalRecord *)
Definition isTerminalRecord (found : option NodeRecord) : bool :=
  match found with
  | Some r => (nr_state r =? NodeState.FAILED) || (nr_state r =? NodeState.EXPIRED)
  | None => false
  end.

(* node_event_reclamation.h:12-16 hasTerminalRecords *)
Definition hasTerminalRecords (s : Store) : bool :=
  existsb (λ slot, isTerminalRecord (recordAt slot s)) (seq 0 NODE_EVENT_CAPACITY).

(** The loop of [reclaimTerminals] with a controller and without one. *)
(* node_event_reclamation.h:24-33 = reclaimTerminals, the loop *)
Fixpoint reclaimSlots (n slot : nat) (controlled : bool) (now : Z) : M bool :=
  match n with
  | O => ret true
  | S m =>
      s <~ this id ;;
      if negb (isTerminalRecord (recordAt slot (store_ s)))
      then reclaimSlots m (S slot) controlled now else
      reclaimed <~ (if controlled && active_ s && (activeSlot_ s =? slot)%nat then
          r <~ reclaimTerminal ;;
          ret (bool_decide (result_status r = OK))
        else
          mutation <~ on_store (NodeEventStore.reclaim slot) ;;
          ret (bool_decide (mutation = MUTATION_OK))) ;;
      if negb reclaimed then ret false else
      note EventTxDiagnostics.TERMINAL_RECLAIMED now ;;;
      reclaimSlots m (S slot) controlled now
  end.

(* node_event_reclamation.h:21-34 reclaimTerminals *)
Definition reclaimTerminals (controlled : bool) (now : Z) : M bool :=
  healthy <~ this (λ s, healthy_ (store_ s)) ;;
  if negb healthy then ret false else reclaimSlots NODE_EVENT_CAPACITY 0 controlled now.

End Controller.

End NodeEventDelivery.
