(* ===== verification/DeliveryFacts.v ===== *)
(** The lifetime policy of the delivery: the while loop of its service leaves,
    and what a service does to the store and to the meters. *)

From S2P Require Import Prelude Wire EventWire Copies Records Identity Diagnostics NodeStore NodeQueue NodeFacts NodeOps NodeRecovery Delivery.

Module DeliveryFacts.

Import EventRecords.
Import NodeEventStore (Store, Storage, record_at, slot_at, recordAt, queuedAt, healthy_,
  MutationStatus, MUTATION_OK, MUTATION_STORAGE_FAILURE, present).
Import NodeFacts NodeOps NodeRecovery NodeEventDelivery.

(** ** Histories of the store

    The records [R] become the records [R'] by accepted operations, each of
    which is allowed by [A] on the record it finds. *)
Inductive evolves (A : Op → NodeRecord → Prop) : (nat → NodeRecord) → (nat → NodeRecord) → Prop :=
| evolves_none R R' : (∀ i, (i < 8)%nat → R' i = R i) → evolves A R R'
| evolves_op R op next R' :
    (op_slot op < 8)%nat → op_record op (R (op_slot op)) = inr next → A op (R (op_slot op)) →
    evolves A (replaced (op_slot op) next R) R' → evolves A R R'.

Lemma evolves_refl A R : evolves A R R.
Proof. by constructor. Qed.

Lemma evolves_ext A R1 R2 R' :
  (∀ i, (i < 8)%nat → R1 i = R2 i) → evolves A R1 R' → evolves A R2 R'.
Proof.
  intros HR Hf. revert R2 HR. induction Hf as [R R' He|R op next R' Hi Hop Ha Hf IH]; intros R2 HR.
  - constructor. intros i Hi. by rewrite He, HR.
  - eapply evolves_op; [done|by rewrite <- HR|by rewrite <- HR|]. apply IH. intros i Hi'.
    unfold replaced. case_decide; [done|by apply HR].
Qed.

Lemma evolves_trans A R1 R2 R3 : evolves A R1 R2 → evolves A R2 R3 → evolves A R1 R3.
Proof.
  induction 1 as [R R' He|R op next R' Hi Hop Ha Hf IH]; intros H2.
  - by eapply evolves_ext.
  - eapply evolves_op; [done..|]. by apply IH.
Qed.

Lemma evolves_weaken (A B : Op → NodeRecord → Prop) R R' :
  (∀ op r, A op r → B op r) → evolves A R R' → evolves B R R'.
Proof.
  intros HAB. induction 1; [by constructor|]. eapply evolves_op; [done..|by apply HAB|done].
Qed.

Lemma evolves_one (A : Op → NodeRecord → Prop) R op next :
  (op_slot op < 8)%nat → op_record op (R (op_slot op)) = inr next → A op (R (op_slot op)) →
  evolves A R (replaced (op_slot op) next R).
Proof. intros Hi Hop Ha. eapply evolves_op; [done..|]. by constructor. Qed.

(** An array that is only read below 8. *)
Lemma evolves_end A R R' R'' :
  (∀ i, (i < 8)%nat → R'' i = R' i) → evolves A R R' → evolves A R R''.
Proof. intros HR Hf. eapply evolves_trans; [exact Hf|]. by constructor. Qed.

(** A controller with another store, policy and observer. *)
Definition with_parts (t : Store) (p : Policy) (o : option EventTxDiagnostics.Observer)
    (s : Controller) : Controller :=
  mkController t p o (bound_ s) (diagnosed_ s) (source_ s) (destination_ s) (activeSlot_ s)
    (active_ s) (initialized_ s) (degraded_ s) (correlationValid_ s) (state_ s)
    (deadlineOrigin_ s) (deadlineDuration_ s) (attemptEvent_ s) (degradedResult_ s).

Definition with_runtime (l : list SlotRuntime) (p : Policy) : Policy :=
  mkPolicy (policyBound_ p) l (ready_ p) (policyStatus_ p).

Definition failed_policy (status : Status) (p : Policy) : Policy :=
  mkPolicy (policyBound_ p) (runtime_ p) false status.

Lemma set_runtime_parts slot r s :
  set_runtime slot r s
  = with_parts (store_ s) (with_runtime (<[slot := r]> (runtime_ (policy_ s))) (policy_ s))
      (observer_ s) s.
Proof. reflexivity. Qed.

Lemma runtime_at_set slot r s j :
  (slot < length (runtime_ (policy_ s)))%nat →
  runtime_at j (set_runtime slot r s) = if decide (j = slot) then r else runtime_at j s.
Proof.
  intros Hl. unfold runtime_at, set_runtime, rec_set. cbn. case_decide as E.
  - subst j. by rewrite (nth_lookup_Some _ _ _ r) by by apply list_lookup_insert_eq.
  - rewrite !nth_lookup. by rewrite list_lookup_insert_ne.
Qed.

(** The while loop of [Policy::service]. *)
Section While.

Context {W : Type} `{Storage W} `{EventIdentity.EntropySource W}.

(** [while (true)]: a turn is taken until one leaves the loop. *)
Inductive whileService (slot : nat) : Controller * W → option Status → Controller * W → Prop :=
| while_leave x x' :
    serviceTurn slot x = (LEAVE, x') → whileService slot x None x'
| while_return x status x' :
    serviceTurn slot x = (RETURN status, x') → whileService slot x (Some status) x'
| while_continue x x1 answer x' :
    serviceTurn slot x = (CONTINUE, x1) → whileService slot x1 answer x' →
    whileService slot x answer x'.

Lemma on_store_run {X} (m : st (Store * W) X) s w x t w' :
  m (store_ s, w) = (x, (t, w')) →
  on_store m (s, w) = (x, (with_parts t (policy_ s) (observer_ s) s, w')).
Proof. intros E. unfold on_store, zoom. cbn [fst snd]. by rewrite E. Qed.

Lemma fail_run status s (w : W) :
  fail status (s, w)
  = (status, (with_parts (store_ s) (failed_policy status (policy_ s)) (observer_ s) s, w)).
Proof. reflexivity. Qed.

Lemma observe_run f s (w : W) :
  observe f (s, w) = (tt, (with_parts (store_ s) (policy_ s) (f <$> observer_ s) s, w)).
Proof. reflexivity. Qed.

Lemma queued_present s i :
  (i < 8)%nat → present (slot_at (store_ s) i) = true →
  queued i s = (nr_state (record_at (store_ s) i) =? NodeState.QUEUED).
Proof.
  intros Hi Hp. unfold queued, recordAt. change NodeEventStore.NODE_EVENT_CAPACITY with 8%nat.
  by rewrite (proj2 (Nat.ltb_lt _ _) Hi), Hp.
Qed.

End While.

Section Durable.

Context {W : Type} `{Storage W} `{!EventIdentity.MetadataStorageLaws W} `{!NodeFacts.StorageLaws W}
  `{EventIdentity.EntropySource W} `{!EventIdentity.DurableMetadata W} `{!NodeFacts.DurableEvents W}.

Implicit Types (s : Controller) (t : Store) (w : W) (R : nat → NodeRecord).

(** An accepted mutation, at the status type of the store's methods. *)
Lemma mutation_cases src t w op next (m : st (Store * W) MutationStatus) :
  run_op op = (a <~ m ;; ret (inl a)) →
  accepted op = inl MUTATION_OK → storage_failed op = inl MUTATION_STORAGE_FAILURE →
  sound src t w → op_wf op → (op_slot op < 8)%nat →
  op_record op (record_at t (op_slot op)) = inr next →
  ∃ t' w', (m (t, w) = (MUTATION_OK, (t', w')) ∧ mutated src t (op_slot op) next t' w')
    ∨ (m (t, w) = (MUTATION_STORAGE_FAILURE, (t', w')) ∧ broken src t (op_slot op) next t' w').
Proof.
  intros Hrun Ha Hf Hs Hwf Hi Hop.
  pose proof (op_refines_spec src t w op Hs Hwf) as Hr. unfold op_refines, op_spec in Hr.
  change NodeEventStore.NODE_EVENT_CAPACITY with 8%nat in Hr.
  rewrite (proj2 (Nat.ltb_lt _ _) Hi), Hop in Hr.
  destruct Hr as [(t' & w' & E & Hm)|(t' & w' & E & Hb)]; exists t', w';
    rewrite Hrun in E; unfold bind in E; destruct (m (t, w)) as [a [t1 w1]]; cbn in E;
    injection E as E -> ->; [left|right]; (split; [congruence|done]).
Qed.

Lemma sound_record src t w i :
  sound src t w → (i < 8)%nat → node_record_wf (record_at t i) ∧ present (slot_at t i) = true.
Proof.
  intros (Hg & _) Hi. split; [by apply (grounded_record src t w i)|by apply (gr_present _ _ _ Hg)].
Qed.

(** ** One turn of the loop *)

Definition meter (slot : nat) (r : SlotRuntime) s : Policy :=
  with_runtime (<[slot := r]> (runtime_ (policy_ s))) (policy_ s).

Definition withdrawn (slot : nat) (u : Z) s : SlotRuntime :=
  mkRuntime (tracked (runtime_at slot s)) (baselineMilliseconds (runtime_at slot s)) u.

Definition checkpoint_due s (slot : nat) : Prop :=
  60 < remainingActiveSeconds (record_at (store_ s) slot)
  ∧ 60000 ≤ uncommittedMilliseconds (runtime_at slot s).

#[global] Instance checkpoint_due_dec s slot : Decision (checkpoint_due s slot).
Proof. unfold checkpoint_due. apply _. Defined.

(** What a turn does when the slot's record is queued. *)
Inductive turned src slot s w : Turn → Controller → W → Prop :=
| turned_on t' w' :
    checkpoint_due s slot →
    mutated src (store_ s) slot
      (checkpointed (remainingActiveSeconds (record_at (store_ s) slot) - 60)
         (record_at (store_ s) slot)) t' w' →
    turned src slot s w CONTINUE
      (with_parts t' (meter slot (withdrawn slot
         (uncommittedMilliseconds (runtime_at slot s) - 60000) s) s) (observer_ s) s) w'
| turned_failed op next status t' w' :
    op_slot op = slot → op_record op (record_at (store_ s) slot) = inr next →
    op = Checkpoint slot (remainingActiveSeconds (record_at (store_ s) slot) - 60)
    ∨ op = MarkExpired slot →
    status ≠ READY → broken src (store_ s) slot next t' w' →
    turned src slot s w (RETURN status)
      (with_parts t' (failed_policy status (policy_ s)) (observer_ s) s) w'
| turned_expired t' w' :
    ¬ checkpoint_due s slot →
    remainingActiveSeconds (record_at (store_ s) slot) * 1000
      ≤ uncommittedMilliseconds (runtime_at slot s) →
    mutated src (store_ s) slot (transitioned NodeState.EXPIRED (record_at (store_ s) slot)) t' w' →
    turned src slot s w LEAVE (with_parts t' (meter slot zeroRuntime s) (observer_ s) s) w'
| turned_away :
    ¬ checkpoint_due s slot →
    uncommittedMilliseconds (runtime_at slot s)
      < remainingActiveSeconds (record_at (store_ s) slot) * 1000 →
    turned src slot s w LEAVE s w.

Lemma turn_cases src slot s w :
  sound src (store_ s) w → (slot < 8)%nat →
  nr_state (record_at (store_ s) slot) = NodeState.QUEUED →
  is_u64 (uncommittedMilliseconds (runtime_at slot s)) →
  ∃ turn s' w', serviceTurn slot (s, w) = (turn, (s', w')) ∧ turned src slot s w turn s' w'.
Proof.
  intros Hs Hi Hq Hu. destruct (sound_record src (store_ s) w slot Hs Hi) as [Hwf Hp].
  assert (Hrem : is_u32 (remainingActiveSeconds (record_at (store_ s) slot))) by apply Hwf.
  unfold serviceTurn. rewrite bind_this. cbn [id]. rewrite queued_present, Hq by done.
  rewrite Z.eqb_refl. cbn [negb]. unfold CHECKPOINT_SECONDS, CHECKPOINT_MILLISECONDS.
  set (r := record_at (store_ s) slot) in *. set (u := uncommittedMilliseconds _) in *.
  destruct (decide (checkpoint_due s slot)) as [Hd|Hd]; pose proof Hd as Hdue;
    change (checkpoint_due s slot) with (60 < remainingActiveSeconds r ∧ 60000 ≤ u) in Hd.
  - rewrite (proj2 (Z.ltb_lt _ _) (proj1 Hd)), (proj2 (Z.leb_le _ _) (proj2 Hd)). cbn [andb].
    assert (Hw : u32 (remainingActiveSeconds r - 60) = remainingActiveSeconds r - 60)
      by (destruct Hd; uint).
    rewrite Hw. set (op := Checkpoint slot (remainingActiveSeconds r - 60)).
    assert (Hop : op_record op r = inr (checkpointed (remainingActiveSeconds r - 60) r)).
    { destruct Hd as [Hd _]. cbn [op_record op]. rewrite Hq, Z.eqb_refl.
      rewrite (proj2 (Z.ltb_lt 0 _)), (proj2 (Z.ltb_lt _ _)) by lia. done. }
    assert (Hopw : op_wf op) by (cbn; uint).
    destruct (mutation_cases src (store_ s) w op _
      (NodeEventStore.checkpointRemaining slot (remainingActiveSeconds r - 60))
      eq_refl eq_refl eq_refl Hs Hopw Hi Hop) as (t' & w' & [(E & Hm)|(E & Hb)]);
      rewrite (bind_run _ _ _ _ _ (on_store_run _ _ _ _ _ _ E)); decide_eqs; cbn [negb]; do 3 eexists; (split; [reflexivity|]).
    + replace (u64 (u - 60000)) with (u - 60000) by (destruct Hd; uint).
      exact (turned_on src slot s w t' w' Hdue Hm).
    + apply (turned_failed src slot s w op _ CHECKPOINT_FAILURE t' w' eq_refl Hop);
        [by left|done|done].
  - assert (Hnd : (60 <? remainingActiveSeconds r) && (60000 <=? u) = false).
    { apply not_true_iff_false. intros Hc. zbool. done. }
    rewrite Hnd. assert (Hw : u64 (remainingActiveSeconds r * 1000) = remainingActiveSeconds r * 1000) by uint.
    rewrite Hw. destruct (Z.leb_spec (remainingActiveSeconds r * 1000) u) as [Hle|Hlt].
    2:{ do 3 eexists. split; [reflexivity|]. by apply turned_away. }
    assert (Hop : op_record (MarkExpired slot) r = inr (transitioned NodeState.EXPIRED r)).
    { cbn [op_record]. by rewrite Hq, Z.eqb_refl. }
    destruct (mutation_cases src (store_ s) w (MarkExpired slot) _ (NodeEventStore.markExpired slot)
      eq_refl eq_refl eq_refl Hs I Hi Hop) as (t' & w' & [(E & Hm)|(E & Hb)]);
      rewrite (bind_run _ _ _ _ _ (on_store_run _ _ _ _ _ _ E)); decide_eqs; cbn [negb];
      do 3 eexists; (split; [reflexivity|]).
    + exact (turned_expired src slot s w t' w' Hdue Hle Hm).
    + apply (turned_failed src slot s w (MarkExpired slot) _ EXPIRY_FAILURE t' w' eq_refl Hop);
        [by right|done|done].
Qed.

(** ** The loop *)

#[global] Instance Turn_eq_dec : EqDecision Turn.
Proof. solve_decision. Defined.

(** The operations that meter the record of a slot. *)
Definition meters (slot : nat) (op : Op) (r : NodeRecord) : Prop :=
  op = Checkpoint slot (remainingActiveSeconds r - 60) ∨ op = MarkExpired slot.

(** What is left of the life of a queued event, in milliseconds. *)
Definition lifetime s (slot : nat) : Z :=
  remainingActiveSeconds (record_at (store_ s) slot) * 1000
  - uncommittedMilliseconds (runtime_at slot s).

Inductive looped src slot s w : option Status → Controller → W → Prop :=
| looped_failed status t' p' w' R' :
    status ≠ READY → healthy_ t' = false → ready_ p' = false →
    length (runtime_ p') = length (runtime_ (policy_ s)) →
    custody src w' R' → evolves (meters slot) (record_at (store_ s)) R' →
    looped src slot s w (Some status) (with_parts t' p' (observer_ s) s) w'
| looped_alive t' w' u :
    sound src t' w' → evolves (meters slot) (record_at (store_ s)) (record_at t') →
    nr_state (record_at t' slot) = NodeState.QUEUED →
    0 ≤ u < 60000 → u < remainingActiveSeconds (record_at t' slot) * 1000 →
    remainingActiveSeconds (record_at t' slot) * 1000 - u = lifetime s slot →
    looped src slot s w None
      (with_parts t' (meter slot (withdrawn slot u s) s) (observer_ s) s) w'
| looped_expired t' w' :
    sound src t' w' → evolves (meters slot) (record_at (store_ s)) (record_at t') →
    nr_state (record_at t' slot) = NodeState.EXPIRED →
    lifetime s slot ≤ 0 →
    looped src slot s w None (with_parts t' (meter slot zeroRuntime s) (observer_ s) s) w'.

Lemma mutated_evolves (A : Op → NodeRecord → Prop) src t op next t' w' :
  (op_slot op < 8)%nat → op_record op (record_at t (op_slot op)) = inr next →
  A op (record_at t (op_slot op)) →
  mutated src t (op_slot op) next t' w' → evolves A (record_at t) (record_at t').
Proof.
  intros Hi Hop Ha (_ & Hr & _). eapply evolves_end; [|by apply evolves_one]. intros i _. apply Hr.
Qed.

Lemma broken_evolves (A : Op → NodeRecord → Prop) src t op next t' w' :
  (op_slot op < 8)%nat → op_record op (record_at t (op_slot op)) = inr next →
  A op (record_at t (op_slot op)) → broken src t (op_slot op) next t' w' →
  healthy_ t' = false ∧ ∃ R', custody src w' R' ∧ evolves A (record_at t) R'.
Proof.
  intros Hi Hop Ha (Hh & [Hc|Hc]); (split; [done|]); eexists; (split; [exact Hc|]).
  - apply evolves_refl.
  - by apply evolves_one.
Qed.

Lemma checkpoint_accepted r rem :
  nr_state r = NodeState.QUEUED → 0 < rem < remainingActiveSeconds r →
  ∀ slot, op_record (Checkpoint slot rem) r = inr (checkpointed rem r).
Proof.
  intros Hq Hr slot. cbn [op_record]. rewrite Hq, Z.eqb_refl.
  rewrite (proj2 (Z.ltb_lt 0 _)), (proj2 (Z.ltb_lt _ _)) by lia. done.
Qed.

Lemma meter_same slot s :
  (slot < length (runtime_ (policy_ s)))%nat →
  with_parts (store_ s)
    (meter slot (withdrawn slot (uncommittedMilliseconds (runtime_at slot s)) s) s) (observer_ s) s
  = s.
Proof.
  intros Hl. destruct (lookup_lt_is_Some_2 _ _ Hl) as [r Hr].
  assert (Hat : runtime_at slot s = r) by by apply nth_lookup_Some.
  unfold meter, withdrawn. rewrite Hat. replace (mkRuntime _ _ _) with r by by destruct r.
  rewrite list_insert_id by done. destruct s as [t [? ? ? ?]]. reflexivity.
Qed.

Lemma turn_looped src slot s w turn s' w' :
  turned src slot s w turn s' w' → turn ≠ CONTINUE → (slot < 8)%nat →
  length (runtime_ (policy_ s)) = 8%nat → nr_state (record_at (store_ s) slot) = NodeState.QUEUED →
  sound src (store_ s) w → is_u64 (uncommittedMilliseconds (runtime_at slot s)) →
  looped src slot s w (match turn with RETURN status => Some status | _ => None end) s' w'.
Proof.
  intros Ht Hne Hi Hl Hq Hs Hu.
  destruct Ht as [t1 w1 Hd Hm|op next status t1 w1 <- Hop Hmo Hst Hbr|t1 w1 Hd Hle Hm|Hd Hlt]; [done| | |].
  - destruct (broken_evolves (meters (op_slot op)) _ _ _ _ _ _ Hi Hop Hmo Hbr) as (Hh & R' & Hc & Hf).
    by apply (looped_failed src _ s w status t1 _ w1 R').
  - assert (Hop : op_record (MarkExpired slot) (record_at (store_ s) slot)
      = inr (transitioned NodeState.EXPIRED (record_at (store_ s) slot))).
    { cbn [op_record]. by rewrite Hq, Z.eqb_refl. }
    apply (looped_expired src slot s w t1 w1).
    + apply Hm.
    + exact (mutated_evolves (meters slot) _ _ (MarkExpired slot) _ _ _ Hi Hop (or_intror eq_refl) Hm).
    + rewrite (proj1 (proj2 Hm)). unfold replaced. by rewrite decide_True.
    + unfold lifetime. lia.
  - pose proof (looped_alive src slot s w (store_ s) w
      (uncommittedMilliseconds (runtime_at slot s))) as Ha.
    rewrite meter_same in Ha by lia. apply Ha; try done.
    + by constructor.
    + unfold checkpoint_due in Hd. uint.
Qed.

(** A turn that goes on, and then the rest. *)
Lemma looped_step src slot s w t1 w1 answer s' w' :
  sound src (store_ s) w → (slot < 8)%nat → length (runtime_ (policy_ s)) = 8%nat →
  nr_state (record_at (store_ s) slot) = NodeState.QUEUED → checkpoint_due s slot →
  let s1 := with_parts t1 (meter slot (withdrawn slot
    (uncommittedMilliseconds (runtime_at slot s) - 60000) s) s) (observer_ s) s in
  mutated src (store_ s) slot
    (checkpointed (remainingActiveSeconds (record_at (store_ s) slot) - 60)
       (record_at (store_ s) slot)) t1 w1 →
  looped src slot s1 w1 answer s' w' → looped src slot s w answer s' w'.
Proof.
  intros Hs Hi Hl Hq Hd s1 Hm Hlp.
  set (op := Checkpoint slot (remainingActiveSeconds (record_at (store_ s) slot) - 60)).
  assert (Hop : op_record op (record_at (store_ s) slot) = inr _)
    by (apply checkpoint_accepted; [done|]; destruct Hd; lia).
  pose proof (mutated_evolves (meters slot) _ _ op _ _ _ Hi Hop (or_introl eq_refl) Hm) as Hf1.
  assert (Hrt : runtime_at slot s1 = withdrawn slot (uncommittedMilliseconds (runtime_at slot s) - 60000) s).
  { unfold runtime_at at 1. cbn. rewrite nth_lookup, list_lookup_insert_eq by lia. done. }
  assert (Hlt : lifetime s1 slot = lifetime s slot).
  { unfold lifetime. rewrite Hrt. cbn [store_ s1 with_parts]. rewrite (proj1 (proj2 Hm)).
    unfold replaced. rewrite decide_True by done. unfold withdrawn, checkpointed, rec_set; cbn. lia. }
  assert (Hmeter : ∀ r, meter slot r s1 = meter slot r s).
  { intros r. unfold meter, s1. cbn. by rewrite list_insert_insert_eq. }
  assert (Hw : ∀ u, withdrawn slot u s1 = withdrawn slot u s).
  { intros u. unfold withdrawn at 1. by rewrite Hrt. }
  destruct Hlp as [status t' p' w' R' Hst Hh Hr Hlr Hc Hf
    |t' w' u Hs' Hf Hq' Hu Hub Hlf|t' w' Hs' Hf Hq' Hlf].
  - apply (looped_failed src slot s w status t' p' w' R'); try done.
    + rewrite Hlr. cbn. by rewrite length_insert.
    + by eapply evolves_trans.
  - rewrite Hmeter, Hw. apply (looped_alive src slot s w t' w' u); try done.
    + by eapply evolves_trans.
    + by rewrite Hlf.
  - rewrite Hmeter. apply (looped_expired src slot s w t' w'); try done.
    + by eapply evolves_trans.
    + by rewrite <- Hlt.
Qed.

Lemma loop_cases src slot turns s w :
  sound src (store_ s) w → (slot < 8)%nat → length (runtime_ (policy_ s)) = 8%nat →
  nr_state (record_at (store_ s) slot) = NodeState.QUEUED →
  is_u64 (uncommittedMilliseconds (runtime_at slot s)) →
  remainingActiveSeconds (record_at (store_ s) slot) ≤ 60 * (Z.of_nat turns + 1) →
  ∃ answer s' w', whileService slot (s, w) answer (s', w')
    ∧ serviceLoop turns slot (s, w) = (answer, (s', w')) ∧ looped src slot s w answer s' w'.
Proof.
  revert s w. induction turns as [|turns IH]; intros s w Hs Hi Hl Hq Hu Hb;
    destruct (turn_cases src slot s w Hs Hi Hq Hu) as (turn & s1 & w1 & E & Ht);
    cbn [serviceLoop]; rewrite (bind_run _ _ _ _ _ E);
    (destruct (decide (turn = CONTINUE)) as [->|Hne];
      [|pose proof (turn_looped _ _ _ _ _ _ _ Ht Hne Hi Hl Hq Hs Hu) as Hlp;
        do 3 eexists; split; [|split; [|exact Hlp]]; destruct turn; try done;
        [by apply while_leave|by apply while_return]]).
  - inversion Ht as [t1 w1' Hd Hm| | |]. destruct Hd. lia.
  - inversion Ht as [t1 w1' Hd Hm| | |]. subst s1 w1'.
    set (s1 := with_parts _ _ _ _) in *.
    assert (Hr1 : record_at t1 slot = checkpointed (remainingActiveSeconds (record_at (store_ s) slot) - 60)
        (record_at (store_ s) slot)).
    { rewrite (proj1 (proj2 Hm)). unfold replaced. by rewrite decide_True. }
    destruct (IH s1 w1) as (answer & s' & w' & Hw & El & Hlp).
    + apply Hm.
    + done.
    + cbn. by rewrite length_insert.
    + cbn. by rewrite Hr1.
    + unfold runtime_at. cbn. rewrite nth_lookup, list_lookup_insert_eq by lia. cbn.
      destruct Hd. uint.
    + cbn [store_ s1 with_parts]. rewrite Hr1. unfold checkpointed, rec_set; cbn. lia.
    + exists answer, s', w'. split; [by eapply while_continue|]. split; [done|].
      by eapply looped_step.
Qed.

(** ** A service *)

(** The meters between services: eight of them, each below a minute. *)
Record metered (p : Policy) : Prop := mkMetered {
  me_length : length (runtime_ p) = 8%nat;
  me_below i : 0 ≤ uncommittedMilliseconds (nth i (runtime_ p) zeroRuntime) < 60000
}.

Definition metering (op : Op) (r : NodeRecord) : Prop := ∃ slot, meters slot op r.

(** A part of a service: the store follows metering operations, and either all
    went well or nothing serves any more.  Only the store, the policy and the
    observer change. *)
Inductive service_run src s w : bool → Controller → W → Prop :=
| service_ok t' p' o' w' :
    sound src t' w' → evolves metering (record_at (store_ s)) (record_at t') →
    metered p' → ready_ p' = ready_ (policy_ s) → policyBound_ p' = policyBound_ (policy_ s) →
    service_run src s w true (with_parts t' p' o' s) w'
| service_failed t' p' o' w' R' :
    healthy_ t' = false → ready_ p' = false → length (runtime_ p') = 8%nat → custody src w' R' →
    evolves metering (record_at (store_ s)) R' →
    service_run src s w false (with_parts t' p' o' s) w'.

Lemma service_run_trans src s w s1 w1 ok s' w' :
  service_run src s w true s1 w1 → service_run src s1 w1 ok s' w' → service_run src s w ok s' w'.
Proof.
  intros G1 G2. inversion G1 as [t1 p1 o1 w1' Hs1 Hf1 Hm1 Hr1 Hb1|]; subst.
  destruct G2 as [t' p' o' w' Hs Hf Hm Hr Hb|t' p' o' w' R' Hh Hr Hl Hc Hf];
    cbn [store_ policy_ with_parts] in *.
  - apply (service_ok src s w t' p' o' w'); try congruence; try done. by eapply evolves_trans.
  - apply (service_failed src s w t' p' o' w' R'); try done. by eapply evolves_trans.
Qed.

Lemma metered_set p slot r :
  metered p → 0 ≤ uncommittedMilliseconds r < 60000 →
  metered (with_runtime (<[slot := r]> (runtime_ p)) p).
Proof.
  intros [Hl Hb] Hr. split; [cbn; by rewrite length_insert|]. intros i. cbn.
  destruct (decide (i = slot)) as [->|Hne].
  - destruct (decide (slot < length (runtime_ p))%nat).
    + by rewrite nth_lookup, list_lookup_insert_eq.
    + rewrite list_insert_ge by lia. apply Hb.
  - rewrite nth_lookup, list_lookup_insert_ne by done. rewrite <- nth_lookup. apply Hb.
Qed.

Lemma service_meter src s w slot r :
  sound src (store_ s) w → metered (policy_ s) → 0 ≤ uncommittedMilliseconds r < 60000 →
  service_run src s w true (set_runtime slot r s) w.
Proof.
  intros Hs Hm Hr. rewrite set_runtime_parts.
  apply (service_ok src s w (store_ s) _ (observer_ s) w); try done; [apply evolves_refl|].
  by apply metered_set.
Qed.

(** The loop of one slot, on a controller that differs from [s] in its meters. *)
Lemma looped_service src slot s p w answer s' w' :
  looped src slot (with_parts (store_ s) p (observer_ s) s) w answer s' w' →
  (slot < 8)%nat → length (runtime_ p) = 8%nat →
  (∀ i, i ≠ slot → 0 ≤ uncommittedMilliseconds (nth i (runtime_ p) zeroRuntime) < 60000) →
  ready_ p = ready_ (policy_ s) → policyBound_ p = policyBound_ (policy_ s) →
  service_run src s w (if answer then false else true) s' w'.
Proof.
  intros Hlp Hi Hlen Hb Hr Hbd. set (s0 := with_parts (store_ s) p (observer_ s) s) in *.
  assert (Hmet : ∀ r, 0 ≤ uncommittedMilliseconds r < 60000 → metered (meter slot r s0)).
  { intros r Hu. split; [cbn; by rewrite length_insert|]. intros i. cbn.
    destruct (decide (i = slot)) as [->|Hne].
    - by rewrite nth_lookup, list_lookup_insert_eq by lia.
    - rewrite nth_lookup, list_lookup_insert_ne by done. rewrite <- nth_lookup. by apply Hb. }
  assert (Hops : ∀ R1 R2, evolves (meters slot) R1 R2 → evolves metering R1 R2).
  { intros R1 R2. apply evolves_weaken. by exists slot. }
  destruct Hlp as [status t' p' w' R' Hst Hh Hrd Hlr Hc Hf
    |t' w' u Hs' Hf Hq Hu Hub Hlf|t' w' Hs' Hf Hq Hlf].
  - apply (service_failed src s w t' p' (observer_ s) w' R'); try done; [|by apply Hops].
    by rewrite Hlr.
  - apply (service_ok src s w t' (meter slot (withdrawn slot u s0) s0) (observer_ s) w');
      try done; [by apply Hops|by apply Hmet].
  - apply (service_ok src s w t' (meter slot zeroRuntime s0) (observer_ s) w');
      try done; [by apply Hops|by apply Hmet].
Qed.

(** The meter of a queued, tracked slot as a service at [now] finds it. *)
Definition elapsed_meter slot now s : SlotRuntime :=
  mkRuntime (tracked (runtime_at slot s)) now
    (uncommittedMilliseconds (runtime_at slot s)
     + u32 (now - baselineMilliseconds (runtime_at slot s))).

Definition at_now slot now s : Controller := set_runtime slot (elapsed_meter slot now s) s.

Lemma at_now_meter slot now s :
  metered (policy_ s) → (slot < 8)%nat → runtime_at slot (at_now slot now s) = elapsed_meter slot now s.
Proof.
  intros Hm Hi. unfold at_now. rewrite runtime_at_set by (rewrite (me_length _ Hm); lia).
  by rewrite decide_True.
Qed.

(** What [serviceSlot] does, by the state of the slot: nothing is queued there,
    or its meter starts, or the while loop runs - and leaves. *)
Lemma serviceSlot_cases src slot now s w :
  sound src (store_ s) w → metered (policy_ s) → (slot < 8)%nat →
  (nr_state (record_at (store_ s) slot) ≠ NodeState.QUEUED
   ∧ serviceSlot slot now (s, w) = (None, (set_runtime slot zeroRuntime s, w)))
  ∨ (nr_state (record_at (store_ s) slot) = NodeState.QUEUED
     ∧ tracked (runtime_at slot s) = false
     ∧ serviceSlot slot now (s, w) = (None, (set_runtime slot (mkRuntime true now 0) s, w)))
  ∨ (nr_state (record_at (store_ s) slot) = NodeState.QUEUED
     ∧ tracked (runtime_at slot s) = true
     ∧ ∃ answer s' w', serviceSlot slot now (s, w) = (answer, (s', w'))
        ∧ whileService slot (at_now slot now s, w) answer (s', w')
        ∧ looped src slot (at_now slot now s) w answer s' w').
Proof.
  intros Hs Hm Hi. destruct (sound_record src (store_ s) w slot Hs Hi) as [Hwf Hp].
  unfold serviceSlot. rewrite bind_this. cbn [id]. rewrite queued_present by done.
  destruct (Z.eqb_spec (nr_state (record_at (store_ s) slot)) NodeState.QUEUED) as [Hq|Hq];
    cbn [negb]; [right|by left].
  destruct (tracked (runtime_at slot s)) eqn:Ht; cbn [negb]; [right|left; by split_and!].
  split; [done|]. split; [done|].
  pose proof (me_below _ Hm slot) as Hb. change (nth slot _ zeroRuntime) with (runtime_at slot s) in Hb.
  assert (He : u64 (uncommittedMilliseconds (runtime_at slot s)
      + u32 (now - baselineMilliseconds (runtime_at slot s)))
    = uncommittedMilliseconds (runtime_at slot s)
      + u32 (now - baselineMilliseconds (runtime_at slot s))).
  { pose proof (u32_range (now - baselineMilliseconds (runtime_at slot s))). uint. }
  rewrite He, <- Ht. fold (elapsed_meter slot now s).
  rewrite (bind_run (update _) _ _ tt (at_now slot now s, w)) by done.
  assert (Hrem : is_u32 (remainingActiveSeconds (record_at (store_ s) slot))) by apply Hwf.
  destruct (loop_cases src slot (serviceTurns slot s) (at_now slot now s) w)
    as (answer & s' & w' & Hw & El & Hlp).
  - done.
  - done.
  - cbn. rewrite length_insert. apply Hm.
  - done.
  - rewrite at_now_meter by done. cbn.
    pose proof (u32_range (now - baselineMilliseconds (runtime_at slot s))). uint.
  - unfold serviceTurns. change (store_ (at_now slot now s)) with (store_ s).
    unfold CHECKPOINT_SECONDS. rewrite Z2Nat.id by (apply Z.div_pos; uint). uint.
  - by exists answer, s', w'.
Qed.

Lemma serviceSlot_run src slot now s w :
  sound src (store_ s) w → metered (policy_ s) → (slot < 8)%nat →
  ∃ answer s' w', serviceSlot slot now (s, w) = (answer, (s', w'))
    ∧ service_run src s w (if answer then false else true) s' w'
    ∧ answer ≠ Some READY.
Proof.
  intros Hs Hm Hi.
  destruct (serviceSlot_cases src slot now s w Hs Hm Hi)
    as [(_ & E)|[(_ & _ & E)|(_ & _ & answer & s' & w' & E & _ & Hlp)]].
  1, 2: do 3 eexists; split; [exact E|]; split; [|done]; apply service_meter; done.
  exists answer, s', w'. split; [done|]. split.
  - unfold at_now in Hlp. rewrite set_runtime_parts in Hlp.
    eapply looped_service; [exact Hlp|done| | |done|done].
    + cbn. rewrite length_insert. apply Hm.
    + intros i Hne. cbn. rewrite nth_lookup, list_lookup_insert_ne by done.
      rewrite <- nth_lookup. apply Hm.
  - intros ->. inversion Hlp. done.
Qed.

Lemma serviceSlots_run src n slot now s w :
  (slot + n = 8)%nat → sound src (store_ s) w → metered (policy_ s) →
  ∃ answer s' w', serviceSlots n slot now (s, w) = (answer, (s', w'))
    ∧ service_run src s w (bool_decide (answer = READY)) s' w'.
Proof.
  revert slot s w. induction n as [|n IH]; intros slot s w Hn Hs Hm; cbn [serviceSlots].
  { do 3 eexists. split; [reflexivity|]. decide_eqs.
    pose proof (service_ok src s w (store_ s) (policy_ s) (observer_ s) w) as Hr.
    replace (with_parts (store_ s) (policy_ s) (observer_ s) s) with s in Hr by by destruct s.
    apply Hr; try done. apply evolves_refl. }
  destruct (serviceSlot_run src slot now s w Hs Hm ltac:(lia)) as (answer & s1 & w1 & E & Hr & Hne).
  rewrite (bind_run _ _ _ _ _ E). destruct answer as [status|].
  - do 3 eexists. split; [reflexivity|]. rewrite bool_decide_eq_false_2 by congruence. exact Hr.
  - inversion Hr as [t1 p1 o1 w1' Hs1 Hf1 Hm1 Hr1 Hb1|]; subst.
    destruct (IH (S slot) (with_parts t1 p1 o1 s) w1) as (answer & s' & w' & E' & Hr'); [lia|done|done|].
    exists answer, s', w'. split; [done|]. by eapply service_run_trans.
Qed.

Lemma policyService_run src now s w :
  sound src (store_ s) w → metered (policy_ s) → ready_ (policy_ s) = true →
  policyBound_ (policy_ s) = true →
  ∃ answer s' w', policyService now (s, w) = (answer, (s', w'))
    ∧ service_run src s w (bool_decide (answer = READY)) s' w'.
Proof.
  intros Hs Hm Hr Hb. unfold policyService.
  set (s1 := with_parts (store_ s) (policy_ s) (EventTxDiagnostics.clock now <$> observer_ s) s).
  rewrite (bind_run _ _ _ _ _ (observe_run (EventTxDiagnostics.clock now) s w)). fold s1.
  rewrite bind_this. cbn [id].
  change (policy_ s1) with (policy_ s). change (store_ s1) with (store_ s).
  rewrite Hr, Hb, (sound_healthy _ _ _ Hs). cbn [negb orb].
  destruct (serviceSlots_run src 8 0 now s1 w eq_refl Hs Hm) as (answer & s' & w' & E & Hrun).
  exists answer, s', w'. split; [done|].
  destruct Hrun as [t' p' o' w' Hs' Hf Hm' Hr' Hb'|t' p' o' w' R' Hh Hrd Hl Hc Hf].
  - by apply (service_ok src s w t' p' o' w').
  - by apply (service_failed src s w t' p' o' w' R').
Qed.

End Durable.

End DeliveryFacts.
