(* ===== verification/DeliveryOps.v ===== *)
(** The delivery controller: its invariant, kept by every handler, and the
    mutations of the store each handler may make. *)

From S2P Require Import Prelude Wire EventWire Copies Records Identity Diagnostics NodeStore NodeQueue NodeFacts NodeOps NodeRecovery Delivery DeliveryFacts.

Module DeliveryOps.

Import EventRecords.
Import NodeEventStore (Store, Storage, record_at, slot_at, recordAt, queuedAt, healthy_,
  MutationStatus, MUTATION_OK, MUTATION_STORAGE_FAILURE, present).
Import NodeFacts NodeOps NodeRecovery NodeEventDelivery DeliveryFacts.

(** ** The invariant of a controller *)

Definition active_record (s : Controller) : NodeRecord := record_at (store_ s) (activeSlot_ s).

(** The active event is queued and an attempt of it was armed. *)
Definition attempted (s : Controller) : Prop :=
  active_ s = true ∧ nr_state (active_record s) = NodeState.QUEUED
  ∧ 1 ≤ attemptsUsed (active_record s).

(** In flight, the Event sent is the active record with some sequence number. *)
Record wired (s : Controller) : Prop := mkWired {
  wi_slot : active_ s = true → (activeSlot_ s < 8)%nat;
  wi_attempted : state_ s = TX ∨ state_ s = WAIT_ADMISSION ∨ state_ s = BACKOFF → attempted s;
  wi_event :
    state_ s = TX ∨ state_ s = WAIT_ADMISSION →
    correlationValid_ s = true
    ∧ ∃ sequence, attemptEvent_ s = attemptOf s sequence (active_record s)
}.

Definition with_state (x : DeliveryState) (s : Controller) : Controller := s <| state_ := x |>.

(** The record of an active slot is found. *)
Lemma record_active s :
  active_ s = true → bound_ s = true → (activeSlot_ s < 8)%nat →
  present (slot_at (store_ s) (activeSlot_ s)) = true → record s = Some (active_record s).
Proof.
  intros Ha Hb Hi Hp. unfold record, recordAt. rewrite Ha, Hb. cbn [andb].
  change NodeEventStore.NODE_EVENT_CAPACITY with 8%nat. by rewrite (proj2 (Nat.ltb_lt _ _) Hi), Hp.
Qed.

(** ** What observation changes *)

Definition observed (s s' : Controller) : Prop :=
  ∃ d o, s' = with_parts (with_diagnostics d (store_ s)) (policy_ s) o s.

Lemma observed_refl s : observed s s.
Proof.
  exists (NodeEventStore.diagnostics_ (store_ s)), (observer_ s).
  destruct s as [[] ?]. reflexivity.
Qed.

Lemma observed_trans s s1 s2 : observed s s1 → observed s1 s2 → observed s s2.
Proof. intros (d & o & ->) (d' & o' & ->). by exists d', o'. Qed.

(** What metering the slots does to a queued record. *)
Definition same_event (r r' : NodeRecord) : Prop :=
  nr_eventEpoch r' = nr_eventEpoch r ∧ nr_eventId r' = nr_eventId r
  ∧ nr_family r' = nr_family r ∧ nr_flags r' = nr_flags r
  ∧ nr_bodyLength r' = nr_bodyLength r ∧ nr_body r' = nr_body r
  ∧ nr_lifetimeBudgetSeconds r' = nr_lifetimeBudgetSeconds r.

Lemma same_event_refl r : same_event r r.
Proof. by unfold same_event. Qed.

Lemma same_event_trans r1 r2 r3 : same_event r1 r2 → same_event r2 r3 → same_event r1 r3.
Proof. unfold same_event. intuition congruence. Qed.

Lemma metering_record op r next :
  metering op r → op_record op r = inr next →
  nr_state r = NodeState.QUEUED ∧ same_event r next ∧ attemptsUsed next = attemptsUsed r
  ∧ (nr_state next = NodeState.QUEUED ∨ nr_state next = NodeState.EXPIRED).
Proof.
  intros (slot & [->| ->]) Hop; cbn [op_record] in Hop;
    destruct (Z.eqb_spec (nr_state r) NodeState.QUEUED) as [Hq|]; cbn [andb] in Hop; try done.
  - destruct (_ && _); [|done]. injection Hop as <-. split; [done|]. split; [done|]. split; [done|].
    by left.
  - injection Hop as <-. split; [done|]. split; [done|]. split; [done|]. by right.
Qed.

Lemma metering_evolves R R' i :
  evolves metering R R' → (i < 8)%nat →
  R' i = R i
  ∨ nr_state (R i) = NodeState.QUEUED ∧ same_event (R i) (R' i)
    ∧ attemptsUsed (R' i) = attemptsUsed (R i)
    ∧ (nr_state (R' i) = NodeState.QUEUED ∨ nr_state (R' i) = NodeState.EXPIRED).
Proof.
  intros He Hi. induction He as [R R' He|R op next R' Hs Hop Ha He IH]; [left; auto|].
  destruct (metering_record _ _ _ Ha Hop) as (Hq & Hsame & Hat & Hst).
  unfold replaced in IH. destruct (decide (i = op_slot op)) as [->|Hne].
  - right. split; [done|]. destruct IH as [-> |(_ & Hs2 & Ha2 & Hst2)]; [done|].
    split; [by eapply same_event_trans|]. split; [congruence|done].
  - exact IH.
Qed.

(** ** The sources outside the flash *)

Class QuietSources (W : Type) `{Storage W} `{EventIdentity.EntropySource W}
    `{!EventIdentity.DurableMetadata W} `{!NodeFacts.DurableEvents W}
    `{SequenceSource W} `{JitterSource W} := {
  next_range (v : Z) (w : W) : is_u8 v → is_u8 (next v w).1.2;
  next_keeps (v : Z) (w : W) : same_flash w (next v w).2;
  nextMilliseconds_range (w : W) : is_u16 (nextMilliseconds w).1;
  nextMilliseconds_keeps (w : W) : same_flash w (nextMilliseconds w).2
}.

Section Durable.

Context {W : Type} `{Storage W} `{!EventIdentity.MetadataStorageLaws W} `{!NodeFacts.StorageLaws W}
  `{EventIdentity.EntropySource W} `{!EventIdentity.DurableMetadata W} `{!NodeFacts.DurableEvents W}
  `{SequenceSource W} `{JitterSource W} `{!QuietSources W}.

Implicit Types (s : Controller) (t : Store) (w : W) (R : nat → NodeRecord).

Lemma sound_same src t w w' : same_flash w w' → sound src t w → sound src t w'.
Proof.
  intros [He Hm] ([? ? ? Hg ? ? ?] & ? & ?). split; [|done]. split; try done.
  - intros i Hi. eapply governs_eq; [|by apply Hg]. intros c. by rewrite He.
  - by eapply in_charge_same.
Qed.

Context (src : Z) (A : Op → NodeRecord → Prop) (R0 : nat → NodeRecord).

Hypothesis allow_metering : ∀ op r, metering op r → A op r.

(** The store holds what allowed operations made of [R0], or the flash does. *)
Definition kept s w : Prop := ∃ R, serving src R (store_ s, w) ∧ evolves A R0 R.

(** The controller and the store work. *)
Record live s w : Prop := mkLive {
  lv_sound : sound src (store_ s) w;
  lv_evolves : evolves A R0 (record_at (store_ s));
  lv_metered : metered (policy_ s);
  lv_ready : ready_ (policy_ s) = true;
  lv_policyBound : policyBound_ (policy_ s) = true;
  lv_initialized : initialized_ s = true;
  lv_bound : bound_ s = true;
  lv_degraded : degraded_ s = false;
  lv_slot : active_ s = true → (activeSlot_ s < 8)%nat
}.

(** Between handlers: the store is kept, and a usable controller is wired. *)
Definition settled s w : Prop :=
  kept s w
  ∧ (usable s = true → metered (policy_ s) ∧ policyBound_ (policy_ s) = true ∧ wired s).

Lemma usable_spec s :
  usable s = true ↔ initialized_ s = true ∧ degraded_ s = false ∧ bound_ s = true
    ∧ healthy_ (store_ s) = true ∧ ready_ (policy_ s) = true.
Proof. unfold usable. zbool. tauto. Qed.

Lemma live_kept s w : live s w → kept s w.
Proof. intros Hl. eexists. split; [by apply serving_done, Hl|apply Hl]. Qed.

Lemma live_usable s w : live s w → usable s = true.
Proof. intros [Hs _ _ ? _ ? ? ? _]. apply usable_spec. apply sound_healthy in Hs. done. Qed.

Lemma live_settled s w : live s w → wired s → settled s w.
Proof. intros Hl Hw. split; [by apply live_kept|]. intros _. by destruct Hl. Qed.

Lemma settled_live s w : settled s w → usable s = true → live s w ∧ wired s.
Proof.
  intros [(R & Hs & He) Hu] Hus. destruct (Hu Hus) as (Hm & Hb & Hw). split; [|done].
  apply usable_spec in Hus as (Hi & Hd & Hbd & Hh & Hr).
  destruct Hs as [[Hs HR]|[Hh' _]]; [|cbn in Hh'; congruence].
  split; try done; [|apply Hw]. eapply evolves_end; [|exact He]. cbn in HR. auto.
Qed.

Lemma unusable_settled s w : kept s w → usable s = false → settled s w.
Proof. intros Hk Hu. split; [done|congruence]. Qed.

Lemma degrade_settled status b s w : kept s w → settled (degrade status b (s, w)).2.1 w.
Proof.
  intros Hk. apply unusable_settled; [exact Hk|]. unfold usable. cbn. by rewrite andb_false_r.
Qed.

Lemma live_present s w i : live s w → (i < 8)%nat → present (slot_at (store_ s) i) = true.
Proof. intros Hl. apply (sound_record src _ w), Hl. Qed.

Lemma live_record s w : live s w → active_ s = true → record s = Some (active_record s).
Proof.
  intros Hl Ha. pose proof (lv_slot _ _ Hl Ha). apply record_active; try done; [apply Hl|].
  by eapply live_present.
Qed.

(** *** Observation *)

Lemma observed_live s s' w : observed s s' → live s w → live s' w.
Proof.
  intros (d & o & ->) []. split; try done. by apply sound_diagnostics.
Qed.

Lemma observed_wired s s' : observed s s' → wired s → wired s'.
Proof. intros (d & o & ->) []. by split. Qed.

Definition quiet_on (m : st (Controller * W) unit) : Prop :=
  ∀ s w, ∃ s', m (s, w) = (tt, (s', w)) ∧ observed s s'.

Lemma quiet_observe f : quiet_on (observe f).
Proof.
  intros s w. eexists. split; [reflexivity|].
  exists (NodeEventStore.diagnostics_ (store_ s)). eexists. by destruct s as [[] ?].
Qed.

Lemma quiet_diagnose f : quiet_on (diagnose f).
Proof.
  intros s w. unfold diagnose, update, modify. cbn [fst snd]. eexists. split; [reflexivity|].
  destruct (diagnosed_ s); [|apply observed_refl].
  eexists _, (observer_ s). reflexivity.
Qed.

Lemma quiet_on_ret : quiet_on (ret tt).
Proof. intros s w. exists s. split; [done|apply observed_refl]. Qed.

Lemma quiet_on_bind m m' : quiet_on m → quiet_on m' → quiet_on (m ;;; m').
Proof.
  intros Hm Hm' s w. destruct (Hm s w) as (s1 & E1 & H1'). destruct (Hm' s1 w) as (s2 & E2 & H2').
  exists s2. rewrite (bind_run _ _ _ _ _ E1). split; [done|by eapply observed_trans].
Qed.

Lemma quiet_on_if (b : bool) m m' : quiet_on m → quiet_on m' → quiet_on (if b then m else m').
Proof. by destruct b. Qed.

Lemma quiet_noteExpired n slot before now : quiet_on (noteExpired n slot before now).
Proof.
  revert slot. induction n as [|n IH]; intros slot; cbn [noteExpired]; [apply quiet_on_ret|].
  intros s w. rewrite bind_this.
  refine (quiet_on_bind _ _ (quiet_on_if _ _ _ _ quiet_on_ret) (IH (S slot)) s w).
  apply quiet_observe.
Qed.

Lemma quiet_run {X} m (k : unit → st (Controller * W) X) s w :
  quiet_on m → ∃ s', (u <~ m ;; k u) (s, w) = k tt (s', w) ∧ observed s s'.
Proof.
  intros Hm. destruct (Hm s w) as (s' & E & Ho). exists s'. by rewrite (bind_run _ _ _ _ _ E).
Qed.

Lemma changeState_run next now s w :
  ∃ s', changeState next now (s, w) = (tt, (with_state next s', w)) ∧ observed s s'.
Proof.
  unfold changeState. rewrite bind_this.
  assert (Hq : quiet_on (match changeCounter next s with Some c => note c now | None => ret tt end)).
  { destruct (changeCounter next s); [apply quiet_observe|apply quiet_on_ret]. }
  destruct (quiet_run _ (λ _, update (λ s, s <| state_ := next |>)) s w Hq) as (s' & E & Ho).
  exists s'. by rewrite E.
Qed.

Lemma live_clear s w : live s w → live (clearAttempt s) w.
Proof. by intros []. Qed.

Lemma live_state x s w : live s w → live (with_state x s) w.
Proof. by intros []. Qed.

(** *** A service inside a handler *)

(** [s'] is [s] after a service that did not end the active event. *)
Definition serviced_from s s' : Prop :=
  ∃ t' p' o', s' = with_parts t' p' o' s ∧ evolves metering (record_at (store_ s)) (record_at t')
    ∧ (active_ s = true → nr_state (record_at t' (activeSlot_ s)) ≠ NodeState.EXPIRED).

(** What the controller knows of its active event survives such a service. *)
Lemma serviced_attempted s s' :
  serviced_from s s' → (activeSlot_ s < 8)%nat → attempted s →
  attempted s' ∧ same_event (active_record s) (active_record s').
Proof.
  intros (t' & p' & o' & -> & He & Hne) Hi (Ha & Hq & H1').
  unfold attempted, active_record in *. cbn [store_ activeSlot_ active_ with_parts].
  destruct (metering_evolves _ _ _ He Hi) as [->|(_ & Hs & Hat & Hst)].
  - split; [done|apply same_event_refl].
  - split; [|done]. rewrite Hat. split; [done|]. split; [|done].
    destruct Hst as [?|Hx]; [done|]. by destruct (Hne Ha).
Qed.

Lemma attemptOf_same s s' sequence r r' :
  source_ s' = source_ s → destination_ s' = destination_ s → same_event r r' →
  attemptOf s' sequence r' = attemptOf s sequence r.
Proof. unfold attemptOf. intros -> -> (-> & -> & -> & -> & -> & -> & ->). done. Qed.

Lemma serviced_wired s s' : serviced_from s s' → wired s → wired s'.
Proof.
  intros Hsv [Hi Hat Hev]. pose proof Hsv as (t' & p' & o' & E & _ & _).
  assert (Hst : state_ s' = state_ s) by by rewrite E.
  assert (Hkeep : attempted s → attempted s' ∧ same_event (active_record s) (active_record s')).
  { intros Ha. apply serviced_attempted; [done|by apply Hi, Ha|done]. }
  split.
  - rewrite E. exact Hi.
  - rewrite Hst. intros Hs. by apply Hkeep, Hat.
  - rewrite Hst. intros Hs. destruct (Hev Hs) as (Hc & seq & He).
    destruct Hkeep as [_ Hsame]; [by apply Hat; tauto|].
    split; [by rewrite E|]. exists seq. rewrite (attemptOf_same s s' seq (active_record s)); try by rewrite E.
    done.
Qed.

Lemma service_live s w ok s' w' :
  live s w → service_run src s w ok s' w' → if ok then live s' w' else kept s' w' ∧ usable s' = false.
Proof.
  intros [Hs He Hm Hr Hb Hi Hbd Hd Hsl] Hrun.
  destruct Hrun as [t' p' o' w' Hs' He' Hm' Hr' Hb'|t' p' o' w' R' Hh Hrd Hl Hc He'].
  - split; try done; cbn; try congruence.
    eapply evolves_trans; [exact He|]. by eapply evolves_weaken.
  - split.
    + exists R'. split; [by right|]. eapply evolves_trans; [exact He|]. by eapply evolves_weaken.
    + unfold usable. cbn. by rewrite Hrd, !andb_false_r.
Qed.

Lemma service_from s w s' w' :
  service_run src s w true s' w' →
  (active_ s = true → nr_state (active_record s') ≠ NodeState.EXPIRED) → serviced_from s s'.
Proof. intros Hrun. inversion Hrun; subst. intros Hne. by do 3 eexists. Qed.

Lemma kept_degraded s w r :
  kept s w → settled (s <| degraded_ := true |> <| degradedResult_ := r |>) w.
Proof.
  intros Hk. apply unusable_settled; [exact Hk|]. unfold usable. cbn. by rewrite andb_false_r.
Qed.

Lemma observed_serviced s w s1 w1 s2 :
  service_run src s w true s1 w1 → observed s1 s2 →
  (active_ s = true → nr_state (active_record s2) ≠ NodeState.EXPIRED) → serviced_from s s2.
Proof.
  intros Hrun (d & o & ->) Hne. inversion Hrun as [t' p' o' w' Hs He Hm Hr Hb|]; subst.
  by exists (with_diagnostics d t'), p', o.
Qed.

Lemma serviceLifetime_cases now s w :
  live s w →
  ∃ s' w',
   (serviceLifetime now (s, w) = (false, (s', w')) ∧ settled s' w'
      ∧ usable s' = false ∧ degradedResult_ s' = receiving (result POLICY_FAILURE))
   ∨ (serviceLifetime now (s, w) = (true, (s', w')) ∧ live s' w' ∧ state_ s' = D_EXPIRED ∧ active_ s' = true)
   ∨ (serviceLifetime now (s, w) = (true, (s', w')) ∧ live s' w' ∧ serviced_from s s').
Proof.
  intros Hl. unfold serviceLifetime. rewrite bind_this.
  destruct (policyService_run src now s w) as (answer & s1 & w1 & E & Hrun); try apply Hl.
  pose proof (service_live s w _ s1 w1 Hl Hrun) as Hl1. rewrite (bind_run _ _ _ _ _ E).
  destruct (decide (answer = READY)) as [->|Hne].
  2:{ rewrite bool_decide_eq_false_2 in * by done. cbn [negb]. do 2 eexists. left.
      split; [reflexivity|]. split; [by apply kept_degraded, Hl1|]. split; [|done].
      unfold usable. cbn. by rewrite andb_false_r. }
  rewrite bool_decide_eq_true_2 in * by done. cbn [negb].
  change NodeEventStore.NODE_EVENT_CAPACITY with 8%nat. set (before := map _ _).
  destruct (quiet_noteExpired 8 0 before now s1 w1) as (s2 & E2 & Ho2).
  rewrite (bind_run _ _ _ _ _ E2), bind_this. pose proof (observed_live _ _ _ Ho2 Hl1) as Hl2.
  destruct (active_ s2) eqn:Ha2.
  - rewrite (live_record _ _ Hl2 Ha2).
    destruct (Z.eqb_spec (nr_state (active_record s2)) NodeState.EXPIRED) as [Hx|Hx].
    + destruct (changeState_run D_EXPIRED now s2 w1) as (s3 & E3 & Ho3).
      exists (clearAttempt (with_state D_EXPIRED s3)), w1. right; left. split; [|split; [|split; [done|]]].
      * unfold bind. by rewrite E3.
      * apply live_clear, live_state. by eapply observed_live.
      * by destruct Ho3 as (d & o & ->).
    + exists s2, w1. right; right. split; [done|]. split; [done|].
      by eapply observed_serviced.
  - exists s2, w1. right; right. unfold record. rewrite Ha2. cbn [andb]. split; [done|].
    split; [done|]. eapply observed_serviced; [done..|].
    destruct Ho2 as (d & o & ->). inversion Hrun; subst. cbn in Ha2. congruence.
Qed.

(** The fate of the active event is decided, or the controller gave up. *)
Definition decided (s : Controller) : Prop :=
  usable s = false ∨ (active_ s = true ∧ (state_ s = D_FAILED ∨ state_ s = D_EXPIRED)).

(** A handler that starts with a service: the service failed, or ended the
    active event, and the answer is to receive; or the rest of the handler runs
    after it. *)
Lemma serviced_cases now k s w :
  live s w →
  (∃ r s' w', serviced now k (s, w) = (r, (s', w')) ∧ settled s' w'
     ∧ (active_ s = true → decided s') ∧ action_type (result_action r) = RECEIVE)
  ∨ (∃ s' w', serviced now k (s, w) = k (s', w') ∧ live s' w' ∧ serviced_from s s'
       ∧ state_ s ≠ D_EXPIRED).
Proof.
  intros Hl. unfold serviced.
  destruct (serviceLifetime_cases now s w Hl) as (s1 & w1 & [(E & Hs & Hu & Hd)|[(E & Hl1 & Hx & Hax)|(E & Hl1 & Hf)]]);
    rewrite (bind_run _ _ _ _ _ E); cbn [negb].
  - left. exists (degradedResult_ s1), s1, w1. split; [done|]. split; [done|]. split; [by left|].
    by rewrite Hd.
  - rewrite bind_this, Hx. decide_eqs. left. do 3 eexists. split; [reflexivity|].
    split; [|by split; [intros _; right; auto|]].
    apply live_settled; [done|]. split; [apply Hl1|rewrite Hx; naive_solver..].
  - rewrite bind_this.
    assert (Hst : state_ s1 = state_ s) by by destruct Hf as (t' & p' & o' & -> & _).
    destruct (decide (state_ s = D_EXPIRED)) as [Hx|Hx].
    + left. rewrite Hst, Hx. decide_eqs. do 3 eexists.
      split; [reflexivity|]. split; [|split; [|done]].
      2:{ intros Ha. right. rewrite Hst, Hx. destruct Hf as (t' & p' & o' & -> & _). auto. }
      apply live_settled; [done|]. split; [apply Hl1|rewrite Hst, Hx; naive_solver..].
    + right. rewrite Hst, bool_decide_eq_false_2 by done. by exists s1, w1.
Qed.

(** *** The mutations of a handler *)

(** A mutation of the active slot that the handler checks. *)
Lemma active_mutation op (m : st (Store * W) MutationStatus) s w :
  run_op op = (a <~ m ;; ret (inl a)) →
  accepted op = inl MUTATION_OK → storage_failed op = inl MUTATION_STORAGE_FAILURE →
  live s w → op_wf op → (op_slot op < 8)%nat → A op (record_at (store_ s) (op_slot op)) →
  ∃ a t' w', on_store m (s, w) = (a, (with_parts t' (policy_ s) (observer_ s) s, w'))
   ∧ kept (with_parts t' (policy_ s) (observer_ s) s) w'
   ∧ (a = MUTATION_OK → ∃ next, op_record op (record_at (store_ s) (op_slot op)) = inr next
        ∧ (∀ j, record_at t' j = replaced (op_slot op) next (record_at (store_ s)) j)
        ∧ live (with_parts t' (policy_ s) (observer_ s) s) w').
Proof.
  intros Hrun Ha Hf Hl Hwf Hi HA. pose proof (lv_sound _ _ Hl) as Hs.
  destruct (op_record op (record_at (store_ s) (op_slot op))) as [refusal|next] eqn:Hop.
  - pose proof (op_refines_spec src (store_ s) w op Hs Hwf) as Hr. unfold op_refines, op_spec in Hr.
    change NodeEventStore.NODE_EVENT_CAPACITY with 8%nat in Hr.
    rewrite (proj2 (Nat.ltb_lt _ _) Hi), Hop, Hrun in Hr. unfold bind in Hr.
    destruct (m (store_ s, w)) as [a [t1 w1]] eqn:E. cbn in Hr. injection Hr as <- -> ->.
    exists a, (store_ s), w. split; [by apply on_store_run|].
    replace (with_parts (store_ s) (policy_ s) (observer_ s) s) with s by by destruct s.
    split; [by apply live_kept|]. intros ->. exfalso.
    by destruct op; cbn in Hop; repeat case_match.
  - destruct (mutation_cases src (store_ s) w op next m Hrun Ha Hf Hs Hwf Hi Hop)
      as (t' & w' & [(E & Hm)|(E & Hb)]).
    + exists MUTATION_OK, t', w'. split; [by apply on_store_run|].
      assert (Hl' : live (with_parts t' (policy_ s) (observer_ s) s) w').
      { destruct Hl. split; try done; [apply Hm|]. cbn. eapply evolves_trans; [done|].
        by eapply mutated_evolves. }
      split; [by apply live_kept|]. intros _. exists next. split; [done|]. split; [apply Hm|done].
    + exists MUTATION_STORAGE_FAILURE, t', w'. split; [by apply on_store_run|]. split; [|done].
      destruct (broken_evolves A src _ op next t' w' Hi Hop HA Hb) as (Hh & R' & Hc & He).
      exists R'. split; [by right|]. eapply evolves_trans; [apply Hl|done].
Qed.

Definition exhausted_allowed : Prop :=
  ∀ slot r, MAX_ATTEMPTS ≤ attemptsUsed r → A (MarkFailed slot) r.

Lemma wired_over s : terminal s = true → (active_ s = true → (activeSlot_ s < 8)%nat) → wired s.
Proof.
  unfold terminal. intros Ht Hi. split; [done|..]; destruct (state_ s); naive_solver.
Qed.

(** The active event failed. *)
Definition failed s : Prop := active_ s = true ∧ state_ s = D_FAILED.

Lemma markFailed_cases s w :
  live s w → active_ s = true → A (MarkFailed (activeSlot_ s)) (active_record s) →
  ∃ b s' w', markFailed (s, w) = (b, (s', w')) ∧ kept s' w'
    ∧ (b = true → live s' w' ∧ failed s').
Proof.
  intros Hl Ha HA. pose proof (lv_slot _ _ Hl Ha) as Hi. unfold markFailed. rewrite bind_this.
  destruct (active_mutation (MarkFailed (activeSlot_ s)) (NodeEventStore.markFailed (activeSlot_ s)) s w
    eq_refl eq_refl eq_refl Hl I Hi HA) as (a & t' & w' & E & Hk & Hok).
  rewrite (bind_run _ _ _ _ _ E).
  destruct (decide (a = MUTATION_OK)) as [->|Hne].
  - decide_eqs. cbn [negb]. destruct (Hok eq_refl) as (next & _ & _ & Hl').
    exists true, (clearAttempt (with_state D_FAILED (with_parts t' (policy_ s) (observer_ s) s))), w'.
    assert (Hl2 : live (clearAttempt (with_state D_FAILED
      (with_parts t' (policy_ s) (observer_ s) s))) w') by by apply live_clear, live_state.
    split; [reflexivity|]. split; [by apply live_kept|]. done.
  - rewrite bool_decide_eq_false_2 by done. cbn [negb]. do 3 eexists. split; [reflexivity|].
    by split.
Qed.

(** The end of a handler: the controller is settled, and says so. *)
Definition ending (r ok : ControllerResult) (P : Controller → Prop) s w : Prop :=
  settled s w ∧ ((r = ok ∧ live s w ∧ P s) ∨ (usable s = false ∧ action_type (result_action r) = RECEIVE)).

Lemma ending_degraded r ok P status s w :
  kept s w → r = receiving (result status) →
  ending r ok P (s <| degraded_ := true |> <| degradedResult_ := r |>) w.
Proof.
  intros Hk ->. split; [by apply kept_degraded|]. right. split; [|done].
  unfold usable. cbn. by rewrite andb_false_r.
Qed.

(** [markFailed], and the answer of its callers. *)
Lemma fail_event_cases s w (ok : ControllerResult) :
  live s w → active_ s = true → A (MarkFailed (activeSlot_ s)) (active_record s) →
  ∃ r s' w', (marked <~ markFailed ;;
      if negb marked then degrade STORAGE_FAILURE true else ret ok) (s, w) = (r, (s', w'))
    ∧ ending r ok failed s' w'.
Proof.
  intros Hl Ha HA. destruct (markFailed_cases s w Hl Ha HA) as (b & s1 & w1 & E & Hk & Hs).
  rewrite (bind_run _ _ _ _ _ E). destruct b; cbn [negb].
  - destruct (Hs eq_refl) as [Hl1 Hf]. pose proof Hf as [_ Hfs]. do 3 eexists. split; [reflexivity|].
    split; [|by left]. apply live_settled; [done|]. apply wired_over; [|by apply Hl1].
    unfold terminal. by rewrite Hfs.
  - do 3 eexists. split; [reflexivity|]. by eapply ending_degraded.
Qed.

Lemma bind_outside {X Y} (m : st W X) (k : X → st (Controller * W) Y) s w :
  (x <~ outside m ;; k x) (s, w) = k (m w).1 (s, (m w).2).
Proof. unfold outside, zoom, bind. cbn. by destruct (m w). Qed.

Lemma live_same s w w' : same_flash w w' → live s w → live s w'.
Proof. intros Hs []. split; try done. by eapply sound_same. Qed.

Lemma attempted_observed s s' : observed s s' → attempted s → attempted s'.
Proof. by intros (d & o & ->). Qed.

Lemma attempted_wired s :
  attempted s → (activeSlot_ s < 8)%nat → state_ s ≠ TX → state_ s ≠ WAIT_ADMISSION → wired s.
Proof. intros Ha Hi Ht Hw. split; [done|done|naive_solver]. Qed.

Definition with_deadline (now duration : Z) s : Controller :=
  s <| deadlineOrigin_ := now |> <| deadlineDuration_ := duration |>.

Lemma live_deadline now d s w : live s w → live (with_deadline now d s) w.
Proof. by intros []. Qed.

(** The delay before the next attempt after [attempts] of them. *)
Definition backoff_delay (attempts jitter : Z) : Z := 1000 * 2 ^ (attempts - 1) + jitter.

Lemma backoffBase_delay attempts jitter :
  1 ≤ attempts < MAX_ATTEMPTS → 0 ≤ jitter ≤ 250 →
  u32 (backoffBase (u32 (attempts - 1)) + jitter) = backoff_delay attempts jitter.
Proof.
  unfold MAX_ATTEMPTS, backoff_delay. intros Ha Hj.
  assert (attempts = 1 ∨ attempts = 2 ∨ attempts = 3 ∨ attempts = 4) as [->|[->|[->| ->]]] by lia;
    match goal with |- context [backoffBase ?x] => let v := eval vm_compute in (backoffBase x) in
      change (backoffBase x) with v end;
    match goal with |- context [2 ^ ?x] => let v := eval vm_compute in (2 ^ x) in
      change (2 ^ x) with v end; uint.
Qed.

(** After a failed attempt that was not the last the controller backs off. *)
Definition backed_off (s : Controller) (now : Z) (s' : Controller) : Prop :=
  attemptsUsed (active_record s) < MAX_ATTEMPTS ∧ active_ s' = true ∧ state_ s' = BACKOFF
  ∧ active_record s' = active_record s ∧ deadlineOrigin_ s' = now
  ∧ ∃ jitter, 0 ≤ jitter ≤ 250
      ∧ deadlineDuration_ s' = backoff_delay (attemptsUsed (active_record s)) jitter.

(** A failed attempt fails the event when it was its last, and otherwise backs
    off for a delay that doubles with every attempt. *)
Lemma failedAttempt_cases now evidence s w :
  exhausted_allowed → live s w → attempted s →
  ∃ r s' w', failedAttempt now evidence (s, w) = (r, (s', w'))
    ∧ ending r receiveResult
        (λ s', (MAX_ATTEMPTS ≤ attemptsUsed (active_record s) ∧ failed s')
               ∨ backed_off s now s') s' w'.
Proof.
  intros Hex Hl Hat. unfold failedAttempt.
  destruct (quiet_on_if evidence (diagnose (RuntimeState.setHubUnavailable true)) (ret tt)
    (quiet_diagnose _) quiet_on_ret s w) as (s1 & E1 & Ho1).
  rewrite (bind_run _ _ _ _ _ E1), bind_this.
  pose proof (observed_live _ _ _ Ho1 Hl) as Hl1. pose proof (attempted_observed _ _ Ho1 Hat) as Hat1.
  assert (Hrec : active_record s1 = active_record s) by by destruct Ho1 as (d & o & ->).
  rewrite (live_record _ _ Hl1) by apply Hat1.
  pose proof (lv_slot _ _ Hl1 (proj1 Hat1)) as Hi. rewrite Hrec.
  destruct (Z.leb_spec MAX_ATTEMPTS (attemptsUsed (active_record s))) as [Hmax|Hmax].
  - destruct (fail_event_cases s1 w receiveResult Hl1 (proj1 Hat1)) as (r & s' & w' & E & Hs & Hr).
    { rewrite Hrec. by apply Hex. }
    exists r, s', w'. split; [done|]. split; [done|]. naive_solver.
  - pose proof (nextMilliseconds_range w) as Hj. pose proof (nextMilliseconds_keeps w) as Hjk.
    rewrite bind_outside. destruct (nextMilliseconds w) as [jitter w1]. cbn [fst snd] in *.
    pose proof (live_same _ _ _ Hjk Hl1) as Hlw. unfold MAX_BACKOFF_JITTER_MILLISECONDS.
    destruct (Z.ltb_spec 250 jitter) as [Hbig|Hsmall].
    { do 3 eexists. split; [reflexivity|]. eapply ending_degraded; [by apply live_kept|done]. }
    rewrite backoffBase_delay by (destruct Hat as (_ & _ & ?); uint).
    rewrite bind_update. fold (with_deadline now (backoff_delay (attemptsUsed (active_record s)) jitter) s1).
    set (s2 := with_deadline _ _ s1).
    destruct (changeState_run BACKOFF now s2 w1) as (s3 & E3 & Ho3).
    rewrite (bind_run _ _ _ _ _ E3). do 3 eexists. split; [reflexivity|].
    assert (Hl3 : live (with_state BACKOFF s3) w1).
    { apply live_state. eapply observed_live; [exact Ho3|]. by apply live_deadline. }
    assert (Hat3 : attempted (with_state BACKOFF s3)) by by destruct Ho3 as (d & o & ->).
    split.
    + apply live_settled; [done|]. apply attempted_wired; try done. apply Hl3, Hat3.
    + left. split; [done|]. split; [done|]. right. split; [done|].
      split; [apply Hat3|]. split; [done|].
      destruct Ho3 as (d & o & ->). split; [done|]. split; [done|]. exists jitter.
      split; [uint|done].
Qed.

End Durable.

End DeliveryOps.
