(* ===== verification/DeliveryCalls.v ===== *)
(** The calls on the delivery controller: each one keeps the invariant, and
    changes the store by the operations permitted to it. *)

From S2P Require Import Prelude Wire EventWire Copies Records Identity Diagnostics NodeStore NodeQueue NodeFacts NodeOps NodeRecovery Delivery DeliveryFacts DeliveryOps.

Module DeliveryCalls.

Import EventRecords.
Import NodeEventStore (Store, Storage, record_at, slot_at, recordAt, queuedAt, healthy_,
  MutationStatus, MUTATION_OK, MUTATION_STORAGE_FAILURE, present, NODE_EVENT_CAPACITY).
Import NodeQueue NodeFacts NodeOps NodeRecovery NodeEventDelivery DeliveryFacts DeliveryOps.

Section Durable.

Context {W : Type} `{Storage W} `{!EventIdentity.MetadataStorageLaws W} `{!NodeFacts.StorageLaws W}
  `{EventIdentity.EntropySource W} `{!EventIdentity.DurableMetadata W} `{!NodeFacts.DurableEvents W}
  `{SequenceSource W} `{JitterSource W} `{!QuietSources W}.

Implicit Types (s : Controller) (t : Store) (w : W) (R : nat → NodeRecord).

Context (src : Z) (A : Op → NodeRecord → Prop) (R0 : nat → NodeRecord).

Hypothesis allow_metering : ∀ op r, metering op r → A op r.

Hypothesis allow_exhausted : exhausted_allowed A.

Abbreviation live := (live src A R0).

Abbreviation settled := (settled src A R0).

Abbreviation kept := (kept src A R0).

(** A handler, run on [s] and [w], leaves the controller settled; [Q] holds of
    its answer and of the controller. *)
Definition ends {X} (Q : X → Controller → Prop) (m : st (Controller * W) X) s w : Prop :=
  settled (m (s, w)).2.1 (m (s, w)).2.2 ∧ Q (m (s, w)).1 (m (s, w)).2.1.

(** The answer asks for no transmission. *)
Definition harmless (r : ControllerResult) (s : Controller) : Prop :=
  action_type (result_action r) ≠ TRANSMIT.

Lemma ends_run {X} (Q : X → Controller → Prop) m s w r s' w' :
  m (s, w) = (r, (s', w')) → settled s' w' → Q r s' → ends Q m s w.
Proof. unfold ends. by intros ->. Qed.

Lemma ends_same {X} (Q : X → Controller → Prop) m m' s w s1 w1 : m (s, w) = m' (s1, w1) → ends Q m' s1 w1 → ends Q m s w.
Proof. unfold ends. by intros ->. Qed.

Lemma ends_bind {X Y} (Q : Y → Controller → Prop) (m : st (Controller * W) X) k s w x s1 w1 :
  m (s, w) = (x, (s1, w1)) → ends Q (k x) s1 w1 → ends Q (bind m k) s w.
Proof. intros E. apply ends_same. by apply bind_run. Qed.

Lemma ends_assoc {X Y Z} (Q : Z → Controller → Prop) (m : st (Controller * W) X)
    (k : X → st (Controller * W) Y) k' s w :
  ends Q (x <~ m ;; y <~ k x ;; k' y) s w → ends Q (y <~ (x <~ m ;; k x) ;; k' y) s w.
Proof. apply ends_same. unfold bind. by destruct (m (s, w)). Qed.

Lemma ends_ret {X} (Q : X → Controller → Prop) r s w : settled s w → Q r s → ends Q (ret r) s w.
Proof. by split. Qed.

Lemma ends_update {X} (Q : X → Controller → Prop) f k s w : ends Q k (f s) w → ends Q (update f ;;; k) s w.
Proof. done. Qed.

Lemma ends_this {X Y} (Q : Y → Controller → Prop) (f : Controller → X) k s w : ends Q (k (f s)) s w → ends Q (x <~ this f ;; k x) s w.
Proof. done. Qed.

(** The answer asks for no transmission, and nothing more will come of this
    event. *)
Definition over (r : ControllerResult) (s : Controller) : Prop := harmless r s ∧ decided s.

Lemma ends_conseq {X} (Q Q' : X → Controller → Prop) m s w :
  ends Q m s w → (∀ r s', Q r s' → Q' r s') → ends Q' m s w.
Proof. intros [? ?] HQ. split; auto. Qed.

Lemma ends_over m s w : ends over m s w → ends harmless m s w.
Proof. intros Hm. eapply ends_conseq; [exact Hm|]. by intros r s' []. Qed.

Lemma ends_ending m ok P s w :
  (∃ r s' w', m (s, w) = (r, (s', w')) ∧ ending src A R0 r ok P s' w') →
  action_type (result_action ok) ≠ TRANSMIT →
  ends (λ r s', harmless r s' ∧ (P s' ∨ usable s' = false)) m s w.
Proof.
  intros (r & s' & w' & E & Hs & Hr) Hok. eapply ends_run; [exact E|done|]. unfold harmless.
  destruct Hr as [(-> & _ & HP)|[Hu ->]]; [by auto|]. by split; [|right].
Qed.

Lemma degrade_over status b s w : kept s w → ends over (degrade status b) s w.
Proof.
  intros Hk. eapply ends_run; [reflexivity|by apply kept_degraded|]. split; [by destruct b|].
  left. unfold usable. cbn. by rewrite andb_false_r.
Qed.

Lemma ends_degrade status b s w : kept s w → ends harmless (degrade status b) s w.
Proof. intros Hk. by apply ends_over, degrade_over. Qed.

(** Outside a transmission and its answer a slot in range is all it takes. *)
Lemma wired_idle s :
  (active_ s = true → (activeSlot_ s < 8)%nat) →
  state_ s ≠ TX → state_ s ≠ WAIT_ADMISSION → state_ s ≠ BACKOFF → wired s.
Proof. intros Hi Ht Hw Hb. split; [done|naive_solver..]. Qed.

Lemma settled_idle s w :
  live s w → state_ s ≠ TX → state_ s ≠ WAIT_ADMISSION → state_ s ≠ BACKOFF → settled s w.
Proof. intros Hl ???. apply live_settled; [done|]. apply wired_idle; try done. apply Hl. Qed.

Lemma wired_active s :
  wired s → state_ s = TX ∨ state_ s = WAIT_ADMISSION ∨ state_ s = BACKOFF → attempted s.
Proof. intros Hw. apply Hw. Qed.

Lemma observed_state s s' : observed s s' → state_ s' = state_ s.
Proof. by intros (d & o & ->). Qed.

Lemma settled_changed next s w s' :
  observed s s' → live s w →
  next ≠ TX → next ≠ WAIT_ADMISSION → next ≠ BACKOFF → settled (with_state next s') w.
Proof. intros Ho Hl ???. apply settled_idle; try done. apply live_state. by eapply observed_live. Qed.

(** [serviced], for a handler that asks for no transmission while it waits. *)
Lemma ends_serviced Q now k s w :
  live s w → (∀ r s', (active_ s = true → decided s') → action_type (result_action r) = RECEIVE → Q r s') →
  (∀ s' w', live s' w' → serviced_from s s' → ends Q k s' w') → ends Q (serviced now k) s w.
Proof.
  intros Hl HQ Hk.
  destruct (serviced_cases src A R0 allow_metering now k s w Hl)
    as [(r & s' & w' & E & Hs & Hd & Hr)|(s' & w' & E & Hl' & Hf & _)].
  - eapply ends_run; [exact E|done|by apply HQ].
  - eapply ends_same; [exact E|by apply Hk].
Qed.

Lemma harmless_receive r s : action_type (result_action r) = RECEIVE → harmless r s.
Proof. unfold harmless. by intros ->. Qed.

Lemma ends_quiet {X} (Q : X → Controller → Prop) (m : st (Controller * W) unit) k s w :
  quiet_on m → (∀ s', observed s s' → ends Q (k tt) s' w) → ends Q (bind m k) s w.
Proof. intros Hm Hk. destruct (Hm s w) as (s' & E & Ho). eapply ends_bind; [exact E|by apply Hk]. Qed.

Lemma ends_change {X} (Q : X → Controller → Prop) next now k s w :
  (∀ s', observed s s' → ends Q (k tt) (with_state next s') w) → ends Q (bind (changeState next now) k) s w.
Proof.
  intros Hk. destruct (changeState_run next now s w) as (s' & E & Ho).
  eapply ends_bind; [exact E|by apply Hk].
Qed.

Lemma attempted_failing now evidence s w :
  live s w → attempted s → ends harmless (failedAttempt now evidence) s w.
Proof.
  intros Hl Ha. eapply ends_conseq; [eapply ends_ending; [by eapply failedAttempt_cases|done]|].
  by intros r s' [].
Qed.

Lemma failing_over (ok : ControllerResult) s w :
  live s w → active_ s = true → A (MarkFailed (activeSlot_ s)) (active_record s) →
  action_type (result_action ok) ≠ TRANSMIT →
  ends over (marked <~ markFailed ;;
    if negb marked then degrade STORAGE_FAILURE true else ret ok) s w.
Proof.
  intros Hl Ha HA Hok. eapply ends_conseq; [eapply ends_ending; [by apply fail_event_cases|done]|].
  intros r s' [Hh [[Hac Hf]|Hu]]; (split; [done|]); [right|left]; auto.
Qed.

Lemma failing_event (ok : ControllerResult) s w :
  live s w → active_ s = true → A (MarkFailed (activeSlot_ s)) (active_record s) →
  action_type (result_action ok) ≠ TRANSMIT →
  ends harmless (marked <~ markFailed ;;
    if negb marked then degrade STORAGE_FAILURE true else ret ok) s w.
Proof. intros Hl Ha HA Hok. by apply ends_over, failing_over. Qed.

(** ** Service *)

Lemma serviceState_ends now sync s w :
  live s w → wired s → active_ s = true → ends harmless (serviceState now sync) s w.
Proof.
  intros Hl Hw Ha. unfold serviceState. apply ends_this. cbn [id].
  destruct (state_ s) eqn:Hst.
  - rewrite (live_record _ _ _ s w Hl Ha).
    destruct (Z.leb_spec MAX_ATTEMPTS (attemptsUsed (active_record s))) as [Hmax|_].
    + apply failing_event; try done. by apply allow_exhausted.
    + destruct sync; cbn [negb].
      * apply ends_ret; [|done]. apply settled_idle; congruence.
      * apply ends_change. intros s' Ho. apply ends_ret; [|done]. by eapply settled_changed.
  - apply ends_update, ends_ret; [|done]. destruct sync.
    + apply settled_idle; try done. by apply live_state.
    + apply settled_idle; congruence.
  - apply ends_ret; [|done]. by apply live_settled.
  - apply ends_ret; [|done]. by apply live_settled.
  - destruct (_ <=? _).
    + apply ends_quiet; [apply quiet_observe|]. intros s' Ho.
      apply attempted_failing; [by eapply observed_live|].
      eapply attempted_observed; [exact Ho|]. apply wired_active; [done|]. by rewrite Hst; auto.
    + apply ends_ret; [|done]. by apply live_settled.
  - destruct (_ <=? _).
    + apply ends_assoc, ends_quiet; [apply quiet_observe|]. intros s' Ho.
      apply ends_change. intros s2 Ho2. apply ends_ret; [|done].
      destruct sync; (apply (settled_changed _ s); [by eapply observed_trans|done..]).
    + apply ends_ret; [|done]. by apply live_settled.
  - apply ends_ret; [|done]. by apply live_settled.
  - apply ends_ret; [|done]. by apply live_settled.
  - apply ends_ret; [|done]. by apply live_settled.
Qed.

(** Loading the head of the queue. *)
Lemma queuedAt_slot t w k r i :
  sound src t w → queuedAt k t = Some (r, i) → (i < 8)%nat ∧ r = record_at t i ∧ nr_state r = NodeState.QUEUED.
Proof.
  intros (_ & (Hp & _ & Hl & Hc) & _) Hq. apply queuedAt_lookup in Hq as [Hk ->]; [|lia].
  apply list_elem_of_lookup_2 in Hk. rewrite Hp in Hk. apply queuedSlots_in in Hk as [Hi Hq].
  split; [done|]. split; [done|]. unfold NodeQueue.queued in Hq. zbool. by apply Hq.
Qed.

Lemma loadHead_cases s w :
  live s w → live (loadHead s) w
    ∧ (loadHead s = s ∨ active_ (loadHead s) = true ∧ state_ (loadHead s) = D_QUEUED).
Proof.
  intros Hl. unfold loadHead. rewrite (lv_bound _ _ _ _ _ Hl).
  destruct (queuedAt 0 (store_ s)) as [[r i]|] eqn:Hq; [|by auto].
  destruct (queuedAt_slot _ w 0 r i (lv_sound _ _ _ _ _ Hl) Hq) as (Hi & _).
  split; [|by right]. by destruct Hl.
Qed.

Lemma wired_loadHead s w : live s w → wired s → wired (loadHead s).
Proof.
  intros Hl Hw. destruct (loadHead_cases s w Hl) as (Hl' & [->|[_ Hq]]); [done|].
  apply wired_idle; [apply Hl'|congruence..].
Qed.

Lemma service_ends now sync s w : settled s w → ends harmless (service now sync) s w.
Proof.
  intros Hs. unfold service. apply ends_this. destruct (usable s) eqn:Hu; cbn [negb].
  2:{ by apply ends_ret. }
  destruct (settled_live _ _ _ s w Hs Hu) as [Hl Hw]. apply ends_update, ends_update.
  set (s1 := if bool_decide (state_ s = D_RELEASED) then _ else s).
  assert (Hs1 : live s1 w ∧ wired s1).
  { subst s1. case_bool_decide as Hr; [|done].
    set (s0 := (clearAttempt s) <| active_ := false |>).
    assert (Hl0 : live s0 w) by by destruct Hl.
    split; [by apply loadHead_cases|]. apply (wired_loadHead s0 w Hl0).
    apply wired_idle; [done|cbn; congruence..]. }
  set (s2 := if negb (active_ s1) then loadHead s1 else s1).
  assert (Hs2 : live s2 w ∧ wired s2).
  { destruct Hs1 as [Hl1 Hw1]. subst s2. destruct (active_ s1); cbn [negb]; [done|].
    split; [by apply loadHead_cases|by eapply wired_loadHead]. }
  clearbody s1 s2. destruct Hs2 as [Hl2 Hw2]. apply ends_this.
  destruct (active_ s2) eqn:Ha; cbn [negb].
  2:{ apply ends_ret; [by apply live_settled|done]. }
  apply ends_serviced; [done|by intros; apply harmless_receive|]. intros s3 w3 Hl3 Hf3. apply ends_this.
  assert (Hw3 : wired s3) by by eapply serviced_wired.
  destruct (terminal s3). { apply ends_ret; [by apply live_settled|done]. }
  apply serviceState_ends; [done|done|]. by destruct Hf3 as (t' & p' & o' & -> & _).
Qed.

(** ** The transmission callbacks *)

Lemma ends_transmitting now k s w :
  settled s w →
  (∀ s' w', live s' w' → wired s' → state_ s' = TX → ends harmless k s' w') →
  ends harmless (transmitting now k) s w.
Proof.
  intros Hs Hk. unfold transmitting. apply ends_this. cbn [id].
  destruct (usable s) eqn:Hu; cbn [negb orb]; [|by apply ends_ret].
  case_bool_decide as Hst; cbn [negb]; [|by apply ends_ret].
  destruct (settled_live _ _ _ s w Hs Hu) as [Hl Hw].
  apply ends_serviced; [done|by intros; apply harmless_receive|]. intros s1 w1 Hl1 Hf1.
  apply Hk; [done|by eapply serviced_wired|]. by destruct Hf1 as (t' & p' & o' & -> & _).
Qed.

Lemma txStarted_ends now s w : settled s w → ends harmless (txStarted now) s w.
Proof.
  intros Hs. apply ends_transmitting; [done|]. intros s1 w1 Hl Hw Hst.
  apply ends_ret; [by apply live_settled|done].
Qed.

Lemma txStartFailed_ends now s w : settled s w → ends harmless (txStartFailed now) s w.
Proof.
  intros Hs. apply ends_transmitting; [done|]. intros s1 w1 Hl Hw Hst.
  apply attempted_failing; [done|]. apply wired_active; auto.
Qed.

Lemma settled_observed s s' w : observed s s' → settled s w → settled s' w.
Proof.
  intros Ho Hs. destruct (usable s') eqn:Hu.
  - assert (Hu' : usable s = true) by (destruct Ho as (d & o & ->); exact Hu).
    destruct (settled_live _ _ _ s w Hs Hu') as [Hl Hw].
    apply live_settled; [by eapply observed_live|by eapply observed_wired].
  - apply unusable_settled; [|done]. destruct Hs as [(R & HR & He) _], Ho as (d & o & ->).
    exists R. split; [|done]. destruct HR as [[Hs HR]|HR]; [left|by right].
    split; [|done]. by apply sound_diagnostics.
Qed.

(** A sent attempt waits for its answer. *)
Lemma settled_waiting now s s' w :
  live s w → wired s → state_ s = TX → observed s s' →
  settled (with_deadline now ADMISSION_TIMEOUT_MILLISECONDS (with_state WAIT_ADMISSION s')) w.
Proof.
  intros Hl Hw Hst Ho. assert (Hat : attempted s) by (apply wired_active; auto).
  destruct (wi_event _ Hw ltac:(auto)) as (Hc & seq & He). apply live_settled.
  - apply live_deadline, live_state. by eapply observed_live.
  - destruct Ho as (d & o & ->). split; [apply Hl|intros _; exact Hat|intros _].
    split; [done|]. by exists seq.
Qed.

Lemma txCompleted_ends now s w : settled s w → ends harmless (txCompleted now) s w.
Proof.
  intros Hs. unfold txCompleted. apply ends_quiet; [apply quiet_observe|]. intros s0 Ho.
  apply ends_transmitting; [by eapply settled_observed|]. intros s1 w1 Hl Hw Hst.
  apply ends_change. intros s2 Ho2. apply ends_update, ends_ret; [|done].
  by apply (settled_waiting now s1).
Qed.

(** ** Admission responses *)

(** The bytes are a response with this status to an attempt of the event of
    [r], sent by a controller with the endpoints of [s]. *)
Definition answers (s : Controller) (bytes : option (list Z)) (status : Z) (r : NodeRecord) : Prop :=
  ∃ response sequence,
    EventProtocol.decodeAdmissionResponse bytes EventProtocol.zeroResponse = (true, response)
    ∧ EventProtocol.status response = status
    ∧ EventProtocol.matchesEvent response (attemptOf s sequence r) = true.

(** The Hub will never admit the event. *)
Definition refusing (status : Z) : Prop :=
  status = EventProtocol.AdmissionStatus.IDENTITY_CONTENT_MISMATCH
  ∨ status = EventProtocol.AdmissionStatus.UNSUPPORTED_EVENT
  ∨ status = EventProtocol.AdmissionStatus.MALFORMED_EVENT.

(** A mutation of the active slot, checked: what follows it runs on a
    controller that is live, and otherwise the handler degrades. *)
Lemma ends_mutation Q op (m : st (Store * W) MutationStatus) k s w :
  run_op op = (a <~ m ;; ret (inl a)) →
  accepted op = inl MUTATION_OK → storage_failed op = inl MUTATION_STORAGE_FAILURE →
  live s w → op_wf op → (op_slot op < 8)%nat → A op (record_at (store_ s) (op_slot op)) →
  (∀ r s', action_type (result_action r) = RECEIVE → Q r s') →
  (∀ t' w', live (with_parts t' (policy_ s) (observer_ s) s) w' →
     ends Q k (with_parts t' (policy_ s) (observer_ s) s) w') →
  ends Q (mutation <~ on_store m ;;
          if negb (bool_decide (mutation = MUTATION_OK)) then degrade STORAGE_FAILURE true else k) s w.
Proof.
  intros Hrun Ha Hf Hl Hwf Hi HA HQ Hk.
  destruct (active_mutation src A R0 op m s w Hrun Ha Hf Hl Hwf Hi HA) as (a & t' & w' & E & Hkp & Hok).
  eapply ends_bind; [exact E|]. case_bool_decide as Hae; cbn [negb].
  - destruct (Hok Hae) as (next & _ & _ & Hl'). by apply Hk.
  - eapply ends_run; [reflexivity|by apply kept_degraded|by apply HQ].
Qed.

Lemma admissionMatched_ends status now s w :
  live s w → wired s → attempted s → state_ s = WAIT_ADMISSION →
  (status = EventProtocol.AdmissionStatus.ADMITTED →
     A (ReleaseQueued (activeSlot_ s)) (active_record s)) →
  (refusing status → A (MarkFailed (activeSlot_ s)) (active_record s)) →
  ends harmless (admissionMatched status now) s w.
Proof.
  intros Hl Hw Hat Hst Hrel Href. unfold admissionMatched.
  pose proof (lv_slot _ _ _ _ _ Hl (proj1 Hat)) as Hi.
  destruct (Z.eqb_spec status EventProtocol.AdmissionStatus.ADMITTED) as [He|_].
  { apply ends_this.
    apply (ends_mutation harmless (ReleaseQueued (activeSlot_ s))); try done.
    { by apply Hrel. } { apply harmless_receive. }
    intros t' w' Hl'. apply ends_quiet; [apply quiet_diagnose|]. intros s1 Ho1.
    apply ends_quiet; [apply quiet_diagnose|]. intros s2 Ho2. apply ends_update, ends_ret; [|done].
    apply settled_idle; [|done..]. apply live_clear.
    apply (live_state src A R0 D_RELEASED). by do 2 (eapply observed_live; [done|]). }
  destruct (Z.eqb_spec status EventProtocol.AdmissionStatus.CAPACITY) as [_|_].
  { by apply attempted_failing. }
  destruct (_ || _) eqn:Hr.
  - apply failing_event; [done|apply Hat| |done]. apply Href. unfold refusing. zbool. tauto.
  - apply ends_ret; [by apply live_settled|done].
Qed.

Lemma admissionCandidate_ends bytes now s w :
  settled s w →
  (∀ slot r, answers s bytes EventProtocol.AdmissionStatus.ADMITTED r → A (ReleaseQueued slot) r) →
  (∀ slot r status, refusing status → answers s bytes status r → A (MarkFailed slot) r) →
  ends harmless (admissionCandidate bytes now) s w.
Proof.
  intros Hs Hrel Href. unfold admissionCandidate. apply ends_this. cbn [id].
  destruct (usable s) eqn:Hu; cbn [negb orb]; [|by apply ends_ret].
  case_bool_decide as Hst; cbn [negb]; [|by apply ends_ret].
  destruct (settled_live _ _ _ s w Hs Hu) as [Hl Hw].
  apply ends_serviced; [done|by intros; apply harmless_receive|]. intros s1 w1 Hl1 Hf1.
  pose proof (serviced_wired s s1 Hf1 Hw) as Hw1.
  destruct Hf1 as (t1 & p1 & o1 & E1 & _ & _).
  assert (Hst1 : state_ s1 = WAIT_ADMISSION) by by rewrite E1.
  destruct (EventProtocol.decodeAdmissionResponse bytes EventProtocol.zeroResponse)
    as [[] response] eqn:Hdec; cbn [negb]; [|by apply ends_ret; [apply live_settled|]].
  apply ends_quiet; [apply quiet_observe|]. intros s2 Ho2.
  pose proof (observed_live src A R0 _ _ _ Ho2 Hl1) as Hl2.
  pose proof (observed_wired _ _ Ho2 Hw1) as Hw2.
  assert (Hst2 : state_ s2 = WAIT_ADMISSION) by by rewrite (observed_state _ _ Ho2).
  apply ends_this. cbn [id]. destruct (negb _ || negb _) eqn:Hm.
  { apply ends_ret; [by apply live_settled|done]. }
  apply ends_quiet; [apply quiet_observe|]. intros s3 Ho3.
  pose proof (observed_wired _ _ Ho3 Hw2) as Hw3.
  assert (Hst3 : state_ s3 = WAIT_ADMISSION) by by rewrite (observed_state _ _ Ho3).
  destruct (wi_event _ Hw2 ltac:(auto)) as (Hc & seq & Hev).
  assert (Hans : answers s bytes (EventProtocol.status response) (active_record s3)).
  { exists response, seq. split; [done|]. split; [done|]. rewrite Hc in Hm. cbn [negb orb] in Hm.
    apply negb_false_iff in Hm. rewrite Hev in Hm. subst s1.
    destruct Ho2 as (d2 & o2 & ->), Ho3 as (d3 & o3 & ->). exact Hm. }
  apply admissionMatched_ends; try done.
  - by eapply observed_live.
  - apply wired_active; auto.
  - intros He. apply Hrel. by rewrite <- He.
  - intros He. by eapply Href.
Qed.

(** ** Reclaiming *)

Lemma reclaimTerminal_ends s w :
  settled s w → (∀ slot r, A (Reclaim slot) r) → ends harmless reclaimTerminal s w.
Proof.
  intros Hs Hrec. unfold reclaimTerminal. apply ends_this. cbn [id].
  destruct (usable s) eqn:Hu; cbn [negb orb]; [|by apply ends_ret].
  destruct (active_ s) eqn:Ha; cbn [negb orb]; [|by apply ends_ret].
  destruct (negb _ && negb _) eqn:Hst; [by apply ends_ret|].
  destruct (settled_live _ _ _ s w Hs Hu) as [Hl Hw].
  pose proof (lv_slot _ _ _ _ _ Hl Ha) as Hi.
  apply (ends_mutation harmless (Reclaim (activeSlot_ s))); try done.
  { apply harmless_receive. }
  intros t' w' Hl'. apply ends_update, ends_ret; [|done].
  assert (Hst' : state_ s = D_FAILED ∨ state_ s = D_EXPIRED).
  { apply andb_false_iff in Hst as [Hx|Hx]; apply negb_false_iff, bool_decide_eq_true in Hx; auto. }
  apply settled_idle; [|cbn; destruct Hst'; congruence..].
  apply live_clear. destruct Hl'. by split.
Qed.

(** An operation on any slot, by the store behind the controller. *)
Lemma kept_op op (m : st (Store * W) MutationStatus) s w :
  run_op op = (a <~ m ;; ret (inl a)) →
  accepted op = inl MUTATION_OK → storage_failed op = inl MUTATION_STORAGE_FAILURE →
  degraded op = inl NodeEventStore.MUTATION_DEGRADED →
  kept s w → op_wf op → (op_slot op < 8)%nat → (∀ r, A op r) →
  ∃ a t' w', on_store m (s, w) = (a, (with_parts t' (policy_ s) (observer_ s) s, w'))
   ∧ kept (with_parts t' (policy_ s) (observer_ s) s) w'
   ∧ ((∃ next, sound src (store_ s) w ∧ sound src t' w'
          ∧ ∀ j, record_at t' j = replaced (op_slot op) next (record_at (store_ s)) j)
      ∨ healthy_ t' = false ∨ (t' = store_ s ∧ w' = w)).
Proof.
  intros Hrun Ha Hf Hdg (R & [[Hs HR]|[Hh Hc]] & He) Hwf Hi HA; cbn [fst snd] in *.
  - pose proof (sound_healthy _ _ _ Hs) as Hhs.
    pose proof (op_refines_spec src (store_ s) w op Hs Hwf) as Hr. unfold op_refines, op_spec in Hr.
    change NODE_EVENT_CAPACITY with 8%nat in Hr. rewrite (proj2 (Nat.ltb_lt _ _) Hi) in Hr.
    assert (He' : evolves A R0 (record_at (store_ s))) by (eapply evolves_end; [|exact He]; auto).
    destruct (op_record op (record_at (store_ s) (op_slot op))) as [refusal|next] eqn:Hop.
    + rewrite Hrun in Hr. unfold bind in Hr.
      destruct (m (store_ s, w)) as [a [t1 w1]] eqn:E. cbn in Hr. injection Hr as _ -> ->.
      exists a, (store_ s), w. split; [by apply on_store_run|]. split; [|by auto].
      exists R. split; [by left|done].
    + destruct (mutation_cases src (store_ s) w op next m Hrun Ha Hf Hs Hwf Hi Hop)
        as (t' & w' & [(E & Hm)|(E & Hb)]); do 3 eexists; (split; [by apply on_store_run|]).
      * split; [|left; exists next; by destruct Hm as (?&?&_)].
        exists (record_at t'). split; [by apply serving_done, Hm|].
        eapply evolves_trans; [done|]. by eapply mutated_evolves.
      * destruct (broken_evolves A src _ op next t' w' Hi Hop (HA _) Hb) as (Hh & R' & Hc & He2).
        split; [|by auto]. exists R'. split; [by right|]. by eapply evolves_trans.
  - pose proof (degraded_op (store_ s) w op Hh) as Hr. rewrite Hrun in Hr. unfold bind in Hr.
    destruct (m (store_ s, w)) as [a [t1 w1]] eqn:E. cbn in Hr. injection Hr as _ -> ->.
    exists a, (store_ s), w. split; [by apply on_store_run|]. split; [|by auto].
    exists R. split; [by right|done].
Qed.

(** Whatever the controller is at, a terminal record of any slot can go. *)
Lemma reclaim_settled slot s w :
  settled s w → isTerminalRecord (recordAt slot (store_ s)) = true → (∀ r, A (Reclaim slot) r) →
  ∃ a s' w', on_store (NodeEventStore.reclaim slot) (s, w) = (a, (s', w')) ∧ settled s' w'.
Proof.
  intros Hs Ht HA. unfold recordAt in Ht. change NODE_EVENT_CAPACITY with 8%nat in Ht.
  destruct (Nat.ltb_spec slot 8) as [Hi|]; [|done]. cbn [andb] in Ht.
  destruct (present (slot_at (store_ s) slot)); [|done]. cbn [isTerminalRecord] in Ht.
  destruct (kept_op (Reclaim slot) (NodeEventStore.reclaim slot) s w)
    as (a & t' & w' & E & Hk & Hcase); try done; [apply Hs|].
  exists a, (with_parts t' (policy_ s) (observer_ s) s), w'. split; [done|].
  split; [exact Hk|]. intros Hu'. apply usable_spec in Hu' as (Hi' & Hd & Hb & Hh & Hr).
  cbn in Hh. assert (Hus : usable s = true).
  { apply usable_spec. split_and!; try done.
    destruct Hcase as [(_ & Hs0 & _)|[Hx|[-> _]]]; [by eapply sound_healthy|congruence|done]. }
  destruct (settled_live _ _ _ s w Hs Hus) as [Hl Hw].
  split; [apply Hl|]. split; [apply Hl|].
  destruct Hcase as [(next & _ & _ & Hrec)|[Hx|[-> _]]]; [|congruence|by destruct s, Hw].
  assert (Hat : attempted s → attempted (with_parts t' (policy_ s) (observer_ s) s)
    ∧ active_record (with_parts t' (policy_ s) (observer_ s) s) = active_record s).
  { intros (Ha & Hq & H1at). unfold attempted, active_record in *. cbn.
    rewrite Hrec. unfold replaced. cbn [op_slot].
    rewrite decide_False; [done|]. intros He. subst slot.
    rewrite Hq in Ht. done. }
  destruct Hw as [Hsl Ha Hev]. split; [done|..].
  - intros Hst. by apply Hat, Ha.
  - intros Hst. destruct (Hev Hst) as (Hc & seq & He). split; [done|]. exists seq.
    rewrite (proj2 (Hat (Ha ltac:(cbn in Hst; tauto)))). exact He.
Qed.

Lemma reclaimSlots_ends n slot controlled now s w :
  settled s w → (∀ slot r, A (Reclaim slot) r) →
  ends (λ _ _, True) (reclaimSlots n slot controlled now) s w.
Proof.
  intros Hs HA. revert slot s w Hs. induction n as [|n IH]; intros slot s w Hs; cbn [reclaimSlots].
  { by apply ends_ret. }
  apply ends_this. cbn [id]. destruct (isTerminalRecord _) eqn:Ht; cbn [negb]; [|by apply IH].
  assert (Hk : ∀ b s' w', settled s' w' → ends (λ _ _, True)
    (if negb b then ret false
     else note EventTxDiagnostics.TERMINAL_RECLAIMED now ;;; reclaimSlots n (S slot) controlled now) s' w').
  { intros b s' w' Hs'. destruct b; cbn [negb]; [|by apply ends_ret].
    apply ends_quiet; [apply quiet_observe|]. intros s2 Ho. apply IH. by eapply settled_observed. }
  destruct (_ && _ && _).
  - apply ends_assoc. pose proof (reclaimTerminal_ends s w Hs HA) as [Hs1 _].
    destruct (reclaimTerminal (s, w)) as [r [s1 w1]] eqn:E. eapply ends_bind; [exact E|].
    by apply Hk.
  - apply ends_assoc. destruct (reclaim_settled slot s w Hs Ht (HA slot)) as (a & s1 & w1 & E & Hs1).
    eapply ends_bind; [exact E|]. by apply Hk.
Qed.

Lemma reclaimTerminals_ends controlled now s w :
  settled s w → (∀ slot r, A (Reclaim slot) r) →
  ends (λ _ _, True) (reclaimTerminals controlled now) s w.
Proof.
  intros Hs HA. unfold reclaimTerminals. apply ends_this.
  destruct (healthy_ _); cbn [negb]; [by apply reclaimSlots_ends|by apply ends_ret].
Qed.

(** ** Tracking *)

Lemma trackEnqueued_ends slot now s w :
  settled s w → ends (λ _ _, True) (trackEnqueued slot now) s w.
Proof.
  intros Hs. unfold trackEnqueued. apply ends_this. destruct (usable s) eqn:Hu; cbn [negb].
  2:{ eapply ends_run; [reflexivity|apply kept_degraded, Hs|done]. }
  destruct (settled_live _ _ _ s w Hs Hu) as [Hl Hw].
  assert (Hdg : ∀ s1, kept s1 w → ends (λ _ _, True)
    (r <~ degrade POLICY_FAILURE false ;; ret (result_status r)) s1 w).
  { intros s1 Hk. eapply ends_run; [reflexivity|by apply kept_degraded|done]. }
  assert (Hkp : kept s w) by by apply live_kept.
  unfold policyTrackEnqueued. apply ends_assoc, ends_this. cbn [id].
  rewrite (lv_ready _ _ _ _ _ Hl), (lv_policyBound _ _ _ _ _ Hl),
    (sound_healthy _ _ _ (lv_sound _ _ _ _ _ Hl)). cbn [negb orb].
  destruct (NODE_EVENT_CAPACITY <=? slot)%nat. { by apply Hdg. }
  destruct (queued slot s); cbn [negb]; [|by apply Hdg].
  apply ends_assoc, ends_quiet; [apply quiet_observe|]. intros s1 Ho.
  apply ends_assoc, ends_update. cbn. apply ends_ret; [|done].
  pose proof (observed_live src A R0 _ _ _ Ho Hl) as Hl1.
  pose proof (observed_wired _ _ Ho Hw) as Hw1.
  apply live_settled.
  - destruct Hl1. split; try done. unfold set_runtime. by apply metered_set.
  - by destruct Hw1.
Qed.

Lemma successfulHubExchange_ends s w :
  settled s w → ends (λ _ _, True) successfulHubExchange s w.
Proof.
  intros Hs. destruct (quiet_diagnose (RuntimeState.setHubUnavailable false) s w) as (s' & E & Ho).
  eapply ends_run; [exact E|by eapply settled_observed|done].
Qed.

(** ** The grant to transmit *)

(** No queued event is older than the active one. *)
Definition oldest (s : Controller) : Prop :=
  ∀ j, (j < 8)%nat → nr_state (record_at (store_ s) j) = NodeState.QUEUED →
    NodeEventStore.identityLess (record_at (store_ s) j) (active_record s) = false.

Lemma head_oldest s w :
  live s w → active_ s = true → headStillAuthoritative s = true →
  oldest s ∧ nr_state (active_record s) = NodeState.QUEUED.
Proof.
  intros Hl Ha. unfold headStillAuthoritative. rewrite (live_record _ _ _ s w Hl Ha).
  destruct (queuedAt 0 (store_ s)) as [[r i]|] eqn:Hq; [|done].
  intros [->%Nat.eqb_eq Hst%Z.eqb_eq]%andb_true_iff. split; [|done].
  pose proof (lv_sound _ _ _ _ _ Hl) as (Hg & (Hp & Hs & Hlen & Hc) & _).
  apply queuedAt_lookup in Hq as [Hk _]; [|lia]. intros j Hj Hjq.
  destruct (queueList (store_ s)) as [|i l] eqn:Hql; [done|]. injection Hk as ->.
  assert (Hin : j ∈ queuedSlots (store_ s)).
  { apply queuedSlots_in. split; [done|]. unfold NodeQueue.queued.
    rewrite (gr_present _ _ _ Hg j Hj), Hjq. done. }
  rewrite <- Hp in Hin. apply StronglySorted_inv in Hs as [_ Hall].
  apply elem_of_cons in Hin as [->|Hin].
  - apply not_true_iff_false. unfold active_record. rewrite identityLess_spec. lia.
  - rewrite Forall_forall in Hall. by apply Hall.
Qed.

(** Metering and arming: identities stay, and nothing becomes queued. *)
Lemma oldest_kept s s' :
  activeSlot_ s' = activeSlot_ s →
  (∀ j, (j < 8)%nat →
     nr_state (record_at (store_ s') j) = NodeState.QUEUED →
     nr_state (record_at (store_ s) j) = NodeState.QUEUED
     ∧ same_event (record_at (store_ s) j) (record_at (store_ s') j)) →
  same_event (active_record s) (active_record s') → oldest s → oldest s'.
Proof.
  intros Hsl Hrec Hsame Ho j Hj Hq. destruct (Hrec j Hj Hq) as [Hq0 Hj0].
  pose proof (Ho j Hj Hq0) as Hless. unfold NodeEventStore.identityLess in *.
  destruct Hj0 as (-> & -> & _), Hsame as (-> & -> & _). exact Hless.
Qed.

(** [s'] is [s] with the attempt of its active event armed. *)
Record armed_from (s s' : Controller) : Prop := mkArmedFrom {
  af_parts : ∃ t' p' o', s' = with_parts t' p' o' s;
  af_same : same_event (active_record s) (active_record s');
  af_queued : nr_state (active_record s') = NodeState.QUEUED;
  af_attempts : attemptsUsed (active_record s') = attemptsUsed (active_record s) + 1;
  af_bound : attemptsUsed (active_record s') ≤ MAX_ATTEMPTS;
  af_oldest : oldest s'
}.

Definition armed_answer s (a : AttemptResult) s' w' : Prop :=
  match a with
  | ATTEMPT_ARMED => live s' w' ∧ armed_from s s'
  | ATTEMPT_EXPIRED => live s' w'
  | ATTEMPT_EXHAUSTED => live s' w' ∧ MAX_ATTEMPTS ≤ attemptsUsed (active_record s')
  | _ => True
  end.

(** The store's own arming, on a live controller. *)
Lemma arm_cases s w :
  live s w → active_ s = true → (∀ r, A (Arm (activeSlot_ s)) r) →
  nr_state (active_record s) = NodeState.QUEUED → oldest s →
  ∃ a t' w', on_store (NodeEventStore.armAttempt (activeSlot_ s)) (s, w)
      = (a, (with_parts t' (policy_ s) (observer_ s) s, w'))
   ∧ kept (with_parts t' (policy_ s) (observer_ s) s) w'
   ∧ ((a = NodeEventStore.ARMED ∧ live (with_parts t' (policy_ s) (observer_ s) s) w'
        ∧ armed_from s (with_parts t' (policy_ s) (observer_ s) s))
      ∨ (a = NodeEventStore.EXHAUSTED ∧ t' = store_ s ∧ w' = w
         ∧ MAX_ATTEMPTS ≤ attemptsUsed (active_record s))
      ∨ a = NodeEventStore.ATTEMPT_STORAGE_FAILURE).
Proof.
  intros Hl Ha HA Hq Ho. pose proof (lv_slot _ _ _ _ _ Hl Ha) as Hi.
  pose proof (lv_sound _ _ _ _ _ Hl) as Hs.
  pose proof (op_refines_spec src (store_ s) w (Arm (activeSlot_ s)) Hs I) as Hr.
  unfold op_refines, op_spec in Hr. cbn [op_slot] in Hr. change NODE_EVENT_CAPACITY with 8%nat in Hr.
  rewrite (proj2 (Nat.ltb_lt _ _) Hi) in Hr.
  assert (Hop : op_record (Arm (activeSlot_ s)) (active_record s)
    = if attemptsUsed (active_record s) <? MAX_ATTEMPTS then inr (armed (active_record s))
      else inl (inr NodeEventStore.EXHAUSTED)) by (cbn [op_record]; by rewrite Hq, Z.eqb_refl).
  change (record_at (store_ s) (activeSlot_ s)) with (active_record s) in Hr. rewrite Hop in Hr.
  set (m := NodeEventStore.armAttempt (activeSlot_ s)) in *.
  assert (Hrun : run_op (Arm (activeSlot_ s)) = (a <~ m ;; ret (inr a))) by done.
  rewrite Hrun in Hr. destruct (sound_record src (store_ s) w _ Hs Hi) as [Hwf _].
  destruct (Z.ltb_spec (attemptsUsed (active_record s)) MAX_ATTEMPTS) as [Hlt|Hge].
  2:{ unfold bind in Hr. destruct (m (store_ s, w)) as [a [t1 w1]] eqn:E. injection Hr as -> -> ->.
      do 3 eexists. split; [by apply on_store_run|].
      replace (with_parts (store_ s) (policy_ s) (observer_ s) s) with s by by destruct s.
      split; [by apply live_kept|]. right. left. done. }
  destruct Hr as [(t' & w' & E & Hm)|(t' & w' & E & Hb)];
    unfold bind in E; destruct (m (store_ s, w)) as [a [t1 w1]] eqn:Em; cbn in E;
    injection E as -> -> ->; do 3 eexists; (split; [by apply on_store_run|]).
  - pose proof (mutated_evolves A src (store_ s) (Arm (activeSlot_ s)) (armed (active_record s)) t' w'
      Hi ltac:(by rewrite <- Hop) (HA _) Hm) as Hev.
    destruct Hm as (Hs' & Hrec & _).
    set (s' := with_parts t' (policy_ s) (observer_ s) s).
    assert (Har : active_record s' = armed (active_record s)).
    { unfold active_record. cbn. rewrite Hrec. unfold replaced. by rewrite decide_True. }
    assert (Hl' : live s' w').
    { destruct Hl. split; try done. by eapply evolves_trans. }
    split; [by apply live_kept|]. left. split; [congruence|]. split; [done|].
    assert (Hat : attemptsUsed (active_record s') = attemptsUsed (active_record s) + 1).
    { rewrite Har. unfold armed, rec_set. cbn. unfold MAX_ATTEMPTS in *.
      assert (is_u8 (attemptsUsed (active_record s))) by apply Hwf. uint. }
    assert (Hsame : same_event (active_record s) (active_record s')) by by rewrite Har.
    split; try done.
    + by do 3 eexists.
    + by rewrite Har.
    + unfold MAX_ATTEMPTS in *. lia.
    + apply (oldest_kept s s'); try done. intros j Hj. unfold s'. cbn. rewrite Hrec.
      unfold replaced. case_decide as E; [|by split]. cbn in E. subst j. intros _. by split.
  - destruct (broken_evolves A src _ (Arm (activeSlot_ s)) _ t' w' Hi ltac:(by rewrite <- Hop) (HA _) Hb)
      as (Hh & R' & Hc & He). split.
    + exists R'. split; [by right|]. eapply evolves_trans; [apply Hl|done].
    + right. right. congruence.
Qed.

Lemma oldest_serviced s s' :
  serviced_from s s' → (activeSlot_ s < 8)%nat → active_ s = true →
  nr_state (active_record s) = NodeState.QUEUED → oldest s →
  oldest s' ∧ nr_state (active_record s') = NodeState.QUEUED
  ∧ same_event (active_record s) (active_record s')
  ∧ attemptsUsed (active_record s') = attemptsUsed (active_record s).
Proof.
  intros Hf Hi Ha Hq Ho. pose proof Hf as (t' & p' & o' & -> & He & Hne).
  assert (Hact : nr_state (active_record (with_parts t' p' o' s)) = NodeState.QUEUED
    ∧ same_event (active_record s) (active_record (with_parts t' p' o' s))
    ∧ attemptsUsed (active_record (with_parts t' p' o' s)) = attemptsUsed (active_record s)).
  { unfold active_record. cbn.
    destruct (metering_evolves _ _ _ He Hi) as [->|(_ & Hs & Hat & [Hst|Hst])].
    - split; [done|]. by split; [apply same_event_refl|].
    - done.
    - by destruct (Hne Ha). }
  split; [|done]. apply (oldest_kept s); try done; [|by apply Hact]. intros j Hj. cbn.
  destruct (metering_evolves _ _ _ He Hj) as [->|(? & ? & _)]; [|done].
  intros Hq'. by split; [|apply same_event_refl].
Qed.

Lemma armed_trans s s1 s' :
  (∃ t' p' o', s1 = with_parts t' p' o' s) →
  same_event (active_record s) (active_record s1) →
  attemptsUsed (active_record s1) = attemptsUsed (active_record s) →
  armed_from s1 s' → armed_from s s'.
Proof.
  intros (t1 & p1 & o1 & ->) Hs Ha [(t' & p' & o' & ->) Hs2 Hq Ha2 Hb Ho].
  split; try done.
  - by exists t', p', o'.
  - by eapply same_event_trans.
  - congruence.
Qed.

Lemma policyArmAttempt_cases now s w :
  live s w → active_ s = true → (∀ slot r, A (Arm slot) r) →
  nr_state (active_record s) = NodeState.QUEUED → oldest s →
  ∃ a s' w', policyArmAttempt (activeSlot_ s) now (s, w) = (a, (s', w')) ∧ kept s' w'
    ∧ (∃ t' p' o', s' = with_parts t' p' o' s) ∧ armed_answer s a s' w'.
Proof.
  intros Hl Ha HA Hq Ho. pose proof (lv_slot _ _ _ _ _ Hl Ha) as Hi.
  unfold policyArmAttempt. rewrite bind_this, (lv_ready _ _ _ _ _ Hl). cbn [negb].
  destruct (policyService_run src now s w) as (answer & s1 & w1 & E & Hrun); try apply Hl.
  pose proof (service_live src A R0 allow_metering s w _ s1 w1 Hl Hrun) as Hl1.
  rewrite (bind_run _ _ _ _ _ E).
  assert (Hparts : ∃ t' p' o', s1 = with_parts t' p' o' s) by (destruct Hrun; by do 3 eexists).
  destruct (decide (answer = READY)) as [->|Hne].
  2:{ rewrite bool_decide_eq_false_2 in * by done. cbn [negb]. do 3 eexists. split; [reflexivity|].
      split; [apply Hl1|]. by split. }
  rewrite bool_decide_eq_true_2 in * by done. cbn [negb].
  change NODE_EVENT_CAPACITY with 8%nat. rewrite (proj2 (Nat.leb_gt _ _) Hi), bind_this.
  assert (Hsl : activeSlot_ s1 = activeSlot_ s ∧ active_ s1 = true)
    by (destruct Hparts as (t' & p' & o' & ->); done).
  destruct Hsl as [Hsl Ha1]. pose proof (live_record _ _ _ s1 w1 Hl1 Ha1) as Hrec.
  unfold record in Hrec. rewrite Ha1, (lv_bound _ _ _ _ _ Hl1), Hsl in Hrec. cbn [andb] in Hrec.
  rewrite Hrec.
  destruct (Z.eqb_spec (nr_state (active_record s1)) NodeState.EXPIRED) as [Hx|Hx].
  { do 3 eexists. split; [reflexivity|]. split; [by apply live_kept|]. by split. }
  assert (Hf : serviced_from s s1) by (eapply service_from; [exact Hrun|done]).
  destruct (oldest_serviced s s1 Hf Hi Ha Hq Ho) as (Ho1 & Hq1 & Hs1 & Hat1).
  rewrite Hq1, Z.eqb_refl. cbn [negb]. rewrite bind_this.
  destruct (eligible (activeSlot_ s) s1); cbn [negb].
  2:{ do 3 eexists. split; [reflexivity|]. split; [by apply live_kept|]. by split. }
  destruct (arm_cases s1 w1 Hl1 Ha1 (HA _) Hq1 Ho1) as (a & t' & w' & Ea & Hk & Hcase).
  rewrite Hsl in Ea. rewrite (bind_run _ _ _ _ _ Ea).
  assert (Hparts' : ∃ t2 p2 o2, with_parts t' (policy_ s1) (observer_ s1) s1 = with_parts t2 p2 o2 s)
    by (destruct Hparts as (t2 & p2 & o2 & ->); by do 3 eexists).
  destruct Hcase as [(-> & Hl' & Hf')|[(-> & -> & -> & Hmax)| ->]].
  - do 3 eexists. split; [reflexivity|]. split; [done|]. split; [done|]. split; [done|].
    by apply (armed_trans s s1).
  - replace (with_parts (store_ s1) (policy_ s1) (observer_ s1) s1) with s1 by by destruct s1.
    do 3 eexists. split; [reflexivity|]. split; [by apply live_kept|]. by split.
  - do 3 eexists. split; [reflexivity|]. split; [|split; [|done]].
    + destruct Hk as (R & [[Hs HR]|[Hh Hc]] & He); exists R; (split; [|done]); [left|right]; done.
    + destruct Hparts as (t2 & p2 & o2 & ->). by do 3 eexists.
Qed.

(** What a controller that asks to transmit [bytes] has done. *)
Record transmitted (s : Controller) (r : ControllerResult) (s' : Controller) : Prop := mkTransmitted {
  tr_status : result_status r = OK;
  tr_usable : usable s' = true;
  tr_state : state_ s' = TX;
  tr_active : active_ s' = true ∧ activeSlot_ s' = activeSlot_ s;
  tr_same : same_event (active_record s) (active_record s');
  tr_queued : nr_state (active_record s') = NodeState.QUEUED;
  tr_attempts : attemptsUsed (active_record s') = attemptsUsed (active_record s) + 1;
  tr_bound : attemptsUsed (active_record s') ≤ MAX_ATTEMPTS;
  tr_oldest : oldest s';
  tr_bytes : ∃ sequence, is_u8 sequence ∧
    EventProtocol.encodeEvent (attemptOf s sequence (active_record s'))
      (Some (zeros (Z.to_nat Protocol.MAX_PACKET_SIZE)))
    = (true, Some (action_bytes (result_action r)), action_length (result_action r))
}.

Definition granted (s : Controller) (r : ControllerResult) (s' : Controller) : Prop :=
  action_type (result_action r) = TRANSMIT → transmitted s r s'.

(** A grant that was due is transmitted, or the event is decided. *)
Definition grant_end (s : Controller) (r : ControllerResult) (s' : Controller) : Prop :=
  (action_type (result_action r) = TRANSMIT ∧ transmitted s r s') ∨ over r s'.

Lemma ends_harmless s0 m s w : ends harmless m s w → ends (granted s0) m s w.
Proof. intros [? ?]. by split. Qed.

Lemma ends_grant_over s0 m s w : ends over m s w → ends (grant_end s0) m s w.
Proof. intros [? ?]. split; [done|by right]. Qed.

Lemma transmitted_from s s1 r s' :
  (∃ t' p' o', s1 = with_parts t' p' o' (with_state TX_PREPARE s)) →
  same_event (active_record s) (active_record s1) →
  attemptsUsed (active_record s1) = attemptsUsed (active_record s) →
  grant_end s1 r s' → grant_end s r s'.
Proof.
  intros (t' & p' & o' & ->) Hs Ha [[Ht []]|Ho]; [left|by right]. split; [done|]. split; try done.
  - by eapply same_event_trans.
  - congruence.
Qed.

Lemma sendAttempt_ends now s0 s w :
  live s w → attempted s → armed_from s0 s → ends (grant_end s0) (sendAttempt now) s w.
Proof.
  intros Hl Hat Hf. unfold sendAttempt.
  eapply ends_same; [by rewrite bind_outside|].
  pose proof (next_range 0 w ltac:(concrete)) as Hsr. pose proof (next_keeps 0 w) as Hk.
  destruct (next 0 w) as [[ok sequence] w1]. cbn [fst snd] in *.
  pose proof (live_same src A R0 _ _ _ Hk Hl) as Hl1.
  assert (Hdg : ∀ x s1, kept s1 w1 → ends (grant_end s0) (degrade x true) s1 w1).
  { intros x s1 Hk1. by apply ends_grant_over, degrade_over. }
  assert (Hkept : kept s w1) by by apply live_kept.
  destruct ok; cbn [negb]; [|by apply Hdg]. apply ends_this. cbn [id]. apply ends_update.
  set (event := attemptOf s sequence _). set (s1 := s <| attemptEvent_ := event |>).
  assert (Hl2 : live s1 w1) by by destruct Hl1.
  destruct (EventProtocol.encodeEvent event _) as [[[] [bytes|]] length] eqn:Henc;
    try by (apply Hdg; by apply live_kept).
  apply ends_quiet; [apply quiet_observe|]. intros s2 Ho2. apply ends_update, ends_change.
  intros s3 Ho3.
  assert (Hl3 : live (with_state TX s3) w1).
  { apply live_state. eapply observed_live; [exact Ho3|].
    pose proof (observed_live src A R0 _ _ _ Ho2 Hl2) as Hl'. by destruct Hl'. }
  assert (Hst : ∃ d o, s3 = (with_parts (with_diagnostics d (store_ s)) (policy_ s) o s)
      <| attemptEvent_ := event |> <| correlationValid_ := true |>).
  { destruct Ho2 as (d2 & o2 & ->), Ho3 as (d3 & o3 & ->). by exists d3, o3. }
  destruct Hst as (d & o & ->). destruct Hf as [(t' & p' & o' & ->) Hsame Hq Ha Hb Hold].
  apply ends_ret.
  - apply live_settled; [done|]. split; [apply Hl3|intros _; exact Hat|intros _].
    split; [done|]. by exists sequence.
  - left. split; [done|]. split; try done.
    + by eapply live_usable.
    + split; [apply Hat|done].
    + exists sequence. split; [done|]. exact Henc.
Qed.

Lemma grantTransmit_due now s w :
  settled s w → (∀ slot r, A (Arm slot) r) →
  usable s = true → active_ s = true → state_ s = D_READY →
  ends (grant_end s) (grantTransmit now) s w.
Proof.
  intros Hs HA Hu Ha Hst. unfold grantTransmit. apply ends_this. cbn [id].
  rewrite Hu, Ha, Hst. cbn [negb orb]. decide_eqs. cbn [negb].
  destruct (settled_live _ _ _ s w Hs Hu) as [Hl Hw]. apply ends_update.
  pose proof (live_state src A R0 TX_PREPARE _ _ Hl) as Hl0. unfold with_state in Hl0.
  set (s0 := s <| state_ := TX_PREPARE |>) in *.
  apply ends_serviced; [done|by intros r s' Hd Hr; right; split; [apply harmless_receive|apply Hd]|].
  intros s1 w1 Hl1 Hf1. apply ends_this.
  destruct (headStillAuthoritative s1) eqn:Hh; cbn [negb].
  2:{ by apply ends_grant_over, degrade_over, live_kept. }
  assert (Hp1 : active_ s1 = true ∧ activeSlot_ s1 = activeSlot_ s ∧ state_ s1 = TX_PREPARE)
    by by destruct Hf1 as (t' & p' & o' & -> & _).
  destruct Hp1 as (Ha1 & Hsl1 & Hst1). pose proof (lv_slot _ _ _ _ _ Hl Ha) as Hi.
  destruct (head_oldest s1 w1 Hl1 Ha1 Hh) as [Ho1 Hq1].
  assert (Hsame : same_event (active_record s) (active_record s1)
    ∧ attemptsUsed (active_record s1) = attemptsUsed (active_record s)).
  { destruct Hf1 as (t' & p' & o' & -> & He & _). unfold active_record. cbn.
    destruct (metering_evolves _ _ _ He Hi) as [E|(_ & ? & ? & _)]; [|done].
    cbn in E. rewrite E. split; [apply same_event_refl|done]. }
  apply ends_this.
  destruct (policyArmAttempt_cases now s1 w1 Hl1 Ha1 HA Hq1 Ho1)
    as (a & s2 & w2 & E & Hk & Hparts & Hans).
  eapply ends_bind; [exact E|].
  apply (ends_conseq (grant_end s1)).
  2:{ intros r s'. apply transmitted_from; [|apply Hsame..].
      by destruct Hf1 as (t' & p' & o' & -> & _); do 3 eexists. }
  destruct a; cbn [armed_answer] in Hans; try by apply ends_grant_over, degrade_over.
  - destruct Hans as [Hl2 Hf2]. apply sendAttempt_ends; [done|..].
    + destruct Hf2 as [(t' & p' & o' & ->) _ Hq2 Hat2 _ _]. split; [done|]. split; [done|].
      rewrite Hat2. pose proof (lv_slot _ _ _ _ _ Hl1 Ha1) as Hi1.
      destruct (sound_record src (store_ s1) w1 _ (lv_sound _ _ _ _ _ Hl1) Hi1) as [Hwf _].
      assert (is_u8 (attemptsUsed (active_record s1))) by apply Hwf. uint.
    + exact Hf2.
  - apply ends_grant_over.
    destruct (markFailed_cases src A R0 s2 w2) as (b & s3 & w3 & E3 & Hk3 & Hs3).
    { apply Hans. }
    { by destruct Hparts as (t' & p' & o' & ->). }
    { apply allow_exhausted, Hans. }
    eapply ends_bind; [exact E3|]. destruct b; [|by apply degrade_over].
    destruct (Hs3 eq_refl) as [Hl3 [Ha3 Hf3]]. apply ends_ret; [apply settled_idle; congruence|].
    split; [done|]. right. by split; [|left].
  - apply ends_grant_over, ends_update, ends_ret.
    + apply settled_idle; [|done..]. by apply live_state.
    + split; [done|]. right. by destruct Hparts as (t' & p' & o' & ->); auto.
Qed.

Lemma grantTransmit_ends now s w :
  settled s w → (∀ slot r, A (Arm slot) r) → ends (granted s) (grantTransmit now) s w.
Proof.
  intros Hs HA. destruct (usable s) eqn:Hu, (active_ s) eqn:Ha, (decide (state_ s = D_READY)) as [Hst|Hst].
  1:{ eapply ends_conseq; [by apply grantTransmit_due|]. intros r s' [[_ ?]|[? _]]; by unfold granted. }
  all: apply ends_harmless; unfold grantTransmit; apply ends_this; cbn [id]; rewrite Hu; cbn [negb];
    try (by apply ends_ret); rewrite Ha; cbn [negb orb]; try (by apply ends_ret).
  rewrite bool_decide_eq_false_2 by done. by apply ends_ret.
Qed.

(** ** Recovery *)

Lemma debit_queued slot s w :
  sound src (store_ s) w → (slot < 8)%nat → nr_state (record_at (store_ s) slot) = NodeState.QUEUED →
  ∃ op next, op_slot op = slot ∧ op_wf op ∧ metering op (record_at (store_ s) slot)
    ∧ op_record op (record_at (store_ s) slot) = inr next
    ∧ accepted op = inl MUTATION_OK ∧ storage_failed op = inl MUTATION_STORAGE_FAILURE
    ∧ run_op op = (a <~ (if remainingActiveSeconds (record_at (store_ s) slot) <=? CHECKPOINT_SECONDS
         then NodeEventStore.markExpired slot
         else NodeEventStore.checkpointRemaining slot
                (u32 (remainingActiveSeconds (record_at (store_ s) slot) - CHECKPOINT_SECONDS))) ;;
       ret (inl a) : st (Store * W) Answer).
Proof.
  intros Hs Hi Hq. destruct (sound_record src (store_ s) w slot Hs Hi) as [Hwf _].
  assert (Hrem : is_u32 (remainingActiveSeconds (record_at (store_ s) slot))) by apply Hwf.
  set (r := record_at (store_ s) slot) in *. unfold CHECKPOINT_SECONDS.
  destruct (Z.leb_spec (remainingActiveSeconds r) 60) as [Hle|Hgt].
  - exists (MarkExpired slot), (transitioned NodeState.EXPIRED r). split; [done|]. split; [done|].
    split; [exists slot; by right|]. split; [cbn [op_record]; by rewrite Hq, Z.eqb_refl|done].
  - assert (Hw : u32 (remainingActiveSeconds r - 60) = remainingActiveSeconds r - 60) by uint.
    rewrite Hw. exists (Checkpoint slot (remainingActiveSeconds r - 60)),
      (checkpointed (remainingActiveSeconds r - 60) r). split; [done|].
    split; [cbn; uint|]. split; [exists slot; by left|].
    split; [apply checkpoint_accepted; [done|lia]|done].
Qed.

Lemma debitSlots_run n slot now s w :
  (slot + n = 8)%nat → sound src (store_ s) w → metered (policy_ s) →
  ∃ b s' w', debitSlots n slot now (s, w) = (b, (s', w')) ∧ service_run src s w b s' w'.
Proof.
  revert slot s w. induction n as [|n IH]; intros slot s w Hn Hs Hm; cbn [debitSlots].
  { do 3 eexists. split; [reflexivity|].
    pose proof (service_ok src s w (store_ s) (policy_ s) (observer_ s) w) as Hr.
    replace (with_parts (store_ s) (policy_ s) (observer_ s) s) with s in Hr by by destruct s.
    apply Hr; try done. apply evolves_refl. }
  assert (Hi : (slot < 8)%nat) by lia.
  destruct (sound_record src (store_ s) w slot Hs Hi) as [_ Hp].
  rewrite bind_this. unfold recordAt at 1. change NODE_EVENT_CAPACITY with 8%nat.
  rewrite (proj2 (Nat.ltb_lt _ _) Hi), Hp. cbn [andb].
  destruct (Z.eqb_spec (nr_state (record_at (store_ s) slot)) NodeState.QUEUED) as [Hq|_];
    cbn [negb]; [|apply IH; [lia|done..]].
  destruct (debit_queued slot s w Hs Hi Hq) as (op & next & <- & Hwf & Hmt & Hop & Ha & Hf & Hrun).
  set (m := if _ <=? _ then _ else _) in *.
  destruct (mutation_cases src (store_ s) w op next m Hrun Ha Hf Hs Hwf Hi Hop)
    as (t' & w' & [(E & Hmd)|(E & Hb)]);
    rewrite (bind_run _ _ _ _ _ (on_store_run _ _ _ _ _ _ E)).
  - decide_eqs. cbn [negb]. rewrite bind_this.
    pose proof (mutated_evolves metering src _ op next t' w' Hi Hop Hmt Hmd) as Hev.
    set (o' := if nr_state (record_at t' (op_slot op)) =? NodeState.EXPIRED
       then EventTxDiagnostics.note EventTxDiagnostics.EXPIRED_QUEUED now <$> observer_ s else observer_ s).
    set (s1 := with_parts t' (policy_ s) o' s).
    destruct (IH (S (op_slot op)) s1 w') as (b & s2 & w2 & E2 & Hr2);
      [lia|apply Hmd|done|].
    exists b, s2, w2. split.
    + rewrite <- E2. subst s1 o'. cbn [store_ with_parts].
      destruct (nr_state (record_at t' (op_slot op)) =? NodeState.EXPIRED); reflexivity.
    + eapply service_run_trans; [|exact Hr2]. apply service_ok; try done. apply Hmd.
  - rewrite bool_decide_eq_false_2 by done. cbn [negb]. do 3 eexists. split; [reflexivity|].
    destruct (broken_evolves metering src _ op next t' w' Hi Hop Hmt Hb) as (Hh & R' & Hc & He).
    apply (service_failed src s w t' _ (observer_ s) w' R'); try done. apply Hm.
Qed.

Lemma initializeTrackedSlots_parts n slot now s :
  metered (policy_ s) →
  ∃ p', initializeTrackedSlots n slot now s = with_parts (store_ s) p' (observer_ s) s
    ∧ metered p' ∧ ready_ p' = ready_ (policy_ s) ∧ policyBound_ p' = policyBound_ (policy_ s).
Proof.
  revert slot s. induction n as [|n IH]; intros slot s Hm; cbn [initializeTrackedSlots].
  { exists (policy_ s). by destruct s. }
  destruct (queued slot s); [|by apply IH].
  destruct (IH (S slot) (set_runtime slot (mkRuntime true now 0) s)) as (p' & E & Hp').
  - by apply metered_set.
  - exists p'. split; [done|]. exact Hp'.
Qed.

Lemma metered_zero b : metered (zeroPolicy b).
Proof.
  split; [done|]. intros i. unfold zeroPolicy. cbn [runtime_].
  destruct (decide (i < 8)%nat) as [Hi|Hi].
  - by rewrite nth_lookup, lookup_replicate_2.
  - rewrite nth_overflow; [done|]. rewrite length_replicate. change NODE_EVENT_CAPACITY with 8%nat. lia.
Qed.

Lemma policyRecover_cases now s w :
  kept s w →
  ∃ a s' w', policyRecover now (s, w) = (a, (s', w')) ∧ kept s' w'
    ∧ (∃ t' p' o', s' = with_parts t' p' o' s)
    ∧ (a = READY → sound src (store_ s') w' ∧ evolves A R0 (record_at (store_ s'))
         ∧ metered (policy_ s') ∧ ready_ (policy_ s') = true ∧ policyBound_ (policy_ s') = true).
Proof.
  intros Hk. unfold policyRecover. rewrite bind_update.
  set (o1 := EventTxDiagnostics.clock now <$> observer_ s).
  set (s1 := with_parts (store_ s) (zeroPolicy true) o1 s).
  assert (E1 : ∀ {X} (k : unit → st (Controller * W) X),
    (u <~ observe (EventTxDiagnostics.clock now) ;;
     on_policy (λ p, p <| policyBound_ := true |>) ;;; k u)
      (s <| policy_ := zeroPolicy false |>, w) = k tt (s1, w)) by done.
  rewrite E1, bind_this. cbn [store_ s1 with_parts].
  destruct (healthy_ (store_ s)) eqn:Hh; cbn [negb].
  2:{ do 3 eexists. split; [reflexivity|]. split; [exact Hk|]. split; [by do 3 eexists|done]. }
  destruct Hk as (R & [[Hs HR]|[Hx _]] & He); [|cbn in Hx; congruence]. cbn [fst snd] in *.
  assert (He0 : evolves A R0 (record_at (store_ s))) by (eapply evolves_end; [|exact He]; auto).
  destruct (debitSlots_run 8 0 now s1 w eq_refl Hs (metered_zero _)) as (b & s2 & w2 & E2 & Hr2).
  change NODE_EVENT_CAPACITY with 8%nat. rewrite (bind_run _ _ _ _ _ E2).
  destruct Hr2 as [t' p' o' w' Hs' He' Hm' Hr' Hb'|t' p' o' w' R' Hh' Hrd' Hl' Hc' He'];
    cbn [negb store_ s1 with_parts] in *.
  - set (s2 := with_parts t' p' o' s1).
    destruct (initializeTrackedSlots_parts 8 0 now s2 Hm') as (p2 & E3 & Hm2 & Hr2 & Hb2).
    rewrite bind_update, E3. do 3 eexists. split; [reflexivity|].
    assert (Hev : evolves A R0 (record_at t')).
    { eapply evolves_trans; [exact He0|]. by eapply evolves_weaken. }
    split; [|split; [by do 3 eexists|]].
    + exists (record_at t'). split; [by apply serving_done|done].
    + intros _. split; [done|]. split; [done|]. split; [by destruct Hm2|]. split; [done|].
      change (policyBound_ p2 = true). rewrite Hb2. cbn. by rewrite Hb'.
  - do 3 eexists. split; [reflexivity|]. split; [|split; [by do 3 eexists|done]].
    exists R'. split; [by right|]. eapply evolves_trans; [exact He0|]. by eapply evolves_weaken.
Qed.

End Durable.

End DeliveryCalls.
