(* ===== verification/DeliveryLife.v ===== *)
(** What the delivery controller promises over its calls: its invariant, what
    it transmits, and why an event leaves the queue. *)

From S2P Require Import Prelude Wire EventWire Copies Records Identity Diagnostics NodeStore NodeQueue NodeFacts NodeOps NodeRecovery Delivery DeliveryFacts DeliveryOps DeliveryCalls.

Module DeliveryLife.

Import EventRecords.
Import NodeEventStore (Store, Storage, record_at, slot_at, recordAt, queuedAt, healthy_,
  MutationStatus, MUTATION_OK, MUTATION_STORAGE_FAILURE, present, NODE_EVENT_CAPACITY).
Import NodeQueue NodeFacts NodeOps NodeRecovery NodeEventDelivery DeliveryFacts DeliveryOps DeliveryCalls.

(** ** The calls on a controller *)

Inductive Call :=
| Recover (source hub now : Z) (diagnosed : bool) (observer : option EventTxDiagnostics.Observer)
| TrackEnqueued (slot : nat) (now : Z)
| Service (now : Z) (synchronousWork : bool)
| GrantTransmit (now : Z)
| TxStarted (now : Z)
| TxStartFailed (now : Z)
| TxCompleted (now : Z)
| AdmissionCandidate (bytes : option (list Z)) (now : Z)
| ReclaimTerminal
| SuccessfulHubExchange
| ReclaimTerminals (controlled : bool) (now : Z).

(** The store operations a call on the controller [s] may make, by the record
    they find. *)
Inductive permitted (s : Controller) : Call → Op → NodeRecord → Prop :=
| permitted_metering c op r : metering op r → permitted s c op r
| permitted_exhausted c slot r : MAX_ATTEMPTS ≤ attemptsUsed r → permitted s c (MarkFailed slot) r
| permitted_arm now slot r : permitted s (GrantTransmit now) (Arm slot) r
| permitted_release bytes now slot r :
    answers s bytes EventProtocol.AdmissionStatus.ADMITTED r →
    permitted s (AdmissionCandidate bytes now) (ReleaseQueued slot) r
| permitted_refused bytes now slot r status :
    refusing status → answers s bytes status r →
    permitted s (AdmissionCandidate bytes now) (MarkFailed slot) r
| permitted_reclaim slot r : permitted s ReclaimTerminal (Reclaim slot) r
| permitted_reclaims controlled now slot r :
    permitted s (ReclaimTerminals controlled now) (Reclaim slot) r.

Section Durable.

Context {W : Type} `{Storage W} `{!EventIdentity.MetadataStorageLaws W} `{!NodeFacts.StorageLaws W}
  `{EventIdentity.EntropySource W} `{!EventIdentity.DurableMetadata W} `{!NodeFacts.DurableEvents W}
  `{SequenceSource W} `{JitterSource W} `{!QuietSources W}.

Implicit Types (s : Controller) (t : Store) (w : W) (R : nat → NodeRecord).

(** A call; the methods that return no [ControllerResult] answer [OK] here. *)
Definition run_call (c : Call) : st (Controller * W) ControllerResult :=
  match c with
  | Recover source hub now diagnosed observer => recover source hub now diagnosed observer
  | TrackEnqueued slot now => trackEnqueued slot now ;;; ret (result OK)
  | Service now synchronousWork => service now synchronousWork
  | GrantTransmit now => grantTransmit now
  | TxStarted now => txStarted now
  | TxStartFailed now => txStartFailed now
  | TxCompleted now => txCompleted now
  | AdmissionCandidate bytes now => admissionCandidate bytes now
  | ReclaimTerminal => reclaimTerminal
  | SuccessfulHubExchange => successfulHubExchange ;;; ret (result OK)
  | ReclaimTerminals controlled now => reclaimTerminals controlled now ;;; ret (result OK)
  end.

Fixpoint run_calls (cs : list Call) : st (Controller * W) unit :=
  match cs with
  | [] => ret tt
  | c :: cs' => run_call c ;;; run_calls cs'
  end.

(** The invariant of a controller between calls: a usable one has a meter below
    a minute for each slot, an active slot in range, and, from the grant on, an
    armed queued event whose attempt is what it sent. *)
Definition consistent s : Prop :=
  usable s = true → metered (policy_ s) ∧ policyBound_ (policy_ s) = true ∧ wired s.

Section Recovery.

Context (src : Z) (A : Op → NodeRecord → Prop) (R0 : nat → NodeRecord).

Hypothesis allow_metering : ∀ op r, metering op r → A op r.

Hypothesis allow_exhausted : exhausted_allowed A.

Lemma recover_ends source hub now diagnosed observer s w :
  kept src A R0 s w → ends src A R0 harmless (recover source hub now diagnosed observer) s w.
Proof.
  intros Hk. unfold recover. apply ends_update, ends_update.
  set (s1 := (reset s) <| observer_ := observer |> <| diagnosed_ := diagnosed |>).
  assert (Hk1 : kept src A R0 s1 w) by exact Hk.
  destruct (EventProtocol.hasValidEndpoints source hub); cbn [negb].
  2:{ apply ends_ret; [|done]. by apply unusable_settled. }
  apply ends_update.
  set (s2 := s1 <| bound_ := true |> <| source_ := source |> <| destination_ := hub |>).
  destruct (policyRecover_cases src A R0 allow_metering now s2 w Hk1)
    as (a & s3 & w3 & E & Hk3 & (t' & p' & o' & Hp) & Hok).
  eapply ends_bind; [exact E|]. case_bool_decide as Ha; cbn [negb]; [|by apply ends_degrade].
  destruct (Hok Ha) as (Hs & He & Hm & Hr & Hb). apply ends_update.
  set (s4 := s3 <| initialized_ := true |>).
  assert (Hl4 : live src A R0 s4 w3).
  { subst s4. rewrite Hp in *. by split. }
  destruct (loadHead_cases src A R0 s4 w3 Hl4) as (Hl5 & Hcase).
  assert (Hst : state_ (loadHead s4) = D_QUEUED).
  { destruct Hcase as [->|[_ ?]]; [|done]. subst s4. by rewrite Hp. }
  apply ends_this. cbn [id]. set (s5 := loadHead s4) in *. clearbody s5.
  assert (Hend : ∀ s w, settled src A R0 s w →
    ends src A R0 harmless (active <~ this active_ ;; ret (result (if (active : bool) then OK else NO_ACTIVE_EVENT))) s w).
  { intros s0 w0 Hs0. apply ends_this, ends_ret; [done|]. by destruct (active_ s0). }
  destruct (active_ s5) eqn:Hact; cbn [andb].
  - rewrite (live_record _ _ _ _ _ Hl5 Hact).
    destruct (Z.leb_spec MAX_ATTEMPTS (attemptsUsed (active_record s5))) as [Hmax|_].
    + destruct (markFailed_cases src A R0 s5 w3 Hl5 Hact (allow_exhausted _ _ Hmax))
        as (b & s6 & w6 & E6 & Hk6 & Hs6).
      eapply ends_bind; [exact E6|]. destruct b; cbn [negb]; [|by apply ends_degrade].
      apply Hend. destruct (Hs6 eq_refl) as [Hl6 [_ Hf6]]. apply settled_idle; congruence.
    + eapply ends_bind; [reflexivity|]. cbn [negb]. apply Hend. apply settled_idle; congruence.
  - eapply ends_bind; [reflexivity|]. cbn [negb]. apply Hend. apply settled_idle; congruence.
Qed.

End Recovery.

(** Every call keeps the invariant, changes the store by permitted operations
    only, and only the grant asks to transmit. *)
Lemma call_cases src R c s w :
  serving src R (store_ s, w) → consistent s →
  ends src (permitted s c) R (granted s) (run_call c) s w
  ∧ ((∀ now, c ≠ GrantTransmit now) → harmless (run_call c (s, w)).1 (run_call c (s, w)).2.1).
Proof.
  intros HR Hc. set (A := permitted s c).
  assert (Hk : kept src A R s w) by (exists R; split; [done|apply evolves_refl]).
  assert (Hs : settled src A R s w) by done.
  assert (Hmt : ∀ op r, metering op r → A op r) by (intros; by constructor).
  assert (Hex : exhausted_allowed A) by (intros slot r ?; by constructor).
  assert (Hh : ∀ m, ends src A R harmless m s w →
    ends src A R (granted s) m s w ∧ ((∀ now, c ≠ GrantTransmit now) → harmless (m (s, w)).1 (m (s, w)).2.1)).
  { intros m Hm. split; [by apply ends_harmless|]. intros _. apply Hm. }
  assert (Ho : ∀ {X} (m : st (Controller * W) X),
    ends src A R (λ _ _, True) m s w → ends src A R harmless (m ;;; ret (result OK)) s w).
  { intros X m [Hm _]. destruct (m (s, w)) as [x [s1 w1]] eqn:E.
    eapply ends_bind; [exact E|]. by apply ends_ret. }
  destruct c; cbn [run_call].
  - by apply Hh, recover_ends.
  - apply Hh, Ho. by apply trackEnqueued_ends.
  - by apply Hh, service_ends.
  - split; [|by intros Hn; destruct (Hn now)]. apply grantTransmit_ends; try done. by constructor.
  - by apply Hh, txStarted_ends.
  - by apply Hh, txStartFailed_ends.
  - by apply Hh, txCompleted_ends.
  - apply Hh, admissionCandidate_ends; try done; intros; by econstructor.
  - apply Hh, reclaimTerminal_ends; [done|]. by constructor.
  - apply Hh, Ho. by apply successfulHubExchange_ends.
  - apply Hh, Ho. apply reclaimTerminals_ends; [done|]. by constructor.
Qed.

(** C14. No call breaks the controller.  Whatever is called on a consistent
    controller whose store serves the records [R], with whatever arguments and
    whatever the flash does to each read and write: the controller is consistent
    again, and its store serves (or the flash holds) records made of [R] by
    accepted operations only, each permitted to that call - lifetimes are
    metered by any call, a record is armed by the grant, failed when its
    attempts are used up or the Hub refused the event, released when the Hub
    answered ADMITTED to an attempt of it, and reclaimed when asked to. *)
Theorem delivery_invariant src R c s w r s' w' :
  serving src R (store_ s, w) → consistent s → run_call c (s, w) = (r, (s', w')) →
  consistent s'
  ∧ ∃ R', serving src R' (store_ s', w') ∧ evolves (permitted s c) R R'.
Proof.
  intros HR Hc E. destruct (call_cases src R c s w HR Hc) as [[[Hk Hs] _] _].
  rewrite E in Hk, Hs. done.
Qed.

(** C15. What is transmitted was armed first.  Only [grantTransmit] asks the
    radio to transmit, and then the active event is queued, no queued event is
    older, its attempt is one more than before and at most the fifth, that
    attempt is durable - the store is sound over the flash with it - and the
    bytes handed out are the encoding of the record's event. *)
Theorem transmission_armed src R c s w r s' w' :
  serving src R (store_ s, w) → consistent s → run_call c (s, w) = (r, (s', w')) →
  action_type (result_action r) = TRANSMIT →
  (∃ now, c = GrantTransmit now) ∧ transmitted s r s' ∧ sound src (store_ s') w'.
Proof.
  intros HR Hc E Ht. destruct (call_cases src R c s w HR Hc) as [[Hs Hg] Hn].
  rewrite E in Hs, Hg, Hn. cbn [fst snd] in *. specialize (Hg Ht).
  split; [|split; [done|]].
  - destruct c; try (by destruct (Hn ltac:(done))). by eexists.
  - destruct (settled_live _ _ _ s' w' Hs (tr_usable _ _ _ Hg)) as [Hl _]. apply Hl.
Qed.

(** Why the call [c] on [s] takes the event of slot [i], last seen as [x], out
    of the queue. *)
Inductive leaves (s : Controller) (c : Call) (i : nat) (x : NodeRecord) : Op → Prop :=
| leaves_expired : leaves s c i x (MarkExpired i)
| leaves_exhausted : MAX_ATTEMPTS ≤ attemptsUsed x → leaves s c i x (MarkFailed i)
| leaves_refused bytes now status :
    c = AdmissionCandidate bytes now → refusing status → answers s bytes status x →
    leaves s c i x (MarkFailed i)
| leaves_admitted bytes now :
    c = AdmissionCandidate bytes now →
    answers s bytes EventProtocol.AdmissionStatus.ADMITTED x → leaves s c i x (ReleaseQueued i).

#[local] Instance Op_eq_dec : EqDecision Op.
Proof. solve_decision. Defined.

Lemma op_record_attempts op r next :
  is_u8 (attemptsUsed r) → op_record op r = inr next → is_u8 (attemptsUsed next).
Proof.
  intros Ha. destruct op; cbn [op_record]; repeat case_match; try discriminate; intros [= <-];
    try exact Ha; try concrete; apply u8_range.
Qed.

Lemma serving_attempts src R t w i :
  serving src R (t, w) → (i < 8)%nat → is_u8 (attemptsUsed (R i)).
Proof.
  intros [[Hs HR]|[_ Hc]] Hi; cbn [fst snd] in *.
  - rewrite <- HR by done. destruct (sound_record src t w i Hs Hi) as [Hwf _]. apply Hwf.
  - destruct (cu_governs _ _ _ Hc i Hi) as [c [Hg _]].
    apply event_content_inv in Hg as (Hwf & _). apply Hwf.
Qed.

(** A queued event follows a history, up to the operation that ends it. *)
Lemma evolves_queued A R R' i :
  evolves A R R' → (i < 8)%nat → is_u8 (attemptsUsed (R i)) → nr_state (R i) = NodeState.QUEUED →
  still_queued (R i) (R' i)
  ∨ ∃ x op, still_queued (R i) x ∧ A op x
      ∧ (op = MarkExpired i ∨ op = MarkFailed i ∨ op = ReleaseQueued i).
Proof.
  intros He Hi Hu Hq. induction He as [R R' HR|R op next R' Hs Hop Ha He IH].
  - left. rewrite HR by done. by apply still_queued_refl.
  - destruct (decide (i = op_slot op)) as [->|Hne].
    2:{ unfold replaced in IH. rewrite decide_False in IH by done. auto. }
    destruct (decide (op = MarkExpired (op_slot op) ∨ op = MarkFailed (op_slot op)
      ∨ op = ReleaseQueued (op_slot op))) as [Hend|Hend].
    { right. exists (R (op_slot op)), op. by split; [apply still_queued_refl|]. }
    assert (Hk : still_queued (R (op_slot op)) next).
    { apply (op_record_keeps op (op_slot op)); try done. intros He'. apply Hend.
      destruct op; cbn in He'; try done; auto. }
    unfold replaced in IH. rewrite decide_True in IH by done.
    destruct IH as [Hq'|(x & op' & Hx & ? & ?)]; [by eapply op_record_attempts|apply Hk|left|right].
    + by eapply still_queued_trans.
    + exists x, op'. split; [by eapply still_queued_trans|done].
Qed.

Lemma call_leaves src R c s w r s' w' i :
  serving src R (store_ s, w) → consistent s → run_call c (s, w) = (r, (s', w')) →
  (i < 8)%nat → nr_state (R i) = NodeState.QUEUED →
  ∃ R', serving src R' (store_ s', w')
    ∧ (still_queued (R i) (R' i)
       ∨ ∃ x op, still_queued (R i) x ∧ leaves s c i x op).
Proof.
  intros HR Hc E Hi Hq. destruct (call_cases src R c s w HR Hc) as [[[(R' & HR' & He) _] _] _].
  rewrite E in HR'. exists R'. split; [exact HR'|].
  pose proof (serving_attempts src R _ _ i HR Hi) as Hu.
  destruct (evolves_queued _ R R' i He Hi Hu Hq) as [?|(x & op & Hx & Hp & Hop)]; [by left|right].
  exists x, op. split; [done|].
  destruct Hp as [c op r0 (slot & [->| ->])|c slot r0 Hmax|now slot r0|bytes now slot r0 Ha
    |bytes now slot r0 status Hr Ha|slot r0|b now slot r0];
    destruct Hop as [Hop|[Hop|Hop]]; try discriminate Hop; injection Hop as ->.
  - apply leaves_expired.
  - by apply leaves_exhausted.
  - by eapply leaves_admitted.
  - by eapply leaves_refused.
Qed.


Lemma calls_keep src cs R x :
  serving src R (store_ x.1, x.2) → consistent x.1 →
  ∃ R', serving src R' (store_ (run_calls cs x).2.1, (run_calls cs x).2.2)
    ∧ consistent (run_calls cs x).2.1.
Proof.
  revert R x. induction cs as [|c cs IH]; intros R [s w] HR Hc; [by exists R|].
  cbn [fst snd] in *. destruct (call_cases src R c s w HR Hc) as [[[(R1 & HR1 & _) Hc1] _] _].
  cbn [run_calls]. unfold bind. destruct (run_call c (s, w)) as [r x1]. by apply (IH R1).
Qed.

(** ** The lifetime of a queued event *)

Lemma lifetime_at_now slot now s :
  metered (policy_ s) → (slot < 8)%nat →
  lifetime (at_now slot now s) slot
  = lifetime s slot - u32 (now - baselineMilliseconds (runtime_at slot s)).
Proof.
  intros Hm Hi. unfold lifetime. rewrite at_now_meter by done. cbn. lia.
Qed.

Lemma runtime_at_meter slot r t' o' s :
  length (runtime_ (policy_ s)) = 8%nat → (slot < 8)%nat →
  runtime_at slot (with_parts t' (meter slot r s) o' s) = r.
Proof.
  intros Hl Hi. unfold runtime_at. cbn. by rewrite nth_lookup, list_lookup_insert_eq by lia.
Qed.

(** C18. The service of a queued event returns and accounts for every
    millisecond.  The [while (true)] loop of [Policy::service] leaves after
    finitely many turns - [whileService] is the loop as it is written, and
    [serviceSlot] computes it - and then either the event is still queued, less
    than a minute of its life is only in memory, and what is left of its life
    is what was left before less the milliseconds since the last service (on
    the 32-bit clock), and positive; or nothing was left and the event is
    durably expired; or a write failed and nothing serves any more. *)
Theorem service_debits_exactly src slot now s w :
  sound src (store_ s) w → metered (policy_ s) → (slot < 8)%nat →
  nr_state (record_at (store_ s) slot) = NodeState.QUEUED → tracked (runtime_at slot s) = true →
  let left := lifetime s slot - u32 (now - baselineMilliseconds (runtime_at slot s)) in
  ∃ answer s' w', serviceSlot slot now (s, w) = (answer, (s', w'))
    ∧ whileService slot (at_now slot now s, w) answer (s', w')
    ∧ match answer with
      | Some status => status ≠ READY ∧ healthy_ (store_ s') = false ∧ ready_ (policy_ s') = false
      | None => sound src (store_ s') w'
          ∧ (nr_state (record_at (store_ s') slot) = NodeState.QUEUED
             ∧ 0 ≤ uncommittedMilliseconds (runtime_at slot s') < 60000
             ∧ lifetime s' slot = left ∧ 0 < left
             ∨ nr_state (record_at (store_ s') slot) = NodeState.EXPIRED ∧ left ≤ 0)
      end.
Proof.
  intros Hs Hm Hi Hq Ht left.
  destruct (serviceSlot_cases src slot now s w Hs Hm Hi)
    as [(? & _)|[(_ & ? & _)|(_ & _ & answer & s' & w' & E & Hw & Hlp)]]; [done|congruence|].
  exists answer, s', w'. split; [done|]. split; [done|].
  pose proof (lifetime_at_now slot now s Hm Hi) as Hleft. fold left in Hleft.
  assert (Hm' : length (runtime_ (policy_ (at_now slot now s))) = 8%nat)
    by (cbn; rewrite length_insert; apply Hm).
  inversion Hlp as [status t' p' w1 R' Hst Hh Hr Hlr Hc He|t' w1 u Hs' He Hq' Hu Hub Hlf
    |t' w1 Hs' He Hq' Hlf]; subst answer s' w1.
  - done.
  - split; [done|left]. split; [done|].
    rewrite runtime_at_meter by done. cbn [withdrawn uncommittedMilliseconds]. split; [done|].
    unfold lifetime at 1. rewrite runtime_at_meter by done. cbn. lia.
  - split; [done|right]. split; [done|]. lia.
Qed.

End Durable.

(** ** A board that sends *)

#[export] Instance board_sequences : SequenceSource Board := {
  next _ b := (true, 7, b)
}.

#[export] Instance board_jitter : JitterSource Board := {
  nextMilliseconds b := (100, b)
}.

#[export] Instance board_quiet : QuietSources Board.
Proof. split; intros; done || concrete. Qed.

Definition longInput : NodeEventStore.EventInput :=
  NodeEventStore.mkInput EventProtocol.Family.BUTTON 0 3600 1 [3; 0; 0; 0; 0; 0; 0; 0; 0; 0; 0; 0].

Definition stored_long : Store * Board := (NodeEventStore.enqueue longInput booted).2.

Lemma stored_long_sound : sound 17 stored_long.1 stored_long.2.
Proof.
  assert (Hwf : input_wf longInput) by (unfold input_wf; split_and!; concrete).
  destruct (enqueue_cases 17 booted.1 booted.2 longInput booted_sound Hwf) as (res & s' & w' & Ho & E).
  assert (Es : NodeEventStore.enqueue_status (NodeEventStore.enqueue longInput booted).1
    = NodeEventStore.ENQUEUED) by (vm_compute; reflexivity).
  unfold stored_long. rewrite <- surjective_pairing in E. rewrite E in *. cbn [fst snd] in *.
  by destruct Ho.
Qed.

(** The Node with one event stored, before its controller is recovered, and
    after calls that ready the event, send it and end the transmission. *)
Definition switched_on (x : Store * Board) : Controller * Board := (newController x.1, x.2).

Definition powered : Controller * Board := switched_on stored_long.

Definition after (cs : list Call) : Controller * Board := (run_calls cs powered).2.

Definition to_ready : list Call := [Recover 17 1 1000 false None; Service 1000 false].

Definition to_wait : list Call := to_ready ++ [GrantTransmit 1100; TxStarted 1100; TxCompleted 1200].

(** The Hub's answer: the event of source 17, sequence 7, was admitted. *)
Definition admittedBytes : list Z :=
  match EventProtocol.encodeAdmissionResponse
    (EventProtocol.makeAdmissionResponse
       (attemptOf (after to_wait).1 7 (active_record (after to_wait).1))
       EventProtocol.AdmissionStatus.ADMITTED) (Some (zeros 15)) with
  | (_, Some bytes, _) => bytes
  | _ => []
  end.

Lemma switched_on_ok src x :
  sound src x.1 x.2 →
  serving src (record_at x.1) (store_ (switched_on x).1, (switched_on x).2)
  ∧ consistent (switched_on x).1.
Proof. intros Hs. split; [by apply serving_done|done]. Qed.

Lemma after_ok cs : ∃ R, serving 17 R (store_ (after cs).1, (after cs).2) ∧ consistent (after cs).1.
Proof.
  destruct (switched_on_ok 17 stored_long stored_long_sound) as [HR Hc].
  exact (calls_keep 17 cs (record_at stored_long.1) powered HR Hc).
Qed.

Lemma run_call_parts c (x : Controller * Board) :
  run_call c (x.1, x.2) = ((run_call c (x.1, x.2)).1, ((run_call c (x.1, x.2)).2.1, (run_call c (x.1, x.2)).2.2)).
Proof. by destruct (run_call c (x.1, x.2)) as [? []]. Qed.

Lemma delivery_invariant_witness :
  consistent (run_call (GrantTransmit 1100) ((after to_ready).1, (after to_ready).2)).2.1.
Proof.
  destruct (after_ok to_ready) as (R & HR & Hc).
  exact (proj1 (delivery_invariant 17 R (GrantTransmit 1100) _ _ _ _ _ HR Hc (run_call_parts _ _))).
Defined.

Lemma transmission_armed_witness :
  transmitted (after to_ready).1
    (run_call (GrantTransmit 1100) ((after to_ready).1, (after to_ready).2)).1
    (run_call (GrantTransmit 1100) ((after to_ready).1, (after to_ready).2)).2.1.
Proof.
  destruct (after_ok to_ready) as (R & HR & Hc).
  refine (proj1 (proj2 (transmission_armed 17 R (GrantTransmit 1100) _ _ _ _ _ HR Hc
    (run_call_parts _ _) _))).
  vm_compute. reflexivity.
Defined.

Lemma after_sound cs :
  healthy_ (store_ (after cs).1) = true → sound 17 (store_ (after cs).1) (after cs).2.
Proof.
  intros Hh. destruct (after_ok cs) as (R & [[Hs _]|[Hx _]] & _); [exact Hs|].
  cbn [fst] in Hx. congruence.
Qed.

Lemma after_serving cs :
  healthy_ (store_ (after cs).1) = true →
  serving 17 (record_at (store_ (after cs).1)) (store_ (after cs).1, (after cs).2).
Proof. intros Hh. exact (serving_done _ _ _ (after_sound cs Hh)). Qed.

Lemma after_consistent cs : consistent (after cs).1.
Proof. destruct (after_ok cs) as (R & _ & Hc). exact Hc. Qed.


(** A minute after the recovery the first minute is debited. *)
Lemma service_debits_exactly_witness :
  ∃ answer s' w', serviceSlot 0 62000 ((after to_ready).1, (after to_ready).2) = (answer, (s', w'))
    ∧ whileService 0 (at_now 0 62000 (after to_ready).1, (after to_ready).2) answer (s', w').
Proof.
  assert (Hh : healthy_ (store_ (after to_ready).1) = true) by (vm_compute; reflexivity).
  assert (Hu : usable (after to_ready).1 = true) by (vm_compute; reflexivity).
  destruct (service_debits_exactly 17 0 62000 (after to_ready).1 (after to_ready).2
    (after_sound to_ready Hh) (proj1 (after_consistent to_ready Hu))) as (answer & s' & w' & E & Hw & _).
  - lia.
  - vm_compute. reflexivity.
  - vm_compute. reflexivity.
  - exists answer, s', w'. exact (conj E Hw).
Defined.

End DeliveryLife.
