(* ===== verification/DeliveryProgress.v ===== *)
(** Progress of the delivery: whatever the Hub and the flash do, the event at
    the head of the queue is decided within five attempts. *)

From S2P Require Import Prelude Wire EventWire Copies Records Identity Diagnostics NodeStore NodeQueue NodeFacts NodeOps NodeRecovery Delivery DeliveryFacts DeliveryOps DeliveryCalls DeliveryLife.

Module DeliveryProgress.

Import EventRecords.
Import NodeEventStore (Store, Storage, record_at, slot_at, recordAt, queuedAt, healthy_).
Import NodeQueue NodeFacts NodeOps NodeRecovery NodeEventDelivery DeliveryFacts DeliveryOps
  DeliveryCalls DeliveryLife.

(** One attempt of the loop of src-rx/main.cpp in which the Hub does not answer:
    the times of the service that readies the event, of the grant, of the end
    of the transmission, and of the service that finds the timeout. *)
Record Round := mkRound {
  readyAt : Z;
  grantAt : Z;
  sentAt : Z;
  timeoutAt : Z
}.

Definition round_calls (r : Round) : list Call :=
  [Service (readyAt r) false; GrantTransmit (grantAt r); TxCompleted (sentAt r);
   Service (timeoutAt r) false].

(** The longest backoff: the fourth attempt's 8000 ms and the largest jitter. *)
Definition LONGEST_BACKOFF : Z := 8250.

(** The service of a round comes after the admission timeout, and the next round
    after the backoff. *)
Definition timed_out (r : Round) : Prop :=
  ADMISSION_TIMEOUT_MILLISECONDS ≤ elapsed (timeoutAt r) (sentAt r).

Definition follows (r r' : Round) : Prop := LONGEST_BACKOFF ≤ elapsed (readyAt r') (timeoutAt r).

Inductive well_timed : list Round → Prop :=
| timed_none : well_timed []
| timed_one r : timed_out r → well_timed [r]
| timed_more r r' rs :
    timed_out r → follows r r' → well_timed (r' :: rs) → well_timed (r :: r' :: rs).

Section Durable.

Context {W : Type} `{Storage W} `{!EventIdentity.MetadataStorageLaws W} `{!NodeFacts.StorageLaws W}
  `{EventIdentity.EntropySource W} `{!EventIdentity.DurableMetadata W} `{!NodeFacts.DurableEvents W}
  `{SequenceSource W} `{JitterSource W} `{!QuietSources W}.

Implicit Types (s : Controller) (t : Store) (w : W) (R : nat → NodeRecord).

Context (src : Z) (R0 : nat → NodeRecord).

(** Progress does not look at which operations are made. *)
Let A : Op → NodeRecord → Prop := λ _ _, True.

Lemma allow_all : ∀ op r, metering op r → A op r.
Proof. done. Qed.

Lemma allow_exhaustion : exhausted_allowed A.
Proof. done. Qed.

Abbreviation ends := (ends src A R0).

Abbreviation live := (live src A R0).

Abbreviation settled := (settled src A R0).

(** The active event is in state [x] of its delivery, after [k] attempts. *)
Definition phase (x : DeliveryState) (k : Z) (s : Controller) : Prop :=
  active_ s = true ∧ state_ s = x ∧ attemptsUsed (active_record s) = k.

Lemma serviced_phase s s' x k :
  serviced_from s s' → (activeSlot_ s < 8)%nat → phase x k s → phase x k s'.
Proof.
  intros (t' & p' & o' & -> & He & _) Hi (Ha & Hx & Hk). split; [done|]. split; [done|].
  rewrite <- Hk. unfold active_record. cbn.
  destruct (metering_evolves _ _ _ He Hi) as [->|(_ & _ & -> & _)]; done.
Qed.

Lemma observed_phase s s' x k : observed s s' → phase x k s → phase x k s'.
Proof. by intros (d & o & ->). Qed.

Lemma changed_phase s s' x y k : observed s s' → phase x k s → phase y k (with_state y s').
Proof. intros (d & o & ->) (Ha & _ & Hk). done. Qed.

(** The service of a live controller with an active event, up to its switch. *)
Lemma service_active Q now sync s w :
  settled s w → usable s = true → active_ s = true → state_ s ≠ D_RELEASED →
  (∀ r s', decided s' → Q r s') →
  (∀ s' w', live s' w' → wired s' → serviced_from s s' →
     ends Q (over <~ this terminal ;;
             if (over : bool) then ret (result OK) else serviceState now sync) s' w') →
  ends Q (service now sync) s w.
Proof.
  intros Hs Hu Ha Hr HQ Hk. destruct (settled_live _ _ _ s w Hs Hu) as [Hl Hw].
  unfold service. apply ends_this. rewrite Hu. cbn [negb]. apply ends_update, ends_update.
  rewrite bool_decide_eq_false_2 by done. rewrite Ha. cbn [negb]. apply ends_this. rewrite Ha. cbn [negb].
  apply (ends_serviced src A R0 allow_all); [done|by intros r s' Hd _; apply HQ, Hd|].
  intros s1 w1 Hl1 Hf1. apply Hk; [done|by eapply serviced_wired|done].
Qed.

(** ** Nothing revives a decided event *)

Lemma decided_kept c s w :
  settled s w → decided s →
  (∃ now, c = Service now false ∨ c = GrantTransmit now ∨ c = TxCompleted now) →
  ends (λ _, decided) (run_call c) s w.
Proof.
  intros Hs Hd (now & [->|[->| ->]]); cbn [run_call].
  - destruct (usable s) eqn:Hu.
    2:{ unfold service. apply ends_this. rewrite Hu. by apply ends_ret. }
    destruct Hd as [?|[Ha Hst]]; [congruence|].
    apply service_active; try done; [by destruct Hst; congruence|].
    intros s' w' Hl' Hw' Hf. apply ends_this.
    destruct Hf as (t' & p' & o' & -> & _). unfold terminal. cbn [state_ with_parts].
    assert (Hd' : decided (with_parts t' p' o' s)) by by right.
    destruct Hst as [-> | ->]; decide_eqs; (apply ends_ret; [by apply live_settled|done]).
  - unfold grantTransmit. apply ends_this. cbn [id]. destruct (usable s) eqn:Hu; cbn [negb].
    2:{ by apply ends_ret. }
    destruct Hd as [?|[Ha Hst]]; [congruence|]. rewrite Ha.
    rewrite bool_decide_eq_false_2 by (by destruct Hst; congruence). cbn [negb orb].
    apply ends_ret; [done|by right].
  - unfold txCompleted. apply ends_quiet; [apply quiet_observe|]. intros s1 Ho.
    assert (Hs1 : settled s1 w) by by eapply settled_observed.
    assert (Hd1 : decided s1) by (destruct Ho as (d & o & ->); exact Hd).
    unfold transmitting. apply ends_this. cbn [id].
    destruct (negb _ || negb _) eqn:Hg; [by apply ends_ret|]. exfalso.
    apply orb_false_iff in Hg as [Hu%negb_false_iff Hst%negb_false_iff]. apply bool_decide_eq_true in Hst.
    destruct Hd1 as [?|[_ [?|?]]]; congruence.
Qed.

(** ** The four calls of a round *)

Definition reaches (P : Controller → Prop) {X} (_ : X) (s : Controller) : Prop := decided s ∨ P s.

(** What the backoff of an event that may go on looks like. *)
Definition backing_off (k since : Z) (s : Controller) : Prop :=
  phase BACKOFF k s ∧ k < MAX_ATTEMPTS ∧ deadlineOrigin_ s = since
  ∧ deadlineDuration_ s ≤ LONGEST_BACKOFF.

(** An event that the next service makes ready. *)
Definition startable (now k : Z) (s : Controller) : Prop :=
  phase D_QUEUED k s ∨ phase D_READY k s
  ∨ (phase BACKOFF k s ∧ deadlineDuration_ s ≤ elapsed now (deadlineOrigin_ s)).

Lemma startable_serviced now k s s' :
  serviced_from s s' → (activeSlot_ s < 8)%nat → startable now k s → startable now k s'.
Proof.
  intros Hf Hi. pose proof Hf as (t' & p' & o' & E & _). unfold startable.
  intros [Hp|[Hp|[Hp Hd]]]; [left|right; left|right; right]; try by eapply serviced_phase.
  split; [by eapply serviced_phase|]. by rewrite E.
Qed.

Lemma round_ready now k s w :
  settled s w → usable s = true → startable now k s →
  ends (reaches (phase D_READY k)) (service now false) s w.
Proof.
  intros Hs Hu Hst. destruct (settled_live _ _ _ s w Hs Hu) as [Hl Hw].
  assert (Ha : active_ s = true) by (destruct Hst as [[]|[[]|[[] _]]]; done).
  pose proof (lv_slot _ _ _ _ _ Hl Ha) as Hi.
  apply service_active; [done|done|done| |by left|].
  { destruct Hst as [(_&?&_)|[(_&?&_)|[(_&?&_) _]]]; congruence. }
  intros s1 w1 Hl1 Hw1 Hf1. pose proof (startable_serviced now k s s1 Hf1 Hi Hst) as Hst1.
  apply ends_this. unfold terminal, serviceState.
  destruct Hst1 as [Hp|[Hp|[Hp Hd]]]; pose proof Hp as (Ha1 & -> & Hk1); decide_eqs; cbn [orb];
    apply ends_this; cbn [id]; rewrite (proj1 (proj2 Hp)).
  - rewrite (live_record _ _ _ s1 w1 Hl1 Ha1).
    destruct (Z.leb_spec MAX_ATTEMPTS (attemptsUsed (active_record s1))) as [Hmax|_].
    + eapply ends_conseq; [by apply failing_over|]. intros r s' [_ ?]. by left.
    + cbn [negb]. apply ends_change. intros s' Ho. apply ends_ret; [by eapply settled_changed|].
      right. by eapply changed_phase.
  - apply ends_update, ends_ret; [by apply live_settled|by right].
  - rewrite (proj2 (Z.leb_le _ _) Hd). apply ends_assoc, ends_quiet; [apply quiet_observe|].
    intros s2 Ho2. apply ends_change. intros s3 Ho3.
    apply ends_ret; [apply (settled_changed _ _ _ _ s1); [by eapply observed_trans|done..]|].
    right. apply (changed_phase s1 _ BACKOFF); [by eapply observed_trans|done].
Qed.

Lemma round_grant now k s w :
  settled s w → usable s = true → phase D_READY k s →
  ends (reaches (phase TX (k + 1))) (grantTransmit now) s w.
Proof.
  intros Hs Hu (Ha & Hst & Hk). eapply ends_conseq; [by apply (grantTransmit_due src A R0)|].
  intros r s' [[_ Ht]|[_ ?]]; [right|by left]. destruct Ht. split; [tauto|]. split; [done|congruence].
Qed.

Lemma round_sent now k s w :
  settled s w → usable s = true → phase TX k s →
  ends (reaches (λ s', phase WAIT_ADMISSION k s' ∧ deadlineOrigin_ s' = now)) (txCompleted now) s w.
Proof.
  intros Hs Hu Hp. unfold txCompleted. apply ends_quiet; [apply quiet_observe|]. intros s0 Ho.
  pose proof (observed_phase _ _ _ _ Ho Hp) as Hp0.
  assert (Hu0 : usable s0 = true) by by destruct Ho as (d & o & ->).
  pose proof (settled_observed _ _ _ _ _ _ Ho Hs) as Hs0.
  destruct (settled_live _ _ _ s0 w Hs0 Hu0) as [Hl0 Hw0].
  unfold transmitting. apply ends_this. cbn [id]. rewrite Hu0, (proj1 (proj2 Hp0)). decide_eqs. cbn [negb orb].
  apply (ends_serviced src A R0 allow_all); [done| |].
  { intros r s' Hd _. left. by apply Hd, Hp0. }
  intros s1 w1 Hl1 Hf1. pose proof (serviced_wired _ _ Hf1 Hw0) as Hw1.
  pose proof (serviced_phase _ _ _ _ Hf1 (lv_slot _ _ _ _ _ Hl0 (proj1 Hp0)) Hp0) as Hp1.
  apply ends_change. intros s2 Ho2. apply ends_update, ends_ret.
  - apply (settled_waiting src A R0 now s1 s2); [done|done|apply Hp1|done].
  - right. split; [|done]. by destruct (changed_phase _ _ _ WAIT_ADMISSION _ Ho2 Hp1) as (?&?&?).
Qed.

Lemma longest_backoff attempts jitter :
  1 ≤ attempts < MAX_ATTEMPTS → 0 ≤ jitter ≤ 250 → backoff_delay attempts jitter ≤ LONGEST_BACKOFF.
Proof.
  unfold MAX_ATTEMPTS, LONGEST_BACKOFF, backoff_delay. intros Ha Hj.
  assert (attempts = 1 ∨ attempts = 2 ∨ attempts = 3 ∨ attempts = 4) as [->|[->|[->| ->]]] by lia;
    match goal with |- context [2 ^ ?x] => let v := eval vm_compute in (2 ^ x) in
      change (2 ^ x) with v end; lia.
Qed.

Lemma round_timeout sent now k s w :
  settled s w → usable s = true → phase WAIT_ADMISSION k s → deadlineOrigin_ s = sent →
  ADMISSION_TIMEOUT_MILLISECONDS ≤ elapsed now sent →
  ends (reaches (backing_off k now)) (service now false) s w.
Proof.
  intros Hs Hu Hp Hsent Hto. destruct (settled_live _ _ _ s w Hs Hu) as [Hl Hw].
  pose proof Hp as (Ha & Hst & _). pose proof (lv_slot _ _ _ _ _ Hl Ha) as Hi.
  apply service_active; [done..| |by left|]; [congruence|].
  intros s1 w1 Hl1 Hw1 Hf1. pose proof (serviced_phase _ _ _ _ Hf1 Hi Hp) as Hp1.
  assert (Hd1 : deadlineOrigin_ s1 = sent) by by destruct Hf1 as (t' & p' & o' & -> & _).
  apply ends_this. unfold terminal, serviceState. rewrite (proj1 (proj2 Hp1)). decide_eqs. cbn [orb].
  apply ends_this. cbn [id]. rewrite (proj1 (proj2 Hp1)), Hd1, (proj2 (Z.leb_le _ _) Hto).
  apply ends_quiet; [apply quiet_observe|]. intros s2 Ho2.
  pose proof (observed_phase _ _ _ _ Ho2 Hp1) as (Ha2 & Hst2 & Hk2).
  pose proof (observed_wired _ _ Ho2 Hw1) as Hw2.
  assert (Hat : attempted s2) by (apply wired_active; auto).
  eapply ends_conseq.
  { eapply (ends_ending src A R0 _ receiveResult); [apply failedAttempt_cases; [done|by eapply observed_live|done]|done]. }
  intros r s' [_ [[(_ & Hac & Hf)|(Hlt & Hac & Hb & Hrec & Horg & j & Hj & Hdur)]|Hus]].
  - left. right. auto.
  - right. split; [split; [done|split; [done|congruence]]|]. split; [congruence|]. split; [done|].
    rewrite Hdur. apply longest_backoff; [|done]. split; [apply Hat|done].
  - left. by left.
Qed.

(** ** Rounds *)

(** One call after another. *)
Lemma ends_then {X Y} (Q : X → Controller → Prop) (Q' : Y → Controller → Prop) m k s w :
  ends Q m s w → (∀ x s' w', settled s' w' → Q x s' → ends Q' (k x) s' w') → ends Q' (bind m k) s w.
Proof.
  intros [Hs HQ] Hk. destruct (m (s, w)) as [x [s' w']] eqn:E. eapply ends_bind; [exact E|]. by apply Hk.
Qed.

(** The calls that carry an undecided event on, from [P] to [P']. *)
Lemma ends_call c (P P' : Controller → Prop) k s w :
  settled s w → decided s ∨ P s →
  (∃ now, c = Service now false ∨ c = GrantTransmit now ∨ c = TxCompleted now) →
  (∀ s w, settled s w → usable s = true → P s → ends (reaches P') (run_call c) s w) →
  (∀ s' w', settled s' w' → decided s' ∨ P' s' → ends (λ _, decided) k s' w') →
  ends (λ (_ : unit), decided) (run_call c ;;; k) s w.
Proof.
  intros Hs Hd Hc Hstep Hk. apply (ends_then (reaches P')).
  - destruct (usable s) eqn:Hu.
    + destruct Hd as [Hd|HP]; [|by apply Hstep].
      eapply ends_conseq; [by apply decided_kept|]. intros. by left.
    + eapply ends_conseq; [apply decided_kept; [done|by left|done]|]. intros. by left.
  - intros r s' w'. apply Hk.
Qed.

Definition rounds_calls (rs : list Round) : list Call := concat (map round_calls rs).

Lemma run_round r cs k s w :
  timed_out r → settled s w → decided s ∨ startable (readyAt r) k s →
  (∀ s' w', settled s' w' → decided s' ∨ backing_off (k + 1) (timeoutAt r) s' →
     ends (λ _, decided) (run_calls cs) s' w') →
  ends (λ _, decided) (run_calls (round_calls r ++ cs)) s w.
Proof.
  intros Ht Hs Hd Hk. cbn [round_calls app].
  apply (ends_call _ (startable (readyAt r) k) (phase D_READY k));
    [done|done|by eexists; auto|intros ????; by apply round_ready|].
  intros s1 w1 Hs1 Hd1. apply (ends_call _ (phase D_READY k) (phase TX (k + 1)));
    [done|done|by eexists; auto|intros ????; by apply round_grant|].
  intros s2 w2 Hs2 Hd2. apply (ends_call _ (phase TX (k + 1))
      (λ s', phase WAIT_ADMISSION (k + 1) s' ∧ deadlineOrigin_ s' = sentAt r));
    [done|done|by eexists; auto|intros ????; by apply round_sent|].
  intros s3 w3 Hs3 Hd3.
  apply (ends_call _ (λ s', phase WAIT_ADMISSION (k + 1) s' ∧ deadlineOrigin_ s' = sentAt r)
      (backing_off (k + 1) (timeoutAt r)));
    [done|done|by eexists; auto|intros ??? Hu4 [? ?]; by eapply round_timeout|].
  exact Hk.
Qed.

(** [k] attempts used before the first round, and a round uses one. *)
Lemma rounds_decide rs k s w :
  well_timed rs → settled s w →
  decided s ∨ match rs with [] => False | r :: _ => startable (readyAt r) k s end →
  MAX_ATTEMPTS ≤ k + Z.of_nat (length rs) →
  ends (λ _, decided) (run_calls (rounds_calls rs)) s w.
Proof.
  intros Hwt. revert k s w. induction Hwt as [|r Ht|r r' rs Ht Hf Hwt IH]; intros k s w Hs Hd Hk.
  { apply ends_ret; [done|]. by destruct Hd. }
  - apply (run_round r [] k); try done. intros s1 w1 Hs1 Hd1. apply ends_ret; [done|].
    destruct Hd1 as [?|(_ & Hlt & _)]; [done|]. cbn [length] in Hk. lia.
  - change (rounds_calls (r :: r' :: rs)) with (round_calls r ++ rounds_calls (r' :: rs)).
    apply (run_round r _ k); try done. intros s1 w1 Hs1 Hd1.
    apply (IH (k + 1)); [done| |cbn [length] in *; lia].
    destruct Hd1 as [?|(Hp & _ & Ho & Hdu)]; [by left|right; right; right]. split; [done|].
    rewrite Ho. unfold follows in Hf. lia.
Qed.

End Durable.

(** C17. Every event is decided within five attempts.  Take a consistent, usable
    controller with an active event about to start, and let the loop drive it
    through five rounds in which the Hub never answers, each round after the
    timeouts of the one before.  Whatever the flash, the sequence and the
    jitter source do, afterwards the event has failed or expired, or the
    controller has stopped for a fault: it never retries forever, and never
    hangs in a state it cannot leave. *)
Theorem event_decided_in_five_rounds {W : Type} `{Storage W} `{!EventIdentity.MetadataStorageLaws W}
  `{!NodeFacts.StorageLaws W} `{EventIdentity.EntropySource W} `{!EventIdentity.DurableMetadata W}
  `{!NodeFacts.DurableEvents W} `{SequenceSource W} `{JitterSource W} `{!QuietSources W}
  src R rs (s : Controller) (w : W) :
  serving src R (store_ s, w) → consistent s → active_ s = true →
  state_ s = D_QUEUED ∨ state_ s = D_READY → well_timed rs → length rs = 5%nat →
  decided (run_calls (rounds_calls rs) (s, w)).2.1.
Proof.
  intros HR Hc Ha Hst Hwt Hn.
  assert (Hs : DeliveryOps.settled src (λ _ _, True) R s w).
  { split; [|done]. exists R. split; [done|apply evolves_refl]. }
  set (k := Z.max 0 (attemptsUsed (active_record s))).
  destruct (rounds_decide src R rs k s w Hwt Hs) as [_ Hd]; [| |done].
  - destruct (usable s) eqn:Hu; [right|by left; left].
    destruct rs as [|r rs]; [done|]. destruct (settled_live _ _ _ _ _ Hs Hu) as [Hl _].
    destruct (sound_record src _ w _ (lv_sound _ _ _ _ _ Hl) (lv_slot _ _ _ _ _ Hl Ha)) as [Hwf _].
    assert (Hat : is_u8 (attemptsUsed (active_record s))) by apply Hwf.
    assert (Hk : attemptsUsed (active_record s) = k) by (unfold k; uint).
    destruct Hst as [?|?]; [by left|by right; left].
  - rewrite Hn. unfold MAX_ATTEMPTS, k. lia.
Qed.

(** Five rounds of eleven seconds; the first finds the recovered event. *)
Definition sampleRound (start : Z) : Round :=
  mkRound start (start + 100) (start + 200) (start + 2700).

Definition sampleRounds : list Round :=
  [sampleRound 2000; sampleRound 13000; sampleRound 24000; sampleRound 35000; sampleRound 46000].

Lemma sampleRounds_timed : well_timed sampleRounds.
Proof.
  unfold sampleRounds, sampleRound. repeat constructor; unfold timed_out, follows; vm_compute; discriminate.
Qed.

Lemma event_decided_in_five_rounds_witness :
  decided (run_calls (rounds_calls sampleRounds) ((after to_ready).1, (after to_ready).2)).2.1.
Proof.
  destruct (after_ok to_ready) as (R & HR & Hc).
  refine (event_decided_in_five_rounds 17 R sampleRounds (after to_ready).1 (after to_ready).2
    HR Hc _ _ sampleRounds_timed _).
  - vm_compute. reflexivity.
  - right. vm_compute. reflexivity.
  - reflexivity.
Defined.

(** There the event has failed after its fifth attempt. *)
Example sampleRounds_fail :
  state_ (run_calls (rounds_calls sampleRounds) (after to_ready)).2.1 = D_FAILED
  ∧ attemptsUsed (record_at (store_ (run_calls (rounds_calls sampleRounds) (after to_ready)).2.1) 0) = 5.
Proof. vm_compute. split; reflexivity. Qed.

End DeliveryProgress.
