(* ===== verification/Radio.v ===== *)
(** The event path on the radio, lib/event_radio_integration: the Hub's adapter
    from received bytes to the ledger and back to an answer, and the arbiters
    that share each radio between events and commands. *)

From S2P Require Import Prelude Wire EventWire Copies Records Identity Diagnostics NodeStore Ledger Delivery.

Module EventRadioIntegration.

Import EventProtocol.

(** ** The Hub's adapter *)

(* hub_event_radio.h:11-17 HubOwner *)
Inductive HubOwner :=
  IDLE_RECEIVE | COMMAND_TX | COMMAND_WAIT_ACK | COMMAND_WAIT_RESPONSE | EVENT_ACK_TX.

(* hub_event_radio.h:19-23 HubAction *)
Inductive HubAction := DISCARD | START_EVENT_ACK | RESUME_PRIOR_OWNER.

(* hub_event_radio.h:25-31 HubResult *)
Record HubResult := mkHubResult {
  hub_action : HubAction;
  ledgerMutated : bool;
  hub_status : Z;
  hub_bytes : list Z;
  hub_length : Z
}.

#[global] Instance HubOwner_eq_dec : EqDecision HubOwner.
Proof. solve_decision. Defined.

#[global] Instance HubAction_eq_dec : EqDecision HubAction.
Proof. solve_decision. Defined.

(** A zeroed result, and with its action set, a discarded packet. *)
Definition discarded : HubResult :=
  mkHubResult DISCARD false 0 (zeros (Z.to_nat Protocol.MAX_PACKET_SIZE)) 0.

(** The packet is an Event from the Node to this Hub. *)
(* hub_event_radio.h:42-46 = HubAdapter::process, the first test *)
Definition addressed (hubDeviceId nodeDeviceId : Z) (packet : Protocol.Packet) : bool :=
  (Protocol.type packet =? Protocol.PacketType.EVENT)
  && (Protocol.source packet =? nodeDeviceId) && (Protocol.destination packet =? hubDeviceId)
  && negb (Protocol.source packet =? 0) && negb (Protocol.destination packet =? 0)
  && (COMMON_PAYLOAD_SIZE <=? Protocol.payloadLength packet).

(** Its identity and length can be answered. *)
(* hub_event_radio.h:48-53 = HubAdapter::process, the second test *)
Definition correlatable (packet : Protocol.Packet) : bool :=
  let payload := Protocol.payload packet in
  negb (readUint32Le payload 0 =? 0) && negb (readUint32Le payload 4 =? 0)
  && (rd payload 13 <=? MAX_BODY_SIZE)
  && (Protocol.payloadLength packet =? COMMON_PAYLOAD_SIZE + rd payload 13)
  && isCorrelatableFamily (Protocol.opcode packet).

(* hub_event_radio.h:55-62 = HubAdapter::process, the Event *)
Definition packetEvent (packet : Protocol.Packet) : Event :=
  let payload := Protocol.payload packet in
  mkEvent (Protocol.source packet) (Protocol.destination packet) (Protocol.sequence packet)
    (Protocol.opcode packet) (readUint32Le payload 0) (readUint32Le payload 4) (rd payload 8)
    (readUint32Le payload 9) (rd payload 13)
    (copy_bytes (Z.to_nat (rd payload 13)) (body zeroEvent) 0 payload 14).

(** The status the Node is sent for an admission, if any. *)
(* hub_event_radio.h:73-89 = HubAdapter::process, the switch *)
Definition wireStatus (status : HubEventLedger.AdmissionStatus) : option Z :=
  match status with
  | HubEventLedger.DURABLE_NEW_ADMISSION | HubEventLedger.EXACT_DUPLICATE =>
      Some AdmissionStatus.ADMITTED
  | HubEventLedger.CAPACITY => Some AdmissionStatus.CAPACITY
  | HubEventLedger.ADMIT_IDENTITY_CONTENT_MISMATCH =>
      Some AdmissionStatus.IDENTITY_CONTENT_MISMATCH
  | _ => None
  end.

Section Adapter.

Context {W : Type} `{HubEventLedger.Storage W}.

Abbreviation M := (st (HubEventLedger.Ledger * W)).

(** The status for the Event, and whether the ledger changed. *)
(* hub_event_radio.h:64-90 = HubAdapter::process, the admission *)
Definition admission (event : Event) : M (option (Z * bool)) :=
  if negb (isRegisteredFamily (family event))
  then ret (Some (AdmissionStatus.UNSUPPORTED_EVENT, false)) else
  if negb (isValidEvent event)
  then ret (Some (AdmissionStatus.MALFORMED_EVENT, false)) else
  before <~ this HubEventLedger.activeCount ;;
  admitted <~ HubEventLedger.admit_event event ;;
  now <~ this HubEventLedger.activeCount ;;
  ret (s ← wireStatus (HubEventLedger.admission_status admitted);
       Some (s, bool_decide (HubEventLedger.admission_status admitted
                             = HubEventLedger.DURABLE_NEW_ADMISSION)
                && negb (now =? before)%nat)).

(** The answer to the Event; [diagnosed] says whether [diagnostics], the object
    the ledger points to, was given. *)
(* hub_event_radio.h:92-104 = HubAdapter::process, the answer *)
Definition answer (diagnosed : bool) (event : Event) (status : Z) (mutated : bool) : M HubResult :=
  match encodeAdmissionResponse (makeAdmissionResponse event status)
          (Some (zeros (Z.to_nat Protocol.MAX_PACKET_SIZE))) with
  | (true, Some bytes, length) =>
      (if (status =? AdmissionStatus.CAPACITY) && diagnosed
       then HubEventLedger.note RuntimeState.HUB_CAPACITY_REJECTION 1 else ret tt) ;;;
      ret (mkHubResult START_EVENT_ACK mutated status bytes length)
  | _ => ret discarded
  end.

(* hub_event_radio.h:35-105 HubAdapter::process *)
Definition process (bytes : option (list Z)) (hubDeviceId nodeDeviceId : Z) (diagnosed : bool)
    : M HubResult :=
  let (decoded, packet) := Protocol.decode bytes Protocol.zeroPacket in
  if negb decoded || negb (addressed hubDeviceId nodeDeviceId packet) then ret discarded else
  if negb (correlatable packet) then ret discarded else
  let event := packetEvent packet in
  admitted <~ admission event ;;
  match admitted with
  | Some (status, mutated) => answer diagnosed event status mutated
  | None => ret discarded
  end.

End Adapter.

(** ** The Hub's arbiter *)

(* hub_event_radio.h:131-134 = HubArbiter members *)
Record HubArbiter := mkHubArbiter {
  owner_ : HubOwner;
  savedOwner_ : HubOwner;
  deadline_ : Z;
  savedDeadline_ : Z
}.

Definition newHubArbiter : HubArbiter := mkHubArbiter IDLE_RECEIVE IDLE_RECEIVE 0 0.

(* hub_event_radio.h:110-112 HubArbiter::setOwner *)
Definition setOwner (owner : HubOwner) (deadline : Z) (a : HubArbiter) : HubArbiter :=
  mkHubArbiter owner (savedOwner_ a) deadline (savedDeadline_ a).

(* hub_event_radio.h:113-118 HubArbiter::beginEventAck *)
Definition beginEventAck (a : HubArbiter) : bool * HubArbiter :=
  match owner_ a with
  | EVENT_ACK_TX | COMMAND_TX => (false, a)
  | owner => (true, mkHubArbiter EVENT_ACK_TX owner (deadline_ a) (deadline_ a))
  end.

(* hub_event_radio.h:119-124 HubArbiter::finishEventAck *)
Definition finishEventAck (a : HubArbiter) : HubOwner * HubArbiter :=
  let a := match owner_ a with
    | EVENT_ACK_TX => mkHubArbiter (savedOwner_ a) (savedOwner_ a) (savedDeadline_ a) (savedDeadline_ a)
    | _ => a
    end in
  (owner_ a, a).

(* hub_event_radio.h:125-127 HubArbiter::commandMayAcquire *)
Definition commandMayAcquire (isrPending : bool) (a : HubArbiter) : bool :=
  bool_decide (owner_ a = IDLE_RECEIVE) && negb isrPending.

(* hub_receive_release.h:7-9 ReleaseReceiveResult *)
Inductive ReleaseReceiveResult :=
  RESTORED | PENDING_IRQ | EVENT_OWNED | STANDBY_FAILED | RECEIVE_FAILED.

(** The radio, its volatile interrupt flag, and the caller's restoration. *)
Class ReleaseRadio (W : Type) := {
  irqPending : st W bool;
  standby : st W Z;
  restoreReceive : st W bool
}.

(* hub_receive_release.h:16-28 restoreReleasedReceive *)
Definition restoreReleasedReceive {W : Type} `{ReleaseRadio W} (eventAckActive : bool)
    (arbiter : HubArbiter) : st W ReleaseReceiveResult :=
  if eventAckActive || bool_decide (owner_ arbiter = EVENT_ACK_TX) then ret EVENT_OWNED else
  pending <~ irqPending ;;
  if (pending : bool) then ret PENDING_IRQ else
  standbyResult <~ standby ;;
  if negb (standbyResult =? 0) then ret STANDBY_FAILED else
  pending <~ irqPending ;;
  if (pending : bool) then ret PENDING_IRQ else
  restored <~ restoreReceive ;;
  ret (if (restored : bool) then RESTORED else RECEIVE_FAILED).

(** ** The Node's arbiter *)

(* node_event_radio.h:9-17 NodeOwner *)
Inductive NodeOwner :=
  LISTENING | STANDBY_ACQUIRED | EVENT_TX | COMMAND_PRE_ACK | COMMAND_ACK_TX
| COMMAND_RESPONSE_TX | MAINTENANCE.

(* node_event_radio.h:19-26 NodeSafePoint *)
Record NodeSafePoint := mkSafePoint {
  runtimeReady : bool;
  listening : bool;
  isrPending : bool;
  synchronousWork : bool;
  maintenance : bool;
  rendering : bool
}.

(* node_event_radio.h:28-33 NodeAcquireResult *)
Inductive NodeAcquireResult :=
  DENIED | ACQUIRE_STANDBY | RECEIVED_PACKET_WON | GRANT_EVENT_TX.

#[global] Instance NodeOwner_eq_dec : EqDecision NodeOwner.
Proof. solve_decision. Defined.

#[global] Instance NodeAcquireResult_eq_dec : EqDecision NodeAcquireResult.
Proof. solve_decision. Defined.

(** The arbiter is its owner. *)
(* node_event_radio.h:37-47 NodeArbiter::requestEvent *)
Definition requestEvent (point : NodeSafePoint) (state : NodeEventDelivery.DeliveryState)
    (owner : NodeOwner) : NodeAcquireResult * NodeOwner :=
  if negb (bool_decide (owner = LISTENING)) || negb (runtimeReady point)
     || negb (listening point) || isrPending point || synchronousWork point
     || maintenance point || rendering point
     || negb (bool_decide (state = NodeEventDelivery.D_READY))
  then (DENIED, owner) else (ACQUIRE_STANDBY, STANDBY_ACQUIRED).

(* node_event_radio.h:49-58 NodeArbiter::finishStandby *)
Definition finishStandby (standbySucceeded isrPending : bool) (owner : NodeOwner)
    : NodeAcquireResult * NodeOwner :=
  if negb (bool_decide (owner = STANDBY_ACQUIRED)) then (DENIED, owner) else
  if negb standbySucceeded || isrPending
  then ((if isrPending then RECEIVED_PACKET_WON else DENIED), LISTENING)
  else (GRANT_EVENT_TX, EVENT_TX).

(* node_event_radio.h:60 NodeArbiter::restoreListening *)
Definition restoreListening (owner : NodeOwner) : NodeOwner := LISTENING.

(* node_event_radio.h:61 NodeArbiter::beginCommandPreAck *)
Definition beginCommandPreAck (owner : NodeOwner) : NodeOwner := COMMAND_PRE_ACK.

(* node_event_radio.h:62 NodeArbiter::beginCommandAckTx *)
Definition beginCommandAckTx (owner : NodeOwner) : NodeOwner := COMMAND_ACK_TX.

(* node_event_radio.h:63 NodeArbiter::beginCommandResponseTx *)
Definition beginCommandResponseTx (owner : NodeOwner) : NodeOwner := COMMAND_RESPONSE_TX.

(* node_event_radio.h:65 NodeArbiter::eventOwnsRadio *)
Definition eventOwnsRadio (owner : NodeOwner) : bool := bool_decide (owner = EVENT_TX).

(* node_event_radio.h:66 NodeArbiter::eventMayAcquire *)
Definition eventMayAcquire (owner : NodeOwner) : bool := bool_decide (owner = LISTENING).

(* node_event_radio.h:72 PRE_ACK_DELAY_MILLISECONDS *)
Definition PRE_ACK_DELAY_MILLISECONDS : Z := 100.

(* node_event_radio.h:86-88 = CommandPreAckTimer members *)
Record CommandPreAckTimer := mkTimer {
  timer_active : bool;
  timer_fired : bool;
  timer_origin : Z
}.

(* node_event_radio.h:76 CommandPreAckTimer::begin *)
Definition begin (now : Z) (t : CommandPreAckTimer) : CommandPreAckTimer := mkTimer true false now.

(* node_event_radio.h:77-82 CommandPreAckTimer::due *)
Definition due (now : Z) (t : CommandPreAckTimer) : bool * CommandPreAckTimer :=
  if negb (timer_active t) || timer_fired t
     || (u32 (now - timer_origin t) <? PRE_ACK_DELAY_MILLISECONDS) then (false, t)
  else (true, mkTimer (timer_active t) true (timer_origin t)).

(* node_event_radio.h:83 CommandPreAckTimer::clear *)
Definition clear (t : CommandPreAckTimer) : CommandPreAckTimer :=
  mkTimer false false (timer_origin t).

End EventRadioIntegration.
