(* ===== verification/RadioFacts.v ===== *)
(** The Hub's adapter reads packets as [EventProtocol] does, and answers an
    Event by what the ledger did with it. *)

From S2P Require Import Prelude Wire EventWire Copies Records Identity Diagnostics NodeStore Ledger LedgerFacts LedgerOps LedgerRecovery LedgerBoot LedgerLife Delivery Radio.

Module RadioFacts.

Import EventProtocol EventRadioIntegration.

Section Adapter.

Context {W : Type} `{HubEventLedger.Storage W}.

Implicit Types (x : HubEventLedger.Ledger * W) (e : Event).

(** What the adapter does with an Event it has read. *)
Definition admitAndAnswer (diagnosed : bool) e : st (HubEventLedger.Ledger * W) HubResult :=
  admitted <~ admission e ;;
  match admitted with
  | Some (status, mutated) => answer diagnosed e status mutated
  | None => ret discarded
  end.

Lemma valid_event_fields e :
  isValidEvent e = true →
  hasValidEndpoints (source e) (destination e) = true ∧ epoch e ≠ 0 ∧ id e ≠ 0
  ∧ bodyLength e ≤ MAX_BODY_SIZE ∧ isRegisteredFamily (family e) = true.
Proof. unfold isValidEvent. intros Hv. zbool. tauto. Qed.

Definition unadmitted (status : Z) : Prop :=
  status = AdmissionStatus.UNSUPPORTED_EVENT ∨ status = AdmissionStatus.MALFORMED_EVENT.

(** What the adapter makes of the bytes it is given. *)
Inductive reading bytes hub node diagnosed x : Prop :=
| reading_event e :
    decodeEvent bytes zeroEvent = (true, e) → source e = node → destination e = hub →
    process bytes hub node diagnosed x = admitAndAnswer diagnosed e x →
    reading bytes hub node diagnosed x
| reading_other e :
    decodeEvent bytes zeroEvent = (true, e) → source e ≠ node ∨ destination e ≠ hub →
    process bytes hub node diagnosed x = (discarded, x) → reading bytes hub node diagnosed x
| reading_nothing :
    (decodeEvent bytes zeroEvent).1 = false →
    process bytes hub node diagnosed x = (discarded, x) → reading bytes hub node diagnosed x
| reading_refused p status :
    (decodeEvent bytes zeroEvent).1 = false → Protocol.decode bytes Protocol.zeroPacket = (true, p) →
    unadmitted status →
    process bytes hub node diagnosed x = answer diagnosed (packetEvent p) status false x →
    reading bytes hub node diagnosed x.

Lemma process_reading bytes hub node diagnosed x : reading bytes hub node diagnosed x.
Proof.
  destruct (Protocol.decode bytes Protocol.zeroPacket) as [ok p] eqn:Hd.
  destruct (decodeEvent bytes zeroEvent) as [valid e] eqn:He.
  pose proof He as Hev. unfold decodeEvent in He. rewrite Hd in He.
  assert (Hp : process bytes hub node diagnosed x
    = (if negb ok || negb (addressed hub node p) then ret discarded else
       if negb (correlatable p) then ret discarded else admitAndAnswer diagnosed (packetEvent p)) x).
  { unfold process. by rewrite Hd. }
  assert (Hno : valid = false → process bytes hub node diagnosed x = (discarded, x) →
    reading bytes hub node diagnosed x) by (intros ->; apply reading_nothing; by rewrite Hev).
  destruct ok; cbn [negb orb] in *; [|by injection He as <- _; apply Hno].
  unfold addressed in Hp.
  destruct (Protocol.type p =? Protocol.PacketType.EVENT); cbn [negb orb andb] in *;
    [|by injection He as <- _; apply Hno].
  destruct (Z.ltb_spec (Protocol.payloadLength p) COMMON_PAYLOAD_SIZE) as [Hlt|Hge].
  { rewrite (proj2 (Z.leb_gt _ _) Hlt), andb_false_r in Hp. by injection He as <- _; apply Hno. }
  rewrite (proj2 (Z.leb_le _ _) Hge), andb_true_r in Hp.
  change (rec_set body _ _) with (packetEvent p) in He. unfold correlatable in Hp.
  destruct (Z.ltb_spec MAX_BODY_SIZE (rd (Protocol.payload p) 13)) as [Hbig|Hn]; cbn [orb] in He.
  { rewrite (proj2 (Z.leb_gt _ _) Hbig), andb_false_r in Hp. injection He as <- _.
    apply Hno; [done|]. rewrite Hp. by destruct (negb _). }
  rewrite (proj2 (Z.leb_le _ _) Hn), andb_true_r in Hp.
  destruct (_ =? COMMON_PAYLOAD_SIZE + _); cbn [negb andb] in He, Hp.
  2:{ rewrite andb_false_r in Hp. injection He as <- _. apply Hno; [done|]. rewrite Hp. by destruct (negb _). }
  rewrite andb_true_r in Hp. destruct (isValidEvent (packetEvent p)) eqn:Hv; cbn [negb] in He.
  - injection He as <- <-. destruct (valid_event_fields _ Hv) as (He & Hep & Hid & _ & Hf).
    cbn [packetEvent epoch id family source destination] in He, Hep, Hid, Hf.
    unfold hasValidEndpoints in He. apply andb_true_iff in He as [He _].
    apply andb_true_iff in He as [E1 E2]. rewrite E1, E2, !andb_true_r in Hp.
    rewrite (proj2 (Z.eqb_neq _ _) Hep), (proj2 (Z.eqb_neq _ _) Hid), registered_correlatable in Hp by done.
    destruct (Z.eqb_spec (Protocol.source p) node) as [Hs|Hs]; cbn [negb andb] in Hp;
      [|by eapply reading_other; [exact Hev|left|]].
    destruct (Z.eqb_spec (Protocol.destination p) hub) as [Hds|Hds]; cbn [negb andb] in Hp;
      [|by eapply reading_other; [exact Hev|right|]].
    by eapply reading_event.
  - injection He as <- _. destruct (negb _); [by apply Hno|]. destruct (negb _); [by apply Hno|].
    unfold admitAndAnswer, admission in Hp. rewrite Hv in Hp.
    destruct (isRegisteredFamily _); cbn [negb] in Hp;
      (eapply reading_refused; [by rewrite Hev|exact Hd| |exact Hp]); [by right|by left].
Qed.

(** The answers that involve no admission. *)
Definition refusal (r : HubResult) : Prop := r = discarded ∨ unadmitted (hub_status r).

Lemma answer_unadmitted diagnosed e status x :
  unadmitted status → ∃ r, answer diagnosed e status false x = (r, x) ∧ refusal r.
Proof.
  intros Hst. unfold answer, refusal.
  destruct (encodeAdmissionResponse _ _) as [[[] [bytes|]] length]; try (by eexists; split; [|left]).
  assert (Hc : (status =? AdmissionStatus.CAPACITY) = false) by by destruct Hst as [-> | ->].
  exists (mkHubResult START_EVENT_ACK false status bytes length). rewrite Hc.
  split; [reflexivity|by right].
Qed.

(** C19. The adapter decodes as [EventProtocol::decodeEvent] does, although it
    reads the packet in steps of its own, to answer what cannot be admitted.
    Bytes that decode to an Event from this Node to this Hub are admitted and
    answered as that Event; any others leave the ledger and its flash as they
    are, and are discarded or answered as unsupported or malformed. *)
Theorem process_decodes bytes hub node diagnosed x :
  match decodeEvent bytes zeroEvent with
  | (true, e) =>
      if (source e =? node) && (destination e =? hub)
      then process bytes hub node diagnosed x = admitAndAnswer diagnosed e x
      else process bytes hub node diagnosed x = (discarded, x)
  | (false, _) => ∃ r, process bytes hub node diagnosed x = (r, x) ∧ refusal r
  end.
Proof.
  destruct (process_reading bytes hub node diagnosed x) as [e Hd Hs Ht Hp|e Hd Hne Hp|Hd Hp|p st Hd _ Hst Hp].
  - by rewrite Hd, Hs, Ht, !Z.eqb_refl.
  - rewrite Hd. destruct (Z.eqb_spec (source e) node), (Z.eqb_spec (destination e) hub); by destruct Hne.
  - destruct (decodeEvent bytes zeroEvent) as [[] e]; [done|]. eexists. split; [exact Hp|by left].
  - destruct (decodeEvent bytes zeroEvent) as [[] e]; [done|]. rewrite Hp. by apply answer_unadmitted.
Qed.

(** ** The bytes of an answer *)

(** What the radio sends for a result. *)
Definition transmission (r : HubResult) : list (list Z) :=
  match hub_action r with
  | START_EVENT_ACK => [take (Z.to_nat (hub_length r)) (hub_bytes r)]
  | _ => []
  end.

Lemma transmission_discarded : transmission discarded = [].
Proof. reflexivity. Qed.

(** An answer is discarded, or its bytes decode to the response made for the
    Event. *)
Lemma answer_bytes diagnosed e status mutated x :
  response_wf (makeAdmissionResponse e status) →
  ∃ r x', answer diagnosed e status mutated x = (r, x')
    ∧ (x' = x ∨ ∃ amount, (HubEventLedger.note RuntimeState.HUB_CAPACITY_REJECTION amount) x = (tt, x'))
    ∧ ∀ b, b ∈ transmission r →
        decodeAdmissionResponse (Some b) zeroResponse = (true, makeAdmissionResponse e status).
Proof.
  intros Hwf. unfold answer. set (resp := makeAdmissionResponse e status) in *.
  destruct (isValidAdmissionResponse resp) eqn:Hv.
  2:{ unfold encodeAdmissionResponse. rewrite Hv. cbn [negb]. do 2 eexists. split; [reflexivity|].
      split; [by left|]. intros b Hb. by apply elem_of_nil in Hb. }
  assert (Hlen : (15 ≤ length (zeros (Z.to_nat Protocol.MAX_PACKET_SIZE)))%nat) by (vm_compute; lia).
  rewrite encodeAdmissionResponse_spec by done. set (rest := drop 15 _).
  pose proof (responsePacket_canonical resp Hwf) as (Hp & _ & Hm & _).
  assert (H15 : length (Protocol.wire_bytes (responsePacket resp)) = 15%nat)
    by by rewrite Protocol.wire_bytes_length.
  set (r := mkHubResult START_EVENT_ACK mutated status (Protocol.wire_bytes (responsePacket resp) ++ rest) 15).
  assert (Hb : ∀ b, b ∈ transmission r →
    decodeAdmissionResponse (Some b) zeroResponse = (true, resp)).
  { intros b Hb. unfold transmission, r in Hb. cbn [hub_action hub_length hub_bytes] in Hb.
    change (Z.to_nat 15) with 15%nat in Hb. apply list_elem_of_singleton in Hb as ->.
    rewrite take_app_length' by done. by apply decode_responsePacket. }
  destruct ((status =? AdmissionStatus.CAPACITY) && diagnosed).
  - destruct (HubEventLedger.note RuntimeState.HUB_CAPACITY_REJECTION 1 x) as [[] x'] eqn:E.
    exists r, x'. split; [unfold bind; by rewrite E|]. split; [right; by exists 1|exact Hb].
  - exists r, x. split; [reflexivity|]. split; [by left|exact Hb].
Qed.

End Adapter.

End RadioFacts.
