(* ===== verification/EndToEnd.v ===== *)
(** The Node and the Hub together: an event the Node lets go of because it was
    acknowledged is in the Hub's ledger, or a host has consumed it. *)

From S2P Require Import Prelude Wire EventWire Copies Records Identity Diagnostics NodeStore NodeQueue NodeFacts NodeOps NodeRecovery Ledger LedgerFacts LedgerOps LedgerRecovery LedgerBoot LedgerLife Delivery DeliveryFacts DeliveryOps DeliveryCalls DeliveryLife Radio RadioFacts.

Module EndToEnd.

Import EventProtocol EventRadioIntegration RadioFacts.
Import EventRecords (HubRecord, NodeRecord, hr_state).
Import HubEventLedger (Ledger, record_at, admit_event, isOwned, ledgerHealthy_).
Import LedgerFacts LedgerOps LedgerRecovery LedgerLife.

(** ** A life of the Hub

    It hears bytes - anything a radio may receive - a host consumes identities,
    and it restarts. *)
Inductive HubStep :=
| Hears (bytes : list Z)
| HostConsumes (identity : Identity)
| Restarts.

Definition hub_step_wf (step : HubStep) : Prop :=
  match step with Hears bytes => is_byte_list bytes | _ => True end.

(** The identities a host has consumed. *)
Definition consumes (step : HubStep) : list Identity :=
  match step with HostConsumes identity => [identity] | _ => [] end.

(** An identity is in an active record, or was consumed. *)
Definition accounted (R : nat → HubRecord) (log : list Identity) (x : Identity) : Prop :=
  (∃ i, (i < 8)%nat ∧ hr_state (R i) = EventRecords.HubState.ACTIVE ∧ hub_identity (R i) = x) ∨ x ∈ log.

(** Every tombstone was consumed. *)
Definition logged (R : nat → HubRecord) (log : list Identity) : Prop :=
  ∀ i, (i < 8)%nat → hr_state (R i) = EventRecords.HubState.CONSUMED → hub_identity (R i) ∈ log.

(** An ADMITTED answer names an accounted event. *)
Definition honoured (R : nat → HubRecord) (log : list Identity) (bytes : list Z) : Prop :=
  ∀ response, decodeAdmissionResponse (Some bytes) zeroResponse = (true, response) →
    status response = AdmissionStatus.ADMITTED →
    accounted R log (mkIdentity (responseDestination response) (responseEpoch response)
      (responseId response)).

Section Hub.

Context {W : Type} `{DurableCells W}.

Implicit Types (s : Ledger) (w : W) (R : nat → HubRecord) (x : Ledger * W).

Context (hub node : Z) (diagnosed : bool).

(** A step, and what it sends. *)
Definition run_hub_step (step : HubStep) : st (Ledger * W) (list (list Z)) :=
  match step with
  | Hears bytes => r <~ process (Some bytes) hub node diagnosed ;; ret (transmission r)
  | HostConsumes identity => HubEventLedger.consume identity ;;; ret []
  | Restarts => HubEventLedger.recover hub node ;;; ret []
  end.

Fixpoint run_hub_steps (steps : list HubStep) : st (Ledger * W) (list (list Z)) :=
  match steps with
  | [] => ret []
  | step :: steps' =>
      sent <~ run_hub_step step ;;
      more <~ run_hub_steps steps' ;;
      ret (sent ++ more)
  end.

(** The Hub serves or holds records in which every tombstone is logged. *)
Definition keeps R log x : Prop := hub_serving hub node R x ∧ logged R log.

(** What a step may do: accounted events stay so, and what is sent is
    honoured. *)
Definition progress R log R' log' x' (sent : list (list Z)) : Prop :=
  keeps R' log' x' ∧ (∀ y, accounted R log y → accounted R' log' y)
  ∧ ∀ b, b ∈ sent → honoured R' log' b.

Lemma accounted_more R log more y : accounted R log y → accounted R (log ++ more) y.
Proof. intros [Ha|Hy]; [by left|right]. apply elem_of_app. by left. Qed.

Lemma progress_same R log x' sent :
  hub_serving hub node R x' → logged R log → (∀ b, b ∈ sent → honoured R log b) →
  progress R log R log x' sent.
Proof. intros Hx Hl Hb. by split; [split|]. Qed.

(** The record of one slot is replaced: an active record only by its tombstone. *)
Lemma replaced_accounted R log i r y :
  hr_state (R i) ≠ EventRecords.HubState.ACTIVE → accounted R log y → accounted (hub_replaced i r R) log y.
Proof.
  intros Hi [(j & Hj & Ha & Hid)|Hy]; [left|by right]. exists j. unfold hub_replaced.
  case_decide; [congruence|done].
Qed.

Lemma replaced_logged R log i r :
  logged R log → hr_state r ≠ EventRecords.HubState.CONSUMED → logged (hub_replaced i r R) log.
Proof. intros Hl Hr j Hj. unfold hub_replaced. case_decide; [done|by apply Hl]. Qed.

Lemma accounted_ext R R' log y :
  (∀ i, (i < 8)%nat → R' i = R i) → accounted R log y → accounted R' log y.
Proof.
  intros HR [(i & Hi & Ha & Hid)|Hy]; [left|by right]. exists i. by rewrite HR.
Qed.

Lemma logged_ext R R' log : (∀ i, (i < 8)%nat → R' i = R i) → logged R log → logged R' log.
Proof. intros HR Hl i Hi. rewrite HR by done. by apply Hl. Qed.

(** A sound ledger, in terms of its own records. *)
Lemma keeps_sound R log s w :
  keeps R log (s, w) → ledgerHealthy_ s = true →
  hub_sound hub node s w ∧ logged (record_at s) log
  ∧ ∀ y, accounted R log y → accounted (record_at s) log y.
Proof.
  intros [[(Hs & HR)|[Hh _]] Hl] Hok; cbn [fst snd] in *; [|congruence]. split; [done|].
  split; [by eapply logged_ext|]. intros y. by apply accounted_ext.
Qed.

(** The record of a slot that may be replaced is replaced, or the write failed. *)
Lemma replaced_step s w log i r s' w' :
  hub_sound hub node s w → logged (record_at s) log →
  hr_state (record_at s i) ≠ EventRecords.HubState.ACTIVE → hr_state r ≠ EventRecords.HubState.CONSUMED →
  hub_mutated hub node s i r s' w' ∨ hub_broken s i r s' w' →
  ∃ R', keeps R' log (s', w') ∧ (∀ y, accounted (record_at s) log y → accounted R' log y)
    ∧ (hub_mutated hub node s i r s' w' → R' = record_at s').
Proof.
  intros Hs Hl Hi Hr [[Hs' Hrec]|[Hh [Hc|Hc]]].
  - exists (record_at s'). split; [split|split; [|done]].
    + by apply hub_serving_sound.
    + eapply logged_ext; [intros j _; apply Hrec|by apply replaced_logged].
    + intros y Hy. eapply accounted_ext; [intros j _; apply Hrec|by apply replaced_accounted].
  - exists (record_at s). split; [split; [by right|done]|]. split; [done|].
    intros [[_ Hx] _]. congruence.
  - exists (hub_replaced i r (record_at s)). split; [split; [by right|by apply replaced_logged]|].
    split; [intros y; by apply replaced_accounted|]. intros [[_ Hx] _]. congruence.
Qed.

Lemma takes_idle s e i : takes s e i → hr_state (record_at s i) ≠ EventRecords.HubState.ACTIVE.
Proof. intros [_ [->|[-> _]]]; discriminate. Qed.

(** An admission keeps what is accounted, and accounts for what it admits. *)
Lemma admit_accounted R log e s w :
  keeps R log (s, w) → event_wf e →
  ∃ res x' R', admit_event e (s, w) = (res, x') ∧ keeps R' log x'
    ∧ (∀ y, accounted R log y → accounted R' log y)
    ∧ (wireStatus (HubEventLedger.admission_status res) = Some AdmissionStatus.ADMITTED →
       accounted R' log (event_identity e)).
Proof.
  intros Hk Hwf. destruct (ledgerHealthy_ s) eqn:Hh.
  2:{ rewrite admit_degraded by done. do 2 eexists. exists R. by split. }
  destruct (keeps_sound R log s w Hk Hh) as (Hs & Hl & Hacc).
  destruct (admit_cases hub node s w e Hs Hwf) as (res & s' & w' & Ho & E).
  rewrite E. exists res, (s', w').
  assert (Hsame : ∀ s1 w1, hub_sound hub node s1 w1 → (∀ j, record_at s1 j = record_at s j) →
    keeps (record_at s) log (s1, w1)).
  { intros s1 w1 Hs1 Hr. split; [left; by split|done]. }
  assert (Hnot : ∀ st, wireStatus st ≠ Some AdmissionStatus.ADMITTED →
    (wireStatus st = Some AdmissionStatus.ADMITTED → accounted (record_at s) log (event_identity e))) by done.
  destruct Ho as [st Hv Hst|i s1 Hv Hi Hown Hid Hs1 Hr|Hv Hfull|s1 w1 Hv Hun Hs1 _ Hr
    |i o s1 w1 Hv Hun Ht Hb|i o s1 w1 Hv Ht Hnew Hm].
  - exists (record_at s). split; [done|]. split; [by apply Hsame|]. split; [done|].
    apply Hnot. cbn. unfold HubEventLedger.validateAdmission in Hv. by repeat case_match; subst.
  - exists (record_at s). split; [done|]. split; [by apply Hsame|]. split; [done|].
    destruct (HubEventLedger.sameCanonical _ _); [|done]. intros _.
    apply sameIdentity_spec in Hid. unfold isOwned in Hown. apply orb_true_iff in Hown.
    destruct Hown as [Ha%Z.eqb_eq|Hc%Z.eqb_eq].
    + left. by exists i.
    + right. unfold event_identity. rewrite <- Hid. by apply Hl.
  - exists (record_at s). split; [done|]. split; [by apply Hsame|]. by split.
  - exists (record_at s). split; [done|]. split; [by apply Hsame|]. by split.
  - destruct (replaced_step s w log i (HubEventLedger.admittedRecord (record_at s i) e o) s1 w1)
      as (R' & Hk' & Hacc' & _); [done|done|by eapply takes_idle|done|by right|].
    exists R'. split; [done|]. split; [done|]. split; [auto|done].
  - destruct (replaced_step s w log i (HubEventLedger.admittedRecord (record_at s i) e o) s1 w1)
      as (R' & Hk' & Hacc' & HR'); [done|done|by eapply takes_idle|done|by left|].
    exists R'. split; [done|]. split; [done|]. split; [auto|]. intros _. left. exists i.
    split; [apply Ht|]. rewrite (HR' Hm), (proj2 Hm). unfold hub_replaced. by rewrite decide_True.
Qed.

(** What the adapter is given an Event for ends accounted for, and answered. *)
Lemma admitAndAnswer_progress R log e x :
  keeps R log x → event_wf e → isValidEvent e = true →
  ∃ r x' R', admitAndAnswer diagnosed e x = (r, x') ∧ progress R log R' log x' (transmission r).
Proof.
  intros Hk Hwf Hv. destruct x as [s w].
  destruct (admit_accounted R log e s w Hk Hwf) as (res & x1 & R1 & E & Hk1 & Hacc & Hadm).
  unfold admitAndAnswer. destruct (valid_event_fields e Hv) as (_ & _ & _ & _ & Hf).
  assert (Ea : admission e (s, w) = (st ← wireStatus (HubEventLedger.admission_status res);
      Some (st, bool_decide (HubEventLedger.admission_status res = HubEventLedger.DURABLE_NEW_ADMISSION)
        && negb (HubEventLedger.activeCount x1.1 =? HubEventLedger.activeCount s)%nat), x1)).
  { unfold admission. rewrite Hf, Hv. cbn [negb]. rewrite bind_this.
    rewrite (bind_run _ _ _ _ _ E). by destruct x1. }
  rewrite (bind_run _ _ _ _ _ Ea).
  destruct (wireStatus (HubEventLedger.admission_status res)) as [st|] eqn:Hst; cbn [mbind option_bind].
  2:{ exists discarded, x1, R1. split; [done|]. split; [done|]. split; [done|].
      rewrite transmission_discarded. intros b Hb. by apply elem_of_nil in Hb. }
  assert (Hst8 : is_u8 st).
  { destruct (HubEventLedger.admission_status res); try discriminate Hst; injection Hst as <-; concrete. }
  assert (Hrwf : response_wf (makeAdmissionResponse e st)).
  { destruct Hwf as (?&?&?&?&?&?&_). by split_and!. }
  destruct (answer_bytes diagnosed e st
    (bool_decide (HubEventLedger.admission_status res = HubEventLedger.DURABLE_NEW_ADMISSION)
     && negb (HubEventLedger.activeCount x1.1 =? HubEventLedger.activeCount s)%nat) x1 Hrwf) as (r & x' & Er & Hx' & Hbytes).
  exists r, x', R1. split; [exact Er|]. split; [|split; [done|]].
  - destruct Hk1 as [Hs1 Hl1]. split; [|done]. destruct Hx' as [->|(amount & En)]; [done|].
    destruct x1 as [s1 w1]. destruct (hub_quiet_note RuntimeState.HUB_CAPACITY_REJECTION amount s1 w1) as [d Ed].
    rewrite Ed in En. injection En as <-.
    destruct Hs1 as [[Hs1 HR]|[Hh Hc]]; [left|by right]. split; [by apply hub_sound_diagnostics|done].
  - intros b Hb response Hdec Hadmd. rewrite (Hbytes b Hb) in Hdec. injection Hdec as <-.
    apply Hadm. cbn in Hadmd. by subst st.
Qed.

(** A packet's fields are bytes and words. *)
Lemma packet_response_wf bytes p status :
  is_byte_list bytes → Protocol.decode (Some bytes) Protocol.zeroPacket = (true, p) → is_u8 status →
  response_wf (makeAdmissionResponse (packetEvent p) status).
Proof.
  intros Hb Hd Hs. pose proof (Protocol.decode_is_canonical bytes p Hb Hd) as ((_ & ? & ? & ? & ? & _ & _ & Hpb) & _).
  unfold response_wf, makeAdmissionResponse, packetEvent. cbn.
  split_and!; try done; unfold readUint32Le; by apply read32_range.
Qed.

Lemma hears_progress R log bytes x :
  keeps R log x → is_byte_list bytes →
  ∃ sent x' R', run_hub_step (Hears bytes) x = (sent, x') ∧ progress R log R' log x' sent.
Proof.
  intros Hk Hb. unfold run_hub_step.
  assert (Hdis : ∀ m : st (Ledger * W) HubResult, m x = (discarded, x) →
    ∃ sent x' R', (r <~ m ;; ret (transmission r)) x = (sent, x') ∧ progress R log R' log x' sent).
  { intros m E. rewrite (bind_run _ _ _ _ _ E). do 2 eexists. exists R. split; [reflexivity|].
    destruct Hk as [Hs Hl]. apply progress_same; [done..|]. intros b Hi. by apply elem_of_nil in Hi. }
  destruct (process_reading (Some bytes) hub node diagnosed x)
    as [e Hd Hsrc Hdst Hp|e Hd Hne Hp|Hd Hp|p status Hd Hpk Hst Hp]; try by apply Hdis.
  - destruct (eventPacket_of_decoded bytes zeroEvent e Hb Hd) as (Hwf & Hv & _).
    destruct (admitAndAnswer_progress R log e x Hk Hwf Hv) as (r & x' & R' & E & Hpr).
    rewrite <- Hp in E. rewrite (bind_run _ _ _ _ _ E). by do 3 eexists.
  - assert (Hwf : response_wf (makeAdmissionResponse (packetEvent p) status)).
    { eapply packet_response_wf; [done..|]. by destruct Hst as [-> | ->]. }
    destruct (answer_bytes diagnosed (packetEvent p) status false x Hwf) as (r & x' & Er & _ & Hbytes).
    destruct (answer_unadmitted diagnosed (packetEvent p) status x Hst) as (r' & Er' & _).
    rewrite Er in Er'. injection Er' as <- ->. rewrite <- Hp in Er. rewrite (bind_run _ _ _ _ _ Er).
    do 2 eexists. exists R. split; [reflexivity|]. destruct Hk as [Hs Hl].
    apply progress_same; [done..|]. intros b Hi response Hdec Hadm.
    rewrite (Hbytes b Hi) in Hdec. injection Hdec as <-. cbn in Hadm. by destruct Hst as [-> | ->].
Qed.

Lemma honoured_more R R' log more b :
  (∀ y, accounted R log y → accounted R' (log ++ more) y) → honoured R log b → honoured R' (log ++ more) b.
Proof. intros Hacc Hh response Hd Ha. by apply Hacc, Hh. Qed.

Lemma consumes_progress R log identity x :
  keeps R log x →
  ∃ sent x' R', run_hub_step (HostConsumes identity) x = (sent, x')
    ∧ progress R log R' (log ++ [identity]) x' sent.
Proof.
  intros [Hs Hl]. destruct x as [s w]. cbn [run_hub_step].
  assert (Hempty : ∀ R' x', hub_serving hub node R' x' → logged R' (log ++ [identity]) →
    (∀ y, accounted R log y → accounted R' (log ++ [identity]) y) →
    progress R log R' (log ++ [identity]) x' []).
  { intros R' x' Hs' Hl' Hacc. split; [done|]. split; [done|]. intros b Hb. by apply elem_of_nil in Hb. }
  assert (Hlm : logged R (log ++ [identity])).
  { intros i Hi Hc. apply elem_of_app. left. by apply Hl. }
  assert (Hpair : ∀ s' w' a R', HubEventLedger.consume identity (s, w) = (a, (s', w')) →
    progress R log R' (log ++ [identity]) (s', w') [] →
    ∃ sent x' R', (HubEventLedger.consume identity ;;; ret []) (s, w) = (sent, x')
      ∧ progress R log R' (log ++ [identity]) x' sent).
  { intros s' w' a R' E Hp. rewrite (bind_run _ _ _ _ _ E). by exists [], (s', w'), R'. }
  destruct Hs as [(Hs & HR)|[Hh Hc]]; cbn [fst snd] in *.
  2:{ eapply Hpair; [by apply consume_degraded|]. apply Hempty; [by right|exact Hlm|].
      intros y. apply accounted_more. }
  destruct (consume_cases hub node s w identity Hs) as (res & s' & w' & Ho & E).
  assert (Hput : ∀ i, EventRecords.hr_state (record_at s i) = EventRecords.HubState.ACTIVE →
    HubEventLedger.hasIdentity identity (record_at s i) = true →
    logged (hub_replaced i (consumedRecord (record_at s i)) (record_at s)) (log ++ [identity])
    ∧ ∀ y, accounted R log y →
        accounted (hub_replaced i (consumedRecord (record_at s i)) (record_at s)) (log ++ [identity]) y).
  { intros i Ha Hid%hasIdentity_spec. split.
    - intros j Hj. unfold hub_replaced. case_decide as Ej.
      + intros _. subst identity. apply elem_of_app. right. by apply list_elem_of_singleton.
      + intros Hcj. rewrite HR in Hcj |- * by done. by apply Hlm.
    - intros y [(j & Hj & Haj & Hidj)|Hy]; [|right; apply elem_of_app; by left].
      destruct (decide (j = i)) as [->|Hne].
      + right. apply elem_of_app. right. rewrite <- HR in Hidj by done.
        rewrite <- Hidj, <- Hid. by apply list_elem_of_singleton.
      + left. exists j. unfold hub_replaced. rewrite decide_False by done. by rewrite HR. }
  assert (Hsame : progress R log R (log ++ [identity]) (s, w) []).
  { apply Hempty; [by left|done|]. intros y. apply accounted_more. }
  destruct Ho as [?|i ? ? ?|i s1 w1 Hi Hid Ha [Hs1 Hr]|i s1 w1 Hi Hid Ha [Hh [Hc|Hc]]]; try (eapply Hpair; [exact E|exact Hsame]);
    (eapply Hpair; [exact E|]).
  - destruct (Hput i Ha Hid) as [Hl' Hacc]. apply Hempty; [left; split; [done|by intros j _; apply Hr]|done|done].
  - apply Hempty; [right; split; [done|by eapply hub_custody_below]|done|].
    intros y. apply accounted_more.
  - destruct (Hput i Ha Hid) as [Hl' Hacc]. apply Hempty; [by right|done|done].
Qed.

Lemma step_progress R log step x :
  keeps R log x → hub_step_wf step →
  ∃ sent x' R', run_hub_step step x = (sent, x')
    ∧ progress R log R' (log ++ consumes step) x' sent.
Proof.
  intros Hk Hwf. destruct step as [bytes|identity|]; cbn [consumes]; rewrite ?app_nil_r.
  - by apply hears_progress.
  - by apply consumes_progress.
  - destruct Hk as [Hs Hl]. pose proof (restart_keeps hub node R x Hs) as Hr. cbn [run_hub_step].
    destruct (HubEventLedger.recover hub node x) as [st x'] eqn:E. rewrite (bind_run _ _ _ _ _ E).
    exists [], x', R. split; [done|]. apply progress_same; [done..|].
    intros b Hb. by apply elem_of_nil in Hb.
Qed.

Definition consumed (steps : list HubStep) : list Identity := concat (map consumes steps).

Lemma steps_progress steps : ∀ R log x,
  keeps R log x → Forall hub_step_wf steps →
  ∃ sent x' R', run_hub_steps steps x = (sent, x')
    ∧ progress R log R' (log ++ consumed steps) x' sent.
Proof.
  induction steps as [|step steps IH]; intros R log x Hk Hwf.
  { exists [], x, R. unfold consumed. cbn. rewrite app_nil_r. split; [done|]. destruct Hk.
    apply progress_same; [done..|]. intros b Hb. by apply elem_of_nil in Hb. }
  apply Forall_cons in Hwf as [Hw Hwf].
  destruct (step_progress R log step x Hk Hw) as (sent & x1 & R1 & E & Hk1 & Hacc1 & Hsent).
  destruct (IH R1 (log ++ consumes step) x1 Hk1 Hwf) as (more & x2 & R2 & E2 & Hk2 & Hacc2 & Hmore).
  exists (sent ++ more), x2, R2. cbn [run_hub_steps].
  rewrite (bind_run _ _ _ _ _ E), (bind_run _ _ _ _ _ E2). split; [done|].
  assert (El : log ++ consumed (step :: steps) = (log ++ consumes step) ++ consumed steps).
  { unfold consumed. cbn. by rewrite app_assoc. }
  rewrite El. split; [done|]. split; [by auto|]. intros b [Hb|Hb]%elem_of_app; [|by apply Hmore].
  eapply honoured_more; [exact Hacc2|by apply Hsent].
Qed.

End Hub.


(** ** One exchange: the board of [DeliveryLife] and the shelf of [LedgerLife] *)

Import NodeRecovery DeliveryLife.

Definition sentByNode : list Z :=
  let r := (DeliveryLife.run_call (DeliveryLife.GrantTransmit 1100)
              (DeliveryLife.after DeliveryLife.to_ready)).1 in
  take (Z.to_nat (NodeEventDelivery.action_length (NodeEventDelivery.result_action r)))
    (NodeEventDelivery.action_bytes (NodeEventDelivery.result_action r)).

Definition heardOnce : list HubStep := [Hears sentByNode].

Definition answered : list (list Z) * (Ledger * Shelf) := run_hub_steps 1 17 false heardOnce started.

Definition firstAnswer : list Z := default [] (head answered.1).

Lemma started_keeps : keeps 1 17 (record_at started.1) [] started.
Proof.
  split.
  - exact (hub_serving_sound 1 17 started.1 started.2 started_sound).
  - intros i Hi Hc. exfalso. revert Hc.
    do 8 (destruct i as [|i]; [vm_compute; discriminate|]). lia.
Qed.

Lemma heardOnce_wf : Forall hub_step_wf heardOnce.
Proof.
  apply Forall_singleton. unfold hub_step_wf, is_byte_list.
  apply (bool_decide_unpack _). vm_compute. exact I.
Qed.

Lemma firstAnswer_sent : firstAnswer ∈ answered.1.
Proof. vm_compute. left. Qed.

Lemma answered_run : run_hub_steps 1 17 false heardOnce started = (answered.1, answered.2).
Proof. exact (surjective_pairing answered). Qed.


End EndToEnd.
