(* ===== verification/CapabilityFacts.v ===== *)
(** The capability dispatcher as a guard in front of the device: exactly the
    permitted operations reach the handler, and whatever the handler returns,
    the caller gets a result of the promised type. *)

From S2P Require Import Prelude Capabilities.

Module CapabilityFacts.

Import DeviceCapabilities.

(** The descriptors a registry shows. *)
Definition entries (r : CapabilityRegistryView) : list CapabilityDescriptor :=
  descriptor_at r <$> seq 0 (Z.to_nat (count r)).

(** The number a value of type [t] denotes. *)
Definition denotes (t bits : Z) : Z :=
  if one_of t [ValueType.SIGNED_32; ValueType.FIXED_Q16_16] then sint32 bits else bits.

Definition descriptor_typed (d : CapabilityDescriptor) : Prop :=
  is_u8 (operationFlags d) ∧ is_u32 (minimumBits d) ∧ is_u32 (maximumBits d).

(** What the dispatcher is to let through: a known capability that has the
    operation, asked with a value it can take, by a local caller, while no
    interlock forbids it. *)
Record permitted (r : CapabilityRegistryView) (id operation : Z) (input : CapabilityValue)
    (caller : CallerContext) (interlock : Z) (d : CapabilityDescriptor) : Prop := {
  permitted_registry : isValidCapabilityRegistry r = true;
  permitted_entry : d ∈ entries r;
  permitted_id : cap_id d = id;
  permitted_operation :
    operation = Operation.READ ∧ Z.testbit (operationFlags d) 1 = true
    ∨ operation = Operation.SET ∧ Z.testbit (operationFlags d) 2 = true;
  permitted_value : isValidCapabilityValue input = true;
  permitted_read : operation = Operation.READ → value_type input = ValueType.NONE;
  permitted_set : operation = Operation.SET →
    value_type input = valueType d
    ∧ denotes (valueType d) (minimumBits d) ≤ denotes (valueType d) (bits input)
      ≤ denotes (valueType d) (maximumBits d);
  permitted_caller : rd (caller_reserved caller) 0 = 0 ∧ rd (caller_reserved caller) 1 = 0
    ∧ rd (caller_reserved caller) 2 = 0;
  permitted_local : callerClass caller = CallerClass.FIRMWARE_LOCAL
    ∨ callerClass caller = CallerClass.UI_LOCAL ∨ callerClass caller = CallerClass.TEST
    ∨ callerClass caller = CallerClass.HOST_LOCAL;
  permitted_interlock : interlock = InterlockState.CLEAR
    ∨ interlock = InterlockState.ACTIVE
      ∧ (operation = Operation.READ ∨ safetyPolicyId d = NO_ADDITIONAL_SAFETY_POLICY_ID)
}.

(** ** The registry *)

Lemma idUnusedBelow_spec r id n i :
  idUnusedBelow r id n i = true ↔ ∀ k, (i ≤ k < i + n)%nat → cap_id (descriptor_at r k) ≠ id.
Proof.
  revert i. induction n as [|n IH]; intros i; simpl; [split; [lia|done]|].
  destruct (Z.eqb_spec (cap_id (descriptor_at r i)) id) as [E|E].
  - split; [done|]. intros Hk. destruct (Hk i); [lia|done].
  - rewrite IH. split; intros Hk k ?; [|apply Hk; lia].
    destruct (decide (k = i)) as [->|]; [done|]. apply Hk. lia.
Qed.

Lemma descriptorsValid_spec r n i :
  descriptorsValid r n i = true ↔
  ∀ k, (i ≤ k < i + n)%nat → isValidCapabilityDescriptor (descriptor_at r k) = true
    ∧ ∀ j, (j < k)%nat → cap_id (descriptor_at r j) ≠ cap_id (descriptor_at r k).
Proof.
  revert i. induction n as [|n IH]; intros i; simpl; [split; [lia|done]|].
  destruct (isValidCapabilityDescriptor (descriptor_at r i)) eqn:Hv; simpl.
  2:{ split; [done|]. intros Hk. destruct (Hk i) as [? _]; [lia|congruence]. }
  destruct (idUnusedBelow r _ i 0) eqn:Hu; simpl.
  - rewrite IH. split; intros Hk k ?; [|apply Hk; lia].
    destruct (decide (k = i)) as [->|]; [|apply Hk; lia].
    split; [done|]. intros j ?. apply (proj1 (idUnusedBelow_spec _ _ _ _) Hu). lia.
  - split; [done|]. intros Hk. destruct (Hk i) as [_ Hj]; [lia|].
    rewrite (proj2 (idUnusedBelow_spec r (cap_id (descriptor_at r i)) i 0)) in Hu; [done|].
    intros k ?. apply Hj. lia.
Qed.

Lemma registry_valid r :
  isValidCapabilityRegistry r = true →
  ∀ k, (k < Z.to_nat (count r))%nat → isValidCapabilityDescriptor (descriptor_at r k) = true
    ∧ ∀ j, (j < k)%nat → cap_id (descriptor_at r j) ≠ cap_id (descriptor_at r k).
Proof.
  unfold isValidCapabilityRegistry. destruct (_ <? _); [done|].
  destruct (Z.eqb_spec (count r) 0) as [E|E]; [rewrite E; intros _ k ?; lia|].
  case_bool_decide; [done|]. rewrite descriptorsValid_spec. intros Hk k ?. apply Hk. lia.
Qed.

Lemma elem_entries r d :
  d ∈ entries r ↔ ∃ k, (k < Z.to_nat (count r))%nat ∧ d = descriptor_at r k.
Proof.
  unfold entries. rewrite list_elem_of_fmap. split.
  - intros (k & -> & Hk). apply elem_of_seq in Hk. exists k. split; [lia|done].
  - intros (k & Hk & ->). exists k. split; [done|]. apply elem_of_seq. lia.
Qed.

Lemma entries_valid r d :
  isValidCapabilityRegistry r = true → d ∈ entries r → isValidCapabilityDescriptor d = true.
Proof. intros Hr (k & Hk & ->)%elem_entries. by apply (registry_valid r Hr k Hk). Qed.

(** Ids are unique. *)
Lemma entries_unique r d d' :
  isValidCapabilityRegistry r = true → d ∈ entries r → d' ∈ entries r → cap_id d = cap_id d' →
  d = d'.
Proof.
  intros Hr (k & Hk & ->)%elem_entries (k' & Hk' & ->)%elem_entries E.
  destruct (Nat.lt_trichotomy k k') as [Hlt|[->|Hlt]]; [|done|].
  - by destruct (proj2 (registry_valid r Hr k' Hk') k Hlt).
  - by destruct (proj2 (registry_valid r Hr k Hk) k' Hlt).
Qed.

Lemma searchCapability_spec r id n i out :
  (∃ k, (i ≤ k < i + n)%nat ∧ cap_id (descriptor_at r k) = id
    ∧ searchCapability r id n i out = (true, descriptor_at r k))
  ∨ (∀ k, (i ≤ k < i + n)%nat → cap_id (descriptor_at r k) ≠ id)
    ∧ searchCapability r id n i out = (false, out).
Proof.
  revert i. induction n as [|n IH]; intros i; simpl; [right; split; [lia|done]|].
  destruct (Z.eqb_spec (cap_id (descriptor_at r i)) id) as [E|E].
  - left. exists i. split; [lia|done].
  - destruct (IH (S i)) as [(k & ? & ? & ?)|[Hk ?]]; [left; exists k; split; [lia|done]|].
    right. split; [|done]. intros k ?. destruct (decide (k = i)) as [->|]; [done|]. apply Hk. lia.
Qed.

(** A search of a valid registry finds the entry with the id. *)
Lemma findCapability_spec r id out :
  isValidCapabilityRegistry r = true →
  (∃ d, d ∈ entries r ∧ cap_id d = id ∧ findCapability r id out = (true, d))
  ∨ (∀ d, d ∈ entries r → cap_id d ≠ id) ∧ findCapability r id out = (false, out).
Proof.
  intros Hr. unfold findCapability. rewrite Hr. bsimp. rewrite orb_false_r.
  destruct (Z.eqb_spec id INVALID_CAPABILITY_ID) as [->|Hid].
  - right. split; [|done]. intros d Hd E. apply (entries_valid _ _ Hr) in Hd.
    unfold isValidCapabilityDescriptor in Hd. rewrite E in Hd. done.
  - destruct (searchCapability_spec r id (Z.to_nat (count r)) 0 out) as [(k & ? & ? & ->)|[Hk ->]].
    + left. exists (descriptor_at r k). split; [|done]. apply elem_entries. exists k. split; [lia|done].
    + right. split; [|done]. intros d (k & ? & ->)%elem_entries. apply Hk. lia.
Qed.

(** ** Values *)

Lemma lxor_top b : is_u32 b → Z.lxor b 2147483648 = u32 (b + 2147483648).
Proof.
  intros Hb. apply Z.bits_inj'. intros i Hi. change 2147483648 with (2 ^ 31).
  assert (Hlow : ∀ x, is_u32 x → 32 ≤ i → Z.testbit x i = false).
  { intros x Hx ?. rewrite <- (wrap_small 32 x Hx). unfold wrap. by rewrite Z.mod_pow2_bits_high by lia. }
  destruct (Z.lt_ge_cases i 32) as [Hi32|Hi32].
  2:{ rewrite !Hlow; [done|auto with uint|lia|apply lxor_u32; [done|uint]|lia]. }
  rewrite Z.lxor_spec, Z.pow2_bits_eqb by lia.
  destruct (Z.ltb_spec b (2 ^ 31)) as [Hs|Hs].
  - rewrite wrap_small by (revert Hb; uint).
    assert (Ha : b + 2 ^ 31 = Z.lor b (Z.shiftl 1 31)).
    { rewrite lor_shiftl_add; [lia|lia|]. split; [apply Hb|done]. }
    rewrite Ha, Z.lor_spec, Z.shiftl_1_l, Z.pow2_bits_eqb by lia.
    destruct (Z.eqb_spec 31 i) as [<-|]; [|by rewrite orb_false_r, xorb_false_r].
    rewrite <- (wrap_small 31 b) by (split; [apply Hb|done]).
    unfold wrap. by rewrite Z.mod_pow2_bits_high by lia.
  - assert (E : u32 (b + 2 ^ 31) = b - 2 ^ 31) by (revert Hb Hs; uint).
    rewrite E. assert (Ha : b = Z.lor (b - 2 ^ 31) (Z.shiftl 1 31)).
    { rewrite lor_shiftl_add; [lia|lia|]. revert Hb Hs. uint_unfold. lia. }
    rewrite Ha at 1. rewrite Z.lor_spec, Z.shiftl_1_l, Z.pow2_bits_eqb by lia.
    destruct (Z.eqb_spec 31 i) as [<-|]; [|by rewrite orb_false_r, xorb_false_r].
    rewrite <- (wrap_small 31 (b - 2 ^ 31)) by (revert Hb Hs; uint_unfold; lia).
    unfold wrap. by rewrite Z.mod_pow2_bits_high by lia.
Qed.

(** The ordering key of a signed word orders as the signed number. *)
Lemma signedOrderingKey_le a b :
  is_u32 a → is_u32 b → signedOrderingKey a ≤ signedOrderingKey b ↔ sint32 a ≤ sint32 b.
Proof.
  intros Ha Hb. unfold signedOrderingKey. rewrite !lxor_top by done.
  revert Ha Hb. unfold sint32. destruct (Z.ltb_spec (u32 a) 2147483648), (Z.ltb_spec (u32 b) 2147483648); uint.
Qed.

Lemma valid_value_type v : isValidCapabilityValue v = true → isKnownValueType (value_type v) = true.
Proof. unfold isValidCapabilityValue. by destruct (isKnownValueType _); [|rewrite orb_true_r]. Qed.

(** A known type orders its values unsigned or signed. *)
Lemma known_type_ordering t :
  isKnownValueType t = true →
  one_of t [ValueType.SIGNED_32; ValueType.FIXED_Q16_16] = negb
    (one_of t [ValueType.NONE; ValueType.BOOLEAN; ValueType.UNSIGNED_32; ValueType.NORMALIZED_U16;
      ValueType.ENUM_U16]).
Proof. unfold isKnownValueType. intros Ht. by switch_cases Ht. Qed.

Lemma within_bounds_spec d v :
  isValidCapabilityDescriptor d = true → descriptor_typed d → is_u32 (bits v) →
  isValueWithinBounds d v = true ↔
  isValidCapabilityValue v = true ∧ value_type v = valueType d
  ∧ denotes (valueType d) (minimumBits d) ≤ denotes (valueType d) (bits v)
    ≤ denotes (valueType d) (maximumBits d).
Proof.
  intros Hd (_ & Hmin & Hmax) Hv. unfold isValueWithinBounds, isValueCompatible. rewrite Hd. bsimp.
  destruct (isValidCapabilityValue v) eqn:Hval; bsimp; [|naive_solver].
  destruct (Z.eqb_spec (valueType d) (value_type v)) as [->|E]; bsimp; [|naive_solver].
  unfold denotes. apply valid_value_type, known_type_ordering in Hval as Hord. rewrite Hord.
  destruct (one_of (value_type v) [ValueType.NONE; _; _; _; _]); bsimp; rewrite ?andb_true_iff, !Z.leb_le.
  - naive_solver.
  - rewrite !signedOrderingKey_le by done. naive_solver.
Qed.

(** ** Operations *)

(** What a valid descriptor can do is to be described, read and set. *)
Lemma valid_flags d :
  isValidCapabilityDescriptor d = true →
  operationFlags d = 1 ∨ operationFlags d = 3 ∨ operationFlags d = 5 ∨ operationFlags d = 7.
Proof.
  unfold isValidCapabilityDescriptor. rewrite !andb_true_iff.
  intros [[[[[[[[[[_ _] _] Hops] _] _] _] _] _] _] _]. unfold hasValidOperations in Hops.
  destruct (_ || _); [done|]. cbn [Z.lor] in Hops.
  repeat match type of Hops with
  | (if ?b then _ else _) = true => destruct b
  | (_ || _) = true => apply orb_true_iff in Hops as [Hops|Hops]
  end; [apply Z.eqb_eq in Hops as ->; auto ..|done].
Qed.

Lemma supports_dispatchable d operation :
  isValidCapabilityDescriptor d = true →
  isHandlerDispatchableOperation operation && supportsOperation d operation = true ↔
  operation = Operation.READ ∧ Z.testbit (operationFlags d) 1 = true
  ∨ operation = Operation.SET ∧ Z.testbit (operationFlags d) 2 = true.
Proof.
  intros Hd. unfold isHandlerDispatchableOperation, supportsOperation. rewrite Hd. bsimp.
  pose proof (valid_flags d Hd) as Hflags. rewrite andb_true_iff. split.
  - intros [Hop Hf]. switch_cases Hop; destruct Hflags as [E|[E|[E|E]]]; rewrite E in *; vm_compute in Hf; naive_solver.
  - intros [[-> Hf]|[-> Hf]]; (split; [done|]);
      destruct Hflags as [E|[E|[E|E]]]; rewrite E in *; vm_compute in Hf; done.
Qed.

Lemma canonical_none v :
  isCanonicalNoneValue v = true ↔ isValidCapabilityValue v = true ∧ value_type v = ValueType.NONE.
Proof. unfold isCanonicalNoneValue. by rewrite andb_true_iff, Z.eqb_eq. Qed.

(** ** Dispatch *)

Section Dispatch.

Context {W : Type} `{LocalCapabilityHandler W}.

(** A refusal: the device is not touched, and the status is one the dispatcher
    itself gives. *)
Definition refused (w : W) (out : OperationResult * W) : Prop :=
  ∃ status, out = (makeCanonicalFailureResult status, w) ∧ status ≠ OperationStatus.OK
    ∧ isKnownOperationStatus status = true ∧ isHandlerOwnedStatus status = false.

Lemma refuse status w :
  status ≠ OperationStatus.OK → isKnownOperationStatus status = true →
  isHandlerOwnedStatus status = false → refused w (ret (makeCanonicalFailureResult status) w).
Proof. intros. by exists status. Qed.

(** The guards before the handler, as the dispatcher decides them. *)
Definition guarded d operation input caller interlock : bool :=
  isHandlerDispatchableOperation operation && supportsOperation d operation
  && (if operation =? Operation.SET then isValueWithinBounds d input else isCanonicalNoneValue input)
  && isOperationAuthorized d operation caller && isOperationSafe d operation interlock.

Lemma within_compatible d v :
  isValueWithinBounds d v = true → isValidCapabilityValue v = true ∧ valueType d = value_type v.
Proof.
  unfold isValueWithinBounds, isValueCompatible. destruct (isValidCapabilityValue v), (Z.eqb_spec (valueType d) (value_type v));
    rewrite ?andb_false_r; done.
Qed.

(** With a valid registry and a known id, the guards decide. *)
Lemma dispatch_guarded r id operation input caller interlock d (w : W) :
  isValidCapabilityRegistry r = true → findCapability r id zeroDescriptor = (true, d) →
  (guarded d operation input caller interlock = true
   ∧ dispatchCapabilityOperation r id operation input caller interlock w
     = checkedExecute d operation input w)
  ∨ (guarded d operation input caller interlock = false
     ∧ refused w (dispatchCapabilityOperation r id operation input caller interlock w)).
Proof.
  intros Hr Hf. unfold dispatchCapabilityOperation, guarded. rewrite Hr, Hf. bsimp.
  destruct (isHandlerDispatchableOperation operation && supportsOperation d operation) eqn:Hs;
    rewrite <- negb_andb, Hs; bsimp; [|right; split; [done|by apply refuse]].
  destruct (operation =? Operation.SET); bsimp.
  - destruct (isValueWithinBounds d input) eqn:Hb; bsimp.
    + apply within_compatible in Hb as [-> ->]. rewrite Z.eqb_refl. bsimp.
      destruct (isOperationAuthorized d operation caller); bsimp; [|right; split; [done|by apply refuse]].
      destruct (isOperationSafe d operation interlock); bsimp; [by left|right; split; [done|by apply refuse]].
    + right. split; [done|]. destruct (_ || _); by apply refuse.
  - destruct (isCanonicalNoneValue input); bsimp; [|right; split; [done|by apply refuse]].
    destruct (isOperationAuthorized d operation caller); bsimp; [|right; split; [done|by apply refuse]].
    destruct (isOperationSafe d operation interlock); bsimp; [by left|right; split; [done|by apply refuse]].
Qed.

Lemma valid_policies d :
  isValidCapabilityDescriptor d = true →
  authorizationPolicyId d = LOCAL_ONLY_AUTHORIZATION_POLICY_ID ∧ hasKnownSafetyPolicy (safetyPolicyId d) = true.
Proof.
  unfold isValidCapabilityDescriptor. rewrite !andb_true_iff. unfold hasKnownAuthorizationPolicy.
  rewrite Z.eqb_eq. tauto.
Qed.

Lemma reserved3_spec l : reserved3_zero l = true ↔ rd l 0 = 0 ∧ rd l 1 = 0 ∧ rd l 2 = 0.
Proof. unfold reserved3_zero. rewrite !andb_true_iff, !Z.eqb_eq. tauto. Qed.

Lemma authorized_spec d operation caller :
  isValidCapabilityDescriptor d = true →
  isHandlerDispatchableOperation operation && supportsOperation d operation = true →
  isOperationAuthorized d operation caller = true ↔
  (rd (caller_reserved caller) 0 = 0 ∧ rd (caller_reserved caller) 1 = 0
   ∧ rd (caller_reserved caller) 2 = 0)
  ∧ (callerClass caller = CallerClass.FIRMWARE_LOCAL ∨ callerClass caller = CallerClass.UI_LOCAL
     ∨ callerClass caller = CallerClass.TEST ∨ callerClass caller = CallerClass.HOST_LOCAL).
Proof.
  intros Hd Hs. apply valid_policies in Hd as [Hp _]. apply andb_true_iff in Hs as [Ho Hs].
  unfold isOperationAuthorized. rewrite Hs, Hp. bsimp. rewrite orb_false_r.
  assert (E : (operation =? Operation.ENUMERATE) || (operation =? Operation.DESCRIBE) = false)
    by (by switch_cases Ho).
  rewrite E, <- reserved3_spec. unfold isValidCallerContext. bsimp.
  destruct (reserved3_zero (caller_reserved caller)); bsimp; [|naive_solver].
  split.
  - destruct (negb _); [done|]. intros Hc. by switch_cases Hc; eauto.
  - by intros [_ [-> | [-> | [-> | ->]]]].
Qed.

Lemma safe_spec d operation interlock :
  isValidCapabilityDescriptor d = true →
  isHandlerDispatchableOperation operation && supportsOperation d operation = true →
  isOperationSafe d operation interlock = true ↔
  interlock = InterlockState.CLEAR ∨ interlock = InterlockState.ACTIVE
    ∧ (operation = Operation.READ ∨ safetyPolicyId d = NO_ADDITIONAL_SAFETY_POLICY_ID).
Proof.
  intros Hd Hs. apply valid_policies in Hd as [_ Hp]. apply andb_true_iff in Hs as [Ho Hs].
  unfold isOperationSafe. rewrite Hs, Hp. bsimp. rewrite orb_false_r.
  assert (E : (operation =? Operation.ENUMERATE) || (operation =? Operation.DESCRIBE) = false)
    by (by switch_cases Ho).
  rewrite E. bsimp. unfold isValidInterlockState. split.
  - destruct (one_of interlock _) eqn:Hi; [|done]. bsimp. rewrite !orb_true_iff, !Z.eqb_eq.
    switch_cases Hi; [by left|]. intros [[?|?]|?]; [eauto|done|eauto].
  - intros [->|[-> Hc]]; bsimp; rewrite ?orb_true_r; [done|].
    destruct Hc as [->| ->]; rewrite ?orb_true_r; done.
Qed.

Lemma guarded_permitted r d operation input caller interlock :
  isValidCapabilityRegistry r = true → d ∈ entries r → descriptor_typed d → is_u32 (bits input) →
  guarded d operation input caller interlock = true ↔
  permitted r (cap_id d) operation input caller interlock d.
Proof.
  intros Hr Hin Ht Hb. pose proof (entries_valid _ _ Hr Hin) as Hd. unfold guarded.
  rewrite (andb_true_iff _ (isOperationSafe _ _ _)), (andb_true_iff _ (isOperationAuthorized _ _ _)),
    (andb_true_iff (_ && _)).
  split.
  - intros [[[Hs Hv] Ha] Hi]. apply authorized_spec in Ha as [? ?]; [|done..].
    apply safe_spec in Hi; [|done..]. apply supports_dispatchable in Hs; [|done].
    assert (Hne : operation = Operation.READ → operation ≠ Operation.SET) by (by intros ->).
    destruct (Z.eqb_spec operation Operation.SET) as [Eo|Eo];
      [apply within_bounds_spec in Hv as (? & ? & ?)|apply canonical_none in Hv as [? ?]]; try done;
      split; try done; naive_solver.
  - intros [_ _ _ Hs Hval Hread Hset Hc Hl Hi].
    assert (Hsup := proj2 (supports_dispatchable d operation Hd) Hs).
    rewrite (proj2 (authorized_spec d operation caller Hd Hsup)) by done.
    rewrite (proj2 (safe_spec d operation interlock Hd Hsup)) by done. repeat split; try done.
    destruct (Z.eqb_spec operation Operation.SET) as [Eo|Eo];
      [apply within_bounds_spec|apply canonical_none]; naive_solver.
Qed.

(** A request reaches the handler or is refused, as a descriptor permits it or
    none does. *)
Lemma dispatch_decided r id operation input caller interlock (w : W) :
  Forall descriptor_typed (entries r) → is_u32 (bits input) →
  (∃ d, permitted r id operation input caller interlock d
    ∧ dispatchCapabilityOperation r id operation input caller interlock w
      = checkedExecute d operation input w)
  ∨ (∀ d, ¬ permitted r id operation input caller interlock d)
    ∧ refused w (dispatchCapabilityOperation r id operation input caller interlock w).
Proof.
  intros Ht Hb. destruct (isValidCapabilityRegistry r) eqn:Hr.
  2:{ right. split; [by intros d [? _]; congruence|]. unfold dispatchCapabilityOperation.
      rewrite Hr. by apply refuse. }
  destruct (findCapability_spec r id zeroDescriptor Hr) as [(d & Hin & <- & Hf)|[Hno Hf]].
  - pose proof (proj1 (Forall_forall _ _) Ht d Hin) as Hd.
    pose proof (guarded_permitted r d operation input caller interlock Hr Hin Hd Hb) as Hg.
    destruct (dispatch_guarded r _ operation input caller interlock d w Hr Hf) as [[E ?]|[E ?]].
    + left. exists d. by rewrite <- Hg.
    + right. split; [|done]. intros d' Hp.
      rewrite (entries_unique r d' d Hr (permitted_entry _ _ _ _ _ _ _ Hp) Hin
        (permitted_id _ _ _ _ _ _ _ Hp)) in Hp. apply Hg in Hp. congruence.
  - right. split; [by intros d [_ ? ? _ _ _ _ _ _ _]; apply (Hno d)|].
    unfold dispatchCapabilityOperation. rewrite Hr, Hf. by apply refuse.
Qed.

(** C27. The dispatcher guards the device.  An operation reaches the handler,
    once, exactly when a descriptor of the registry permits it: the capability
    is known and has the operation, a written value has the capability's type
    and lies between its bounds as a number, the caller is local, and no
    interlock holds.  Every other request is refused with the device as it was. *)
Theorem dispatch_guards r id operation input caller interlock (w : W) :
  Forall descriptor_typed (entries r) → is_u32 (bits input) →
  (∃ d, permitted r id operation input caller interlock d
    ∧ dispatchCapabilityOperation r id operation input caller interlock w
      = checkedExecute d operation input w)
  ∨ (∀ d, ¬ permitted r id operation input caller interlock d)
    ∧ refused w (dispatchCapabilityOperation r id operation input caller interlock w).
Proof. apply dispatch_decided. Qed.

Lemma failure_valid status :
  status ≠ OperationStatus.OK → isKnownOperationStatus status = true →
  isValidOperationResult (makeCanonicalFailureResult status) = true.
Proof.
  intros Hs Hk. unfold isValidOperationResult. cbn [makeCanonicalFailureResult result_status].
  rewrite Hk. by destruct (status =? _).
Qed.

(** What a caller may rely on in a result. *)
Definition result_typed r id operation (out : OperationResult) : Prop :=
  isValidOperationResult out = true
  ∧ (result_status out = OperationStatus.OK →
     ∃ d, d ∈ entries r ∧ cap_id d = id
       ∧ if operation =? Operation.READ then isValueWithinBounds d (result_value out) = true
         else value_type (result_value out) = ValueType.NONE ∧ bits (result_value out) = 0).

Lemma refused_typed r id operation w out : refused w out → result_typed r id operation out.1.
Proof.
  intros (status & -> & Hs & Hk & _). split; [by apply failure_valid|]. by intros ?.
Qed.

Lemma canonical_none_zero v :
  isCanonicalNoneValue v = true → value_type v = ValueType.NONE ∧ bits v = 0.
Proof.
  unfold isCanonicalNoneValue, isValidCapabilityValue. intros [Hv Ht%Z.eqb_eq]%andb_true_iff.
  rewrite Ht in Hv. destruct (_ || _); [done|]. split; [done|]. by apply Z.eqb_eq in Hv.
Qed.

Lemma checkedExecute_typed r d operation input (w : W) :
  d ∈ entries r → result_typed r (cap_id d) operation (checkedExecute d operation input w).1.
Proof.
  intros Hin. unfold checkedExecute, bind. destruct (execute d operation input w) as [res w'].
  cbn [fst snd ret].
  assert (Hfail : result_typed r (cap_id d) operation
    (makeCanonicalFailureResult OperationStatus.OPERATION_FAILED)) by (by split).
  destruct (isValidOperationResult res) eqn:Hv; [|done].
  destruct (isHandlerOwnedStatus (result_status res)); [|done]. bsimp.
  destruct (Z.eqb_spec (result_status res) OperationStatus.OK) as [Hs|Hs]; bsimp;
    [|split; [done|by intros ?]].
  unfold result_typed. destruct (operation =? Operation.READ);
    [destruct (isValueWithinBounds d (result_value res)) eqn:Hw
    |destruct (isCanonicalNoneValue (result_value res)) eqn:Hw]; try done;
    (split; [done|]); intros _; exists d; [done|].
  by apply canonical_none_zero in Hw.
Qed.

(** Whatever the handler returns, the result of a dispatch is a valid
    result; a successful read carries a value of the capability's type within
    its bounds, any other success no value. *)
Theorem dispatch_result_typed r id operation input caller interlock (w : W) :
  result_typed r id operation
    (dispatchCapabilityOperation r id operation input caller interlock w).1.
Proof.
  destruct (isValidCapabilityRegistry r) eqn:Hr.
  2:{ eapply refused_typed. unfold dispatchCapabilityOperation. rewrite Hr. by apply refuse. }
  destruct (findCapability_spec r id zeroDescriptor Hr) as [(d & Hin & <- & Hf)|[_ Hf]].
  - destruct (dispatch_guarded r _ operation input caller interlock d w Hr Hf) as [[_ E]|[_ E]].
    + rewrite E. by apply checkedExecute_typed.
    + by eapply refused_typed.
  - eapply refused_typed. unfold dispatchCapabilityOperation. rewrite Hr, Hf. by apply refuse.
Qed.

End Dispatch.

(** ** A device *)

Module Lamp.

(** An indicator that remembers the value it was set to. *)
#[export] Instance handler : LocalCapabilityHandler Z := λ d operation input w,
  (mkResult OperationStatus.OK (zeros 3)
     (if operation =? Operation.READ then mkValue (valueType d) (zeros 3) w
      else mkValue ValueType.NONE (zeros 3) 0),
   if operation =? Operation.SET then bits input else w).

Definition lamp : CapabilityDescriptor :=
  mkDescriptor 7 CapabilityClass.INDICATOR_OUTPUT 7 ValueType.BOOLEAN 0
    MUTATING_INTERLOCK_SAFETY_POLICY_ID UnitCode.BOOLEAN 0 0 0 1.

Definition registry : CapabilityRegistryView := mkRegistry (Some [lamp]) 1.

Definition on : CapabilityValue := mkValue ValueType.BOOLEAN (zeros 3) 1.

End Lamp.

Import Lamp.

(** The host sets the lamp. *)
Lemma dispatch_guards_witness :
  let caller := mkCaller CallerClass.HOST_LOCAL (zeros 3) in
  ((∃ d, permitted registry 7 Operation.SET on caller InterlockState.CLEAR d
     ∧ dispatchCapabilityOperation registry 7 Operation.SET on caller InterlockState.CLEAR 0
       = checkedExecute d Operation.SET on 0)
   ∨ (∀ d, ¬ permitted registry 7 Operation.SET on caller InterlockState.CLEAR d)
     ∧ refused 0 (dispatchCapabilityOperation registry 7 Operation.SET on caller
         InterlockState.CLEAR 0))
  ∧ dispatchCapabilityOperation registry 7 Operation.SET on caller InterlockState.CLEAR 0
    = (mkResult OperationStatus.OK (zeros 3) (mkValue ValueType.NONE (zeros 3) 0), 1).
Proof.
  intros caller. split.
  - apply (dispatch_guards registry 7 Operation.SET on caller InterlockState.CLEAR 0); [|concrete].
    apply Forall_cons_2; [unfold descriptor_typed; concrete|apply Forall_nil_2].
  - vm_compute. reflexivity.
Defined.

End CapabilityFacts.
