(* ===== verification/HostFrame.v ===== *)
(** The host link, lib/host_protocol: the vocabulary of the Host Protocol, its
    frame codec - a header, a payload and a CRC-16, stuffed by COBS so that
    zero delimits frames - and the stream parser that finds frames in what the
    host sends.  Enumerations are bytes, as in Wire.v; sizes are [nat], which
    none of the code's sums of at most 140 can overflow. *)

From S2P Require Import Prelude Capabilities.

Module HostProtocol.

(* host_protocol.h:10 = VERSION_MAJOR *)
Definition VERSION_MAJOR : Z := 0.

(* host_protocol.h:11 = VERSION_MINOR_0_1 *)
Definition VERSION_MINOR_0_1 : Z := 1.

(* host_protocol.h:12 = VERSION_MINOR_0_2 *)
Definition VERSION_MINOR_0_2 : Z := 2.

(* host_protocol.h:13 = MIN_SUPPORTED_MINOR *)
Definition MIN_SUPPORTED_MINOR : Z := VERSION_MINOR_0_1.

(* host_protocol.h:14 = MAX_SUPPORTED_MINOR *)
Definition MAX_SUPPORTED_MINOR : Z := VERSION_MINOR_0_2.

(* host_protocol.h:17 = VERSION_MINOR *)
Definition VERSION_MINOR : Z := 1.

(* host_protocol.h:18 = FLAGS_NONE *)
Definition FLAGS_NONE : Z := 0.

(* host_protocol.h:20 = RESERVED_REQUEST_ID *)
Definition RESERVED_REQUEST_ID : Z := 0.

(* host_protocol.h:21 = MINIMUM_REQUEST_ID *)
Definition MINIMUM_REQUEST_ID : Z := 1.

(* host_protocol.h:22 = MAXIMUM_REQUEST_ID *)
Definition MAXIMUM_REQUEST_ID : Z := 65535.

(* host_protocol.h:24 = MAX_PAYLOAD_SIZE *)
Definition MAX_PAYLOAD_SIZE : nat := 128%nat.

(* host_protocol.h:25 = DECODED_HEADER_SIZE *)
Definition DECODED_HEADER_SIZE : nat := 8%nat.

(* host_protocol.h:26 = CRC_SIZE *)
Definition CRC_SIZE : nat := 2%nat.

(* host_protocol.h:27 = MIN_DECODED_FRAME_SIZE *)
Definition MIN_DECODED_FRAME_SIZE : nat := 10%nat.

(* host_protocol.h:28 = MAX_DECODED_FRAME_SIZE *)
Definition MAX_DECODED_FRAME_SIZE : nat := 138%nat.

(* host_protocol.h:29 = MAX_COBS_CANDIDATE_SIZE *)
Definition MAX_COBS_CANDIDATE_SIZE : nat := 139%nat.

(* host_protocol.h:30 = MAX_ENCODED_FRAME_SIZE *)
Definition MAX_ENCODED_FRAME_SIZE : nat := 140%nat.

(* host_protocol.h:31 = HELLO_REQUEST_PAYLOAD_SIZE *)
Definition HELLO_REQUEST_PAYLOAD_SIZE : nat := 2%nat.

(* host_protocol.h:32 = HELLO_RESPONSE_PAYLOAD_SIZE *)
Definition HELLO_RESPONSE_PAYLOAD_SIZE : nat := 16%nat.

(* host_protocol.h:33 = PROTOCOL_ERROR_PAYLOAD_SIZE *)
Definition PROTOCOL_ERROR_PAYLOAD_SIZE : nat := 4%nat.

(* host_protocol.h:34 = MAX_OUTSTANDING_OPERATIONS *)
Definition MAX_OUTSTANDING_OPERATIONS : Z := 1.

(* host_protocol.h:35 = HELLO_RESERVED_VALUE *)
Definition HELLO_RESERVED_VALUE : Z := 0.

Module MessageType.

(* host_protocol.h:38 = MessageType::HELLO_REQUEST *)
Definition HELLO_REQUEST : Z := 1.

(* host_protocol.h:39 = MessageType::HELLO_RESPONSE *)
Definition HELLO_RESPONSE : Z := 2.

(* host_protocol.h:40 = MessageType::OPERATION_REQUEST *)
Definition OPERATION_REQUEST : Z := 16.

(* host_protocol.h:41 = MessageType::OPERATION_RESPONSE *)
Definition OPERATION_RESPONSE : Z := 17.

(* host_protocol.h:42 = MessageType::PROTOCOL_ERROR *)
Definition PROTOCOL_ERROR : Z := 127.

End MessageType.

Module OperationCategory.

(* host_protocol.h:46 = OperationCategory::DEVICE *)
Definition DEVICE : Z := 1.

(* host_protocol.h:47 = OperationCategory::CAPABILITY *)
Definition CAPABILITY : Z := 2.

(* host_protocol.h:48 = OperationCategory::PROCEDURE *)
Definition PROCEDURE : Z := 3.

(* host_protocol.h:49 = OperationCategory::DIAGNOSTIC *)
Definition DIAGNOSTIC : Z := 4.

(* host_protocol.h:50 = OperationCategory::EVENT *)
Definition EVENT : Z := 5.

End OperationCategory.

Module OperationCode.

(* host_protocol.h:54 = OperationCode::PING *)
Definition PING : Z := 32.

(* host_protocol.h:55 = OperationCode::GET_DEVICE_INFO *)
Definition GET_DEVICE_INFO : Z := 33.

(* host_protocol.h:56 = OperationCode::GET_STATUS *)
Definition GET_STATUS : Z := 34.

(* host_protocol.h:57 = OperationCode::GET_CAPABILITIES *)
Definition GET_CAPABILITIES : Z := 35.

(* host_protocol.h:58 = OperationCode::DESCRIBE_CAPABILITY *)
Definition DESCRIBE_CAPABILITY : Z := 36.

(* host_protocol.h:59 = OperationCode::READ_CAPABILITY *)
Definition READ_CAPABILITY : Z := 37.

(* host_protocol.h:60 = OperationCode::SET_INDICATOR *)
Definition SET_INDICATOR : Z := 38.

(* host_protocol.h:61 = OperationCode::RUN_PROCEDURE *)
Definition RUN_PROCEDURE : Z := 39.

(* host_protocol.h:62 = OperationCode::GET_DIAGNOSTICS *)
Definition GET_DIAGNOSTICS : Z := 40.

(* host_protocol.h:63 = OperationCode::POLL_EVENTS *)
Definition POLL_EVENTS : Z := 41.

(* host_protocol.h:64 = OperationCode::CONSUME_EVENT *)
Definition CONSUME_EVENT : Z := 42.

(* host_protocol.h:65 = OperationCode::GET_EVENT_DIAGNOSTICS *)
Definition GET_EVENT_DIAGNOSTICS : Z := 43.

End OperationCode.

Module ResultClass.

(* host_protocol.h:69 = ResultClass::SUCCESS *)
Definition SUCCESS : Z := 0.

(* host_protocol.h:70 = ResultClass::REQUEST_REJECTED *)
Definition REQUEST_REJECTED : Z := 1.

(* host_protocol.h:71 = ResultClass::OPERATION_RESULT *)
Definition OPERATION_RESULT : Z := 2.

(* host_protocol.h:72 = ResultClass::RADIO_RESULT *)
Definition RADIO_RESULT : Z := 3.

(* host_protocol.h:73 = ResultClass::LOCAL_RUNTIME_RESULT *)
Definition LOCAL_RUNTIME_RESULT : Z := 4.

(* host_protocol.h:74 = ResultClass::EVENT_RESULT *)
Definition EVENT_RESULT : Z := 5.

End ResultClass.

Module SuccessCode.

(* host_protocol.h:78 = SuccessCode::OK *)
Definition OK : Z := 0.

End SuccessCode.

Module RequestRejectionCode.

(* host_protocol.h:82 = RequestRejectionCode::MALFORMED_REQUEST *)
Definition MALFORMED_REQUEST : Z := 1.

(* host_protocol.h:83 = RequestRejectionCode::UNSUPPORTED_OPERATION *)
Definition UNSUPPORTED_OPERATION : Z := 2.

(* host_protocol.h:84 = RequestRejectionCode::BAD_TARGET *)
Definition BAD_TARGET : Z := 3.

(* host_protocol.h:85 = RequestRejectionCode::BUSY *)
Definition BUSY : Z := 4.

(* host_protocol.h:86 = RequestRejectionCode::MISMATCH *)
Definition MISMATCH : Z := 8.

End RequestRejectionCode.

Module RadioResultCode.

(* host_protocol.h:90 = RadioResultCode::TIMEOUT *)
Definition TIMEOUT : Z := 6.

(* host_protocol.h:91 = RadioResultCode::REMOTE_REJECTED *)
Definition REMOTE_REJECTED : Z := 7.

(* host_protocol.h:92 = RadioResultCode::MISMATCH *)
Definition MISMATCH : Z := 8.

End RadioResultCode.

Module LocalRuntimeResultCode.

(* host_protocol.h:96 = LocalRuntimeResultCode::BUSY *)
Definition BUSY : Z := 4.

(* host_protocol.h:97 = LocalRuntimeResultCode::OPERATION_FAILED *)
Definition OPERATION_FAILED : Z := 10.

End LocalRuntimeResultCode.

Module EventResultCode.

(* host_protocol.h:101 = EventResultCode::NOT_FOUND *)
Definition NOT_FOUND : Z := 1.

(* host_protocol.h:102 = EventResultCode::STORAGE_FAILURE *)
Definition STORAGE_FAILURE : Z := 2.

End EventResultCode.

Module ProtocolErrorCode.

(* host_protocol.h:106 = ProtocolErrorCode::UNSUPPORTED_MAJOR *)
Definition UNSUPPORTED_MAJOR : Z := 1.

(* host_protocol.h:107 = ProtocolErrorCode::UNSUPPORTED_MINOR *)
Definition UNSUPPORTED_MINOR : Z := 2.

(* host_protocol.h:108 = ProtocolErrorCode::UNSUPPORTED_MESSAGE_TYPE *)
Definition UNSUPPORTED_MESSAGE_TYPE : Z := 3.

(* host_protocol.h:109 = ProtocolErrorCode::UNSUPPORTED_FLAGS *)
Definition UNSUPPORTED_FLAGS : Z := 4.

(* host_protocol.h:110 = ProtocolErrorCode::MALFORMED_PAYLOAD *)
Definition MALFORMED_PAYLOAD : Z := 5.

(* host_protocol.h:111 = ProtocolErrorCode::INVALID_REQUEST_ID *)
Definition INVALID_REQUEST_ID : Z := 6.

End ProtocolErrorCode.

Module HardwareProfile.

(* host_protocol.h:115 = HardwareProfile::HELTEC_V4 *)
Definition HELTEC_V4 : Z := 1.

End HardwareProfile.

Module DeviceRole.

(* host_protocol.h:119 = DeviceRole::HUB *)
Definition HUB : Z := 1.

(* host_protocol.h:120 = DeviceRole::NODE *)
Definition NODE : Z := 2.

End DeviceRole.

(* host_protocol.h:125 = STRUCTURE_VALUE_TYPE *)
Definition STRUCTURE_VALUE_TYPE : Z := 127.

(* host_protocol.h:127 = CATEGORY_DEVICE_BIT *)
Definition CATEGORY_DEVICE_BIT : Z := 1.

(* host_protocol.h:128 = CATEGORY_CAPABILITY_BIT *)
Definition CATEGORY_CAPABILITY_BIT : Z := 2.

(* host_protocol.h:129 = CATEGORY_PROCEDURE_BIT *)
Definition CATEGORY_PROCEDURE_BIT : Z := 4.

(* host_protocol.h:130 = CATEGORY_DIAGNOSTIC_BIT *)
Definition CATEGORY_DIAGNOSTIC_BIT : Z := 8.

(* host_protocol.h:131 = CATEGORY_EVENT_BIT *)
Definition CATEGORY_EVENT_BIT : Z := 16.

(* host_protocol.h:132-136 = KNOWN_CATEGORY_BITMAP *)
Definition KNOWN_CATEGORY_BITMAP : Z :=
  Z.lor (Z.lor (Z.lor CATEGORY_DEVICE_BIT CATEGORY_CAPABILITY_BIT) CATEGORY_PROCEDURE_BIT)
    CATEGORY_DIAGNOSTIC_BIT.

(* host_protocol.h:137 = RESERVED_CATEGORY_BITMAP *)
Definition RESERVED_CATEGORY_BITMAP : Z := 65520.

(* host_protocol.h:138-139 = KNOWN_CATEGORY_BITMAP_0_2 *)
Definition KNOWN_CATEGORY_BITMAP_0_2 : Z := Z.lor KNOWN_CATEGORY_BITMAP CATEGORY_EVENT_BIT.

(* host_protocol.h:140 = RESERVED_CATEGORY_BITMAP_0_2 *)
Definition RESERVED_CATEGORY_BITMAP_0_2 : Z := 65504.

(* host_protocol.h:142 = FEATURE_LOCAL_OPERATIONS *)
Definition FEATURE_LOCAL_OPERATIONS : Z := 1.

(* host_protocol.h:143 = FEATURE_RADIO_BRIDGE *)
Definition FEATURE_RADIO_BRIDGE : Z := 2.

(* host_protocol.h:144 = FEATURE_EVENT_SERVICE *)
Definition FEATURE_EVENT_SERVICE : Z := 4.

(* host_protocol.h:145-146 = KNOWN_FEATURE_BITMAP *)
Definition KNOWN_FEATURE_BITMAP : Z := Z.lor FEATURE_LOCAL_OPERATIONS FEATURE_RADIO_BRIDGE.

(* host_protocol.h:147 = RESERVED_FEATURE_BITMAP *)
Definition RESERVED_FEATURE_BITMAP : Z := 65532.

(* host_protocol.h:148-149 = KNOWN_FEATURE_BITMAP_0_2 *)
Definition KNOWN_FEATURE_BITMAP_0_2 : Z := Z.lor KNOWN_FEATURE_BITMAP FEATURE_EVENT_SERVICE.

(* host_protocol.h:150 = RESERVED_FEATURE_BITMAP_0_2 *)
Definition RESERVED_FEATURE_BITMAP_0_2 : Z := 65528.

(* host_protocol.h:398 = FRAME_DELIMITER *)
Definition FRAME_DELIMITER : Z := 0.

(* host_protocol.h:399 = CRC16_CCITT_FALSE_POLYNOMIAL *)
Definition CRC16_CCITT_FALSE_POLYNOMIAL : Z := 4129.

(* host_protocol.h:400 = CRC16_CCITT_FALSE_INITIAL *)
Definition CRC16_CCITT_FALSE_INITIAL : Z := 65535.

(** ** Vocabulary *)

(* host_protocol.h:152-155 isSupportedVersion *)
Definition isSupportedVersion (major minor : Z) : bool :=
  (major =? VERSION_MAJOR) && (MIN_SUPPORTED_MINOR <=? minor) && (minor <=? MAX_SUPPORTED_MINOR).

(* host_protocol.h:157-167 isKnownMessageType *)
Definition isKnownMessageType (type : Z) : bool :=
  one_of type [MessageType.HELLO_REQUEST; MessageType.HELLO_RESPONSE;
    MessageType.OPERATION_REQUEST; MessageType.OPERATION_RESPONSE; MessageType.PROTOCOL_ERROR].

(* host_protocol.h:169-171 hasSupportedFlags *)
Definition hasSupportedFlags (flags : Z) : bool := flags =? FLAGS_NONE.

(* host_protocol.h:173-175 isReservedRequestId *)
Definition isReservedRequestId (requestId : Z) : bool := requestId =? RESERVED_REQUEST_ID.

(* host_protocol.h:177-179 isValidRequestId *)
Definition isValidRequestId (requestId : Z) : bool := MINIMUM_REQUEST_ID <=? requestId.

(** The overloads of the source that take the frame's minor version first carry
    an [M] here. *)
(* host_protocol.h:181-190 isKnownOperationCategory *)
Definition isKnownOperationCategory (category : Z) : bool :=
  one_of category [OperationCategory.DEVICE; OperationCategory.CAPABILITY;
    OperationCategory.PROCEDURE; OperationCategory.DIAGNOSTIC].

(* host_protocol.h:192-206 isKnownOperationCode *)
Definition isKnownOperationCode (operation : Z) : bool :=
  one_of operation [OperationCode.PING; OperationCode.GET_DEVICE_INFO; OperationCode.GET_STATUS;
    OperationCode.GET_CAPABILITIES; OperationCode.DESCRIBE_CAPABILITY;
    OperationCode.READ_CAPABILITY; OperationCode.SET_INDICATOR; OperationCode.RUN_PROCEDURE;
    OperationCode.GET_DIAGNOSTICS].

(* host_protocol.h:208-211 isKnownOperationCategory#2 *)
Definition isKnownOperationCategoryM (minor category : Z) : bool :=
  isKnownOperationCategory category
  || ((minor =? VERSION_MINOR_0_2) && (category =? OperationCategory.EVENT)).

(* host_protocol.h:213-219 isKnownOperationCode#2 *)
Definition isKnownOperationCodeM (minor operation : Z) : bool :=
  isKnownOperationCode operation
  || ((minor =? VERSION_MINOR_0_2)
      && ((operation =? OperationCode.POLL_EVENTS) || (operation =? OperationCode.CONSUME_EVENT)
          || (operation =? OperationCode.GET_EVENT_DIAGNOSTICS))).

(* host_protocol.h:221-243 isSupportedCategoryOperation *)
Definition isSupportedCategoryOperation (category operation : Z) : bool :=
  if category =? OperationCategory.DEVICE
  then (operation =? OperationCode.PING) || (operation =? OperationCode.GET_DEVICE_INFO)
       || (operation =? OperationCode.GET_STATUS) else
  if category =? OperationCategory.CAPABILITY
  then (operation =? OperationCode.GET_CAPABILITIES)
       || (operation =? OperationCode.DESCRIBE_CAPABILITY)
       || (operation =? OperationCode.READ_CAPABILITY)
       || (operation =? OperationCode.SET_INDICATOR) else
  if category =? OperationCategory.PROCEDURE then operation =? OperationCode.RUN_PROCEDURE else
  if category =? OperationCategory.DIAGNOSTIC then operation =? OperationCode.GET_DIAGNOSTICS else
  false.

(* host_protocol.h:245-256 isSupportedCategoryOperation#2 *)
Definition isSupportedCategoryOperationM (minor category operation : Z) : bool :=
  if (minor =? VERSION_MINOR_0_2) && (category =? OperationCategory.EVENT)
  then (operation =? OperationCode.POLL_EVENTS) || (operation =? OperationCode.CONSUME_EVENT) else
  if (minor =? VERSION_MINOR_0_2) && (category =? OperationCategory.DIAGNOSTIC)
     && (operation =? OperationCode.GET_EVENT_DIAGNOSTICS) then true else
  isKnownOperationCategoryM minor category && isKnownOperationCodeM minor operation
  && isSupportedCategoryOperation category operation.

(* host_protocol.h:258-268 isKnownResultClass *)
Definition isKnownResultClass (class : Z) : bool :=
  one_of class [ResultClass.SUCCESS; ResultClass.REQUEST_REJECTED; ResultClass.OPERATION_RESULT;
    ResultClass.RADIO_RESULT; ResultClass.LOCAL_RUNTIME_RESULT].

(* host_protocol.h:270-273 isKnownResultClass#2 *)
Definition isKnownResultClassM (minor class : Z) : bool :=
  isKnownResultClass class || ((minor =? VERSION_MINOR_0_2) && (class =? ResultClass.EVENT_RESULT)).

(* host_protocol.h:275-311 isValidResultCode *)
Definition isValidResultCode (class code : Z) : bool :=
  if class =? ResultClass.SUCCESS then code =? SuccessCode.OK else
  if class =? ResultClass.REQUEST_REJECTED
  then one_of code [RequestRejectionCode.MALFORMED_REQUEST;
         RequestRejectionCode.UNSUPPORTED_OPERATION; RequestRejectionCode.BAD_TARGET;
         RequestRejectionCode.BUSY; RequestRejectionCode.MISMATCH] else
  if class =? ResultClass.OPERATION_RESULT
  then DeviceCapabilities.isKnownOperationStatus code else
  if class =? ResultClass.RADIO_RESULT
  then one_of code [RadioResultCode.TIMEOUT; RadioResultCode.REMOTE_REJECTED;
         RadioResultCode.MISMATCH] else
  if class =? ResultClass.LOCAL_RUNTIME_RESULT
  then (code =? LocalRuntimeResultCode.BUSY) || (code =? LocalRuntimeResultCode.OPERATION_FAILED)
  else
  if class =? ResultClass.EVENT_RESULT
  then (code =? EventResultCode.NOT_FOUND) || (code =? EventResultCode.STORAGE_FAILURE) else
  false.

(* host_protocol.h:313-324 isKnownProtocolError *)
Definition isKnownProtocolError (error : Z) : bool :=
  one_of error [ProtocolErrorCode.UNSUPPORTED_MAJOR; ProtocolErrorCode.UNSUPPORTED_MINOR;
    ProtocolErrorCode.UNSUPPORTED_MESSAGE_TYPE; ProtocolErrorCode.UNSUPPORTED_FLAGS;
    ProtocolErrorCode.MALFORMED_PAYLOAD; ProtocolErrorCode.INVALID_REQUEST_ID].

(* host_protocol.h:326-328 isValidHelloMinorRange *)
Definition isValidHelloMinorRange (minimum maximum : Z) : bool :=
  (minimum =? VERSION_MINOR) && (maximum =? VERSION_MINOR).

(* host_protocol.h:330-335 isValidHelloMinorRange#2 *)
Definition isValidHelloMinorRangeM (frameMinor minimum maximum : Z) : bool :=
  if frameMinor =? VERSION_MINOR_0_1 then isValidHelloMinorRange minimum maximum else
  (frameMinor =? VERSION_MINOR_0_2) && negb (minimum =? 0) && negb (maximum =? 0)
  && (minimum <=? maximum).

(** The minor selected, or none. *)
(* host_protocol.h:337-349 selectHighestSupportedMinor *)
Definition selectHighestSupportedMinor (minimum maximum : Z) : option Z :=
  if (minimum =? 0) || (maximum =? 0) || (maximum <? minimum) then None else
  if (minimum <=? VERSION_MINOR_0_2) && (VERSION_MINOR_0_2 <=? maximum)
  then Some VERSION_MINOR_0_2 else
  if (minimum <=? VERSION_MINOR_0_1) && (VERSION_MINOR_0_1 <=? maximum)
  then Some VERSION_MINOR_0_1 else None.

(* host_protocol.h:351-353 hasValidCategoryBitmap *)
Definition hasValidCategoryBitmap (bitmap : Z) : bool :=
  Z.land bitmap RESERVED_CATEGORY_BITMAP =? 0.

(* host_protocol.h:355-357 hasValidFeatureBitmap *)
Definition hasValidFeatureBitmap (bitmap : Z) : bool :=
  Z.land bitmap RESERVED_FEATURE_BITMAP =? 0.

(* host_protocol.h:359-364 hasValidCategoryBitmap#2 *)
Definition hasValidCategoryBitmapM (selectedMinor bitmap : Z) : bool :=
  if selectedMinor =? VERSION_MINOR_0_1 then hasValidCategoryBitmap bitmap else
  (selectedMinor =? VERSION_MINOR_0_2) && (Z.land bitmap RESERVED_CATEGORY_BITMAP_0_2 =? 0).

(* host_protocol.h:366-371 hasValidFeatureBitmap#2 *)
Definition hasValidFeatureBitmapM (selectedMinor bitmap : Z) : bool :=
  if selectedMinor =? VERSION_MINOR_0_1 then hasValidFeatureBitmap bitmap else
  (selectedMinor =? VERSION_MINOR_0_2) && (Z.land bitmap RESERVED_FEATURE_BITMAP_0_2 =? 0).

(* host_protocol.h:373-381 hasConsistentEventAdvertisement *)
Definition hasConsistentEventAdvertisement (selectedMinor categories features : Z) : bool :=
  let category := negb (Z.land categories CATEGORY_EVENT_BIT =? 0) in
  let feature := negb (Z.land features FEATURE_EVENT_SERVICE =? 0) in
  if selectedMinor =? VERSION_MINOR_0_1 then negb category && negb feature else
  (selectedMinor =? VERSION_MINOR_0_2) && eqb category feature.

(* host_protocol.h:383-385 isKnownHardwareProfile *)
Definition isKnownHardwareProfile (profile : Z) : bool := profile =? HardwareProfile.HELTEC_V4.

(* host_protocol.h:387-389 isKnownDeviceRole *)
Definition isKnownDeviceRole (role : Z) : bool := (role =? DeviceRole.HUB) || (role =? DeviceRole.NODE).

(* host_protocol.h:391-396 isKnownHostValueType *)
Definition isKnownHostValueType (type : Z) : bool :=
  (type =? STRUCTURE_VALUE_TYPE) || DeviceCapabilities.isKnownValueType type.

(** ** Frames *)

(* host_protocol.h:402-410 Frame *)
Record Frame := mkFrame {
  major : Z;
  minor : Z;
  messageType : Z;
  flags : Z;
  requestId : Z;
  payloadLength : Z;
  payload : list Z
}.

#[global] Instance eta_Frame : RecEta Frame := λ f,
  mkFrame (major f) (minor f) (messageType f) (flags f) (requestId f) (payloadLength f) (payload f).

(** [Frame frame = {};] *)
Definition zeroFrame : Frame := mkFrame 0 0 0 0 0 0 (zeros MAX_PAYLOAD_SIZE).

(* host_protocol.h:412-418 CobsResult *)
Inductive CobsResult :=
  COBS_OK | COBS_NULL_ARGUMENT | INPUT_TOO_LARGE | COBS_OUTPUT_TOO_SMALL | MALFORMED_INPUT.

(* host_protocol.h:420-429 EncodeResult *)
Inductive EncodeResult :=
  ENCODE_OK | ENCODE_NULL_ARGUMENT | ENCODE_PAYLOAD_TOO_LARGE | ENCODE_UNSUPPORTED_VERSION
| ENCODE_UNSUPPORTED_MESSAGE_TYPE | ENCODE_UNSUPPORTED_FLAGS | ENCODE_INVALID_REQUEST_ID
| ENCODE_OUTPUT_TOO_SMALL.

(* host_protocol.h:431-448 DecodeResult *)
Inductive DecodeResult :=
  DECODE_OK | NULL_ARGUMENT | EMPTY_FRAME | ENCODED_FRAME_TOO_LARGE | MISSING_DELIMITER
| MALFORMED_COBS | DECODED_LENGTH_INVALID | PAYLOAD_TOO_LARGE | LENGTH_MISMATCH | CRC_MISMATCH
| UNSUPPORTED_VERSION | UNSUPPORTED_MESSAGE_TYPE | UNSUPPORTED_FLAGS | INVALID_REQUEST_ID
| UNSUPPORTED_MAJOR | UNSUPPORTED_MINOR.

#[global] Instance CobsResult_eq_dec : EqDecision CobsResult.
Proof. solve_decision. Defined.

#[global] Instance EncodeResult_eq_dec : EqDecision EncodeResult.
Proof. solve_decision. Defined.

#[global] Instance DecodeResult_eq_dec : EqDecision DecodeResult.
Proof. solve_decision. Defined.

(** ** CRC-16/CCITT-FALSE *)

(* host_protocol.h:459-462 = crc16CcittFalse, one bit *)
Definition crc16Bit (crc : Z) : Z :=
  if negb (Z.land crc 32768 =? 0)
  then u16 (Z.lxor (Z.shiftl crc 1) CRC16_CCITT_FALSE_POLYNOMIAL)
  else u16 (Z.shiftl crc 1).

(* host_protocol.h:457-463 = crc16CcittFalse, one byte *)
Definition crc16Byte (crc byte : Z) : Z :=
  Nat.iter 8 crc16Bit (Z.lxor crc (u16 (Z.shiftl byte 8))).

(* host_protocol.h:456-464 = crc16CcittFalse, the loop *)
Fixpoint crc16Loop (input : list Z) (left index : nat) (crc : Z) : Z :=
  match left with
  | O => crc
  | S left' => crc16Loop input left' (S index) (crc16Byte crc (rd input index))
  end.

(* host_protocol.h:450-466 crc16CcittFalse *)
Definition crc16CcittFalse (input : option (list Z)) (inputLength : nat) : Z :=
  match input with
  | None => CRC16_CCITT_FALSE_INITIAL
  | Some bytes => crc16Loop bytes inputLength 0 CRC16_CCITT_FALSE_INITIAL
  end.

(** ** COBS *)

(** The encoder's variables: the output buffer, [codeIndex], [writeIndex],
    [code]. *)
Record CobsWriter := mkWriter {
  cw_output : list Z;
  codeIndex : nat;
  writeIndex : nat;
  code : Z
}.

(** A block is closed: its code is written, and a place taken for the next
    one; if there is none, the encoder leaves. *)
(* host_protocol.h:495-501 = cobsEncode, the end of a block *)
Definition closeBlock (outputCapacity : nat) (w : CobsWriter) : CobsWriter + CobsResult * list Z :=
  let output := upd (cw_output w) (codeIndex w) (code w) in
  if (outputCapacity <=? writeIndex w)%nat then inr (COBS_OUTPUT_TOO_SMALL, output) else
  inl (mkWriter output (writeIndex w) (S (writeIndex w)) 1).

(* host_protocol.h:490-517 = cobsEncode, one byte *)
Definition cobsEncodeByte (outputCapacity : nat) (value : Z) (w : CobsWriter)
    : CobsWriter + CobsResult * list Z :=
  if value =? 0 then
    if (outputCapacity <=? codeIndex w)%nat then inr (COBS_OUTPUT_TOO_SMALL, cw_output w)
    else closeBlock outputCapacity w
  else
    if (outputCapacity <=? writeIndex w)%nat then inr (COBS_OUTPUT_TOO_SMALL, cw_output w) else
    let w := mkWriter (upd (cw_output w) (writeIndex w) value) (codeIndex w) (S (writeIndex w))
               (u8 (code w + 1)) in
    if code w =? 255 then closeBlock outputCapacity w else inl w.

(* host_protocol.h:489-518 = cobsEncode, the loop *)
Fixpoint cobsEncodeLoop (outputCapacity : nat) (input : list Z) (left index : nat)
    (w : CobsWriter) : CobsWriter + CobsResult * list Z :=
  match left with
  | O => inl w
  | S left' =>
      match cobsEncodeByte outputCapacity (rd input index) w with
      | inl w' => cobsEncodeLoop outputCapacity input left' (S index) w'
      | inr r => inr r
      end
  end.

(** The result, the output buffer, and [outputLength]. *)
(* host_protocol.h:468-525 cobsEncode *)
Definition cobsEncode (input : option (list Z)) (inputLength : nat) (output : option (list Z))
    (outputCapacity : nat) : CobsResult * option (list Z) * nat :=
  match input, output with
  | Some input, Some out =>
      if (MAX_DECODED_FRAME_SIZE <? inputLength)%nat then (INPUT_TOO_LARGE, output, O) else
      if (outputCapacity =? 0)%nat then (COBS_OUTPUT_TOO_SMALL, output, O) else
      match cobsEncodeLoop outputCapacity input inputLength 0 (mkWriter out 0 1 1) with
      | inr (r, out) => (r, Some out, O)
      | inl w =>
          if (outputCapacity <=? codeIndex w)%nat
          then (COBS_OUTPUT_TOO_SMALL, Some (cw_output w), O)
          else (COBS_OK, Some (upd (cw_output w) (codeIndex w) (code w)), writeIndex w)
      end
  | _, None => (COBS_NULL_ARGUMENT, output, O)
  | None, Some out =>
      if negb (inputLength =? 0)%nat then (COBS_NULL_ARGUMENT, output, O) else
      if (outputCapacity =? 0)%nat then (COBS_OUTPUT_TOO_SMALL, output, O) else
      (COBS_OK, Some (upd out 0 1), 1%nat)
  end.

(** The block of a code byte is copied; it holds no zero. *)
(* host_protocol.h:559-565 = cobsDecode, the inner loop *)
Fixpoint copyBlock (input : list Z) (left readIndex : nat) (output : list Z) (writeIndex : nat)
    : bool * list Z :=
  match left with
  | O => (true, output)
  | S left' =>
      let value := rd input readIndex in
      if value =? 0 then (false, output) else
      copyBlock input left' (S readIndex) (upd output writeIndex value) (S writeIndex)
  end.

(** Every turn reads a code byte, so [inputLength] turns reach the end. *)
(* host_protocol.h:547-572 = cobsDecode, the loop *)
Fixpoint cobsDecodeLoop (turns : nat) (input : list Z) (inputLength readIndex : nat)
    (output : list Z) (outputCapacity writeIndex : nat) : CobsResult * list Z * nat :=
  match turns with
  | O => (COBS_OK, output, writeIndex)
  | S turns' =>
      if (inputLength <=? readIndex)%nat then (COBS_OK, output, writeIndex) else
      let code := rd input readIndex in
      let readIndex := S readIndex in
      if code =? 0 then (MALFORMED_INPUT, output, O) else
      let blockLength := Z.to_nat (code - 1) in
      if (inputLength - readIndex <? blockLength)%nat then (MALFORMED_INPUT, output, O) else
      if (outputCapacity - writeIndex <? blockLength)%nat
      then (COBS_OUTPUT_TOO_SMALL, output, O) else
      match copyBlock input blockLength readIndex output writeIndex with
      | (false, output) => (MALFORMED_INPUT, output, O)
      | (true, output) =>
          let readIndex := (readIndex + blockLength)%nat in
          let writeIndex := (writeIndex + blockLength)%nat in
          if negb (code =? 255) && (readIndex <? inputLength)%nat then
            if (outputCapacity <=? writeIndex)%nat then (COBS_OUTPUT_TOO_SMALL, output, O) else
            cobsDecodeLoop turns' input inputLength readIndex (upd output writeIndex 0)
              outputCapacity (S writeIndex)
          else cobsDecodeLoop turns' input inputLength readIndex output outputCapacity writeIndex
      end
  end.

(* host_protocol.h:527-575 cobsDecode *)
Definition cobsDecode (input : option (list Z)) (inputLength : nat) (output : option (list Z))
    (outputCapacity : nat) : CobsResult * option (list Z) * nat :=
  match input, output with
  | Some input, Some out =>
      if (inputLength =? 0)%nat then (MALFORMED_INPUT, output, O) else
      if (MAX_COBS_CANDIDATE_SIZE <? inputLength)%nat then (INPUT_TOO_LARGE, output, O) else
      let '(r, out, length) := cobsDecodeLoop inputLength input inputLength 0 out outputCapacity 0 in
      (r, Some out, length)
  | _, _ => (COBS_NULL_ARGUMENT, output, O)
  end.

(** ** The frame codec *)

(* host_protocol.h:577-584 isValidEnvelopeRequestId *)
Definition isValidEnvelopeRequestId (messageType requestId : Z) : bool :=
  isValidRequestId requestId
  || ((messageType =? MessageType.PROTOCOL_ERROR) && isReservedRequestId requestId).

(** The frame before it is stuffed, in its buffer. *)
(* host_protocol.h:612-632 = encodeFrame, the buffer *)
Definition plainFrame (frame : Frame) : list Z :=
  let n := Z.to_nat (payloadLength frame) in
  let decoded := zeros MAX_DECODED_FRAME_SIZE in
  let decoded := upd decoded 0 (major frame) in
  let decoded := upd decoded 1 (minor frame) in
  let decoded := upd decoded 2 (messageType frame) in
  let decoded := upd decoded 3 (flags frame) in
  let decoded := upd decoded 4 (u8 (requestId frame)) in
  let decoded := upd decoded 5 (u8 (Z.shiftr (requestId frame) 8)) in
  let decoded := upd decoded 6 (u8 (payloadLength frame)) in
  let decoded := upd decoded 7 (u8 (Z.shiftr (payloadLength frame) 8)) in
  let decoded := copy_bytes n decoded DECODED_HEADER_SIZE (payload frame) 0 in
  let crc := crc16CcittFalse (Some decoded) (DECODED_HEADER_SIZE + n) in
  let decoded := upd decoded (DECODED_HEADER_SIZE + n) (u8 crc) in
  upd decoded (DECODED_HEADER_SIZE + n + 1) (u8 (Z.shiftr crc 8)).

(** The result, the output buffer, and [outputLength]. *)
(* host_protocol.h:586-656 encodeFrame *)
Definition encodeFrame (frame : Frame) (output : option (list Z)) (outputCapacity : nat)
    : EncodeResult * option (list Z) * nat :=
  match output with
  | None => (ENCODE_NULL_ARGUMENT, output, O)
  | Some _ =>
      if Z.of_nat MAX_PAYLOAD_SIZE <? payloadLength frame
      then (ENCODE_PAYLOAD_TOO_LARGE, output, O) else
      if negb (isSupportedVersion (major frame) (minor frame))
      then (ENCODE_UNSUPPORTED_VERSION, output, O) else
      if negb (isKnownMessageType (messageType frame))
      then (ENCODE_UNSUPPORTED_MESSAGE_TYPE, output, O) else
      if negb (hasSupportedFlags (flags frame)) then (ENCODE_UNSUPPORTED_FLAGS, output, O) else
      if negb (isValidEnvelopeRequestId (messageType frame) (requestId frame))
      then (ENCODE_INVALID_REQUEST_ID, output, O) else
      let decodedLength := (MIN_DECODED_FRAME_SIZE + Z.to_nat (payloadLength frame))%nat in
      if (outputCapacity =? 0)%nat then (ENCODE_OUTPUT_TOO_SMALL, output, O) else
      match cobsEncode (Some (plainFrame frame)) decodedLength output (outputCapacity - 1) with
      | (COBS_OK, Some out, candidateLength) =>
          if (outputCapacity <=? candidateLength)%nat
          then (ENCODE_OUTPUT_TOO_SMALL, Some out, O)
          else (ENCODE_OK, Some (upd out candidateLength FRAME_DELIMITER), S candidateLength)
      | (COBS_OUTPUT_TOO_SMALL, out, _) => (ENCODE_OUTPUT_TOO_SMALL, out, O)
      | (_, out, _) => (ENCODE_NULL_ARGUMENT, out, O)
      end
  end.

(** The envelope read from a checked buffer. *)
(* host_protocol.h:715-730 = decodeFrame, the candidate *)
Definition candidateFrame (decoded : list Z) : Frame :=
  let length := read16 decoded 6 in
  mkFrame (rd decoded 0) (rd decoded 1) (rd decoded 2) (rd decoded 3) (read16 decoded 4) length
    (copy_bytes (Z.to_nat length) (zeros MAX_PAYLOAD_SIZE) 0 decoded DECODED_HEADER_SIZE).

(* host_protocol.h:734-750 = decodeFrame, the vocabulary checks *)
Definition vocabulary (frame : Frame) : DecodeResult :=
  if negb (major frame =? VERSION_MAJOR) then UNSUPPORTED_MAJOR else
  if (minor frame <? MIN_SUPPORTED_MINOR) || (MAX_SUPPORTED_MINOR <? minor frame)
  then UNSUPPORTED_MINOR else
  if negb (isKnownMessageType (messageType frame)) then UNSUPPORTED_MESSAGE_TYPE else
  if negb (hasSupportedFlags (flags frame)) then UNSUPPORTED_FLAGS else
  if negb (isValidEnvelopeRequestId (messageType frame) (requestId frame))
  then INVALID_REQUEST_ID else DECODE_OK.

(** The checks of the decoded bytes: the length they carry and the CRC. *)
(* host_protocol.h:694-713 = decodeFrame, the length and the CRC *)
Definition integrity (decoded : list Z) (decodedLength : nat) : DecodeResult :=
  if (decodedLength <? MIN_DECODED_FRAME_SIZE)%nat || (MAX_DECODED_FRAME_SIZE <? decodedLength)%nat
  then DECODED_LENGTH_INVALID else
  let payloadLength := read16 decoded 6 in
  if Z.of_nat MAX_PAYLOAD_SIZE <? payloadLength then PAYLOAD_TOO_LARGE else
  if negb (decodedLength =? MIN_DECODED_FRAME_SIZE + Z.to_nat payloadLength)%nat
  then LENGTH_MISMATCH else
  let crcIndex := (DECODED_HEADER_SIZE + Z.to_nat payloadLength)%nat in
  if negb (crc16CcittFalse (Some decoded) crcIndex =? read16 decoded crcIndex)
  then CRC_MISMATCH else DECODE_OK.

(** The result, and [frame]: written once the CRC holds, also when a
    vocabulary check fails. *)
(* host_protocol.h:658-751 decodeFrame *)
Definition decodeFrame (input : option (list Z)) (inputLength : nat) (frame : Frame)
    : DecodeResult * Frame :=
  match input with
  | None => (NULL_ARGUMENT, frame)
  | Some bytes =>
      if (inputLength =? 0)%nat then (EMPTY_FRAME, frame) else
      if (MAX_ENCODED_FRAME_SIZE <? inputLength)%nat then (ENCODED_FRAME_TOO_LARGE, frame) else
      if negb (rd bytes (inputLength - 1) =? FRAME_DELIMITER) then (MISSING_DELIMITER, frame) else
      let candidateLength := (inputLength - 1)%nat in
      if (candidateLength =? 0)%nat then (EMPTY_FRAME, frame) else
      match cobsDecode input candidateLength (Some (zeros MAX_DECODED_FRAME_SIZE))
              MAX_DECODED_FRAME_SIZE with
      | (COBS_OK, Some decoded, decodedLength) =>
          match integrity decoded decodedLength with
          | DECODE_OK => let candidate := candidateFrame decoded in (vocabulary candidate, candidate)
          | failure => (failure, frame)
          end
      | (INPUT_TOO_LARGE, _, _) => (ENCODED_FRAME_TOO_LARGE, frame)
      | _ => (MALFORMED_COBS, frame)
      end
  end.

(** ** The stream parser *)

(* host_protocol_stream.h:10 STREAM_CANDIDATE_STORAGE_SIZE *)
Definition STREAM_CANDIDATE_STORAGE_SIZE : nat := MAX_COBS_CANDIDATE_SIZE.

(* host_protocol_stream.h:12-18 StreamEvent *)
Inductive StreamEvent :=
  STREAM_NONE | FRAME_READY | FRAME_REJECTED | OVERSIZED_CANDIDATE | INVALID_ARGUMENT.

#[global] Instance StreamEvent_eq_dec : EqDecision StreamEvent.
Proof. solve_decision. Defined.

(* host_protocol_stream.h:20-25 StreamResult *)
Record StreamResult := mkStream {
  consumed : nat;
  event : StreamEvent;
  decodeResult : DecodeResult;
  stream_frame : Frame
}.

(** The parser's members. *)
(* host_protocol_stream.h:97-100 = StreamParser members *)
Record StreamParser := mkParser {
  candidate : list Z;
  candidateLength : nat;
  discardingOversize : bool
}.

#[global] Instance eta_StreamParser : RecEta StreamParser := λ p,
  mkParser (candidate p) (candidateLength p) (discardingOversize p).

(* host_protocol_stream.h:31-34 StreamParser::reset *)
Definition reset (p : StreamParser) : StreamParser :=
  p <| candidateLength := O |> <| discardingOversize := false |>.

(** The parser as constructed over storage of unspecified content. *)
(* host_protocol_stream.h:29 = StreamParser::StreamParser *)
Definition newParser (storage : list Z) : StreamParser := mkParser storage O false.

(** A delimiter ends a candidate: the frame is decoded. *)
(* host_protocol_stream.h:72-80 = StreamParser::consume, a complete frame *)
Definition completeCandidate (p : StreamParser) : DecodeResult * Frame :=
  let completeFrame :=
    copy_bytes (candidateLength p) (zeros MAX_ENCODED_FRAME_SIZE) 0 (candidate p) 0 in
  let completeFrame := upd completeFrame (candidateLength p) FRAME_DELIMITER in
  decodeFrame (Some completeFrame) (candidateLength p + 1) zeroFrame.

(** One byte: the event it completes, if any, and the parser after it. *)
(* host_protocol_stream.h:47-84 = StreamParser::consume, one byte *)
Definition consumeByte (value : Z) (p : StreamParser)
    : option (StreamEvent * DecodeResult * Frame) * StreamParser :=
  if discardingOversize p then
    if value =? FRAME_DELIMITER
    then (Some (OVERSIZED_CANDIDATE, ENCODED_FRAME_TOO_LARGE, zeroFrame), reset p) else (None, p)
  else if negb (value =? FRAME_DELIMITER) then
    if (candidateLength p <? MAX_COBS_CANDIDATE_SIZE)%nat
    then (None, p <| candidate := upd (candidate p) (candidateLength p) value |>
                  <| candidateLength := S (candidateLength p) |>)
    else (None, p <| candidateLength := O |> <| discardingOversize := true |>)
  else if (candidateLength p =? 0)%nat then (None, p)
  else
    let (r, frame) := completeCandidate p in
    (Some (if bool_decide (r = DECODE_OK) then FRAME_READY else FRAME_REJECTED, r, frame), reset p).

(* host_protocol_stream.h:46-85 = StreamParser::consume, the loop *)
Fixpoint consumeLoop (input : list Z) (left index : nat) (p : StreamParser)
    : StreamResult * StreamParser :=
  match left with
  | O => (mkStream index STREAM_NONE DECODE_OK zeroFrame, p)
  | S left' =>
      match consumeByte (rd input index) p with
      | (Some (e, r, frame), p') => (mkStream (S index) e r frame, p')
      | (None, p') => consumeLoop input left' (S index) p'
      end
  end.

(* host_protocol_stream.h:36-87 StreamParser::consume *)
Definition consume (input : option (list Z)) (inputLength : nat) (p : StreamParser)
    : StreamResult * StreamParser :=
  match input with
  | None =>
      if negb (inputLength =? 0)%nat
      then (mkStream O INVALID_ARGUMENT NULL_ARGUMENT zeroFrame, p)
      else (mkStream O STREAM_NONE DECODE_OK zeroFrame, p)
  | Some bytes => consumeLoop bytes inputLength 0 p
  end.

End HostProtocol.
