(* ===== verification/HostFrameFacts.v ===== *)
(** The host link's codecs: COBS is a bijection between byte strings and
    zero-free stuffed strings, the frame codec a bijection between valid
    frames and the byte strings it accepts, and the stream parser finds the
    frames in what it is fed, however it is cut up. *)

From S2P Require Import Prelude Capabilities HostFrame.

Module HostFrameFacts.

Import HostProtocol.

(** ** COBS as a function on strings

    A string is cut at its zeros; each segment is prefixed by its length plus
    one. *)

Definition nonzero (l : list Z) : Prop := Forall (λ b, b ≠ 0) l.

Fixpoint segments (p l : list Z) : list (list Z) :=
  match l with
  | [] => [p]
  | v :: l' => if v =? 0 then p :: segments [] l' else segments (p ++ [v]) l'
  end.

Definition block (s : list Z) : list Z := Z.of_nat (S (length s)) :: s.

Definition stuffed (segs : list (list Z)) : list Z := concat (block <$> segs).

Definition joined (segs : list (list Z)) : list Z :=
  match segs with
  | [] => []
  | s :: rest => s ++ concat (cons 0 <$> rest)
  end.

Lemma segments_nonempty p l : segments p l ≠ [].
Proof. revert p. induction l as [|v l IH]; intros p; simpl; [done|]. by destruct (v =? 0). Qed.

Lemma joined_cons s segs : segs ≠ [] → joined (s :: segs) = s ++ 0 :: joined segs.
Proof. by destruct segs. Qed.

Lemma joined_segments p l : joined (segments p l) = p ++ l.
Proof.
  revert p. induction l as [|v l IH]; intros p; simpl; [by rewrite app_nil_r|].
  destruct (Z.eqb_spec v 0) as [->|Hv].
  - rewrite joined_cons by apply segments_nonempty. by rewrite IH.
  - rewrite IH. by rewrite <- app_assoc.
Qed.

Lemma segments_nonzero p l : nonzero p → Forall nonzero (segments p l).
Proof.
  revert p. induction l as [|v l IH]; intros p Hp; simpl; [by repeat constructor|].
  destruct (Z.eqb_spec v 0); [constructor; [done|apply IH; constructor]|].
  apply IH, Forall_app. split; [done|by repeat constructor].
Qed.

Lemma segments_prefix p s l : nonzero s → segments p (s ++ l) = segments (p ++ s) l.
Proof.
  intros Hs. revert p. induction Hs as [|v s Hv Hs IH]; intros p; simpl; [by rewrite app_nil_r|].
  rewrite (proj2 (Z.eqb_neq v 0)) by done. by rewrite IH, <- app_assoc.
Qed.

Lemma segments_joined segs : segs ≠ [] → Forall nonzero segs → segments [] (joined segs) = segs.
Proof.
  intros Hne H. induction H as [|s segs Hs Hsegs IH]; [done|].
  destruct segs as [|s' segs].
  - simpl. rewrite segments_prefix by done. done.
  - rewrite joined_cons, segments_prefix by done. simpl. f_equal. by apply IH.
Qed.

Lemma length_joined segs : segs ≠ [] → length (stuffed segs) = S (length (joined segs)).
Proof.
  induction segs as [|s segs IH]; [done|]. intros _. destruct segs as [|s' segs].
  - simpl. by rewrite !app_nil_r.
  - rewrite joined_cons by done. unfold stuffed in *. rewrite fmap_cons, concat_cons.
    rewrite length_app, IH by done. rewrite length_app. unfold block. cbn [length]. lia.
Qed.

Lemma stuffed_cons s segs : stuffed (s :: segs) = Z.of_nat (S (length s)) :: s ++ stuffed segs.
Proof. done. Qed.

Lemma stuffed_nonzero segs : Forall nonzero segs → nonzero (stuffed segs).
Proof.
  induction 1 as [|s segs Hs _ IH]; [constructor|]. rewrite stuffed_cons.
  constructor; [lia|]. by apply Forall_app.
Qed.

(** Every segment is shorter than the whole. *)
Lemma segment_length segs s : s ∈ segs → (length s < length (stuffed segs))%nat.
Proof.
  induction segs as [|s' segs IH]; intros Hs; [by apply elem_of_nil in Hs|].
  rewrite stuffed_cons. simpl. rewrite length_app. apply elem_of_cons in Hs as [->|Hs]; [lia|].
  apply IH in Hs. lia.
Qed.

(** ** The encoder *)

Lemma upd_app_here a x b v : upd (a ++ x :: b) (length a) v = a ++ v :: b.
Proof. unfold upd. rewrite insert_app_r_alt, Nat.sub_diag by lia. done. Qed.

Lemma drop_cons_rd (l : list Z) i r n v :
  take (S n) (drop i l) = v :: r → rd l i = v ∧ take n (drop (S i) l) = r.
Proof.
  intros E. assert (Hi : (i < length l)%nat).
  { destruct (decide (i < length l)%nat); [done|]. rewrite drop_ge in E by lia. done. }
  rewrite (drop_S l (rd l i)) in E by (by apply lookup_rd). simpl in E. by injection E.
Qed.

Definition writer (done : list Z) (x : Z) (p rest : list Z) : CobsWriter :=
  mkWriter (done ++ x :: p ++ rest) (length done) (length done + 1 + length p)
    (Z.of_nat (S (length p))).

Lemma closeBlock_writer cap done x p y rest :
  (length done + 1 + length p < cap)%nat →
  closeBlock cap (writer done x p (y :: rest)) = inl (writer (done ++ block p) y [] rest).
Proof.
  intros Hc. unfold closeBlock, writer. cbn [cw_output codeIndex writeIndex code].
  rewrite upd_app_here, (proj2 (Nat.leb_gt _ _)) by lia. f_equal.
  unfold block. f_equal; rewrite ?length_app; simpl; [|lia|lia].
  by rewrite <- app_assoc.
Qed.

Lemma encodeByte_writer cap v done x p y rest :
  is_u8 v → (length done + 1 + length p < cap)%nat → (length p < 253)%nat →
  cobsEncodeByte cap v (writer done x p (y :: rest))
  = inl (if v =? 0 then writer (done ++ block p) y [] rest else writer done x (p ++ [v]) rest).
Proof.
  intros Hv Hc Hp. unfold cobsEncodeByte. destruct (v =? 0).
  - cbn [writer codeIndex]. rewrite (proj2 (Nat.leb_gt _ _)) by lia. by apply closeBlock_writer.
  - cbn [writer writeIndex cw_output codeIndex code].
    rewrite (proj2 (Nat.leb_gt _ _)) by lia.
    assert (Hcode : u8 (Z.of_nat (S (length p)) + 1) = Z.of_nat (S (length (p ++ [v])))).
    { rewrite length_app. simpl. rewrite wrap_small; [lia|]. uint_unfold. lia. }
    rewrite Hcode, (proj2 (Z.eqb_neq _ 255)) by (rewrite length_app; simpl; lia).
    unfold writer. do 2 f_equal; [|rewrite length_app; simpl; lia].
    replace (length done + 1 + length p)%nat with (length (done ++ x :: p))
      by (rewrite length_app; simpl; lia).
    rewrite app_comm_cons, app_assoc, upd_app_here. by rewrite <- !app_assoc.
Qed.

Lemma encodeLoop_writer cap input r i done x p rest :
  is_byte_list r → take (length r) (drop i input) = r →
  (length done + 1 + length p + length r ≤ cap)%nat → (length p + length r ≤ 253)%nat →
  (length r ≤ length rest)%nat →
  ∃ w, cobsEncodeLoop cap input (length r) i (writer done x p rest) = inl w
    ∧ (codeIndex w < cap)%nat
    ∧ upd (cw_output w) (codeIndex w) (code w)
      = done ++ stuffed (segments p r) ++ drop (length r) rest
    ∧ writeIndex w = (length done + length (stuffed (segments p r)))%nat.
Proof.
  revert i done x p rest. induction r as [|v r IH]; intros i done x p rest Hb Hin Hcap Hp Hrest.
  - exists (writer done x p rest). split; [done|]. cbn [writer cw_output codeIndex code writeIndex].
    split; [simpl in Hcap; lia|]. simpl. rewrite drop_0, upd_app_here. unfold stuffed. simpl.
    rewrite !app_nil_r. split; [done|lia].
  - simpl in *. apply Forall_cons in Hb as [Hv Hb]. apply drop_cons_rd in Hin as [-> Hin].
    destruct rest as [|y rest]; simpl in Hrest; [lia|].
    rewrite encodeByte_writer by (done || lia). destruct (v =? 0) eqn:E.
    + destruct (IH (S i) (done ++ block p) y [] rest) as (w & Hw & Hc & Hu & Hl);
        [done|done|rewrite length_app; unfold block; simpl; lia|simpl; lia|lia|].
      exists w. split; [done|]. split; [done|]. rewrite stuffed_cons, Hu, Hl.
      unfold block. rewrite <- app_assoc. simpl. rewrite <- app_assoc. split; [done|].
      rewrite !length_app. simpl. lia.
    + destruct (IH (S i) done x (p ++ [v]) rest) as (w & Hw & Hc & Hu & Hl);
        [done|done|rewrite length_app; simpl; lia|rewrite length_app; simpl; lia|lia|].
      by exists w.
Qed.

(** The encoder stuffs its input. *)
Lemma cobsEncode_spec input n out cap :
  is_byte_list (take n input) → (n ≤ length input)%nat → (n ≤ MAX_DECODED_FRAME_SIZE)%nat →
  (n < cap)%nat → (cap ≤ length out)%nat →
  let s := stuffed (segments [] (take n input)) in
  cobsEncode (Some input) n (Some out) cap = (COBS_OK, Some (s ++ drop (length s) out), length s).
Proof.
  intros Hb Hn Hmax Hcap Hout s. unfold cobsEncode.
  rewrite (proj2 (Nat.ltb_ge _ _)) by done. rewrite (proj2 (Nat.eqb_neq _ _)) by lia.
  destruct out as [|x out]; simpl in Hout; [lia|]. assert (Hl : length (take n input) = n) by len.
  destruct (encodeLoop_writer cap input (take n input) 0 [] x [] out) as (w & Hw & Hc & Hu & Hwr);
    [done|by rewrite Hl|simpl; lia|unfold MAX_DECODED_FRAME_SIZE in *; simpl; lia|lia|].
  rewrite Hl in Hw. change (writer [] x [] out) with (mkWriter (x :: out) 0 1 1) in Hw. rewrite Hw.
  rewrite (proj2 (Nat.leb_gt _ _)) by done. rewrite Hu, Hwr. simpl. fold s.
  assert (Hs : length s = S n).
  { unfold s. rewrite length_joined, joined_segments by apply segments_nonempty. simpl. by f_equal. }
  rewrite Hs, Hl. done.
Qed.

(** ** The decoder *)

Lemma copyBlock_spec input n i out w :
  copyBlock input n i out w = (true, copy_bytes n out w input i) ∧ nonzero (rd input <$> seq i n)
  ∨ ¬ nonzero (rd input <$> seq i n) ∧ (copyBlock input n i out w).1 = false.
Proof.
  revert i out w. induction n as [|n IH]; intros i out w; simpl; [left; split; [done|constructor]|].
  destruct (Z.eqb_spec (rd input i) 0) as [E|E].
  - right. split; [|done]. by intros [? _]%Forall_cons.
  - destruct (IH (S i) (upd out w (rd input i)) (S w)) as [[-> Hz]|[Hz Hf]]; [left|right].
    + split; [done|]. by constructor.
    + split; [|done]. by intros [_ ?]%Forall_cons.
Qed.

Lemma rd_seq (l : list Z) i n : (i + n ≤ length l)%nat → rd l <$> seq i n = take n (drop i l).
Proof.
  revert i. induction n as [|n IH]; intros i Hi; simpl; [done|].
  rewrite (drop_S l (rd l i)) by (apply lookup_rd; lia). simpl. f_equal. apply IH. lia.
Qed.

(** A block copied to the end of what is decoded so far. *)
Lemma copy_block_here input n pre s post (acc room : list Z) :
  n = length s → input = pre ++ s ++ post → (n ≤ length room)%nat →
  copy_bytes n (acc ++ room) (length acc) input (length pre) = (acc ++ s) ++ drop n room.
Proof.
  intros -> -> Hr. rewrite copy_bytes_spec; [|rewrite length_app; lia|rewrite !length_app; lia].
  rewrite take_app_length, drop_app_length, take_app_length, <- app_assoc. do 2 f_equal.
  rewrite drop_app_ge by lia. f_equal. lia.
Qed.

Lemma decodeLoop_end turns input n i out cap w :
  (n ≤ i)%nat → cobsDecodeLoop turns input n i out cap w = (COBS_OK, out, w).
Proof. intros Hi. destruct turns; simpl; [done|]. by rewrite (proj2 (Nat.leb_le _ _)). Qed.

(** One turn over a block: it is copied, and followed by a zero if more comes. *)
Lemma decodeLoop_block turns pre s post (acc room : list Z) cap :
  nonzero s → (length s < 254)%nat → (length acc + length s ≤ cap)%nat →
  (cap ≤ length acc + length room)%nat →
  let input := pre ++ block s ++ post in
  cobsDecodeLoop (S turns) input (length input) (length pre) (acc ++ room) cap (length acc)
  = match post with
    | [] => (COBS_OK, (acc ++ s) ++ drop (length s) room, length (acc ++ s))
    | _ =>
        if (cap <=? length (acc ++ s))%nat
        then (COBS_OUTPUT_TOO_SMALL, (acc ++ s) ++ drop (length s) room, O) else
        cobsDecodeLoop turns input (length input) (length (pre ++ block s))
          ((acc ++ s ++ [0]) ++ drop (S (length s)) room) cap (length (acc ++ s ++ [0]))
    end.
Proof.
  intros Hs Hlen Hcap Hroom input. cbn [cobsDecodeLoop]. set (c := Z.of_nat (S (length s))).
  assert (Hin : input = (pre ++ [c]) ++ s ++ post) by (unfold input; by rewrite <- app_assoc).
  assert (Hli : length input = (length pre + 1 + length s + length post)%nat) by (rewrite Hin; len).
  assert (Hrd : rd input (length pre) = c).
  { rewrite Hin, <- app_assoc. unfold rd. by rewrite app_nth2, Nat.sub_diag by lia. }
  rewrite (proj2 (Nat.leb_gt _ _)) by lia. rewrite Hrd, (proj2 (Z.eqb_neq c 0)) by lia.
  replace (Z.to_nat (c - 1)) with (length s) by lia.
  rewrite (proj2 (Nat.ltb_ge _ _)) by lia. rewrite (proj2 (Nat.ltb_ge _ _)) by lia.
  replace (S (length pre)) with (length (pre ++ [c])) by len.
  destruct (copyBlock_spec input (length s) (length (pre ++ [c])) (acc ++ room) (length acc))
    as [[-> _]|[Hz _]].
  2:{ destruct Hz. rewrite rd_seq by (rewrite Hin; len). by rewrite Hin, drop_app_length, take_app_length. }
  rewrite (copy_block_here input (length s) _ s post) by (done || lia).
  rewrite (proj2 (Z.eqb_neq c 255)) by lia. bsimp. destruct post as [|y post].
  - rewrite (proj2 (Nat.ltb_ge _ _)) by len. rewrite decodeLoop_end by len. by rewrite length_app.
  - rewrite (proj2 (Nat.ltb_lt _ _)) by len. rewrite <- length_app.
    destruct (Nat.leb_spec cap (length (acc ++ s))) as [?|Hc]; [done|]. rewrite length_app in Hc.
    destruct (drop (length s) room) as [|x room'] eqn:Er.
    { apply (f_equal length) in Er. rewrite length_drop in Er. simpl in Er. lia. }
    assert (Er' : drop (S (length s)) room = room').
    { replace (S (length s)) with (length s + 1)%nat by lia. by rewrite <- drop_drop, Er. }
    rewrite upd_app_here, Er'. unfold block. f_equal; [len|by rewrite <- !app_assoc|len].
Qed.

(** A stuffed string is decoded. *)
Lemma decodeLoop_stuffed turns segs pre (acc room : list Z) cap :
  segs ≠ [] → Forall nonzero segs → Forall (λ s, (length s < 254)%nat) segs →
  (length segs ≤ turns)%nat → (length acc + length (joined segs) ≤ cap)%nat →
  (cap ≤ length acc + length room)%nat →
  let input := pre ++ stuffed segs in
  cobsDecodeLoop turns input (length input) (length pre) (acc ++ room) cap (length acc)
  = (COBS_OK, (acc ++ joined segs) ++ drop (length (joined segs)) room,
     length (acc ++ joined segs)).
Proof.
  revert turns pre acc room. induction segs as [|s segs IH]; [done|].
  intros turns pre acc room _ [Hs Hsegs]%Forall_cons [Hlen Hlens]%Forall_cons Hturns Hcap Hroom input.
  destruct turns as [|turns]; simpl in Hturns; [lia|]. unfold input. rewrite stuffed_cons.
  change (Z.of_nat _ :: s ++ stuffed segs) with (block s ++ stuffed segs).
  destruct segs as [|s' segs'].
  - assert (Ej : joined [s] = s) by apply app_nil_r. rewrite Ej in *.
    change (stuffed []) with (@nil Z). by rewrite (decodeLoop_block turns pre s []).
  - set (rest := s' :: segs') in *. rewrite joined_cons in * by done.
    rewrite length_app in Hcap. cbn [length] in Hcap.
    rewrite (decodeLoop_block turns pre s (stuffed rest)) by (done || lia).
    destruct (stuffed rest) as [|x post] eqn:Ex in |- *; [done|]. rewrite <- Ex, app_assoc.
    rewrite (proj2 (Nat.leb_gt _ _)) by len.
    rewrite IH by (done || (rewrite ?length_app, ?length_drop; cbn [length]; lia)).
    assert (Ej : (acc ++ s ++ [0]) ++ joined rest = acc ++ s ++ 0 :: joined rest)
      by (by rewrite <- !app_assoc).
    rewrite Ej, drop_drop. replace (S (length s) + length (joined rest))%nat
      with (length (s ++ 0 :: joined rest)) by (rewrite length_app; cbn [length]; lia). done.
Qed.

(** What is decoded is a stuffed string. *)
Lemma decodeLoop_inv turns input i out cap w out' w' :
  is_byte_list input → (length input ≤ 139)%nat → (length input ≤ i + turns)%nat →
  (i < length input)%nat →
  cobsDecodeLoop turns input (length input) i out cap w = (COBS_OK, out', w') →
  ∃ segs, segs ≠ [] ∧ Forall nonzero segs ∧ drop i input = stuffed segs.
Proof.
  intros Hb Hmax. revert i out w. induction turns as [|turns IH]; intros i out w Ht Hi; simpl; [lia|].
  rewrite (proj2 (Nat.leb_gt _ _)) by done.
  pose proof (rd_byte input i Hb) as Hc. set (c := rd input i) in *.
  destruct (Z.eqb_spec c 0) as [|Hc0]; [done|]. set (n := Z.to_nat (c - 1)).
  destruct (Nat.ltb_spec (length input - S i) n); [done|].
  destruct (Nat.ltb_spec (cap - w) n); [done|].
  destruct (copyBlock_spec input n (S i) out w) as [[-> Hz]|[_ Hf]].
  2:{ destruct (copyBlock _ _ _ _ _) as [ok o]. simpl in Hf. by rewrite Hf. }
  rewrite rd_seq in Hz by lia. set (s := take n (drop (S i) input)) in *.
  assert (Hdrop : drop i input = block s ++ drop (S i + n) input).
  { rewrite (drop_S input c i) by (by apply lookup_rd). unfold block.
    assert (Hls : length s = n) by (unfold s; len).
    replace (Z.of_nat (S (length s))) with c by (unfold is_uint in Hc; lia).
    unfold s. rewrite <- app_comm_cons. f_equal. rewrite <- (drop_drop input n (S i)).
    symmetry. apply take_drop. }
  assert (H255 : c ≠ 255) by lia. rewrite (proj2 (Z.eqb_neq c 255)) by done. bsimp.
  destruct (Nat.ltb_spec (S (i + n)) (length input)) as [Hmore|Hend].
  - destruct (_ <=? _)%nat; [done|]. intros (segs & Hne & Hnz & E)%IH; [|lia..].
    exists (s :: segs). split; [done|]. split; [by constructor|].
    rewrite Hdrop. change (S i + n)%nat with (S (i + n)). by rewrite E.
  - intros _. exists [s]. split; [done|]. split; [by repeat constructor|].
    by rewrite Hdrop, drop_ge by lia.
Qed.

(** The decoder reads its input up to its length, whatever follows. *)
Lemma rd_prefix (l t : list Z) i : (i < length l)%nat → rd (l ++ t) i = rd l i.
Proof. intros. unfold rd. by rewrite app_nth1. Qed.

Lemma copyBlock_prefix l t n i out w :
  (i + n ≤ length l)%nat → copyBlock (l ++ t) n i out w = copyBlock l n i out w.
Proof.
  revert i out w. induction n as [|n IH]; intros i out w Hi; simpl; [done|].
  rewrite rd_prefix by lia. destruct (_ =? 0); [done|]. apply IH. lia.
Qed.

Lemma decodeLoop_prefix turns l t i out cap w :
  cobsDecodeLoop turns (l ++ t) (length l) i out cap w
  = cobsDecodeLoop turns l (length l) i out cap w.
Proof.
  revert i out w. induction turns as [|turns IH]; intros i out w; cbn [cobsDecodeLoop]; [done|].
  destruct (Nat.leb_spec (length l) i); [done|]. rewrite rd_prefix by done.
  destruct (_ =? 0); [done|]. destruct (Nat.ltb_spec (length l - S i) (Z.to_nat (rd l i - 1))); [done|].
  rewrite copyBlock_prefix by lia. destruct (_ <? _)%nat; [done|].
  destruct (copyBlock _ _ _ _ _) as [[] o]; [|done]. by rewrite !IH.
Qed.

Lemma cobsDecode_prefix l t out cap :
  cobsDecode (Some (l ++ t)) (length l) out cap = cobsDecode (Some l) (length l) out cap.
Proof. unfold cobsDecode. destruct out; [|done]. by rewrite decodeLoop_prefix. Qed.

Lemma cobsDecode_stuffed segs room :
  segs ≠ [] → Forall nonzero segs → (length (stuffed segs) ≤ 139)%nat → length room = 138%nat →
  cobsDecode (Some (stuffed segs)) (length (stuffed segs)) (Some room) 138
  = (COBS_OK, Some (joined segs ++ drop (length (joined segs)) room), length (joined segs)).
Proof.
  intros Hne Hnz Hlen Hroom. pose proof (length_joined segs Hne) as Hj. unfold cobsDecode.
  rewrite (proj2 (Nat.eqb_neq _ _)) by lia. rewrite (proj2 (Nat.ltb_ge _ _)) by (unfold MAX_COBS_CANDIDATE_SIZE; lia).
  assert (Hs : Forall (λ s, (length s < 254)%nat) segs).
  { apply Forall_forall. intros s Hs%segment_length. lia. }
  assert (Hn : (length segs ≤ length (stuffed segs))%nat).
  { clear. induction segs as [|s segs IH]; [simpl; lia|]. rewrite stuffed_cons. cbn [length].
    rewrite length_app. lia. }
  pose proof (decodeLoop_stuffed (length (stuffed segs)) segs [] [] room 138 Hne Hnz Hs Hn) as E.
  cbn zeta in E. cbn [length app] in E. rewrite E by lia. done.
Qed.

Lemma cobsDecode_inv l room room' n :
  is_byte_list l → cobsDecode (Some l) (length l) (Some room) 138 = (COBS_OK, room', n) →
  ∃ segs, segs ≠ [] ∧ Forall nonzero segs ∧ l = stuffed segs ∧ (length l ≤ 139)%nat.
Proof.
  intros Hb. unfold cobsDecode. destruct (Nat.eqb_spec (length l) 0); [done|].
  destruct (Nat.ltb_spec MAX_COBS_CANDIDATE_SIZE (length l)) as [|Hl]; [done|].
  destruct (cobsDecodeLoop _ _ _ _ _ _ _) as [[r o] k] eqn:E. intros [= -> <- <-].
  unfold MAX_COBS_CANDIDATE_SIZE in Hl. apply decodeLoop_inv in E; [|done|lia|lia|lia].
  destruct E as (segs & ? & ? & E). rewrite drop_0 in E. eauto.
Qed.

(** ** Frames *)

Definition frame_wf (f : Frame) : Prop :=
  is_u8 (major f) ∧ is_u8 (minor f) ∧ is_u8 (messageType f) ∧ is_u8 (flags f)
  ∧ is_u16 (requestId f) ∧ is_u16 (payloadLength f)
  ∧ length (payload f) = 128%nat ∧ is_byte_list (payload f).

(** What the link carries: a frame of known vocabulary, with nothing past its
    payload. *)
Definition frame_valid (f : Frame) : Prop :=
  payloadLength f ≤ 128 ∧ vocabulary f = DECODE_OK
  ∧ all_zero (drop (Z.to_nat (payloadLength f)) (payload f)) = true.

Definition bodyBytes (f : Frame) : list Z :=
  [major f; minor f; messageType f; flags f] ++ le16 (requestId f) ++ le16 (payloadLength f)
  ++ take (Z.to_nat (payloadLength f)) (payload f).

Definition crcOf (l : list Z) : Z := crc16CcittFalse (Some l) (length l).

Definition plain (f : Frame) : list Z := bodyBytes f ++ le16 (crcOf (bodyBytes f)).

(** The bytes of a frame on the link. *)
Definition wire (f : Frame) : list Z := stuffed (segments [] (plain f)) ++ [FRAME_DELIMITER].

Lemma crc16Bit_range c : is_u16 (crc16Bit c).
Proof. unfold crc16Bit. destruct (negb _); apply u16_range. Qed.

Lemma crc16Byte_range c b : is_u16 (crc16Byte c b).
Proof. unfold crc16Byte. simpl. apply crc16Bit_range. Qed.

Lemma crc16Loop_range l n i c : is_u16 c → is_u16 (crc16Loop l n i c).
Proof.
  revert i c. induction n as [|n IH]; intros i c Hc; simpl; [done|]. apply IH, crc16Byte_range.
Qed.

Lemma frameCrc_range l : is_u16 (crcOf l).
Proof. apply crc16Loop_range. unfold CRC16_CCITT_FALSE_INITIAL. uint. Qed.

Lemma crc16Loop_prefix n i l t c :
  (i + n ≤ length l)%nat → crc16Loop (l ++ t) n i c = crc16Loop l n i c.
Proof.
  revert i c. induction n as [|n IH]; intros i c Hi; simpl; [done|].
  rewrite IH by lia. unfold rd. by rewrite app_nth1 by lia.
Qed.

Lemma crc_prefix l t n : n = length l → crc16CcittFalse (Some (l ++ t)) n = crcOf l.
Proof. intros ->. unfold crcOf, crc16CcittFalse. by rewrite crc16Loop_prefix by lia. Qed.

Lemma length_bodyBytes f :
  frame_wf f → payloadLength f ≤ 128 → length (bodyBytes f) = (8 + Z.to_nat (payloadLength f))%nat.
Proof. intros (_ & _ & _ & _ & _ & [Hp _] & Hl & _) Hn. unfold bodyBytes. simpl. len. Qed.

Lemma bodyBytes_byte f : frame_wf f → is_byte_list (bodyBytes f).
Proof. intros (? & ? & ? & ? & _ & _ & _ & ?). unfold bodyBytes. bytes. Qed.

Lemma plain_byte f : frame_wf f → is_byte_list (plain f).
Proof. intros. unfold plain. apply byte_app; [by apply bodyBytes_byte|apply le16_byte]. Qed.

(** Two bytes written over an exact split of the buffer. *)
Lemma upd2_split (a c : list Z) x y b0 b1 :
  upd (upd (a ++ x :: y :: c) (length a) b0) (length a + 1) b1 = a ++ b0 :: b1 :: c.
Proof.
  rewrite upd_app_here. replace (length a + 1)%nat with (length (a ++ [b0])) by len.
  change (a ++ b0 :: y :: c) with (a ++ [b0] ++ y :: c). rewrite app_assoc, upd_app_here.
  by rewrite <- app_assoc.
Qed.

Lemma zeros_app n m : zeros (n + m) = zeros n ++ zeros m.
Proof. apply replicate_add. Qed.

Lemma plainFrame_spec f :
  frame_wf f → payloadLength f ≤ 128 →
  plainFrame f = plain f ++ zeros (128 - Z.to_nat (payloadLength f)).
Proof.
  intros Hw Hn. pose proof (length_bodyBytes f Hw Hn) as Hlb.
  destruct Hw as (_ & _ & _ & _ & _ & [Hp _] & Hl & _). unfold plainFrame.
  set (n := Z.to_nat (payloadLength f)) in *. assert (Hn' : (n ≤ 128)%nat) by lia.
  assert (Hbuf : copy_bytes n
    (upd (upd (upd (upd (upd (upd (upd (upd (zeros MAX_DECODED_FRAME_SIZE) 0 (major f)) 1 (minor f)) 2
      (messageType f)) 3 (flags f)) 4 (u8 (requestId f))) 5 (u8 (Z.shiftr (requestId f) 8))) 6
      (u8 (payloadLength f))) 7 (u8 (Z.shiftr (payloadLength f) 8)))
    DECODED_HEADER_SIZE (payload f) 0 = bodyBytes f ++ 0 :: 0 :: zeros (128 - n)).
  { rewrite copy_bytes_spec; first last.
    { lia. } { rewrite !length_upd, length_zeros. unfold DECODED_HEADER_SIZE, MAX_DECODED_FRAME_SIZE. lia. }
    rewrite drop_0.
    replace (0 :: 0 :: zeros (128 - n)) with (zeros (130 - n))
      by (replace (130 - n)%nat with (S (S (128 - n))) by lia; done).
    change (zeros MAX_DECODED_FRAME_SIZE) with ([0;0;0;0;0;0;0;0] ++ zeros 130).
    unfold upd. simpl. do 8 f_equal. unfold DECODED_HEADER_SIZE. simpl. f_equal.
    unfold zeros. by rewrite drop_replicate. }
  change (DECODED_HEADER_SIZE + n)%nat with (8 + n)%nat. rewrite Hbuf, <- Hlb, crc_prefix by done. rewrite upd2_split. unfold plain.
  by rewrite <- app_assoc.
Qed.

Lemma length_plain f :
  frame_wf f → payloadLength f ≤ 128 → length (plain f) = (10 + Z.to_nat (payloadLength f))%nat.
Proof. intros. unfold plain. rewrite length_app, length_bodyBytes by done. simpl. lia. Qed.

Lemma length_wire f :
  frame_wf f → payloadLength f ≤ 128 → length (wire f) = (12 + Z.to_nat (payloadLength f))%nat.
Proof.
  intros. unfold wire. rewrite length_app, length_joined, joined_segments by apply segments_nonempty.
  change ([] ++ plain f) with (plain f). rewrite length_plain by done. cbn [length]. lia.
Qed.

(** Zero is the last byte of a frame, and no other. *)
Lemma wire_delimited f : ∃ c, wire f = c ++ [0] ∧ nonzero c ∧ c ≠ [].
Proof.
  exists (stuffed (segments [] (plain f))). split; [done|]. split.
  - apply stuffed_nonzero, segments_nonzero. constructor.
  - intros E. apply (f_equal length) in E. by rewrite length_joined in E by apply segments_nonempty.
Qed.

Lemma vocabulary_ok f :
  vocabulary f = DECODE_OK ↔
  isSupportedVersion (major f) (minor f) = true ∧ isKnownMessageType (messageType f) = true
  ∧ hasSupportedFlags (flags f) = true
  ∧ isValidEnvelopeRequestId (messageType f) (requestId f) = true.
Proof.
  unfold vocabulary, isSupportedVersion. rewrite !andb_true_iff, !Z.leb_le.
  destruct (Z.eqb_spec (major f) VERSION_MAJOR); bsimp; [|naive_solver].
  destruct (Z.ltb_spec (minor f) MIN_SUPPORTED_MINOR); bsimp; [naive_solver lia|].
  destruct (Z.ltb_spec MAX_SUPPORTED_MINOR (minor f)); bsimp; [naive_solver lia|].
  destruct (isKnownMessageType (messageType f)); bsimp; [|naive_solver].
  destruct (hasSupportedFlags (flags f)); bsimp; [|naive_solver].
  destruct (isValidEnvelopeRequestId (messageType f) (requestId f)); bsimp; naive_solver.
Qed.

(** A valid frame is encoded whenever its bytes fit. *)
Lemma encodeFrame_spec f out cap :
  frame_wf f → payloadLength f ≤ 128 → vocabulary f = DECODE_OK →
  (length (wire f) ≤ cap)%nat → (cap ≤ length out)%nat →
  encodeFrame f (Some out) cap
  = (ENCODE_OK, Some (wire f ++ drop (length (wire f)) out), length (wire f)).
Proof.
  intros Hw Hn (Hver & Hty & Hfl & Hid)%vocabulary_ok Hcap Hout. rewrite length_wire in * by done.
  unfold encodeFrame. rewrite (proj2 (Z.ltb_ge _ _)) by (unfold MAX_PAYLOAD_SIZE; lia).
  rewrite Hver, Hty, Hfl, Hid. bsimp. rewrite (proj2 (Nat.eqb_neq _ _)) by lia.
  assert (Ht : take (MIN_DECODED_FRAME_SIZE + Z.to_nat (payloadLength f)) (plainFrame f) = plain f).
  { rewrite plainFrame_spec by done. unfold MIN_DECODED_FRAME_SIZE.
    rewrite <- (length_plain f) by done. apply take_app_length. }
  pose proof (cobsEncode_spec (plainFrame f) (MIN_DECODED_FRAME_SIZE + Z.to_nat (payloadLength f))
    out (cap - 1)) as E. rewrite Ht in E. cbn zeta in E. rewrite E; clear E; first last.
  { lia. } { unfold MIN_DECODED_FRAME_SIZE. lia. }
  { unfold MIN_DECODED_FRAME_SIZE, MAX_DECODED_FRAME_SIZE. lia. }
  { rewrite plainFrame_spec, length_app, length_plain by done. unfold MIN_DECODED_FRAME_SIZE. lia. }
  { by apply plain_byte. }
  set (s := stuffed (segments [] (plain f))).
  assert (Hs : length s = (11 + Z.to_nat (payloadLength f))%nat).
  { pose proof (length_wire f Hw Hn) as Hl. unfold wire in Hl. fold s in Hl.
    rewrite length_app in Hl. simpl in Hl. lia. }
  rewrite (proj2 (Nat.leb_gt _ _)) by lia. rewrite Hs. f_equal. do 2 f_equal.
  destruct (drop (11 + Z.to_nat (payloadLength f)) out) as [|y rest] eqn:Er.
  { apply (f_equal length) in Er. rewrite length_drop in Er. simpl in Er. lia. }
  assert (Er' : drop (12 + Z.to_nat (payloadLength f)) out = rest).
  { replace (12 + Z.to_nat (payloadLength f))%nat with (11 + Z.to_nat (payloadLength f) + 1)%nat by lia.
    by rewrite <- drop_drop, Er. }
  rewrite Er', <- Hs, upd_app_here. unfold wire. fold s. by rewrite <- app_assoc.
Qed.

(** A decoded buffer: eight header bytes, a payload, a CRC, and slack. *)
Definition buffer x0 x1 x2 x3 x4 x5 x6 x7 (q : list Z) c0 c1 (z : list Z) : list Z :=
  [x0; x1; x2; x3; x4; x5; x6; x7] ++ q ++ c0 :: c1 :: z.

Lemma read16_at (a z : list Z) b0 b1 n :
  n = length a → read16 (a ++ b0 :: b1 :: z) n = Z.lor b0 (Z.shiftl b1 8).
Proof.
  intros ->. unfold read16, rd. rewrite !app_nth2 by lia.
  replace (length a - length a)%nat with 0%nat by lia.
  by replace (length a + 1 - length a)%nat with 1%nat by lia.
Qed.

Lemma candidateFrame_buffer x0 x1 x2 x3 x4 x5 x6 x7 q c0 c1 z :
  Z.lor x6 (Z.shiftl x7 8) = Z.of_nat (length q) → (length q ≤ 128)%nat →
  candidateFrame (buffer x0 x1 x2 x3 x4 x5 x6 x7 q c0 c1 z)
  = mkFrame x0 x1 x2 x3 (Z.lor x4 (Z.shiftl x5 8)) (Z.of_nat (length q)) (q ++ zeros (128 - length q)).
Proof.
  intros Hn Hq. unfold candidateFrame.
  change (read16 (buffer _ _ _ _ _ _ _ _ _ _ _ _) 6) with (Z.lor x6 (Z.shiftl x7 8)). rewrite Hn.
  change (read16 (buffer _ _ _ _ _ _ _ _ _ _ _ _) 4) with (Z.lor x4 (Z.shiftl x5 8)).
  f_equal. rewrite Nat2Z.id, copy_bytes_spec; first last.
  { unfold DECODED_HEADER_SIZE, buffer. rewrite !length_app. cbn [length]. lia. }
  { rewrite length_zeros. unfold MAX_PAYLOAD_SIZE. lia. }
  unfold buffer. change DECODED_HEADER_SIZE with (length [x0; x1; x2; x3; x4; x5; x6; x7]).
  rewrite drop_app_length, take_app_length. unfold zeros, MAX_PAYLOAD_SIZE. by rewrite drop_replicate.
Qed.

Lemma integrity_buffer x0 x1 x2 x3 x4 x5 x6 x7 q c0 c1 z :
  is_u8 x6 → is_u8 x7 → (length q ≤ 128)%nat →
  integrity (buffer x0 x1 x2 x3 x4 x5 x6 x7 q c0 c1 z) (10 + length q) = DECODE_OK ↔
  Z.lor x6 (Z.shiftl x7 8) = Z.of_nat (length q)
  ∧ crcOf ([x0; x1; x2; x3; x4; x5; x6; x7] ++ q) = Z.lor c0 (Z.shiftl c1 8).
Proof.
  intros H6 H7 Hq. unfold integrity.
  rewrite (proj2 (Nat.ltb_ge _ _)) by (unfold MIN_DECODED_FRAME_SIZE; lia).
  rewrite (proj2 (Nat.ltb_ge _ _)) by (unfold MAX_DECODED_FRAME_SIZE; lia). bsimp.
  change (read16 (buffer _ _ _ _ _ _ _ _ _ _ _ _) 6) with (Z.lor x6 (Z.shiftl x7 8)).
  set (n := Z.lor x6 (Z.shiftl x7 8)).
  destruct (Z.ltb_spec (Z.of_nat MAX_PAYLOAD_SIZE) n) as [Hbig|_].
  { split; [done|]. unfold MAX_PAYLOAD_SIZE in Hbig. lia. }
  destruct (Nat.eqb_spec (10 + length q) (MIN_DECODED_FRAME_SIZE + Z.to_nat n)) as [E|E]; bsimp.
  2:{ split; [done|]. intros [-> _]. rewrite Nat2Z.id in E. done. }
  assert (En : Z.to_nat n = length q) by (unfold MIN_DECODED_FRAME_SIZE in E; lia). rewrite En.
  assert (Eb : buffer x0 x1 x2 x3 x4 x5 x6 x7 q c0 c1 z
    = ([x0; x1; x2; x3; x4; x5; x6; x7] ++ q) ++ c0 :: c1 :: z) by (unfold buffer; by rewrite app_assoc).
  rewrite Eb, crc_prefix, read16_at by (rewrite length_app; done).
  destruct (Z.eqb_spec (crcOf ([x0; x1; x2; x3; x4; x5; x6; x7] ++ q)) (Z.lor c0 (Z.shiftl c1 8)));
    bsimp; [|naive_solver].
  pose proof (word16_range x6 x7 H6 H7) as [Hn0 _]. fold n in Hn0.
  split; [|done]. intros _. split; [lia|done].
Qed.

Lemma zero_tail n q : (length q ≤ n)%nat → all_zero (drop (length q) (q ++ zeros (n - length q))) = true.
Proof. intros. rewrite drop_app_length. apply all_zero_spec. by rewrite length_zeros. Qed.

(** The frame read from a buffer whose checks pass is the one whose plain bytes
    are there. *)
Lemma buffer_frame x0 x1 x2 x3 x4 x5 x6 x7 q c0 c1 :
  is_byte_list (buffer x0 x1 x2 x3 x4 x5 x6 x7 q c0 c1 []) → (length q ≤ 128)%nat →
  Z.lor x6 (Z.shiftl x7 8) = Z.of_nat (length q) →
  crcOf ([x0; x1; x2; x3; x4; x5; x6; x7] ++ q) = Z.lor c0 (Z.shiftl c1 8) →
  let f := mkFrame x0 x1 x2 x3 (Z.lor x4 (Z.shiftl x5 8)) (Z.of_nat (length q))
             (q ++ zeros (128 - length q)) in
  frame_wf f ∧ payloadLength f ≤ 128
  ∧ all_zero (drop (Z.to_nat (payloadLength f)) (payload f)) = true
  ∧ buffer x0 x1 x2 x3 x4 x5 x6 x7 q c0 c1 [] = plain f.
Proof.
  intros Hb Hq Hlen Hcrc f. unfold buffer in Hb.
  apply Forall_app in Hb as [Hh Hb]. apply Forall_app in Hb as [Hqb Hc].
  repeat match goal with Hx : Forall _ (_ :: _) |- _ => apply Forall_cons in Hx as [? Hx] end.
  assert (Hw : frame_wf f).
  { unfold frame_wf, f. cbn [major minor messageType flags requestId payloadLength payload].
    repeat (split; [by first [assumption|apply word16_range]|]).
    split; [uint|]. rewrite length_app, length_zeros. split; [lia|bytes]. }
  split; [done|]. unfold f at 1 2 3. cbn [payloadLength payload]. rewrite Nat2Z.id.
  split; [lia|]. split; [by apply zero_tail|]. unfold plain, bodyBytes, f.
  cbn [major minor messageType flags requestId payloadLength payload].
  rewrite Nat2Z.id, take_app_length, <- Hlen, !le16_word by done.
  change ([x0; x1; x2; x3] ++ [x4; x5] ++ [x6; x7] ++ q) with ([x0; x1; x2; x3; x4; x5; x6; x7] ++ q).
  rewrite Hcrc, le16_word by done. unfold buffer. by rewrite <- app_assoc.
Qed.

Lemma split_plain (l : list Z) n :
  length l = (10 + n)%nat →
  ∃ x0 x1 x2 x3 x4 x5 x6 x7 q c0 c1,
    l = buffer x0 x1 x2 x3 x4 x5 x6 x7 q c0 c1 [] ∧ length q = n.
Proof.
  intros Hl. destruct l as [|x0 [|x1 [|x2 [|x3 [|x4 [|x5 [|x6 [|x7 l]]]]]]]]; simpl in Hl; try lia.
  assert (Hd : length (drop n l) = 2%nat) by (rewrite length_drop; lia).
  destruct (drop n l) as [|c0 [|c1 [|]]] eqn:E; simpl in Hd; try lia.
  exists x0, x1, x2, x3, x4, x5, x6, x7, (take n l), c0, c1. split; [|len].
  unfold buffer. by rewrite <- E, take_drop.
Qed.

Lemma joined_stuffed_byte segs :
  is_byte_list (stuffed segs) → is_byte_list (joined segs).
Proof.
  induction segs as [|s segs IH]; [done|]. rewrite stuffed_cons.
  intros [_ [Hs Hb]%Forall_app]%Forall_cons. destruct segs as [|s' segs].
  - simpl. by rewrite app_nil_r.
  - rewrite joined_cons by done. apply byte_app; [done|]. apply byte_cons; [uint|]. by apply IH.
Qed.

(** Bytes that decode are the bytes of the frame they decode to. *)
Lemma decodeFrame_inv b f0 f :
  is_byte_list b → decodeFrame (Some b) (length b) f0 = (DECODE_OK, f) →
  frame_wf f ∧ frame_valid f ∧ b = wire f.
Proof.
  intros Hb. unfold decodeFrame. destruct (Nat.eqb_spec (length b) 0); [done|].
  destruct (Nat.ltb_spec MAX_ENCODED_FRAME_SIZE (length b)) as [|Hmax]; [done|].
  destruct (Z.eqb_spec (rd b (length b - 1)) FRAME_DELIMITER) as [Hd|]; [|done]. bsimp.
  destruct (Nat.eqb_spec (length b - 1) 0); [done|].
  destruct (exists_last (l := b)) as (l & x & ->); [by destruct b|].
  rewrite length_app in *. cbn [length] in *. replace (length l + 1 - 1)%nat with (length l) in * by lia.
  assert (Ex : x = 0).
  { unfold rd in Hd. rewrite app_nth2, Nat.sub_diag in Hd by lia. done. }
  apply Forall_app in Hb as [Hb _]. subst x.
  rewrite cobsDecode_prefix. change MAX_DECODED_FRAME_SIZE with 138%nat.
  destruct (cobsDecode (Some l) (length l) (Some (zeros 138)) 138) as [[[] [decoded|]] k] eqn:Ec;
    try done.
  pose proof Ec as (segs & Hne & Hnz & -> & Hlen)%cobsDecode_inv; [|done].
  rewrite cobsDecode_stuffed in Ec by (done || apply length_zeros). injection Ec as <- <-.
  destruct (integrity _ _) eqn:Hi; try done. intros [= Hv <-].
  apply joined_stuffed_byte in Hb. apply length_joined in Hne as Hlj.
  destruct (decide (10 ≤ length (joined segs))%nat) as [Hmin|Hmin].
  2:{ unfold integrity in Hi. rewrite (proj2 (Nat.ltb_lt _ _)) in Hi; [done|]. unfold MIN_DECODED_FRAME_SIZE. lia. }
  destruct (split_plain (joined segs) (length (joined segs) - 10))
    as (x0 & x1 & x2 & x3 & x4 & x5 & x6 & x7 & q & c0 & c1 & Ej & Hq); [lia|].
  rewrite Ej in Hb. set (z := drop (length (joined segs)) (zeros 138)) in *.
  assert (Ez : joined segs ++ z = buffer x0 x1 x2 x3 x4 x5 x6 x7 q c0 c1 z)
    by (rewrite Ej; unfold buffer; by rewrite <- !app_assoc).
  rewrite Ez in *. replace (length (joined segs)) with (10 + length q)%nat in Hi by lia.
  assert (H67 : is_u8 x6 ∧ is_u8 x7) by (split; eapply (Forall_lookup_1 _ _ _ _ Hb); [instantiate (1 := 6%nat)|instantiate (1 := 7%nat)]; done).
  apply integrity_buffer in Hi as [Hlq Hcrc]; [|apply H67|apply H67|lia].
  rewrite candidateFrame_buffer in * by (done || lia).
  destruct (buffer_frame x0 x1 x2 x3 x4 x5 x6 x7 q c0 c1) as (Hw & Hpl & Hz & Hp); [done|lia|done..|].
  split; [done|]. split; [by split|]. unfold wire. f_equal.
  by rewrite <- Hp, <- Ej, segments_joined.
Qed.

(** The plain bytes of a frame, as a buffer. *)
Lemma plain_buffer f z :
  frame_wf f → payloadLength f ≤ 128 →
  plain f ++ z = buffer (major f) (minor f) (messageType f) (flags f) (u8 (requestId f))
    (u8 (Z.shiftr (requestId f) 8)) (u8 (payloadLength f)) (u8 (Z.shiftr (payloadLength f) 8))
    (take (Z.to_nat (payloadLength f)) (payload f)) (u8 (crcOf (bodyBytes f)))
    (u8 (Z.shiftr (crcOf (bodyBytes f)) 8)) z.
Proof. intros _ _. unfold plain, bodyBytes, buffer. by rewrite <- !app_assoc. Qed.

(** The bytes of a valid frame decode to it. *)
Lemma decodeFrame_wire f f0 :
  frame_wf f → frame_valid f → decodeFrame (Some (wire f)) (length (wire f)) f0 = (DECODE_OK, f).
Proof.
  intros Hw (Hn & Hv & Hz). pose proof (length_wire f Hw Hn) as Hlw. pose proof (length_plain f Hw Hn) as Hlp.
  unfold decodeFrame. rewrite (proj2 (Nat.eqb_neq _ _)) by lia.
  rewrite (proj2 (Nat.ltb_ge _ _)) by (unfold MAX_ENCODED_FRAME_SIZE; lia).
  assert (Hls : (length (wire f) - 1)%nat = length (stuffed (segments [] (plain f))))
    by (unfold wire; rewrite length_app; cbn [length]; lia).
  rewrite Hls. unfold wire at 1. unfold rd. rewrite app_nth2, Nat.sub_diag by lia. bsimp.
  rewrite Z.eqb_refl. bsimp. rewrite (proj2 (Nat.eqb_neq _ _)) by lia. unfold wire.
  rewrite cobsDecode_prefix. change MAX_DECODED_FRAME_SIZE with 138%nat.
  rewrite cobsDecode_stuffed; [|apply segments_nonempty|apply segments_nonzero; constructor|lia|apply length_zeros].
  rewrite joined_segments. change ([] ++ plain f) with (plain f).
  destruct Hw as (H0 & H1 & H2 & H3 & H4 & H5 & Hl & Hb). set (n := Z.to_nat (payloadLength f)) in *.
  assert (Hzn : Z.of_nat n = payloadLength f) by (apply Z2Nat.id, H5).
  assert (Hq : length (take n (payload f)) = n) by (rewrite length_take; lia).
  rewrite plain_buffer by done. fold n. set (z := drop _ (zeros 138)).
  replace (length (plain f)) with (10 + length (take n (payload f)))%nat by lia.
  assert (Hlq : Z.lor (u8 (payloadLength f)) (Z.shiftl (u8 (Z.shiftr (payloadLength f) 8)) 8)
    = Z.of_nat (length (take n (payload f)))) by (by rewrite word16_le, Hq, Hzn).
  match goal with |- context [integrity ?b ?k] => assert (Hi : integrity b k = DECODE_OK) end.
  { apply integrity_buffer; [apply u8_range|apply u8_range|lia|]. split; [done|].
    by rewrite word16_le by apply frameCrc_range. }
  rewrite Hi, candidateFrame_buffer by (done || lia). rewrite word16_le, Hq by done.
  assert (Hf : mkFrame (major f) (minor f) (messageType f) (flags f) (requestId f) (Z.of_nat n)
    (take n (payload f) ++ zeros (128 - n)) = f).
  { rewrite Hzn.
    apply all_zero_spec in Hz. fold n in Hz. rewrite length_drop, Hl in Hz.
    rewrite <- Hz, take_drop. by destruct f. }
  by rewrite Hf, Hv.
Qed.

(** A frame as encoded for the link, whose buffer is [MAX_ENCODED_FRAME_SIZE]
    long. *)
Definition encoded (f : Frame) : option (list Z) :=
  match encodeFrame f (Some (zeros MAX_ENCODED_FRAME_SIZE)) MAX_ENCODED_FRAME_SIZE with
  | (ENCODE_OK, Some out, n) => Some (take n out)
  | _ => None
  end.

Lemma encoded_wire f : frame_wf f → payloadLength f ≤ 128 → vocabulary f = DECODE_OK → encoded f = Some (wire f).
Proof.
  intros Hw Hn Hv. unfold encoded. pose proof (length_wire f Hw Hn).
  rewrite encodeFrame_spec by (done || rewrite ?length_zeros; unfold MAX_ENCODED_FRAME_SIZE; lia).
  by rewrite take_app_length.
Qed.

Lemma encoded_inv f b : encoded f = Some b → payloadLength f ≤ 128 ∧ vocabulary f = DECODE_OK.
Proof.
  unfold encoded, encodeFrame. destruct (Z.ltb_spec (Z.of_nat MAX_PAYLOAD_SIZE) (payloadLength f)) as [|Hn]; [done|].
  rewrite vocabulary_ok. destruct (isSupportedVersion _ _); [|done].
  destruct (isKnownMessageType _); [|done]. destruct (hasSupportedFlags _); [|done].
  destruct (isValidEnvelopeRequestId _ _); [|done]. unfold MAX_PAYLOAD_SIZE in Hn. intros _. split; [lia|done].
Qed.

(** The Host Protocol's frame codec.  A byte string decodes to a frame
    exactly when the frame's fields are in range, it has nothing past its
    payload, and it is encoded as that byte string; so every frame has one
    encoding, and no other bytes are taken for it. *)
Theorem frame_codec b f f0 :
  is_byte_list b →
  decodeFrame (Some b) (length b) f0 = (DECODE_OK, f) ↔
  frame_wf f ∧ all_zero (drop (Z.to_nat (payloadLength f)) (payload f)) = true
  ∧ encoded f = Some b.
Proof.
  intros Hb. split.
  - intros (Hw & (Hn & Hv & Hz) & ->)%decodeFrame_inv; [|done]. by rewrite encoded_wire.
  - intros (Hw & Hz & He). destruct (encoded_inv f b He) as [Hn Hv].
    rewrite encoded_wire in He by done. injection He as <-. by apply decodeFrame_wire.
Qed.

(** A frame whose bytes hold zeros. *)
Definition pingFrame : Frame :=
  mkFrame 0 2 MessageType.OPERATION_REQUEST 0 513 7 ([1; 32; 2; 0; 0; 0; 0] ++ zeros 121).

Lemma pingFrame_wf : frame_wf pingFrame.
Proof. unfold frame_wf. concrete. Qed.

Lemma frame_codec_witness :
  ∃ b, encoded pingFrame = Some b ∧ length b = 19%nat
    ∧ decodeFrame (Some b) (length b) zeroFrame = (DECODE_OK, pingFrame).
Proof.
  eexists. split; [vm_compute; reflexivity|]. split; [reflexivity|].
  apply (frame_codec _ pingFrame zeroFrame); [concrete|]. split; [exact pingFrame_wf|].
  split; vm_compute; reflexivity.
Defined.

(** ** The stream *)

Definition StreamOutput : Type := StreamEvent * DecodeResult * Frame.

(** The events of a parser fed one byte at a time. *)
Fixpoint feed (p : StreamParser) (l : list Z) : list StreamOutput * StreamParser :=
  match l with
  | [] => ([], p)
  | b :: l' =>
      let (e, p1) := consumeByte b p in
      let (es, p2) := feed p1 l' in
      (option_list e ++ es, p2)
  end.

(** A caller that hands the parser what it has until all is consumed, as each
    call returns with at most one event; the parser consumes a byte for each
    event, so [S (length l)] calls are enough. *)
Fixpoint pump (calls : nat) (p : StreamParser) (l : list Z) : list StreamOutput * StreamParser :=
  match calls with
  | O => ([], p)
  | S calls' =>
      let (r, p1) := consume (Some l) (length l) p in
      if bool_decide (event r = STREAM_NONE) then ([], p1) else
      let (es, p2) := pump calls' p1 (drop (consumed r) l) in
      ((event r, decodeResult r, stream_frame r) :: es, p2)
  end.

Fixpoint feedChunks (p : StreamParser) (chunks : list (list Z)) : list StreamOutput * StreamParser :=
  match chunks with
  | [] => ([], p)
  | l :: chunks' =>
      let (es, p1) := pump (S (length l)) p l in
      let (es', p2) := feedChunks p1 chunks' in
      (es ++ es', p2)
  end.

Lemma feed_app p l k :
  feed p (l ++ k) = ((feed p l).1 ++ (feed (feed p l).2 k).1, (feed (feed p l).2 k).2).
Proof.
  revert p. induction l as [|b l IH]; intros p; simpl; [by destruct (feed p k)|].
  destruct (consumeByte b p) as [e p1]. rewrite IH.
  destruct (feed p1 l) as [es p2]. simpl. destruct (feed p2 k) as [es' p3]. by rewrite app_assoc.
Qed.

Lemma consumeByte_event b p e r f p' :
  consumeByte b p = (Some (e, r, f), p') → e ≠ STREAM_NONE.
Proof.
  unfold consumeByte. destruct (discardingOversize p); [by destruct (_ =? _); intros [= <- _ _ _]|].
  destruct (negb _); [by destruct (_ <? _)%nat|]. destruct (_ =? 0)%nat; [done|].
  destruct (completeCandidate p). case_bool_decide; by intros [= <- _ _ _].
Qed.

(** One call: the events of the bytes it consumed are at most the one it
    returns. *)
Lemma consumeLoop_feed l n i p :
  n = (length l - i)%nat → (i ≤ length l)%nat →
  let (r, p') := consumeLoop l n i p in
  (i ≤ consumed r ≤ length l)%nat
  ∧ if bool_decide (event r = STREAM_NONE)
    then feed p (drop i l) = ([], p')
    else (i < consumed r)%nat
      ∧ feed p (drop i l) = ((event r, decodeResult r, stream_frame r)
                             :: (feed p' (drop (consumed r) l)).1, (feed p' (drop (consumed r) l)).2).
Proof.
  revert i p. induction n as [|n IH]; intros i p Hn Hi; cbn [consumeLoop].
  - cbn [event consumed]. rewrite bool_decide_true by done. split; [lia|].
    by rewrite drop_ge by lia.
  - assert (Hd : drop i l = rd l i :: drop (S i) l) by (apply drop_S, lookup_rd; lia).
    rewrite Hd. simpl feed. destruct (consumeByte (rd l i) p) as [[[[e r] f]|] p1] eqn:Ec.
    + cbn [event consumed decodeResult stream_frame].
      rewrite bool_decide_false by (by eapply consumeByte_event). split; [lia|]. split; [lia|].
      by destruct (feed p1 (drop (S i) l)).
    + specialize (IH (S i) p1 ltac:(lia) ltac:(lia)).
      destruct (consumeLoop l n (S i) p1) as [r p']. destruct IH as [Hc IH]. split; [lia|].
      destruct (bool_decide _); [by rewrite IH|]. destruct IH as [? IH]. split; [lia|]. by rewrite IH.
Qed.

Lemma pump_feed calls p l : (length l < calls)%nat → pump calls p l = feed p l.
Proof.
  revert p l. induction calls as [|calls IH]; intros p l Hl; [lia|]. cbn [pump consume].
  pose proof (consumeLoop_feed l (length l) 0 p ltac:(lia) ltac:(lia)) as H. rewrite drop_0 in H.
  destruct (consumeLoop l (length l) 0 p) as [r p1]. destruct H as [Hc H].
  destruct (bool_decide _); [done|]. destruct H as [Hc' ->]. rewrite IH by len.
  by destruct (feed p1 _).
Qed.

Lemma feedChunks_feed p chunks : feedChunks p chunks = feed p (concat chunks).
Proof.
  revert p. induction chunks as [|l chunks IH]; intros p; [done|]. cbn [feedChunks concat].
  rewrite pump_feed, feed_app by lia. destruct (feed p l) as [es p1]. simpl. rewrite IH.
  by destruct (feed p1 _).
Qed.

(** ** Finding frames *)

Definition parser_wf (p : StreamParser) : Prop :=
  length (candidate p) = 139%nat ∧ (candidateLength p ≤ 139)%nat.

(** Between frames. *)
Definition idle (p : StreamParser) : Prop :=
  parser_wf p ∧ candidateLength p = 0%nat ∧ discardingOversize p = false.

Lemma consumeByte_wf b p : parser_wf p → parser_wf (consumeByte b p).2.
Proof.
  intros [Hc Hl]. unfold consumeByte, reset. destruct (discardingOversize p).
  - destruct (_ =? _); cbn; split; cbn; (done || lia).
  - destruct (negb _).
    + destruct (Nat.ltb_spec (candidateLength p) MAX_COBS_CANDIDATE_SIZE) as [?|]; split; unfold rec_set; cbn;
        rewrite ?length_upd; unfold MAX_COBS_CANDIDATE_SIZE in *; (done || lia).
    + destruct (_ =? 0)%nat; [done|]. destruct (completeCandidate p). split; cbn; (done || lia).
Qed.

(** A delimiter leaves the parser between frames. *)
Lemma consumeByte_delimiter p : parser_wf p → idle (consumeByte FRAME_DELIMITER p).2.
Proof.
  intros Hw. split; [by apply consumeByte_wf|]. unfold consumeByte. rewrite Z.eqb_refl. bsimp.
  destruct (discardingOversize p) eqn:Hd; [done|].
  destruct (Nat.eqb_spec (candidateLength p) 0); [done|]. by destruct (completeCandidate p).
Qed.

Lemma feed_wf p l : parser_wf p → parser_wf (feed p l).2.
Proof.
  revert p. induction l as [|b l IH]; intros p Hw; simpl; [done|].
  pose proof (consumeByte_wf b p Hw). destruct (consumeByte b p) as [e p1].
  specialize (IH p1). destruct (feed p1 l). by apply IH.
Qed.

Lemma feed_delimited p l : parser_wf p → idle (feed p (l ++ [FRAME_DELIMITER])).2.
Proof.
  intros Hw. rewrite feed_app. simpl. pose proof (consumeByte_delimiter (feed p l).2 (feed_wf p l Hw)).
  by destruct (consumeByte _ _).
Qed.

(** Bytes of a candidate are collected. *)
Lemma feed_candidate p c :
  nonzero c → parser_wf p → discardingOversize p = false →
  (candidateLength p + length c ≤ 139)%nat →
  ∃ p', feed p c = ([], p') ∧ parser_wf p' ∧ discardingOversize p' = false
    ∧ candidateLength p' = (candidateLength p + length c)%nat
    ∧ take (candidateLength p') (candidate p') = take (candidateLength p) (candidate p) ++ c.
Proof.
  intros Hc. revert p. induction Hc as [|b c Hb Hc IH]; intros p [Hw Hw'] Hd Hl.
  - exists p. simpl. rewrite app_nil_r. repeat split; (done || simpl; lia).
  - simpl in *. unfold consumeByte. rewrite Hd. unfold FRAME_DELIMITER.
    rewrite (proj2 (Z.eqb_neq b 0)) by done. bsimp.
    rewrite (proj2 (Nat.ltb_lt _ _)) by (unfold MAX_COBS_CANDIDATE_SIZE; lia).
    destruct (IH (p <| candidate := upd (candidate p) (candidateLength p) b |>
      <| candidateLength := S (candidateLength p) |>)) as (p' & E & Hwf & Hd' & Hl' & Ht).
    { split; unfold rec_set; cbn; rewrite ?length_upd; (done || lia). }
    { done. } { unfold rec_set. cbn. lia. }
    unfold rec_set in *. cbn in *. exists p'. rewrite E. repeat split; try apply Hwf; [done|lia|].
    rewrite Ht. unfold upd. rewrite (take_S_r _ _ b) by (apply list_lookup_insert_eq; lia).
    rewrite take_insert_ge by lia. by rewrite <- app_assoc.
Qed.

(** The decoder of frames reads its input up to its length. *)
Lemma decodeFrame_prefix b t f0 :
  decodeFrame (Some (b ++ t)) (length b) f0 = decodeFrame (Some b) (length b) f0.
Proof.
  destruct (decide (b = [])) as [->|Hb]; [done|].
  destruct (exists_last Hb) as (l & x & ->). unfold decodeFrame.
  destruct (_ =? _)%nat; [done|]. destruct (_ <? _)%nat; [done|].
  rewrite rd_prefix by len. destruct (negb _); [done|]. destruct (_ =? _)%nat; [done|].
  replace (length (l ++ [x]) - 1)%nat with (length l) by len.
  rewrite <- app_assoc. by rewrite !cobsDecode_prefix.
Qed.

(** The bytes of a valid frame complete it. *)
Lemma feed_frame p f :
  idle p → frame_wf f → frame_valid f →
  ∃ p', feed p (wire f) = ([(FRAME_READY, DECODE_OK, f)], p') ∧ idle p'.
Proof.
  intros (Hw & Hl & Hd) Hf Hv. destruct (wire_delimited f) as (c & Ew & Hc & Hne).
  pose proof (length_wire f Hf (proj1 Hv)) as Hlen. rewrite Ew, length_app in Hlen. cbn [length] in Hlen.
  assert (Hn : Z.of_nat (Z.to_nat (payloadLength f)) = payloadLength f) by (apply Z2Nat.id, Hf).
  destruct Hv as (Hn' & Hvoc & Hz).
  destruct (feed_candidate p c) as (p' & E & Hw' & Hd' & Hl' & Ht); [done|done|done|lia|].
  rewrite Hl in *. cbn [take app Nat.add] in Ht, Hl'. rewrite take_0 in Ht.
  exists (consumeByte FRAME_DELIMITER p').2. split; [|by apply consumeByte_delimiter].
  rewrite Ew, feed_app, E. cbn [fst snd feed app].
  unfold consumeByte. rewrite Hd', Z.eqb_refl. bsimp.
  rewrite (proj2 (Nat.eqb_neq _ _)) by (rewrite Hl'; by destruct c).
  assert (Hcc : completeCandidate p' = (DECODE_OK, f)).
  { unfold completeCandidate. assert (Eb : upd (copy_bytes (candidateLength p') (zeros MAX_ENCODED_FRAME_SIZE) 0
      (candidate p') 0) (candidateLength p') FRAME_DELIMITER = wire f ++ zeros (139 - length c)).
    { rewrite copy_bytes_spec by (rewrite ?length_zeros; unfold MAX_ENCODED_FRAME_SIZE; destruct Hw'; lia).
      rewrite take_0, drop_0, Ht, Hl'. cbn [app Nat.add]. unfold zeros.
      rewrite drop_replicate, Ew. unfold MAX_ENCODED_FRAME_SIZE.
      replace (140 - length c)%nat with (S (139 - length c)) by lia. simpl.
      rewrite upd_app_here. by rewrite <- app_assoc. }
    rewrite Eb. rewrite Hl'. replace (length c + 1)%nat with (length (wire f)) by (rewrite Ew; len).
    rewrite decodeFrame_prefix. by apply decodeFrame_wire. }
  by rewrite Hcc.
Qed.

Definition ready (f : Frame) : StreamOutput := (FRAME_READY, DECODE_OK, f).

Lemma feed_frames p fs :
  idle p → Forall frame_wf fs → Forall frame_valid fs →
  (feed p (concat (wire <$> fs))).1 = ready <$> fs.
Proof.
  intros Hp Hw Hv. revert p Hp. induction fs as [|f fs IH]; intros p Hp; [done|].
  apply Forall_cons in Hw as [Hf Hw]. apply Forall_cons in Hv as [Hfv Hv].
  destruct (feed_frame p f) as (p' & E & Hp'); [done..|]. rewrite fmap_cons. cbn [concat].
  rewrite feed_app, E. cbn [fst snd]. by rewrite IH.
Qed.

(** The stream parser finds the frames.  Whatever bytes it has been fed, in
    whatever state they left it, once a delimiter has come it returns exactly
    the frames whose encodings follow, in order, however the bytes are cut into
    the pieces the caller hands it. *)
Theorem stream_delivers p chunks noise fs :
  parser_wf p → Forall frame_wf fs → Forall frame_valid fs →
  concat chunks = noise ++ [FRAME_DELIMITER] ++ concat (wire <$> fs) →
  (feedChunks p chunks).1 = (feedChunks p [noise ++ [FRAME_DELIMITER]]).1 ++ (ready <$> fs).
Proof.
  intros Hp Hw Hv Hc. rewrite !feedChunks_feed, Hc, app_assoc. cbn [concat].
  rewrite app_nil_r, feed_app. cbn [fst]. f_equal. apply feed_frames; [|done..].
  by apply feed_delimited.
Qed.

(** A parser left in the middle of an oversized candidate, then two frames in
    pieces. *)
Lemma stream_delivers_witness :
  ∃ chunks : list (list Z),
    let p := mkParser (zeros 139) 7 true in
    concat chunks = [17; 4] ++ [FRAME_DELIMITER] ++ concat (wire <$> [pingFrame; pingFrame])
    ∧ length chunks = 4%nat
    ∧ (feedChunks p chunks).1
      = (feedChunks p [[17; 4] ++ [FRAME_DELIMITER]]).1 ++ (ready <$> [pingFrame; pingFrame]).
Proof.
  exists [[17]; [4; 0] ++ take 3 (wire pingFrame); drop 3 (wire pingFrame) ++ take 9 (wire pingFrame);
    drop 9 (wire pingFrame)]. intros p.
  assert (E : concat [[17]; [4; 0] ++ take 3 (wire pingFrame);
      drop 3 (wire pingFrame) ++ take 9 (wire pingFrame); drop 9 (wire pingFrame)]
    = [17; 4] ++ [FRAME_DELIMITER] ++ concat (wire <$> [pingFrame; pingFrame]))
    by (vm_compute; reflexivity).
  split; [exact E|]. split; [reflexivity|].
  apply (stream_delivers p _ [17; 4] [pingFrame; pingFrame]); [split; [reflexivity|simpl; lia]|..|exact E].
  - apply Forall_cons_2; [exact pingFrame_wf|]. apply Forall_cons_2; [exact pingFrame_wf|apply Forall_nil_2].
  - assert (Hv : frame_valid pingFrame) by (unfold frame_valid; concrete).
    apply Forall_cons_2; [exact Hv|]. apply Forall_cons_2; [exact Hv|apply Forall_nil_2].
Defined.

End HostFrameFacts.
