(* ===== verification/HostTransport.v ===== *)
(** The byte transport of the host link, lib/host_transport: bytes that arrive
    go to the stream parser one at a time, and one submitted frame at a time is
    written out as the stream takes it.  What is written is, in order and
    without gaps, the frames that were accepted. *)

From S2P Require Import Prelude Capabilities HostFrame HostFrameFacts.

Module HostTransport.

Import HostProtocol.

(* host_transport.h:11-16 RxStatus *)
Inductive RxStatus := NO_ACTIVITY | RX_PROGRESS | PARSER_EVENT | INPUT_ERROR.

(* host_transport.h:18-23 SubmitStatus *)
Inductive SubmitStatus := SUBMIT_OK | SUBMIT_BUSY | SUBMIT_INVALID_ARGUMENT | INVALID_FRAME.

(* host_transport.h:25-31 TxStatus *)
Inductive TxStatus := TX_IDLE | TX_BLOCKED | TX_PROGRESS | TX_COMPLETE | OUTPUT_ERROR.

#[global] Instance SubmitStatus_eq_dec : EqDecision SubmitStatus.
Proof. solve_decision. Defined.

#[global] Instance TxStatus_eq_dec : EqDecision TxStatus.
Proof. solve_decision. Defined.

(* host_transport.h:33-37 RxResult *)
Record RxResult := mkRx { rx_status : RxStatus; bytesRead : nat; parserResult : StreamResult }.

(** Without the members of a structured-trace build. *)
(* host_transport.h:39-48 = TxResult *)
Record TxResult := mkTx { tx_status : TxStatus; bytesWritten : nat; remaining : nat }.

(** The byte stream the adapter is instantiated with: the platform's serial
    port. *)
Class ByteStream (W : Type) := {
  available : st W Z;
  read : st W Z;
  availableForWrite : st W Z;
  write : list Z → nat → st W nat
}.

(* host_transport.h:168-172 = Adapter members *)
Record Adapter := mkAdapter {
  parser_ : StreamParser;
  pending_ : list Z;
  pendingLength_ : nat;
  pendingOffset_ : nat
}.

#[global] Instance eta_Adapter : RecEta Adapter := λ a,
  mkAdapter (parser_ a) (pending_ a) (pendingLength_ a) (pendingOffset_ a).

(* host_transport.h:159-161 Adapter::hasPendingTx *)
Definition hasPendingTx (a : Adapter) : bool := negb (pendingLength_ a =? 0)%nat.

(* host_transport.h:163-165 Adapter::remainingTx *)
Definition remainingTx (a : Adapter) : nat :=
  if (pendingLength_ a =? 0)%nat then O else (pendingLength_ a - pendingOffset_ a)%nat.

(** [StreamResult result = {};] with its event and result set. *)
Definition noResult : StreamResult := mkStream O STREAM_NONE DECODE_OK zeroFrame.

(* host_transport.h:97-101 = Adapter::submit, the frame *)
Definition load (frame : list Z) (frameLength : nat) (a : Adapter) : Adapter :=
  a <| pending_ := copy_bytes frameLength (pending_ a) 0 frame 0 |>
    <| pendingLength_ := frameLength |> <| pendingOffset_ := O |>.

(* host_transport.h:84-103 Adapter::submit *)
Definition submit (frame : option (list Z)) (frameLength : nat) (a : Adapter)
    : SubmitStatus * Adapter :=
  if negb (pendingLength_ a =? 0)%nat then (SUBMIT_BUSY, a) else
  match frame with
  | None => (SUBMIT_INVALID_ARGUMENT, a)
  | Some bytes =>
      if (frameLength =? 0)%nat || (MAX_ENCODED_FRAME_SIZE <? frameLength)%nat
      then (SUBMIT_INVALID_ARGUMENT, a) else
      if negb (bool_decide ((decodeFrame frame frameLength zeroFrame).1 = DECODE_OK))
      then (INVALID_FRAME, a) else (SUBMIT_OK, load bytes frameLength a)
  end.

(* host_transport.h:153-157 Adapter::reset *)
Definition reset (a : Adapter) : Adapter :=
  a <| parser_ := HostProtocol.reset (parser_ a) |> <| pendingLength_ := O |>
    <| pendingOffset_ := O |>.

Section Service.

Context {W : Type} `{ByteStream W}.

Abbreviation M := (st (Adapter * W)).

(** Each turn reads a byte, so [budget] turns reach the budget. *)
(* host_transport.h:61-81 = Adapter::serviceRx, the loop *)
Fixpoint rxLoop (turns bytesRead : nat) (last : StreamResult) : M RxResult :=
  let leave := ret (mkRx (if (bytesRead =? 0)%nat then NO_ACTIVITY else RX_PROGRESS) bytesRead last) in
  match turns with
  | O => leave
  | S turns' =>
      waiting <~ outside available ;;
      if waiting <=? 0 then leave else
      value <~ outside read ;;
      if value <? 0 then ret (mkRx INPUT_ERROR bytesRead last) else
      parser <~ this parser_ ;;
      let (result, parser) := consume (Some [u8 value]) 1 parser in
      update (λ a, a <| parser_ := parser |>) ;;;
      if negb (bool_decide (event result = STREAM_NONE))
      then ret (mkRx PARSER_EVENT (S bytesRead) result)
      else rxLoop turns' (S bytesRead) result
  end.

(* host_transport.h:56-82 Adapter::serviceRx *)
Definition serviceRx (budget : nat) : M RxResult := rxLoop budget O noResult.

(* host_transport.h:105-151 Adapter::serviceTx *)
Definition serviceTx (budget : nat) : M TxResult :=
  left <~ this remainingTx ;;
  pendingLength <~ this pendingLength_ ;;
  if (pendingLength =? 0)%nat then ret (mkTx TX_IDLE O left) else
  if (budget =? 0)%nat then ret (mkTx TX_BLOCKED O left) else
  writable <~ outside availableForWrite ;;
  if writable <=? 0 then ret (mkTx TX_BLOCKED O left) else
  let attempt := Z.to_nat writable in
  let attempt := if (budget <? attempt)%nat then budget else attempt in
  let attempt := if (left <? attempt)%nat then left else attempt in
  bytes <~ this (λ a, drop (pendingOffset_ a) (pending_ a)) ;;
  written <~ outside (write bytes attempt) ;;
  if (attempt <? written)%nat then ret (mkTx OUTPUT_ERROR O left) else
  if (written =? 0)%nat then ret (mkTx TX_BLOCKED O left) else
  update (λ a, a <| pendingOffset_ := (pendingOffset_ a + written)%nat |>) ;;;
  left <~ this remainingTx ;;
  whole <~ this (λ a, (pendingOffset_ a =? pendingLength_ a)%nat) ;;
  if whole then
    update (λ a, a <| pendingLength_ := O |> <| pendingOffset_ := O |>) ;;;
    ret (mkTx TX_COMPLETE written left)
  else ret (mkTx TX_PROGRESS written left).

End Service.

End HostTransport.
