(* ===== verification/HostLink.v ===== *)
(** Two ends of a host link: a sender whose transport accepts frames and writes
    them to its serial port, a receiver whose transport reads what its port
    hears.  The receiver gets exactly the frames that were accepted. *)

From S2P Require Import Prelude Capabilities HostFrame HostFrameFacts HostTransport.

Module HostLink.

Import HostProtocol HostFrameFacts.

(** What a serial port is documented to do: it takes a prefix of what it is
    given to write, and hands out bytes it has heard, or a negative number. *)
Class SerialPort (W : Type) `{HostTransport.ByteStream W} := {
  sent : W → list Z;
  heard : W → list Z;
  available_keeps w :
    sent (HostTransport.available w).2 = sent w ∧ heard (HostTransport.available w).2 = heard w;
  writable_keeps w :
    sent (HostTransport.availableForWrite w).2 = sent w
    ∧ heard (HostTransport.availableForWrite w).2 = heard w;
  write_takes data n w :
    ((HostTransport.write data n w).1 ≤ n)%nat
    ∧ sent (HostTransport.write data n w).2 = sent w ++ take (HostTransport.write data n w).1 data
    ∧ heard (HostTransport.write data n w).2 = heard w;
  read_gives w :
    sent (HostTransport.read w).2 = sent w
    ∧ heard (HostTransport.read w).2
      = if (HostTransport.read w).1 <? 0 then heard w else heard w ++ [u8 (HostTransport.read w).1]
}.

(** ** Uses of a transport *)

Inductive Command := Submit (frame : list Z) | ServiceTx (budget : nat) | ServiceRx (budget : nat).

(** The frame a call accepted, and the event it returned. *)
Record Outcome := mkOutcome { accepted : list (list Z); returned : list StreamOutput }.

Section Run.

Context {W : Type} `{SerialPort W}.

Definition outputOf (r : HostTransport.RxResult) : list StreamOutput :=
  let p := HostTransport.parserResult r in
  match HostTransport.rx_status r with
  | HostTransport.PARSER_EVENT => [(event p, decodeResult p, stream_frame p)]
  | _ => []
  end.

Definition call (c : Command) : st (HostTransport.Adapter * W) Outcome :=
  match c with
  | Submit b => λ s,
      let (r, a) := HostTransport.submit (Some b) (length b) s.1 in
      (mkOutcome (if bool_decide (r = HostTransport.SUBMIT_OK) then [b] else []) [], (a, s.2))
  | ServiceTx budget => λ s, let (_, s1) := HostTransport.serviceTx budget s in (mkOutcome [] [], s1)
  | ServiceRx budget => λ s,
      let (r, s1) := HostTransport.serviceRx budget s in (mkOutcome [] (outputOf r), s1)
  end.

Fixpoint run (cs : list Command) : st (HostTransport.Adapter * W) Outcome :=
  match cs with
  | [] => ret (mkOutcome [] [])
  | c :: cs' => λ s,
      let (o, s1) := call c s in
      let (o', s2) := run cs' s1 in
      (mkOutcome (accepted o ++ accepted o') (returned o ++ returned o'), s2)
  end.

(** ** Sending *)

(** The bytes of the pending frame that are not yet written. *)
Definition unsent (a : HostTransport.Adapter) : list Z :=
  take (HostTransport.remainingTx a)
    (drop (HostTransport.pendingOffset_ a) (HostTransport.pending_ a)).

Definition adapter_wf (a : HostTransport.Adapter) : Prop :=
  parser_wf (HostTransport.parser_ a) ∧ length (HostTransport.pending_ a) = 140%nat
  ∧ (HostTransport.pendingLength_ a ≤ 140)%nat
  ∧ (HostTransport.pendingOffset_ a ≤ HostTransport.pendingLength_ a)%nat.

Definition is_frame (b : list Z) : Prop := (decodeFrame (Some b) (length b) zeroFrame).1 = DECODE_OK.

(** One step of the link: what was to be sent before and what was accepted is
    what is sent and what is left to send; what is heard is parsed. *)
Record stepped (o : Outcome) (a : HostTransport.Adapter) (w : W) (a' : HostTransport.Adapter)
    (w' : W) : Prop := {
  stepped_wf : adapter_wf a';
  stepped_sent : sent w' ++ unsent a' = sent w ++ unsent a ++ concat (accepted o);
  stepped_frames : Forall is_frame (accepted o);
  stepped_heard : ∃ l, heard w' = heard w ++ l
    ∧ feed (HostTransport.parser_ a) l = (returned o, HostTransport.parser_ a')
}.

Lemma stepped_refl a w : adapter_wf a → stepped (mkOutcome [] []) a w a w.
Proof.
  intros Ha. split; [done|by rewrite app_nil_r|constructor|]. exists []. by rewrite app_nil_r.
Qed.

Lemma stepped_trans o1 o2 a w a1 w1 a2 w2 :
  stepped o1 a w a1 w1 → stepped o2 a1 w1 a2 w2 →
  stepped (mkOutcome (accepted o1 ++ accepted o2) (returned o1 ++ returned o2)) a w a2 w2.
Proof.
  intros [_ Hs1 Hf1 (l1 & Hh1 & E1)] [Hw2 Hs2 Hf2 (l2 & Hh2 & E2)]. split; [done|..].
  - cbn [accepted]. rewrite Hs2, app_assoc, Hs1. by rewrite concat_app, <- !app_assoc.
  - by apply Forall_app.
  - exists (l1 ++ l2). split; [by rewrite Hh2, Hh1, app_assoc|].
    rewrite feed_app, E1. cbn [fst snd returned]. by rewrite E2.
Qed.

Lemma unsent_idle a : HostTransport.pendingLength_ a = 0%nat → unsent a = [].
Proof. intros E. unfold unsent, HostTransport.remainingTx. by rewrite E. Qed.

Lemma submit_stepped b a w :
  adapter_wf a → is_byte_list b → let r := call (Submit b) (a, w) in stepped r.1 a w r.2.1 r.2.2.
Proof.
  intros Ha Hb. cbn [call fst snd]. unfold HostTransport.submit.
  destruct (Nat.eqb_spec (HostTransport.pendingLength_ a) 0) as [Hp|]; [|by apply stepped_refl].
  bsimp. destruct (Nat.eqb_spec (length b) 0); [by apply stepped_refl|]. bsimp.
  destruct (Nat.ltb_spec MAX_ENCODED_FRAME_SIZE (length b)) as [|Hl]; [by apply stepped_refl|].
  unfold MAX_ENCODED_FRAME_SIZE in Hl. case_bool_decide as Hd; bsimp; [|by apply stepped_refl].
  destruct Ha as (Hpw & Hlen & _ & _). rewrite bool_decide_true by done.
  split; cbn [fst snd accepted returned].
  - unfold adapter_wf, HostTransport.load, rec_set. cbn. rewrite length_copy_bytes.
    split; [done|]. split; [done|]. split; [lia|lia].
  - rewrite (unsent_idle a Hp). unfold unsent, HostTransport.remainingTx, HostTransport.load, rec_set. cbn.
    rewrite (proj2 (Nat.eqb_neq _ _)) by done. rewrite drop_0, Nat.sub_0_r.
    rewrite copy_bytes_spec by lia. rewrite take_0, drop_0, (take_ge b) by lia. cbn [app].
    by rewrite take_app_length, app_nil_r.
  - by repeat constructor.
  - exists []. by rewrite app_nil_r.
Qed.

Lemma bind_port {X Y} (m : st W X) (k : X → st (HostTransport.Adapter * W) Y) a w :
  (x <~ outside m ;; k x) (a, w) = k (m w).1 (a, (m w).2).
Proof. reflexivity. Qed.

(** A call that only asks the port. *)
Lemma stepped_port a w w' :
  adapter_wf a → sent w' = sent w → heard w' = heard w → stepped (mkOutcome [] []) a w a w'.
Proof.
  intros Ha Hs Hh. split; [done|by rewrite Hs, app_nil_r|constructor|].
  exists []. by rewrite Hh, app_nil_r.
Qed.

(** A part of the pending frame is written. *)
Lemma written_stepped a w w' n :
  adapter_wf a → (n ≤ HostTransport.remainingTx a)%nat →
  sent w' = sent w ++ take n (drop (HostTransport.pendingOffset_ a) (HostTransport.pending_ a)) →
  heard w' = heard w →
  stepped (mkOutcome [] []) a w
    (a <| HostTransport.pendingOffset_ := (HostTransport.pendingOffset_ a + n)%nat |>) w'.
Proof.
  intros (Hp & Hl & Hle & Ho) Hn Hs Hh. unfold HostTransport.remainingTx in Hn.
  assert (Hn' : (HostTransport.pendingOffset_ a + n ≤ HostTransport.pendingLength_ a)%nat)
    by (destruct (_ =? 0)%nat; lia).
  split; [split; [done|]; unfold rec_set; cbn; lia| |constructor|exists []; by rewrite Hh, app_nil_r].
  rewrite Hs, app_nil_r, <- app_assoc. f_equal. unfold unsent, HostTransport.remainingTx, rec_set. cbn.
  destruct (Nat.eqb_spec (HostTransport.pendingLength_ a) 0) as [E|E]; [by replace n with 0%nat by lia|].
  rewrite <- drop_drop. set (d := drop _ (HostTransport.pending_ a)).
  replace (HostTransport.pendingLength_ a - HostTransport.pendingOffset_ a)%nat
    with (n + (HostTransport.pendingLength_ a - (HostTransport.pendingOffset_ a + n)))%nat by lia.
  apply take_take_drop.
Qed.

(** Once all of it is written, the frame is forgotten. *)
Lemma completed_stepped o a w a1 w1 :
  stepped o a w a1 w1 → HostTransport.pendingOffset_ a1 = HostTransport.pendingLength_ a1 →
  stepped o a w (a1 <| HostTransport.pendingLength_ := 0%nat |> <| HostTransport.pendingOffset_ := 0%nat |>) w1.
Proof.
  intros [(Hp & Hl & Hle & _) Hs Hf Hh] E. split; try done.
  - split; [done|]. unfold rec_set. cbn. lia.
  - rewrite <- Hs. f_equal. rewrite unsent_idle by done. unfold unsent, HostTransport.remainingTx.
    rewrite E, Nat.sub_diag. by destruct (_ =? _)%nat.
Qed.

Lemma serviceTx_stepped budget a w :
  adapter_wf a → let r := HostTransport.serviceTx budget (a, w) in stepped (mkOutcome [] []) a w r.2.1 r.2.2.
Proof.
  intros Ha. unfold HostTransport.serviceTx. rewrite !bind_this.
  destruct (_ =? 0)%nat; [by apply stepped_refl|]. destruct (budget =? 0)%nat; [by apply stepped_refl|].
  rewrite bind_port. destruct (writable_keeps w) as [Hs1 Hh1].
  destruct (HostTransport.availableForWrite w) as [writable w1]. cbn [fst snd] in *.
  destruct (writable <=? 0); [by apply stepped_port|]. rewrite bind_this, bind_port.
  set (attempt := if (_ <? _)%nat then HostTransport.remainingTx a else _).
  assert (Hatt : (attempt ≤ HostTransport.remainingTx a)%nat).
  { unfold attempt. match goal with |- ((if ?b then _ else _) ≤ _)%nat => destruct b eqn:E end; [lia|].
    by apply Nat.ltb_ge in E. }
  set (bytes := drop _ _). destruct (write_takes bytes attempt w1) as (Hle & Hs2 & Hh2).
  destruct (HostTransport.write bytes attempt w1) as [n w2]. cbn [fst snd] in *.
  rewrite (proj2 (Nat.ltb_ge _ _)) by done. rewrite Hs1 in Hs2. rewrite Hh1 in Hh2.
  destruct (Nat.eqb_spec n 0) as [->|Hn].
  { rewrite take_0, app_nil_r in Hs2. by apply stepped_port. }
  pose proof (written_stepped a w w2 n Ha ltac:(lia) Hs2 Hh2) as Hstep.
  rewrite bind_update, !bind_this. set (a1 := rec_set _ _ a) in *.
  destruct (Nat.eqb_spec (HostTransport.pendingOffset_ a1) (HostTransport.pendingLength_ a1)) as [E|E];
    [|exact Hstep].
  rewrite bind_update. by apply completed_stepped.
Qed.

Lemma rxLoop_stepped turns n last a w :
  adapter_wf a →
  let r := HostTransport.rxLoop turns n last (a, w) in
  stepped (mkOutcome [] (outputOf r.1)) a w r.2.1 r.2.2.
Proof.
  revert n last a w. induction turns as [|turns IH]; intros n last a w Ha; cbn [HostTransport.rxLoop].
  { by destruct (n =? 0)%nat; apply stepped_refl. }
  rewrite bind_port. destruct (available_keeps w) as [Hs1 Hh1].
  destruct (HostTransport.available w) as [waiting w1]. cbn [fst snd] in *.
  destruct (waiting <=? 0); [by destruct (n =? 0)%nat; apply stepped_port|]. rewrite bind_port.
  destruct (read_gives w1) as [Hs2 Hh2]. destruct (HostTransport.read w1) as [value w2]. cbn [fst snd] in *.
  rewrite Hs1 in Hs2. rewrite Hh1 in Hh2. destruct (value <? 0); [by apply stepped_port|].
  rewrite bind_this. pose proof (consumeLoop_feed [u8 value] 1 0 (HostTransport.parser_ a) eq_refl ltac:(simpl; lia)) as Hc.
  cbn [consume length]. destruct (consumeLoop [u8 value] 1 0 (HostTransport.parser_ a)) as [r p] eqn:Er.
  destruct Hc as [Hc1 Hc2]. rewrite drop_0 in Hc2. rewrite bind_update. cbn [fst snd].
  assert (Hpw : parser_wf p).
  { cbn [consumeLoop] in Er. pose proof (consumeByte_wf (u8 value) (HostTransport.parser_ a) (proj1 Ha)) as Hw.
    unfold rd in Er. cbn [nth] in Er. destruct (consumeByte _ _) as [[[[]]|] p1]; by injection Er as <- <-. }
  set (a1 := a <| HostTransport.parser_ := p |>).
  assert (Ha1 : adapter_wf a1) by (destruct Ha as (_ & Hl & Hle & Ho); by split).
  assert (Hu : unsent a1 = unsent a) by done.
  case_bool_decide as Hev; bsimp.
  - assert (Hstep : stepped (mkOutcome [] []) a w a1 w2).
    { split; [done|by rewrite Hs2, Hu, app_nil_r|constructor|]. exists [u8 value]. by rewrite Hh2. }
    pose proof (stepped_trans _ _ _ _ _ _ _ _ Hstep (IH (S n) r a1 w2 Ha1)) as Hall. exact Hall.
  - destruct Hc2 as [Hc2 Hf]. cbn [ret fst snd]. split; [done|by rewrite Hs2, Hu, app_nil_r|constructor|].
    exists [u8 value]. split; [by rewrite Hh2|]. cbn [returned].
    assert (Hd : drop (consumed r) [u8 value] = []) by (apply drop_ge; simpl in *; lia).
    rewrite Hd in Hf. exact Hf.
Qed.

Lemma call_stepped c a w :
  adapter_wf a → match c with Submit b => is_byte_list b | _ => True end →
  let r := call c (a, w) in stepped r.1 a w r.2.1 r.2.2.
Proof.
  intros Ha Hc. destruct c as [b|budget|budget]; [by apply submit_stepped| |].
  - cbn [call]. pose proof (serviceTx_stepped budget a w Ha) as Hs.
    destruct (HostTransport.serviceTx budget (a, w)) as [r [a1 w1]]. exact Hs.
  - cbn [call]. unfold HostTransport.serviceRx.
    pose proof (rxLoop_stepped budget 0 HostTransport.noResult a w Ha) as Hs.
    destruct (HostTransport.rxLoop _ _ _ (a, w)) as [r [a1 w1]]. exact Hs.
Qed.

Definition command_wf (c : Command) : Prop :=
  match c with Submit b => is_byte_list b | _ => True end.

Lemma run_stepped cs a w :
  adapter_wf a → Forall command_wf cs → let r := run cs (a, w) in stepped r.1 a w r.2.1 r.2.2.
Proof.
  intros Ha Hcs. revert a w Ha. induction Hcs as [|c cs Hc _ IH]; intros a w Ha; cbn [run].
  - by apply stepped_refl.
  - pose proof (call_stepped c a w Ha Hc) as Hs.
    destruct (call c (a, w)) as [o [a1 w1]]. cbn [fst snd] in *.
    pose proof (IH a1 w1 (stepped_wf _ _ _ _ _ Hs)) as Hs'. destruct (run cs (a1, w1)) as [o' [a2 w2]].
    exact (stepped_trans _ _ _ _ _ _ _ _ Hs Hs').
Qed.

End Run.

(** ** The link *)

(** An adapter as constructed, over buffers of unspecified content. *)
Definition newAdapter (storage pending : list Z) : HostTransport.Adapter :=
  HostTransport.mkAdapter (newParser storage) pending 0 0.

Lemma newAdapter_wf storage pending :
  length storage = 139%nat → length pending = 140%nat → adapter_wf (newAdapter storage pending).
Proof. intros Hs Hp. split; [split; [done|simpl; lia]|]. cbn. lia. Qed.

(** What a transport accepts are encodings of valid frames. *)
Lemma frames_wire (bs : list (list Z)) :
  Forall is_byte_list bs → Forall is_frame bs →
  ∃ fs, Forall frame_wf fs ∧ Forall frame_valid fs ∧ bs = wire <$> fs.
Proof.
  intros Hb. induction Hb as [|b bs Hb _ IH]; [by exists []|]. intros [Hf Hfs]%Forall_cons.
  destruct (IH Hfs) as (fs & Hw & Hv & ->). unfold is_frame in Hf.
  destruct (decodeFrame (Some b) (length b) zeroFrame) as [r f] eqn:E. cbn in Hf. subst r.
  apply decodeFrame_inv in E as (Hfw & Hfv & ->); [|done].
  exists (f :: fs). by repeat (split; [by constructor|]).
Qed.

Section Link.

Context {W1 W2 : Type} `{SerialPort W1} `{SerialPort W2}.

Lemma accepted_bytes (cs : list Command) (s : HostTransport.Adapter * W1) :
  Forall command_wf cs → Forall is_byte_list (accepted (run cs s).1).
Proof.
  intros Hcs. revert s. induction Hcs as [|c cs Hc _ IH]; intros s; cbn [run]; [constructor|].
  destruct (call c s) as [o s1] eqn:E. specialize (IH s1).
  destruct (run cs s1) as [o' s2]. cbn [ret fst snd accepted] in *. apply Forall_app. split; [|done].
  destruct c as [b|budget|budget]; cbn [call] in E.
  - destruct (HostTransport.submit _ _ _) as [r a]. injection E as <- _. cbn [accepted].
    destruct (bool_decide _); by repeat constructor.
  - destruct (HostTransport.serviceTx _ _). by injection E as <- _.
  - destruct (HostTransport.serviceRx _ _). by injection E as <- _.
Qed.

(** C28. The host link delivers.  A sender's transport is used in any way; all it
    accepted is written.  A receiver's transport, used in any way, has heard
    some bytes ending in a delimiter and then what was written.  Then the
    receiver has returned, after what the first bytes gave, each accepted frame
    once, in order, and nothing else. *)
Theorem link_delivers (out0 out : list Z) (cs ds : list Command) storage pending storage' pending'
    noise (v : W1) (w : W2) :
  length storage = 139%nat → length pending = 140%nat →
  length storage' = 139%nat → length pending' = 140%nat →
  Forall command_wf cs → Forall command_wf ds →
  let tx := run cs (newAdapter storage pending, v) in
  let rx := run ds (newAdapter storage' pending', w) in
  HostTransport.hasPendingTx tx.2.1 = false →
  sent v = out0 → sent tx.2.2 = out0 ++ out →
  heard rx.2.2 = heard w ++ noise ++ [FRAME_DELIMITER] ++ out →
  ∃ fs, accepted tx.1 = wire <$> fs
    ∧ returned rx.1
      = (feedChunks (newParser storage') [noise ++ [FRAME_DELIMITER]]).1 ++ (ready <$> fs).
Proof.
  intros Hs Hp Hs' Hp' Hcs Hds tx rx Hidle Hout0 Hout Hheard.
  pose proof (newAdapter_wf storage pending Hs Hp) as Ha.
  pose proof (newAdapter_wf storage' pending' Hs' Hp') as Ha'.
  destruct (run_stepped cs _ v Ha Hcs) as [_ Hsent Hframes _]. fold tx in Hsent, Hframes.
  destruct (run_stepped ds _ w Ha' Hds) as [_ _ _ (l & Hl & Hfeed)]. fold rx in Hl, Hfeed.
  destruct (frames_wire (accepted tx.1)) as (fs & Hw & Hv & Eacc); [by apply accepted_bytes|done|].
  exists fs. split; [done|].
  unfold HostTransport.hasPendingTx in Hidle. apply negb_false_iff, Nat.eqb_eq in Hidle.
  rewrite (unsent_idle _ Hidle), (unsent_idle (newAdapter storage pending) eq_refl) in Hsent.
  rewrite Hout0, Hout, app_nil_r in Hsent.
  apply app_inv_head in Hsent. cbn [app] in Hsent.
  rewrite Hl in Hheard. apply app_inv_head in Hheard.
  rewrite feedChunks_feed. cbn [concat]. rewrite app_nil_r.
  rewrite Hheard, Hsent, Eacc, app_assoc, feed_app in Hfeed. injection Hfeed as <- _. f_equal.
  apply feed_frames; [|done..]. apply feed_delimited. split; [done|simpl; lia].
Qed.

End Link.

(** ** Two ports joined by a cable *)

Module Cable.

(** The bytes to be heard, those heard and those sent; at most five bytes are
    taken at a time, and every third byte makes the reader wait. *)
Record port := mkPort { toHear : list Z; wasHeard : list Z; wasSent : list Z; turn : nat }.

#[export] Instance stream : HostTransport.ByteStream port := {
  HostTransport.available := λ w,
    (if (turn w mod 3 =? 2)%nat then 0 else Z.of_nat (length (toHear w)),
     mkPort (toHear w) (wasHeard w) (wasSent w) (S (turn w)));
  HostTransport.read := λ w,
    match toHear w with
    | [] => (-1, w)
    | b :: l => (u8 b, mkPort l (wasHeard w ++ [u8 b]) (wasSent w) (turn w))
    end;
  HostTransport.availableForWrite := λ w, (64, w);
  HostTransport.write := λ data n w,
    (Nat.min n 5, mkPort (toHear w) (wasHeard w) (wasSent w ++ take (Nat.min n 5) data) (turn w))
}.

#[export] Instance serial : SerialPort port.
Proof.
  refine {| sent := wasSent; heard := wasHeard |}; try done.
  - intros data n w. cbn. split; [lia|done].
  - intros w. cbn. destruct (toHear w) as [|b l]; cbn; [done|]. split; [done|].
    pose proof (u8_range b) as Hb. rewrite (proj2 (Z.ltb_ge _ _)) by apply Hb.
    by rewrite (wrap_small 8 (u8 b)).
Defined.

End Cable.

Import Cable.

Lemma pingFrame_bytes : is_byte_list (wire pingFrame).
Proof. concrete. Qed.

(** Two frames are submitted and written in four pieces each; the receiver,
    which hears an odd byte first, reads them in pieces of its own. *)
Lemma link_delivers_witness :
  let b := wire pingFrame in
  let cs := [Submit b] ++ replicate 4 (ServiceTx 140) ++ [Submit b] ++ replicate 4 (ServiceTx 140) in
  let ds := replicate 30 (ServiceRx 140) in
  let v := mkPort [] [] [] 0 in
  let w := mkPort ([9] ++ [FRAME_DELIMITER] ++ b ++ b) [] [] 0 in
  let rx := run ds (newAdapter (zeros 139) (zeros 140), w) in
  (∃ fs, accepted (run cs (newAdapter (zeros 139) (zeros 140), v)).1 = wire <$> fs
    ∧ returned rx.1
      = (feedChunks (newParser (zeros 139)) [[9] ++ [FRAME_DELIMITER]]).1 ++ (ready <$> fs))
  ∧ length (returned rx.1) = 3%nat.
Proof.
  intros b cs ds v w rx. split; [|vm_compute; reflexivity].
  apply (link_delivers [] (b ++ b) cs ds (zeros 139) (zeros 140) (zeros 139) (zeros 140) [9] v w);
    try (vm_compute; reflexivity).
  - apply Forall_cons_2; [exact pingFrame_bytes|]. apply Forall_app_2; [by apply Forall_replicate|].
    apply Forall_cons_2; [exact pingFrame_bytes|]. by apply Forall_replicate.
  - by apply Forall_replicate.
Defined.

End HostLink.
