(* ===== verification/Settings.v ===== *)
(** The device's settings, lib/device_settings/device_settings.h: the settings
    and their repair, the record codec, the interface to the record store, and
    the manager that loads, saves and resets them over two slots and a reset
    marker. *)

From S2P Require Import Prelude.

Module DeviceSettings.

(** ** The settings *)

(* device_settings.h:8 SCHEMA_VERSION *)
Definition SCHEMA_VERSION : Z := 1.

(* device_settings.h:9 DEFAULT_DISPLAY_TIMEOUT_SECONDS *)
Definition DEFAULT_DISPLAY_TIMEOUT_SECONDS : Z := 30.

(* device_settings.h:10 DEFAULT_DISPLAY_CONTRAST *)
Definition DEFAULT_DISPLAY_CONTRAST : Z := 207.

(* device_settings.h:11 DEFAULT_LED_ENABLED *)
Definition DEFAULT_LED_ENABLED : bool := true.

(* device_settings.h:12 DEFAULT_DIAGNOSTICS_ENABLED *)
Definition DEFAULT_DIAGNOSTICS_ENABLED : bool := true.

(* device_settings.h:13 DEFAULT_BUTTON_FEEDBACK_ENABLED *)
Definition DEFAULT_BUTTON_FEEDBACK_ENABLED : bool := false.

(** An enumeration over a byte; a decoded record may hold any byte of it. *)
Module DefaultScreen.

(* device_settings.h:16 = DefaultScreen::HOME *)
Definition HOME : Z := 0.

(* device_settings.h:17 = DefaultScreen::RADIO *)
Definition RADIO : Z := 1.

(* device_settings.h:18 = DefaultScreen::DEVICE *)
Definition DEVICE : Z := 2.

(* device_settings.h:19 = DefaultScreen::LAST_PACKET *)
Definition LAST_PACKET : Z := 3.

(* device_settings.h:20 = DefaultScreen::DIAGNOSTICS *)
Definition DIAGNOSTICS : Z := 4.

(* device_settings.h:21 = DefaultScreen::ABOUT *)
Definition ABOUT : Z := 5.

End DefaultScreen.

(* device_settings.h:24 DEFAULT_SCREEN *)
Definition DEFAULT_SCREEN : Z := DefaultScreen.HOME.

(* device_settings.h:26-33 = struct Settings *)
Record Settings := mkSettings {
  displayTimeoutSeconds : Z;
  displayContrast : Z;
  ledEnabled : bool;
  diagnosticsEnabled : bool;
  defaultScreen : Z;
  buttonFeedbackEnabled : bool
}.

#[export] Instance etaSettings : RecEta Settings :=
  λ s, mkSettings (displayTimeoutSeconds s) (displayContrast s) (ledEnabled s)
    (diagnosticsEnabled s) (defaultScreen s) (buttonFeedbackEnabled s).

Module ValidationResult.

(* device_settings.h:35-38 = enum class ValidationResult *)
Inductive t := UNCHANGED | REPAIRED.

End ValidationResult.

(* device_settings.h:40 RECORD_SIZE *)
Definition RECORD_SIZE : nat := 24.

(* device_settings.h:41 CRC_INPUT_SIZE *)
Definition CRC_INPUT_SIZE : nat := 20.

(* device_settings.h:42 FLAG_LED_ENABLED *)
Definition FLAG_LED_ENABLED : Z := 1.

(* device_settings.h:43 FLAG_DIAGNOSTICS_ENABLED *)
Definition FLAG_DIAGNOSTICS_ENABLED : Z := 2.

(* device_settings.h:44 FLAG_BUTTON_FEEDBACK_ENABLED *)
Definition FLAG_BUTTON_FEEDBACK_ENABLED : Z := 4.

(* device_settings.h:45-48 = KNOWN_FLAGS *)
Definition KNOWN_FLAGS : Z :=
  Z.lor (Z.lor FLAG_LED_ENABLED FLAG_DIAGNOSTICS_ENABLED) FLAG_BUTTON_FEEDBACK_ENABLED.

Module CodecResult.

(* device_settings.h:50-63 = enum class CodecResult *)
Inductive t :=
  OK | NULL_POINTER | WRONG_LENGTH | CORRUPT_MAGIC | CORRUPT_RECORD_LENGTH | CORRUPT_CRC
| UNSUPPORTED_SCHEMA | UNKNOWN_FLAGS | NONZERO_RESERVED | INVALID_TIMEOUT | INVALID_CONTRAST
| INVALID_SCREEN.

#[global] Instance eq_dec : EqDecision t.
Proof. solve_decision. Defined.

End CodecResult.

(* device_settings.h:65-67 = defaults *)
Definition defaults : Settings :=
  mkSettings DEFAULT_DISPLAY_TIMEOUT_SECONDS DEFAULT_DISPLAY_CONTRAST DEFAULT_LED_ENABLED
    DEFAULT_DIAGNOSTICS_ENABLED DEFAULT_SCREEN DEFAULT_BUTTON_FEEDBACK_ENABLED.

(* device_settings.h:69-78 = operator== of Settings *)
Definition settings_eqb (left right : Settings) : bool :=
  (displayTimeoutSeconds left =? displayTimeoutSeconds right)
  && (displayContrast left =? displayContrast right)
  && Bool.eqb (ledEnabled left) (ledEnabled right)
  && Bool.eqb (diagnosticsEnabled left) (diagnosticsEnabled right)
  && (defaultScreen left =? defaultScreen right)
  && Bool.eqb (buttonFeedbackEnabled left) (buttonFeedbackEnabled right).

(* device_settings.h:84-86 = isValidDisplayTimeoutSeconds *)
Definition isValidDisplayTimeoutSeconds (value : Z) : bool :=
  (value =? 0) || ((5 <=? value) && (value <=? 600)).

(* device_settings.h:88-90 = isValidDisplayContrast *)
Definition isValidDisplayContrast (value : Z) : bool := 16 <=? value.

(* device_settings.h:92-104 = isValidDefaultScreen *)
Definition isValidDefaultScreen (value : Z) : bool :=
  one_of value [DefaultScreen.HOME; DefaultScreen.RADIO; DefaultScreen.DEVICE;
    DefaultScreen.LAST_PACKET; DefaultScreen.DIAGNOSTICS; DefaultScreen.ABOUT].

(* device_settings.h:106-112 = isValid *)
Definition isValid (settings : Settings) : bool :=
  isValidDisplayTimeoutSeconds (displayTimeoutSeconds settings)
  && isValidDisplayContrast (displayContrast settings)
  && isValidDefaultScreen (defaultScreen settings).

(* device_settings.h:114-135 = validateAndRepair *)
Definition validateAndRepair (settings : Settings) : ValidationResult.t * Settings :=
  let '(settings, repaired) :=
    if negb (isValidDisplayTimeoutSeconds (displayTimeoutSeconds settings))
    then (settings <| displayTimeoutSeconds := DEFAULT_DISPLAY_TIMEOUT_SECONDS |>, true)
    else (settings, false) in
  let '(settings, repaired) :=
    if negb (isValidDisplayContrast (displayContrast settings))
    then (settings <| displayContrast := DEFAULT_DISPLAY_CONTRAST |>, true)
    else (settings, repaired) in
  let '(settings, repaired) :=
    if negb (isValidDefaultScreen (defaultScreen settings))
    then (settings <| defaultScreen := DEFAULT_SCREEN |>, true)
    else (settings, repaired) in
  (if repaired : bool then ValidationResult.REPAIRED else ValidationResult.UNCHANGED, settings).

(** ** Bytes *)

(* device_settings.h:137-140 = writeUint16Le *)
Definition writeUint16Le (output : list Z) (i : nat) (value : Z) : list Z := write16 output i value.

(* device_settings.h:142-147 = writeUint32Le *)
Definition writeUint32Le (output : list Z) (i : nat) (value : Z) : list Z := write32 output i value.

(* device_settings.h:149-154 = readUint16Le *)
Definition readUint16Le (input : list Z) (i : nat) : Z := read16 input i.

(* device_settings.h:156-163 = readUint32Le *)
Definition readUint32Le (input : list Z) (i : nat) : Z := read32 input i.

(* device_settings.h:177-181 = crc32IsoHdlc, the loop over bits *)
Fixpoint crcRounds (n : nat) (value : Z) : Z :=
  match n with
  | O => value
  | S m =>
      crcRounds m
        (if negb (Z.land value 1 =? 0) then Z.lxor (Z.shiftr value 1) 3988292384
         else Z.shiftr value 1)
  end.

(* device_settings.h:175-182 = crc32IsoHdlc, the loop over bytes *)
Fixpoint crcBytes (n : nat) (i : nat) (input : list Z) (value : Z) : Z :=
  match n with
  | O => value
  | S m => crcBytes m (S i) input (crcRounds 8 (Z.lxor value (rd input i)))
  end.

(* device_settings.h:165-186 = crc32IsoHdlc *)
Definition crc32IsoHdlc (input : option (list Z)) (length : nat) (crc : Z) : bool * Z :=
  match input with
  | None => (false, crc)
  | Some l => (true, Z.lxor (crcBytes length 0 l UINT32_MAX) UINT32_MAX)
  end.

(** ** The record *)

(* device_settings.h:188-199 = validateCodecSettings *)
Definition validateCodecSettings (settings : Settings) : CodecResult.t :=
  if negb (isValidDisplayTimeoutSeconds (displayTimeoutSeconds settings))
  then CodecResult.INVALID_TIMEOUT else
  if negb (isValidDisplayContrast (displayContrast settings))
  then CodecResult.INVALID_CONTRAST else
  if negb (isValidDefaultScreen (defaultScreen settings))
  then CodecResult.INVALID_SCREEN else
  CodecResult.OK.

(** The byte of a record that holds the three switches. *)
(* device_settings.h:229-235 = encodeRecord, the flags *)
Definition flagsByte (settings : Settings) : Z :=
  u8 (Z.lor (Z.lor (if ledEnabled settings then FLAG_LED_ENABLED else 0)
                   (if diagnosticsEnabled settings then FLAG_DIAGNOSTICS_ENABLED else 0))
            (if buttonFeedbackEnabled settings then FLAG_BUTTON_FEEDBACK_ENABLED else 0)).

(* device_settings.h:201-244 = encodeRecord *)
Definition encodeRecord (settings : Settings) (generation : Z) (output : option (list Z))
    (outputLength : nat) : CodecResult.t * option (list Z) :=
  match output with
  | None => (CodecResult.NULL_POINTER, None)
  | Some out =>
      if negb (outputLength =? RECORD_SIZE)%nat then (CodecResult.WRONG_LENGTH, output) else
      let settingsResult := validateCodecSettings settings in
      if negb (bool_decide (settingsResult = CodecResult.OK)) then (settingsResult, output) else
      let out := upd (upd (upd (upd out 0 82) 1 76) 2 67) 3 70 in
      let out := writeUint16Le out 4 SCHEMA_VERSION in
      let out := writeUint16Le out 6 (Z.of_nat RECORD_SIZE) in
      let out := writeUint32Le out 8 generation in
      let out := writeUint16Le out 12 (displayTimeoutSeconds settings) in
      let out := upd out 14 (displayContrast settings) in
      let out := upd out 15 (defaultScreen settings) in
      let out := upd out 16 (flagsByte settings) in
      let out := upd (upd (upd out 17 0) 18 0) 19 0 in
      let crc := (crc32IsoHdlc (Some out) CRC_INPUT_SIZE 0).2 in
      (CodecResult.OK, Some (writeUint32Le out 20 crc))
  end.

(** The fields of a record, as both decoders read them. *)
(* device_settings.h:285-293 = decodeRecord, reading the settings *)
Definition fieldsOf (input : list Z) : Settings :=
  mkSettings (readUint16Le input 12) (rd input 14)
    (negb (Z.land (rd input 16) FLAG_LED_ENABLED =? 0))
    (negb (Z.land (rd input 16) FLAG_DIAGNOSTICS_ENABLED =? 0))
    (rd input 15)
    (negb (Z.land (rd input 16) FLAG_BUTTON_FEEDBACK_ENABLED =? 0)).

(** The overload over pointers: what an argument points at is returned as it is
    left, [None] for a null pointer. *)
(* device_settings.h:246-303 = decodeRecord over pointers *)
Definition decodeRecordAt (input : option (list Z)) (inputLength : nat)
    (settings : option Settings) (generation : option Z)
    : CodecResult.t * option Settings * option Z :=
  let fails r := (r, settings, generation) in
  match input, settings, generation with
  | Some inp, Some _, Some _ =>
      if negb (inputLength =? RECORD_SIZE)%nat then fails CodecResult.WRONG_LENGTH else
      if negb (rd inp 0 =? 82) || negb (rd inp 1 =? 76) || negb (rd inp 2 =? 67)
         || negb (rd inp 3 =? 70) then fails CodecResult.CORRUPT_MAGIC else
      if negb (readUint16Le inp 6 =? Z.of_nat RECORD_SIZE)
      then fails CodecResult.CORRUPT_RECORD_LENGTH else
      let calculatedCrc := (crc32IsoHdlc input CRC_INPUT_SIZE 0).2 in
      if negb (readUint32Le inp 20 =? calculatedCrc) then fails CodecResult.CORRUPT_CRC else
      if negb (readUint16Le inp 4 =? SCHEMA_VERSION)
      then fails CodecResult.UNSUPPORTED_SCHEMA else
      if negb (Z.land (rd inp 16) (u8 (Z.lnot KNOWN_FLAGS)) =? 0)
      then fails CodecResult.UNKNOWN_FLAGS else
      if negb (rd inp 17 =? 0) || negb (rd inp 18 =? 0) || negb (rd inp 19 =? 0)
      then fails CodecResult.NONZERO_RESERVED else
      let decoded := fieldsOf inp in
      let settingsResult := validateCodecSettings decoded in
      if negb (bool_decide (settingsResult = CodecResult.OK)) then fails settingsResult else
      (CodecResult.OK, Some decoded, Some (readUint32Le inp 8))
  | _, _, _ => fails CodecResult.NULL_POINTER
  end.

(* device_settings.h:305-312 = decodeRecord *)
Definition decodeRecord (input : option (list Z)) (inputLength : nat)
    (settings : Settings) (generation : Z) : CodecResult.t * Settings * Z :=
  let '(r, s, g) := decodeRecordAt input inputLength (Some settings) (Some generation) in
  (r, default settings s, default generation g).

(* device_settings.h:314-359 = decodeRecordWithRepair *)
Definition decodeRecordWithRepair (input : option (list Z)) (inputLength : nat)
    (settings : Settings) (generation : Z) (repaired : bool)
    : CodecResult.t * Settings * Z * bool :=
  let '(strictResult, decoded, decodedGeneration) :=
    decodeRecord input inputLength defaults 0 in
  if bool_decide (strictResult = CodecResult.OK)
  then (CodecResult.OK, decoded, decodedGeneration, false) else
  if negb (bool_decide (strictResult = CodecResult.INVALID_TIMEOUT))
     && negb (bool_decide (strictResult = CodecResult.INVALID_CONTRAST))
     && negb (bool_decide (strictResult = CodecResult.INVALID_SCREEN))
  then (strictResult, settings, generation, repaired) else
  match input with
  | Some inp =>
      (CodecResult.OK, (validateAndRepair (fieldsOf inp)).2, readUint32Le inp 8, true)
  | None => (strictResult, settings, generation, repaired)
  end.

(** ** The store *)

(* device_settings.h:361-364 = enum class RecordSlot *)
Inductive RecordSlot := A | B.

#[global] Instance RecordSlot_eq_dec : EqDecision RecordSlot.
Proof. solve_decision. Defined.

Module StoreResult.

(* device_settings.h:366-372 = enum class StoreResult *)
Inductive t := OK | MISSING | MALFORMED | UNAVAILABLE | ERROR.

#[global] Instance eq_dec : EqDecision t.
Proof. solve_decision. Defined.

End StoreResult.

(** What a caller passes by reference goes in and comes out: a buffer and its
    length, the state of the marker. *)
(* device_settings.h:374-398 = class RecordStore *)
Class RecordStore (W : Type) := {
  readSlot : RecordSlot → list Z → nat → st W (StoreResult.t * list Z * nat);
  writeSlot : RecordSlot → list Z → nat → st W StoreResult.t;
  removeSlot : RecordSlot → st W StoreResult.t;
  readResetMarker : bool → st W (StoreResult.t * bool);
  writeResetMarker : bool → st W StoreResult.t;
  removeResetMarker : st W StoreResult.t
}.

Module LoadStatus.

(* device_settings.h:400-410 = enum class LoadStatus *)
Inductive t :=
  LOADED | DEFAULTED_MISSING | LOADED_FALLBACK_SLOT | REPAIRED_SCHEMA_1 | DEFAULTED_CORRUPT
| UNSUPPORTED_SCHEMA | STORAGE_UNAVAILABLE | RESET_COMPLETED | RESET_RECOVERY_FAILED.

#[global] Instance eq_dec : EqDecision t.
Proof. solve_decision. Defined.

End LoadStatus.

Module SaveStatus.

(* device_settings.h:412-422 = enum class SaveStatus *)
Inductive t :=
  SAVED | REPAIRED_SAVED | UNCHANGED | REPAIRED_UNCHANGED | UNSUPPORTED_SCHEMA
| STORAGE_UNAVAILABLE | WRITE_FAILED | READ_BACK_FAILED | VERIFICATION_FAILED.

#[global] Instance eq_dec : EqDecision t.
Proof. solve_decision. Defined.

End SaveStatus.

Module ResetResult.

(* device_settings.h:424-434 = enum class ResetResult *)
Inductive t :=
  RESET_COMPLETED | RESET_NOT_PENDING | STORAGE_UNAVAILABLE | MARKER_WRITE_FAILED
| MARKER_VERIFY_FAILED | SLOT_REMOVE_FAILED | DEFAULT_WRITE_FAILED | DEFAULT_VERIFY_FAILED
| MARKER_REMOVE_FAILED.

#[global] Instance eq_dec : EqDecision t.
Proof. solve_decision. Defined.

End ResetResult.

Module MigrationResult.

(* device_settings.h:436-440 = enum class MigrationResult *)
Inductive t := SCHEMA_1_DIRECT | NOT_MIGRATION | UNSUPPORTED_SCHEMA.

End MigrationResult.

(* device_settings.h:442-468 = dispatchMigration *)
Definition dispatchMigration (input : option (list Z)) (inputLength : nat) : MigrationResult.t :=
  match input with
  | None => MigrationResult.NOT_MIGRATION
  | Some inp =>
      if negb (inputLength =? RECORD_SIZE)%nat then MigrationResult.NOT_MIGRATION else
      if negb (rd inp 0 =? 82) || negb (rd inp 1 =? 76) || negb (rd inp 2 =? 67)
         || negb (rd inp 3 =? 70) || negb (readUint16Le inp 6 =? Z.of_nat RECORD_SIZE)
      then MigrationResult.NOT_MIGRATION else
      let calculatedCrc := (crc32IsoHdlc input CRC_INPUT_SIZE 0).2 in
      if negb (readUint32Le inp 20 =? calculatedCrc) then MigrationResult.NOT_MIGRATION else
      if readUint16Le inp 4 =? SCHEMA_VERSION then MigrationResult.SCHEMA_1_DIRECT
      else MigrationResult.UNSUPPORTED_SCHEMA
  end.

(* device_settings.h:470-472 = generationIsNewer *)
Definition generationIsNewer (candidate reference : Z) : bool :=
  0 <? sint32 (u32 (candidate - reference)).

(** ** The manager *)

Module SlotKind.

(* device_settings.h:709-716 = enum class SlotKind *)
Inductive t := MISSING | VALID | REPAIRED | CORRUPT | UNSUPPORTED | UNAVAILABLE.

#[global] Instance eq_dec : EqDecision t.
Proof. solve_decision. Defined.

End SlotKind.

(* device_settings.h:718-724 = struct SlotRecord *)
Record SlotRecord := mkSlotRecord {
  kind : SlotKind.t;
  slot_settings : Settings;
  slot_generation : Z;
  slot_bytes : list Z;
  slot_length : nat
}.

(* device_settings.h:955-962 = SettingsManager, its members *)
Record SettingsManager := mkManager {
  settings_ : Settings;
  generation_ : Z;
  activeSlot_ : RecordSlot;
  hasActiveSlot_ : bool;
  repairPending_ : bool;
  unsupportedSlotA_ : bool;
  unsupportedSlotB_ : bool;
  lastResetResult_ : ResetResult.t
}.

#[export] Instance etaManager : RecEta SettingsManager :=
  λ m, mkManager (settings_ m) (generation_ m) (activeSlot_ m) (hasActiveSlot_ m)
    (repairPending_ m) (unsupportedSlotA_ m) (unsupportedSlotB_ m) (lastResetResult_ m).

(* device_settings.h:955-962 = SettingsManager, as constructed *)
Definition newManager : SettingsManager :=
  mkManager defaults 0 A false false false false ResetResult.RESET_NOT_PENDING.

(* device_settings.h:726-728 = SettingsManager::opposite *)
Definition opposite (slot : RecordSlot) : RecordSlot :=
  match slot with A => B | B => A end.

(* device_settings.h:730-734 = SettingsManager::isUnsupportedSlot *)
Definition isUnsupportedSlot (slot : RecordSlot) (m : SettingsManager) : bool :=
  match slot with A => unsupportedSlotA_ m | B => unsupportedSlotB_ m end.

(* device_settings.h:696-698 = SettingsManager::unsupportedSchema *)
Definition unsupportedSchema (m : SettingsManager) : bool :=
  unsupportedSlotA_ m || unsupportedSlotB_ m.

(* device_settings.h:736-739 = SettingsManager::isUsable *)
Definition isUsable (record : SlotRecord) : bool :=
  bool_decide (kind record = SlotKind.VALID) || bool_decide (kind record = SlotKind.REPAIRED).

(* device_settings.h:741-754 = SettingsManager::recordsEqual *)
Definition recordsEqual (left right : SlotRecord) : bool :=
  if negb (slot_length left =? slot_length right)%nat then false
  else bytes_eqb (slot_length left) (slot_bytes left) (slot_bytes right) 0.

(** The check that bytes read back hold [settings] as generation [generation]. *)
(* device_settings.h:872-884 = completeVerifiedReset, the verification *)
Definition verifies (readBack : list Z) (readBackLength : nat) (settings : Settings)
    (generation : Z) : bool :=
  let '(r, verified, verifiedGeneration) :=
    decodeRecord (Some readBack) readBackLength defaults 0 in
  bool_decide (r = CodecResult.OK) && (verifiedGeneration =? generation)
  && settings_eqb verified settings.

Section Manager.

Context {W : Type} `{RecordStore W}.

Abbreviation M := (st (SettingsManager * W)).

(* device_settings.h:756-797 = SettingsManager::readAndClassify *)
Definition readAndClassify (slot : RecordSlot) : st W SlotRecord :=
  r <~ readSlot slot (zeros RECORD_SIZE) RECORD_SIZE ;;
  let '(readResult, bytes, length) := r in
  let record k := mkSlotRecord k defaults 0 bytes length in
  if bool_decide (readResult = StoreResult.MISSING) then ret (record SlotKind.MISSING) else
  if bool_decide (readResult = StoreResult.MALFORMED) then ret (record SlotKind.CORRUPT) else
  if negb (bool_decide (readResult = StoreResult.OK)) then ret (record SlotKind.UNAVAILABLE) else
  let '(decodeResult, settings, generation, repaired) :=
    decodeRecordWithRepair (Some bytes) length defaults 0 false in
  ret (mkSlotRecord
         (if bool_decide (decodeResult = CodecResult.UNSUPPORTED_SCHEMA) then SlotKind.UNSUPPORTED
          else if negb (bool_decide (decodeResult = CodecResult.OK)) then SlotKind.CORRUPT
          else if repaired then SlotKind.REPAIRED else SlotKind.VALID)
         settings generation bytes length).

(* device_settings.h:799-818 = SettingsManager::applySelected *)
Definition applySelected (selected : SlotRecord) (slot : RecordSlot) (fallback : bool)
    : M LoadStatus.t :=
  update (λ m, m <| settings_ := slot_settings selected |>
                 <| generation_ := slot_generation selected |>
                 <| activeSlot_ := slot |> <| hasActiveSlot_ := true |>) ;;;
  if bool_decide (kind selected = SlotKind.REPAIRED) then
    update (λ m, m <| repairPending_ := true |>) ;;; ret LoadStatus.REPAIRED_SCHEMA_1
  else if fallback then
    update (λ m, m <| repairPending_ := true |>) ;;; ret LoadStatus.LOADED_FALLBACK_SLOT
  else ret LoadStatus.LOADED.

(* device_settings.h:915-942 = SettingsManager::removeAndVerifySlot *)
Definition removeAndVerifySlot (slot : RecordSlot) : st W ResetResult.t :=
  removeResult <~ removeSlot slot ;;
  if bool_decide (removeResult = StoreResult.UNAVAILABLE)
  then ret ResetResult.STORAGE_UNAVAILABLE else
  if negb (bool_decide (removeResult = StoreResult.OK))
     && negb (bool_decide (removeResult = StoreResult.MISSING))
  then ret ResetResult.SLOT_REMOVE_FAILED else
  r <~ readSlot slot (zeros RECORD_SIZE) RECORD_SIZE ;;
  let '(verifyResult, _, _) := r in
  if bool_decide (verifyResult = StoreResult.UNAVAILABLE)
  then ret ResetResult.STORAGE_UNAVAILABLE else
  ret (if bool_decide (verifyResult = StoreResult.MISSING) then ResetResult.RESET_COMPLETED
       else ResetResult.SLOT_REMOVE_FAILED).

(** The part of [completeVerifiedReset] that follows the removal of the slots:
    the default record is written and verified, the marker removed. *)
(* device_settings.h:837-912 = completeVerifiedReset, after the removals *)
Definition writeDefaults : M ResetResult.t :=
  let canonicalDefaults := defaults in
  match encodeRecord canonicalDefaults 1 (Some (zeros RECORD_SIZE)) RECORD_SIZE with
  | (CodecResult.OK, Some encoded) =>
      writeResult <~ outside (writeSlot A encoded RECORD_SIZE) ;;
      if bool_decide (writeResult = StoreResult.UNAVAILABLE)
      then ret ResetResult.STORAGE_UNAVAILABLE else
      if negb (bool_decide (writeResult = StoreResult.OK))
      then ret ResetResult.DEFAULT_WRITE_FAILED else
      r <~ outside (readSlot A (zeros RECORD_SIZE) RECORD_SIZE) ;;
      let '(readResult, readBack, readBackLength) := r in
      if bool_decide (readResult = StoreResult.UNAVAILABLE)
      then ret ResetResult.STORAGE_UNAVAILABLE else
      if negb (bool_decide (readResult = StoreResult.OK))
         || negb (verifies readBack readBackLength canonicalDefaults 1)
      then ret ResetResult.DEFAULT_VERIFY_FAILED else
      removeMarkerResult <~ outside removeResetMarker ;;
      if bool_decide (removeMarkerResult = StoreResult.UNAVAILABLE)
      then ret ResetResult.STORAGE_UNAVAILABLE else
      if negb (bool_decide (removeMarkerResult = StoreResult.OK))
      then ret ResetResult.MARKER_REMOVE_FAILED else
      v <~ outside (readResetMarker false) ;;
      let '(verifyMarkerResult, _) := v in
      if bool_decide (verifyMarkerResult = StoreResult.UNAVAILABLE)
      then ret ResetResult.STORAGE_UNAVAILABLE else
      if negb (bool_decide (verifyMarkerResult = StoreResult.MISSING))
      then ret ResetResult.MARKER_REMOVE_FAILED else
      update (λ m, m <| settings_ := canonicalDefaults |> <| generation_ := 1 |>
                     <| activeSlot_ := A |> <| hasActiveSlot_ := true |>
                     <| repairPending_ := false |> <| unsupportedSlotA_ := false |>
                     <| unsupportedSlotB_ := false |>) ;;;
      ret ResetResult.RESET_COMPLETED
  | _ => ret ResetResult.DEFAULT_WRITE_FAILED
  end.

(* device_settings.h:820-913 = SettingsManager::completeVerifiedReset *)
Definition completeVerifiedReset : M ResetResult.t :=
  removeAResult <~ outside (removeAndVerifySlot A) ;;
  if negb (bool_decide (removeAResult = ResetResult.RESET_COMPLETED)) then ret removeAResult else
  removeBResult <~ outside (removeAndVerifySlot B) ;;
  if negb (bool_decide (removeBResult = ResetResult.RESET_COMPLETED)) then ret removeBResult else
  writeDefaults.

(* device_settings.h:944-953 = SettingsManager::resetRuntimeState *)
Definition resetRuntimeState : M unit := update (λ _, newManager).

(** [lastResetResult_ = result; return lastResetResult_;] *)
(* device_settings.h:551-552 = factoryReset, noting its result *)
Definition note (result : ResetResult.t) : M ResetResult.t :=
  update (λ m, m <| lastResetResult_ := result |>) ;;; ret result.

(* device_settings.h:547-572 = SettingsManager::factoryReset *)
Definition factoryReset : M ResetResult.t :=
  writeMarkerResult <~ outside (writeResetMarker true) ;;
  if bool_decide (writeMarkerResult = StoreResult.UNAVAILABLE)
  then note ResetResult.STORAGE_UNAVAILABLE else
  if negb (bool_decide (writeMarkerResult = StoreResult.OK))
  then note ResetResult.MARKER_WRITE_FAILED else
  r <~ outside (readResetMarker false) ;;
  let '(readMarkerResult, pending) := r in
  if bool_decide (readMarkerResult = StoreResult.UNAVAILABLE)
  then note ResetResult.STORAGE_UNAVAILABLE else
  if negb (bool_decide (readMarkerResult = StoreResult.OK)) || negb pending
  then note ResetResult.MARKER_VERIFY_FAILED else
  result <~ completeVerifiedReset ;;
  note result.

(* device_settings.h:574-593 = SettingsManager::recoverPendingReset *)
Definition recoverPendingReset : M ResetResult.t :=
  r <~ outside (readResetMarker false) ;;
  let '(markerResult, pending) := r in
  if bool_decide (markerResult = StoreResult.MISSING)
     || (bool_decide (markerResult = StoreResult.OK) && negb pending)
  then note ResetResult.RESET_NOT_PENDING else
  if bool_decide (markerResult = StoreResult.UNAVAILABLE)
  then note ResetResult.STORAGE_UNAVAILABLE else
  if negb (bool_decide (markerResult = StoreResult.OK))
  then note ResetResult.MARKER_VERIFY_FAILED else
  result <~ completeVerifiedReset ;;
  note result.

(** The part of [load] that follows the reading of the slots. *)
(* device_settings.h:495-545 = load, choosing between the slots *)
Definition selectSlot (slotA slotB : SlotRecord) : M LoadStatus.t :=
  if bool_decide (kind slotA = SlotKind.UNAVAILABLE)
     || bool_decide (kind slotB = SlotKind.UNAVAILABLE)
  then ret LoadStatus.STORAGE_UNAVAILABLE else
  update (λ m, m <| unsupportedSlotA_ := bool_decide (kind slotA = SlotKind.UNSUPPORTED) |>
                 <| unsupportedSlotB_ := bool_decide (kind slotB = SlotKind.UNSUPPORTED) |>) ;;;
  let aUsable := isUsable slotA in
  let bUsable := isUsable slotB in
  let corrupt :=
    update (λ m, m <| repairPending_ := true |>) ;;; ret LoadStatus.DEFAULTED_CORRUPT in
  if negb aUsable && negb bUsable then
    unsupported <~ this unsupportedSchema ;;
    if unsupported : bool then ret LoadStatus.UNSUPPORTED_SCHEMA else
    if bool_decide (kind slotA = SlotKind.MISSING) && bool_decide (kind slotB = SlotKind.MISSING)
    then ret LoadStatus.DEFAULTED_MISSING else
    corrupt
  else if aUsable && bUsable then
    if slot_generation slotA =? slot_generation slotB then
      if negb (recordsEqual slotA slotB) then corrupt else applySelected slotA A false
    else if generationIsNewer (slot_generation slotA) (slot_generation slotB)
    then applySelected slotA A false
    else if generationIsNewer (slot_generation slotB) (slot_generation slotA)
    then applySelected slotB B false
    else corrupt
  else
    let selected := if aUsable then slotA else slotB in
    let selectedSlot := if aUsable then A else B in
    let other := if aUsable then slotB else slotA in
    applySelected selected selectedSlot (bool_decide (kind other = SlotKind.CORRUPT)).

(* device_settings.h:478-545 = SettingsManager::load *)
Definition load : M LoadStatus.t :=
  resetRuntimeState ;;;
  resetResult <~ recoverPendingReset ;;
  if bool_decide (resetResult = ResetResult.RESET_COMPLETED)
  then ret LoadStatus.RESET_COMPLETED else
  if bool_decide (resetResult = ResetResult.STORAGE_UNAVAILABLE)
  then ret LoadStatus.STORAGE_UNAVAILABLE else
  if negb (bool_decide (resetResult = ResetResult.RESET_NOT_PENDING))
  then ret LoadStatus.RESET_RECOVERY_FAILED else
  slotA <~ outside (readAndClassify A) ;;
  slotB <~ outside (readAndClassify B) ;;
  selectSlot slotA slotB.

(** The part of [save] that follows its early returns: the record is written to
    [target], read back and adopted. *)
(* device_settings.h:616-673 = save, committing the record *)
Definition commitTo (target : RecordSlot) (canonical : Settings) (candidateRepaired : bool)
    (nextGeneration : Z) : M SaveStatus.t :=
  match encodeRecord canonical nextGeneration (Some (zeros RECORD_SIZE)) RECORD_SIZE with
  | (CodecResult.OK, Some encoded) =>
      writeResult <~ outside (writeSlot target encoded RECORD_SIZE) ;;
      if bool_decide (writeResult = StoreResult.UNAVAILABLE)
      then ret SaveStatus.STORAGE_UNAVAILABLE else
      if negb (bool_decide (writeResult = StoreResult.OK)) then ret SaveStatus.WRITE_FAILED else
      r <~ outside (readSlot target (zeros RECORD_SIZE) RECORD_SIZE) ;;
      let '(readResult, readBack, readBackLength) := r in
      if bool_decide (readResult = StoreResult.UNAVAILABLE)
      then ret SaveStatus.STORAGE_UNAVAILABLE else
      if negb (bool_decide (readResult = StoreResult.OK)) then ret SaveStatus.READ_BACK_FAILED else
      if negb (verifies readBack readBackLength canonical nextGeneration)
      then ret SaveStatus.VERIFICATION_FAILED else
      update (λ m, m <| settings_ := canonical |> <| generation_ := nextGeneration |>
                     <| activeSlot_ := target |> <| hasActiveSlot_ := true |>
                     <| repairPending_ := false |>) ;;;
      ret (if candidateRepaired then SaveStatus.REPAIRED_SAVED else SaveStatus.SAVED)
  | _ => ret SaveStatus.VERIFICATION_FAILED
  end.

(* device_settings.h:595-674 = SettingsManager::save *)
Definition save (candidate : Settings) : M SaveStatus.t :=
  let (validation, canonical) := validateAndRepair candidate in
  let candidateRepaired :=
    match validation with ValidationResult.REPAIRED => true | _ => false end in
  m <~ this (λ m, m) ;;
  if negb (hasActiveSlot_ m) && unsupportedSchema m then ret SaveStatus.UNSUPPORTED_SCHEMA else
  if settings_eqb canonical (settings_ m) && negb (repairPending_ m) then
    ret (if candidateRepaired then SaveStatus.REPAIRED_UNCHANGED else SaveStatus.UNCHANGED)
  else
  let target := if hasActiveSlot_ m then opposite (activeSlot_ m) else A in
  if isUnsupportedSlot target m then ret SaveStatus.UNSUPPORTED_SCHEMA else
  commitTo target canonical candidateRepaired (u32 (generation_ m + 1)).

End Manager.

End DeviceSettings.
