(* ===== verification/SettingsFacts.v ===== *)
(** The settings record and its manager.

    The record codec is exact: 24 bytes decode exactly when they are the
    encoding of valid settings.  The store's laws say what flash holds between
    calls, a failed call included; over them a slot pair has one [selected]
    record, which a load returns and a save replaces. *)

From S2P Require Import Prelude Records Settings.

Module SettingsFacts.

Import DeviceSettings.

(** ** Valid settings *)

(** The widths of the members. *)
Definition settings_wf (s : Settings) : Prop :=
  is_u16 (displayTimeoutSeconds s) ∧ is_u8 (displayContrast s) ∧ is_u8 (defaultScreen s).

Definition repaired (s : Settings) : Settings := (validateAndRepair s).2.

Lemma validateAndRepair_cases s :
  (repaired s = s ∧ isValid s = true ∨ isValid s = false) ∧ isValid (repaired s) = true
  ∧ (settings_wf s → settings_wf (repaired s)).
Proof.
  unfold repaired, validateAndRepair, isValid, settings_wf, rec_set.
  destruct s as [t c l d sc f]. cbn [displayTimeoutSeconds displayContrast defaultScreen].
  destruct (isValidDisplayTimeoutSeconds t) eqn:Et, (isValidDisplayContrast c) eqn:Ec,
    (isValidDefaultScreen sc) eqn:Es;
    repeat (progress (cbn -[isValidDisplayTimeoutSeconds isValidDisplayContrast
      isValidDefaultScreen]; rewrite ?Et, ?Ec, ?Es));
    (split; [first [by left|by right]|split; [done|]]); intros (? & ? & ?);
    unfold DEFAULT_DISPLAY_TIMEOUT_SECONDS, DEFAULT_DISPLAY_CONTRAST, DEFAULT_SCREEN,
      DefaultScreen.HOME; split_and!; try done; uint.
Qed.

Lemma repaired_valid s : isValid (repaired s) = true.
Proof. apply validateAndRepair_cases. Qed.

Lemma repaired_wf s : settings_wf s → settings_wf (repaired s).
Proof. apply validateAndRepair_cases. Qed.

Lemma settings_eqb_eq s t : settings_eqb s t = true ↔ s = t.
Proof.
  unfold settings_eqb. destruct s, t. cbn.
  rewrite !andb_true_iff, !Bool.eqb_true_iff, !Z.eqb_eq. naive_solver.
Qed.

Lemma validateCodecSettings_ok s : validateCodecSettings s = CodecResult.OK ↔ isValid s = true.
Proof.
  unfold validateCodecSettings, isValid.
  destruct (isValidDisplayTimeoutSeconds _), (isValidDisplayContrast _),
    (isValidDefaultScreen _); done.
Qed.

(** ** The record codec *)

(** The checksum is the one of the event records. *)
Lemma crc32_event_records input n c :
  crc32IsoHdlc input n c = EventRecords.crc32IsoHdlc input n c.
Proof. reflexivity. Qed.

Definition MAGIC : list Z := [82; 76; 67; 70].

(** The bytes after the generation. *)
Definition settingsBytes (s : Settings) : list Z :=
  le16 (displayTimeoutSeconds s) ++ [displayContrast s; defaultScreen s; flagsByte s; 0; 0; 0].

(** The record of [s] as generation [g]. *)
Definition record_of (s : Settings) (g : Z) : list Z :=
  EventRecords.sealed (EventRecords.envelope MAGIC RECORD_SIZE g ++ settingsBytes s).

Lemma length_record_of s g : length (record_of s g) = RECORD_SIZE.
Proof. reflexivity. Qed.

Lemma encodeRecord_spec s g out :
  isValid s = true → length out = RECORD_SIZE →
  encodeRecord s g (Some out) RECORD_SIZE = (CodecResult.OK, Some (record_of s g)).
Proof.
  intros Hv%validateCodecSettings_ok Hl. unfold encodeRecord. rewrite Hv. cbn [negb Nat.eqb].
  rewrite bool_decide_eq_true_2 by done. cbn [negb]. do 2 f_equal. unfold RECORD_SIZE in Hl.
  explode out Hl. rewrite crc32_event_records.
  set (body := EventRecords.envelope MAGIC RECORD_SIZE g ++ settingsBytes s).
  match goal with |- writeUint32Le ?o _ _ = _ =>
    assert (E : o = body ++ [x19; x20; x21; x22]) by reflexivity; rewrite E end.
  change CRC_INPUT_SIZE with (length body). rewrite EventRecords.crc32_prefix. cbn [snd].
  unfold writeUint32Le. change 20%nat with (length body). rewrite write32_split.
  by rewrite app_nil_r.
Qed.

(** The switches and their byte. *)

Definition switchesOf (b : Z) : Settings :=
  mkSettings 0 0 (negb (Z.land b FLAG_LED_ENABLED =? 0))
    (negb (Z.land b FLAG_DIAGNOSTICS_ENABLED =? 0)) 0
    (negb (Z.land b FLAG_BUTTON_FEEDBACK_ENABLED =? 0)).

Lemma switches_table :
  forallb (λ n, let b := Z.of_nat n in
    negb (Z.land b (u8 (Z.lnot KNOWN_FLAGS)) =? 0) || (flagsByte (switchesOf b) =? b)) (seq 0 256)
  = true.
Proof. vm_compute. reflexivity. Qed.

Lemma flagsByte_switches b :
  is_u8 b → Z.land b (u8 (Z.lnot KNOWN_FLAGS)) = 0 → flagsByte (switchesOf b) = b.
Proof.
  intros Hb Hk. pose proof (proj1 (forallb_forall _ _) switches_table (Z.to_nat b)) as T.
  unfold is_uint in Hb. change (2 ^ 8) with 256 in Hb.
  cbv zeta beta in T. rewrite Z2Nat.id in T by lia. rewrite Hk in T.
  apply Z.eqb_eq, T, in_seq. lia.
Qed.

Lemma flagsByte_known s :
  is_u8 (flagsByte s) ∧ Z.land (flagsByte s) (u8 (Z.lnot KNOWN_FLAGS)) = 0
  ∧ negb (Z.land (flagsByte s) FLAG_LED_ENABLED =? 0) = ledEnabled s
  ∧ negb (Z.land (flagsByte s) FLAG_DIAGNOSTICS_ENABLED =? 0) = diagnosticsEnabled s
  ∧ negb (Z.land (flagsByte s) FLAG_BUTTON_FEEDBACK_ENABLED =? 0) = buttonFeedbackEnabled s.
Proof.
  unfold flagsByte. destruct (ledEnabled s), (diagnosticsEnabled s), (buttonFeedbackEnabled s);
    concrete.
Qed.

(** What the decoder checks: an envelope, known flags, zeros and valid fields. *)
Lemma decodeRecord_ok inp s0 g0 s g :
  length inp = RECORD_SIZE →
  decodeRecord (Some inp) RECORD_SIZE s0 g0 = (CodecResult.OK, s, g)
  ↔ EventRecords.validateEnvelope (Some inp) RECORD_SIZE MAGIC = EventRecords.OK
    ∧ Z.land (rd inp 16) (u8 (Z.lnot KNOWN_FLAGS)) = 0
    ∧ (rd inp 17 = 0 ∧ rd inp 18 = 0 ∧ rd inp 19 = 0)
    ∧ isValid s = true ∧ s = fieldsOf inp ∧ g = readUint32Le inp 8.
Proof.
  intros Hl. unfold EventRecords.validateEnvelope. rewrite Hl.
  unfold EventRecords.sameMagic, decodeRecord, decodeRecordAt. rewrite crc32_event_records.
  change (RECORD_SIZE - 4)%nat with 20%nat. change CRC_INPUT_SIZE with 20%nat.
  change EventRecords.readUint16Le with readUint16Le.
  change EventRecords.readUint32Le with readUint32Le.
  change EventRecords.SCHEMA_VERSION with SCHEMA_VERSION.
  change (rd MAGIC 0) with 82. change (rd MAGIC 1) with 76.
  change (rd MAGIC 2) with 67. change (rd MAGIC 3) with 70. cbn [Nat.eqb RECORD_SIZE negb].
  destruct (rd inp 0 =? 82), (rd inp 1 =? 76), (rd inp 2 =? 67), (rd inp 3 =? 70); bsimp;
    try (split; [discriminate|naive_solver]).
  destruct (readUint16Le inp 6 =? _); bsimp; [|split; [discriminate|naive_solver]].
  destruct (readUint32Le inp 20 =? _); bsimp; [|split; [discriminate|naive_solver]].
  destruct (readUint16Le inp 4 =? _); bsimp; [|split; [discriminate|naive_solver]].
  destruct (Z.eqb_spec (Z.land (rd inp 16) (u8 (Z.lnot KNOWN_FLAGS))) 0); bsimp;
    [|split; [discriminate|naive_solver]].
  destruct (Z.eqb_spec (rd inp 17) 0), (Z.eqb_spec (rd inp 18) 0), (Z.eqb_spec (rd inp 19) 0);
    bsimp; try (split; [discriminate|naive_solver]).
  destruct (isValid (fieldsOf inp)) eqn:Hv.
  - apply validateCodecSettings_ok in Hv as Ho. rewrite Ho, bool_decide_eq_true_2 by done.
    cbn [negb default from_option id]. split; [intros [= <- <-]; naive_solver|naive_solver].
  - rewrite bool_decide_eq_false_2.
    + cbn [negb default from_option id]. split; [|naive_solver congruence].
      intros [= Ho _ _]. apply validateCodecSettings_ok in Ho. congruence.
    + intros Ho%validateCodecSettings_ok. congruence.
Qed.

Lemma decodeRecord_wrong_length inp n s0 g0 :
  n ≠ RECORD_SIZE → (decodeRecord (Some inp) n s0 g0).1.1 = CodecResult.WRONG_LENGTH.
Proof.
  intros Hn. unfold decodeRecord, decodeRecordAt. by rewrite (proj2 (Nat.eqb_neq _ _) Hn).
Qed.

Lemma decodeRecord_inv inp s0 g0 s g :
  is_byte_list inp → length inp = RECORD_SIZE →
  decodeRecord (Some inp) RECORD_SIZE s0 g0 = (CodecResult.OK, s, g) →
  settings_wf s ∧ isValid s = true ∧ is_u32 g ∧ inp = record_of s g.
Proof.
  intros Hb Hl (He & Hf & (H17 & H18 & H19) & Hv & -> & ->)%decodeRecord_ok; [|done].
  apply EventRecords.validateEnvelope_inv in He as (g' & rest & Hg & Hrb & Hrl & Einp);
    [|done|done|unfold RECORD_SIZE; lia|unfold MAGIC; concrete].
  cbn in Hrl. explode rest Hrl.
  assert (Eg : readUint32Le inp 8 = g').
  { rewrite Einp. unfold readUint32Le. by EventRecords.reads. }
  assert (Es : fieldsOf inp = mkSettings (Z.lor x (Z.shiftl x0 8)) x1
    (ledEnabled (switchesOf x3)) (diagnosticsEnabled (switchesOf x3)) x2
    (buttonFeedbackEnabled (switchesOf x3))) by (rewrite Einp; reflexivity).
  change (rd inp 16) with (nth 16 inp 0) in Hf. change (rd inp 17) with (nth 17 inp 0) in H17.
  change (rd inp 18) with (nth 18 inp 0) in H18. change (rd inp 19) with (nth 19 inp 0) in H19.
  rewrite Einp in Hf, H17, H18, H19. cbn in Hf, H17, H18, H19. subst x4 x5 x6.
  repeat (apply Forall_cons in Hrb as [? Hrb]). rewrite Eg.
  split; [rewrite Es; split_and!; [by apply word16_range|done..]|]. split; [done|]. split; [done|].
  rewrite Einp at 1. unfold record_of, settingsBytes. rewrite Es. cbn [displayTimeoutSeconds
    displayContrast defaultScreen]. rewrite le16_word by done.
  rewrite <- (flagsByte_switches x3) at 1 by done. reflexivity.
Qed.

Lemma decodeRecord_record s g s0 g0 :
  settings_wf s → isValid s = true → is_u32 g →
  decodeRecord (Some (record_of s g)) RECORD_SIZE s0 g0 = (CodecResult.OK, s, g).
Proof.
  intros (Ht & Hc & Hs) Hv Hg. apply decodeRecord_ok; [done|].
  destruct (flagsByte_known s) as (Hfb & Hf & Hl & Hd & Hu).
  assert (H0 : is_u8 0) by concrete.
  assert (Hb : is_byte_list (settingsBytes s)) by (unfold settingsBytes; bytes).
  split_and!.
  - apply (EventRecords.validateEnvelope_sealed MAGIC RECORD_SIZE 8); try done.
    unfold MAGIC. concrete.
  - exact Hf.
  - reflexivity.
  - reflexivity.
  - reflexivity.
  - exact Hv.
  - transitivity (mkSettings (Z.lor (u8 (displayTimeoutSeconds s))
      (Z.shiftl (u8 (Z.shiftr (displayTimeoutSeconds s) 8)) 8)) (displayContrast s)
      (negb (Z.land (flagsByte s) FLAG_LED_ENABLED =? 0))
      (negb (Z.land (flagsByte s) FLAG_DIAGNOSTICS_ENABLED =? 0)) (defaultScreen s)
      (negb (Z.land (flagsByte s) FLAG_BUTTON_FEEDBACK_ENABLED =? 0))); [|reflexivity].
    rewrite Hl, Hd, Hu, word16_le by done. by destruct s.
  - symmetry. unfold readUint32Le, record_of. by EventRecords.reads.
Qed.

(** The settings record.  Twenty-four bytes decode to settings and a
    generation exactly when the settings are valid and the bytes are the ones
    [encodeRecord] writes for them; so a record survives storage, and no other
    bytes are taken for it. *)
Theorem settings_record_codec b s g s0 g0 :
  is_byte_list b → length b = RECORD_SIZE →
  decodeRecord (Some b) RECORD_SIZE s0 g0 = (CodecResult.OK, s, g)
  ↔ settings_wf s ∧ is_u32 g
    ∧ encodeRecord s g (Some (zeros RECORD_SIZE)) RECORD_SIZE = (CodecResult.OK, Some b).
Proof.
  intros Hb Hl. split.
  - intros (Hw & Hv & Hg & ->)%decodeRecord_inv; [|done..]. by rewrite encodeRecord_spec.
  - intros (Hw & Hg & He). destruct (isValid s) eqn:Hv.
    + rewrite encodeRecord_spec in He by done. injection He as <-. by apply decodeRecord_record.
    + exfalso. unfold encodeRecord in He. cbn [Nat.eqb RECORD_SIZE negb] in He.
      destruct (bool_decide_reflect (validateCodecSettings s = CodecResult.OK)) as [Ho|Hno].
      * apply validateCodecSettings_ok in Ho. congruence.
      * cbn [negb] in He. congruence.
Qed.

Definition sampleSettings : Settings := mkSettings 300 128 false true DefaultScreen.DEVICE true.

Lemma settings_record_codec_witness :
  ∃ b, length b = RECORD_SIZE
    ∧ decodeRecord (Some b) RECORD_SIZE defaults 0
      = (CodecResult.OK, sampleSettings, 4294967295).
Proof.
  exists (record_of sampleSettings 4294967295). split; [reflexivity|].
  apply settings_record_codec; [concrete|reflexivity|]. split; [unfold settings_wf; concrete|].
  split; [concrete|]. vm_compute. reflexivity.
Defined.

End SettingsFacts.
