(* ===== verification/SettingsLife.v ===== *)
(** What the settings manager promises over a lifetime of loads, saves and
    factory resets, with a store whose every call may fail and whose failed
    writes may leave a slot torn. *)

From S2P Require Import Prelude Settings SettingsFacts.

Module SettingsLife.

Import DeviceSettings SettingsFacts.

(** ** What a slot holds *)

(** How [readAndClassify] judges the content of a slot. *)
Definition classify (content : option (list Z)) : SlotRecord :=
  match content with
  | None => mkSlotRecord SlotKind.MISSING defaults 0 (zeros RECORD_SIZE) 0
  | Some b =>
      if (length b =? RECORD_SIZE)%nat then
        let '(decodeResult, settings, generation, repaired) :=
          decodeRecordWithRepair (Some b) RECORD_SIZE defaults 0 false in
        mkSlotRecord
          (if bool_decide (decodeResult = CodecResult.UNSUPPORTED_SCHEMA)
           then SlotKind.UNSUPPORTED
           else if negb (bool_decide (decodeResult = CodecResult.OK)) then SlotKind.CORRUPT
           else if repaired then SlotKind.REPAIRED else SlotKind.VALID)
          settings generation b RECORD_SIZE
      else mkSlotRecord SlotKind.CORRUPT defaults 0 b (length b)
  end.

(** The marker is one byte of flash, written whole. *)
Inductive Marker := ABSENT | HELD (pending : bool) | UNREADABLE.

(** A slot after a write or a removal that may have been cut short: as it was,
    as it was to be, or holding nothing a load would use. *)
Definition rewritten (before after : option (list Z)) (goal : option (list Z)) : Prop :=
  after = before ∨ after = goal ∨ isUsable (classify after) = false.

(** ** Laws of the store

    [content] and [marker] are what flash holds; a call that fails says nothing
    about them, one that succeeds tells the truth. *)

Class SettingsFlash (W : Type) `{RecordStore W} := {
  content : W → RecordSlot → option (list Z);
  marker : W → Marker;
  read_frame slot out n w :
    (∀ s, content (readSlot slot out n w).2 s = content w s)
    ∧ marker (readSlot slot out n w).2 = marker w;
  read_truth slot out w :
    match (readSlot slot out RECORD_SIZE w).1 with
    | (StoreResult.OK, b, n) =>
        content w slot = Some b ∧ length b = RECORD_SIZE ∧ n = RECORD_SIZE
    | (StoreResult.MISSING, _, _) => content w slot = None
    | (StoreResult.MALFORMED, _, _) => ∃ b, content w slot = Some b ∧ length b ≠ RECORD_SIZE
    | _ => True
    end;
  write_law slot b w :
    length b = RECORD_SIZE →
    let w' := (writeSlot slot b RECORD_SIZE w).2 in
    content w' (opposite slot) = content w (opposite slot) ∧ marker w' = marker w
    ∧ rewritten (content w slot) (content w' slot) (Some b);
  remove_law slot w :
    let w' := (removeSlot slot w).2 in
    content w' (opposite slot) = content w (opposite slot) ∧ marker w' = marker w
    ∧ rewritten (content w slot) (content w' slot) None;
  marker_read pending w :
    let w' := (readResetMarker pending w).2 in
    (∀ s, content w' s = content w s) ∧ marker w' = marker w
    ∧ match (readResetMarker pending w).1 with
      | (StoreResult.OK, p) => marker w = HELD p
      | (StoreResult.MISSING, _) => marker w = ABSENT
      | _ => True
      end;
  marker_write pending w :
    let w' := (writeResetMarker pending w).2 in
    (∀ s, content w' s = content w s) ∧ (marker w' = marker w ∨ marker w' = HELD pending);
  marker_remove w :
    let w' := (removeResetMarker w).2 in
    (∀ s, content w' s = content w s) ∧ (marker w' = marker w ∨ marker w' = ABSENT)
}.

(** ** The record in charge *)

(** What a load that reads both slots comes to. *)
Inductive Choice := VACANT | CONFLICT | CHOSEN (slot : RecordSlot) (s : Settings) (g : Z).

Definition choose (a b : SlotRecord) : Choice :=
  let chosenA := CHOSEN A (slot_settings a) (slot_generation a) in
  let chosenB := CHOSEN B (slot_settings b) (slot_generation b) in
  match isUsable a, isUsable b with
  | false, false => VACANT
  | true, false => chosenA
  | false, true => chosenB
  | true, true =>
      if slot_generation a =? slot_generation b then
        if recordsEqual a b then chosenA else CONFLICT
      else if generationIsNewer (slot_generation a) (slot_generation b) then chosenA
      else if generationIsNewer (slot_generation b) (slot_generation a) then chosenB
      else CONFLICT
  end.

(** The settings of a choice; none are settings when the slots disagree. *)
Definition governs (c : Choice) (s : Settings) : Prop :=
  match c with VACANT => s = defaults | CONFLICT => False | CHOSEN _ s' _ => s = s' end.

Section Life.

Context {W : Type} `{SettingsFlash W}.

Implicit Types (m : SettingsManager) (w : W) (p : list Settings).

Definition slotOf w (slot : RecordSlot) : SlotRecord := classify (content w slot).

Definition selected w : Choice := choose (slotOf w A) (slotOf w B).

(** The next load may return no settings but those of [p]: with a reset
    pending it completes the reset, otherwise it returns the record in charge. *)
Definition promised p w : Prop :=
  match marker w with
  | HELD true => defaults ∈ p
  | _ => ∃ s, governs (selected w) s ∧ s ∈ p
  end.

(** The manager's slot, settings and generation are what flash holds; without a
    slot it holds the defaults, and writes over slot A. *)
Definition anchored p m w : Prop :=
  marker w ≠ HELD true ∧ settings_ m ∈ p
  ∧ if hasActiveSlot_ m then
      isUsable (slotOf w (activeSlot_ m)) = true
      ∧ slot_settings (slotOf w (activeSlot_ m)) = settings_ m
      ∧ slot_generation (slotOf w (activeSlot_ m)) = generation_ m
    else isUsable (slotOf w B) = false ∧ settings_ m = defaults.

(** ** Commands and answers *)

Inductive Command := Boot | Save (candidate : Settings) | Reset.

Inductive Answer :=
  Booted (status : LoadStatus.t) (s : Settings)
| Saved (status : SaveStatus.t) (s : Settings)
| WasReset (result : ResetResult.t).

Definition perform (c : Command) : st (SettingsManager * W) Answer := λ x,
  match c with
  | Boot => let (r, x1) := load x in (Booted r (settings_ x1.1), x1)
  | Save candidate => let (r, x1) := save candidate x in (Saved r (repaired candidate), x1)
  | Reset => let (r, x1) := factoryReset x in (WasReset r, x1)
  end.

Fixpoint performAll (cs : list Command) : st (SettingsManager * W) (list Answer) := λ x,
  match cs with
  | [] => ([], x)
  | c :: cs' =>
      let (a, x1) := perform c x in
      let (l, x2) := performAll cs' x1 in
      (a :: l, x2)
  end.

(** A load that could not read the store, or a reset that did not complete,
    leaves a manager that does not know what flash holds. *)
Definition knows (before : bool) (a : Answer) : bool :=
  match a with
  | Booted r _ =>
      negb (bool_decide (r = LoadStatus.STORAGE_UNAVAILABLE))
      && negb (bool_decide (r = LoadStatus.RESET_RECOVERY_FAILED))
  | Saved _ _ => before
  | WasReset r => bool_decide (r = ResetResult.RESET_COMPLETED)
  end.

(** What may be loaded after an answer: what is confirmed replaces all that
    came before, what is not confirmed is added to it. *)
Definition promise p (a : Answer) : list Settings :=
  match a with
  | Booted r s => if knows false a then [s] else p
  | Saved (SaveStatus.SAVED | SaveStatus.REPAIRED_SAVED) s => [s]
  | Saved (SaveStatus.UNCHANGED | SaveStatus.REPAIRED_UNCHANGED
           | SaveStatus.UNSUPPORTED_SCHEMA) _ => p
  | Saved _ s => p ++ [s]
  | WasReset r => if knows false a then [defaults] else p ++ [defaults]
  end.

(** Saves are made by a manager that knows what flash holds, and candidates
    have the widths of the type. *)
Fixpoint careful (k : bool) (cs : list Command) (answers : list Answer) : Prop :=
  match cs, answers with
  | c :: cs', a :: answers' =>
      match c with Save s => k = true ∧ settings_wf s | _ => True end
      ∧ careful (knows k a) cs' answers'
  | _, _ => True
  end.

(** Each load that tells returned settings that were promised. *)
Fixpoint kept p (answers : list Answer) : Prop :=
  match answers with
  | [] => True
  | a :: answers' =>
      match a with Booted _ s => knows false a = true → s ∈ p | _ => True end
      ∧ kept (promise p a) answers'
  end.

(** ** Reading *)

(** Flash that holds the same. *)
Definition sameFlash w w' : Prop := (∀ s, content w' s = content w s) ∧ marker w' = marker w.

#[export] Instance sameFlash_equiv : Equivalence sameFlash.
Proof.
  split; [done|..].
  - intros w w' [Hc Hm]. by split.
  - intros w1 w2 w3 [Hc1 Hm1] [Hc2 Hm2]. split; [intros s; by rewrite Hc2|congruence].
Qed.

#[export] Instance slotOf_proper : Proper (sameFlash ==> eq ==> eq) slotOf.
Proof. intros w w' [Hc _] s _ <-. unfold slotOf. by rewrite Hc. Qed.

#[export] Instance marker_proper : Proper (sameFlash ==> eq) marker.
Proof. by intros w w' [_ Hm]. Qed.

#[export] Instance selected_proper : Proper (sameFlash ==> eq) selected.
Proof. intros w w' Hs. unfold selected. by rewrite !(slotOf_proper _ _ Hs _ _ eq_refl). Qed.

#[export] Instance promised_proper p : Proper (sameFlash ==> iff) (promised p).
Proof. intros w w' Hs. unfold promised.
  by rewrite (marker_proper _ _ Hs), (selected_proper _ _ Hs). Qed.

#[export] Instance anchored_proper p m : Proper (sameFlash ==> iff) (anchored p m).
Proof. intros w w' Hs. unfold anchored.
  by rewrite (marker_proper _ _ Hs), !(slotOf_proper _ _ Hs _ _ eq_refl). Qed.

(** A record read is the slot's, as far as a load looks. *)
Definition sees (r c : SlotRecord) : Prop :=
  kind r = SlotKind.UNAVAILABLE ∨ kind r = kind c ∧ (isUsable c = true → r = c).

Lemma readAndClassify_sees slot w r w' :
  readAndClassify slot w = (r, w') → sameFlash w w' ∧ sees r (slotOf w slot).
Proof.
  unfold readAndClassify, bind. pose proof (read_truth slot (zeros RECORD_SIZE) w) as Ht.
  pose proof (read_frame slot (zeros RECORD_SIZE) RECORD_SIZE w) as Hf.
  destruct (readSlot slot _ _ w) as [[[res b] n] w1]. cbn [fst snd] in *.
  unfold sees, slotOf, classify.
  destruct (bool_decide_reflect (res = StoreResult.MISSING)) as [->|].
  { intros [= <- <-]. split; [done|]. right. by rewrite Ht. }
  destruct (bool_decide_reflect (res = StoreResult.MALFORMED)) as [->|].
  { intros [= <- <-]. split; [done|]. right. destruct Ht as (b' & -> & Hn%Nat.eqb_neq).
    by rewrite Hn. }
  destruct (bool_decide_reflect (res = StoreResult.OK)) as [->|]; cbn [negb].
  2:{ intros [= <- <-]. split; [done|]. by left. }
  destruct Ht as (-> & Hb & ->). rewrite Hb, Nat.eqb_refl.
  destruct (decodeRecordWithRepair _ _ _ _ _) as [[[? ?] ?] ?].
  intros [= <- <-]. split; [done|]. by right.
Qed.

Lemma promised_idle p w :
  marker w ≠ HELD true → promised p w ↔ ∃ s, governs (selected w) s ∧ s ∈ p.
Proof. intros Hm. unfold promised. by destruct (marker w) as [|[]|]. Qed.

Lemma usable_kind r c : kind r = kind c → isUsable r = isUsable c.
Proof. unfold isUsable. by intros ->. Qed.

(** The tests of the manager's flags, as an [update] leaves them. *)
Ltac members := unfold rec_set; cbn [settings_ generation_ activeSlot_ hasActiveSlot_
  repairPending_ unsupportedSlotA_ unsupportedSlotB_ lastResetResult_].

Lemma applySelected_run r slot fallback m w :
  ∃ st m', applySelected r slot fallback (m, w) = (st, (m', w))
    ∧ settings_ m' = slot_settings r ∧ generation_ m' = slot_generation r
    ∧ activeSlot_ m' = slot ∧ hasActiveSlot_ m' = true.
Proof.
  unfold applySelected. rewrite bind_update. destruct (bool_decide _); [|destruct fallback];
    try rewrite bind_update; do 2 eexists; (split; [reflexivity|]); done.
Qed.

(** A record in charge that is applied is what the manager then knows. *)
Lemma applied p slot fallback m w st m' w' :
  marker w ≠ HELD true → promised p w →
  isUsable (slotOf w slot) = true →
  selected w = CHOSEN slot (slot_settings (slotOf w slot)) (slot_generation (slotOf w slot)) →
  applySelected (slotOf w slot) slot fallback (m, w) = (st, (m', w')) →
  w' = w ∧ settings_ m' ∈ p ∧ anchored [settings_ m'] m' w ∧ promised [settings_ m'] w.
Proof.
  intros Hm Hp Hu Hs Ha. apply promised_idle in Hp as (s & Hg & Hin); [|done].
  destruct (applySelected_run (slotOf w slot) slot fallback m w)
    as (st1 & m1 & E & Es & Eg & Ea & Eh). rewrite E in Ha. injection Ha as <- <- <-.
  rewrite Hs in Hg. cbn in Hg. subst s. rewrite Es. split; [done|]. split; [done|].
  unfold anchored. rewrite Eh, Ea, Es, Eg. split; [split_and!; [done|set_solver|done..]|].
  apply promised_idle; [done|]. rewrite Hs. cbn. set_solver.
Qed.

Lemma choose_vacant a b : choose a b = VACANT → isUsable a = false ∧ isUsable b = false.
Proof. unfold choose. by destruct (isUsable a), (isUsable b); repeat case_match. Qed.

Lemma choose_chosen w slot s g :
  selected w = CHOSEN slot s g →
  isUsable (slotOf w slot) = true ∧ s = slot_settings (slotOf w slot)
  ∧ g = slot_generation (slotOf w slot).
Proof.
  unfold selected, choose.
  destruct (isUsable (slotOf w A)) eqn:?, (isUsable (slotOf w B)) eqn:?; repeat case_match;
    intros E; simplify_eq; done.
Qed.

Lemma selectSlot_keeps p a b m w st m' w' :
  settings_ m = defaults → hasActiveSlot_ m = false →
  marker w ≠ HELD true → promised p w → sees a (slotOf w A) → sees b (slotOf w B) →
  selectSlot a b (m, w) = (st, (m', w')) →
  w' = w ∧ (knows false (Booted st (settings_ m')) = true →
    settings_ m' ∈ p ∧ anchored [settings_ m'] m' w ∧ promised [settings_ m'] w).
Proof.
  intros Hs Hh Hm Hp Ha Hb Hr. unfold selectSlot in Hr.
  destruct (bool_decide_reflect (kind a = SlotKind.UNAVAILABLE)) as [|Hna].
  { injection Hr as <- <- <-. done. }
  destruct (bool_decide_reflect (kind b = SlotKind.UNAVAILABLE)) as [|Hnb].
  { injection Hr as <- <- <-. done. }
  destruct Ha as [|[Hka Ha]]; [done|]. destruct Hb as [|[Hkb Hb]]; [done|].
  cbn [orb] in Hr. rewrite bind_update in Hr.
  pose proof (usable_kind _ _ Hka) as Hua. pose proof (usable_kind _ _ Hkb) as Hub.
  rewrite Hua, Hub in Hr.
  destruct (selected w) as [| |slot s g] eqn:Hsel.
  - pose proof Hsel as (Ea & Eb)%choose_vacant. rewrite Ea, Eb in Hr. cbn [negb andb] in Hr.
    apply promised_idle in Hp as (s & Hg & Hin); [|done]. rewrite Hsel in Hg. cbn in Hg. subst s.
    assert (Hkeep : w' = w ∧ settings_ m' = settings_ m ∧ hasActiveSlot_ m' = hasActiveSlot_ m).
    { unfold bind, this, gets in Hr. cbn [fst] in Hr.
      destruct (unsupportedSchema _); [by injection Hr as <- <- <-|].
      destruct (_ && _); by injection Hr as <- <- <-. }
    destruct Hkeep as (-> & Es & Eh). split; [done|]. intros _. rewrite Es, Hs.
    split; [done|]. split; [|apply promised_idle; [done|]; rewrite Hsel; set_solver].
    split; [done|]. rewrite Es, Hs, Eh, Hh. split_and!; [set_solver|done..].
  - apply promised_idle in Hp as (s & Hg & Hin); [|done]. by rewrite Hsel in Hg.
  - destruct (choose_chosen _ _ _ _ Hsel) as (Hu & -> & ->).
    assert (∃ fallback m1, applySelected (slotOf w slot) slot fallback (m1, w) = (st, (m', w')))
      as (fallback & m1 & E).
    { unfold selected, choose in Hsel.
      destruct (isUsable (slotOf w A)) eqn:Ea, (isUsable (slotOf w B)) eqn:Eb;
        rewrite ?(Ha eq_refl), ?(Hb eq_refl) in Hr; cbn [negb andb] in Hr; [|..|done].
      - repeat case_match; simplify_eq; eauto.
      - injection Hsel as <- _ _. eauto.
      - injection Hsel as <- _ _. eauto. }
    apply (applied p) in E; [|done..]. naive_solver.
Qed.

(** ** Resetting *)

Lemma promised_pending p w : marker w = HELD true → promised p w ↔ defaults ∈ p.
Proof. unfold promised. by intros ->. Qed.

Lemma classify_verified b s g :
  length b = RECORD_SIZE → verifies b RECORD_SIZE s g = true →
  classify (Some b) = mkSlotRecord SlotKind.VALID s g b RECORD_SIZE.
Proof.
  intros Hl Hv. unfold classify. rewrite Hl, Nat.eqb_refl.
  unfold verifies in Hv. unfold decodeRecordWithRepair.
  destruct (decodeRecord _ _ _ _) as [[r s1] g1].
  apply andb_true_iff in Hv as [[Hr%bool_decide_eq_true Hg%Z.eqb_eq]%andb_true_iff
    Hs%settings_eqb_eq]. by subst.
Qed.

(** A slot that was read back and verified. *)
Lemma read_verified slot w b n w' s g :
  readSlot slot (zeros RECORD_SIZE) RECORD_SIZE w = (StoreResult.OK, b, n, w') →
  verifies b n s g = true →
  sameFlash w w' ∧ slotOf w slot = mkSlotRecord SlotKind.VALID s g b RECORD_SIZE.
Proof.
  intros E Hv. pose proof (read_truth slot (zeros RECORD_SIZE) w) as Ht.
  pose proof (read_frame slot (zeros RECORD_SIZE) RECORD_SIZE w) as Hf.
  rewrite E in Ht, Hf. cbn [fst snd] in *. destruct Ht as (Hc & Hl & ->).
  split; [done|]. unfold slotOf. rewrite Hc. by apply classify_verified.
Qed.

Lemma removeAndVerifySlot_run slot w r w' :
  removeAndVerifySlot slot w = (r, w') →
  content w' (opposite slot) = content w (opposite slot) ∧ marker w' = marker w
  ∧ (r = ResetResult.RESET_COMPLETED → content w' slot = None).
Proof.
  unfold removeAndVerifySlot, bind. destruct (remove_law slot w) as (Ho & Hm & _).
  destruct (removeSlot slot w) as [rr w1]. cbn [fst snd] in *.
  destruct (bool_decide _); [by intros [= <- <-]|].
  destruct (negb _ && negb _); [by intros [= <- <-]|].
  pose proof (read_truth slot (zeros RECORD_SIZE) w1) as Ht.
  destruct (read_frame slot (zeros RECORD_SIZE) RECORD_SIZE w1) as [Hc1 Hm1].
  destruct (readSlot _ _ _ _) as [[[res b] n] w2]. cbn [fst snd] in *.
  destruct (bool_decide _); intros [= <- <-];
    (split; [by rewrite Hc1|]; split; [by rewrite Hm1|]); [done|].
  rewrite Hc1. by destruct res.
Qed.

(** Defaults as generation 1 in slot A, the other slot empty. *)
Definition factory w : Prop :=
  isUsable (slotOf w A) = true ∧ slot_settings (slotOf w A) = defaults
  ∧ slot_generation (slotOf w A) = 1 ∧ isUsable (slotOf w B) = false.

Lemma factory_promised p w : factory w → defaults ∈ p → promised p w.
Proof.
  intros (Hu & Hs & _ & Hb) Hp. unfold promised, selected, choose. rewrite Hu, Hb, Hs.
  destruct (marker w) as [|[]|]; cbn; eauto.
Qed.

#[export] Instance factory_proper : Proper (sameFlash ==> iff) factory.
Proof. intros w w' Hs. unfold factory. by rewrite !(slotOf_proper _ _ Hs _ _ eq_refl). Qed.

Lemma writeDefaults_run m w r m' w' :
  content w B = None → writeDefaults (m, w) = (r, (m', w')) →
  (marker w' = marker w ∨ factory w')
  ∧ (r = ResetResult.RESET_COMPLETED →
     factory w' ∧ marker w' = ABSENT ∧ settings_ m' = defaults ∧ generation_ m' = 1
     ∧ activeSlot_ m' = A ∧ hasActiveSlot_ m' = true).
Proof.
  intros HB. unfold writeDefaults. rewrite encodeRecord_spec by done.
  unfold outside, zoom, bind. cbn [fst snd].
  destruct (write_law A (record_of defaults 1) w (length_record_of _ _)) as (Ho & Hm & _).
  destruct (writeSlot A _ _ w) as [wr w1]. cbn [fst snd opposite] in *.
  destruct (bool_decide _); [intros [= <- _ <-]; split; [by left|done]|].
  destruct (negb _); [intros [= <- _ <-]; split; [by left|done]|].
  cbn [fst snd].
  destruct (read_frame A (zeros RECORD_SIZE) RECORD_SIZE w1) as [Hc2 Hm2].
  destruct (readSlot A (zeros RECORD_SIZE) RECORD_SIZE w1) as [[[rr b] n] w2] eqn:Er.
  cbn [fst snd] in *. rewrite <- Hm, <- Hm2.
  destruct (bool_decide _); [intros [= <- _ <-]; split; [by left|done]|].
  destruct (bool_decide_reflect (rr = StoreResult.OK)) as [->|]; cbn [negb orb];
    [|intros [= <- _ <-]; split; [by left|done]].
  destruct (verifies b n defaults 1) eqn:Hv; cbn [negb];
    [|intros [= <- _ <-]; split; [by left|done]].
  destruct (read_verified _ _ _ _ _ _ _ Er Hv) as [Hs HA].
  assert (Hfac : factory w2).
  { rewrite <- Hs. unfold factory. rewrite HA. split_and!; [done..|].
    unfold slotOf. by rewrite Ho, HB. }
  cbn [fst snd].
  destruct (marker_remove w2) as [Hc3 Hm3].
  destruct (removeResetMarker w2) as [mr w3]. cbn [fst snd] in *.
  assert (Hfac3 : factory w3) by (unfold factory, slotOf; rewrite !Hc3; exact Hfac).
  destruct (bool_decide _); [intros [= <- _ <-]; split; [by right|done]|].
  destruct (negb _); [intros [= <- _ <-]; split; [by right|done]|].
  cbn [fst snd].
  destruct (marker_read false w3) as (Hc4 & Hm4 & Hv4).
  destruct (readResetMarker false w3) as [[vr pend] w4]. cbn [fst snd] in *.
  assert (Hs4 : sameFlash w3 w4) by done. rewrite Hs4 in Hfac3.
  destruct (bool_decide _); [intros [= <- _ <-]; split; [by right|done]|].
  destruct (bool_decide_reflect (vr = StoreResult.MISSING)) as [->|]; cbn [negb];
    [|intros [= <- _ <-]; split; [by right|done]].
  intros [= <- <- <-]. split; [by right|]. intros _. by rewrite Hm4, Hv4.
Qed.

(** What a completed reset leaves. *)
Definition wasReset m w : Prop := anchored [defaults] m w ∧ promised [defaults] w
  ∧ settings_ m = defaults.

Lemma completeVerifiedReset_keeps p m w r m' w' :
  marker w = HELD true → defaults ∈ p → completeVerifiedReset (m, w) = (r, (m', w')) →
  promised p w' ∧ (r = ResetResult.RESET_COMPLETED → wasReset m' w').
Proof.
  intros Hm Hp. unfold completeVerifiedReset, outside, zoom, bind. cbn [fst snd].
  destruct (removeAndVerifySlot A w) as [ra w1] eqn:Ea.
  apply removeAndVerifySlot_run in Ea as (_ & Hma & _). cbn [fst snd].
  destruct (bool_decide_reflect (ra = ResetResult.RESET_COMPLETED)) as [->|Hna]; cbn [negb];
    [|intros [= <- _ <-]; split; [apply promised_pending; congruence|done]].
  cbn [fst snd].
  destruct (removeAndVerifySlot B w1) as [rb w2] eqn:Eb.
  apply removeAndVerifySlot_run in Eb as (_ & Hmb & HB). cbn [fst snd].
  destruct (bool_decide_reflect (rb = ResetResult.RESET_COMPLETED)) as [->|Hnb]; cbn [negb];
    [|intros [= <- _ <-]; split; [apply promised_pending; congruence|done]].
  intros E. apply writeDefaults_run in E as [Hw Hc]; [|by apply HB]. split.
  - destruct Hw as [Hw|Hf]; [apply promised_pending; congruence|by apply factory_promised].
  - intros (Hf & Hmk & Es & Eg & Eact & Eh)%Hc. split_and!; [|apply factory_promised; [done|set_solver]|done].
    unfold anchored. rewrite Hmk, Es, Eg, Eact, Eh. destruct Hf as (? & ? & ? & ?).
    split_and!; [done|set_solver|done..].
Qed.

(** ** Saving *)

Lemma newer_succ g :
  g ≠ u32 (g + 1) ∧ generationIsNewer (u32 (g + 1)) g = true
  ∧ generationIsNewer g (u32 (g + 1)) = false.
Proof.
  unfold generationIsNewer, sint32.
  assert (u32 (u32 (g + 1) - g) = 1) as -> by uint.
  assert (u32 (g - u32 (g + 1)) = 4294967295) as -> by uint.
  split; [uint|done].
Qed.

Lemma classify_record c g :
  settings_wf c → isValid c = true → is_u32 g →
  classify (Some (record_of c g))
  = mkSlotRecord SlotKind.VALID c g (record_of c g) RECORD_SIZE.
Proof.
  intros Hw Hv Hg. unfold classify. rewrite length_record_of, Nat.eqb_refl.
  unfold decodeRecordWithRepair. by rewrite decodeRecord_record.
Qed.

Definition targetOf m : RecordSlot := if hasActiveSlot_ m then opposite (activeSlot_ m) else A.

Lemma opposite_opposite s : opposite (opposite s) = s.
Proof. by destruct s. Qed.

(** The next generation in the target slot is in charge. *)
Lemma selected_next p m w w1 c b n :
  anchored p m w → slotOf w1 (opposite (targetOf m)) = slotOf w (opposite (targetOf m)) →
  slotOf w1 (targetOf m) = mkSlotRecord SlotKind.VALID c (u32 (generation_ m + 1)) b n →
  selected w1 = CHOSEN (targetOf m) c (u32 (generation_ m + 1)).
Proof.
  intros (_ & _ & Ha) Ho Ht. destruct (newer_succ (generation_ m)) as (Hne & Hn1 & Hn2).
  unfold selected, choose, targetOf in *. destruct (hasActiveSlot_ m).
  - rewrite opposite_opposite in Ho. destruct Ha as (Hu & _ & Hg).
    destruct (activeSlot_ m); cbn [opposite] in *; rewrite Ho, Ht, Hu, Hg;
      cbn [isUsable kind slot_generation slot_settings]; rewrite ?Hn1, ?Hn2.
    + by rewrite (proj2 (Z.eqb_neq _ _) Hne).
    + by rewrite (proj2 (Z.eqb_neq _ _) (not_eq_sym Hne)).
  - destruct Ha as (HB & _). cbn [opposite] in Ho. by rewrite Ho, Ht, HB.
Qed.

(** With nothing usable in the target slot, the manager's record is in charge. *)
Lemma selected_back p m w w1 :
  anchored p m w → slotOf w1 (opposite (targetOf m)) = slotOf w (opposite (targetOf m)) →
  isUsable (slotOf w1 (targetOf m)) = false → governs (selected w1) (settings_ m).
Proof.
  intros (_ & _ & Ha) Ho Ht. unfold selected, choose, targetOf in *.
  destruct (hasActiveSlot_ m).
  - rewrite opposite_opposite in Ho. destruct Ha as (Hu & Hs & _).
    destruct (activeSlot_ m); cbn [opposite] in *; rewrite Ho, Ht, Hu; cbn; done.
  - destruct Ha as (HB & Hd). cbn [opposite] in Ho. by rewrite Ho, Ht, HB.
Qed.

Lemma promised_mono p p' w : p ⊆ p' → promised p w → promised p' w.
Proof. intros Hs. unfold promised. destruct (marker w) as [|[]|]; set_solver. Qed.

(** After a write of the target slot, complete or not: the record in charge is
    the old one, the new one or the manager's. *)
Lemma written_keeps p m w w1 c :
  settings_wf c → isValid c = true → promised p w → anchored p m w →
  content w1 (opposite (targetOf m)) = content w (opposite (targetOf m)) →
  marker w1 = marker w →
  rewritten (content w (targetOf m)) (content w1 (targetOf m))
    (Some (record_of c (u32 (generation_ m + 1)))) →
  promised (p ++ [c]) w1 ∧ anchored (p ++ [c]) m w1.
Proof.
  intros Hw Hv Hp Ha Ho Hm Hr.
  assert (Hoo : slotOf w1 (opposite (targetOf m)) = slotOf w (opposite (targetOf m)))
    by (unfold slotOf; by rewrite Ho).
  pose proof Ha as (Hmk & Hin & Hact). rewrite <- Hm in Hmk. split.
  - destruct Hr as [Hr|[Hr|Hr]].
    + assert (Hs : sameFlash w w1).
      { split; [|done]. intros s. destruct s, (targetOf m); done. }
      rewrite <- Hs. eapply promised_mono; [|done]. set_solver.
    + apply promised_idle; [done|]. exists c. split; [|set_solver].
      rewrite (selected_next p m w w1 c (record_of c (u32 (generation_ m + 1))) RECORD_SIZE);
        [done..|]. unfold slotOf. rewrite Hr. apply classify_record; [done..|apply u32_range].
    + apply promised_idle; [done|]. exists (settings_ m). split; [|set_solver].
      by apply (selected_back p m w).
  - unfold anchored, targetOf in *. split; [done|]. split; [set_solver|].
    destruct (hasActiveSlot_ m).
    + rewrite opposite_opposite in Hoo. by rewrite Hoo.
    + cbn [opposite] in Hoo. by rewrite Hoo.
Qed.

Lemma commitTo_keeps p m w c rep r m' w' :
  settings_wf c → isValid c = true → promised p w → anchored p m w →
  commitTo (targetOf m) c rep (u32 (generation_ m + 1)) (m, w) = (r, (m', w')) →
  let p' := promise p (Saved r c) in promised p' w' ∧ anchored p' m' w'.
Proof.
  intros Hw Hv Hp Ha. unfold commitTo. rewrite encodeRecord_spec by done.
  unfold outside, zoom, bind. cbn [fst snd].
  set (g := u32 (generation_ m + 1)). set (t := targetOf m).
  destruct (write_law t (record_of c g) w (length_record_of _ _)) as (Ho & Hm & Hr).
  destruct (writeSlot t _ _ w) as [wr w1]. cbn [fst snd] in *.
  destruct (written_keeps p m w w1 c Hw Hv Hp Ha Ho Hm Hr) as [Hp1 Ha1].
  destruct (bool_decide _); [by intros [= <- <- <-]|].
  destruct (negb _); [by intros [= <- <- <-]|]. cbn [fst snd].
  destruct (read_frame t (zeros RECORD_SIZE) RECORD_SIZE w1) as [Hc2 Hm2].
  destruct (readSlot t (zeros RECORD_SIZE) RECORD_SIZE w1) as [[[rr b] n] w2] eqn:Er.
  cbn [fst snd] in *. assert (Hs2 : sameFlash w1 w2) by done.
  rewrite Hs2 in Hp1. rewrite Hs2 in Ha1.
  destruct (bool_decide _); [by intros [= <- <- <-]|].
  destruct (bool_decide_reflect (rr = StoreResult.OK)) as [->|]; cbn [negb];
    [|by intros [= <- <- <-]].
  destruct (verifies b n c g) eqn:Hver; cbn [negb]; [|by intros [= <- <- <-]].
  destruct (read_verified _ _ _ _ _ _ _ Er Hver) as [_ Ht].
  intros [= <- <- <-]. replace (promise _ _) with [c] by by destruct rep.
  assert (Hmk : marker w2 ≠ HELD true) by apply Ha1.
  rewrite Hs2 in Ht. split.
  - apply promised_idle; [done|]. exists c. split; [|set_solver].
    rewrite (selected_next p m w w2 c b RECORD_SIZE); [done..| |done].
    unfold slotOf. rewrite Hc2. fold t. by rewrite Ho.
  - unfold anchored. members. rewrite Ht. split_and!; [done|set_solver|done..].
Qed.

Lemma save_keeps p m w c r m' w' :
  settings_wf c → promised p w → anchored p m w → save c (m, w) = (r, (m', w')) →
  let p' := promise p (Saved r (repaired c)) in promised p' w' ∧ anchored p' m' w'.
Proof.
  intros Hw Hp Ha. unfold save.
  pose proof (repaired_valid c) as Hv. pose proof (repaired_wf c Hw) as Hwr.
  unfold repaired in *. destruct (validateAndRepair c) as [v canonical]. cbn [snd] in *.
  rewrite bind_this. destruct (negb _ && _); [by intros [= <- <- <-]|].
  destruct (_ && _); [by destruct v; intros [= <- <- <-]|].
  destruct (isUnsupportedSlot _ _); [by intros [= <- <- <-]|].
  intros E. by apply (commitTo_keeps p) in E.
Qed.

(** ** Loading and resetting *)

(** Noting a result is seen by nobody here. *)
Lemma noted (result : ResetResult.t) m w :
  note result (m, w) = (result, (m <| lastResetResult_ := result |>, w)).
Proof. reflexivity. Qed.

Lemma wasReset_noted result m w : wasReset m w → wasReset (m <| lastResetResult_ := result |>) w.
Proof. by intros. Qed.

Lemma completed_and_noted p m w r m' w' :
  marker w = HELD true → defaults ∈ p →
  (result <~ completeVerifiedReset ;; note result) (m, w) = (r, (m', w')) →
  promised p w' ∧ (r = ResetResult.RESET_COMPLETED → wasReset m' w').
Proof.
  intros Hm Hp E. apply bind_inv in E as (r1 & [m1 w1] & E & En).
  rewrite noted in En. injection En as <- <- <-.
  destruct (completeVerifiedReset_keeps p m w r1 m1 w1 Hm Hp E) as [Hp1 Hc]. split; [done|].
  intros Hr. by apply wasReset_noted, Hc.
Qed.

Lemma removeAndVerifySlot_answers slot w :
  (removeAndVerifySlot slot w).1 ≠ ResetResult.RESET_NOT_PENDING.
Proof.
  unfold removeAndVerifySlot, bind, ret.
  repeat (case_match; cbn [fst snd] in *); done.
Qed.

Lemma writeDefaults_answers x : (writeDefaults x).1 ≠ ResetResult.RESET_NOT_PENDING.
Proof.
  unfold writeDefaults, outside, zoom, bind, ret, update, modify.
  repeat (case_match; cbn [fst snd] in *; simplify_eq); done.
Qed.

Lemma completeVerifiedReset_answers x x' :
  (result <~ completeVerifiedReset ;; note result) x ≠ (ResetResult.RESET_NOT_PENDING, x').
Proof.
  intros E. apply bind_inv in E as (r1 & [m1 w1] & E & En). rewrite noted in En.
  injection En as -> _. apply (f_equal fst) in E. cbn [fst] in E. revert E.
  unfold completeVerifiedReset, outside, zoom, bind. destruct x as [m w]. cbn [fst snd].
  pose proof (removeAndVerifySlot_answers A w) as HA.
  destruct (removeAndVerifySlot A w) as [ra w2]. cbn [fst snd] in *.
  destruct (negb _); [done|]. cbn [fst snd].
  pose proof (removeAndVerifySlot_answers B w2) as HB.
  destruct (removeAndVerifySlot B w2) as [rb w3]. cbn [fst snd] in *.
  destruct (negb _); [done|]. apply writeDefaults_answers.
Qed.

Lemma recoverPendingReset_keeps p w r m' w' :
  promised p w → recoverPendingReset (newManager, w) = (r, (m', w')) →
  promised p w' ∧ (r = ResetResult.RESET_COMPLETED → defaults ∈ p ∧ wasReset m' w')
  ∧ (r = ResetResult.RESET_NOT_PENDING → marker w' ≠ HELD true
     ∧ settings_ m' = defaults ∧ hasActiveSlot_ m' = false).
Proof.
  intros Hp E. unfold recoverPendingReset in E.
  apply bind_inv in E as ([mr pending] & [m1 w1] & E1 & E).
  destruct (marker_read false w) as (Hc & Hm & Ht). unfold outside, zoom in E1. cbn [fst snd] in E1.
  destruct (readResetMarker false w) as [a w2]. injection E1 as -> <- <-. cbn [fst snd] in *.
  assert (Hs : sameFlash w w2) by done. rewrite Hs in Hp.
  destruct (bool_decide_reflect (mr = StoreResult.MISSING)) as [->|].
  { cbn [orb] in E. rewrite noted in E. injection E as <- <- <-. split; [done|].
    split; [done|]. intros _. by rewrite Hm, Ht. }
  destruct (bool_decide_reflect (mr = StoreResult.OK)) as [->|]; cbn [orb andb negb] in E.
  2:{ destruct (bool_decide _); rewrite noted in E; by injection E as <- <- <-. }
  destruct pending; cbn [negb] in E.
  2:{ rewrite noted in E. injection E as <- <- <-. split; [done|]. split; [done|]. intros _.
    by rewrite Hm, Ht. }
  rewrite bool_decide_eq_false_2 in E by done.
  assert (Hpend : marker w2 = HELD true) by congruence.
  assert (Hd : defaults ∈ p) by by apply (promised_pending p w2).
  destruct (completed_and_noted p newManager w2 r m' w' Hpend Hd E) as [Hp' Hw].
  split; [done|]. split; [by auto|]. intros ->. by apply completeVerifiedReset_answers in E.
Qed.

Lemma load_keeps p m w st m' w' :
  promised p w → load (m, w) = (st, (m', w')) →
  let a := Booted st (settings_ m') in
  promised (promise p a) w'
  ∧ (knows false a = true → settings_ m' ∈ p ∧ anchored (promise p a) m' w').
Proof.
  intros Hp E a. unfold load, resetRuntimeState in E. rewrite bind_update in E.
  apply bind_inv in E as (rr & [m1 w1] & E1 & E).
  destruct (recoverPendingReset_keeps p w rr m1 w1 Hp E1) as (Hp1 & Hc & Hn). subst a.
  unfold promise.
  destruct (bool_decide_reflect (rr = ResetResult.RESET_COMPLETED)) as [->|].
  { injection E as <- <- <-. cbn [knows]. destruct Hc as (Hd & Ha & Hpr & ->); done. }
  destruct (bool_decide_reflect (rr = ResetResult.STORAGE_UNAVAILABLE)) as [->|].
  { by injection E as <- <- <-. }
  destruct (bool_decide_reflect (rr = ResetResult.RESET_NOT_PENDING)) as [->|]; cbn [negb] in E.
  2:{ by injection E as <- <- <-. }
  destruct Hn as (Hm & Hs & Hh); [done|].
  apply bind_inv in E as (a & [m2 w2] & E2 & E). apply bind_inv in E as (b & [m3 w3] & E3 & E).
  unfold outside, zoom in E2, E3. cbn [fst snd] in E2, E3.
  destruct (readAndClassify A w1) as [ra wa] eqn:Ea. injection E2 as <- <- <-.
  cbn [fst snd] in E3.
  destruct (readAndClassify B wa) as [rb wb] eqn:Eb. injection E3 as <- <- <-.
  apply readAndClassify_sees in Ea as [Hsa Ha]. apply readAndClassify_sees in Eb as [Hsb Hb].
  rewrite Hsa in Hp1, Hm. rewrite (slotOf_proper _ _ Hsa _ _ eq_refl) in Ha.
  rewrite Hsb in Hp1, Hm. rewrite (slotOf_proper _ _ Hsb A A eq_refl) in Ha.
  rewrite (slotOf_proper _ _ Hsb B B eq_refl) in Hb.
  apply (selectSlot_keeps p) in E as [-> Hk]; [|done..].
  destruct (knows false (Booted st (settings_ m'))); [|done]. destruct Hk as (? & ? & ?); done.
Qed.

Lemma factoryReset_keeps p m w r m' w' :
  promised p w → factoryReset (m, w) = (r, (m', w')) →
  let a := WasReset r in
  promised (promise p a) w' ∧ (knows false a = true → anchored (promise p a) m' w').
Proof.
  intros Hp E a. unfold factoryReset in E. apply bind_inv in E as (wr & [m1 w1] & E1 & E).
  destruct (marker_write true w) as [Hc Hm]. unfold outside, zoom in E1. cbn [fst snd] in E1.
  destruct (writeResetMarker true w) as [wr' w1']. injection E1 as -> <- <-. cbn [fst snd] in *.
  assert (Hp1 : promised (p ++ [defaults]) w1').
  { destruct Hm as [Hm|Hm].
    - assert (Hs : sameFlash w w1') by done. rewrite <- Hs. eapply promised_mono; [|done].
      set_solver.
    - apply promised_pending; [done|]. set_solver. }
  subst a. unfold promise. cbn [knows].
  destruct (bool_decide _); [by rewrite noted in E; injection E as <- <- <-|].
  destruct (negb _); [by rewrite noted in E; injection E as <- <- <-|].
  apply bind_inv in E as ([mr pending] & [m2 w2] & E2 & E).
  destruct (marker_read false w1') as (Hc2 & Hm2 & Ht2). unfold outside, zoom in E2.
  cbn [fst snd] in E2. destruct (readResetMarker false w1') as [b w3].
  injection E2 as -> <- <-. cbn [fst snd] in *.
  assert (Hs : sameFlash w1' w3) by done. rewrite Hs in Hp1.
  destruct (bool_decide _); [by rewrite noted in E; injection E as <- <- <-|].
  destruct (bool_decide_reflect (mr = StoreResult.OK)) as [->|]; cbn [negb orb] in E;
    [|by rewrite noted in E; injection E as <- <- <-].
  destruct pending; cbn [negb] in E; [|by rewrite noted in E; injection E as <- <- <-].
  assert (Hmk : marker w3 = HELD true) by congruence.
  destruct (completed_and_noted (p ++ [defaults]) m w3 r m' w' Hmk) as [Hp' Hw];
    [set_solver|done|].
  destruct (bool_decide_reflect (r = ResetResult.RESET_COMPLETED)) as [->|]; [|done].
  destruct Hw as (? & ? & ?); done.
Qed.

(** ** The promise *)

Lemma performAll_keeps cs k p m w :
  promised p w → (k = true → anchored p m w) →
  careful k cs (performAll cs (m, w)).1 → kept p (performAll cs (m, w)).1.
Proof.
  revert k p m w. induction cs as [|c cs IH]; intros k p m w Hp Ha Hc; [done|].
  cbn [performAll] in *. destruct (perform c (m, w)) as [a [m1 w1]] eqn:E.
  assert (Hstep : (match a with Booted _ s => knows false a = true → s ∈ p | _ => True end)
    ∧ (match c with Save s => k = true ∧ settings_wf s | _ => True end →
       promised (promise p a) w1 ∧ (knows k a = true → anchored (promise p a) m1 w1))).
  { destruct c as [|s|]; unfold perform in E.
    - destruct (load (m, w)) as [st [m2 w2]] eqn:El. injection E as <- <- <-. cbn [fst].
      apply (load_keeps p) in El as [? Hk]; [|done].
      split; [intros Hb; by apply Hk|]. intros _. split; [done|]. intros Hb. by apply Hk.
    - destruct (save s (m, w)) as [st [m2 w2]] eqn:El. injection E as <- <- <-. split; [done|].
      intros [-> Hw]. apply (save_keeps p) in El as [? ?]; auto.
    - destruct (factoryReset (m, w)) as [st [m2 w2]] eqn:El. injection E as <- <- <-.
      split; [done|]. intros _. by apply (factoryReset_keeps p) in El. }
  specialize (IH (knows k a) (promise p a) m1 w1).
  destruct (performAll cs (m1, w1)) as [l x2]. cbn [fst careful kept] in *.
  destruct Hc as [Hc1 Hc]. destruct Hstep as [Hb Hs]. destruct (Hs Hc1) as [Hp1 Ha1].
  split; [done|]. by apply IH.
Qed.


End Life.

(** ** The type of the settings in use *)

Section Valid.

Context {W : Type} `{RecordStore W}.

(** A method under which a property of the object stays true. *)
Definition stays {S X} (P : S → Prop) (m : st (S * W) X) : Prop :=
  ∀ x, P x.1 → P (m x).2.1.

Lemma stays_bind {S X Y} (P : S → Prop) (m : st (S * W) X) (f : X → st (S * W) Y) :
  stays P m → (∀ x, stays P (f x)) → stays P (bind m f).
Proof. intros Hm Hf x Hx. unfold bind. by apply Hf, Hm. Qed.

(** As [stays_bind], knowing what the outside may answer. *)
Lemma stays_outside {S X Y} (P : S → Prop) (Q : X → Prop) (m : st W X) (f : X → st (S * W) Y) :
  (∀ w, Q (m w).1) → (∀ x, Q x → stays P (f x)) → stays P (bind (outside m) f).
Proof. intros Hm Hf x Hx. unfold bind, outside, zoom. cbn [fst snd]. by apply Hf. Qed.

Lemma stays_update {S} (P : S → Prop) (f : S → S) :
  (∀ s, P s → P (f s)) → stays P (update f).
Proof. intros Hf x Hx. by apply Hf. Qed.

Definition inUse (m : SettingsManager) : Prop := isValid (settings_ m) = true.

Ltac staying :=
  repeat match goal with
  | _ => assumption
  | |- stays _ (update _) => apply stays_update; unfold inUse, rec_set; cbn; done
  | |- stays _ (bind _ _) => apply stays_bind; [|intros ?]
  | |- stays _ (ret _) => by intros ?
  | |- stays _ (this _) => by intros ?
  | |- stays _ (outside _) => by intros ?
  | |- stays _ (if ?b then _ else _) => destruct b eqn:?
  | |- stays _ (match ?x with _ => _ end) => destruct x eqn:?
  | |- stays _ (let '_ := ?x in _) => destruct x eqn:?
  end.

Lemma decodeRecord_valid inp n s0 g0 s g :
  decodeRecord inp n s0 g0 = (CodecResult.OK, s, g) → isValid s = true.
Proof.
  unfold decodeRecord, decodeRecordAt. destruct inp as [inp|]; [|done].
  destruct (bool_decide_reflect (validateCodecSettings (fieldsOf inp) = CodecResult.OK))
    as [Hv%validateCodecSettings_ok|Hv]; cbn [negb];
    repeat match goal with
    | |- (let '_ := if ?b then _ else _ in _) = _ → _ => destruct b; [by intros [=]|]
    end; [|by intros [= ? _ _]].
  by intros [= <- _].
Qed.

Lemma decodeRecordWithRepair_valid inp n s0 g0 r0 :
  isValid s0 = true → isValid (decodeRecordWithRepair inp n s0 g0 r0).1.1.2 = true.
Proof.
  intros H0. unfold decodeRecordWithRepair.
  destruct (decodeRecord inp n defaults 0) as [[r s] g] eqn:E.
  destruct (bool_decide_reflect (r = CodecResult.OK)) as [->|].
  { by eapply decodeRecord_valid. }
  destruct (_ && _); [done|]. destruct inp; [|done]. cbn. apply repaired_valid.
Qed.

Lemma readAndClassify_valid slot w :
  isValid (slot_settings (readAndClassify slot w).1) = true.
Proof.
  unfold readAndClassify, bind. destruct (readSlot _ _ _ _) as [[[r b] n] w1]. cbn [fst snd].
  repeat (destruct (bool_decide _); [done|]). destruct (negb _); [done|].
  pose proof (decodeRecordWithRepair_valid (Some b) n defaults 0 false eq_refl) as Hv.
  by destruct (decodeRecordWithRepair _ _ _ _ _) as [[[? ?] ?] ?].
Qed.

Lemma applySelected_stays r slot fallback :
  isValid (slot_settings r) = true → stays inUse (applySelected r slot fallback).
Proof.
  intros Hr [m w] _. destruct (applySelected_run r slot fallback m w)
    as (st & m' & -> & Hs & _). cbn. unfold inUse. by rewrite Hs.
Qed.

Lemma selectSlot_stays a b :
  isValid (slot_settings a) = true → isValid (slot_settings b) = true →
  stays inUse (selectSlot a b).
Proof.
  intros Ha Hb. pose proof (applySelected_stays a) as Ka. pose proof (applySelected_stays b) as Kb.
  unfold selectSlot. staying; by first [apply Ka | apply Kb | destruct (isUsable a); auto].
Qed.

Lemma completeVerifiedReset_stays : stays inUse completeVerifiedReset.
Proof. unfold completeVerifiedReset, writeDefaults. staying. Qed.

Lemma note_stays r : stays inUse (note r).
Proof. unfold note. staying. Qed.

Lemma factoryReset_stays : stays inUse factoryReset.
Proof.
  pose proof completeVerifiedReset_stays. unfold factoryReset. staying; apply note_stays.
Qed.

Lemma recoverPendingReset_stays : stays inUse recoverPendingReset.
Proof.
  pose proof completeVerifiedReset_stays. unfold recoverPendingReset. staying; apply note_stays.
Qed.

Lemma load_stays : stays inUse load.
Proof.
  assert (Hsel : stays inUse (a <~ outside (readAndClassify A) ;;
    b <~ outside (readAndClassify B) ;; selectSlot a b)).
  { apply (stays_outside _ (λ r, isValid (slot_settings r) = true));
      [intros w; apply readAndClassify_valid|intros a Ha].
    apply (stays_outside _ (λ r, isValid (slot_settings r) = true));
      [intros w; apply readAndClassify_valid|intros b Hb].
    by apply selectSlot_stays. }
  pose proof recoverPendingReset_stays. unfold load, resetRuntimeState. staying.
Qed.

Lemma commitTo_stays target c rep g :
  isValid c = true → stays inUse (commitTo target c rep g).
Proof. intros Hc. unfold commitTo. staying. Qed.

Lemma save_stays c : stays inUse (save c).
Proof.
  unfold save. pose proof (repaired_valid c) as Hv. unfold repaired in Hv.
  destruct (validateAndRepair c) as [v canonical]. cbn [snd] in Hv.
  staying; by apply commitTo_stays.
Qed.

(** Whatever bytes the store hands out and whatever is asked to be saved,
    the settings in use are valid at every moment, and so are the settings every
    load and every save leaves. *)
Theorem settings_in_use_valid cs m (w : W) :
  isValid (settings_ m) = true →
  isValid (settings_ (performAll cs (m, w)).2.1) = true
  ∧ Forall (λ a, match a with Booted _ s | Saved _ s => isValid s = true | _ => True end)
      (performAll cs (m, w)).1.
Proof.
  revert m w. induction cs as [|c cs IH]; intros m w Hm; [by split|].
  cbn [performAll]. destruct (perform c (m, w)) as [a [m1 w1]] eqn:E.
  assert (Hs : isValid (settings_ m1) = true
    ∧ match a with Booted _ s | Saved _ s => isValid s = true | _ => True end).
  { destruct c as [|s|]; unfold perform in E.
    - pose proof (load_stays (m, w) Hm) as Hl. destruct (load (m, w)) as [st [m2 w2]].
      by injection E as <- <- <-.
    - pose proof (save_stays s (m, w) Hm) as Hl. destruct (save s (m, w)) as [st [m2 w2]].
      injection E as <- <- <-. split; [done|apply repaired_valid].
    - pose proof (factoryReset_stays (m, w) Hm) as Hl.
      destruct (factoryReset (m, w)) as [st [m2 w2]]. by injection E as <- <- <-. }
  destruct Hs as [Hm1 Ha]. specialize (IH m1 w1 Hm1).
  destruct (performAll cs (m1, w1)) as [l x2]. destruct IH. split; [done|]. by constructor.
Qed.

End Valid.

(** ** A store in memory *)

Module MemoryStore.

(** Two slots, a marker, and for each call to come whether it fails; a write
    that fails leaves its slot torn. *)
Record memory := mkMemory {
  slotA : option (list Z);
  slotB : option (list Z);
  held : Marker;
  faults : list bool
}.

Definition get (slot : RecordSlot) (w : memory) : option (list Z) :=
  match slot with A => slotA w | B => slotB w end.

Definition put (slot : RecordSlot) (c : option (list Z)) (w : memory) : memory :=
  match slot with
  | A => mkMemory c (slotB w) (held w) (faults w)
  | B => mkMemory (slotA w) c (held w) (faults w)
  end.

Definition mark (k : Marker) (w : memory) : memory :=
  mkMemory (slotA w) (slotB w) k (faults w).

(** Whether the call at hand fails. *)
Definition faulty {X} (bad good : memory → X * memory) : st memory X := λ w,
  let w' := mkMemory (slotA w) (slotB w) (held w) (tail (faults w)) in
  if head (faults w) is Some true then bad w' else good w'.

#[export] Instance store : RecordStore memory := {
  readSlot := λ slot out n,
    faulty (λ w, ((StoreResult.UNAVAILABLE, out, O), w))
      (λ w, (match get slot w with
             | None => (StoreResult.MISSING, out, O)
             | Some b => if (length b =? RECORD_SIZE)%nat then (StoreResult.OK, b, RECORD_SIZE)
                         else (StoreResult.MALFORMED, out, O)
             end, w));
  writeSlot := λ slot b n,
    faulty (λ w, (StoreResult.ERROR, put slot (Some (take 7 b)) w))
      (λ w, (StoreResult.OK, put slot (Some b) w));
  removeSlot := λ slot,
    faulty (λ w, (StoreResult.ERROR, w)) (λ w, (StoreResult.OK, put slot None w));
  readResetMarker := λ pending,
    faulty (λ w, ((StoreResult.UNAVAILABLE, pending), w))
      (λ w, (match held w with
             | ABSENT => (StoreResult.MISSING, pending)
             | HELD b => (StoreResult.OK, b)
             | UNREADABLE => (StoreResult.ERROR, pending)
             end, w));
  writeResetMarker := λ pending,
    faulty (λ w, (StoreResult.ERROR, w)) (λ w, (StoreResult.OK, mark (HELD pending) w));
  removeResetMarker :=
    faulty (λ w, (StoreResult.ERROR, w)) (λ w, (StoreResult.OK, mark ABSENT w))
}.

(** A write that was cut short is no record. *)
Lemma torn_unusable b : isUsable (classify (Some (take 7 b))) = false.
Proof.
  unfold classify. destruct (Nat.eqb_spec (length (take 7 b)) RECORD_SIZE) as [E|]; [|done].
  rewrite length_take in E. unfold RECORD_SIZE in E. lia.
Qed.

#[export] Instance flash : SettingsFlash memory.
Proof.
  refine {| content := λ w s, get s w; marker := held |}.
  - intros slot out n w. cbn. unfold faulty. by destruct (head (faults w)) as [[]|].
  - intros slot out w. cbn. unfold faulty. destruct (head (faults w)) as [[]|]; [done|..];
      destruct slot; cbn; [destruct (slotA w) as [b|]|destruct (slotB w) as [b|]|
        destruct (slotA w) as [b|]|destruct (slotB w) as [b|]]; try done;
      destruct (Nat.eqb_spec (length b) RECORD_SIZE); eauto.
  - intros slot b w _. pose proof (torn_unusable b) as Ht. cbn. unfold faulty, rewritten.
    destruct (head (faults w)) as [[]|], slot; cbn; auto.
  - intros slot w. cbn. unfold faulty, rewritten.
    destruct (head (faults w)) as [[]|], slot; cbn; auto.
  - intros pending w. cbn. unfold faulty.
    destruct (head (faults w)) as [[]|]; [done|..]; cbn; by destruct (held w).
  - intros pending w. cbn. unfold faulty.
    destruct (head (faults w)) as [[]|]; cbn; (split; [by intros []|auto]).
  - intros w. cbn. unfold faulty.
    destruct (head (faults w)) as [[]|]; cbn; (split; [by intros []|auto]).
Defined.

Definition blank (f : list bool) : memory := mkMemory None None ABSENT f.

End MemoryStore.

Import MemoryStore.

Definition bright : Settings := mkSettings 60 255 true true DefaultScreen.RADIO false.


(** The care is needed.  A load that could not read the store leaves a manager
    that counts generations from zero: the save it then confirms is written
    with generation 1 over slot A, and the next load returns older settings. *)
Lemma unread_store_save_lost :
  (performAll [Boot; Save sampleSettings; Save bright; Boot; Save sampleSettings; Boot]
     (newManager, blank (replicate 8 false ++ [true]))).1
  = [Booted LoadStatus.DEFAULTED_MISSING defaults; Saved SaveStatus.SAVED sampleSettings;
     Saved SaveStatus.SAVED bright; Booted LoadStatus.STORAGE_UNAVAILABLE defaults;
     Saved SaveStatus.SAVED sampleSettings; Booted LoadStatus.LOADED bright].
Proof. vm_compute. reflexivity. Qed.

Lemma settings_in_use_valid_witness :
  let garbage := mkSettings 3 0 true true 77 false in
  let w := mkMemory (Some (record_of bright 9)) (Some (repeat 255 24)) ABSENT [] in
  isValid (settings_ (performAll [Boot; Save garbage; Boot] (newManager, w)).2.1) = true
  ∧ Forall (λ a, match a with Booted _ s | Saved _ s => isValid s = true | _ => True end)
      (performAll [Boot; Save garbage; Boot] (newManager, w)).1.
Proof. intros garbage w. apply settings_in_use_valid. reflexivity. Defined.

End SettingsLife.
