(* ===== verification/HostRecords.v ===== *)
(** The records a Host Protocol operation carries,
    lib/host_protocol/host_protocol_messages.h, first half: typed values, and
    the codecs of the structures - identities, events, device information,
    status, capability and diagnostic pages, Event diagnostics - that travel in
    them. *)

From S2P Require Import Prelude EventWire Diagnostics Capabilities HostFrame.

Module HostProtocolRecords.

Import HostProtocol.

(* host_protocol_messages.h:12 = OPERATION_REQUEST_FIXED_SIZE *)
Definition OPERATION_REQUEST_FIXED_SIZE : Z := 7.

(* host_protocol_messages.h:13 = OPERATION_RESPONSE_FIXED_SIZE *)
Definition OPERATION_RESPONSE_FIXED_SIZE : Z := 9.

(* host_protocol_messages.h:14-15 = MAX_REQUEST_VALUE_SIZE *)
Definition MAX_REQUEST_VALUE_SIZE : Z := Z.of_nat MAX_PAYLOAD_SIZE - OPERATION_REQUEST_FIXED_SIZE.

(* host_protocol_messages.h:16-17 = MAX_RESPONSE_VALUE_SIZE *)
Definition MAX_RESPONSE_VALUE_SIZE : Z := Z.of_nat MAX_PAYLOAD_SIZE - OPERATION_RESPONSE_FIXED_SIZE.

(* host_protocol_messages.h:19 = DEVICE_INFO_SIZE *)
Definition DEVICE_INFO_SIZE : Z := 8.

(* host_protocol_messages.h:20 = STATUS_SIZE *)
Definition STATUS_SIZE : Z := 10.

(* host_protocol_messages.h:21 = CAPABILITY_DESCRIPTION_SIZE *)
Definition CAPABILITY_DESCRIPTION_SIZE : Z := 6.

(* host_protocol_messages.h:22 = MAX_CAPABILITY_PAGE_ENTRIES *)
Definition MAX_CAPABILITY_PAGE_ENTRIES : Z := 9.

(* host_protocol_messages.h:23 = MAX_DIAGNOSTIC_PAGE_ENTRIES *)
Definition MAX_DIAGNOSTIC_PAGE_ENTRIES : Z := 3.

(* host_protocol_messages.h:24 = CAPABILITY_PAGE_END *)
Definition CAPABILITY_PAGE_END : Z := 65535.

(* host_protocol_messages.h:25 = DIAGNOSTIC_PAGE_END *)
Definition DIAGNOSTIC_PAGE_END : Z := 255.

(* host_protocol_messages.h:26 = HOST_EVENT_IDENTITY_SIZE *)
Definition HOST_EVENT_IDENTITY_SIZE : Z := 9.

(* host_protocol_messages.h:27 = HOST_EVENT_RECORD_SIZE *)
Definition HOST_EVENT_RECORD_SIZE : Z := 29.

(* host_protocol_messages.h:28 = EVENT_DIAGNOSTIC_COUNTER_COUNT *)
Definition EVENT_DIAGNOSTIC_COUNTER_COUNT : Z := 15.

(* host_protocol_messages.h:29 = EVENT_DIAGNOSTICS_RECORD_SIZE *)
Definition EVENT_DIAGNOSTICS_RECORD_SIZE : Z := 111.

(* host_protocol_messages.h:30 = EVENT_DIAGNOSTICS_SCHEMA *)
Definition EVENT_DIAGNOSTICS_SCHEMA : Z := 1.

(* host_protocol_messages.h:31 = EVENT_TX_DIAGNOSTICS_SCHEMA *)
Definition EVENT_TX_DIAGNOSTICS_SCHEMA : Z := 2.

(* host_protocol_messages.h:32 = EVENT_TX_DIAGNOSTICS_SIZE *)
Definition EVENT_TX_DIAGNOSTICS_SIZE : Z := 99.

(* host_protocol_messages.h:38 = EVENT_DIAGNOSTICS_WAITING_ADMISSION *)
Definition EVENT_DIAGNOSTICS_WAITING_ADMISSION : Z := 1.

(* host_protocol_messages.h:39 = EVENT_DIAGNOSTICS_WAITING_RETRY *)
Definition EVENT_DIAGNOSTICS_WAITING_RETRY : Z := 2.

(* host_protocol_messages.h:40 = EVENT_DIAGNOSTICS_LIFETIME_AVAILABLE *)
Definition EVENT_DIAGNOSTICS_LIFETIME_AVAILABLE : Z := 4.

(* host_protocol_messages.h:41 = EVENT_DIAGNOSTICS_ORDINAL_AVAILABLE *)
Definition EVENT_DIAGNOSTICS_ORDINAL_AVAILABLE : Z := 8.

(* host_protocol_messages.h:42 = EVENT_DIAGNOSTICS_PERSISTENCE_DEGRADED *)
Definition EVENT_DIAGNOSTICS_PERSISTENCE_DEGRADED : Z := 16.

(* host_protocol_messages.h:43 = EVENT_DIAGNOSTICS_HUB_UNAVAILABLE *)
Definition EVENT_DIAGNOSTICS_HUB_UNAVAILABLE : Z := 32.

(* host_protocol_messages.h:44 = EVENT_DIAGNOSTICS_KNOWN_FLAGS *)
Definition EVENT_DIAGNOSTICS_KNOWN_FLAGS : Z := 63.

(* host_protocol_messages.h:46 = STATUS_READY *)
Definition STATUS_READY : Z := 1.

(* host_protocol_messages.h:47 = STATUS_RADIO_OPERATIONAL *)
Definition STATUS_RADIO_OPERATIONAL : Z := 2.

(* host_protocol_messages.h:48 = STATUS_TRANSACTION_ACTIVE *)
Definition STATUS_TRANSACTION_ACTIVE : Z := 4.

(* host_protocol_messages.h:49 = STATUS_DEGRADED *)
Definition STATUS_DEGRADED : Z := 8.

(* host_protocol_messages.h:50 = STATUS_ERROR *)
Definition STATUS_ERROR : Z := 16.

(* host_protocol_messages.h:51 = KNOWN_STATUS_FLAGS *)
Definition KNOWN_STATUS_FLAGS : Z := 31.

(* host_protocol_messages.h:52 = RESERVED_STATUS_FLAGS *)
Definition RESERVED_STATUS_FLAGS : Z := 65504.


(* host_protocol_messages.h:54-70 = enum class PayloadResult *)
Inductive PayloadResult :=
  OK | NULL_ARGUMENT | OUTPUT_TOO_SMALL | INVALID_LENGTH | INVALID_FIELD | UNKNOWN_CATEGORY
| UNKNOWN_OPERATION | UNSUPPORTED_CATEGORY_OPERATION | INVALID_TARGET | INVALID_VALUE_TYPE
| INVALID_VALUE_LENGTH | INVALID_VALUE | INVALID_RESULT_CLASS | INVALID_RESULT_CODE
| INVALID_RESPONSE_VALUE.

#[global] Instance PayloadResult_eq_dec : EqDecision PayloadResult.
Proof. solve_decision. Defined.

(** ** Data *)

(* host_protocol_messages.h:100-104 TypedValue *)
Record TypedValue := mkTyped {
  tv_type : Z;
  tv_length : Z;
  tv_bytes : list Z
}.

#[export] Instance etaTypedValue : RecEta TypedValue :=
  λ v, mkTyped (tv_type v) (tv_length v) (tv_bytes v).

(** [TypedValue value = {};] *)
Definition zeroValue : TypedValue := mkTyped 0 0 (zeros 121).

(* host_protocol_messages.h:130-134 HostEventIdentity *)
Record HostEventIdentity := mkHostIdentity {
  sourceDeviceId : Z;
  eventEpoch : Z;
  eventId : Z
}.

(* host_protocol_messages.h:136-146 HostEventRecord *)
Record HostEventRecord := mkHostEvent {
  he_available : Z;
  he_sourceDeviceId : Z;
  he_family : Z;
  he_flags : Z;
  he_eventEpoch : Z;
  he_eventId : Z;
  he_lifetimeBudgetSeconds : Z;
  he_bodyLength : Z;
  he_body : list Z
}.

(* host_protocol_messages.h:148-171 EventDiagnosticsRecord *)
Record EventDiagnosticsRecord := mkEventDiagnostics {
  schema : Z;
  ed_role : Z;
  custodyCount : Z;
  capacity : Z;
  activeCount : Z;
  consumedCount : Z;
  recordAvailable : Z;
  ed_state : Z;
  identity : HostEventIdentity;
  ed_family : Z;
  attemptsUsed : Z;
  attemptsMaximum : Z;
  ed_flags : Z;
  remainingLifetimeSeconds : Z;
  admissionOrdinal : Z;
  recentAdmissionAvailable : Z;
  recentAdmission : HostEventIdentity;
  producerKind : Z;
  producerResult : Z;
  producerIdentityAvailable : Z;
  producerIdentity : HostEventIdentity;
  ed_counters : list Z
}.

(* host_protocol_messages.h:173-182 DeviceInfoRecord *)
Record DeviceInfoRecord := mkDeviceInfo {
  firmwareMajor : Z;
  firmwareMinor : Z;
  firmwarePatch : Z;
  wireProtocol : Z;
  configurationSchema : Z;
  hardwareProfile : Z;
  role : Z;
  deviceId : Z
}.

(* host_protocol_messages.h:184-189 StatusRecord *)
Record StatusRecord := mkStatus {
  statusFlags : Z;
  uptimeSeconds : Z;
  retryCount : Z;
  timeoutCount : Z
}.

(* host_protocol_messages.h:191-195 CapabilityPageRecord *)
Record CapabilityPageRecord := mkCapabilityPage {
  cp_nextCursor : Z;
  cp_count : Z;
  capabilityIds : list Z
}.

(* host_protocol_messages.h:197-204 CapabilityDescriptionRecord *)
Record CapabilityDescriptionRecord := mkDescription {
  capabilityClass : Z;
  cd_valueType : Z;
  cd_operationFlags : Z;
  unit_ : Z;
  availability : Z;
  cd_reserved : Z
}.

(* host_protocol_messages.h:206-209 DiagnosticEntry *)
Record DiagnosticEntry := mkEntry { metricId : Z; metric_value : Z }.

(* host_protocol_messages.h:211-215 DiagnosticPageRecord *)
Record DiagnosticPageRecord := mkDiagnosticPage {
  dp_nextCursor : Z;
  dp_count : Z;
  dp_entries : list DiagnosticEntry
}.

(** ** Bytes *)

(* host_protocol_messages.h:217-220 writeUint16Le *)
Definition writeUint16Le (output : list Z) (i : nat) (value : Z) : list Z := write16 output i value.

(* host_protocol_messages.h:222-227 writeUint32Le *)
Definition writeUint32Le (output : list Z) (i : nat) (value : Z) : list Z := write32 output i value.

(* host_protocol_messages.h:229-232 readUint16Le *)
Definition readUint16Le (input : list Z) (i : nat) : Z := read16 input i.

(* host_protocol_messages.h:234-239 readUint32Le *)
Definition readUint32Le (input : list Z) (i : nat) : Z := read32 input i.

(** ** Identities *)

(* host_protocol_messages.h:241-244 isValidHostEventIdentity *)
Definition isValidHostEventIdentity (i : HostEventIdentity) : bool :=
  negb (sourceDeviceId i =? 0) && negb (eventEpoch i =? 0) && negb (eventId i =? 0).

(** An encoder returns its result, the buffer as it leaves it and the length
    written. *)
(* host_protocol_messages.h:246-257 encodeHostEventIdentity *)
Definition encodeHostEventIdentity (i : HostEventIdentity) (output : option (list Z))
    (outputCapacity : Z) : PayloadResult * option (list Z) * Z :=
  match output with
  | None => (NULL_ARGUMENT, None, 0)
  | Some out =>
      if negb (isValidHostEventIdentity i) then (INVALID_VALUE, output, 0) else
      if outputCapacity <? HOST_EVENT_IDENTITY_SIZE then (OUTPUT_TOO_SMALL, output, 0) else
      let out := upd out 0 (sourceDeviceId i) in
      let out := writeUint32Le out 1 (eventEpoch i) in
      let out := writeUint32Le out 5 (eventId i) in
      (OK, Some out, HOST_EVENT_IDENTITY_SIZE)
  end.

(* host_protocol_messages.h:259-268 decodeHostEventIdentity *)
Definition decodeHostEventIdentity (input : option (list Z)) (inputLength : Z)
    (i : HostEventIdentity) : PayloadResult * HostEventIdentity :=
  match input with
  | None => (NULL_ARGUMENT, i)
  | Some inp =>
      if negb (inputLength =? HOST_EVENT_IDENTITY_SIZE) then (INVALID_LENGTH, i) else
      let candidate := mkHostIdentity (rd inp 0) (readUint32Le inp 1) (readUint32Le inp 5) in
      if negb (isValidHostEventIdentity candidate) then (INVALID_VALUE, i) else
      (OK, candidate)
  end.

(* host_protocol_messages.h:331-334 isZeroHostEventIdentity *)
Definition isZeroHostEventIdentity (i : HostEventIdentity) : bool :=
  (sourceDeviceId i =? 0) && (eventEpoch i =? 0) && (eventId i =? 0).

(** ** Events *)

(* host_protocol_messages.h:270-291 isValidHostEventRecord *)
Definition isValidHostEventRecord (r : HostEventRecord) : bool :=
  if he_available r =? 0 then
    (he_sourceDeviceId r =? 0) && (he_family r =? 0) && (he_flags r =? 0)
    && (he_eventEpoch r =? 0) && (he_eventId r =? 0) && (he_lifetimeBudgetSeconds r =? 0)
    && (he_bodyLength r =? 0) && all_zero (he_body r)
  else
    (he_available r =? 1) && negb (he_sourceDeviceId r =? 0) && negb (he_eventEpoch r =? 0)
    && negb (he_eventId r =? 0)
    && (Z.land (he_flags r) (u8 (Z.lnot EventProtocol.ALLOWED_FLAGS)) =? 0)
    && (EventProtocol.MIN_LIFETIME_SECONDS <=? he_lifetimeBudgetSeconds r)
    && (he_lifetimeBudgetSeconds r <=? EventProtocol.MAX_LIFETIME_SECONDS)
    && (he_bodyLength r <=? EventProtocol.MAX_BODY_SIZE)
    && EventProtocol.isRegisteredFamily (he_family r)
    && EventProtocol.isValidFamilyBody (he_family r) (Some (he_body r)) (he_bodyLength r)
    && all_zero (drop (Z.to_nat (he_bodyLength r)) (he_body r)).

(* host_protocol_messages.h:293-311 encodeHostEventRecord *)
Definition encodeHostEventRecord (r : HostEventRecord) (output : option (list Z))
    (outputCapacity : Z) : PayloadResult * option (list Z) * Z :=
  match output with
  | None => (NULL_ARGUMENT, None, 0)
  | Some out =>
      if negb (isValidHostEventRecord r) then (INVALID_VALUE, output, 0) else
      if outputCapacity <? HOST_EVENT_RECORD_SIZE then (OUTPUT_TOO_SMALL, output, 0) else
      let out := copy_bytes (Z.to_nat HOST_EVENT_RECORD_SIZE) out 0
                   (zeros (Z.to_nat HOST_EVENT_RECORD_SIZE)) 0 in
      let out := upd out 0 (he_available r) in
      let out := upd out 1 (he_sourceDeviceId r) in
      let out := upd out 2 (he_family r) in
      let out := upd out 3 (he_flags r) in
      let out := writeUint32Le out 4 (he_eventEpoch r) in
      let out := writeUint32Le out 8 (he_eventId r) in
      let out := writeUint32Le out 12 (he_lifetimeBudgetSeconds r) in
      let out := upd out 16 (he_bodyLength r) in
      let out := copy_bytes (Z.to_nat EventProtocol.MAX_BODY_SIZE) out 17 (he_body r) 0 in
      (OK, Some out, HOST_EVENT_RECORD_SIZE)
  end.

(* host_protocol_messages.h:313-329 decodeHostEventRecord *)
Definition decodeHostEventRecord (input : option (list Z)) (inputLength : Z)
    (r : HostEventRecord) : PayloadResult * HostEventRecord :=
  match input with
  | None => (NULL_ARGUMENT, r)
  | Some inp =>
      if negb (inputLength =? HOST_EVENT_RECORD_SIZE) then (INVALID_LENGTH, r) else
      let candidate :=
        mkHostEvent (rd inp 0) (rd inp 1) (rd inp 2) (rd inp 3) (readUint32Le inp 4)
          (readUint32Le inp 8) (readUint32Le inp 12) (rd inp 16)
          (copy_bytes (Z.to_nat EventProtocol.MAX_BODY_SIZE) (zeros 12) 0 inp 17) in
      if negb (isValidHostEventRecord candidate) then (INVALID_VALUE, r) else
      (OK, candidate)
  end.

Definition zeroHostEvent : HostEventRecord := mkHostEvent 0 0 0 0 0 0 0 0 (zeros 12).

(** ** Event diagnostics *)

(* host_protocol_messages.h:336-371 isValidEventDiagnosticsRecord *)
Definition isValidEventDiagnosticsRecord (r : EventDiagnosticsRecord) : bool :=
  if negb (schema r =? EVENT_DIAGNOSTICS_SCHEMA) || negb (isKnownDeviceRole (ed_role r))
     || (8 <? capacity r) || (capacity r <? custodyCount r) || (capacity r <? activeCount r)
     || (capacity r <? consumedCount r) || (capacity r <? activeCount r + consumedCount r)
     || (1 <? recordAvailable r) || (1 <? recentAdmissionAvailable r)
     || (1 <? producerIdentityAvailable r) || (11 <? ed_state r) || (3 <? producerKind r)
     || (5 <? producerResult r)
     || negb (Z.land (ed_flags r) (u8 (Z.lnot EVENT_DIAGNOSTICS_KNOWN_FLAGS)) =? 0)
  then false else
  if (if recordAvailable r =? 1 then
        negb (isValidHostEventIdentity (identity r))
        || negb (EventProtocol.isRegisteredFamily (ed_family r))
      else
        negb (isZeroHostEventIdentity (identity r)) || negb (ed_family r =? 0)
        || negb (attemptsUsed r =? 0) || negb (attemptsMaximum r =? 0)
        || negb (Z.land (ed_flags r) (Z.lor EVENT_DIAGNOSTICS_LIFETIME_AVAILABLE
                   EVENT_DIAGNOSTICS_ORDINAL_AVAILABLE) =? 0)
        || negb (remainingLifetimeSeconds r =? 0) || negb (admissionOrdinal r =? 0))
  then false else
  if (attemptsMaximum r <? attemptsUsed r)
     || ((Z.land (ed_flags r) EVENT_DIAGNOSTICS_LIFETIME_AVAILABLE =? 0)
         && negb (remainingLifetimeSeconds r =? 0))
     || ((Z.land (ed_flags r) EVENT_DIAGNOSTICS_ORDINAL_AVAILABLE =? 0)
         && negb (admissionOrdinal r =? 0))
  then false else
  if (if recentAdmissionAvailable r =? 1
      then negb (isValidHostEventIdentity (recentAdmission r))
      else negb (isZeroHostEventIdentity (recentAdmission r)))
  then false else
  if (if producerIdentityAvailable r =? 1
      then negb (isValidHostEventIdentity (producerIdentity r)) || negb (producerResult r =? 1)
      else negb (isZeroHostEventIdentity (producerIdentity r)))
  then false else true.

(** The identity at [i], and writing one there. *)
(* host_protocol_messages.h:390-392 = encodeEventDiagnosticsRecord, writing an identity *)
Definition writeIdentity (output : list Z) (at_ : nat) (i : HostEventIdentity) : list Z :=
  writeUint32Le (writeUint32Le (upd output at_ (sourceDeviceId i)) (at_ + 1) (eventEpoch i))
    (at_ + 5) (eventId i).

(* host_protocol_messages.h:432-433 = decodeEventDiagnosticsRecord, reading an identity *)
Definition readIdentity (input : list Z) (at_ : nat) : HostEventIdentity :=
  mkHostIdentity (rd input at_) (readUint32Le input (at_ + 1)) (readUint32Le input (at_ + 5)).

(* host_protocol_messages.h:409-410 = encodeEventDiagnosticsRecord, the loop over the counters *)
Fixpoint writeCounters (left i : nat) (counters output : list Z) : list Z :=
  match left with
  | O => output
  | S left' => writeCounters left' (S i) counters (writeUint32Le output (51 + 4 * i) (rd counters i))
  end.

(* host_protocol_messages.h:448-449 = decodeEventDiagnosticsRecord, the loop over the counters *)
Fixpoint readCounters (left i : nat) (input counters : list Z) : list Z :=
  match left with
  | O => counters
  | S left' => readCounters left' (S i) input (upd counters i (readUint32Le input (51 + 4 * i)))
  end.

(** An encoder into a typed value returns the value as it leaves it. *)
(* host_protocol_messages.h:373-413 encodeEventDiagnosticsRecord *)
Definition encodeEventDiagnosticsRecord (r : EventDiagnosticsRecord) (value : TypedValue)
    : PayloadResult * TypedValue :=
  if negb (isValidEventDiagnosticsRecord r) then (INVALID_VALUE, value) else
  let output := zeros 121 in
  let output := upd output 0 (schema r) in
  let output := upd output 1 (ed_role r) in
  let output := upd output 2 (custodyCount r) in
  let output := upd output 3 (capacity r) in
  let output := upd output 4 (activeCount r) in
  let output := upd output 5 (consumedCount r) in
  let output := upd output 6 (recordAvailable r) in
  let output := upd output 7 (ed_state r) in
  let output := writeIdentity output 8 (identity r) in
  let output := upd output 17 (ed_family r) in
  let output := upd output 18 (attemptsUsed r) in
  let output := upd output 19 (attemptsMaximum r) in
  let output := upd output 20 (ed_flags r) in
  let output := writeUint32Le output 21 (remainingLifetimeSeconds r) in
  let output := writeUint32Le output 25 (admissionOrdinal r) in
  let output := upd output 29 (recentAdmissionAvailable r) in
  let output := writeIdentity output 30 (recentAdmission r) in
  let output := upd output 39 (producerKind r) in
  let output := upd output 40 (producerResult r) in
  let output := upd output 41 (producerIdentityAvailable r) in
  let output := writeIdentity output 42 (producerIdentity r) in
  let output := writeCounters (Z.to_nat EVENT_DIAGNOSTIC_COUNTER_COUNT) 0 (ed_counters r) output in
  (OK, mkTyped STRUCTURE_VALUE_TYPE EVENT_DIAGNOSTICS_RECORD_SIZE output).

(* host_protocol_messages.h:415-453 decodeEventDiagnosticsRecord *)
Definition decodeEventDiagnosticsRecord (value : TypedValue) (record : EventDiagnosticsRecord)
    : PayloadResult * EventDiagnosticsRecord :=
  if negb (tv_type value =? STRUCTURE_VALUE_TYPE)
     || negb (tv_length value =? EVENT_DIAGNOSTICS_RECORD_SIZE)
  then (INVALID_VALUE, record) else
  let input := tv_bytes value in
  let candidate :=
    mkEventDiagnostics (rd input 0) (rd input 1) (rd input 2) (rd input 3) (rd input 4)
      (rd input 5) (rd input 6) (rd input 7) (readIdentity input 8) (rd input 17) (rd input 18)
      (rd input 19) (rd input 20) (readUint32Le input 21) (readUint32Le input 25) (rd input 29)
      (readIdentity input 30) (rd input 39) (rd input 40) (rd input 41) (readIdentity input 42)
      (readCounters (Z.to_nat EVENT_DIAGNOSTIC_COUNTER_COUNT) 0 input (zeros 15)) in
  if negb (isValidEventDiagnosticsRecord candidate) then (INVALID_VALUE, record) else
  (OK, candidate).

(** ** Event transmission diagnostics *)

(* host_protocol_messages.h:455-470 validEventTxDiagnostics *)
Definition validEventTxDiagnostics (role : Z) (s : EventTxDiagnostics.Snapshot) : bool :=
  if negb (isKnownDeviceRole role) || ((role =? DeviceRole.HUB) && EventTxDiagnostics.available s)
     || (EventTxDiagnostics.COUNTER_COUNT <? EventTxDiagnostics.lastStep s)
     || (8 <? EventTxDiagnostics.controllerState s) || (6 <? EventTxDiagnostics.radioOwner s)
     || (5 <? EventTxDiagnostics.attempt_ s)
     || (negb (EventTxDiagnostics.admissionStatus s =? 255)
         && (4 <? EventTxDiagnostics.admissionStatus s))
  then false else
  let i := mkHostIdentity (EventTxDiagnostics.source s) (EventTxDiagnostics.epoch s)
             (EventTxDiagnostics.id s) in
  if (if negb (EventTxDiagnostics.attempt_ s =? 0) then negb (isValidHostEventIdentity i)
      else negb (isZeroHostEventIdentity i))
  then false else
  if negb (EventTxDiagnostics.available s) then
    (EventTxDiagnostics.lastStep s =? 0) && (EventTxDiagnostics.controllerState s =? 0)
    && (EventTxDiagnostics.radioOwner s =? 0) && (EventTxDiagnostics.attempt_ s =? 0)
    && (EventTxDiagnostics.lastAt s =? 0) && (EventTxDiagnostics.startAt s =? 0)
    && (EventTxDiagnostics.completedAt s =? 0) && (EventTxDiagnostics.previousClock s =? 0)
    && (EventTxDiagnostics.inputClock s =? 0) && (EventTxDiagnostics.startResult_ s =? 0)
    && (EventTxDiagnostics.admissionStatus s =? 255) && all_zero (EventTxDiagnostics.counters s)
  else true.

(* host_protocol_messages.h:486-487 = encodeEventTxDiagnostics, the loop over the counters *)
Fixpoint writeTxCounters (left i : nat) (counters output : list Z) : list Z :=
  match left with
  | O => output
  | S left' => writeTxCounters left' (S i) counters (writeUint16Le output (39 + 2 * i) (rd counters i))
  end.

(* host_protocol_messages.h:509-510 = decodeEventTxDiagnostics, the loop over the counters *)
Fixpoint readTxCounters (left i : nat) (input counters : list Z) : list Z :=
  match left with
  | O => counters
  | S left' => readTxCounters left' (S i) input (upd counters i (readUint16Le input (39 + 2 * i)))
  end.

(* host_protocol_messages.h:472-489 encodeEventTxDiagnostics *)
Definition encodeEventTxDiagnostics (role : Z) (s : EventTxDiagnostics.Snapshot)
    (value : TypedValue) : PayloadResult * TypedValue :=
  if negb (validEventTxDiagnostics role s) then (INVALID_VALUE, value) else
  let b := zeros 121 in
  let b := upd (upd b 0 EVENT_TX_DIAGNOSTICS_SCHEMA) 1 role in
  let b := upd b 2 (if EventTxDiagnostics.available s then 1 else 0) in
  let b := upd b 3 (EventTxDiagnostics.lastStep s) in
  let b := upd b 4 (EventTxDiagnostics.controllerState s) in
  let b := upd b 5 (EventTxDiagnostics.radioOwner s) in
  let b := upd b 6 (EventTxDiagnostics.attempt_ s) in
  let b := upd b 7 (EventTxDiagnostics.source s) in
  let b := writeUint32Le b 8 (EventTxDiagnostics.epoch s) in
  let b := writeUint32Le b 12 (EventTxDiagnostics.id s) in
  let b := writeUint32Le b 16 (EventTxDiagnostics.lastAt s) in
  let b := writeUint32Le b 20 (EventTxDiagnostics.startAt s) in
  let b := writeUint32Le b 24 (EventTxDiagnostics.completedAt s) in
  let b := writeUint32Le b 28 (EventTxDiagnostics.previousClock s) in
  let b := writeUint32Le b 32 (EventTxDiagnostics.inputClock s) in
  let b := writeUint16Le b 36 (u16 (EventTxDiagnostics.startResult_ s)) in
  let b := upd b 38 (EventTxDiagnostics.admissionStatus s) in
  let b := writeTxCounters (Z.to_nat EventTxDiagnostics.COUNTER_COUNT) 0
             (EventTxDiagnostics.counters s) b in
  (OK, mkTyped STRUCTURE_VALUE_TYPE EVENT_TX_DIAGNOSTICS_SIZE b).

(* host_protocol_messages.h:491-513 decodeEventTxDiagnostics *)
Definition decodeEventTxDiagnostics (value : TypedValue) (role : Z)
    (snapshot : EventTxDiagnostics.Snapshot)
    : PayloadResult * Z * EventTxDiagnostics.Snapshot :=
  let b := tv_bytes value in
  if negb (tv_type value =? STRUCTURE_VALUE_TYPE)
     || negb (tv_length value =? EVENT_TX_DIAGNOSTICS_SIZE)
     || negb (rd b 0 =? EVENT_TX_DIAGNOSTICS_SCHEMA) || (1 <? rd b 2)
  then (INVALID_VALUE, role, snapshot) else
  let decodedRole := rd b 1 in
  let rawResult := readUint16Le b 36 in
  let s :=
    EventTxDiagnostics.mkSnapshot (negb (rd b 2 =? 0)) (rd b 3) (rd b 4) (rd b 5) (rd b 6)
      (rd b 7) (readUint32Le b 8) (readUint32Le b 12) (readUint32Le b 16) (readUint32Le b 20)
      (readUint32Le b 24) (readUint32Le b 28) (readUint32Le b 32)
      (if rawResult <=? 32767 then rawResult else rawResult - 65536) (rd b 38)
      (readTxCounters (Z.to_nat EventTxDiagnostics.COUNTER_COUNT) 0 b (zeros 30)) in
  if negb (validEventTxDiagnostics decodedRole s) then (INVALID_VALUE, role, snapshot) else
  (OK, decodedRole, s).

(** ** Device information and status *)

(* host_protocol_messages.h:1267-1285 encodeDeviceInfoRecord *)
Definition encodeDeviceInfoRecord (r : DeviceInfoRecord) (value : TypedValue)
    : PayloadResult * TypedValue :=
  if negb (isKnownHardwareProfile (hardwareProfile r)) || negb (isKnownDeviceRole (role r))
  then (INVALID_FIELD, value) else
  let b := zeros 121 in
  let b := upd (upd (upd b 0 (firmwareMajor r)) 1 (firmwareMinor r)) 2 (firmwarePatch r) in
  let b := upd (upd b 3 (wireProtocol r)) 4 (configurationSchema r) in
  let b := upd (upd (upd b 5 (hardwareProfile r)) 6 (role r)) 7 (deviceId r) in
  (OK, mkTyped STRUCTURE_VALUE_TYPE DEVICE_INFO_SIZE b).

(* host_protocol_messages.h:1287-1306 decodeDeviceInfoRecord *)
Definition decodeDeviceInfoRecord (value : TypedValue) (record : DeviceInfoRecord)
    : PayloadResult * DeviceInfoRecord :=
  if negb (tv_type value =? STRUCTURE_VALUE_TYPE) || negb (tv_length value =? DEVICE_INFO_SIZE)
  then (INVALID_VALUE, record) else
  let b := tv_bytes value in
  let candidate := mkDeviceInfo (rd b 0) (rd b 1) (rd b 2) (rd b 3) (rd b 4) (rd b 5) (rd b 6) (rd b 7) in
  if negb (isKnownHardwareProfile (hardwareProfile candidate))
     || negb (isKnownDeviceRole (role candidate))
  then (INVALID_FIELD, record) else (OK, candidate).

(* host_protocol_messages.h:1308-1323 encodeStatusRecord *)
Definition encodeStatusRecord (r : StatusRecord) (value : TypedValue)
    : PayloadResult * TypedValue :=
  if negb (Z.land (statusFlags r) RESERVED_STATUS_FLAGS =? 0) then (INVALID_FIELD, value) else
  let b := zeros 121 in
  let b := writeUint16Le b 0 (statusFlags r) in
  let b := writeUint32Le b 2 (uptimeSeconds r) in
  let b := writeUint16Le b 6 (retryCount r) in
  let b := writeUint16Le b 8 (timeoutCount r) in
  (OK, mkTyped STRUCTURE_VALUE_TYPE STATUS_SIZE b).

(* host_protocol_messages.h:1325-1341 decodeStatusRecord *)
Definition decodeStatusRecord (value : TypedValue) (record : StatusRecord)
    : PayloadResult * StatusRecord :=
  if negb (tv_type value =? STRUCTURE_VALUE_TYPE) || negb (tv_length value =? STATUS_SIZE)
  then (INVALID_VALUE, record) else
  let b := tv_bytes value in
  let candidate := mkStatus (readUint16Le b 0) (readUint32Le b 2) (readUint16Le b 6) (readUint16Le b 8) in
  if negb (Z.land (statusFlags candidate) RESERVED_STATUS_FLAGS =? 0)
  then (INVALID_FIELD, record) else (OK, candidate).

(** ** Pages *)

(** The loop that writes the identifiers, unless one is invalid. *)
(* host_protocol_messages.h:1354-1361 = encodeCapabilityPageRecord, the loop *)
Fixpoint writeIds (left i : nat) (ids bytes : list Z) : option (list Z) :=
  match left with
  | O => Some bytes
  | S left' =>
      if rd ids i =? DeviceCapabilities.INVALID_CAPABILITY_ID then None
      else writeIds left' (S i) ids (writeUint16Le bytes (3 + 2 * i) (rd ids i))
  end.

(* host_protocol_messages.h:1343-1364 encodeCapabilityPageRecord *)
Definition encodeCapabilityPageRecord (r : CapabilityPageRecord) (value : TypedValue)
    : PayloadResult * TypedValue :=
  if MAX_CAPABILITY_PAGE_ENTRIES <? cp_count r then (INVALID_FIELD, value) else
  let b := zeros 121 in
  let b := writeUint16Le b 0 (cp_nextCursor r) in
  let b := upd b 2 (cp_count r) in
  match writeIds (Z.to_nat (cp_count r)) 0 (capabilityIds r) b with
  | None => (INVALID_FIELD, value)
  | Some b => (OK, mkTyped STRUCTURE_VALUE_TYPE (u8 (3 + 2 * cp_count r)) b)
  end.

(** The loop that reads the identifiers, unless one is invalid. *)
(* host_protocol_messages.h:1380-1387 = decodeCapabilityPageRecord, the loop *)
Fixpoint readIds (left i : nat) (bytes ids : list Z) : option (list Z) :=
  match left with
  | O => Some ids
  | S left' =>
      let id := readUint16Le bytes (3 + 2 * i) in
      if id =? DeviceCapabilities.INVALID_CAPABILITY_ID then None
      else readIds left' (S i) bytes (upd ids i id)
  end.

(* host_protocol_messages.h:1366-1390 decodeCapabilityPageRecord *)
Definition decodeCapabilityPageRecord (value : TypedValue) (record : CapabilityPageRecord)
    : PayloadResult * CapabilityPageRecord :=
  if negb (tv_type value =? STRUCTURE_VALUE_TYPE) || (tv_length value <? 3)
     || (21 <? tv_length value) || negb ((tv_length value - 3) `mod` 2 =? 0)
  then (INVALID_VALUE, record) else
  let b := tv_bytes value in
  let count := rd b 2 in
  if (MAX_CAPABILITY_PAGE_ENTRIES <? count) || negb (tv_length value =? 3 + 2 * count)
  then (INVALID_FIELD, record) else
  match readIds (Z.to_nat count) 0 b (zeros 9) with
  | None => (INVALID_FIELD, record)
  | Some ids => (OK, mkCapabilityPage (readUint16Le b 0) count ids)
  end.

(* host_protocol_messages.h:1392-1413 encodeCapabilityDescriptionRecord *)
Definition encodeCapabilityDescriptionRecord (r : CapabilityDescriptionRecord) (value : TypedValue)
    : PayloadResult * TypedValue :=
  if negb (DeviceCapabilities.isKnownCapabilityClass (capabilityClass r))
     || negb (DeviceCapabilities.isKnownValueType (cd_valueType r))
     || negb (DeviceCapabilities.hasKnownOperationFlags (cd_operationFlags r))
     || negb (DeviceCapabilities.isKnownUnitCode (unit_ r)) || (1 <? availability r)
     || negb (cd_reserved r =? 0)
  then (INVALID_FIELD, value) else
  let b := zeros 121 in
  let b := upd (upd b 0 (capabilityClass r)) 1 (cd_valueType r) in
  let b := upd (upd b 2 (cd_operationFlags r)) 3 (unit_ r) in
  let b := upd (upd b 4 (availability r)) 5 (cd_reserved r) in
  (OK, mkTyped STRUCTURE_VALUE_TYPE CAPABILITY_DESCRIPTION_SIZE b).

(* host_protocol_messages.h:1415-1435 decodeCapabilityDescriptionRecord *)
Definition decodeCapabilityDescriptionRecord (value : TypedValue)
    (record : CapabilityDescriptionRecord) : PayloadResult * CapabilityDescriptionRecord :=
  if negb (tv_type value =? STRUCTURE_VALUE_TYPE)
     || negb (tv_length value =? CAPABILITY_DESCRIPTION_SIZE)
  then (INVALID_VALUE, record) else
  let b := tv_bytes value in
  let candidate := mkDescription (rd b 0) (rd b 1) (rd b 2) (rd b 3) (rd b 4) (rd b 5) in
  if negb (bool_decide ((encodeCapabilityDescriptionRecord candidate zeroValue).1 = OK))
  then (INVALID_FIELD, record) else (OK, candidate).

(* host_protocol_messages.h:1448-1452 = encodeDiagnosticPageRecord, the loop *)
Fixpoint writeEntries (left i : nat) (entries : list DiagnosticEntry) (bytes : list Z) : list Z :=
  match left with
  | O => bytes
  | S left' =>
      let e := nth i entries (mkEntry 0 0) in
      writeEntries left' (S i) entries
        (writeUint32Le (upd bytes (2 + 5 * i) (metricId e)) (3 + 5 * i) (metric_value e))
  end.

(* host_protocol_messages.h:1437-1455 encodeDiagnosticPageRecord *)
Definition encodeDiagnosticPageRecord (r : DiagnosticPageRecord) (value : TypedValue)
    : PayloadResult * TypedValue :=
  if MAX_DIAGNOSTIC_PAGE_ENTRIES <? dp_count r then (INVALID_FIELD, value) else
  let b := upd (upd (zeros 121) 0 (dp_nextCursor r)) 1 (dp_count r) in
  (OK, mkTyped STRUCTURE_VALUE_TYPE (u8 (2 + 5 * dp_count r))
         (writeEntries (Z.to_nat (dp_count r)) 0 (dp_entries r) b)).

(* host_protocol_messages.h:1471-1475 = decodeDiagnosticPageRecord, the loop *)
Fixpoint readEntries (left i : nat) (bytes : list Z) (entries : list DiagnosticEntry)
    : list DiagnosticEntry :=
  match left with
  | O => entries
  | S left' =>
      readEntries left' (S i) bytes
        (<[i := mkEntry (rd bytes (2 + 5 * i)) (readUint32Le bytes (3 + 5 * i))]> entries)
  end.

(* host_protocol_messages.h:1457-1478 decodeDiagnosticPageRecord *)
Definition decodeDiagnosticPageRecord (value : TypedValue) (record : DiagnosticPageRecord)
    : PayloadResult * DiagnosticPageRecord :=
  if negb (tv_type value =? STRUCTURE_VALUE_TYPE) || (tv_length value <? 2)
     || (17 <? tv_length value) || negb ((tv_length value - 2) `mod` 5 =? 0)
  then (INVALID_VALUE, record) else
  let b := tv_bytes value in
  let count := rd b 1 in
  if (MAX_DIAGNOSTIC_PAGE_ENTRIES <? count) || negb (tv_length value =? 2 + 5 * count)
  then (INVALID_FIELD, record) else
  (OK, mkDiagnosticPage (rd b 0) count
         (readEntries (Z.to_nat count) 0 b (replicate 3 (mkEntry 0 0)))).

(** ** Scalars *)

Import DeviceCapabilities.

(* host_protocol_messages.h:515-530 expectedScalarValueLength *)
Definition expectedScalarValueLength (type : Z) : Z :=
  if type =? ValueType.NONE then 0 else
  if type =? ValueType.BOOLEAN then 1 else
  if (type =? ValueType.NORMALIZED_U16) || (type =? ValueType.ENUM_U16) then 2 else
  if (type =? ValueType.UNSIGNED_32) || (type =? ValueType.SIGNED_32)
     || (type =? ValueType.FIXED_Q16_16) then 4 else
  255.

(* host_protocol_messages.h:532-545 isValidScalarValue *)
Definition isValidScalarValue (value : TypedValue) : bool :=
  if (tv_type value =? STRUCTURE_VALUE_TYPE) || negb (isKnownValueType (tv_type value))
  then false else
  if negb (tv_length value =? expectedScalarValueLength (tv_type value)) then false else
  negb (tv_type value =? ValueType.BOOLEAN) || (rd (tv_bytes value) 0 <=? 1).

(* host_protocol_messages.h:547-550 isNoneValue *)
Definition isNoneValue (value : TypedValue) : bool :=
  (tv_type value =? ValueType.NONE) && (tv_length value =? 0).

(* host_protocol_messages.h:552-554 isNonNoneScalarValue *)
Definition isNonNoneScalarValue (value : TypedValue) : bool :=
  isValidScalarValue value && negb (isNoneValue value).

(* host_protocol_messages.h:556-559 setNoneValue *)
Definition setNoneValue : TypedValue := zeroValue <| tv_type := ValueType.NONE |>.

(** The setters return whether they set the value, and the value. *)
(* host_protocol_messages.h:561-568 setBooleanValue *)
Definition setBooleanValue (value : TypedValue) (booleanValue : Z) : bool * TypedValue :=
  if 1 <? booleanValue then (false, value) else
  (true, mkTyped ValueType.BOOLEAN 1 (upd (zeros 121) 0 booleanValue)).

(* host_protocol_messages.h:570-582 setUint16Value *)
Definition setUint16Value (value : TypedValue) (type numericValue : Z) : bool * TypedValue :=
  if negb (type =? ValueType.NORMALIZED_U16) && negb (type =? ValueType.ENUM_U16)
  then (false, value) else
  (true, mkTyped type 2 (writeUint16Le (zeros 121) 0 numericValue)).

(* host_protocol_messages.h:584-597 setUint32Value *)
Definition setUint32Value (value : TypedValue) (type bits : Z) : bool * TypedValue :=
  if negb (type =? ValueType.UNSIGNED_32) && negb (type =? ValueType.SIGNED_32)
     && negb (type =? ValueType.FIXED_Q16_16) then (false, value) else
  (true, mkTyped type 4 (writeUint32Le (zeros 121) 0 bits)).

(* host_protocol_messages.h:599-622 encodeTypedValue *)
Definition encodeTypedValue (value : TypedValue) (output : option (list Z)) (outputCapacity : Z)
    : PayloadResult * option (list Z) * Z :=
  match output with
  | None => (NULL_ARGUMENT, None, 0)
  | Some out =>
      if negb (isValidScalarValue value)
      then (if isKnownValueType (tv_type value) then INVALID_VALUE else INVALID_VALUE_TYPE,
            output, 0) else
      if outputCapacity <? tv_length value then (OUTPUT_TOO_SMALL, output, 0) else
      (OK, Some (copy_bytes (Z.to_nat (tv_length value)) out 0 (tv_bytes value) 0), tv_length value)
  end.

(* host_protocol_messages.h:624-653 decodeTypedValue *)
Definition decodeTypedValue (type : Z) (input : option (list Z)) (inputLength : Z)
    (value : TypedValue) : PayloadResult * TypedValue :=
  if bool_decide (input = None) && negb (inputLength =? 0) then (NULL_ARGUMENT, value) else
  if (type =? STRUCTURE_VALUE_TYPE) || negb (isKnownValueType type)
  then (INVALID_VALUE_TYPE, value) else
  if negb (inputLength =? expectedScalarValueLength type) then (INVALID_VALUE_LENGTH, value) else
  let candidate :=
    mkTyped type (u8 inputLength)
      (copy_bytes (Z.to_nat inputLength) (zeros 121) 0 (default [] input) 0) in
  if negb (isValidScalarValue candidate) then (INVALID_VALUE, value) else (OK, candidate).

End HostProtocolRecords.
