(* ===== verification/HostMessages.v ===== *)
(** The payloads of the Host Protocol's messages,
    lib/host_protocol/host_protocol_messages.h, second half: which category,
    operation, target, result and value go together, and the codecs of hello,
    operation and error payloads. *)

From S2P Require Import Prelude EventWire Diagnostics Capabilities HostFrame HostRecords.

Module HostProtocolMessages.

Import HostProtocol HostProtocolRecords.
Import DeviceCapabilities.

(* host_protocol_messages.h:72-76 OperationClassification *)
Inductive OperationClassification := VALID | MALFORMED | UNSUPPORTED.

#[global] Instance OperationClassification_eq_dec : EqDecision OperationClassification.
Proof. solve_decision. Defined.

(* host_protocol_messages.h:78-81 HelloRequest *)
Record HelloRequest := mkHelloRequest { minimumMinor : Z; maximumMinor : Z }.

(* host_protocol_messages.h:83-98 HelloResponse *)
Record HelloResponse := mkHelloResponse {
  selectedMinor : Z;
  hr_firmwareMajor : Z;
  hr_firmwareMinor : Z;
  hr_firmwarePatch : Z;
  hr_wireProtocol : Z;
  hr_configurationSchema : Z;
  hr_hardwareProfile : Z;
  hr_role : Z;
  hr_deviceId : Z;
  maximumHostPayload : Z;
  operationCategoryBitmap : Z;
  featureBitmap : Z;
  maximumOutstandingOperations : Z;
  hr_reserved : Z
}.

(* host_protocol_messages.h:106-112 OperationRequest *)
Record OperationRequest := mkRequest {
  rq_category : Z;
  rq_operation : Z;
  rq_targetDeviceId : Z;
  rq_targetId : Z;
  rq_value : TypedValue
}.

(* host_protocol_messages.h:114-122 OperationResponse *)
Record OperationResponse := mkResponse {
  rs_category : Z;
  rs_operation : Z;
  rs_targetDeviceId : Z;
  rs_targetId : Z;
  resultClass : Z;
  resultCode : Z;
  rs_value : TypedValue
}.

(* host_protocol_messages.h:124-128 ProtocolError *)
Record ProtocolError := mkProtocolError { errorCode : Z; offendingType : Z; detail : Z }.

(** ** Requests *)

(* host_protocol_messages.h:655-669 classifyCategoryOperation *)
Definition classifyCategoryOperation (category operation : Z) : OperationClassification :=
  if negb (isKnownOperationCategory category) || negb (isKnownOperationCode operation)
  then MALFORMED else
  if isSupportedCategoryOperation category operation then VALID else UNSUPPORTED.

(* host_protocol_messages.h:671-680 classifyCategoryOperation#2 *)
Definition classifyCategoryOperationM (minor category operation : Z) : OperationClassification :=
  if negb (isKnownOperationCategoryM minor category) || negb (isKnownOperationCodeM minor operation)
  then MALFORMED else
  if isSupportedCategoryOperationM minor category operation then VALID else UNSUPPORTED.

(* host_protocol_messages.h:682-701 isValidOperationTarget *)
Definition isValidOperationTarget (category operation targetId : Z) : bool :=
  if (category =? OperationCategory.DEVICE) || (category =? OperationCategory.DIAGNOSTIC)
  then targetId =? 0 else
  if category =? OperationCategory.CAPABILITY then
    if operation =? OperationCode.GET_CAPABILITIES then targetId =? 0
    else negb (targetId =? INVALID_CAPABILITY_ID) else
  if category =? OperationCategory.PROCEDURE then negb (targetId =? 0) else
  if category =? OperationCategory.EVENT then targetId =? 0 else
  false.

(* host_protocol_messages.h:703-739 isValidOperationRequestValue *)
Definition isValidOperationRequestValue (operation : Z) (value : TypedValue) : bool :=
  if one_of operation [OperationCode.PING; OperationCode.GET_DEVICE_INFO; OperationCode.GET_STATUS;
       OperationCode.DESCRIBE_CAPABILITY; OperationCode.READ_CAPABILITY]
  then isNoneValue value else
  if operation =? OperationCode.GET_CAPABILITIES
  then isNoneValue value || ((tv_type value =? ValueType.UNSIGNED_32) && isValidScalarValue value) else
  if operation =? OperationCode.SET_INDICATOR
  then (tv_type value =? ValueType.BOOLEAN) && isValidScalarValue value else
  if operation =? OperationCode.RUN_PROCEDURE then isValidScalarValue value else
  if operation =? OperationCode.GET_DIAGNOSTICS
  then isNoneValue value || ((tv_type value =? ValueType.UNSIGNED_32) && isValidScalarValue value) else
  if operation =? OperationCode.GET_EVENT_DIAGNOSTICS
  then isNoneValue value
       || ((tv_type value =? ValueType.UNSIGNED_32) && isValidScalarValue value
           && (readUint32Le (tv_bytes value) 0 =? 1)) else
  false.

(* host_protocol_messages.h:741-774 validateOperationRequest *)
Definition validateOperationRequestM (minor : Z) (request : OperationRequest) : PayloadResult :=
  let classification :=
    classifyCategoryOperationM minor (rq_category request) (rq_operation request) in
  if bool_decide (classification = MALFORMED) then
    if negb (isKnownOperationCategoryM minor (rq_category request)) then UNKNOWN_CATEGORY
    else UNKNOWN_OPERATION
  else if bool_decide (classification = UNSUPPORTED) then UNSUPPORTED_CATEGORY_OPERATION else
  if negb (isValidOperationTarget (rq_category request) (rq_operation request) (rq_targetId request))
  then INVALID_TARGET else
  let value := rq_value request in
  if (rq_category request =? OperationCategory.EVENT)
     && (rq_operation request =? OperationCode.POLL_EVENTS)
  then if isNoneValue value then OK else INVALID_VALUE else
  if (rq_category request =? OperationCategory.EVENT)
     && (rq_operation request =? OperationCode.CONSUME_EVENT)
  then
    if (tv_type value =? STRUCTURE_VALUE_TYPE) && (tv_length value =? HOST_EVENT_IDENTITY_SIZE)
       && bool_decide ((decodeHostEventIdentity (Some (tv_bytes value)) (tv_length value)
                          (mkHostIdentity 0 0 0)).1 = OK)
    then OK else INVALID_VALUE
  else if negb (isValidOperationRequestValue (rq_operation request) value) then INVALID_VALUE
  else OK.

(* host_protocol_messages.h:776-778 validateOperationRequest#2 *)
Definition validateOperationRequest (request : OperationRequest) : PayloadResult :=
  validateOperationRequestM VERSION_MINOR_0_1 request.

(** ** Hello *)

(* host_protocol_messages.h:780-800 encodeHelloRequest *)
Definition encodeHelloRequestM (frameMinor : Z) (request : HelloRequest) (output : option (list Z))
    (outputCapacity : Z) : PayloadResult * option (list Z) * Z :=
  match output with
  | None => (NULL_ARGUMENT, None, 0)
  | Some out =>
      if negb (isValidHelloMinorRangeM frameMinor (minimumMinor request) (maximumMinor request))
      then (INVALID_FIELD, output, 0) else
      if outputCapacity <? Z.of_nat HELLO_REQUEST_PAYLOAD_SIZE then (OUTPUT_TOO_SMALL, output, 0) else
      (OK, Some (upd (upd out 0 (minimumMinor request)) 1 (maximumMinor request)),
       Z.of_nat HELLO_REQUEST_PAYLOAD_SIZE)
  end.

(* host_protocol_messages.h:802-806 encodeHelloRequest#2 *)
Definition encodeHelloRequest (request : HelloRequest) (output : option (list Z))
    (outputCapacity : Z) : PayloadResult * option (list Z) * Z :=
  encodeHelloRequestM VERSION_MINOR_0_1 request output outputCapacity.

(* host_protocol_messages.h:808-825 decodeHelloRequest *)
Definition decodeHelloRequestM (frameMinor : Z) (input : option (list Z)) (inputLength : Z)
    (request : HelloRequest) : PayloadResult * HelloRequest :=
  match input with
  | None => (NULL_ARGUMENT, request)
  | Some inp =>
      if negb (inputLength =? Z.of_nat HELLO_REQUEST_PAYLOAD_SIZE) then (INVALID_LENGTH, request) else
      let candidate := mkHelloRequest (rd inp 0) (rd inp 1) in
      if negb (isValidHelloMinorRangeM frameMinor (minimumMinor candidate) (maximumMinor candidate))
      then (INVALID_FIELD, request) else (OK, candidate)
  end.

(* host_protocol_messages.h:827-830 decodeHelloRequest#2 *)
Definition decodeHelloRequest (input : option (list Z)) (inputLength : Z) (request : HelloRequest)
    : PayloadResult * HelloRequest :=
  decodeHelloRequestM VERSION_MINOR_0_1 input inputLength request.

(* host_protocol_messages.h:832-845 isValidHelloResponse *)
Definition isValidHelloResponse (r : HelloResponse) : bool :=
  (MIN_SUPPORTED_MINOR <=? selectedMinor r) && (selectedMinor r <=? MAX_SUPPORTED_MINOR)
  && isKnownHardwareProfile (hr_hardwareProfile r) && isKnownDeviceRole (hr_role r)
  && (maximumHostPayload r =? Z.of_nat MAX_PAYLOAD_SIZE)
  && hasValidCategoryBitmapM (selectedMinor r) (operationCategoryBitmap r)
  && hasValidFeatureBitmapM (selectedMinor r) (featureBitmap r)
  && hasConsistentEventAdvertisement (selectedMinor r) (operationCategoryBitmap r) (featureBitmap r)
  && (maximumOutstandingOperations r =? MAX_OUTSTANDING_OPERATIONS)
  && (hr_reserved r =? HELLO_RESERVED_VALUE).

(* host_protocol_messages.h:847-875 encodeHelloResponse *)
Definition encodeHelloResponse (r : HelloResponse) (output : option (list Z))
    (outputCapacity : Z) : PayloadResult * option (list Z) * Z :=
  match output with
  | None => (NULL_ARGUMENT, None, 0)
  | Some out =>
      if negb (isValidHelloResponse r) then (INVALID_FIELD, output, 0) else
      if outputCapacity <? Z.of_nat HELLO_RESPONSE_PAYLOAD_SIZE then (OUTPUT_TOO_SMALL, output, 0) else
      let out := upd (upd out 0 (selectedMinor r)) 1 (hr_firmwareMajor r) in
      let out := upd (upd out 2 (hr_firmwareMinor r)) 3 (hr_firmwarePatch r) in
      let out := upd (upd out 4 (hr_wireProtocol r)) 5 (hr_configurationSchema r) in
      let out := upd (upd out 6 (hr_hardwareProfile r)) 7 (hr_role r) in
      let out := upd (upd out 8 (hr_deviceId r)) 9 (maximumHostPayload r) in
      let out := writeUint16Le out 10 (operationCategoryBitmap r) in
      let out := writeUint16Le out 12 (featureBitmap r) in
      let out := upd (upd out 14 (maximumOutstandingOperations r)) 15 (hr_reserved r) in
      (OK, Some out, Z.of_nat HELLO_RESPONSE_PAYLOAD_SIZE)
  end.

(* host_protocol_messages.h:877-904 decodeHelloResponse *)
Definition decodeHelloResponse (input : option (list Z)) (inputLength : Z) (response : HelloResponse)
    : PayloadResult * HelloResponse :=
  match input with
  | None => (NULL_ARGUMENT, response)
  | Some i =>
      if negb (inputLength =? Z.of_nat HELLO_RESPONSE_PAYLOAD_SIZE) then (INVALID_LENGTH, response) else
      let candidate :=
        mkHelloResponse (rd i 0) (rd i 1) (rd i 2) (rd i 3) (rd i 4) (rd i 5) (rd i 6) (rd i 7)
          (rd i 8) (rd i 9) (readUint16Le i 10) (readUint16Le i 12) (rd i 14) (rd i 15) in
      if negb (isValidHelloResponse candidate) then (INVALID_FIELD, response) else (OK, candidate)
  end.

(** ** Operation payloads *)

(* host_protocol_messages.h:906-931 encodeOperationRequest *)
Definition encodeOperationRequestM (minor : Z) (request : OperationRequest)
    (output : option (list Z)) (outputCapacity : Z) : PayloadResult * option (list Z) * Z :=
  match output with
  | None => (NULL_ARGUMENT, None, 0)
  | Some out =>
      let validation := validateOperationRequestM minor request in
      if negb (bool_decide (validation = OK)) then (validation, output, 0) else
      let value := rq_value request in
      let required := OPERATION_REQUEST_FIXED_SIZE + tv_length value in
      if Z.of_nat MAX_PAYLOAD_SIZE <? required then (INVALID_LENGTH, output, 0) else
      if outputCapacity <? required then (OUTPUT_TOO_SMALL, output, 0) else
      let out := upd (upd out 0 (rq_category request)) 1 (rq_operation request) in
      let out := upd out 2 (rq_targetDeviceId request) in
      let out := writeUint16Le out 3 (rq_targetId request) in
      let out := upd (upd out 5 (tv_type value)) 6 (tv_length value) in
      (OK, Some (copy_bytes (Z.to_nat (tv_length value)) out 7 (tv_bytes value) 0), required)
  end.

(* host_protocol_messages.h:933-937 encodeOperationRequest#2 *)
Definition encodeOperationRequest (request : OperationRequest) (output : option (list Z))
    (outputCapacity : Z) : PayloadResult * option (list Z) * Z :=
  encodeOperationRequestM VERSION_MINOR_0_1 request output outputCapacity.

(** The value that follows a payload's fixed part. *)
(* host_protocol_messages.h:957-960 = decodeOperationRequest, reading the value *)
Definition readValue (input : list Z) (type valueLength : Z) (offset : nat) : TypedValue :=
  mkTyped type valueLength (copy_bytes (Z.to_nat valueLength) (zeros 121) 0 input offset).

(* host_protocol_messages.h:939-970 decodeOperationRequest *)
Definition decodeOperationRequestM (minor : Z) (input : option (list Z)) (inputLength : Z)
    (request : OperationRequest) : PayloadResult * OperationRequest :=
  match input with
  | None => (NULL_ARGUMENT, request)
  | Some inp =>
      if (inputLength <? OPERATION_REQUEST_FIXED_SIZE) || (Z.of_nat MAX_PAYLOAD_SIZE <? inputLength)
      then (INVALID_LENGTH, request) else
      let valueLength := rd inp 6 in
      if negb (inputLength =? OPERATION_REQUEST_FIXED_SIZE + valueLength)
      then (INVALID_LENGTH, request) else
      let value := readValue inp (rd inp 5) valueLength 7 in
      let candidate := mkRequest (rd inp 0) (rd inp 1) (rd inp 2) (readUint16Le inp 3) value in
      if negb (tv_type value =? STRUCTURE_VALUE_TYPE) && negb (isValidScalarValue value)
      then (if negb (isKnownHostValueType (tv_type value)) then INVALID_VALUE_TYPE
            else INVALID_VALUE, request) else
      let validation := validateOperationRequestM minor candidate in
      if negb (bool_decide (validation = OK)) then (validation, request) else (OK, candidate)
  end.

(* host_protocol_messages.h:972-975 decodeOperationRequest#2 *)
Definition decodeOperationRequest (input : option (list Z)) (inputLength : Z)
    (request : OperationRequest) : PayloadResult * OperationRequest :=
  decodeOperationRequestM VERSION_MINOR_0_1 input inputLength request.

(** ** Responses *)

(* host_protocol_messages.h:977-996 isValidStructureLength *)
Definition isValidStructureLength (operation length : Z) : bool :=
  if operation =? OperationCode.GET_DEVICE_INFO then length =? DEVICE_INFO_SIZE else
  if operation =? OperationCode.GET_STATUS then length =? STATUS_SIZE else
  if operation =? OperationCode.GET_CAPABILITIES
  then (3 <=? length) && (length <=? 21) && ((length - 3) `mod` 2 =? 0) else
  if operation =? OperationCode.DESCRIBE_CAPABILITY then length =? CAPABILITY_DESCRIPTION_SIZE else
  if operation =? OperationCode.GET_DIAGNOSTICS
  then (2 <=? length) && (length <=? 17) && ((length - 2) `mod` 5 =? 0) else
  if operation =? OperationCode.POLL_EVENTS then length =? HOST_EVENT_RECORD_SIZE else
  if operation =? OperationCode.GET_EVENT_DIAGNOSTICS
  then (length =? EVENT_DIAGNOSTICS_RECORD_SIZE) || (length =? EVENT_TX_DIAGNOSTICS_SIZE) else
  false.

(** No identifier among the first [left] from [i] is the invalid one. *)
(* host_protocol_messages.h:1015-1018 = isValidStructureValue, the loop *)
Fixpoint idsValid (left i : nat) (bytes : list Z) : bool :=
  match left with
  | O => true
  | S left' =>
      if readUint16Le bytes (3 + 2 * i) =? INVALID_CAPABILITY_ID then false
      else idsValid left' (S i) bytes
  end.

Definition zeroEventDiagnostics : EventDiagnosticsRecord :=
  mkEventDiagnostics 0 0 0 0 0 0 0 0 (mkHostIdentity 0 0 0) 0 0 0 0 0 0 0 (mkHostIdentity 0 0 0)
    0 0 0 (mkHostIdentity 0 0 0) (zeros 15).

(* host_protocol_messages.h:998-1050 isValidStructureValue *)
Definition isValidStructureValue (operation : Z) (value : TypedValue) : bool :=
  if negb (tv_type value =? STRUCTURE_VALUE_TYPE)
     || negb (isValidStructureLength operation (tv_length value)) then false else
  let b := tv_bytes value in
  if operation =? OperationCode.GET_DEVICE_INFO
  then isKnownHardwareProfile (rd b 5) && isKnownDeviceRole (rd b 6) else
  if operation =? OperationCode.GET_STATUS
  then Z.land (readUint16Le b 0) RESERVED_STATUS_FLAGS =? 0 else
  if operation =? OperationCode.GET_CAPABILITIES then
    let count := rd b 2 in
    if (MAX_CAPABILITY_PAGE_ENTRIES <? count) || negb (tv_length value =? 3 + 2 * count)
    then false else idsValid (Z.to_nat count) 0 b else
  if operation =? OperationCode.DESCRIBE_CAPABILITY
  then isKnownCapabilityClass (rd b 0) && isKnownValueType (rd b 1)
       && hasKnownOperationFlags (rd b 2) && isKnownUnitCode (rd b 3) && (rd b 4 <=? 1)
       && (rd b 5 =? 0) else
  if operation =? OperationCode.GET_DIAGNOSTICS
  then let count := rd b 1 in
       (count <=? MAX_DIAGNOSTIC_PAGE_ENTRIES) && (tv_length value =? 2 + 5 * count) else
  if operation =? OperationCode.POLL_EVENTS
  then bool_decide ((decodeHostEventRecord (Some b) (tv_length value) zeroHostEvent).1 = OK) else
  if operation =? OperationCode.GET_EVENT_DIAGNOSTICS then
    if tv_length value =? EVENT_TX_DIAGNOSTICS_SIZE
    then bool_decide ((decodeEventTxDiagnostics value 0 EventTxDiagnostics.newSnapshot).1.1 = OK)
    else bool_decide ((decodeEventDiagnosticsRecord value zeroEventDiagnostics).1 = OK) else
  false.

(* host_protocol_messages.h:1052-1079 isValidSuccessfulOperationValue *)
Definition isValidSuccessfulOperationValue (operation : Z) (value : TypedValue) : bool :=
  if operation =? OperationCode.PING
  then (tv_type value =? ValueType.UNSIGNED_32) && isValidScalarValue value else
  if one_of operation [OperationCode.GET_DEVICE_INFO; OperationCode.GET_STATUS;
       OperationCode.GET_CAPABILITIES; OperationCode.DESCRIBE_CAPABILITY;
       OperationCode.GET_DIAGNOSTICS; OperationCode.GET_EVENT_DIAGNOSTICS]
  then isValidStructureValue operation value else
  if operation =? OperationCode.READ_CAPABILITY then isNonNoneScalarValue value else
  if operation =? OperationCode.SET_INDICATOR then isNoneValue value else
  if operation =? OperationCode.RUN_PROCEDURE then isValidScalarValue value else
  false.

(** What a response of the event category, or of an event result, may carry. *)
(* host_protocol_messages.h:1105-1131 = validateOperationResponse, events *)
Definition validateEventResponse (r : OperationResponse) : PayloadResult :=
  let value := rs_value r in
  if resultClass r =? ResultClass.EVENT_RESULT then
    if negb (rs_category r =? OperationCategory.EVENT) then INVALID_RESULT_CLASS else
    if ((resultCode r =? EventResultCode.NOT_FOUND)
        && negb (rs_operation r =? OperationCode.CONSUME_EVENT))
       || ((resultCode r =? EventResultCode.STORAGE_FAILURE)
           && negb (rs_operation r =? OperationCode.POLL_EVENTS)
           && negb (rs_operation r =? OperationCode.CONSUME_EVENT))
    then INVALID_RESULT_CODE else
    if isNoneValue value then OK else INVALID_RESPONSE_VALUE
  else if (resultClass r =? ResultClass.SUCCESS) && (resultCode r =? SuccessCode.OK) then
    if rs_operation r =? OperationCode.POLL_EVENTS
    then if isValidStructureValue (rs_operation r) value then OK else INVALID_RESPONSE_VALUE
    else if isNoneValue value then OK else INVALID_RESPONSE_VALUE
  else if (resultClass r =? ResultClass.REQUEST_REJECTED) && isNoneValue value then OK
  else INVALID_RESPONSE_VALUE.

(* host_protocol_messages.h:1081-1143 validateOperationResponse *)
Definition validateOperationResponseM (minor : Z) (r : OperationResponse) : PayloadResult :=
  let classification := classifyCategoryOperationM minor (rs_category r) (rs_operation r) in
  if bool_decide (classification = MALFORMED) then
    if negb (isKnownOperationCategoryM minor (rs_category r)) then UNKNOWN_CATEGORY
    else UNKNOWN_OPERATION
  else if bool_decide (classification = UNSUPPORTED) then UNSUPPORTED_CATEGORY_OPERATION else
  if negb (isValidOperationTarget (rs_category r) (rs_operation r) (rs_targetId r))
  then INVALID_TARGET else
  if negb (isKnownResultClassM minor (resultClass r)) then INVALID_RESULT_CLASS else
  if negb (isValidResultCode (resultClass r) (resultCode r)) then INVALID_RESULT_CODE else
  if (resultClass r =? ResultClass.EVENT_RESULT) || (rs_category r =? OperationCategory.EVENT)
  then validateEventResponse r else
  if (resultClass r =? ResultClass.OPERATION_RESULT) && (resultCode r =? OperationStatus.OK)
  then if isValidSuccessfulOperationValue (rs_operation r) (rs_value r) then OK
       else INVALID_RESPONSE_VALUE
  else if isNoneValue (rs_value r) then OK else INVALID_RESPONSE_VALUE.

(* host_protocol_messages.h:1145-1147 validateOperationResponse#2 *)
Definition validateOperationResponse (response : OperationResponse) : PayloadResult :=
  validateOperationResponseM VERSION_MINOR_0_1 response.

(* host_protocol_messages.h:1149-1176 encodeOperationResponse *)
Definition encodeOperationResponseM (minor : Z) (r : OperationResponse) (output : option (list Z))
    (outputCapacity : Z) : PayloadResult * option (list Z) * Z :=
  match output with
  | None => (NULL_ARGUMENT, None, 0)
  | Some out =>
      let validation := validateOperationResponseM minor r in
      if negb (bool_decide (validation = OK)) then (validation, output, 0) else
      let value := rs_value r in
      let required := OPERATION_RESPONSE_FIXED_SIZE + tv_length value in
      if Z.of_nat MAX_PAYLOAD_SIZE <? required then (INVALID_LENGTH, output, 0) else
      if outputCapacity <? required then (OUTPUT_TOO_SMALL, output, 0) else
      let out := upd (upd out 0 (rs_category r)) 1 (rs_operation r) in
      let out := upd out 2 (rs_targetDeviceId r) in
      let out := writeUint16Le out 3 (rs_targetId r) in
      let out := upd (upd out 5 (resultClass r)) 6 (resultCode r) in
      let out := upd (upd out 7 (tv_type value)) 8 (tv_length value) in
      (OK, Some (copy_bytes (Z.to_nat (tv_length value)) out 9 (tv_bytes value) 0), required)
  end.

(* host_protocol_messages.h:1178-1182 encodeOperationResponse#2 *)
Definition encodeOperationResponse (response : OperationResponse) (output : option (list Z))
    (outputCapacity : Z) : PayloadResult * option (list Z) * Z :=
  encodeOperationResponseM VERSION_MINOR_0_1 response output outputCapacity.

(* host_protocol_messages.h:1184-1219 decodeOperationResponse *)
Definition decodeOperationResponseM (minor : Z) (input : option (list Z)) (inputLength : Z)
    (response : OperationResponse) : PayloadResult * OperationResponse :=
  match input with
  | None => (NULL_ARGUMENT, response)
  | Some inp =>
      if (inputLength <? OPERATION_RESPONSE_FIXED_SIZE) || (Z.of_nat MAX_PAYLOAD_SIZE <? inputLength)
      then (INVALID_LENGTH, response) else
      let valueLength := rd inp 8 in
      if negb (inputLength =? OPERATION_RESPONSE_FIXED_SIZE + valueLength)
      then (INVALID_LENGTH, response) else
      let value := readValue inp (rd inp 7) valueLength 9 in
      let candidate :=
        mkResponse (rd inp 0) (rd inp 1) (rd inp 2) (readUint16Le inp 3) (rd inp 5) (rd inp 6) value in
      if negb (tv_type value =? STRUCTURE_VALUE_TYPE) && negb (isValidScalarValue value)
      then (if negb (isKnownHostValueType (tv_type value)) then INVALID_VALUE_TYPE
            else INVALID_VALUE, response) else
      let validation := validateOperationResponseM minor candidate in
      if negb (bool_decide (validation = OK)) then (validation, response) else (OK, candidate)
  end.

(* host_protocol_messages.h:1221-1224 decodeOperationResponse#2 *)
Definition decodeOperationResponse (input : option (list Z)) (inputLength : Z)
    (response : OperationResponse) : PayloadResult * OperationResponse :=
  decodeOperationResponseM VERSION_MINOR_0_1 input inputLength response.

(** ** Protocol errors *)

(* host_protocol_messages.h:1226-1228 isValidProtocolError *)
Definition isValidProtocolError (error : ProtocolError) : bool :=
  isKnownProtocolError (errorCode error) && (detail error =? 0).

(* host_protocol_messages.h:1230-1247 encodeProtocolError *)
Definition encodeProtocolError (error : ProtocolError) (output : option (list Z))
    (outputCapacity : Z) : PayloadResult * option (list Z) * Z :=
  match output with
  | None => (NULL_ARGUMENT, None, 0)
  | Some out =>
      if negb (isValidProtocolError error) then (INVALID_FIELD, output, 0) else
      if outputCapacity <? Z.of_nat PROTOCOL_ERROR_PAYLOAD_SIZE then (OUTPUT_TOO_SMALL, output, 0) else
      let out := upd (upd out 0 (errorCode error)) 1 (offendingType error) in
      (OK, Some (writeUint16Le out 2 (detail error)), Z.of_nat PROTOCOL_ERROR_PAYLOAD_SIZE)
  end.

(* host_protocol_messages.h:1249-1265 decodeProtocolError *)
Definition decodeProtocolError (input : option (list Z)) (inputLength : Z) (error : ProtocolError)
    : PayloadResult * ProtocolError :=
  match input with
  | None => (NULL_ARGUMENT, error)
  | Some inp =>
      if negb (inputLength =? Z.of_nat PROTOCOL_ERROR_PAYLOAD_SIZE) then (INVALID_LENGTH, error) else
      let candidate := mkProtocolError (rd inp 0) (rd inp 1) (readUint16Le inp 2) in
      if negb (isValidProtocolError candidate) then (INVALID_FIELD, error) else (OK, candidate)
  end.

End HostProtocolMessages.
