(* ===== verification/HostMessageFacts.v ===== *)
(** The payload codecs of the Host Protocol are exact, what a response may
    carry is what the record decoders take, and a record put into a response
    by one side is the record the other side reads. *)

From S2P Require Import Prelude EventWire Diagnostics Capabilities HostFrame HostRecords HostMessages.

Module HostMessageFacts.

Import HostProtocol HostProtocolRecords HostProtocolMessages.
Import DeviceCapabilities.

(** ** Typed values *)

Definition value_wf (v : TypedValue) : Prop :=
  is_u8 (tv_type v) ∧ is_u8 (tv_length v) ∧ length (tv_bytes v) = 121%nat ∧ is_byte_list (tv_bytes v).

(** Nothing past the value's length. *)
Definition value_clear (v : TypedValue) : Prop :=
  tv_length v ≤ 121 ∧ all_zero (drop (Z.to_nat (tv_length v)) (tv_bytes v)) = true.

(** The bytes of a value in a payload. *)
Definition valueBytes (v : TypedValue) : list Z :=
  [tv_type v; tv_length v] ++ take (Z.to_nat (tv_length v)) (tv_bytes v).

Lemma length_valueBytes v :
  value_wf v → value_clear v → length (valueBytes v) = (2 + Z.to_nat (tv_length v))%nat.
Proof. intros (_ & _ & Hl & _) (Hm & _). unfold valueBytes. len. Qed.

(** A copy at the end of a prefix. *)
Lemma copy_after (p rest src : list Z) n :
  (n ≤ length rest)%nat → (n ≤ length src)%nat →
  copy_bytes n (p ++ rest) (length p) src 0 = p ++ take n src ++ drop n rest.
Proof.
  intros Hr Hs. rewrite copy_bytes_spec by len. rewrite take_app_length, drop_0.
  by rewrite <- drop_drop, drop_app_length.
Qed.

Lemma take_drop_zeros l n :
  all_zero (drop n l) = true → take n l ++ zeros (length l - n) = l.
Proof.
  intros Hz%all_zero_spec. rewrite length_drop in Hz. rewrite <- Hz. apply take_drop.
Qed.

(** Reading back a value after a prefix. *)
Lemma readValue_after (p : list Z) v :
  value_wf v → value_clear v →
  readValue (p ++ valueBytes v) (tv_type v) (tv_length v) (length p + 2) = v.
Proof.
  intros (_ & Hl8 & Hl & _) (Hm & Hz). unfold readValue, is_uint in *.
  destruct v as [ty n b]. cbn [tv_type tv_length tv_bytes] in *. f_equal.
  assert (Hp : length (p ++ valueBytes (mkTyped ty n b)) = (length p + 2 + Z.to_nat n)%nat).
  { unfold valueBytes. rewrite !length_app, length_take. cbn [tv_length tv_bytes length]. lia. }
  rewrite copy_bytes_spec by (rewrite ?length_zeros, ?Hp; lia).
  rewrite take_0, app_nil_l. unfold valueBytes. cbn [tv_type tv_length tv_bytes].
  rewrite (app_assoc p), drop_app_length' by (rewrite length_app; cbn [length]; lia).
  rewrite take_take, Nat.min_id. unfold zeros. rewrite drop_replicate.
  rewrite <- Hl. by apply take_drop_zeros.
Qed.

(** A value read from bytes. *)
Lemma readValue_wf inp type n offset :
  is_byte_list inp → is_u8 type → 0 ≤ n ≤ 121 → (offset + Z.to_nat n ≤ length inp)%nat →
  value_wf (readValue inp type n offset) ∧ value_clear (readValue inp type n offset)
  ∧ take (Z.to_nat n) (tv_bytes (readValue inp type n offset)) = take (Z.to_nat n) (drop offset inp).
Proof.
  intros Hb Ht Hn Hl. unfold value_wf, value_clear, readValue. cbn [tv_type tv_length tv_bytes].
  rewrite length_copy_bytes, length_zeros. rewrite copy_bytes_spec by (rewrite ?length_zeros; lia).
  rewrite take_0, app_nil_l. unfold zeros. rewrite drop_replicate.
  assert (Hlen : length (take (Z.to_nat n) (drop offset inp)) = Z.to_nat n)
    by (rewrite length_take, length_drop; lia).
  split_and!; [done|uint|done|apply byte_app; [bytes|apply zeros_byte]|lia| |].
  - rewrite drop_app_length' by done. apply all_zero_spec. unfold zeros.
    by rewrite length_replicate.
  - by rewrite take_app_length' by done.
Qed.

(** ** What validation implies *)

Lemma none_scalar v : isNoneValue v = true → isValidScalarValue v = true.
Proof.
  unfold isNoneValue, isValidScalarValue. intros [->%Z.eqb_eq ->%Z.eqb_eq]%andb_true_iff. done.
Qed.

Lemma scalar_length v : isValidScalarValue v = true → tv_length v ≤ 4.
Proof.
  unfold isValidScalarValue. destruct (_ || negb (isKnownValueType _)) eqn:E; [done|].
  apply orb_false_iff in E as [_ Hk%negb_false_iff].
  destruct (Z.eqb_spec (tv_length v) (expectedScalarValueLength (tv_type v))) as [->|]; [|done].
  intros _. unfold expectedScalarValueLength.
  unfold isKnownValueType in Hk. destruct v as [ty n b]. cbn [tv_type] in *.
  switch_cases Hk; vm_compute; discriminate.
Qed.

(** A value that validation accepts is a scalar or a structure, and short. *)
Definition carried (v : TypedValue) : Prop :=
  (tv_type v ≠ STRUCTURE_VALUE_TYPE → isValidScalarValue v = true) ∧ tv_length v ≤ 119.

Lemma carried_scalar v : isValidScalarValue v = true → carried v.
Proof. intros Hs. split; [done|]. pose proof (scalar_length v Hs). lia. Qed.

Lemma carried_none v : isNoneValue v = true → carried v.
Proof. intros Hn. by apply carried_scalar, none_scalar. Qed.

Lemma carried_request minor r : validateOperationRequestM minor r = OK → carried (rq_value r).
Proof.
  unfold validateOperationRequestM.
  destruct (bool_decide _); [by case_match|]. destruct (bool_decide _); [done|].
  destruct (negb _); [done|]. destruct (_ && _).
  { destruct (isNoneValue _) eqn:E; [|done]. intros _. by apply carried_none. }
  destruct (_ && _).
  { destruct (_ && _) eqn:E; [|done]. intros _.
    apply andb_true_iff in E as [[Ht%Z.eqb_eq Hl%Z.eqb_eq]%andb_true_iff _].
    split; [congruence|]. rewrite Hl. by vm_compute. }
  destruct (isValidOperationRequestValue _ _) eqn:E; [|done]. intros _. revert E.
  unfold isValidOperationRequestValue.
  repeat (case_match; [rewrite ?orb_true_iff, ?andb_true_iff;
    intros; destruct_and?; destruct_or?; destruct_and?; eauto using carried_none, carried_scalar|]).
  done.
Qed.

(** A structure is never longer than its operation allows. *)
Lemma carried_structure operation v : isValidStructureValue operation v = true → carried v.
Proof.
  unfold isValidStructureValue. destruct (Z.eqb_spec (tv_type v) STRUCTURE_VALUE_TYPE) as [Ht|];
    [|done]. cbn [negb orb].
  destruct (isValidStructureLength operation (tv_length v)) eqn:Hl; [|done]. intros _.
  split; [congruence|]. revert Hl. unfold isValidStructureLength, DEVICE_INFO_SIZE, STATUS_SIZE,
    CAPABILITY_DESCRIPTION_SIZE, HOST_EVENT_RECORD_SIZE, EVENT_DIAGNOSTICS_RECORD_SIZE,
    EVENT_TX_DIAGNOSTICS_SIZE.
  repeat case_match; rewrite ?andb_true_iff, ?orb_true_iff, ?Z.eqb_eq, ?Z.leb_le; (done || lia).
Qed.

Lemma carried_successful operation v :
  isValidSuccessfulOperationValue operation v = true → carried v.
Proof.
  unfold isValidSuccessfulOperationValue, isNonNoneScalarValue.
  repeat (case_match; [rewrite ?andb_true_iff; intros; destruct_and?;
    eauto using carried_none, carried_scalar, carried_structure|]). done.
Qed.

Lemma carried_response minor r : validateOperationResponseM minor r = OK → carried (rs_value r).
Proof.
  unfold validateOperationResponseM.
  destruct (bool_decide _); [by case_match|]. destruct (bool_decide _); [done|].
  do 3 (destruct (negb _); [done|]). destruct (_ || _).
  - unfold validateEventResponse.
    repeat case_match; try done; intros _; destruct_and?;
      eauto using carried_none, carried_structure.
    match goal with E : _ && _ = true |- _ => apply andb_true_iff in E as [_ ?] end.
    by apply carried_none.
  - repeat case_match; try done; intros _; eauto using carried_none, carried_successful.
Qed.

(** ** Operation payloads *)

(** A buffer determines what was written at its front. *)
Lemma same_prefix (buf a b : list Z) :
  a ++ drop (length a) buf = b ++ drop (length b) buf →
  Z.of_nat (length a) = Z.of_nat (length b) → b = a.
Proof. intros E L. symmetry. apply app_inj_1 in E; [tauto|lia]. Qed.

Definition request_wf (r : OperationRequest) : Prop :=
  is_u8 (rq_category r) ∧ is_u8 (rq_operation r) ∧ is_u8 (rq_targetDeviceId r)
  ∧ is_u16 (rq_targetId r) ∧ value_wf (rq_value r) ∧ value_clear (rq_value r).

Definition response_wf (r : OperationResponse) : Prop :=
  is_u8 (rs_category r) ∧ is_u8 (rs_operation r) ∧ is_u8 (rs_targetDeviceId r)
  ∧ is_u16 (rs_targetId r) ∧ is_u8 (resultClass r) ∧ is_u8 (resultCode r)
  ∧ value_wf (rs_value r) ∧ value_clear (rs_value r).

Definition requestHead (r : OperationRequest) : list Z :=
  [rq_category r; rq_operation r; rq_targetDeviceId r] ++ le16 (rq_targetId r).

Definition responseHead (r : OperationResponse) : list Z :=
  [rs_category r; rs_operation r; rs_targetDeviceId r] ++ le16 (rs_targetId r)
  ++ [resultClass r; resultCode r].

Definition requestBytes (r : OperationRequest) : list Z := requestHead r ++ valueBytes (rq_value r).

Definition responseBytes (r : OperationResponse) : list Z := responseHead r ++ valueBytes (rs_value r).

(** The end of both encoders: the value is copied after what is written. *)
Lemma copy_value h v out :
  value_wf v → value_clear v → (Z.to_nat (tv_length v) ≤ length out)%nat →
  copy_bytes (Z.to_nat (tv_length v)) ((h ++ [tv_type v; tv_length v]) ++ out) (length h + 2)
    (tv_bytes v) 0
  = (h ++ valueBytes v) ++ drop (Z.to_nat (tv_length v)) out.
Proof.
  intros (_ & _ & Hb & _) (Hm & _) Hl.
  replace (length h + 2)%nat with (length (h ++ [tv_type v; tv_length v])) by (rewrite length_app; done).
  rewrite copy_after by lia. unfold valueBytes. by rewrite <- !app_assoc.
Qed.

Lemma encodeOperationRequest_spec minor r out :
  request_wf r → validateOperationRequestM minor r = OK → (MAX_PAYLOAD_SIZE ≤ length out)%nat →
  encodeOperationRequestM minor r (Some out) (Z.of_nat (length out))
  = (OK, Some (requestBytes r ++ drop (length (requestBytes r)) out),
     Z.of_nat (length (requestBytes r))).
Proof.
  intros (_ & _ & _ & _ & Hv & Hc) Hval Hlen.
  destruct (carried_request _ _ Hval) as [_ Hm].
  pose proof (length_valueBytes _ Hv Hc) as HL. pose proof Hv as (_ & H8 & Hb & _).
  unfold is_uint in H8.
  unfold encodeOperationRequestM. rewrite Hval, bool_decide_eq_true_2 by done. cbn [negb].
  unfold OPERATION_REQUEST_FIXED_SIZE, MAX_PAYLOAD_SIZE in *.
  rewrite (proj2 (Z.ltb_ge _ _)), (proj2 (Z.ltb_ge _ _)) by lia.
  do 7 (destruct out as [|? out]; [cbn in Hlen; lia|]).
  assert (Hr : length (requestBytes r) = (7 + Z.to_nat (tv_length (rq_value r)))%nat).
  { unfold requestBytes. rewrite length_app, HL. cbn [length requestHead app le16]. lia. }
  rewrite Hr. f_equal; [|lia]. do 2 f_equal.
  set (v := rq_value r) in *. cbn [length] in Hlen.
  exact (copy_value (requestHead r) v out Hv Hc ltac:(lia)).
Qed.

Lemma encodeOperationResponse_spec minor r out :
  response_wf r → validateOperationResponseM minor r = OK → (MAX_PAYLOAD_SIZE ≤ length out)%nat →
  encodeOperationResponseM minor r (Some out) (Z.of_nat (length out))
  = (OK, Some (responseBytes r ++ drop (length (responseBytes r)) out),
     Z.of_nat (length (responseBytes r))).
Proof.
  intros (_ & _ & _ & _ & _ & _ & Hv & Hc) Hval Hlen.
  destruct (carried_response _ _ Hval) as [_ Hm].
  pose proof (length_valueBytes _ Hv Hc) as HL. pose proof Hv as (_ & H8 & Hb & _).
  unfold is_uint in H8.
  unfold encodeOperationResponseM. rewrite Hval, bool_decide_eq_true_2 by done. cbn [negb].
  unfold OPERATION_RESPONSE_FIXED_SIZE, MAX_PAYLOAD_SIZE in *.
  rewrite (proj2 (Z.ltb_ge _ _)), (proj2 (Z.ltb_ge _ _)) by lia.
  do 9 (destruct out as [|? out]; [cbn in Hlen; lia|]).
  assert (Hr : length (responseBytes r) = (9 + Z.to_nat (tv_length (rs_value r)))%nat).
  { unfold responseBytes. rewrite length_app, HL. cbn [length responseHead app le16]. lia. }
  rewrite Hr. f_equal; [|lia]. do 2 f_equal.
  set (v := rs_value r) in *. cbn [length] in Hlen.
  exact (copy_value (responseHead r) v out Hv Hc ltac:(lia)).
Qed.

Lemma decodeOperationRequest_ok minor b r0 r :
  is_byte_list b →
  decodeOperationRequestM minor (Some b) (Z.of_nat (length b)) r0 = (OK, r)
  ↔ request_wf r ∧ validateOperationRequestM minor r = OK ∧ b = requestBytes r.
Proof.
  intros Hb. unfold decodeOperationRequestM, OPERATION_REQUEST_FIXED_SIZE, MAX_PAYLOAD_SIZE. split.
  - destruct (Z.ltb_spec (Z.of_nat (length b)) 7); [done|].
    destruct (Z.ltb_spec (Z.of_nat 128) (Z.of_nat (length b))); [done|]. cbn [orb].
    destruct (Z.eqb_spec (Z.of_nat (length b)) (7 + rd b 6)) as [Hl|]; [|done]. cbn [negb].
    do 7 (destruct b as [|? b]; [cbn in *; lia|]).
    change (rd _ 6) with z5 in *. change (rd _ 5) with z4. change (rd _ 0) with z.
    change (rd _ 1) with z0. change (rd _ 2) with z1. cbn [length] in *.
    change (readUint16Le _ 3) with (Z.lor z2 (Z.shiftl z3 8)).
    destruct (_ && _); [case_match; by intros [=]|].
    destruct (bool_decide_reflect (validateOperationRequestM minor
      (mkRequest z z0 z1 (Z.lor z2 (Z.shiftl z3 8)) (readValue (z :: z0 :: z1 :: z2 :: z3 :: z4
        :: z5 :: b) z4 z5 7)) = OK)) as [Hv|]; cbn [negb]; [|by intros [=]].
    intros [= <-]. pose proof Hb as Hb'. repeat (apply Forall_cons in Hb' as [? Hb']).
    destruct (readValue_wf (z :: z0 :: z1 :: z2 :: z3 :: z4 :: z5 :: b) z4 z5 7)
      as (Hw & Hc & Ht); [done..|lia|cbn [length]; lia|].
    split_and!; [unfold request_wf; cbn [rq_category rq_operation rq_targetDeviceId rq_targetId
      rq_value]; split_and!; try done; by apply word16_range|done|].
    unfold requestBytes, requestHead, valueBytes. cbn [rq_category rq_operation rq_targetDeviceId
      rq_targetId rq_value]. rewrite le16_word by done.
    change (tv_type (readValue _ z4 z5 7)) with z4. change (tv_length (readValue _ z4 z5 7)) with z5.
    rewrite Ht. change (drop 7 _) with b. rewrite take_ge by lia. reflexivity.
  - intros (Hw & Hv & ->). pose proof Hw as (_ & _ & _ & Ht & Hvw & Hc).
    destruct (carried_request _ _ Hv) as [Hs Hm]. pose proof (length_valueBytes _ Hvw Hc) as HL.
    pose proof Hvw as (_ & H8 & _). unfold is_uint in H8.
    assert (Hr : length (requestBytes r) = (7 + Z.to_nat (tv_length (rq_value r)))%nat).
    { unfold requestBytes. rewrite length_app, HL. cbn [length requestHead app le16]. lia. }
    rewrite Hr. rewrite (proj2 (Z.ltb_ge _ _)), (proj2 (Z.ltb_ge _ _)) by lia. cbn [orb].
    change (rd (requestBytes r) 6) with (tv_length (rq_value r)).
    change (rd (requestBytes r) 5) with (tv_type (rq_value r)).
    rewrite (proj2 (Z.eqb_eq _ _)) by lia. cbn [negb].
    assert (Hread : readValue (requestBytes r) (tv_type (rq_value r)) (tv_length (rq_value r)) 7
      = rq_value r) by exact (readValue_after (requestHead r) (rq_value r) Hvw Hc).
    rewrite Hread.
    change (readUint16Le (requestBytes r) 3) with
      (Z.lor (u8 (rq_targetId r)) (Z.shiftl (u8 (Z.shiftr (rq_targetId r) 8)) 8)).
    rewrite word16_le by done.
    change (mkRequest _ _ _ _ _) with (mkRequest (rq_category r) (rq_operation r)
      (rq_targetDeviceId r) (rq_targetId r) (rq_value r)).
    replace (mkRequest _ _ _ _ _) with r by (by destruct r).
    rewrite Hv, bool_decide_eq_true_2 by done. cbn [negb].
    destruct (Z.eqb_spec (tv_type (rq_value r)) STRUCTURE_VALUE_TYPE) as [|Hn]; [done|].
    by rewrite (Hs Hn).
Qed.

Lemma decodeOperationResponse_ok minor b r0 r :
  is_byte_list b →
  decodeOperationResponseM minor (Some b) (Z.of_nat (length b)) r0 = (OK, r)
  ↔ response_wf r ∧ validateOperationResponseM minor r = OK ∧ b = responseBytes r.
Proof.
  intros Hb. unfold decodeOperationResponseM, OPERATION_RESPONSE_FIXED_SIZE, MAX_PAYLOAD_SIZE. split.
  - destruct (Z.ltb_spec (Z.of_nat (length b)) 9); [done|].
    destruct (Z.ltb_spec (Z.of_nat 128) (Z.of_nat (length b))); [done|]. cbn [orb].
    destruct (Z.eqb_spec (Z.of_nat (length b)) (9 + rd b 8)) as [Hl|]; [|done]. cbn [negb].
    do 9 (destruct b as [|? b]; [cbn in *; lia|]).
    change (rd _ 8) with z7 in *. change (rd _ 7) with z6. change (rd _ 0) with z.
    change (rd _ 1) with z0. change (rd _ 2) with z1. change (rd _ 5) with z4.
    change (rd _ 6) with z5. cbn [length] in *.
    change (readUint16Le _ 3) with (Z.lor z2 (Z.shiftl z3 8)).
    destruct (_ && _); [case_match; by intros [=]|].
    destruct (bool_decide_reflect (validateOperationResponseM minor
      (mkResponse z z0 z1 (Z.lor z2 (Z.shiftl z3 8)) z4 z5 (readValue (z :: z0 :: z1 :: z2 :: z3 :: z4
        :: z5 :: z6 :: z7 :: b) z6 z7 9)) = OK)) as [Hv|]; cbn [negb]; [|by intros [=]].
    intros [= <-]. pose proof Hb as Hb'. repeat (apply Forall_cons in Hb' as [? Hb']).
    destruct (readValue_wf (z :: z0 :: z1 :: z2 :: z3 :: z4 :: z5 :: z6 :: z7 :: b) z6 z7 9)
      as (Hw & Hc & Ht); [done..|lia|cbn [length]; lia|].
    split_and!; [unfold response_wf; cbn [rs_category rs_operation rs_targetDeviceId rs_targetId
      resultClass resultCode rs_value]; split_and!; try done; by apply word16_range|done|].
    unfold responseBytes, responseHead, valueBytes. cbn [rs_category rs_operation rs_targetDeviceId
      rs_targetId resultClass resultCode rs_value]. rewrite le16_word by done.
    change (tv_type (readValue _ z6 z7 9)) with z6. change (tv_length (readValue _ z6 z7 9)) with z7.
    rewrite Ht. change (drop 9 _) with b. rewrite take_ge by lia. reflexivity.
  - intros (Hw & Hv & ->). pose proof Hw as (_ & _ & _ & Ht & _ & _ & Hvw & Hc).
    destruct (carried_response _ _ Hv) as [Hs Hm]. pose proof (length_valueBytes _ Hvw Hc) as HL.
    pose proof Hvw as (_ & H8 & _). unfold is_uint in H8.
    assert (Hr : length (responseBytes r) = (9 + Z.to_nat (tv_length (rs_value r)))%nat).
    { unfold responseBytes. rewrite length_app, HL. cbn [length responseHead app le16]. lia. }
    rewrite Hr. rewrite (proj2 (Z.ltb_ge _ _)), (proj2 (Z.ltb_ge _ _)) by lia. cbn [orb].
    change (rd (responseBytes r) 8) with (tv_length (rs_value r)).
    change (rd (responseBytes r) 7) with (tv_type (rs_value r)).
    rewrite (proj2 (Z.eqb_eq _ _)) by lia. cbn [negb].
    assert (Hread : readValue (responseBytes r) (tv_type (rs_value r)) (tv_length (rs_value r)) 9
      = rs_value r) by exact (readValue_after (responseHead r) (rs_value r) Hvw Hc).
    rewrite Hread.
    change (readUint16Le (responseBytes r) 3) with
      (Z.lor (u8 (rs_targetId r)) (Z.shiftl (u8 (Z.shiftr (rs_targetId r) 8)) 8)).
    rewrite word16_le by done.
    change (mkResponse _ _ _ _ _ _ _) with (mkResponse (rs_category r) (rs_operation r)
      (rs_targetDeviceId r) (rs_targetId r) (resultClass r) (resultCode r) (rs_value r)).
    replace (mkResponse _ _ _ _ _ _ _) with r by (by destruct r).
    rewrite Hv, bool_decide_eq_true_2 by done. cbn [negb].
    destruct (Z.eqb_spec (tv_type (rs_value r)) STRUCTURE_VALUE_TYPE) as [|Hn]; [done|].
    by rewrite (Hs Hn).
Qed.

(** C30. The operation payloads of the Host Protocol are coded exactly, under
    the rules of either minor version. Bytes decode to a request (or a
    response) if and only if it is well formed, passes the validation for
    that minor version, and encoding it into any buffer of at least the
    maximal payload size reports success and writes exactly those bytes at
    the front, leaving the rest of the buffer as it was. So no two payloads
    mean the same request, and nothing is accepted that the encoder refuses. *)
Theorem operation_payload_codec minor b :
  is_byte_list b →
  (∀ r0 r,
    decodeOperationRequestM minor (Some b) (Z.of_nat (length b)) r0 = (OK, r)
    ↔ request_wf r
      ∧ ∀ out, (MAX_PAYLOAD_SIZE ≤ length out)%nat →
        encodeOperationRequestM minor r (Some out) (Z.of_nat (length out))
        = (OK, Some (b ++ drop (length b) out), Z.of_nat (length b)))
  ∧ (∀ r0 r,
    decodeOperationResponseM minor (Some b) (Z.of_nat (length b)) r0 = (OK, r)
    ↔ response_wf r
      ∧ ∀ out, (MAX_PAYLOAD_SIZE ≤ length out)%nat →
        encodeOperationResponseM minor r (Some out) (Z.of_nat (length out))
        = (OK, Some (b ++ drop (length b) out), Z.of_nat (length b))).
Proof.
  intros Hb. split; intros r0 r.
  - rewrite decodeOperationRequest_ok by done. split.
    + intros (Hw & Hv & ->). eauto using encodeOperationRequest_spec.
    + intros [Hw He]. specialize (He (zeros MAX_PAYLOAD_SIZE)). rewrite length_zeros in He.
      specialize (He ltac:(lia)).
      assert (Hv : validateOperationRequestM minor r = OK).
      { revert He. unfold encodeOperationRequestM.
        destruct (bool_decide_reflect (validateOperationRequestM minor r = OK)); [done|].
        cbn [negb]. intros [= ? _ _]. congruence. }
      split_and!; [done..|]. pose proof (encodeOperationRequest_spec minor r
        (zeros MAX_PAYLOAD_SIZE) Hw Hv ltac:(by rewrite length_zeros)) as Hs.
      rewrite length_zeros in Hs. rewrite Hs in He. apply same_prefix with (zeros MAX_PAYLOAD_SIZE);
        congruence || lia.
  - rewrite decodeOperationResponse_ok by done. split.
    + intros (Hw & Hv & ->). eauto using encodeOperationResponse_spec.
    + intros [Hw He]. specialize (He (zeros MAX_PAYLOAD_SIZE)). rewrite length_zeros in He.
      specialize (He ltac:(lia)).
      assert (Hv : validateOperationResponseM minor r = OK).
      { revert He. unfold encodeOperationResponseM.
        destruct (bool_decide_reflect (validateOperationResponseM minor r = OK)); [done|].
        cbn [negb]. intros [= ? _ _]. congruence. }
      split_and!; [done..|]. pose proof (encodeOperationResponse_spec minor r
        (zeros MAX_PAYLOAD_SIZE) Hw Hv ltac:(by rewrite length_zeros)) as Hs.
      rewrite length_zeros in Hs. rewrite Hs in He. apply same_prefix with (zeros MAX_PAYLOAD_SIZE);
        congruence || lia.
Qed.

Lemma operation_payload_codec_witness :
  let b := [OperationCategory.DEVICE; OperationCode.PING; 2; 0; 0; ValueType.NONE; 0] in
  let ping := mkRequest OperationCategory.DEVICE OperationCode.PING 2 0 setNoneValue in
  decodeOperationRequestM VERSION_MINOR_0_1 (Some b) 7 (mkRequest 0 0 0 0 zeroValue) = (OK, ping)
  ∧ ∀ out, (MAX_PAYLOAD_SIZE ≤ length out)%nat →
    encodeOperationRequestM VERSION_MINOR_0_1 ping (Some out) (Z.of_nat (length out))
    = (OK, Some (b ++ drop 7 out), 7).
Proof.
  intros b ping.
  assert (Hb : is_byte_list b) by (repeat constructor; done).
  assert (Hd : decodeOperationRequestM VERSION_MINOR_0_1 (Some b) 7 (mkRequest 0 0 0 0 zeroValue)
    = (OK, ping)) by (vm_compute; reflexivity).
  split; [exact Hd|].
  exact (proj2 (proj1 (proj1 (operation_payload_codec VERSION_MINOR_0_1 b Hb) _ _) Hd)).
Defined.

End HostMessageFacts.
