(* ===== verification/HostRecordFacts.v ===== *)
(** The records of the Host Protocol: each survives being written into a typed
    value, is accepted there by the validation of responses, and reaches the
    host unchanged inside the response to its operation. *)

From S2P Require Import Prelude EventWire Diagnostics Capabilities HostFrame HostRecords HostMessages HostMessageFacts.

Module HostRecordFacts.

Import DeviceCapabilities HostProtocol HostProtocolRecords HostProtocolMessages HostMessageFacts.

(** ** The interface of a record *)

(** A kind of record: the operation whose response carries it, the bytes that
    make one, its encoder and its decoder. *)
Class StructureRecord (R : Type) := {
  carrier : Z;
  record_wf : R → Prop;
  encodeRecord : R → TypedValue → PayloadResult * TypedValue;
  decodeRecord : TypedValue → R → PayloadResult * R
}.

(** What a kind of record promises to those who send it: written into an
    empty value, it is well formed, valid there, and read back. *)
Class StructureCodec (R : Type) `{StructureRecord R} := {
  codec_value r v :
    record_wf r → encodeRecord r setNoneValue = (OK, v) → value_wf v ∧ value_clear v;
  codec_valid r v :
    record_wf r → encodeRecord r setNoneValue = (OK, v) → isValidStructureValue carrier v = true;
  codec_decode r v r0 :
    record_wf r → encodeRecord r setNoneValue = (OK, v) → decodeRecord v r0 = (OK, r)
}.

(** Bytes written below the length leave the rest of a value clear. *)
Ltac value_written :=
  split; [split_and!; [done|done|by len|cbv [tv_bytes]; unfold writeUint32Le, writeUint16Le; repeat first
    [apply zeros_byte | apply upd_byte | apply write16_byte | apply write32_byte]; try (assumption || apply u8_range)]
  |split; [done|vm_compute; reflexivity]].

(** The value an encoder made. *)
Ltac encoded :=
  let He := fresh in intros He; apply (f_equal snd) in He; cbn [snd] in He; subst; try destruct_and!.

(** A guard on the type and the length of an encoded value. *)
Ltac guard_passed :=
  lazymatch goal with |- (if ?c then _ else _) = _ => change c with false end; cbv beta iota zeta.

(** Decide which operation this is. *)
Ltac which_operation :=
  repeat match goal with |- context [?a =? ?b] =>
    is_const a; is_const b;
    let c := eval vm_compute in (a =? b) in change (a =? b) with c end;
  cbv beta iota zeta.

(** A record is read field by field. *)
Ltac fields_read r :=
  destruct r; cbn in *; f_equal; (reflexivity || (apply word16_le; assumption)
    || (apply word32_le; assumption)).

(** ** Device information *)

#[export] Instance DeviceInfo_record : StructureRecord DeviceInfoRecord := {
  carrier := OperationCode.GET_DEVICE_INFO;
  record_wf r :=
    is_u8 (firmwareMajor r) ∧ is_u8 (firmwareMinor r) ∧ is_u8 (firmwarePatch r)
    ∧ is_u8 (wireProtocol r) ∧ is_u8 (configurationSchema r) ∧ is_u8 (hardwareProfile r)
    ∧ is_u8 (role r) ∧ is_u8 (deviceId r);
  encodeRecord := encodeDeviceInfoRecord;
  decodeRecord := decodeDeviceInfoRecord
}.

#[export] Instance DeviceInfo_codec : StructureCodec DeviceInfoRecord.
Proof.
  assert (Henc : ∀ r v0 v, encodeDeviceInfoRecord r v0 = (OK, v) →
    isKnownHardwareProfile (hardwareProfile r) = true ∧ isKnownDeviceRole (role r) = true).
  { intros r v0 v. unfold encodeDeviceInfoRecord. destruct (isKnownHardwareProfile _); [|done].
    by destruct (isKnownDeviceRole _). }
  split; intros r v; [| |intros r0]; intros Hw He; destruct (Henc _ _ _ He) as [E1 E2];
    revert He; cbn [record_wf encodeRecord decodeRecord carrier DeviceInfo_record] in *;
    unfold encodeDeviceInfoRecord; rewrite E1, E2; encoded.
  - value_written.
  - by apply andb_true_iff.
  - unfold decodeDeviceInfoRecord. guard_passed.
    match goal with |- (if _ then _ else (_, ?c)) = _ => assert (Hc : c = r) by by destruct r end.
    rewrite Hc, E1, E2. done.
Qed.

(** ** Status *)

#[export] Instance Status_record : StructureRecord StatusRecord := {
  carrier := OperationCode.GET_STATUS;
  record_wf r :=
    is_u16 (statusFlags r) ∧ is_u32 (uptimeSeconds r) ∧ is_u16 (retryCount r)
    ∧ is_u16 (timeoutCount r);
  encodeRecord := encodeStatusRecord;
  decodeRecord := decodeStatusRecord
}.

#[export] Instance Status_codec : StructureCodec StatusRecord.
Proof.
  split; intros r v; [| |intros r0];
    cbn [record_wf encodeRecord decodeRecord carrier Status_record];
    intros Hw; unfold encodeStatusRecord;
    (destruct (Z.land (statusFlags r) RESERVED_STATUS_FLAGS =? 0) eqn:E; [|done]);
    encoded.
  - value_written.
  - unfold isValidStructureValue. guard_passed.
    match goal with |- context [readUint16Le ?b 0] => assert (Hf : readUint16Le b 0 = statusFlags r)
      by (apply word16_le; assumption) end.
    by rewrite Hf.
  - unfold decodeStatusRecord. guard_passed.
    match goal with |- (if _ then _ else (_, ?c)) = _ => assert (Hc : c = r) by fields_read r end.
    by rewrite Hc, E.
Qed.

(** ** Descriptions of capabilities *)

#[export] Instance Description_record : StructureRecord CapabilityDescriptionRecord := {
  carrier := OperationCode.DESCRIBE_CAPABILITY;
  record_wf r :=
    is_u8 (capabilityClass r) ∧ is_u8 (cd_valueType r) ∧ is_u8 (cd_operationFlags r)
    ∧ is_u8 (unit_ r) ∧ is_u8 (availability r) ∧ is_u8 (cd_reserved r);
  encodeRecord := encodeCapabilityDescriptionRecord;
  decodeRecord := decodeCapabilityDescriptionRecord
}.

#[export] Instance Description_codec : StructureCodec CapabilityDescriptionRecord.
Proof.
  split; intros r v; [| |intros r0];
    cbn [record_wf encodeRecord decodeRecord carrier Description_record];
    intros Hw He; pose proof He as He'; revert He; unfold encodeCapabilityDescriptionRecord;
    (destruct (_ || _) eqn:E; [done|]); encoded.
  - value_written.
  - unfold isValidStructureValue. guard_passed. rewrite !orb_false_iff in E. destruct_and!.
    cbn. zbool.
    repeat match goal with H : negb _ = false |- _ => apply negb_false_iff in H end.
    repeat (apply andb_true_iff; split); try assumption; blia.
  - unfold decodeCapabilityDescriptionRecord. guard_passed.
    match goal with |- (if _ then _ else (_, ?c)) = _ => assert (Hc : c = r) by by destruct r end.
    rewrite Hc. assert (Hok : (encodeCapabilityDescriptionRecord r zeroValue).1 = OK)
      by (unfold encodeCapabilityDescriptionRecord; by rewrite E).
    by rewrite Hok.
Qed.

(** ** Pages of capabilities *)

#[export] Instance CapabilityPage_record : StructureRecord CapabilityPageRecord := {
  carrier := OperationCode.GET_CAPABILITIES;
  record_wf r :=
    is_u16 (cp_nextCursor r) ∧ is_u8 (cp_count r) ∧ length (capabilityIds r) = 9%nat
    ∧ Forall is_u16 (capabilityIds r)
    ∧ drop (Z.to_nat (cp_count r)) (capabilityIds r) = zeros (9 - Z.to_nat (cp_count r));
  encodeRecord := encodeCapabilityPageRecord;
  decodeRecord := decodeCapabilityPageRecord
}.

(** Lists of bytes are equal if they read the same. *)
Lemma list_eq_rd (a b : list Z) :
  length a = length b → (∀ i, (i < length a)%nat → rd a i = rd b i) → a = b.
Proof.
  intros Hl H. apply list_eq_same_length with (length a); [done..|].
  intros i x y Hi Hx%rd_lookup Hy%rd_lookup. rewrite <- Hx, <- Hy. by apply H.
Qed.

Lemma rd_drop (l : list Z) n i : rd (drop n l) i = rd l (n + i).
Proof. unfold rd. by rewrite !nth_lookup, lookup_drop. Qed.

Lemma rd_zeros n i : rd (zeros n) i = 0.
Proof.
  unfold rd, zeros. rewrite nth_lookup. destruct (replicate _ _ !! i) eqn:R; [|done].
  by apply lookup_replicate_1 in R as [-> _].
Qed.

(** All bytes are zero from where they read zero. *)
Lemma all_zero_drop n l : (∀ k, (n ≤ k)%nat → rd l k = 0) → all_zero (drop n l) = true.
Proof.
  intros H. apply all_zero_spec, list_eq_rd; [by rewrite length_zeros|].
  intros i _. rewrite rd_drop, rd_zeros. apply H. lia.
Qed.

Lemma rd_writeUint16Le l i v j : j ≠ i → j ≠ S i → rd (writeUint16Le l i v) j = rd l j.
Proof. intros. unfold writeUint16Le, write16. rewrite !rd_upd_ne by lia. done. Qed.

Lemma read_writeUint16Le l i v :
  (S i < length l)%nat → is_u16 v → readUint16Le (writeUint16Le l i v) i = v.
Proof.
  intros Hl Hv. unfold readUint16Le, writeUint16Le, read16, write16.
  rewrite rd_upd_ne, !rd_upd_eq by (rewrite ?length_upd; lia). by apply word16_le.
Qed.

(** What the loop that writes identifiers leaves. *)
Lemma writeIds_spec left : ∀ i ids b b',
  writeIds left i ids b = Some b' → (3 + 2 * (i + left) ≤ length b)%nat →
  length b' = length b ∧ (is_byte_list b → is_byte_list b')
  ∧ (∀ k, (k < 3 + 2 * i ∨ 3 + 2 * (i + left) ≤ k)%nat → rd b' k = rd b k)
  ∧ (∀ j, (i ≤ j < i + left)%nat → rd ids j ≠ INVALID_CAPABILITY_ID
       ∧ (is_u16 (rd ids j) → readUint16Le b' (3 + 2 * j) = rd ids j)).
Proof.
  induction left as [|left IH]; intros i ids b b'; cbn [writeIds].
  { intros [= <-] _. repeat split; done || lia. }
  destruct (Z.eqb_spec (rd ids i) INVALID_CAPABILITY_ID) as [|Hi]; [done|]. intros Hw Hl.
  destruct (IH _ _ _ _ Hw) as (IL & IB & IK & IJ); [unfold writeUint16Le; rewrite length_write16; lia|].
  unfold writeUint16Le in IL. rewrite length_write16 in IL. split_and!; [done| | |].
  - intros. apply IB. unfold writeUint16Le. by apply write16_byte.
  - intros k Hk. rewrite IK by lia. apply rd_writeUint16Le; lia.
  - intros j Hj. destruct (decide (j = i)) as [->|]; [|apply IJ; lia]. split; [done|]. intros Hu.
    unfold readUint16Le, read16. rewrite !IK by lia. by apply read_writeUint16Le; [lia|].
Qed.

Lemma readIds_spec left : ∀ i b acc,
  (∀ j, (i ≤ j < i + left)%nat → readUint16Le b (3 + 2 * j) ≠ INVALID_CAPABILITY_ID) →
  (i + left ≤ length acc)%nat →
  ∃ ids, readIds left i b acc = Some ids ∧ length ids = length acc
    ∧ (∀ j, (i ≤ j < i + left)%nat → rd ids j = readUint16Le b (3 + 2 * j))
    ∧ (∀ j, (j < i ∨ i + left ≤ j)%nat → rd ids j = rd acc j).
Proof.
  induction left as [|left IH]; intros i b acc Hb Hl; cbn [readIds].
  { exists acc. repeat split; done || lia. }
  rewrite (proj2 (Z.eqb_neq _ _)) by (apply Hb; lia).
  destruct (IH (S i) b (upd acc i (readUint16Le b (3 + 2 * i)))) as (ids & -> & IL & IJ & IK);
    [intros; apply Hb; lia|rewrite length_upd; lia|]. rewrite length_upd in IL.
  exists ids. split_and!; [done..| |].
  - intros j Hj. destruct (decide (j = i)) as [->|]; [|apply IJ; lia].
    rewrite IK by lia. apply rd_upd_eq. lia.
  - intros j Hj. rewrite IK by lia. apply rd_upd_ne. lia.
Qed.

Lemma idsValid_spec left : ∀ i b,
  (∀ j, (i ≤ j < i + left)%nat → readUint16Le b (3 + 2 * j) ≠ INVALID_CAPABILITY_ID) →
  idsValid left i b = true.
Proof.
  induction left as [|left IH]; intros i b Hb; cbn [idsValid]; [done|].
  rewrite (proj2 (Z.eqb_neq _ _)) by (apply Hb; lia). apply IH. intros. apply Hb. lia.
Qed.

(** The value of a page. *)
Lemma encodeCapabilityPage_ok r v0 v :
  record_wf r → encodeCapabilityPageRecord r v0 = (OK, v) →
  0 ≤ cp_count r ≤ 9 ∧ ∃ b, v = mkTyped STRUCTURE_VALUE_TYPE (3 + 2 * cp_count r) b
  ∧ length b = 121%nat ∧ is_byte_list b ∧ readUint16Le b 0 = cp_nextCursor r
  ∧ rd b 2 = cp_count r
  ∧ (∀ k, (3 + 2 * Z.to_nat (cp_count r) ≤ k)%nat → rd b k = 0)
  ∧ (∀ j, (j < Z.to_nat (cp_count r))%nat →
       rd (capabilityIds r) j ≠ INVALID_CAPABILITY_ID
       ∧ readUint16Le b (3 + 2 * j) = rd (capabilityIds r) j).
Proof.
  intros (Hn & Hc & Hl & Hw & _). unfold encodeCapabilityPageRecord, MAX_CAPABILITY_PAGE_ENTRIES.
  destruct (Z.ltb_spec 9 (cp_count r)); [done|].
  destruct (writeIds _ _ _ _) as [b|] eqn:E; [|done]. encoded. split; [uint_unfold; lia|].
  apply writeIds_spec in E as (IL & IB & IK & IJ); [|rewrite length_upd; unfold writeUint16Le;
    rewrite length_write16, length_zeros; lia].
  exists b. split_and!.
  - rewrite wrap_small by (uint_unfold; lia). done.
  - by rewrite IL.
  - apply IB. apply upd_byte; [|done]. unfold writeUint16Le. by apply write16_byte, zeros_byte.
  - unfold readUint16Le, read16. rewrite !IK by lia. by apply (word16_le (cp_nextCursor r)).
  - by rewrite IK by lia.
  - intros k Hk. rewrite IK by lia. rewrite rd_upd_ne, rd_writeUint16Le by lia. apply rd_zeros.
  - intros j Hj. destruct (IJ j) as [H1 H2]; [lia|]. split; [done|]. apply H2.
    rewrite Forall_lookup in Hw. apply (Hw j), lookup_rd. lia.
Qed.

#[export] Instance CapabilityPage_codec : StructureCodec CapabilityPageRecord.
Proof.
  split; intros r v; [| |intros r0]; intros Hw He;
    destruct (encodeCapabilityPage_ok _ _ _ Hw He)
      as (Hc & b & -> & Hl & Hb & Hn & H2 & Hz & Hj).
  - split; [split_and!; [done|unfold is_uint; cbn [tv_length]; lia|done..]|].
    split; [cbn [tv_length]; lia|]. cbn [tv_length tv_bytes]. apply all_zero_drop. intros. apply Hz. lia.
  - cbn [carrier CapabilityPage_record]. unfold isValidStructureValue.
    cbn [tv_type tv_length tv_bytes].
    assert (Hlen : isValidStructureLength OperationCode.GET_CAPABILITIES (3 + 2 * cp_count r) = true).
    { unfold isValidStructureLength. which_operation. replace (3 + 2 * cp_count r - 3) with (cp_count r * 2) by lia.
      rewrite Z_mod_mult. blia. }
    rewrite Hlen. which_operation. rewrite H2. unfold MAX_CAPABILITY_PAGE_ENTRIES.
    rewrite (proj2 (Z.ltb_ge _ _)), Z.eqb_refl by lia. cbn [negb orb]. apply idsValid_spec.
    intros j Hjj. destruct (Hj j) as [? ->]; [lia|done].
  - destruct Hw as (_ & _ & Hi & _ & Hd).
    cbn [decodeRecord CapabilityPage_record]. unfold decodeCapabilityPageRecord.
    cbn [tv_type tv_length tv_bytes].
    replace (3 + 2 * cp_count r - 3) with (cp_count r * 2) by lia. rewrite Z_mod_mult, H2.
    unfold MAX_CAPABILITY_PAGE_ENTRIES.
    rewrite !(proj2 (Z.ltb_ge _ _)), !Z.eqb_refl by lia. cbn [negb orb].
    destruct (readIds_spec (Z.to_nat (cp_count r)) 0 b (zeros 9)) as (ids & -> & IL & IJ & IK).
    { intros j Hjj. destruct (Hj j) as [? ->]; [lia|done]. }
    { rewrite length_zeros. lia. }
    assert (ids = capabilityIds r) as ->; [|rewrite Hn; by destruct r].
    apply list_eq_rd; [by rewrite IL|]. intros j Hjj.
    destruct (decide (j < Z.to_nat (cp_count r))%nat).
    { rewrite IJ by lia. by apply Hj. }
    rewrite IK by lia. apply (f_equal (λ l, rd l (j - Z.to_nat (cp_count r)))) in Hd.
    rewrite rd_drop, rd_zeros in Hd.
    replace (Z.to_nat (cp_count r) + (j - Z.to_nat (cp_count r)))%nat with j in Hd by lia.
    by rewrite Hd, rd_zeros.
Qed.

(** ** Pages of diagnostics *)

Definition entry_wf (e : DiagnosticEntry) : Prop := is_u8 (metricId e) ∧ is_u32 (metric_value e).

#[export] Instance DiagnosticPage_record : StructureRecord DiagnosticPageRecord := {
  carrier := OperationCode.GET_DIAGNOSTICS;
  record_wf r :=
    is_u8 (dp_nextCursor r) ∧ is_u8 (dp_count r) ∧ length (dp_entries r) = 3%nat
    ∧ Forall entry_wf (dp_entries r)
    ∧ drop (Z.to_nat (dp_count r)) (dp_entries r)
      = replicate (3 - Z.to_nat (dp_count r)) (mkEntry 0 0);
  encodeRecord := encodeDiagnosticPageRecord;
  decodeRecord := decodeDiagnosticPageRecord
}.

(** A word after it was stored, and an entry. *)
Definition le32_value (v : Z) : Z := read32 (le32 v) 0.

Lemma le32_value_eq v : is_u32 v → le32_value v = v.
Proof. apply word32_le. Qed.

Definition stored_entry (e : DiagnosticEntry) : DiagnosticEntry :=
  mkEntry (metricId e) (le32_value (metric_value e)).

(** A page has nothing, one, two or three entries. *)
Lemma page_cases r v0 v :
  record_wf r → encodeDiagnosticPageRecord r v0 = (OK, v) →
  ∃ next e0 e1 e2 n,
    r = mkDiagnosticPage next (Z.of_nat n) [e0; e1; e2] ∧ (n = 0 ∨ n = 1 ∨ n = 2 ∨ n = 3)%nat
    ∧ v = mkTyped STRUCTURE_VALUE_TYPE (u8 (2 + 5 * Z.of_nat n))
            (writeEntries n 0 [e0; e1; e2] (upd (upd (zeros 121) 0 next) 1 (Z.of_nat n)))
    ∧ is_u8 next ∧ entry_wf e0 ∧ entry_wf e1 ∧ entry_wf e2
    ∧ drop n [e0; e1; e2] = replicate (3 - n) (mkEntry 0 0).
Proof.
  destruct r as [next count es]. cbn [record_wf DiagnosticPage_record dp_nextCursor dp_count dp_entries].
  intros (Hn & Hc & Hl & Hw & Hd). unfold encodeDiagnosticPageRecord, MAX_DIAGNOSTIC_PAGE_ENTRIES.
  cbn [dp_nextCursor dp_count dp_entries]. destruct (Z.ltb_spec 3 count); [done|].
  do 3 (destruct es as [|? es]; [done|]). destruct es; [|done].
  repeat (apply Forall_cons in Hw as [? Hw]). uint_unfold.
  assert (Hcount : count = Z.of_nat (Z.to_nat count)) by lia. rewrite Hcount at 1 2 3.
  intros He; apply (f_equal snd) in He; cbn [snd] in He; subst v. rewrite Nat2Z.id in *.
  exists next, d, d0, d1, (Z.to_nat count). split_and!; done || lia || by rewrite <- Hcount.
Qed.

#[export] Instance DiagnosticPage_codec : StructureCodec DiagnosticPageRecord.
Proof.
  split; intros r v; [| |intros r0]; intros Hw He;
    destruct (page_cases _ _ _ Hw He) as (next & [i0 x0] & [i1 x1] & [i2 x2] & n & -> & Hn & -> & Hb
      & [? ?] & [? ?] & [? ?] & Hd); cbn [metricId metric_value] in *; clear Hw He.
  - destruct_or! Hn; subst n; cbn [writeEntries nth]; value_written; unfold is_uint; lia.
  - destruct_or! Hn; subst n; reflexivity.
  - destruct_or! Hn; subst n; cbn in Hd; simplify_eq; cbn [writeEntries nth];
    cbn [decodeRecord DiagnosticPage_record]; unfold decodeDiagnosticPageRecord; guard_passed.
    all: match goal with |- (if ?c then _ else _) = _ => change c with false end; cbv beta iota.
    all: apply f_equal2; [reflexivity|]; apply f_equal3; [reflexivity..|].
    all: match goal with |- _ = ?l => transitivity (map stored_entry l); [reflexivity|] end.
    all: cbn [map]; unfold stored_entry; cbn [metricId metric_value];
      by rewrite !le32_value_eq by (done || by unfold is_uint).
Qed.

(** ** Events *)

(** An event is written into the bytes of the value. *)
Definition encodeHostEventValue (r : HostEventRecord) (value : TypedValue)
    : PayloadResult * TypedValue :=
  match encodeHostEventRecord r (Some (tv_bytes value)) 121 with
  | (OK, Some b, n) => (OK, mkTyped STRUCTURE_VALUE_TYPE (u8 n) b)
  | (failure, _, _) => (failure, value)
  end.

#[export] Instance HostEvent_record : StructureRecord HostEventRecord := {
  carrier := OperationCode.POLL_EVENTS;
  record_wf r :=
    is_u8 (he_available r) ∧ is_u8 (he_sourceDeviceId r) ∧ is_u8 (he_family r)
    ∧ is_u8 (he_flags r) ∧ is_u32 (he_eventEpoch r) ∧ is_u32 (he_eventId r)
    ∧ is_u32 (he_lifetimeBudgetSeconds r) ∧ is_u8 (he_bodyLength r)
    ∧ length (he_body r) = 12%nat ∧ is_byte_list (he_body r);
  encodeRecord := encodeHostEventValue;
  decodeRecord v := decodeHostEventRecord (Some (tv_bytes v)) (tv_length v)
}.

(** The bytes of an event in a value. *)
Definition eventValue (r : HostEventRecord) : TypedValue :=
  mkTyped STRUCTURE_VALUE_TYPE HOST_EVENT_RECORD_SIZE
    ([he_available r; he_sourceDeviceId r; he_family r; he_flags r] ++ le32 (he_eventEpoch r)
     ++ le32 (he_eventId r) ++ le32 (he_lifetimeBudgetSeconds r) ++ [he_bodyLength r]
     ++ he_body r ++ zeros 92).

Lemma encodeHostEventValue_ok r v :
  record_wf r → encodeHostEventValue r setNoneValue = (OK, v) →
  isValidHostEventRecord r = true ∧ v = eventValue r.
Proof.
  intros (_ & _ & _ & _ & _ & _ & _ & _ & Hl & _). unfold encodeHostEventValue, encodeHostEventRecord.
  destruct (isValidHostEventRecord r); cbn [negb]; [|done].
  intros He; apply (f_equal snd) in He. split; [done|]. refine (eq_trans (eq_sym He) _).
  destruct r as [? ? ? ? ? ? ? ? body]. cbn [he_body] in Hl. explode body Hl. reflexivity.
Qed.

Lemma decode_eventValue r r0 :
  record_wf r → isValidHostEventRecord r = true →
  decodeHostEventRecord (Some (tv_bytes (eventValue r))) (tv_length (eventValue r)) r0 = (OK, r).
Proof.
  intros (? & ? & ? & ? & ? & ? & ? & ? & Hl & _) Hv. unfold decodeHostEventRecord. guard_passed.
  match goal with |- (if negb (_ ?c) then _ else _) = _ => assert (Hc : c = r) end.
  { destruct r as [? ? ? ? ? ? ? ? body]. cbn [he_body] in Hl. explode body Hl. cbn in *.
    f_equal; reflexivity || (apply word32_le; assumption). }
  by rewrite Hc, Hv.
Qed.

#[export] Instance HostEvent_codec : StructureCodec HostEventRecord.
Proof.
  split; intros r v; [| |intros r0]; intros Hw He;
    destruct (encodeHostEventValue_ok _ _ Hw He) as [Hv ->].
  - destruct Hw as (? & ? & ? & ? & ? & ? & ? & ? & Hl & Hb).
    split; [split_and!; [done|done|cbn [eventValue tv_bytes]; by len|]|split; [done|]].
    + cbv [eventValue tv_bytes]. bytes.
    + destruct r as [? ? ? ? ? ? ? ? body]. cbn [he_body] in Hl. by explode body Hl.
  - unfold isValidStructureValue. guard_passed. cbn [carrier HostEvent_record]. which_operation.
    by rewrite (decode_eventValue r zeroHostEvent Hw Hv).
  - by apply decode_eventValue.
Qed.

(** ** Event diagnostics *)

Definition identity_wf (i : HostEventIdentity) : Prop :=
  is_u8 (sourceDeviceId i) ∧ is_u32 (eventEpoch i) ∧ is_u32 (eventId i).

#[export] Instance EventDiagnostics_record : StructureRecord EventDiagnosticsRecord := {
  carrier := OperationCode.GET_EVENT_DIAGNOSTICS;
  record_wf r :=
    (is_u8 (schema r) ∧ is_u8 (ed_role r) ∧ is_u8 (custodyCount r) ∧ is_u8 (capacity r)
     ∧ is_u8 (activeCount r) ∧ is_u8 (consumedCount r) ∧ is_u8 (recordAvailable r)
     ∧ is_u8 (ed_state r) ∧ is_u8 (ed_family r) ∧ is_u8 (attemptsUsed r)
     ∧ is_u8 (attemptsMaximum r) ∧ is_u8 (ed_flags r) ∧ is_u8 (recentAdmissionAvailable r)
     ∧ is_u8 (producerKind r) ∧ is_u8 (producerResult r) ∧ is_u8 (producerIdentityAvailable r))
    ∧ identity_wf (identity r) ∧ identity_wf (recentAdmission r) ∧ identity_wf (producerIdentity r)
    ∧ is_u32 (remainingLifetimeSeconds r) ∧ is_u32 (admissionOrdinal r)
    ∧ length (ed_counters r) = 15%nat ∧ Forall is_u32 (ed_counters r);
  encodeRecord := encodeEventDiagnosticsRecord;
  decodeRecord := decodeEventDiagnosticsRecord
}.

Lemma writeCounters_byte left : ∀ i counters b,
  is_byte_list b → is_byte_list (writeCounters left i counters b).
Proof.
  induction left as [|left IH]; intros; cbn [writeCounters]; [done|]. apply IH.
  by apply write32_byte.
Qed.

Lemma writeIdentity_byte b at_ i :
  is_byte_list b → identity_wf i → is_byte_list (writeIdentity b at_ i).
Proof. intros Hb (? & _ & _). by apply write32_byte, write32_byte, upd_byte. Qed.

(** What a decoder makes of the encoded record, read through its words. *)
Definition stored_identity (i : HostEventIdentity) : HostEventIdentity :=
  mkHostIdentity (sourceDeviceId i) (le32_value (eventEpoch i)) (le32_value (eventId i)).

Lemma stored_identity_eq i : identity_wf i → stored_identity i = i.
Proof.
  intros (_ & ? & ?). unfold stored_identity. rewrite !le32_value_eq by done. by destruct i.
Qed.

Lemma stored_words l : Forall is_u32 l → map le32_value l = l.
Proof. induction 1 as [|v l Hv _ IH]; cbn; [done|]. by rewrite IH, le32_value_eq. Qed.

Definition stored_diagnostics (r : EventDiagnosticsRecord) : EventDiagnosticsRecord :=
  mkEventDiagnostics (schema r) (ed_role r) (custodyCount r) (capacity r) (activeCount r)
    (consumedCount r) (recordAvailable r) (ed_state r) (stored_identity (identity r)) (ed_family r)
    (attemptsUsed r) (attemptsMaximum r) (ed_flags r) (le32_value (remainingLifetimeSeconds r))
    (le32_value (admissionOrdinal r)) (recentAdmissionAvailable r)
    (stored_identity (recentAdmission r)) (producerKind r) (producerResult r)
    (producerIdentityAvailable r) (stored_identity (producerIdentity r))
    (map le32_value (ed_counters r)).

Lemma stored_diagnostics_eq r : record_wf r → stored_diagnostics r = r.
Proof.
  intros (_ & ? & ? & ? & ? & ? & _ & ?). unfold stored_diagnostics.
  rewrite !stored_identity_eq, !le32_value_eq, stored_words by done. by destruct r.
Qed.

(** The candidate of the decoder. *)
Lemma decodeEventDiagnostics_encoded r v r0 :
  length (ed_counters r) = 15%nat → encodeEventDiagnosticsRecord r setNoneValue = (OK, v) →
  isValidEventDiagnosticsRecord (stored_diagnostics r) = true →
  decodeEventDiagnosticsRecord v r0 = (OK, stored_diagnostics r).
Proof.
  intros Hl. unfold encodeEventDiagnosticsRecord.
  destruct (isValidEventDiagnosticsRecord r); cbn [negb]; [|done]. encoded. intros Hv.
  unfold decodeEventDiagnosticsRecord. guard_passed.
  match goal with |- (if negb (_ ?c) then _ else _) = _ =>
    assert (Hc : c = stored_diagnostics r) end.
  { destruct r as [? ? ? ? ? ? ? ? [] ? ? ? ? ? ? ? [] ? ? ? [] cs]. cbn [ed_counters] in Hl.
    explode cs Hl. reflexivity. }
  by rewrite Hc, Hv.
Qed.

#[export] Instance EventDiagnostics_codec : StructureCodec EventDiagnosticsRecord.
Proof.
  split; intros r v; [| |intros r0]; intros Hw He; pose proof (stored_diagnostics_eq r Hw) as Hs;
    assert (Hv : isValidEventDiagnosticsRecord r = true)
      by (revert He; cbn [encodeRecord EventDiagnostics_record]; unfold encodeEventDiagnosticsRecord;
          by destruct (isValidEventDiagnosticsRecord r));
    pose proof Hw as (Hb & Hi1 & Hi2 & Hi3 & _ & _ & Hl & _);
    assert (Hdec : ∀ r0, decodeEventDiagnosticsRecord v r0 = (OK, r))
      by (intros r1; rewrite <- Hs; apply decodeEventDiagnostics_encoded; by rewrite ?Hs).
  - revert He. cbn [encodeRecord EventDiagnostics_record]. unfold encodeEventDiagnosticsRecord.
    rewrite Hv. cbn [negb]. encoded. split; [split_and!; [done|done| |]|split; [done|]].
    + destruct r as [? ? ? ? ? ? ? ? [] ? ? ? ? ? ? ? [] ? ? ? [] cs]. cbn [ed_counters] in Hl.
      by explode cs Hl.
    + cbv [tv_bytes]. repeat first [apply zeros_byte | apply writeCounters_byte
        | apply writeIdentity_byte | apply write32_byte | apply upd_byte]; assumption.
    + destruct r as [? ? ? ? ? ? ? ? [] ? ? ? ? ? ? ? [] ? ? ? [] cs]. cbn [ed_counters] in Hl.
      by explode cs Hl.
  - revert He. cbn [encodeRecord EventDiagnostics_record carrier]. unfold encodeEventDiagnosticsRecord.
    rewrite Hv. cbn [negb]. encoded. unfold isValidStructureValue. guard_passed. which_operation.
    by rewrite Hdec.
  - apply Hdec.
Qed.

(** ** Event transmission diagnostics *)

Import EventTxDiagnostics.

(** The record is a role and a snapshot. *)
#[export] Instance EventTxDiagnostics_record : StructureRecord (Z * Snapshot) := {
  carrier := OperationCode.GET_EVENT_DIAGNOSTICS;
  record_wf r :=
    is_u8 r.1 ∧ let s := r.2 in
    (is_u8 (lastStep s) ∧ is_u8 (controllerState s) ∧ is_u8 (radioOwner s) ∧ is_u8 (attempt_ s)
     ∧ is_u8 (EventTxDiagnostics.source s) ∧ is_u8 (admissionStatus s))
    ∧ is_u32 (epoch s) ∧ is_u32 (id s) ∧ is_u32 (lastAt s) ∧ is_u32 (startAt s)
    ∧ is_u32 (completedAt s) ∧ is_u32 (previousClock s) ∧ is_u32 (inputClock s)
    ∧ -32768 ≤ startResult_ s ≤ 32767
    ∧ length (counters s) = 30%nat ∧ Forall is_u16 (counters s);
  encodeRecord r v := encodeEventTxDiagnostics r.1 r.2 v;
  decodeRecord v r :=
    let '(result, role, snapshot) := decodeEventTxDiagnostics v r.1 r.2 in (result, (role, snapshot))
}.

(** Words of two bytes after they were stored. *)
Definition le16_value (v : Z) : Z := read16 (le16 v) 0.

Lemma le16_value_eq v : is_u16 v → le16_value v = v.
Proof. apply word16_le. Qed.

Lemma stored_words16 l : Forall is_u16 l → map le16_value l = l.
Proof. induction 1 as [|v l Hv _ IH]; cbn; [done|]. by rewrite IH, le16_value_eq. Qed.

(** The signed result of a start, after it was stored. *)
Definition stored_result (v : Z) : Z :=
  let raw := le16_value (u16 v) in if raw <=? 32767 then raw else raw - 65536.

Lemma stored_result_eq v : -32768 ≤ v ≤ 32767 → stored_result v = v.
Proof.
  intros Hv. unfold stored_result. rewrite le16_value_eq by apply u16_range. cbv zeta.
  assert (u16 v = v ∧ 0 ≤ v ∨ u16 v = v + 65536 ∧ v < 0) as [[-> ?]|[-> ?]] by uint.
  - by rewrite (proj2 (Z.leb_le _ _)) by lia.
  - rewrite (proj2 (Z.leb_gt _ _)) by lia. lia.
Qed.

Definition stored_snapshot (s : Snapshot) : Snapshot :=
  mkSnapshot (available s) (lastStep s) (controllerState s) (radioOwner s) (attempt_ s)
    (EventTxDiagnostics.source s) (le32_value (epoch s)) (le32_value (id s)) (le32_value (lastAt s))
    (le32_value (startAt s)) (le32_value (completedAt s)) (le32_value (previousClock s))
    (le32_value (inputClock s)) (stored_result (startResult_ s)) (admissionStatus s)
    (map le16_value (counters s)).

Lemma stored_snapshot_eq role s : record_wf (role, s) → stored_snapshot s = s.
Proof.
  intros (_ & _ & ? & ? & ? & ? & ? & ? & ? & ? & _ & ?). cbn [fst snd] in *.
  unfold stored_snapshot. rewrite !le32_value_eq, stored_result_eq, stored_words16 by done.
  by destruct s.
Qed.

Lemma decodeEventTx_encoded role s v role0 s0 :
  length (counters s) = 30%nat → encodeEventTxDiagnostics role s setNoneValue = (OK, v) →
  validEventTxDiagnostics role (stored_snapshot s) = true →
  decodeEventTxDiagnostics v role0 s0 = (OK, role, stored_snapshot s).
Proof.
  intros Hl. unfold encodeEventTxDiagnostics.
  destruct (validEventTxDiagnostics role s); cbn [negb]; [|done]. encoded. intros Hv.
  unfold decodeEventTxDiagnostics.
  lazymatch goal with |- (if ?c then _ else _) = _ => assert (Hg : c = false) end.
  { by destruct s as [[]]. }
  rewrite Hg. cbv beta iota zeta.
  match goal with |- (if negb (_ ?r ?c) then _ else _) = _ =>
    assert (Hc : c = stored_snapshot s); [|assert (Hr : r = role) by done] end.
  { destruct s as [[] ? ? ? ? ? ? ? ? ? ? ? ? ? ? cs]; cbn [counters] in Hl; explode cs Hl;
      reflexivity. }
  by rewrite Hc, Hr, Hv.
Qed.

#[export] Instance EventTxDiagnostics_codec : StructureCodec (Z * Snapshot).
Proof.
  split; intros [role s] v; [| |intros [role0 s0]]; intros Hw He;
    pose proof (stored_snapshot_eq role s Hw) as Hs;
    assert (Hv : validEventTxDiagnostics role s = true)
      by (revert He; cbn [encodeRecord EventTxDiagnostics_record fst snd];
          unfold encodeEventTxDiagnostics; by destruct (validEventTxDiagnostics role s));
    pose proof Hw as (Hr & Hb & ? & ? & ? & ? & ? & ? & ? & _ & Hl & _); cbn [fst snd] in *;
    assert (Hdec : ∀ role0 s0, decodeEventTxDiagnostics v role0 s0 = (OK, role, s))
      by (intros r1 s1; rewrite <- Hs; apply decodeEventTx_encoded; by rewrite ?Hs).
  - revert He. cbn [encodeRecord EventTxDiagnostics_record fst snd]. unfold encodeEventTxDiagnostics.
    rewrite Hv. cbn [negb]. encoded.
    assert (Hlen : ∀ left i cs b, length (writeTxCounters left i cs b) = length b).
    { induction left as [|left IH]; intros; cbn [writeTxCounters]; [done|]. rewrite IH.
      unfold writeUint16Le. apply length_write16. }
    assert (Hbyte : ∀ left i cs b, is_byte_list b → is_byte_list (writeTxCounters left i cs b)).
    { induction left as [|left IH]; intros; cbn [writeTxCounters]; [done|]. apply IH.
      by apply write16_byte. }
    split; [split_and!; [done|done| |]|split; [done|]].
    + cbv [tv_bytes]. rewrite Hlen. unfold writeUint16Le, writeUint32Le. by len.
    + cbv [tv_bytes]. apply Hbyte. unfold writeUint16Le, writeUint32Le.
      repeat first [apply zeros_byte | apply write32_byte | apply write16_byte | apply upd_byte];
        try assumption; by destruct (available s).
    + destruct s as [? ? ? ? ? ? ? ? ? ? ? ? ? ? ? cs]. cbn [counters] in Hl. by explode cs Hl.
  - revert He. cbn [encodeRecord EventTxDiagnostics_record carrier fst snd].
    unfold encodeEventTxDiagnostics. rewrite Hv. cbn [negb]. encoded. unfold isValidStructureValue.
    guard_passed. which_operation.
    lazymatch goal with |- (if ?c then _ else _) = _ => change c with true end. cbv beta iota.
    by rewrite Hdec.
  - cbn [decodeRecord EventTxDiagnostics_record]. by rewrite Hdec.
Qed.

(** ** Delivery to the host *)

(** The operations that are answered by a structure. *)
Lemma structure_operation operation v :
  isValidStructureValue operation v = true →
  one_of operation [OperationCode.GET_DEVICE_INFO; OperationCode.GET_STATUS;
    OperationCode.GET_CAPABILITIES; OperationCode.DESCRIBE_CAPABILITY;
    OperationCode.GET_DIAGNOSTICS; OperationCode.POLL_EVENTS;
    OperationCode.GET_EVENT_DIAGNOSTICS] = true.
Proof.
  unfold isValidStructureValue. destruct (isValidStructureLength operation _) eqn:E.
  2: { by rewrite orb_true_r. }
  intros _. revert E. unfold isValidStructureLength, one_of. cbn [existsb].
  repeat (destruct (operation =? _); [by rewrite ?orb_true_r|]). done.
Qed.

(** Categories and operations are bytes. *)
Lemma valid_operation_bytes minor category operation :
  classifyCategoryOperationM minor category operation = VALID → is_u8 category ∧ is_u8 operation.
Proof.
  unfold classifyCategoryOperationM, isKnownOperationCategoryM, isKnownOperationCodeM,
    isKnownOperationCategory, isKnownOperationCode.
  destruct (negb _ || negb _) eqn:E; [done|]. intros _.
  apply orb_false_iff in E as [Hc%negb_false_iff Ho%negb_false_iff]. split.
  - apply orb_true_iff in Hc as [Hc|[_ ->%Z.eqb_eq]%andb_true_iff]; [|done].
    by switch_cases Hc.
  - apply orb_true_iff in Ho as [Ho|[_ Ho]%andb_true_iff]; [by switch_cases Ho|].
    rewrite !orb_true_iff, !Z.eqb_eq in Ho. by destruct_or! Ho; subst.
Qed.

Lemma responseBytes_byte r : response_wf r → is_byte_list (responseBytes r).
Proof.
  intros (? & ? & ? & ? & ? & ? & (? & ? & _ & ?) & _). unfold responseBytes, responseHead, valueBytes.
  bytes.
Qed.

(** The answer of success, for this category. *)
Definition successClass (category : Z) : Z :=
  if category =? OperationCategory.EVENT then ResultClass.SUCCESS else ResultClass.OPERATION_RESULT.

Definition successCode (category : Z) : Z :=
  if category =? OperationCategory.EVENT then SuccessCode.OK else OperationStatus.OK.

Lemma structure_response_valid minor category operation device target v :
  classifyCategoryOperationM minor category operation = VALID →
  isValidOperationTarget category operation target = true →
  isValidStructureValue operation v = true →
  validateOperationResponseM minor (mkResponse category operation device target
    (successClass category) (successCode category) v) = OK.
Proof.
  intros Hk Ht Hv. pose proof (structure_operation _ _ Hv) as Ho.
  unfold validateOperationResponseM.
  cbn [rs_category rs_operation rs_targetId resultClass resultCode rs_value].
  rewrite Hk, Ht. cbn [bool_decide negb].
  assert (Hc : category ∈ [OperationCategory.DEVICE; OperationCategory.CAPABILITY;
    OperationCategory.PROCEDURE; OperationCategory.DIAGNOSTIC; OperationCategory.EVENT]).
  { revert Hk. unfold classifyCategoryOperationM, isKnownOperationCategoryM, isKnownOperationCategory.
    destruct (one_of category _) eqn:E.
    - intros _. apply one_of_spec in E. set_solver.
    - destruct (Z.eqb_spec category OperationCategory.EVENT) as [->|]; [set_solver|].
      rewrite andb_false_r. done. }
  apply one_of_spec in Hc. revert Hv Hk.
  switch_cases Hc; switch_cases Ho; intros Hv Hk;
    unfold classifyCategoryOperationM, isSupportedCategoryOperationM, isKnownOperationCategoryM,
      isKnownOperationCodeM in Hk; destruct (minor =? VERSION_MINOR_0_2); try discriminate Hk.
  all: unfold validateEventResponse, isValidSuccessfulOperationValue;
    cbn [rs_category rs_operation rs_targetId resultClass resultCode rs_value];
    rewrite ?Hv; reflexivity.
Qed.

(** A record reaches the host.  Whatever kind of record the firmware encodes
    into an empty value - device information, status, a page of capabilities,
    a description, a page of diagnostics, event diagnostics, transmission
    diagnostics or an event - the successful response to its operation that
    carries this value is accepted by the response encoder, and the bytes
    written decode to a response from which the host reads that very record. *)
Theorem record_delivered {R} `{StructureCodec R} minor category device target (r : R) v out :
  record_wf r → encodeRecord r setNoneValue = (OK, v) →
  is_u8 device → is_u16 target → (MAX_PAYLOAD_SIZE ≤ length out)%nat →
  classifyCategoryOperationM minor category carrier = VALID →
  isValidOperationTarget category carrier target = true →
  ∃ b, encodeOperationResponseM minor
         (mkResponse category carrier device target (successClass category)
            (successCode category) v) (Some out) (Z.of_nat (length out))
       = (OK, Some (b ++ drop (length b) out), Z.of_nat (length b))
    ∧ ∀ response0, ∃ response,
        decodeOperationResponseM minor (Some b) (Z.of_nat (length b)) response0 = (OK, response)
        ∧ ∀ r0, decodeRecord (rs_value response) r0 = (OK, r).
Proof.
  intros Hw He Hd Ht Hout Hk Htarget.
  pose proof (codec_value r v Hw He) as [Hv Hc].
  pose proof (structure_response_valid minor category carrier device target v Hk Htarget
    (codec_valid r v Hw He)) as Hval.
  set (response := mkResponse _ _ _ _ _ _ _) in *.
  assert (Hcat : is_u8 category ∧ is_u8 carrier) by by eapply valid_operation_bytes.
  assert (Hwf : response_wf response).
  { unfold response_wf. cbn [rs_category rs_operation rs_targetDeviceId rs_targetId resultClass
      resultCode rs_value response]. split_and!; try tauto;
      unfold successClass, successCode; by case_match. }
  exists (responseBytes response). split; [by apply encodeOperationResponse_spec|].
  intros response0. exists response. split.
  - apply decodeOperationResponse_ok; [by apply responseBytes_byte|done].
  - intros r0. by apply codec_decode.
Qed.

Lemma record_delivered_witness :
  let page := mkCapabilityPage CAPABILITY_PAGE_END 2 (17 :: 18 :: zeros 7) in
  let value := (encodeCapabilityPageRecord page setNoneValue).2 in
  ∃ b, encodeOperationResponseM VERSION_MINOR_0_1
         (mkResponse OperationCategory.CAPABILITY OperationCode.GET_CAPABILITIES 2 0
            ResultClass.OPERATION_RESULT OperationStatus.OK value) (Some (zeros 128)) 128
       = (OK, Some (b ++ drop (length b) (zeros 128)), Z.of_nat (length b))
    ∧ ∀ response0, ∃ response,
        decodeOperationResponseM VERSION_MINOR_0_1 (Some b) (Z.of_nat (length b)) response0
        = (OK, response)
        ∧ ∀ r0, decodeCapabilityPageRecord (rs_value response) r0 = (OK, page).
Proof.
  intros page value.
  assert (Hw : record_wf page) by (split_and!; try done; repeat constructor; done).
  assert (He : encodeRecord page setNoneValue = (OK, value)) by (vm_compute; reflexivity).
  exact (record_delivered VERSION_MINOR_0_1 OperationCategory.CAPABILITY 2 0 page value (zeros 128)
    Hw He ltac:(done) ltac:(done) ltac:(rewrite length_zeros; unfold MAX_PAYLOAD_SIZE; lia)
    eq_refl eq_refl).
Defined.

(** ** What validation accepts *)

(** The result of the decoder of an operation's record. *)
Definition readStructure (operation : Z) (v : TypedValue) : PayloadResult :=
  if operation =? OperationCode.GET_DEVICE_INFO
  then (decodeDeviceInfoRecord v (mkDeviceInfo 0 0 0 0 0 0 0 0)).1 else
  if operation =? OperationCode.GET_STATUS then (decodeStatusRecord v (mkStatus 0 0 0 0)).1 else
  if operation =? OperationCode.GET_CAPABILITIES
  then (decodeCapabilityPageRecord v (mkCapabilityPage 0 0 (zeros 9))).1 else
  if operation =? OperationCode.DESCRIBE_CAPABILITY
  then (decodeCapabilityDescriptionRecord v (mkDescription 0 0 0 0 0 0)).1 else
  if operation =? OperationCode.GET_DIAGNOSTICS
  then (decodeDiagnosticPageRecord v (mkDiagnosticPage 0 0 [])).1 else
  if operation =? OperationCode.POLL_EVENTS
  then if tv_type v =? STRUCTURE_VALUE_TYPE
       then (decodeHostEventRecord (Some (tv_bytes v)) (tv_length v) zeroHostEvent).1
       else INVALID_VALUE else
  if operation =? OperationCode.GET_EVENT_DIAGNOSTICS
  then if tv_length v =? EVENT_TX_DIAGNOSTICS_SIZE
       then (decodeEventTxDiagnostics v 0 newSnapshot).1.1
       else (decodeEventDiagnosticsRecord v zeroEventDiagnostics).1 else
  INVALID_VALUE.

(** Reading the identifiers succeeds if the validation's loop does. *)
Lemma readIds_idsValid left : ∀ i b acc,
  idsValid left i b = bool_decide (is_Some (readIds left i b acc)).
Proof.
  induction left as [|left IH]; intros i b acc; cbn [idsValid readIds]; [done|].
  destruct (_ =? _); [done|]. apply IH.
Qed.

(** Response validation and the record decoders agree.  For every operation
    and every value, well formed or not, the firmware's rule for what a
    successful response may carry holds exactly when the decoder of the
    operation's record accepts the value: a host that reads the record of a
    validated response never fails, and no readable record is held back. *)
Theorem structure_value_decodes operation v :
  isValidStructureValue operation v = bool_decide (readStructure operation v = OK).
Proof.
  unfold isValidStructureValue, readStructure, isValidStructureLength.
  destruct (Z.eqb_spec operation OperationCode.GET_DEVICE_INFO) as [->|].
  { unfold decodeDeviceInfoRecord. destruct (tv_type v =? _), (tv_length v =? _); try done.
    cbn [negb orb hardwareProfile role].
    by destruct (isKnownHardwareProfile _), (isKnownDeviceRole _). }
  destruct (Z.eqb_spec operation OperationCode.GET_STATUS) as [->|].
  { unfold decodeStatusRecord. destruct (tv_type v =? _), (tv_length v =? _); try done.
    cbn [negb orb statusFlags]. by destruct (_ =? 0). }
  destruct (Z.eqb_spec operation OperationCode.GET_CAPABILITIES) as [->|].
  { unfold decodeCapabilityPageRecord. rewrite !Z.ltb_antisym.
    destruct (tv_type v =? _), (3 <=? _), (_ <=? 21), (_ mod 2 =? 0); try done. cbn [negb orb andb].
    destruct (_ || _); [done|]. rewrite (readIds_idsValid _ _ _ (zeros 9)).
    by destruct (readIds _ _ _ _). }
  destruct (Z.eqb_spec operation OperationCode.DESCRIBE_CAPABILITY) as [->|].
  { unfold decodeCapabilityDescriptionRecord, encodeCapabilityDescriptionRecord.
    destruct (tv_type v =? _), (tv_length v =? _); try done.
    cbn [negb orb capabilityClass cd_valueType cd_operationFlags unit_ availability cd_reserved].
    rewrite Z.ltb_antisym.
    by destruct (isKnownCapabilityClass _), (isKnownValueType _), (hasKnownOperationFlags _),
      (isKnownUnitCode _), (_ <=? 1), (_ =? 0). }
  destruct (Z.eqb_spec operation OperationCode.GET_DIAGNOSTICS) as [->|].
  { unfold decodeDiagnosticPageRecord. rewrite !Z.ltb_antisym.
    destruct (tv_type v =? _), (2 <=? _), (_ <=? 17), (_ mod 5 =? 0); try done. cbn [negb orb andb].
    by destruct (_ <=? _), (_ =? _). }
  destruct (Z.eqb_spec operation OperationCode.POLL_EVENTS) as [->|].
  { destruct (tv_type v =? _); [|done]. cbn [negb orb].
    unfold decodeHostEventRecord. by destruct (tv_length v =? _). }
  destruct (Z.eqb_spec operation OperationCode.GET_EVENT_DIAGNOSTICS) as [->|]; [|by destruct (_ || _)].
  destruct (Z.eqb_spec (tv_length v) EVENT_TX_DIAGNOSTICS_SIZE) as [E|E].
  - rewrite orb_true_r. unfold decodeEventTxDiagnostics.
    destruct (tv_type v =? _); [done|]. done.
  - rewrite orb_false_r. unfold decodeEventDiagnosticsRecord.
    by destruct (tv_type v =? _), (tv_length v =? _).
Qed.

End HostRecordFacts.
