(* ===== verification/HostService.v ===== *)
(** The local operations of the Host Protocol, lib/host_operation_service
    (host_operation_service.h and host_device_service.h), with the role
    integration of capabilities, lib/capability_role_integration.  The
    capability handler and what answers whether a capability is available are
    the device's. *)

From S2P Require Import Prelude Wire Capabilities Diagnostics Settings HostFrame HostRecords HostMessages.

(** ** The role integration of capabilities *)

Module CapabilityRoleIntegration.

Import DeviceCapabilities.

(* capability_role_integration.h:10-20 HubSafePointState *)
Record HubSafePointState := mkHubSafe {
  hub_runtimeReady : bool;
  hub_registryValid : bool;
  hub_phase : RuntimeState.RuntimePhase;
  hub_awaitingAcknowledgment : bool;
  hub_retryCount : Z;
  hub_radioEventPending : bool;
  hub_rendering : bool;
  hub_persistencePending : bool;
  hub_transmissionDue : bool
}.

(* capability_role_integration.h:22-32 hubSafe *)
Definition hubSafe (s : HubSafePointState) : bool :=
  hub_runtimeReady s && hub_registryValid s
  && match hub_phase s with RuntimeState.IDLE => true | _ => false end
  && negb (hub_awaitingAcknowledgment s) && (hub_retryCount s =? 0)
  && negb (hub_radioEventPending s) && negb (hub_rendering s) && negb (hub_persistencePending s)
  && negb (hub_transmissionDue s).

(* capability_role_integration.h:34-38 NodeOwnership *)
Inductive NodeOwnership := OWNER_NONE | POST_ACK | QUIET_MAINTENANCE.

(* capability_role_integration.h:40-48 NodeSafePointState *)
Record NodeSafePointState := mkNodeSafe {
  node_runtimeReady : bool;
  node_registryValid : bool;
  node_phase : RuntimeState.RuntimePhase;
  node_ownership : NodeOwnership;
  node_radioStandby : bool;
  node_radioEventPending : bool;
  node_rendering : bool
}.

(* capability_role_integration.h:50-65 nodeSafe *)
Definition nodeSafe (s : NodeSafePointState) : bool :=
  if negb (node_runtimeReady s) || negb (node_registryValid s) || negb (node_radioStandby s)
     || node_radioEventPending s || node_rendering s then false else
  match node_ownership s with
  | POST_ACK => true
  | QUIET_MAINTENANCE => match node_phase s with RuntimeState.LISTENING => true | _ => false end
  | OWNER_NONE => false
  end.

(* capability_role_integration.h:67-75 ledOutputRequested *)
Definition ledOutputRequested (masterEnabled radioActive feedbackActive capabilityRequested : bool)
    : bool :=
  masterEnabled && (radioActive || feedbackActive || capabilityRequested).

(** The runtime state, the capability diagnostics and the device. *)
Definition Local (W : Type) : Type := RuntimeState.State * (CapabilityDiagnosticsSnapshot * W).

(* capability_role_integration.h:77-106 executeLocalCapabilityNow *)
Definition executeLocalCapabilityNow {W} `{LocalCapabilityHandler W} (registryValid : bool)
    (registry : CapabilityRegistryView) (capabilityId operation : Z) (input : CapabilityValue)
    (caller : CallerContext) (interlock : Z) : st (Local W) OperationResult :=
  let invalidRegistry := mkRegistry None 1 in
  result <~ outside (dispatchCapabilityOperationObserved
    (if registryValid then registry else invalidRegistry) capabilityId operation input caller
    interlock) ;;
  modify (λ s : Local W, ((RuntimeState.updateCapabilityDiagnostics s.2.1 s.1).2, s.2)) ;;;
  ret result.

End CapabilityRoleIntegration.

(** ** Versions *)

Module RedlineVersion.

(* redline_version.h:9 FIRMWARE_MAJOR *)
Definition FIRMWARE_MAJOR : Z := 0.

(* redline_version.h:10 FIRMWARE_MINOR *)
Definition FIRMWARE_MINOR : Z := 7.

(* redline_version.h:11 FIRMWARE_PATCH *)
Definition FIRMWARE_PATCH : Z := 0.

(* redline_version.h:13 WIRE_PROTOCOL *)
Definition WIRE_PROTOCOL : Z := Protocol.VERSION.

End RedlineVersion.

Module HostOperationService.

Import HostProtocol HostProtocolRecords HostProtocolMessages.
Import CapabilityRoleIntegration.

(* host_operation_service.h:10-14 Disposition *)
Inductive Disposition := NOT_HANDLED | HANDLED | REJECTED.

(* host_operation_service.h:16-21 = Result *)
Record Result := mkResult {
  disposition : Disposition;
  rejectionCode : Z;
  requestId : Z;
  response : OperationResponse
}.

(** Whether the device knows the capability, and whether it is available. *)
(* host_operation_service.h:23-26 AvailabilityProvider *)
Record AvailabilityProvider := makeAvailabilityProvider { query : option (Z → bool * bool) }.

(** [Result result = {};] with the request's fields. *)
(* host_operation_service.h:35-47 makeBaseResult *)
Definition makeBaseResult (requestId : Z) (request : OperationRequest) : Result :=
  mkResult NOT_HANDLED 0 requestId
    (mkResponse (rq_category request) (rq_operation request) (rq_targetDeviceId request)
       (rq_targetId request) 0 0 setNoneValue).

(* host_operation_service.h:49-62 reject *)
Definition reject (requestId : Z) (request : OperationRequest) (code : Z)
    (responseIsRepresentable : bool) : Result :=
  mkResult (if responseIsRepresentable then HANDLED else REJECTED) code requestId
    (mkResponse (rq_category request) (rq_operation request) (rq_targetDeviceId request)
       (rq_targetId request) ResultClass.REQUEST_REJECTED code setNoneValue).

(** The response with another result and value. *)
Definition withResult (result : Result) (class code : Z) (value : TypedValue) : Result :=
  let r := response result in
  mkResult HANDLED (rejectionCode result) (requestId result)
    (mkResponse (rs_category r) (rs_operation r) (rs_targetDeviceId r) (rs_targetId r)
       class code value).

(* host_operation_service.h:64-72 setOperationResult *)
Definition setOperationResult (result : Result) (status : Z) : Result :=
  withResult result ResultClass.OPERATION_RESULT status setNoneValue.

(** The result is a success that carries what an encoder made of the value, or
    a failure if it made nothing. *)
(* host_device_service.h:220-224 = handleLocalDeviceOrDiagnostic, an encoded record *)
Definition setEncoded (result : Result) (encoded : TypedValue → PayloadResult * TypedValue)
    : Result :=
  let (payload, value) := encoded (rs_value (response result)) in
  if negb (bool_decide (payload = OK))
  then setOperationResult result DeviceCapabilities.OperationStatus.OPERATION_FAILED
  else let r := response result in withResult result (resultClass r) (resultCode r) value.

Section Values.

Import DeviceCapabilities.

(* host_operation_service.h:74-101 hostValueToCapabilityValue *)
Definition hostValueToCapabilityValue (input : TypedValue) : option CapabilityValue :=
  if negb (isValidScalarValue input) then None else
  let type := tv_type input in
  let bits :=
    if type =? ValueType.NONE then 0 else
    if type =? ValueType.BOOLEAN then rd (tv_bytes input) 0 else
    if (type =? ValueType.NORMALIZED_U16) || (type =? ValueType.ENUM_U16)
    then readUint16Le (tv_bytes input) 0 else
    if (type =? ValueType.UNSIGNED_32) || (type =? ValueType.SIGNED_32)
       || (type =? ValueType.FIXED_Q16_16) then readUint32Le (tv_bytes input) 0 else
    0 in
  let candidate := mkValue type (zeros 3) bits in
  if negb (isValidCapabilityValue candidate) then None else Some candidate.

(* host_operation_service.h:103-125 capabilityValueToHostValue *)
Definition capabilityValueToHostValue (input : CapabilityValue) (output : TypedValue)
    : bool * TypedValue :=
  if negb (isValidCapabilityValue input) then (false, output) else
  let type := value_type input in
  if type =? ValueType.NONE then (true, setNoneValue) else
  if type =? ValueType.BOOLEAN then setBooleanValue output (u8 (bits input)) else
  if (type =? ValueType.NORMALIZED_U16) || (type =? ValueType.ENUM_U16)
  then setUint16Value output type (u16 (bits input)) else
  if (type =? ValueType.UNSIGNED_32) || (type =? ValueType.SIGNED_32)
     || (type =? ValueType.FIXED_Q16_16) then setUint32Value output type (bits input) else
  (false, output).

End Values.

(** ** Capabilities *)

Section Capability.

Import DeviceCapabilities.

(** The page from [index], with [left] entries still free; the identifiers so
    far.  [None] if a descriptor cannot be had. *)
(* host_operation_service.h:180-191 = handleLocalCapability, the loop over the registry *)
Fixpoint capabilityPage (registry : CapabilityRegistryView) (left : nat) (index : Z)
    (page : CapabilityPageRecord) : option (Z * CapabilityPageRecord) :=
  match left with
  | O => Some (index, page)
  | S left' =>
      if negb (index <? count registry) then Some (index, page) else
      let (found, descriptor) := getCapabilityByIndex registry index zeroDescriptor in
      if negb found then None else
      capabilityPage registry left' (index + 1)
        (mkCapabilityPage (cp_nextCursor page) (cp_count page + 1)
           (upd (capabilityIds page) (Z.to_nat (cp_count page)) (cap_id descriptor)))
  end.

(** The cursor of a request: its value, or the start. *)
(* host_operation_service.h:169-172 = handleLocalCapability, the cursor *)
Definition requestCursor (request : OperationRequest) : Z :=
  if negb (isNoneValue (rq_value request)) then readUint32Le (tv_bytes (rq_value request)) 0 else 0.

(* host_operation_service.h:162-200 = handleLocalCapability, GET_CAPABILITIES *)
Definition getCapabilities (result : Result) (request : OperationRequest) (registryValid : bool)
    (registry : CapabilityRegistryView) : Result :=
  if negb registryValid || negb (isValidCapabilityRegistry registry)
  then setOperationResult result OperationStatus.INVALID_DESCRIPTOR else
  let cursor := requestCursor request in
  if count registry <? cursor
  then setOperationResult result OperationStatus.VALUE_OUT_OF_RANGE else
  match capabilityPage registry (Z.to_nat MAX_CAPABILITY_PAGE_ENTRIES) (u8 cursor)
          (mkCapabilityPage 0 0 (zeros 9)) with
  | None => setOperationResult result OperationStatus.INVALID_DESCRIPTOR
  | Some (index, page) =>
      let nextCursor := if index =? count registry then CAPABILITY_PAGE_END else index in
      setEncoded (setOperationResult result OperationStatus.OK)
        (encodeCapabilityPageRecord
           (mkCapabilityPage nextCursor (cp_count page) (capabilityIds page)))
  end.

(* host_operation_service.h:203-238 = handleLocalCapability, DESCRIBE_CAPABILITY *)
Definition describeCapability (result : Result) (request : OperationRequest) (registryValid : bool)
    (registry : CapabilityRegistryView) (availability : AvailabilityProvider) : Result :=
  if negb registryValid || negb (isValidCapabilityRegistry registry)
  then setOperationResult result OperationStatus.INVALID_DESCRIPTOR else
  let (found, descriptor) := findCapability registry (rq_targetId request) zeroDescriptor in
  if negb found then setOperationResult result OperationStatus.CAPABILITY_NOT_FOUND else
  let (known, available) :=
    match query availability with Some q => q (cap_id descriptor) | None => (false, false) end in
  if negb known then setOperationResult result OperationStatus.INVALID_DESCRIPTOR else
  setEncoded (setOperationResult result OperationStatus.OK)
    (encodeCapabilityDescriptionRecord
       (mkDescription (DeviceCapabilities.capabilityClass descriptor) (valueType descriptor)
          (operationFlags descriptor) (unitCode descriptor) (if available then 1 else 0) 0)).

(** A SET that the local service does not offer. *)
(* host_operation_service.h:249-262 = handleLocalCapability, SET of what is not an indicator *)
Definition setNotOffered (operation targetId : Z) (registryValid : bool)
    (registry : CapabilityRegistryView) : bool :=
  if (operation =? Operation.SET) && registryValid && isValidCapabilityRegistry registry then
    let (found, descriptor) := findCapability registry targetId zeroDescriptor in
    found && supportsOperation descriptor Operation.SET
    && negb (DeviceCapabilities.capabilityClass descriptor =? CapabilityClass.INDICATOR_OUTPUT)
  else false.

Context {W : Type} `{LocalCapabilityHandler W}.

(* host_operation_service.h:127-279 handleLocalCapability *)
Definition handleLocalCapability (requestId : Z) (request : OperationRequest) (localDeviceId : Z)
    (registryValid : bool) (registry : CapabilityRegistryView) (interlock : Z)
    (availability : AvailabilityProvider) : st (Local W) Result :=
  let validation := validateOperationRequest request in
  if negb (bool_decide (validation = OK)) then
    ret (reject requestId request
      (if bool_decide (validation = UNSUPPORTED_CATEGORY_OPERATION)
       then RequestRejectionCode.UNSUPPORTED_OPERATION else RequestRejectionCode.MALFORMED_REQUEST)
      false) else
  if negb (rq_category request =? OperationCategory.CAPABILITY)
  then ret (makeBaseResult requestId request) else
  if negb (rq_targetDeviceId request =? localDeviceId)
  then ret (reject requestId request RequestRejectionCode.BAD_TARGET true) else
  let result := makeBaseResult requestId request in
  if rq_operation request =? OperationCode.GET_CAPABILITIES
  then ret (getCapabilities result request registryValid registry) else
  if rq_operation request =? OperationCode.DESCRIBE_CAPABILITY
  then ret (describeCapability result request registryValid registry availability) else
  match hostValueToCapabilityValue (rq_value request) with
  | None => ret (reject requestId request RequestRejectionCode.MALFORMED_REQUEST false)
  | Some input =>
      let operation := if rq_operation request =? OperationCode.READ_CAPABILITY
                       then Operation.READ else Operation.SET in
      if setNotOffered operation (rq_targetId request) registryValid registry
      then ret (setOperationResult result OperationStatus.UNSUPPORTED_OPERATION) else
      let caller := mkCaller CallerClass.HOST_LOCAL (zeros 3) in
      operationResult <~ executeLocalCapabilityNow registryValid registry (rq_targetId request)
        operation input caller interlock ;;
      let result := setOperationResult result (result_status operationResult) in
      if (result_status operationResult =? OperationStatus.OK) && (operation =? Operation.READ) then
        let (converted, value) :=
          capabilityValueToHostValue (result_value operationResult) (rs_value (response result)) in
        if negb converted
        then ret (setOperationResult result OperationStatus.OPERATION_FAILED)
        else ret (withResult result ResultClass.OPERATION_RESULT (result_status operationResult) value)
      else ret result
  end.

End Capability.

(** ** The device and its diagnostics *)

(* host_device_service.h:11 DIAGNOSTIC_METRIC_COUNT *)
Definition DIAGNOSTIC_METRIC_COUNT : Z := 10.

(* host_device_service.h:26-35 DeviceSnapshot *)
Record DeviceSnapshot := mkDevice {
  ds_role : RuntimeState.DeviceRole;
  ds_deviceId : Z;
  ds_ready : bool;
  ds_phase : RuntimeState.RuntimePhase;
  ds_health : RuntimeState.Health;
  ds_uptimeSeconds : Z;
  ds_counters : RuntimeState.DiagnosticCounters;
  ds_eventDetails : RuntimeState.EventDetailSnapshot
}.

(* host_device_service.h:37-44 makeDeviceSnapshot *)
Definition makeDeviceSnapshot (state : RuntimeState.State) (uptimeSeconds : Z)
    (eventDetails : RuntimeState.EventDetailSnapshot) : DeviceSnapshot :=
  mkDevice (RuntimeState.role_ state) (RuntimeState.localId_ state) (RuntimeState.ready_ state)
    (RuntimeState.phase_ state) (RuntimeState.health_ state) uptimeSeconds
    (RuntimeState.counters_ state) eventDetails.

(* host_device_service.h:46-50 hostIdentity *)
Definition hostIdentity (i : RuntimeState.EventIdentitySnapshot) : HostEventIdentity :=
  mkHostIdentity (RuntimeState.sourceDeviceId i) (RuntimeState.eventEpoch i) (RuntimeState.eventId i).

(** [static_cast<uint8_t>] of the enumerations of the runtime state. *)
(* runtime_state.h:99-112 = EventDetailState, its values *)
Definition stateCode (s : RuntimeState.EventDetailState) : Z :=
  match s with
  | RuntimeState.EMPTY => 0
  | RuntimeState.QUEUED => 1
  | RuntimeState.DETAIL_READY => 2
  | RuntimeState.TX_PREPARE => 3
  | RuntimeState.DETAIL_TRANSMITTING => 4
  | RuntimeState.WAIT_ADMISSION => 5
  | RuntimeState.BACKOFF => 6
  | RuntimeState.RELEASED => 7
  | RuntimeState.FAILED => 8
  | RuntimeState.EXPIRED => 9
  | RuntimeState.ACTIVE => 10
  | RuntimeState.CONSUMED => 11
  end.

(* runtime_state.h:114-119 = EventProducerKind, its values *)
Definition kindCode (k : RuntimeState.EventProducerKind) : Z :=
  match k with
  | RuntimeState.KIND_NONE => 0
  | RuntimeState.KIND_BUTTON => 1
  | RuntimeState.KIND_SENSOR_THRESHOLD => 2
  | RuntimeState.KIND_MANUAL_CHECK_IN => 3
  end.

(* runtime_state.h:121-128 = EventProducerResult, its values *)
Definition producerResultCode (r : RuntimeState.EventProducerResult) : Z :=
  match r with
  | RuntimeState.PRODUCER_NONE => 0
  | RuntimeState.CREATED => 1
  | RuntimeState.QUEUE_FULL => 2
  | RuntimeState.INVALID_EVENT => 3
  | RuntimeState.STORAGE_FAILURE => 4
  | RuntimeState.SUPPRESSED => 5
  end.

(* host_device_service.h:70-81 = eventDiagnosticsRecord, the flags *)
Definition eventDiagnosticFlags (source : RuntimeState.EventDetailSnapshot) : Z :=
  let flag (set : bool) bit flags := if set then Z.lor flags bit else flags in
  let flags := flag (RuntimeState.waitingForAdmission source) EVENT_DIAGNOSTICS_WAITING_ADMISSION 0 in
  let flags := flag (RuntimeState.waitingForRetry source) EVENT_DIAGNOSTICS_WAITING_RETRY flags in
  let flags := flag (RuntimeState.remainingLifetimeAvailable source)
                 EVENT_DIAGNOSTICS_LIFETIME_AVAILABLE flags in
  let flags := flag (RuntimeState.admissionOrdinalAvailable source)
                 EVENT_DIAGNOSTICS_ORDINAL_AVAILABLE flags in
  let flags := flag (RuntimeState.detailPersistenceDegraded source)
                 EVENT_DIAGNOSTICS_PERSISTENCE_DEGRADED flags in
  flag (RuntimeState.detailHubUnavailable source) EVENT_DIAGNOSTICS_HUB_UNAVAILABLE flags.

(* host_device_service.h:52-102 eventDiagnosticsRecord *)
Definition eventDiagnosticsRecord (snapshot : DeviceSnapshot) : EventDiagnosticsRecord :=
  let source := ds_eventDetails snapshot in
  let c := RuntimeState.detailCounters source in
  let producer := RuntimeState.lastProducer source in
  let bit (b : bool) := if b then 1 else 0 in
  mkEventDiagnostics EVENT_DIAGNOSTICS_SCHEMA
    (match ds_role snapshot with RuntimeState.HUB => DeviceRole.HUB | _ => DeviceRole.NODE end)
    (RuntimeState.custodyCount source) (RuntimeState.detailCapacity source)
    (RuntimeState.detailActiveCount source) (RuntimeState.consumedCount source)
    (bit (RuntimeState.recordAvailable source)) (stateCode (RuntimeState.detailState source))
    (hostIdentity (RuntimeState.detailIdentity source)) (RuntimeState.family source)
    (RuntimeState.attemptsUsed source) (RuntimeState.attemptsMaximum source)
    (eventDiagnosticFlags source) (RuntimeState.remainingLifetimeSeconds source)
    (RuntimeState.admissionOrdinal source) (bit (RuntimeState.recentAdmissionAvailable source))
    (hostIdentity (RuntimeState.recentAdmission source))
    (kindCode (RuntimeState.kind producer)) (producerResultCode (RuntimeState.result producer))
    (bit (RuntimeState.identityAvailable producer)) (hostIdentity (RuntimeState.identity producer))
    [RuntimeState.enqueueAccepted c; RuntimeState.queueFullRejected c;
     RuntimeState.persistenceFailures c; RuntimeState.eventsRecovered c;
     RuntimeState.storageCorruptions c; RuntimeState.eventAttempts c; RuntimeState.eventsExpired c;
     RuntimeState.attemptsExhausted c; RuntimeState.hubCapacityRejections c;
     RuntimeState.identityContentMismatches c; RuntimeState.duplicateRetransmissions c;
     RuntimeState.successfulAdmissions c; RuntimeState.admissionsAcknowledged c;
     RuntimeState.hostPollsReturnedEvent c; RuntimeState.hostConsumptions c].

(* host_device_service.h:104-117 mapRole *)
Definition mapRole (role : RuntimeState.DeviceRole) : Z :=
  match role with RuntimeState.HUB => DeviceRole.HUB | RuntimeState.NODE => DeviceRole.NODE end.

(* host_device_service.h:119-121 saturateUint16 *)
Definition saturateUint16 (value : Z) : Z := if UINT16_MAX <? value then UINT16_MAX else u16 value.

(* host_device_service.h:123-129 isTransactionActive *)
Definition isTransactionActive (phase : RuntimeState.RuntimePhase) : bool :=
  match phase with
  | RuntimeState.TRANSMITTING | RuntimeState.WAITING_FOR_ACK | RuntimeState.TRANSMITTING_ACK
  | RuntimeState.WAITING_FOR_RESPONSE | RuntimeState.TRANSMITTING_RESPONSE => true
  | _ => false
  end.

(* host_device_service.h:131-147 statusFlags *)
Definition deviceStatusFlags (s : DeviceSnapshot) : Z :=
  let flags := 0 in
  let flags := if ds_ready s then Z.lor (Z.lor flags STATUS_READY) STATUS_RADIO_OPERATIONAL
               else flags in
  let flags := if isTransactionActive (ds_phase s) then Z.lor flags STATUS_TRANSACTION_ACTIVE
               else flags in
  let flags := match ds_health s with
               | RuntimeState.DEGRADED => Z.lor flags STATUS_DEGRADED | _ => flags end in
  match ds_health s with RuntimeState.HEALTH_ERROR => Z.lor flags STATUS_ERROR | _ => flags end.

(* host_device_service.h:149-166 diagnosticMetricValue *)
Definition diagnosticMetricValue (c : RuntimeState.DiagnosticCounters) (index : Z) : Z :=
  if index =? 0 then RuntimeState.transmissionsCompleted c else
  if index =? 1 then RuntimeState.decodedPacketsReceived c else
  if index =? 2 then RuntimeState.successfulTransactions c else
  if index =? 3 then RuntimeState.acceptedCommands c else
  if index =? 4 then RuntimeState.retransmissions c else
  if index =? 5 then RuntimeState.acknowledgmentTimeouts c else
  if index =? 6 then RuntimeState.duplicates c else
  if index =? 7 then RuntimeState.malformedPackets c else
  if index =? 8 then RuntimeState.ignoredPackets c else
  if index =? 9 then RuntimeState.radioErrors c else
  0.

(** The page from [index], with [left] entries still free. *)
(* host_device_service.h:269-276 = handleLocalDeviceOrDiagnostic, the loop over the metrics *)
Fixpoint diagnosticPage (c : RuntimeState.DiagnosticCounters) (left : nat) (index : Z)
    (page : DiagnosticPageRecord) : Z * DiagnosticPageRecord :=
  match left with
  | O => (index, page)
  | S left' =>
      if negb (index <? DIAGNOSTIC_METRIC_COUNT) then (index, page) else
      diagnosticPage c left' (index + 1)
        (mkDiagnosticPage (dp_nextCursor page) (dp_count page + 1)
           (<[Z.to_nat (dp_count page) := mkEntry (u8 (index + 1)) (diagnosticMetricValue c index)]>
              (dp_entries page)))
  end.

(* host_device_service.h:258-284 = handleLocalDeviceOrDiagnostic, GET_DIAGNOSTICS *)
Definition getDiagnostics (result : Result) (request : OperationRequest) (snapshot : DeviceSnapshot)
    : Result :=
  let cursor := requestCursor request in
  if DIAGNOSTIC_METRIC_COUNT <? cursor
  then setOperationResult result DeviceCapabilities.OperationStatus.VALUE_OUT_OF_RANGE else
  let (index, page) :=
    diagnosticPage (ds_counters snapshot) (Z.to_nat MAX_DIAGNOSTIC_PAGE_ENTRIES) (u8 cursor)
      (mkDiagnosticPage 0 0 (replicate 3 (mkEntry 0 0))) in
  let nextCursor := if index =? DIAGNOSTIC_METRIC_COUNT then DIAGNOSTIC_PAGE_END else index in
  setEncoded result
    (encodeDiagnosticPageRecord (mkDiagnosticPage nextCursor (dp_count page) (dp_entries page))).

(* host_device_service.h:210-219 = handleLocalDeviceOrDiagnostic, GET_DEVICE_INFO *)
Definition deviceInfoRecord (snapshot : DeviceSnapshot) : DeviceInfoRecord :=
  mkDeviceInfo RedlineVersion.FIRMWARE_MAJOR RedlineVersion.FIRMWARE_MINOR
    RedlineVersion.FIRMWARE_PATCH RedlineVersion.WIRE_PROTOCOL (u8 DeviceSettings.SCHEMA_VERSION)
    HardwareProfile.HELTEC_V4 (mapRole (ds_role snapshot)) (ds_deviceId snapshot).

(* host_device_service.h:228-233 = handleLocalDeviceOrDiagnostic, GET_STATUS *)
Definition statusRecord (snapshot : DeviceSnapshot) : StatusRecord :=
  mkStatus (deviceStatusFlags snapshot) (ds_uptimeSeconds snapshot)
    (saturateUint16 (RuntimeState.retransmissions (ds_counters snapshot)))
    (saturateUint16 (RuntimeState.acknowledgmentTimeouts (ds_counters snapshot))).

(* host_device_service.h:168-285 handleLocalDeviceOrDiagnostic *)
Definition handleLocalDeviceOrDiagnostic (requestId : Z) (request : OperationRequest)
    (snapshot : DeviceSnapshot) (requestMinor : Z) : Result :=
  let validation := validateOperationRequestM requestMinor request in
  if negb (bool_decide (validation = OK)) then
    reject requestId request
      (if bool_decide (validation = UNSUPPORTED_CATEGORY_OPERATION)
       then RequestRejectionCode.UNSUPPORTED_OPERATION else RequestRejectionCode.MALFORMED_REQUEST)
      false else
  if negb (rq_category request =? OperationCategory.DEVICE)
     && negb (rq_category request =? OperationCategory.DIAGNOSTIC)
  then makeBaseResult requestId request else
  if negb (rq_targetDeviceId request =? ds_deviceId snapshot)
  then reject requestId request RequestRejectionCode.BAD_TARGET true else
  let result :=
    setOperationResult (makeBaseResult requestId request) DeviceCapabilities.OperationStatus.OK in
  let r := response result in
  let operation := rq_operation request in
  if operation =? OperationCode.PING then
    withResult result (resultClass r) (resultCode r)
      (setUint32Value (rs_value r) DeviceCapabilities.ValueType.UNSIGNED_32
         (ds_uptimeSeconds snapshot)).2 else
  if operation =? OperationCode.GET_DEVICE_INFO
  then setEncoded result (encodeDeviceInfoRecord (deviceInfoRecord snapshot)) else
  if operation =? OperationCode.GET_STATUS
  then setEncoded result (encodeStatusRecord (statusRecord snapshot)) else
  if operation =? OperationCode.GET_EVENT_DIAGNOSTICS then
    if negb (isNoneValue (rq_value request))
    then setEncoded result (encodeEventTxDiagnostics (mapRole (ds_role snapshot))
           (RuntimeState.txLifecycle (ds_eventDetails snapshot)))
    else setEncoded result (encodeEventDiagnosticsRecord (eventDiagnosticsRecord snapshot)) else
  getDiagnostics result request snapshot.

(* host_device_service.h:287-307 handleLocalOperation *)
Definition handleLocalOperation {W} `{DeviceCapabilities.LocalCapabilityHandler W} (requestId : Z)
    (request : OperationRequest) (snapshot : DeviceSnapshot) (registryValid : bool)
    (registry : DeviceCapabilities.CapabilityRegistryView) (interlock : Z)
    (availability : AvailabilityProvider) (requestMinor : Z) : st (Local W) Result :=
  if rq_category request =? OperationCategory.CAPABILITY
  then handleLocalCapability requestId request (ds_deviceId snapshot) registryValid registry
         interlock availability
  else ret (handleLocalDeviceOrDiagnostic requestId request snapshot requestMinor).

(** ** Hello *)

(* host_device_service.h:309-312 HelloDisposition *)
Inductive HelloDisposition := RESPONSE | PROTOCOL_ERROR.

(* host_device_service.h:314-319 HelloResult *)
Record HelloResult := mkHelloResult {
  hello_disposition : HelloDisposition;
  hello_requestId : Z;
  hello_response : HelloResponse;
  hello_error : ProtocolError
}.

Definition zeroHelloResponse : HelloResponse := mkHelloResponse 0 0 0 0 0 0 0 0 0 0 0 0 0 0.

(** The answer of an error. *)
(* host_device_service.h:331-338 = handleHello, an error *)
Definition helloError (requestId code : Z) : HelloResult :=
  mkHelloResult PROTOCOL_ERROR requestId zeroHelloResponse
    (mkProtocolError code MessageType.HELLO_REQUEST 0).

(* host_device_service.h:321-387 handleHello *)
Definition handleHelloM (requestId envelopeMajor envelopeMinor : Z) (request : HelloRequest)
    (snapshot : DeviceSnapshot) (radioStructuredBridge eventServiceAvailable : bool) : HelloResult :=
  if negb (envelopeMajor =? VERSION_MAJOR)
  then helloError requestId ProtocolErrorCode.UNSUPPORTED_MAJOR else
  if negb (isValidHelloMinorRangeM envelopeMinor (minimumMinor request) (maximumMinor request))
  then helloError requestId ProtocolErrorCode.UNSUPPORTED_MINOR else
  match selectHighestSupportedMinor (minimumMinor request) (maximumMinor request) with
  | None => helloError requestId ProtocolErrorCode.UNSUPPORTED_MINOR
  | Some minor =>
      let categories :=
        Z.lor (Z.lor CATEGORY_DEVICE_BIT CATEGORY_CAPABILITY_BIT) CATEGORY_DIAGNOSTIC_BIT in
      let features := FEATURE_LOCAL_OPERATIONS in
      let features := if radioStructuredBridge then Z.lor features FEATURE_RADIO_BRIDGE
                      else features in
      let events :=
        (minor =? VERSION_MINOR_0_2)
        && match ds_role snapshot with RuntimeState.HUB => true | _ => false end
        && eventServiceAvailable in
      mkHelloResult RESPONSE requestId
        (mkHelloResponse minor RedlineVersion.FIRMWARE_MAJOR RedlineVersion.FIRMWARE_MINOR
           RedlineVersion.FIRMWARE_PATCH RedlineVersion.WIRE_PROTOCOL
           (u8 DeviceSettings.SCHEMA_VERSION) HardwareProfile.HELTEC_V4
           (mapRole (ds_role snapshot)) (ds_deviceId snapshot) (Z.of_nat MAX_PAYLOAD_SIZE)
           (if events then Z.lor categories CATEGORY_EVENT_BIT else categories)
           (if events then Z.lor features FEATURE_EVENT_SERVICE else features)
           MAX_OUTSTANDING_OPERATIONS HELLO_RESERVED_VALUE)
        (mkProtocolError 0 MessageType.HELLO_REQUEST 0)
  end.

(* host_device_service.h:389-394 handleHello#2 *)
Definition handleHello (requestId envelopeMajor : Z) (request : HelloRequest)
    (snapshot : DeviceSnapshot) (radioStructuredBridge : bool) : HelloResult :=
  handleHelloM requestId envelopeMajor VERSION_MINOR_0_1 request snapshot radioStructuredBridge
    false.

End HostOperationService.
