(* ===== verification/HostServiceFacts.v ===== *)
(** Every valid local request is answered, by a response the host can decode,
    and the pages of capabilities and of diagnostics enumerate the registry
    and the counters. *)

From S2P Require Import Prelude Wire Capabilities CapabilityFacts Diagnostics Settings HostFrame HostRecords HostMessages HostMessageFacts HostRecordFacts HostService.

Module HostServiceFacts.

Import DeviceCapabilities CapabilityFacts HostProtocol HostProtocolRecords HostProtocolMessages.
Import HostMessageFacts HostRecordFacts HostOperationService CapabilityRoleIntegration.

(** ** Answers *)

(** A result that answers the request with this class, code and value. *)
Definition answers (requestId : Z) (request : OperationRequest) (result : Result)
    (class code : Z) (value : TypedValue) : Prop :=
  HostOperationService.requestId result = requestId
  ∧ response result = mkResponse (rq_category request) (rq_operation request)
      (rq_targetDeviceId request) (rq_targetId request) class code value.

Lemma answers_base id request : answers id request (makeBaseResult id request) 0 0 setNoneValue.
Proof. done. Qed.

Lemma answers_with id request result class code value class' code' value' :
  answers id request result class code value →
  answers id request (withResult result class' code' value') class' code' value'.
Proof. intros [H1 H2]. unfold withResult. split; [done|]. cbn [response]. by rewrite H2. Qed.

Lemma answers_status id request result class code value status :
  answers id request result class code value →
  answers id request (setOperationResult result status) ResultClass.OPERATION_RESULT status
    setNoneValue.
Proof. apply answers_with. Qed.

Lemma answers_reject id request code b :
  answers id request (reject id request code b) ResultClass.REQUEST_REJECTED code setNoneValue.
Proof. done. Qed.

(** The value a response may carry in this minor version. *)
Definition sendable (minor : Z) (request : OperationRequest) (class code : Z) (value : TypedValue)
    : Prop :=
  is_u8 class ∧ is_u8 code ∧ value_wf value ∧ value_clear value
  ∧ validateOperationResponseM minor
      (mkResponse (rq_category request) (rq_operation request) (rq_targetDeviceId request)
         (rq_targetId request) class code value) = OK.

(** A response that can be sent. *)
Definition good (minor id : Z) (request : OperationRequest) (result : Result) : Prop :=
  disposition result = HANDLED
  ∧ ∃ class code value, answers id request result class code value
    ∧ sendable minor request class code value.

Lemma good_encodes minor id request result out :
  request_wf request → good minor id request result → (MAX_PAYLOAD_SIZE ≤ length out)%nat →
  ∃ b, encodeOperationResponseM minor (response result) (Some out) (Z.of_nat (length out))
       = (OK, Some (b ++ drop (length b) out), Z.of_nat (length b)).
Proof.
  intros (? & ? & ? & ? & _) (_ & class & code & value & [_ Hr] & ? & ? & ? & ? & Hv) Hout.
  rewrite Hr. eexists. by apply encodeOperationResponse_spec.
Qed.

Lemma none_wf : value_wf setNoneValue ∧ value_clear setNoneValue.
Proof.
  split; [split_and!; try done|by split]. cbn [setNoneValue tv_bytes]. apply zeros_byte.
Qed.

(** ** Valid requests *)

Lemma valid_request minor request :
  validateOperationRequestM minor request = OK →
  classifyCategoryOperationM minor (rq_category request) (rq_operation request) = VALID
  ∧ isValidOperationTarget (rq_category request) (rq_operation request) (rq_targetId request) = true.
Proof.
  unfold validateOperationRequestM.
  destruct (classifyCategoryOperationM _ _ _);
    [|by rewrite bool_decide_eq_true_2 by done; case_match
     |by rewrite bool_decide_eq_false_2, bool_decide_eq_true_2 by done].
  rewrite !bool_decide_eq_false_2 by done. by destruct (isValidOperationTarget _ _ _).
Qed.

(** A request of a capability is judged alike in every minor version. *)
Lemma classify_capability minor operation :
  classifyCategoryOperationM minor OperationCategory.CAPABILITY operation = VALID ↔
  one_of operation [OperationCode.GET_CAPABILITIES; OperationCode.DESCRIBE_CAPABILITY;
    OperationCode.READ_CAPABILITY; OperationCode.SET_INDICATOR] = true.
Proof.
  unfold classifyCategoryOperationM, isKnownOperationCodeM, isSupportedCategoryOperationM,
    isKnownOperationCategoryM, isKnownOperationCodeM.
  change (isKnownOperationCategory OperationCategory.CAPABILITY) with true.
  change (OperationCategory.CAPABILITY =? OperationCategory.EVENT) with false.
  change (OperationCategory.CAPABILITY =? OperationCategory.DIAGNOSTIC) with false.
  rewrite !andb_false_r. cbn [orb negb andb]. split.
  - destruct (negb _); [done|].
    destruct (_ && isSupportedCategoryOperation _ _) eqn:E; [intros _|done].
    apply andb_true_iff in E as [_ E]. revert E. unfold isSupportedCategoryOperation, one_of.
    which_operation. cbn [existsb]. by rewrite orb_false_r, !orb_assoc.
  - intros Ho. by switch_cases Ho.
Qed.

Lemma validate_capability minor request :
  rq_category request = OperationCategory.CAPABILITY → validateOperationRequestM minor request = OK →
  validateOperationRequest request = OK
  ∧ one_of (rq_operation request) [OperationCode.GET_CAPABILITIES; OperationCode.DESCRIBE_CAPABILITY;
      OperationCode.READ_CAPABILITY; OperationCode.SET_INDICATOR] = true
  ∧ isValidScalarValue (rq_value request) = true.
Proof.
  intros Hc Hv. destruct (valid_request _ _ Hv) as [Hk Ht]. rewrite Hc in Hk.
  apply classify_capability in Hk as Ho. split; [|split; [done|]].
  - unfold validateOperationRequest, validateOperationRequestM in *. rewrite Hc in *.
    rewrite Hk in Hv. rewrite (proj2 (classify_capability VERSION_MINOR_0_1 _) Ho).
    rewrite !bool_decide_eq_false_2 in Hv |- * by done. exact Hv.
  - revert Hv. unfold validateOperationRequestM. rewrite Hc, Hk. rewrite Hc in Ht. rewrite Ht.
    rewrite !bool_decide_eq_false_2 by done. which_operation. cbn [negb andb].
    destruct (isValidOperationRequestValue _ _) eqn:Hval; [intros _|done]. revert Hval.
    unfold isValidOperationRequestValue.
    unfold one_of. cbn [existsb].
    switch_cases Ho; which_operation; cbn [orb]; rewrite ?orb_true_iff, ?andb_true_iff;
      intros; destruct_and?; destruct_or?; destruct_and?; auto using none_scalar.
Qed.

(** ** What may be sent *)

Section Sendable.

Context (minor : Z) (request : OperationRequest).
Context (Hvalid : classifyCategoryOperationM minor (rq_category request) (rq_operation request)
  = VALID).
Context (Htarget : isValidOperationTarget (rq_category request) (rq_operation request)
  (rq_targetId request) = true).

Lemma rejection_sendable code :
  isValidResultCode ResultClass.REQUEST_REJECTED code = true →
  sendable minor request ResultClass.REQUEST_REJECTED code setNoneValue.
Proof.
  intros Hc. pose proof none_wf as [? ?].
  assert (is_u8 code) by (unfold isValidResultCode in Hc; cbn [Z.eqb] in Hc; by switch_cases Hc).
  split_and!; [done..|]. unfold validateOperationResponseM, validateEventResponse.
  cbn [rs_category rs_operation rs_targetId resultClass resultCode rs_value].
  rewrite Hvalid, Htarget, Hc. change (isNoneValue setNoneValue) with true.
  unfold isKnownResultClassM. change (isKnownResultClass _) with true.
  rewrite !bool_decide_eq_false_2 by done. cbn [negb orb].
  change (ResultClass.REQUEST_REJECTED =? ResultClass.EVENT_RESULT) with false.
  change (ResultClass.REQUEST_REJECTED =? ResultClass.SUCCESS) with false.
  change (ResultClass.REQUEST_REJECTED =? ResultClass.REQUEST_REJECTED) with true.
  change (ResultClass.REQUEST_REJECTED =? ResultClass.OPERATION_RESULT) with false.
  cbn [orb andb]. by destruct (rq_category request =? _).
Qed.

Context (Hcategory : rq_category request ≠ OperationCategory.EVENT).

Lemma result_sendable status value :
  isKnownOperationStatus status = true → value_wf value → value_clear value →
  (if status =? OperationStatus.OK
   then isValidSuccessfulOperationValue (rq_operation request) value else isNoneValue value) = true →
  sendable minor request ResultClass.OPERATION_RESULT status value.
Proof.
  intros Hc Hw Hcl Hv. assert (is_u8 status) by (by switch_cases Hc).
  split_and!; [done..|]. unfold validateOperationResponseM.
  cbn [rs_category rs_operation rs_targetId resultClass resultCode rs_value].
  rewrite Hvalid, Htarget. unfold isKnownResultClassM, isValidResultCode.
  change (isKnownResultClass ResultClass.OPERATION_RESULT) with true.
  change (ResultClass.OPERATION_RESULT =? ResultClass.SUCCESS) with false.
  change (ResultClass.OPERATION_RESULT =? ResultClass.REQUEST_REJECTED) with false.
  change (ResultClass.OPERATION_RESULT =? ResultClass.OPERATION_RESULT) with true.
  change (ResultClass.OPERATION_RESULT =? ResultClass.EVENT_RESULT) with false.
  rewrite Hc, (proj2 (Z.eqb_neq _ _) Hcategory). rewrite !bool_decide_eq_false_2 by done. cbn [negb orb andb].
  destruct (status =? OperationStatus.OK); by rewrite Hv.
Qed.

Lemma status_sendable status :
  isKnownOperationStatus status = true → status ≠ OperationStatus.OK →
  sendable minor request ResultClass.OPERATION_RESULT status setNoneValue.
Proof.
  intros Hk Hs. pose proof none_wf as [? ?]. apply result_sendable; [done..|].
  by rewrite (proj2 (Z.eqb_neq _ _) Hs).
Qed.

(** Structures are carried by successes. *)
Lemma structure_success value :
  isValidStructureValue (rq_operation request) value = true →
  isValidSuccessfulOperationValue (rq_operation request) value = true.
Proof.
  intros Hv. pose proof (structure_operation _ _ Hv) as Ho.
  unfold isValidSuccessfulOperationValue. revert Hv Hvalid.
  switch_cases Ho; intros Hv Hk; try exact Hv.
  revert Hk. unfold classifyCategoryOperationM, isKnownOperationCodeM, isSupportedCategoryOperationM.
  rewrite (proj2 (Z.eqb_neq _ _) Hcategory), !andb_false_r.
  destruct (_ || _); [done|]. cbn [andb].
  assert (isSupportedCategoryOperation (rq_category request) OperationCode.POLL_EVENTS = false) as ->
    by (unfold isSupportedCategoryOperation; by repeat case_match).
  by rewrite andb_false_r.
Qed.

(** The success that carries an encoded record, or the failure to encode it. *)
Lemma encoded_good {R} `{StructureCodec R} id (r : R) encoder result :
  encodeRecord r = encoder → carrier = rq_operation request → record_wf r →
  answers id request result ResultClass.OPERATION_RESULT OperationStatus.OK setNoneValue →
  good minor id request (setEncoded result encoder).
Proof.
  intros <- Hcar Hw Ha. unfold setEncoded. pose proof Ha as [Hid Hr]. rewrite Hr.
  cbn [rs_value resultClass resultCode].
  destruct (encodeRecord r setNoneValue) as [payload value] eqn:He.
  destruct (bool_decide_reflect (payload = OK)) as [->|]; cbn [negb]; (split; [done|]).
  - eexists _, _, _. split; [by eapply answers_with|].
    destruct (codec_value r value Hw He) as [? ?].
    apply result_sendable; [done..|]. change (OperationStatus.OK =? OperationStatus.OK) with true.
    cbv beta iota. pose proof (codec_valid r value Hw He) as Hval. rewrite Hcar in Hval.
    by apply structure_success.
  - eexists _, _, _. split; [by eapply answers_status|]. by apply status_sendable.
Qed.

End Sendable.

(** ** The bytes of a snapshot *)

Definition identity_snapshot_wf (i : RuntimeState.EventIdentitySnapshot) : Prop :=
  is_u8 (RuntimeState.sourceDeviceId i) ∧ is_u32 (RuntimeState.eventEpoch i)
  ∧ is_u32 (RuntimeState.eventId i).

Definition event_counters (c : RuntimeState.EventDiagnosticCounters) : list Z :=
  [RuntimeState.enqueueAccepted c; RuntimeState.queueFullRejected c;
   RuntimeState.persistenceFailures c; RuntimeState.eventsRecovered c;
   RuntimeState.storageCorruptions c; RuntimeState.eventAttempts c; RuntimeState.eventsExpired c;
   RuntimeState.attemptsExhausted c; RuntimeState.hubCapacityRejections c;
   RuntimeState.identityContentMismatches c; RuntimeState.duplicateRetransmissions c;
   RuntimeState.successfulAdmissions c; RuntimeState.admissionsAcknowledged c;
   RuntimeState.hostPollsReturnedEvent c; RuntimeState.hostConsumptions c].

Definition tx_wf (s : EventTxDiagnostics.Snapshot) : Prop := ∀ role, is_u8 role → record_wf (role, s).

Record detail_wf (e : RuntimeState.EventDetailSnapshot) : Prop := {
  detail_tx : tx_wf (RuntimeState.txLifecycle e);
  detail_custody : is_u8 (RuntimeState.custodyCount e);
  detail_capacity : is_u8 (RuntimeState.detailCapacity e);
  detail_active : is_u8 (RuntimeState.detailActiveCount e);
  detail_consumed : is_u8 (RuntimeState.consumedCount e);
  detail_identity : identity_snapshot_wf (RuntimeState.detailIdentity e);
  detail_family : is_u8 (RuntimeState.family e);
  detail_used : is_u8 (RuntimeState.attemptsUsed e);
  detail_maximum : is_u8 (RuntimeState.attemptsMaximum e);
  detail_lifetime : is_u32 (RuntimeState.remainingLifetimeSeconds e);
  detail_ordinal : is_u32 (RuntimeState.admissionOrdinal e);
  detail_recent : identity_snapshot_wf (RuntimeState.recentAdmission e);
  detail_producer : identity_snapshot_wf (RuntimeState.identity (RuntimeState.lastProducer e));
  detail_counters : Forall is_u32 (event_counters (RuntimeState.detailCounters e))
}.

Definition counters_wf (c : RuntimeState.DiagnosticCounters) : Prop :=
  ∀ index, is_u32 (diagnosticMetricValue c index).

Record snapshot_wf (s : DeviceSnapshot) : Prop := {
  snapshot_device : is_u8 (ds_deviceId s);
  snapshot_uptime : is_u32 (ds_uptimeSeconds s);
  snapshot_counters : counters_wf (ds_counters s);
  snapshot_details : detail_wf (ds_eventDetails s)
}.

Lemma mapRole_u8 role : is_u8 (mapRole role).
Proof. by destruct role. Qed.

Lemma deviceInfo_wf s : snapshot_wf s → record_wf (deviceInfoRecord s).
Proof. intros [? ? ? ?]. split_and!; try done. apply mapRole_u8. Qed.

Lemma status_wf s : snapshot_wf s → record_wf (statusRecord s).
Proof.
  intros [? ? Hc ?]. split_and!; cbn [statusRecord HostProtocolRecords.statusFlags uptimeSeconds
    retryCount timeoutCount]; [|done| |].
  - unfold deviceStatusFlags. by destruct (ds_ready s), (ds_phase s), (ds_health s).
  - unfold saturateUint16. case_match; [done|apply u16_range].
  - unfold saturateUint16. case_match; [done|apply u16_range].
Qed.

Lemma diagnosticFlags_u8 e : is_u8 (eventDiagnosticFlags e).
Proof.
  unfold eventDiagnosticFlags.
  by destruct (RuntimeState.waitingForAdmission e), (RuntimeState.waitingForRetry e),
    (RuntimeState.remainingLifetimeAvailable e), (RuntimeState.admissionOrdinalAvailable e),
    (RuntimeState.detailPersistenceDegraded e), (RuntimeState.detailHubUnavailable e).
Qed.

Lemma eventDiagnostics_wf s : snapshot_wf s → record_wf (eventDiagnosticsRecord s).
Proof.
  intros [_ _ _ []]. split_and!; try done; try apply diagnosticFlags_u8.
  - cbn. by destruct (ds_role s).
  - cbn. by destruct (RuntimeState.recordAvailable _).
  - cbn. by destruct (RuntimeState.detailState _).
  - cbn. by destruct (RuntimeState.recentAdmissionAvailable _).
  - cbn. by destruct (RuntimeState.kind _).
  - cbn. by destruct (RuntimeState.result _).
  - cbn. by destruct (RuntimeState.identityAvailable _).
Qed.

(** ** Pages *)

(** Entries [index .. index + n) of the registry or of the metrics. *)
Definition ids_from (registry : CapabilityRegistryView) (index n : nat) : list Z :=
  map cap_id (map (descriptor_at registry) (seq index n)).

Definition metric_entry (c : RuntimeState.DiagnosticCounters) (index : nat) : DiagnosticEntry :=
  mkEntry (Z.of_nat index + 1) (diagnosticMetricValue c (Z.of_nat index)).

Lemma upd_app_end (p rest : list Z) x y :
  upd (p ++ x :: rest) (length p) y = (p ++ [y]) ++ rest.
Proof.
  unfold upd. rewrite insert_app_r_alt by lia. rewrite Nat.sub_diag. by rewrite <- app_assoc.
Qed.

(** The page the loop makes. *)
Lemma capabilityPage_spec registry left : ∀ (index n : nat) next p,
  isValidCapabilityRegistry registry = true →
  (index ≤ Z.to_nat (count registry))%nat → length p = n → (n + left = 9)%nat →
  let taken := Nat.min left (Z.to_nat (count registry) - index) in
  capabilityPage registry left (Z.of_nat index)
    (mkCapabilityPage next (Z.of_nat n) (p ++ zeros left))
  = Some (Z.of_nat (index + taken),
      mkCapabilityPage next (Z.of_nat (n + taken))
        ((p ++ ids_from registry index taken) ++ zeros (left - taken))).
Proof.
  induction left as [|left IH]; intros index n next p Hr Hi Hp Hn taken; cbn [capabilityPage].
  { unfold taken. cbn [Nat.min]. rewrite !Nat.add_0_r. unfold ids_from. cbn [seq map].
    by rewrite <- app_assoc. }
  destruct (Z.ltb_spec (Z.of_nat index) (count registry)) as [Hlt|Hge]; cbn [negb].
  - unfold getCapabilityByIndex. rewrite Hr, (proj2 (Z.leb_gt _ _)) by lia. cbn [negb orb].
    cbn [cp_nextCursor cp_count capabilityIds]. rewrite !Nat2Z.id. unfold zeros at 1.
    cbn [replicate]. rewrite <- Hp at 2. rewrite upd_app_end. fold (zeros left).
    replace (Z.of_nat index + 1) with (Z.of_nat (S index)) by lia.
    replace (Z.of_nat n + 1) with (Z.of_nat (S n)) by lia.
    rewrite (IH (S index) (S n) next) by (rewrite ?length_app; cbn [length]; lia || done).
    subst taken. replace (Nat.min (S left) (Z.to_nat (count registry) - index))
      with (S (Nat.min left (Z.to_nat (count registry) - S index))) by lia.
    set (k := Nat.min left _). cbn [Nat.sub].
    replace (S index + k)%nat with (index + S k)%nat by lia.
    replace (S n + k)%nat with (n + S k)%nat by lia.
    unfold ids_from. cbn [seq map]. by rewrite <- !app_assoc.
  - subst taken. replace (Z.to_nat (count registry) - index)%nat with 0%nat by lia.
    rewrite Nat.min_0_r, !Nat.add_0_r, Nat.sub_0_r. unfold ids_from. cbn [seq map].
    by rewrite <- app_assoc.
Qed.

Lemma insert_app_end {A} (p rest : list A) x y :
  <[length p := y]> (p ++ x :: rest) = (p ++ [y]) ++ rest.
Proof. rewrite insert_app_r_alt by lia. rewrite Nat.sub_diag. by rewrite <- app_assoc. Qed.

Lemma diagnosticPage_spec c left : ∀ (index n : nat) next p,
  (index ≤ 10)%nat → length p = n → (n + left = 3)%nat →
  let taken := Nat.min left (10 - index) in
  diagnosticPage c left (Z.of_nat index)
    (mkDiagnosticPage next (Z.of_nat n) (p ++ replicate left (mkEntry 0 0)))
  = (Z.of_nat (index + taken),
     mkDiagnosticPage next (Z.of_nat (n + taken))
       ((p ++ map (metric_entry c) (seq index taken)) ++ replicate (left - taken) (mkEntry 0 0))).
Proof.
  induction left as [|left IH]; intros index n next p Hi Hp Hn taken; cbn [diagnosticPage].
  { unfold taken. cbn [Nat.min]. rewrite !Nat.add_0_r. cbn [seq map]. by rewrite <- app_assoc. }
  unfold DIAGNOSTIC_METRIC_COUNT.
  destruct (Z.ltb_spec (Z.of_nat index) 10) as [Hlt|Hge]; cbn [negb].
  - cbn [dp_nextCursor dp_count dp_entries replicate]. rewrite Nat2Z.id. rewrite <- Hp at 2.
    rewrite insert_app_end. rewrite wrap_small by (uint_unfold; lia).
    replace (Z.of_nat index + 1) with (Z.of_nat (S index)) at 1 by lia.
    replace (Z.of_nat n + 1) with (Z.of_nat (S n)) by lia.
    rewrite (IH (S index) (S n) next) by (rewrite ?length_app; cbn [length]; lia).
    subst taken. replace (Nat.min (S left) (10 - index))
      with (S (Nat.min left (10 - S index))) by lia.
    set (k := Nat.min left _). cbn [Nat.sub].
    replace (S index + k)%nat with (index + S k)%nat by lia.
    replace (S n + k)%nat with (n + S k)%nat by lia.
    cbn [seq map]. by rewrite <- !app_assoc.
  - subst taken. replace (10 - index)%nat with 0%nat by lia.
    rewrite Nat.min_0_r, !Nat.add_0_r, Nat.sub_0_r. cbn [seq map]. by rewrite <- app_assoc.
Qed.

(** ** The services *)

Definition descriptor_bytes (d : CapabilityDescriptor) : Prop :=
  is_u16 (cap_id d) ∧ is_u8 (operationFlags d).

(** A registry is a table of descriptors whose count is a byte. *)
Definition registry_wf (r : CapabilityRegistryView) : Prop :=
  is_u8 (count r) ∧ Forall descriptor_bytes (entries r).

Lemma registry_count r : isValidCapabilityRegistry r = true → count r ≤ 16.
Proof.
  unfold isValidCapabilityRegistry, MAX_CAPABILITIES. by destruct (Z.ltb_spec 16 (count r)).
Qed.

Lemma ids_from_u16 r index n :
  registry_wf r → (index + n ≤ Z.to_nat (count r))%nat → Forall is_u16 (ids_from r index n).
Proof.
  intros [_ Hr] Hn. unfold ids_from. rewrite map_map. apply Forall_map, Forall_seq.
  intros k Hk. rewrite Forall_forall in Hr. apply Hr, elem_entries. exists k. split; [lia|done].
Qed.

(** The page a request is answered with. *)
Definition registryPage (r : CapabilityRegistryView) (index : nat) : CapabilityPageRecord :=
  let taken := Nat.min 9 (Z.to_nat (count r) - index) in
  let next := (index + taken)%nat in
  mkCapabilityPage (if Z.of_nat next =? count r then CAPABILITY_PAGE_END else Z.of_nat next)
    (Z.of_nat taken) (ids_from r index taken ++ zeros (9 - taken)).

Lemma registryPage_wf r index :
  registry_wf r → isValidCapabilityRegistry r = true → (index ≤ Z.to_nat (count r))%nat →
  record_wf (registryPage r index).
Proof.
  intros Hr Hv Hi. pose proof (registry_count r Hv). pose proof Hr as [[? _] _].
  unfold registryPage. set (taken := Nat.min _ _).
  assert (Hl : length (ids_from r index taken) = taken)
    by (unfold ids_from; by rewrite !length_map, length_seq).
  split_and!; cbn [cp_nextCursor cp_count capabilityIds].
  - case_match; [done|uint_unfold; lia].
  - uint_unfold. lia.
  - rewrite length_app, length_zeros, Hl. lia.
  - apply Forall_app. split; [apply ids_from_u16; [done|lia]|]. by apply Forall_replicate.
  - rewrite Nat2Z.id. by rewrite drop_app_length'.
Qed.

Lemma getCapabilities_page result request r :
  isValidCapabilityRegistry r = true → registry_wf r → is_u32 (requestCursor request) →
  getCapabilities result request true r
  = if count r <? requestCursor request
    then setOperationResult result OperationStatus.VALUE_OUT_OF_RANGE
    else setEncoded (setOperationResult result OperationStatus.OK)
           (encodeRecord (registryPage r (Z.to_nat (requestCursor request)))).
Proof.
  intros Hv Hr Hc. unfold getCapabilities. rewrite Hv. cbn [negb orb].
  destruct (Z.ltb_spec (count r) (requestCursor request)) as [|Hle]; [done|].
  pose proof (registry_count r Hv). uint_unfold.
  replace (requestCursor request mod 256) with (Z.of_nat (Z.to_nat (requestCursor request)))
    by (rewrite Z.mod_small; lia).
  set (index := Z.to_nat (requestCursor request)).
  pose proof (capabilityPage_spec r 9 index 0 0 [] Hv) as Hp. cbn [app Z.of_nat] in Hp.
  change (Z.to_nat MAX_CAPABILITY_PAGE_ENTRIES) with 9%nat.
  change (Z.of_nat 0) with 0 in Hp. rewrite Hp by (done || lia). cbn [cp_count capabilityIds]. done.
Qed.

Lemma requestCursor_u32 request : request_wf request → is_u32 (requestCursor request).
Proof.
  intros (_ & _ & _ & _ & (_ & _ & _ & Hb) & _). unfold requestCursor.
  destruct (negb _); [by apply read32_range|done].
Qed.

Section Valid.

Context (minor id : Z) (request : OperationRequest).
Context (Hwf : request_wf request).
Context (Hvalid : classifyCategoryOperationM minor (rq_category request) (rq_operation request)
  = VALID).
Context (Htarget : isValidOperationTarget (rq_category request) (rq_operation request)
  (rq_targetId request) = true).
Context (Hcategory : rq_category request ≠ OperationCategory.EVENT).

Let base := makeBaseResult id request.

Lemma status_good result class code value status :
  answers id request result class code value →
  isKnownOperationStatus status = true → status ≠ OperationStatus.OK →
  good minor id request (setOperationResult result status).
Proof.
  intros Ha Hk Hs. split; [done|]. eexists _, _, _. split; [by eapply answers_status|].
  by apply status_sendable.
Qed.

Lemma getCapabilities_good registryValid r :
  rq_operation request = OperationCode.GET_CAPABILITIES → registry_wf r →
  good minor id request (getCapabilities base request registryValid r).
Proof.
  intros Ho Hr. destruct registryValid; [|by eapply status_good].
  destruct (isValidCapabilityRegistry r) eqn:Hv.
  2: { unfold getCapabilities. rewrite Hv. by eapply status_good. }
  rewrite getCapabilities_page by (try apply requestCursor_u32; done).
  destruct (Z.ltb_spec (count r) (requestCursor request)); [by eapply status_good|].
  apply (encoded_good minor request Hvalid Htarget Hcategory id
    (registryPage r (Z.to_nat (requestCursor request)))); [done|by rewrite Ho| |by eapply answers_status].
  apply registryPage_wf; [done..|lia].
Qed.

Lemma description_wf r d available :
  registry_wf r → isValidCapabilityRegistry r = true → d ∈ entries r →
  record_wf (mkDescription (DeviceCapabilities.capabilityClass d) (valueType d) (operationFlags d)
    (unitCode d) (if available : bool then 1 else 0) 0).
Proof.
  intros [_ Hr] Hv Hd. rewrite Forall_forall in Hr. destruct (Hr d Hd) as [_ Hf].
  apply (entries_valid _ _ Hv) in Hd. unfold isValidCapabilityDescriptor in Hd.
  rewrite !andb_true_iff in Hd. destruct_and! Hd.
  repeat match goal with H : isKnownCapabilityClass _ = true |- _ => unfold isKnownCapabilityClass in H
    | H : isKnownValueType _ = true |- _ => unfold isKnownValueType in H
    | H : isKnownUnitCode _ = true |- _ => unfold isKnownUnitCode in H end.
  assert (Hone : ∀ x l, one_of x l = true → Forall is_u8 l → is_u8 x)
    by (intros x l Hx%one_of_spec Hl; rewrite Forall_forall in Hl; by apply Hl).
  split_and!; cbn; try done; try (eapply Hone; [eassumption|]; repeat constructor; done).
  by destruct available.
Qed.

Lemma describeCapability_good registryValid r availability :
  rq_operation request = OperationCode.DESCRIBE_CAPABILITY → registry_wf r →
  good minor id request (describeCapability base request registryValid r availability).
Proof.
  intros Ho Hr. unfold describeCapability. destruct registryValid; [|by eapply status_good].
  destruct (isValidCapabilityRegistry r) eqn:Hv; cbn [negb orb]; [|by eapply status_good].
  destruct (findCapability_spec r (rq_targetId request) zeroDescriptor Hv)
    as [(d & Hd & _ & ->)|[_ ->]]; cbn [negb]; [|by eapply status_good].
  destruct (match query availability with Some q => _ | None => _ end) as [known available].
  destruct known; cbn [negb]; [|by eapply status_good].
  eapply (encoded_good minor request Hvalid Htarget Hcategory id
    (mkDescription (DeviceCapabilities.capabilityClass d) (valueType d) (operationFlags d)
      (unitCode d) (if available then 1 else 0) 0)); [done|by rewrite Ho|by eapply description_wf|].
  by eapply answers_status.
Qed.

(** The page of diagnostics a request is answered with. *)
Definition metricsPage (c : RuntimeState.DiagnosticCounters) (index : nat) : DiagnosticPageRecord :=
  let taken := Nat.min 3 (10 - index) in
  let next := (index + taken)%nat in
  mkDiagnosticPage (if Z.of_nat next =? 10 then DIAGNOSTIC_PAGE_END else Z.of_nat next)
    (Z.of_nat taken)
    (map (metric_entry c) (seq index taken) ++ replicate (3 - taken) (mkEntry 0 0)).

Lemma metricsPage_wf c index : counters_wf c → (index ≤ 10)%nat → record_wf (metricsPage c index).
Proof.
  intros Hc Hi. unfold metricsPage. set (taken := Nat.min _ _).
  assert (Hl : length (map (metric_entry c) (seq index taken)) = taken)
    by by rewrite length_map, length_seq.
  split_and!; cbn [dp_nextCursor dp_count dp_entries].
  - case_match; [done|uint_unfold; lia].
  - uint_unfold. lia.
  - rewrite length_app, length_replicate, Hl. lia.
  - apply Forall_app. split; [|by apply Forall_replicate].
    apply Forall_map, Forall_seq. intros k Hk. split; [|apply Hc]. cbn. uint_unfold. lia.
  - rewrite Nat2Z.id. by rewrite drop_app_length'.
Qed.

Lemma getDiagnostics_page result s :
  getDiagnostics result request s
  = if 10 <? requestCursor request
    then setOperationResult result OperationStatus.VALUE_OUT_OF_RANGE
    else setEncoded result
           (encodeRecord (metricsPage (ds_counters s) (Z.to_nat (requestCursor request)))).
Proof.
  unfold getDiagnostics, DIAGNOSTIC_METRIC_COUNT.
  pose proof (requestCursor_u32 request Hwf) as Hc.
  destruct (Z.ltb_spec 10 (requestCursor request)) as [|Hle]; [done|]. uint_unfold.
  replace (requestCursor request mod 256) with (Z.of_nat (Z.to_nat (requestCursor request)))
    by (rewrite Z.mod_small; lia).
  set (index := Z.to_nat (requestCursor request)).
  pose proof (diagnosticPage_spec (ds_counters s) 3 index 0 0 []) as Hp. cbn [app Z.of_nat] in Hp.
  change (Z.to_nat MAX_DIAGNOSTIC_PAGE_ENTRIES) with 3%nat.
  change (Z.of_nat 0) with 0 in Hp. rewrite Hp by (done || lia). done.
Qed.

Lemma getDiagnostics_good s :
  rq_operation request = OperationCode.GET_DIAGNOSTICS → snapshot_wf s →
  good minor id request
    (getDiagnostics (setOperationResult base OperationStatus.OK) request s).
Proof.
  intros Ho [_ _ Hs _]. rewrite getDiagnostics_page.
  pose proof (requestCursor_u32 request Hwf) as [? _].
  destruct (Z.ltb_spec 10 (requestCursor request)); [by eapply status_good|].
  apply (encoded_good minor request Hvalid Htarget Hcategory id
    (metricsPage (ds_counters s) (Z.to_nat (requestCursor request)))); [done|by rewrite Ho| |by eapply answers_status]. apply metricsPage_wf; [done|lia].
Qed.

Lemma ping_good s :
  rq_operation request = OperationCode.PING → snapshot_wf s →
  let result := setOperationResult base OperationStatus.OK in
  good minor id request
    (withResult result ResultClass.OPERATION_RESULT OperationStatus.OK
       (setUint32Value setNoneValue ValueType.UNSIGNED_32 (ds_uptimeSeconds s)).2).
Proof.
  intros Ho [_ Hu _ _] result. split; [done|]. eexists _, _, _.
  split; [by eapply answers_with, answers_status|].
  apply result_sendable; [done..| | |].
  - split_and!; try done. cbv [setUint32Value]. cbn [snd].
    apply write32_byte, zeros_byte.
  - split; [done|]. vm_compute. reflexivity.
  - rewrite Ho. done.
Qed.

Lemma device_good s :
  validateOperationRequestM minor request = OK →
  snapshot_wf s → rq_targetDeviceId request = ds_deviceId s →
  rq_category request = OperationCategory.DEVICE
  ∨ rq_category request = OperationCategory.DIAGNOSTIC →
  good minor id request (handleLocalDeviceOrDiagnostic id request s minor).
Proof.
  intros Hv Hs Hd Hc. unfold handleLocalDeviceOrDiagnostic. rewrite Hv, Hd, Z.eqb_refl.
  rewrite bool_decide_eq_true_2 by done. cbn [negb].
  assert (Hk : negb (rq_category request =? OperationCategory.DEVICE)
    && negb (rq_category request =? OperationCategory.DIAGNOSTIC) = false)
    by (by destruct Hc as [-> | ->]). rewrite Hk. cbv zeta.
  fold base. set (result := setOperationResult base OperationStatus.OK).
  destruct (Z.eqb_spec (rq_operation request) OperationCode.PING) as [Ho|]; [by apply ping_good|].
  destruct (Z.eqb_spec (rq_operation request) OperationCode.GET_DEVICE_INFO) as [Ho|].
  { apply (encoded_good minor request Hvalid Htarget Hcategory id (deviceInfoRecord s));
      [done|by rewrite Ho|by apply deviceInfo_wf|by eapply answers_status]. }
  destruct (Z.eqb_spec (rq_operation request) OperationCode.GET_STATUS) as [Ho|].
  { apply (encoded_good minor request Hvalid Htarget Hcategory id (statusRecord s));
      [done|by rewrite Ho|by apply status_wf|by eapply answers_status]. }
  destruct (Z.eqb_spec (rq_operation request) OperationCode.GET_EVENT_DIAGNOSTICS) as [Ho|].
  { destruct (negb (isNoneValue _)).
    - apply (encoded_good minor request Hvalid Htarget Hcategory id
        (mapRole (ds_role s), RuntimeState.txLifecycle (ds_eventDetails s)));
        [done|by rewrite Ho|apply Hs; apply mapRole_u8|by eapply answers_status].
    - apply (encoded_good minor request Hvalid Htarget Hcategory id (eventDiagnosticsRecord s));
        [done|by rewrite Ho|by apply eventDiagnostics_wf|by eapply answers_status]. }
  apply getDiagnostics_good; [|done]. revert Hvalid.
  unfold classifyCategoryOperationM, isSupportedCategoryOperationM.
  destruct (_ || _); [done|]. destruct Hc as [-> | ->]; intros Hk2; revert Hk2.
  - rewrite !andb_false_r. cbn [andb]. unfold isSupportedCategoryOperation.
    change (OperationCategory.DEVICE =? OperationCategory.DEVICE) with true. cbv iota.
    rewrite !(proj2 (Z.eqb_neq _ _)) by done. cbn [orb]. by rewrite andb_false_r.
  - rewrite (proj2 (Z.eqb_neq (rq_operation request) OperationCode.GET_EVENT_DIAGNOSTICS)) by done.
    rewrite !andb_false_r. unfold isSupportedCategoryOperation. cbn.
    destruct (Z.eqb_spec (rq_operation request) OperationCode.GET_DIAGNOSTICS); [done|].
    by rewrite andb_false_r.
Qed.

(** The value of a successful read. *)
Lemma converted_sendable v value :
  isValidCapabilityValue v = true → value_type v ≠ ValueType.NONE →
  capabilityValueToHostValue v setNoneValue = (true, value) →
  value_wf value ∧ value_clear value ∧ isNonNoneScalarValue value = true.
Proof.
  intros Hv Hn. unfold capabilityValueToHostValue. rewrite Hv. cbn [negb].
  rewrite (proj2 (Z.eqb_neq _ _) Hn).
  pose proof (valid_value_type v Hv) as Hk. clear Hv. destruct v as [type rs b].
  cbn [value_type bits] in *.
  assert (Hw16 : ∀ t n, is_u8 t → let value := mkTyped t 2 (writeUint16Le (zeros 121) 0 n) in
    value_wf value ∧ value_clear value).
  { intros t n Ht w. split; [split_and!; try done|split; [done|by vm_compute]].
    apply write16_byte, zeros_byte. }
  assert (Hw32 : ∀ t n, is_u8 t → let value := mkTyped t 4 (writeUint32Le (zeros 121) 0 n) in
    value_wf value ∧ value_clear value).
  { intros t n Ht w. split; [split_and!; try done|split; [done|by vm_compute]].
    apply write32_byte, zeros_byte. }
  switch_cases Hk; try done; which_operation; cbn [orb].
  2,3,5: intros He; apply (f_equal snd) in He; cbn [snd] in He; subst value;
    match goal with |- context [setUint32Value _ ?t ?n] => destruct (Hw32 t n) as [Ha Hb] end;
    [done|]; split; [exact Ha|split; [exact Hb|reflexivity]].
  2,3: intros He; apply (f_equal snd) in He; cbn [snd] in He; subst value;
    match goal with |- context [setUint16Value _ ?t ?n] => destruct (Hw16 t n) as [Ha Hb] end;
    [done|]; split; [exact Ha|split; [exact Hb|reflexivity]].
  unfold setBooleanValue. destruct (Z.ltb_spec 1 (u8 b)); [done|].
  intros He; apply (f_equal snd) in He; cbn [snd] in He; subst value.
  split; [split_and!; try done|split; [split; [done|by vm_compute]|]].
  - apply upd_byte; [apply zeros_byte|apply u8_range].
  - unfold isNonNoneScalarValue, isValidScalarValue. rewrite andb_true_r. by apply Z.leb_le.
Qed.

End Valid.

Section Handler.

Context {W : Type} `{LocalCapabilityHandler W}.

(** A dispatch gives a known status, and a successful read a value. *)
Lemma dispatch_status r id operation input caller interlock (w : W) :
  let out := (dispatchCapabilityOperation r id operation input caller interlock w).1 in
  isKnownOperationStatus (result_status out) = true
  ∧ (operation = Operation.READ → result_status out = OperationStatus.OK →
     isValidCapabilityValue (result_value out) = true ∧ value_type (result_value out) ≠ ValueType.NONE).
Proof.
  assert (Href : ∀ out : OperationResult * W, refused w out →
    isKnownOperationStatus (result_status out.1) = true
    ∧ (operation = Operation.READ → result_status out.1 = OperationStatus.OK →
       isValidCapabilityValue (result_value out.1) = true
       ∧ value_type (result_value out.1) ≠ ValueType.NONE)).
  { intros out (status & -> & Hs & Hk & _). split; [done|]. by intros _ ?. }
  intros out. subst out.
  destruct (isValidCapabilityRegistry r) eqn:Hr.
  2: { apply Href. unfold dispatchCapabilityOperation. rewrite Hr. by apply refuse. }
  destruct (findCapability_spec r id zeroDescriptor Hr) as [(d & Hin & <- & Hf)|[_ Hf]].
  2: { apply Href. unfold dispatchCapabilityOperation. rewrite Hr, Hf. by apply refuse. }
  destruct (dispatch_guarded r _ operation input caller interlock d w Hr Hf) as [[Hg E]|[_ E]];
    [|by apply Href].
  rewrite E. clear E Href.
  destruct (checkedExecute_typed r d operation input w Hin) as [Hv Hok]. split.
  { unfold isValidOperationResult in Hv. by destruct (isKnownOperationStatus _). }
  intros -> Hs. destruct (Hok Hs) as (d' & Hin' & Hid & Hb).
  rewrite (entries_unique r d' d Hr Hin' Hin Hid) in Hb. apply within_compatible in Hb as [Hv' Ht].
  split; [done|]. rewrite <- Ht. pose proof (entries_valid r d Hr Hin) as Hd.
  unfold guarded in Hg. rewrite !andb_true_iff in Hg. destruct Hg as [[[Hdis _] _] _].
  assert (Hbit : Z.testbit (operationFlags d) 1 = true).
  { destruct (proj1 (supports_dispatchable d Operation.READ Hd)) as [[_ ?]|[? _]]; [|done..].
    by apply andb_true_iff. }
  destruct (valid_flags d Hd) as [Ef|[Ef|[Ef|Ef]]]; rewrite Ef in Hbit; try discriminate Hbit;
    intros Hn; unfold isValidCapabilityDescriptor in Hd; rewrite !andb_true_iff in Hd;
    destruct Hd as [[[[[[[_ Hc] _] _] _] _] _] _]; unfold hasCompatibleValueContract in Hc;
    by rewrite Ef, Hn in Hc.
Qed.

Lemma executeNow_result registryValid r id operation input caller interlock (s : Local W) :
  (executeLocalCapabilityNow registryValid r id operation input caller interlock s).1
  = (dispatchCapabilityOperation (if registryValid then r else mkRegistry None 1) id operation input
      caller interlock s.2.2).1.
Proof.
  unfold executeLocalCapabilityNow, dispatchCapabilityOperationObserved, bind, outside, zoom, update,
    modify, ret. by destruct (dispatchCapabilityOperation _ _ _ _ _ _ _).
Qed.

(** A scalar of the host is a value of the capabilities. *)
Lemma hostValue_some v :
  isValidScalarValue v = true → value_wf v → is_Some (hostValueToCapabilityValue v).
Proof.
  intros Hs (_ & _ & _ & Hb). unfold hostValueToCapabilityValue. rewrite Hs. cbn [negb].
  unfold isValidScalarValue in Hs. destruct (_ || negb (isKnownValueType _)) eqn:E; [done|].
  apply orb_false_iff in E as [_ Hk%negb_false_iff]. destruct v as [type n b].
  cbn [tv_type tv_length tv_bytes] in *. unfold isValidCapabilityValue. cbn [value_reserved
    value_type bits]. rewrite Hk. change (reserved3_zero (zeros 3)) with true. cbn [negb orb].
  assert (H16 : ∀ i, Z.land (readUint16Le b i) 4294901760 = 0).
  { intros i. pose proof (word16_range (rd b i) (rd b (i + 1)) (rd_byte _ _ Hb) (rd_byte _ _ Hb)) as Hr.
    unfold readUint16Le, read16. rewrite word16 in * by by apply rd_byte.
    set (x := rd b i + rd b (i + 1) * 256) in *. uint_unfold.
    change 4294901760 with (Z.shiftl 65535 16). apply Z.bits_inj'. intros k Hk'.
    rewrite Z.land_spec, Z.bits_0. destruct (Z.lt_ge_cases k 16).
    - rewrite (Z.shiftl_spec_low _ _ _); [by rewrite andb_false_r|lia].
    - assert (Hx : Z.testbit x k = false); [|by rewrite Hx].
      apply (Z.testbit_false x); [lia|]. rewrite Z.div_small; [done|]. split; [lia|].
      apply Z.lt_le_trans with (2 ^ 16); [lia|]. apply Z.pow_le_mono_r; lia. }
  switch_cases Hk; which_operation; cbn [orb one_of existsb]; try (by eexists).
  - apply andb_true_iff in Hs as [_ Hs] || idtac. revert Hs. which_operation. cbn [negb orb].
    destruct (negb (n =? _)); [done|]. intros ->. by eexists.
  - rewrite H16. by eexists.
  - rewrite H16. by eexists.
Qed.

Lemma capability_good minor id request s registryValid r interlock availability (w : Local W) :
  request_wf request → registry_wf r →
  rq_category request = OperationCategory.CAPABILITY → validateOperationRequestM minor request = OK →
  rq_targetDeviceId request = s →
  good minor id request
    (handleLocalCapability id request s registryValid r interlock availability w).1.
Proof.
  intros Hwf Hr Hc Hval <-. destruct (validate_capability _ _ Hc Hval) as (Hv1 & Ho & Hscalar).
  destruct (valid_request _ _ Hval) as [Hvalid Htarget].
  assert (Hcat : rq_category request ≠ OperationCategory.EVENT) by by rewrite Hc.
  unfold handleLocalCapability. rewrite Hv1, bool_decide_eq_true_2 by done.
  rewrite Hc, !Z.eqb_refl. cbn [negb].
  destruct (Z.eqb_spec (rq_operation request) OperationCode.GET_CAPABILITIES);
    [by apply getCapabilities_good|].
  destruct (Z.eqb_spec (rq_operation request) OperationCode.DESCRIBE_CAPABILITY);
    [by apply describeCapability_good|].
  destruct (hostValue_some (rq_value request) Hscalar) as [input Hin]; [apply Hwf|]. rewrite Hin.
  set (operation := if rq_operation request =? OperationCode.READ_CAPABILITY then _ else _).
  destruct (setNotOffered _ _ _ _); [by eapply status_good|].
  unfold bind. pose proof (executeNow_result registryValid r (rq_targetId request) operation input
    (mkCaller CallerClass.HOST_LOCAL (zeros 3)) interlock w) as He.
  destruct (executeLocalCapabilityNow _ _ _ _ _ _ _ w) as [out w'] eqn:Hexec. cbn [fst snd] in *.
  pose proof (dispatch_status (if registryValid then r else mkRegistry None 1) (rq_targetId request)
    operation input (mkCaller CallerClass.HOST_LOCAL (zeros 3)) interlock w.2.2) as [Hs Hok].
  rewrite <- He in Hs, Hok. cbn zeta in Hs, Hok.
  destruct (Z.eqb_spec (result_status out) OperationStatus.OK) as [Es|Es]; cbn [andb].
  2: { by eapply status_good. }
  destruct (Z.eqb_spec operation Operation.READ) as [Er|Er].
  - destruct (Hok Er Es) as [Hvv Hn].
    destruct (capabilityValueToHostValue _ _) as [converted value] eqn:Hcv.
    destruct converted; cbn [negb ret fst]; [|by eapply status_good].
    apply (converted_sendable _ value Hvv Hn) in Hcv as (Hw & Hcl & Hnn).
    split; [done|]. eexists _, _, _. split; [by eapply answers_with, answers_status|].
    rewrite Es. apply result_sendable; [done..|].
    assert (Hread : rq_operation request = OperationCode.READ_CAPABILITY).
    { subst operation. by destruct (Z.eqb_spec (rq_operation request) OperationCode.READ_CAPABILITY). }
    rewrite Hread. exact Hnn.
  - cbn [ret fst]. split; [done|]. eexists _, _, _. split; [by eapply answers_status|].
    pose proof none_wf as [? ?]. rewrite Es. apply result_sendable; [done..|].
    assert (Hset : rq_operation request = OperationCode.SET_INDICATOR).
    { subst operation. apply one_of_spec in Ho.
      destruct (Z.eqb_spec (rq_operation request) OperationCode.READ_CAPABILITY); [done|set_solver]. }
    rewrite Hset. done.
Qed.

End Handler.

(** Every valid local request is answered, and the host can read the answer.
    Take a request of the device, capability or diagnostic category that is
    valid in the minor version the host speaks, any registry (valid or not),
    any device behind the capability handler and any state.  The service
    handles it - with data, a status, or a rejection for a wrong device - and
    the response echoes the request's identifiers, is accepted by the encoder
    of that minor version, and decodes to itself.  No local request is left
    without a response the host can decode. *)
Theorem local_request_answered {W} `{LocalCapabilityHandler W} minor id request snapshot
    registryValid registry interlock availability (s : Local W) out :
  request_wf request → snapshot_wf snapshot → registry_wf registry →
  validateOperationRequestM minor request = OK →
  one_of (rq_category request) [OperationCategory.DEVICE; OperationCategory.CAPABILITY;
    OperationCategory.DIAGNOSTIC] = true →
  (MAX_PAYLOAD_SIZE ≤ length out)%nat →
  let result := (handleLocalOperation id request snapshot registryValid registry interlock
                   availability minor s).1 in
  disposition result = HANDLED ∧ requestId result = id
  ∧ rs_category (response result) = rq_category request
  ∧ rs_operation (response result) = rq_operation request
  ∧ rs_targetDeviceId (response result) = rq_targetDeviceId request
  ∧ rs_targetId (response result) = rq_targetId request
  ∧ ∃ b, encodeOperationResponseM minor (response result) (Some out) (Z.of_nat (length out))
         = (OK, Some (b ++ drop (length b) out), Z.of_nat (length b))
      ∧ ∀ r0, decodeOperationResponseM minor (Some b) (Z.of_nat (length b)) r0
              = (OK, response result).
Proof.
  intros Hwf Hs Hr Hval Hc Hout result.
  assert (Hg : good minor id request result).
  { destruct (valid_request _ _ Hval) as [Hvalid Htarget].
    assert (Hne : rq_category request ≠ OperationCategory.EVENT) by by switch_cases Hc.
    subst result. unfold handleLocalOperation.
    assert (Hbad : good minor id request (reject id request RequestRejectionCode.BAD_TARGET true)).
    { split; [done|]. eexists _, _, _. split; [apply answers_reject|]. by apply rejection_sendable. }
    destruct (Z.eqb_spec (rq_targetDeviceId request) (ds_deviceId snapshot)) as [Ed|Ed].
    - destruct (Z.eqb_spec (rq_category request) OperationCategory.CAPABILITY);
        [by apply capability_good|]. apply device_good; [done..|].
      apply one_of_spec in Hc. set_solver.
    - destruct (Z.eqb_spec (rq_category request) OperationCategory.CAPABILITY) as [Ec|Ec].
      + destruct (validate_capability _ _ Ec Hval) as (Hv1 & _ & _).
        unfold handleLocalCapability. rewrite Hv1, bool_decide_eq_true_2 by done.
        by rewrite Ec, Z.eqb_refl, (proj2 (Z.eqb_neq _ _) Ed).
      + unfold handleLocalDeviceOrDiagnostic. rewrite Hval, bool_decide_eq_true_2 by done.
        rewrite (proj2 (Z.eqb_neq _ _) Ed).
        assert (Hk : negb (rq_category request =? OperationCategory.DEVICE)
          && negb (rq_category request =? OperationCategory.DIAGNOSTIC) = false).
        { apply one_of_spec in Hc.
          assert (rq_category request = OperationCategory.DEVICE
            ∨ rq_category request = OperationCategory.DIAGNOSTIC) as [-> | ->] by set_solver;
            [done|by rewrite andb_false_r]. }
        by rewrite Hk. }
  destruct Hg as (Hd & class & code & value & [Hid Hresp] & ? & ? & ? & ? & Hv).
  split_and!; [done|done|by rewrite Hresp..|]. rewrite Hresp.
  destruct Hwf as (? & ? & ? & ? & _).
  set (r := mkResponse _ _ _ _ _ _ _) in *.
  assert (Hrw : response_wf r) by done.
  exists (responseBytes r). split; [by apply encodeOperationResponse_spec|].
  intros r0. apply decodeOperationResponse_ok; [by apply responseBytes_byte|done].
Qed.

(** ** Enumeration by the host *)

(** What the host reads from a result: the response is encoded and decoded, and
    its value is read as a record. *)
Definition hostRead {R} `{StructureRecord R} (minor : Z) (result : Result) (r0 : R) : option R :=
  match encodeOperationResponseM minor (response result) (Some (zeros MAX_PAYLOAD_SIZE))
          (Z.of_nat MAX_PAYLOAD_SIZE) with
  | (OK, Some out, n) =>
      let payload := take (Z.to_nat n) out in
      match decodeOperationResponseM minor (Some payload) (Z.of_nat (length payload))
              (mkResponse 0 0 0 0 0 0 zeroValue) with
      | (OK, r) => match decodeRecord (rs_value r) r0 with (OK, record) => Some record | _ => None end
      | _ => None
      end
  | _ => None
  end.

Lemma hostRead_sendable {R} `{StructureRecord R} minor id request result class code value (r0 : R) :
  request_wf request → answers id request result class code value →
  sendable minor request class code value →
  hostRead minor result r0 = match decodeRecord value r0 with (OK, record) => Some record | _ => None end.
Proof.
  intros (? & ? & ? & ? & _) [_ Hr] (? & ? & ? & ? & Hv). unfold hostRead. rewrite Hr.
  set (r := mkResponse (rq_category request) (rq_operation request) _ _ _ _ value) in *.
  assert (Hrw : response_wf r) by done.
  pose proof (encodeOperationResponse_spec minor r (zeros MAX_PAYLOAD_SIZE) Hrw Hv) as He.
  rewrite length_zeros in He. rewrite He by done. rewrite Nat2Z.id, take_app_length.
  pose proof (proj2 (decodeOperationResponse_ok minor (responseBytes r)
    (mkResponse 0 0 0 0 0 0 zeroValue) r (responseBytes_byte r Hrw)) (conj Hrw (conj Hv eq_refl))) as Hd.
  by rewrite Hd.
Qed.

(** A value that asks for the page at a cursor. *)
Definition cursorValue (cursor : Z) : TypedValue :=
  (setUint32Value setNoneValue ValueType.UNSIGNED_32 cursor).2.

(** The host follows the cursors from this value on, for at most [pages] pages. *)
Fixpoint collectCapabilities (minor : Z) (service : TypedValue → Result) (pages : nat)
    (value : TypedValue) : option (list Z) :=
  match pages with
  | O => None
  | S pages' =>
      match hostRead minor (service value) (mkCapabilityPage 0 0 (zeros 9)) with
      | None => None
      | Some page =>
          let ids := take (Z.to_nat (cp_count page)) (capabilityIds page) in
          if cp_nextCursor page =? CAPABILITY_PAGE_END then Some ids
          else match collectCapabilities minor service pages' (cursorValue (cp_nextCursor page)) with
               | Some rest => Some (ids ++ rest)
               | None => None
               end
      end
  end.

Fixpoint collectDiagnostics (minor : Z) (service : TypedValue → Result) (pages : nat)
    (value : TypedValue) : option (list DiagnosticEntry) :=
  match pages with
  | O => None
  | S pages' =>
      match hostRead minor (service value) (mkDiagnosticPage 0 0 []) with
      | None => None
      | Some page =>
          let entries := take (Z.to_nat (dp_count page)) (dp_entries page) in
          if dp_nextCursor page =? DIAGNOSTIC_PAGE_END then Some entries
          else match collectDiagnostics minor service pages' (cursorValue (dp_nextCursor page)) with
               | Some rest => Some (entries ++ rest)
               | None => None
               end
      end
  end.

(** The values a page is asked with: the start, or a cursor. *)
Definition asks (value : TypedValue) (cursor : nat) : Prop :=
  value = setNoneValue ∧ cursor = 0%nat ∨ value = cursorValue (Z.of_nat cursor).

Lemma asks_spec value cursor :
  asks value cursor → is_u32 (Z.of_nat cursor) →
  value_wf value ∧ value_clear value
  ∧ isNoneValue value || ((tv_type value =? ValueType.UNSIGNED_32) && isValidScalarValue value) = true
  ∧ (if negb (isNoneValue value) then readUint32Le (tv_bytes value) 0 else 0) = Z.of_nat cursor.
Proof.
  intros [[-> ->]| ->] Hc.
  - pose proof none_wf as [? ?]. done.
  - split_and!; try done.
    + split_and!; try done. apply write32_byte, zeros_byte.
    + change (negb (isNoneValue (cursorValue (Z.of_nat cursor)))) with true. cbv iota.
      apply (le32_value_eq _ Hc).
Qed.

(** A page of the registry is encoded. *)
Lemma writeIds_some left : ∀ i ids b,
  (∀ j, (i ≤ j < i + left)%nat → rd ids j ≠ INVALID_CAPABILITY_ID) → is_Some (writeIds left i ids b).
Proof.
  induction left as [|left IH]; intros i ids b Hj; cbn [writeIds]; [by eexists|].
  rewrite (proj2 (Z.eqb_neq _ _)) by (apply Hj; lia). apply IH. intros. apply Hj. lia.
Qed.

Lemma registryPage_encodes r index v0 :
  isValidCapabilityRegistry r = true → (index ≤ Z.to_nat (count r))%nat →
  ∃ v, encodeCapabilityPageRecord (registryPage r index) v0 = (OK, v).
Proof.
  intros Hv Hi. unfold encodeCapabilityPageRecord, registryPage. set (taken := Nat.min _ _).
  cbn [cp_count cp_nextCursor capabilityIds]. unfold MAX_CAPABILITY_PAGE_ENTRIES.
  rewrite (proj2 (Z.ltb_ge _ _)), Nat2Z.id by lia.
  destruct (writeIds_some taken 0 (ids_from r index taken ++ zeros (9 - taken))
    (upd (writeUint16Le (zeros 121) 0 (if Z.of_nat (index + taken) =? count r then CAPABILITY_PAGE_END
       else Z.of_nat (index + taken))) 2 (Z.of_nat taken))) as [b Hb]; [|rewrite Hb; by eexists].
  intros j Hj. unfold ids_from. rewrite map_map.
  assert (Hlen : length (map (λ x, cap_id (descriptor_at r x)) (seq index taken)) = taken)
    by by rewrite length_map, length_seq.
  rewrite (rd_lookup _ j (cap_id (descriptor_at r (index + j)))).
  - destruct (registry_valid r Hv (index + j)) as [Hd _]; [lia|].
    intros E. unfold isValidCapabilityDescriptor in Hd. by rewrite E in Hd.
  - rewrite lookup_app_l by lia. change (map ?f ?l) with (f <$> l). rewrite list_lookup_fmap.
    rewrite lookup_seq_lt by lia. done.
Qed.

Section Enumerate.

Context {W : Type} `{LocalCapabilityHandler W}.
Context (minor id : Z) (snapshot : DeviceSnapshot) (registry : CapabilityRegistryView).
Context (interlock : Z) (availability : AvailabilityProvider) (s : Local W).
Context (Hsnapshot : snapshot_wf snapshot).
Context (Hregistry : isValidCapabilityRegistry registry = true) (Hwf : registry_wf registry).

(** The service of one operation, asked with a value. *)
Definition serve (category operation : Z) (value : TypedValue) : Result :=
  (handleLocalOperation id (mkRequest category operation (ds_deviceId snapshot) 0 value) snapshot
     true registry interlock availability minor s).1.

(** Asking with a cursor is a valid request. *)
Lemma asked_request category operation value cursor :
  category = OperationCategory.CAPABILITY ∧ operation = OperationCode.GET_CAPABILITIES
  ∨ category = OperationCategory.DIAGNOSTIC ∧ operation = OperationCode.GET_DIAGNOSTICS →
  asks value cursor → is_u32 (Z.of_nat cursor) →
  let request := mkRequest category operation (ds_deviceId snapshot) 0 value in
  request_wf request ∧ (∀ minor', validateOperationRequestM minor' request = OK)
  ∧ requestCursor request = Z.of_nat cursor.
Proof.
  intros Ho Ha Hc request. destruct (asks_spec _ _ Ha Hc) as (Hw & Hcl & Hv & Hr).
  assert (Hval : isValidOperationRequestValue operation value = true)
    by (destruct Ho as [[_ ->]|[_ ->]]; unfold isValidOperationRequestValue; which_operation; exact Hv).
  split_and!; [|intros minor'|exact Hr].
  - destruct Hsnapshot. subst request. by destruct Ho as [[-> ->]|[-> ->]].
  - unfold validateOperationRequestM. subst request. cbn [rq_category rq_operation rq_targetId rq_value].
    rewrite Hval. destruct Ho as [[-> ->]|[-> ->]].
    + rewrite (proj2 (classify_capability minor' OperationCode.GET_CAPABILITIES)) by done. done.
    + assert (Hk : classifyCategoryOperationM minor' OperationCategory.DIAGNOSTIC
        OperationCode.GET_DIAGNOSTICS = VALID)
        by (unfold classifyCategoryOperationM, isSupportedCategoryOperationM;
            by destruct (minor' =? VERSION_MINOR_0_2)). by rewrite Hk.
Qed.

Lemma served_capabilities value cursor :
  asks value cursor → (cursor ≤ Z.to_nat (count registry))%nat →
  hostRead minor (serve OperationCategory.CAPABILITY OperationCode.GET_CAPABILITIES value)
    (mkCapabilityPage 0 0 (zeros 9)) = Some (registryPage registry cursor).
Proof.
  intros Ha Hc. pose proof (registry_count registry Hregistry). pose proof Hwf as [[? _] _].
  assert (Hu : is_u32 (Z.of_nat cursor)) by (uint_unfold; lia).
  destruct (asked_request OperationCategory.CAPABILITY OperationCode.GET_CAPABILITIES value cursor)
    as (Hrw & Hval & Hcur); [by left|done..|]. set (request := mkRequest _ _ _ _ _) in *.
  destruct (valid_request minor request (Hval minor)) as [Hk Ht].
  assert (He : serve OperationCategory.CAPABILITY OperationCode.GET_CAPABILITIES value
    = setEncoded (setOperationResult (makeBaseResult id request) OperationStatus.OK)
        (encodeRecord (registryPage registry cursor))).
  { unfold serve. fold request. unfold handleLocalOperation. cbn [request rq_category].
    rewrite Z.eqb_refl. fold request. unfold handleLocalCapability.
    unfold validateOperationRequest. rewrite Hval, bool_decide_eq_true_2 by done. cbn [negb].
    cbn [request rq_category rq_targetDeviceId rq_operation]. rewrite !Z.eqb_refl. cbn [negb ret fst].
    fold request. rewrite getCapabilities_page by (try done; rewrite Hcur; done).
    rewrite Hcur, (proj2 (Z.ltb_ge _ _)), Nat2Z.id by lia. done. }
  rewrite He. unfold setEncoded.
  destruct (registryPage_encodes registry cursor setNoneValue Hregistry Hc) as [v Hv].
  assert (Hw : record_wf (registryPage registry cursor)) by by apply registryPage_wf.
  change (encodeRecord (registryPage registry cursor)) with
    (encodeCapabilityPageRecord (registryPage registry cursor)).
  cbn [setOperationResult withResult response rs_value resultClass resultCode].
  rewrite Hv, bool_decide_eq_true_2 by done. cbn [negb].
  destruct (codec_value _ _ Hw Hv) as [? ?].
  erewrite (hostRead_sendable minor id request _ ResultClass.OPERATION_RESULT OperationStatus.OK v);
    [|done|by eapply answers_with, answers_status| ].
  - by rewrite (codec_decode _ _ (mkCapabilityPage 0 0 (zeros 9)) Hw Hv).
  - apply result_sendable; [done..|]. exact (codec_valid _ _ Hw Hv).
Qed.

Lemma served_diagnostics value cursor :
  asks value cursor → (cursor ≤ 10)%nat →
  hostRead minor (serve OperationCategory.DIAGNOSTIC OperationCode.GET_DIAGNOSTICS value)
    (mkDiagnosticPage 0 0 []) = Some (metricsPage (ds_counters snapshot) cursor).
Proof.
  intros Ha Hc. assert (Hu : is_u32 (Z.of_nat cursor)) by (uint_unfold; lia).
  destruct (asked_request OperationCategory.DIAGNOSTIC OperationCode.GET_DIAGNOSTICS value cursor)
    as (Hrw & Hval & Hcur); [by right|done..|]. set (request := mkRequest _ _ _ _ _) in *.
  destruct (valid_request minor request (Hval minor)) as [Hk Ht].
  set (page := metricsPage (ds_counters snapshot) cursor).
  assert (He : serve OperationCategory.DIAGNOSTIC OperationCode.GET_DIAGNOSTICS value
    = setEncoded (setOperationResult (makeBaseResult id request) OperationStatus.OK)
        (encodeRecord page)).
  { unfold serve. fold request. unfold handleLocalOperation. cbn [request rq_category].
    which_operation. fold request. cbn [ret fst]. unfold handleLocalDeviceOrDiagnostic.
    rewrite Hval, bool_decide_eq_true_2 by done. cbn [negb].
    cbn [request rq_category rq_targetDeviceId rq_operation]. rewrite !Z.eqb_refl. which_operation.
    cbn [negb andb]. fold request. rewrite getDiagnostics_page by done.
    rewrite Hcur, (proj2 (Z.ltb_ge _ _)), Nat2Z.id by lia. done. }
  rewrite He. unfold setEncoded.
  assert (Hw : record_wf page) by (apply metricsPage_wf; [apply Hsnapshot|done]).
  assert (∃ v, encodeDiagnosticPageRecord page setNoneValue = (OK, v)) as [v Hv].
  { unfold encodeDiagnosticPageRecord, page, metricsPage, MAX_DIAGNOSTIC_PAGE_ENTRIES.
    cbn [dp_count]. rewrite (proj2 (Z.ltb_ge _ _)) by lia. by eexists. }
  change (encodeRecord page) with (encodeDiagnosticPageRecord page).
  cbn [setOperationResult withResult response rs_value resultClass resultCode].
  rewrite Hv, bool_decide_eq_true_2 by done. cbn [negb].
  destruct (codec_value _ _ Hw Hv) as [? ?].
  erewrite (hostRead_sendable minor id request _ ResultClass.OPERATION_RESULT OperationStatus.OK v);
    [|done|by eapply answers_with, answers_status| ].
  - by rewrite (codec_decode _ _ (mkDiagnosticPage 0 0 []) Hw Hv).
  - apply result_sendable; [done..|]. exact (codec_valid _ _ Hw Hv).
Qed.

Lemma ids_from_app index a b :
  ids_from registry index (a + b) = ids_from registry index a ++ ids_from registry (index + a) b.
Proof. unfold ids_from. by rewrite seq_app, !map_app. Qed.

Lemma length_ids_from index n : length (ids_from registry index n) = n.
Proof. unfold ids_from. by rewrite !length_map, length_seq. Qed.

Lemma collectCapabilities_from pages : ∀ value cursor,
  asks value cursor → (cursor ≤ Z.to_nat (count registry))%nat → (0 < pages)%nat →
  (Z.to_nat (count registry) - cursor ≤ 9 * pages)%nat →
  collectCapabilities minor (serve OperationCategory.CAPABILITY OperationCode.GET_CAPABILITIES) pages
    value
  = Some (ids_from registry cursor (Z.to_nat (count registry) - cursor)).
Proof.
  pose proof (registry_count registry Hregistry). pose proof Hwf as [[? _] _].
  induction pages as [|pages IH]; intros value cursor Ha Hc Hp Hn; [lia|].
  cbn [collectCapabilities]. rewrite (served_capabilities value cursor Ha Hc). unfold registryPage.
  cbn [cp_count cp_nextCursor capabilityIds]. rewrite Nat2Z.id.
  set (taken := Nat.min 9 _). rewrite take_app_length' by (by rewrite length_ids_from).
  destruct (Z.eqb_spec (Z.of_nat (cursor + taken)) (count registry)) as [He|He].
  - rewrite Z.eqb_refl. do 2 f_equal. lia.
  - rewrite (proj2 (Z.eqb_neq _ _)) by (unfold CAPABILITY_PAGE_END; lia).
    rewrite (IH (cursorValue (Z.of_nat (cursor + taken))) (cursor + taken)%nat) by (first [by right|lia]).
    rewrite <- ids_from_app. do 2 f_equal. lia.
Qed.

Lemma collectDiagnostics_from pages : ∀ value cursor,
  asks value cursor → (cursor ≤ 10)%nat → (0 < pages)%nat → (10 - cursor ≤ 3 * pages)%nat →
  collectDiagnostics minor (serve OperationCategory.DIAGNOSTIC OperationCode.GET_DIAGNOSTICS) pages
    value
  = Some (map (metric_entry (ds_counters snapshot)) (seq cursor (10 - cursor))).
Proof.
  induction pages as [|pages IH]; intros value cursor Ha Hc Hp Hn; [lia|].
  cbn [collectDiagnostics]. rewrite (served_diagnostics value cursor Ha Hc). unfold metricsPage.
  cbn [dp_count dp_nextCursor dp_entries]. rewrite Nat2Z.id.
  set (taken := Nat.min 3 _). rewrite take_app_length' by (by rewrite length_map, length_seq).
  destruct (Z.eqb_spec (Z.of_nat (cursor + taken)) 10) as [He|He].
  - rewrite Z.eqb_refl. do 3 f_equal. lia.
  - rewrite (proj2 (Z.eqb_neq _ _)) by (unfold DIAGNOSTIC_PAGE_END; lia).
    rewrite (IH (cursorValue (Z.of_nat (cursor + taken))) (cursor + taken)%nat) by (first [by right|lia]).
    rewrite <- map_app, <- seq_app. do 3 f_equal. lia.
Qed.

(** C31. The host enumerates a device.  A host that asks for the capabilities and
    follows the cursor of each page it decodes has, after at most two pages,
    the identifiers of the whole registry, each once and in its order; and
    after at most four pages of diagnostics the ten counters of the device.
    Every page goes over the link: encoded as a response, decoded, and read. *)
Theorem host_enumerates :
  collectCapabilities minor (serve OperationCategory.CAPABILITY OperationCode.GET_CAPABILITIES) 2
    setNoneValue = Some (map cap_id (entries registry))
  ∧ collectDiagnostics minor (serve OperationCategory.DIAGNOSTIC OperationCode.GET_DIAGNOSTICS) 4
      setNoneValue = Some (map (metric_entry (ds_counters snapshot)) (seq 0 10)).
Proof.
  pose proof (registry_count registry Hregistry).
  split; [|by rewrite (collectDiagnostics_from 4 setNoneValue 0) by (first [by left|lia])].
  rewrite (collectCapabilities_from 2 setNoneValue 0) by (first [by left|lia]).
  by rewrite Nat.sub_0_r.
Qed.

End Enumerate.

(** ** A device *)

Import CapabilityFacts.Lamp.

Definition device : DeviceSnapshot :=
  mkDevice RuntimeState.NODE 2 true RuntimeState.LISTENING RuntimeState.HEALTH_READY 77
    (RuntimeState.mkCounters 1 2 3 4 5 6 7 8 9 10)
    (RuntimeState.mkDetail EventTxDiagnostics.newSnapshot 0 8 0 0 false RuntimeState.EMPTY
       (RuntimeState.mkIdentitySnapshot 0 0 0) 0 0 0 false false false 0 false 0 false
       (RuntimeState.mkIdentitySnapshot 0 0 0) false false RuntimeState.zeroProducer
       (RuntimeState.mkEventCounters 0 0 0 0 0 0 0 0 0 0 0 0 0 0 0)).

Definition local : Local Z :=
  (RuntimeState.newState RuntimeState.NODE 2 1, (RuntimeState.zeroCapabilityDiagnostics, 0)).

Lemma device_wf : snapshot_wf device.
Proof.
  split; [done|done| |split; try done].
  - intros index. unfold diagnosticMetricValue. by repeat case_match.
  - intros role Hr. split_and!; try done. by repeat constructor.
  - by repeat constructor.
Qed.

Lemma lamp_registry_wf : registry_wf registry.
Proof. split; [done|]. by repeat constructor. Qed.

Definition available : AvailabilityProvider := makeAvailabilityProvider (Some (λ _, (true, true))).

Lemma host_enumerates_witness :
  collectCapabilities VERSION_MINOR_0_1
    (serve VERSION_MINOR_0_1 5 device registry InterlockState.CLEAR available local
       OperationCategory.CAPABILITY OperationCode.GET_CAPABILITIES) 2 setNoneValue = Some [7]
  ∧ collectDiagnostics VERSION_MINOR_0_1
      (serve VERSION_MINOR_0_1 5 device registry InterlockState.CLEAR available local
         OperationCategory.DIAGNOSTIC OperationCode.GET_DIAGNOSTICS) 4 setNoneValue
    = Some (map (metric_entry (ds_counters device)) (seq 0 10)).
Proof.
  exact (host_enumerates VERSION_MINOR_0_1 5 device registry InterlockState.CLEAR available local
    device_wf eq_refl lamp_registry_wf).
Defined.

Lemma local_request_answered_witness :
  let request := mkRequest OperationCategory.CAPABILITY OperationCode.READ_CAPABILITY 2 7
                   setNoneValue in
  let result := (handleLocalOperation 5 request device true registry InterlockState.CLEAR available
                   VERSION_MINOR_0_1 local).1 in
  (disposition result = HANDLED ∧ requestId result = 5
   ∧ rs_category (response result) = 2 ∧ rs_operation (response result) = OperationCode.READ_CAPABILITY
   ∧ rs_targetDeviceId (response result) = 2 ∧ rs_targetId (response result) = 7
   ∧ ∃ b, encodeOperationResponseM VERSION_MINOR_0_1 (response result) (Some (zeros 128)) 128
          = (OK, Some (b ++ drop (length b) (zeros 128)), Z.of_nat (length b))
       ∧ ∀ r0, decodeOperationResponseM VERSION_MINOR_0_1 (Some b) (Z.of_nat (length b)) r0
               = (OK, response result))
  ∧ rs_value (response result) = mkTyped ValueType.BOOLEAN 1 (zeros 121).
Proof.
  intros request result.
  assert (Hwf : request_wf request) by (unfold request_wf; cbn; pose proof none_wf; tauto || (split_and!; done || tauto)).
  assert (Hval : validateOperationRequestM VERSION_MINOR_0_1 request = OK) by (vm_compute; reflexivity).
  split; [|vm_compute; reflexivity].
  exact (local_request_answered VERSION_MINOR_0_1 5 request device true registry InterlockState.CLEAR
    available local (zeros 128) Hwf device_wf lamp_registry_wf Hval eq_refl
    ltac:(rewrite length_zeros; unfold MAX_PAYLOAD_SIZE; lia)).
Defined.

End HostServiceFacts.
