(* ===== verification/HostEvents.v ===== *)
(** The event service of the Host Protocol, lib/host_event_service: the host
    polls the oldest active event of the Hub's ledger and consumes events by
    identity.  The service and the ledger report to one diagnostics object, as
    src-tx/main.cpp wires them; it is kept where the ledger keeps it. *)

From S2P Require Import Prelude Wire EventWire Copies Records Diagnostics Ledger Capabilities HostFrame HostRecords HostMessages HostService.

Module HostEventService.

Import HostProtocol HostProtocolRecords HostProtocolMessages HostOperationService.

(* host_event_service.h:61-65 Service::setSuccess *)
Definition setSuccess (result : Result) : Result :=
  let r := response result in
  mkResult (disposition result) (rejectionCode result) (requestId result)
    (mkResponse (rs_category r) (rs_operation r) (rs_targetDeviceId r) (rs_targetId r)
       ResultClass.SUCCESS SuccessCode.OK (rs_value r)).

(* host_event_service.h:67-72 Service::setEventFailure *)
Definition setEventFailure (result : Result) (code : Z) : Result :=
  let r := response result in
  mkResult (disposition result) (rejectionCode result) (requestId result)
    (mkResponse (rs_category r) (rs_operation r) (rs_targetDeviceId r) (rs_targetId r)
       ResultClass.EVENT_RESULT code setNoneValue).

(** [result.response.value = value;] *)
Definition setValue (result : Result) (value : TypedValue) : Result :=
  let r := response result in
  mkResult (disposition result) (rejectionCode result) (requestId result)
    (mkResponse (rs_category r) (rs_operation r) (rs_targetDeviceId r) (rs_targetId r)
       (resultClass r) (resultCode r) value).

(** An active record as the host sees it, if it is a valid event. *)
(* host_event_service.h:74-91 Service::convert *)
Definition convert (source : EventRecords.HubRecord) : option HostEventRecord :=
  if negb (EventRecords.hr_state source =? EventRecords.HubState.ACTIVE) then None else
  let n := Z.to_nat (EventRecords.hr_bodyLength source) in
  let candidate :=
    mkHostEvent 1 (EventRecords.hr_sourceDeviceId source) (EventRecords.hr_family source)
      (EventRecords.hr_flags source) (EventRecords.hr_eventEpoch source)
      (EventRecords.hr_eventId source) (EventRecords.hr_lifetimeBudgetSeconds source)
      (EventRecords.hr_bodyLength source) (copy_bytes n (zeros 12) 0 (EventRecords.hr_body source) 0) in
  if negb (isValidHostEventRecord candidate) then None else Some candidate.

Section Service.

Context {W : Type} `{HubEventLedger.Storage W}.

Abbreviation M := (st (HubEventLedger.Ledger * W)).

(** The answer that carries an event, or none. *)
(* host_event_service.h:101-110 = Service::poll, the encoding *)
Definition pollResult (result : Result) (event : HostEventRecord) : bool * Result :=
  let result := setSuccess result in
  let value := rs_value (response result) in
  match encodeHostEventRecord event (Some (tv_bytes value)) 121 with
  | (OK, Some bytes, length) =>
      (true, setValue result (mkTyped STRUCTURE_VALUE_TYPE (u8 length) bytes))
  | _ => (false, setEventFailure result EventResultCode.STORAGE_FAILURE)
  end.

(* host_event_service.h:93-116 Service::poll *)
Definition poll (result : Result) : M Result :=
  oldest <~ gets (λ s, HubEventLedger.oldestActive s.1) ;;
  let event := match oldest with Some (_, record) => convert record | None => Some zeroHostEvent end in
  match event with
  | None => ret (setEventFailure result EventResultCode.STORAGE_FAILURE)
  | Some event =>
      let (encoded, result) := pollResult result event in
      if negb encoded then ret result else
      if he_available event =? 1 then
        HubEventLedger.note RuntimeState.HOST_POLL_RETURNED_EVENT 1 ;;;
        ret result
      else ret result
  end.

(* host_event_service.h:118-146 Service::consume *)
Definition consume (result : Result) (request : OperationRequest) : M Result :=
  match decodeHostEventIdentity (Some (tv_bytes (rq_value request))) (tv_length (rq_value request))
          (mkHostIdentity 0 0 0) with
  | (OK, i) =>
      consumed <~ HubEventLedger.consume
        (EventProtocol.mkIdentity (sourceDeviceId i) (eventEpoch i) (eventId i)) ;;
      ret match HubEventLedger.consume_status consumed with
          | HubEventLedger.CONSUMED | HubEventLedger.ALREADY_CONSUMED =>
              setValue (setSuccess result) setNoneValue
          | HubEventLedger.NOT_FOUND => setEventFailure result EventResultCode.NOT_FOUND
          | _ => setEventFailure result EventResultCode.STORAGE_FAILURE
          end
  | _ => ret (reject (requestId result) request RequestRejectionCode.MALFORMED_REQUEST true)
  end.

(* host_event_service.h:16-58 Service::handle *)
Definition handle (requestId : Z) (request : OperationRequest) (role : RuntimeState.DeviceRole)
    (localDeviceId : Z) : M Result :=
  if negb (rq_category request =? OperationCategory.EVENT)
  then ret (makeBaseResult requestId request) else
  match role with
  | RuntimeState.NODE =>
      ret (reject requestId request RequestRejectionCode.UNSUPPORTED_OPERATION true)
  | RuntimeState.HUB =>
      if negb (rq_targetDeviceId request =? localDeviceId)
      then ret (reject requestId request RequestRejectionCode.BAD_TARGET true) else
      if negb (bool_decide (validateOperationRequestM VERSION_MINOR_0_2 request = OK))
      then ret (reject requestId request RequestRejectionCode.MALFORMED_REQUEST true) else
      let base := makeBaseResult requestId request in
      let result := mkResult HANDLED (rejectionCode base) requestId (response base) in
      healthy <~ gets (λ s : HubEventLedger.Ledger * W, HubEventLedger.ledgerHealthy_ s.1) ;;
      if negb healthy then ret (setEventFailure result EventResultCode.STORAGE_FAILURE) else
      if rq_operation request =? OperationCode.POLL_EVENTS then poll result else
      if rq_operation request =? OperationCode.CONSUME_EVENT then consume result request else
      ret (reject requestId request RequestRejectionCode.UNSUPPORTED_OPERATION true)
  end.

End Service.

End HostEventService.
