(* ===== verification/HostEventFacts.v ===== *)
(** The host empties the ledger: it polls the oldest event and consumes it by
    identity, over the encoded requests and responses, and sees every active
    event in the order of its admission. *)

From stdpp Require Import sorting.
From S2P Require Import Prelude Wire EventWire Copies Records Diagnostics Ledger LedgerFacts LedgerOps LedgerLife Capabilities HostFrame HostRecords HostMessages HostMessageFacts HostRecordFacts HostService HostServiceFacts HostEvents.

Module HostEventFacts.

Import HostProtocol HostProtocolRecords HostProtocolMessages HostMessageFacts HostRecordFacts.
Import HostOperationService HostServiceFacts HostEventService.

(** ** The records of the ledger, in the order of their admission *)

Definition is_active (r : EventRecords.HubRecord) : bool :=
  EventRecords.hr_state r =? EventRecords.HubState.ACTIVE.

Definition actives (R : nat → EventRecords.HubRecord) : list EventRecords.HubRecord :=
  R <$> filter (λ i, is_active (R i) = true) (seq 0 8).

Definition before (a b : EventRecords.HubRecord) : Prop :=
  EventRecords.admissionOrdinal a < EventRecords.admissionOrdinal b.

(** [L] lists the active records of [R], oldest first. *)
Definition in_order (R : nat → EventRecords.HubRecord) (L : list EventRecords.HubRecord) : Prop :=
  actives R ≡ₚ L ∧ StronglySorted before L.

Lemma elem_actives R r :
  r ∈ actives R ↔ ∃ i, (i < 8)%nat ∧ R i = r ∧ is_active r = true.
Proof.
  unfold actives. rewrite list_elem_of_fmap. split.
  - intros (i & -> & [Ha Hi]%list_elem_of_filter). apply elem_of_seq in Hi.
    exists i. split_and!; [lia|done|done].
  - intros (i & Hi & <- & Ha). exists i. split; [done|].
    apply list_elem_of_filter. split; [done|]. apply elem_of_seq. lia.
Qed.

Lemma actives_ext R R' : (∀ i, R i = R' i) → actives R = actives R'.
Proof.
  intros HR. unfold actives. rewrite (list_filter_iff _ (λ i, is_active (R' i) = true)) by
    (intros i; by rewrite HR). apply list_fmap_ext. intros. by rewrite HR.
Qed.

Lemma in_order_ext R R' L : (∀ i, R i = R' i) → in_order R L → in_order R' L.
Proof. intros HR [Hp Hs]. split; [|done]. by rewrite <- (actives_ext R R' HR). Qed.

Lemma in_order_length R L : in_order R L → (length L ≤ 8)%nat.
Proof.
  intros [Hp _]. rewrite <- (Permutation_length Hp). unfold actives. rewrite length_fmap.
  etrans; [apply length_filter|]. by rewrite length_seq.
Qed.

(** The ordinals are distinct, so there is such a list. *)
Definition not_after (a b : EventRecords.HubRecord) : Prop :=
  EventRecords.admissionOrdinal a ≤ EventRecords.admissionOrdinal b.

#[local] Instance not_after_dec : RelDecision not_after.
Proof. intros a b. unfold not_after. apply _. Defined.

#[local] Instance not_after_total : Total not_after.
Proof. intros a b. unfold not_after. lia. Qed.

#[local] Instance not_after_trans : Transitive not_after.
Proof. intros a b c. unfold not_after. lia. Qed.

Lemma sorted_strictly L :
  StronglySorted not_after L → NoDup (EventRecords.admissionOrdinal <$> L) → StronglySorted before L.
Proof.
  induction 1 as [|a L HL IH Ha]; cbn [fmap list_fmap]; intros Hn; constructor.
  - apply IH. by apply NoDup_cons in Hn as [_ Hn].
  - apply NoDup_cons in Hn as [Hn _]. rewrite !Forall_forall in *. intros b Hb.
    specialize (Ha b Hb). unfold not_after in Ha. unfold before.
    assert (EventRecords.admissionOrdinal a ≠ EventRecords.admissionOrdinal b); [|lia].
    intros E. apply Hn. rewrite E. by apply list_elem_of_fmap_2.
Qed.

Lemma active_owned r : is_active r = true → HubEventLedger.isOwned r = true.
Proof. unfold is_active, HubEventLedger.isOwned. by intros ->. Qed.

Lemma actives_ordered R : LedgerOps.hub_distinct R → ∃ L, in_order R L.
Proof.
  intros Hd. exists (merge_sort not_after (actives R)). split.
  - symmetry. apply merge_sort_Permutation.
  - apply sorted_strictly.
    + apply StronglySorted_merge_sort; apply _.
    + rewrite merge_sort_Permutation. unfold actives. rewrite <- list_fmap_compose.
      apply NoDup_fmap_2_strong; [|apply NoDup_filter, NoDup_seq].
      intros i j [Hi Hi']%list_elem_of_filter [Hj Hj']%list_elem_of_filter E. cbn in E.
      apply elem_of_seq in Hi', Hj'. destruct (decide (i = j)) as [|Hne]; [done|].
      destruct (Hd i j) as [_ Ho]; auto using active_owned; lia.
Qed.

Lemma actives_replaced R i r :
  (i < 8)%nat → is_active (R i) = true → is_active r = false →
  actives R ≡ₚ R i :: actives (LedgerOps.hub_replaced i r R).
Proof.
  intros Hi Ha Hr. unfold actives.
  assert (Hseq : seq 0 8 = seq 0 i ++ i :: seq (S i) (7 - i)).
  { replace 8%nat with (i + S (7 - i))%nat at 1 by lia. by rewrite seq_app. }
  rewrite Hseq, !filter_app, !fmap_app, !filter_cons. rewrite decide_True by done.
  rewrite decide_False by (unfold LedgerOps.hub_replaced; rewrite decide_True by done; congruence).
  rewrite fmap_cons, <- Permutation_middle. f_equiv.
  assert (Hsame : ∀ n m, (∀ j, j ∈ seq n m → j ≠ i) →
    LedgerOps.hub_replaced i r R <$> filter (λ j, is_active (LedgerOps.hub_replaced i r R j) = true) (seq n m)
    = R <$> filter (λ j, is_active (R j) = true) (seq n m)).
  { intros n m. induction (seq n m) as [|j l IH]; intros Hj; [done|].
    assert (Hji : LedgerOps.hub_replaced i r R j = R j).
    { unfold LedgerOps.hub_replaced. by rewrite decide_False by (apply Hj; set_solver). }
    rewrite !filter_cons, Hji. case_decide; rewrite ?fmap_cons, ?Hji, IH by set_solver; done. }
  by rewrite !Hsame by (intros j Hj%elem_of_seq; lia).
Qed.

Lemma in_order_consumed R i L :
  (i < 8)%nat → in_order R (R i :: L) →
  in_order (LedgerOps.hub_replaced i (LedgerOps.consumedRecord (R i)) R) L.
Proof.
  intros Hi [Hp Hs]. split; [|by apply StronglySorted_inv in Hs as [? _]].
  assert (Ha : is_active (R i) = true).
  { assert (Hin : R i ∈ actives R) by (rewrite Hp; apply list_elem_of_here).
    by apply elem_actives in Hin as (_ & _ & _ & Ha). }
  apply (Permutation_cons_inv (a := R i)). rewrite <- Hp. symmetry.
  by apply actives_replaced.
Qed.

(** The search finds the head of the list. *)
Lemma oldest_head (s : HubEventLedger.Ledger) L :
  HubEventLedger.ledgerHealthy_ s = true → in_order (HubEventLedger.record_at s) L →
  match L with
  | [] => HubEventLedger.oldestActive s = None
  | r :: _ => ∃ i, HubEventLedger.oldestActive s = Some (i, r) ∧ (i < 8)%nat
                ∧ HubEventLedger.record_at s i = r ∧ is_active r = true
  end.
Proof.
  intros Hh [Hp Hs]. unfold HubEventLedger.oldestActive. rewrite Hh. cbn [negb].
  change HubEventLedger.HUB_EVENT_CAPACITY with 8%nat.
  destruct (LedgerOps.leastOrdinal_spec (λ i, is_active (HubEventLedger.record_at s i)) 8 0 255 s
    eq_refl (or_introl eq_refl)) as [(E & _ & Hno)|(k & E & Hk & Ha & Hmin & _)];
    unfold is_active in E at 1; rewrite E.
  - destruct L as [|r L]; [done|]. exfalso.
    assert (Hin : r ∈ actives (HubEventLedger.record_at s)) by (rewrite Hp; apply list_elem_of_here).
    apply elem_actives in Hin as (i & Hi & <- & Hact). rewrite Hno in Hact by lia. done.
  - rewrite (proj2 (Nat.eqb_neq k 255)) by lia.
    assert (Hin : HubEventLedger.record_at s k ∈ L) by (rewrite <- Hp; apply elem_actives; eauto).
    destruct L as [|r L]; [by apply not_elem_of_nil in Hin|]. exists k.
    assert (HubEventLedger.record_at s k = r) as <-; [|done].
    apply elem_of_cons in Hin as [|Hin]; [done|]. exfalso.
    apply StronglySorted_inv in Hs as [_ Hr]. rewrite Forall_forall in Hr. specialize (Hr _ Hin).
    assert (Hrin : r ∈ actives (HubEventLedger.record_at s)) by (rewrite Hp; apply list_elem_of_here).
    apply elem_actives in Hrin as (i & Hi & <- & Hact).
    specialize (Hmin i ltac:(lia) Hact). unfold before in Hr. lia.
Qed.

(** ** What the host is shown *)

(** An active record as the host decodes it. *)
Definition hostEventOf (r : EventRecords.HubRecord) : HostEventRecord :=
  mkHostEvent 1 (EventRecords.hr_sourceDeviceId r) (EventRecords.hr_family r)
    (EventRecords.hr_flags r) (EventRecords.hr_eventEpoch r) (EventRecords.hr_eventId r)
    (EventRecords.hr_lifetimeBudgetSeconds r) (EventRecords.hr_bodyLength r)
    (EventRecords.hr_body r).

Lemma hostEvent_shown r :
  EventRecords.hub_record_wf r → EventRecords.validateHubRecord r = EventRecords.OK →
  is_active r = true →
  convert r = Some (hostEventOf r) ∧ record_wf (hostEventOf r)
  ∧ isValidHostEventRecord (hostEventOf r) = true.
Proof.
  intros Hw Hv Ha. pose proof Hw as (_ & _ & ? & ? & ? & ? & ? & ? & ? & _ & Hl & Hb).
  destruct (EventRecords.validateHubRecord_body r Hl ltac:(uint_unfold; lia) Hv) as [Hle Hz].
  apply (LedgerOps.validateHubRecord_owned r (active_owned r Ha)) in Hv as (_ & Hc & _).
  assert (Hvalid : isValidHostEventRecord (hostEventOf r) = true).
  { unfold isValidHostEventRecord, hostEventOf. guard_passed.
    cbn [he_available he_sourceDeviceId he_family he_flags he_eventEpoch he_eventId
      he_lifetimeBudgetSeconds he_bodyLength he_body].
    unfold EventRecords.validCanonicalEvent in Hc. rewrite !andb_true_iff in *. tauto. }
  split; [|split; [by split_and!|done]].
  unfold convert. unfold is_active in Ha. rewrite Ha. cbn [negb].
  assert (Hcopy : copy_bytes (Z.to_nat (EventRecords.hr_bodyLength r)) (zeros 12) 0
    (EventRecords.hr_body r) 0 = EventRecords.hr_body r).
  { rewrite <- Hl at 1. apply copy_prefix_zero_tail; [rewrite Hl; uint_unfold; lia|done]. }
  rewrite Hcopy. fold (hostEventOf r). by rewrite Hvalid.
Qed.

(** ** The host's requests and what it reads of the answers *)

Definition pollRequest (hub : Z) : OperationRequest :=
  mkRequest OperationCategory.EVENT OperationCode.POLL_EVENTS hub 0 setNoneValue.

Definition identityOf (e : HostEventRecord) : HostEventIdentity :=
  mkHostIdentity (he_sourceDeviceId e) (he_eventEpoch e) (he_eventId e).

(** The identity, encoded as the value of a request. *)
Definition identityValue (i : HostEventIdentity) : TypedValue :=
  match encodeHostEventIdentity i (Some (zeros 121)) 121 with
  | (OK, Some bytes, n) => mkTyped STRUCTURE_VALUE_TYPE n bytes
  | _ => setNoneValue
  end.

Definition consumeRequest (hub : Z) (i : HostEventIdentity) : OperationRequest :=
  mkRequest OperationCategory.EVENT OperationCode.CONSUME_EVENT hub 0 (identityValue i).

(** A request as the device decodes it from the bytes the host sends. *)
Definition received (request : OperationRequest) : option OperationRequest :=
  match encodeOperationRequestM VERSION_MINOR_0_2 request (Some (zeros MAX_PAYLOAD_SIZE))
          (Z.of_nat MAX_PAYLOAD_SIZE) with
  | (OK, Some out, n) =>
      let payload := take (Z.to_nat n) out in
      match decodeOperationRequestM VERSION_MINOR_0_2 (Some payload) (Z.of_nat (length payload))
              (mkRequest 0 0 0 0 zeroValue) with
      | (OK, r) => Some r
      | _ => None
      end
  | _ => None
  end.

(** The host decodes a response that says success. *)
Definition accepted (result : Result) : bool :=
  match encodeOperationResponseM VERSION_MINOR_0_2 (response result) (Some (zeros MAX_PAYLOAD_SIZE))
          (Z.of_nat MAX_PAYLOAD_SIZE) with
  | (OK, Some out, n) =>
      let payload := take (Z.to_nat n) out in
      match decodeOperationResponseM VERSION_MINOR_0_2 (Some payload) (Z.of_nat (length payload))
              (mkResponse 0 0 0 0 0 0 zeroValue) with
      | (OK, r) => (resultClass r =? ResultClass.SUCCESS) && (resultCode r =? SuccessCode.OK)
      | _ => false
      end
  | _ => false
  end.

Lemma requestBytes_byte r : request_wf r → is_byte_list (requestBytes r).
Proof.
  intros (? & ? & ? & ? & (? & ? & _ & Hb) & _). unfold requestBytes, valueBytes, requestHead. bytes.
Qed.

Lemma received_valid request :
  request_wf request → validateOperationRequestM VERSION_MINOR_0_2 request = OK →
  received request = Some request.
Proof.
  intros Hw Hv. unfold received.
  pose proof (encodeOperationRequest_spec VERSION_MINOR_0_2 request (zeros MAX_PAYLOAD_SIZE) Hw Hv) as He.
  rewrite length_zeros in He. rewrite He by done. rewrite Nat2Z.id, take_app_length.
  assert (Hb : is_byte_list (requestBytes request)) by by apply requestBytes_byte.
  by rewrite (proj2 (decodeOperationRequest_ok VERSION_MINOR_0_2 (requestBytes request)
    (mkRequest 0 0 0 0 zeroValue) request Hb) (conj Hw (conj Hv eq_refl))).
Qed.

Lemma accepted_sendable id request result class code value :
  request_wf request → answers id request result class code value →
  sendable VERSION_MINOR_0_2 request class code value →
  accepted result = (class =? ResultClass.SUCCESS) && (code =? SuccessCode.OK).
Proof.
  intros (? & ? & ? & ? & _) [_ Hr] (? & ? & ? & ? & Hv). unfold accepted. rewrite Hr.
  set (r := mkResponse (rq_category request) (rq_operation request) _ _ _ _ value) in *.
  assert (Hrw : response_wf r) by done.
  pose proof (encodeOperationResponse_spec VERSION_MINOR_0_2 r (zeros MAX_PAYLOAD_SIZE) Hrw Hv) as He.
  rewrite length_zeros in He. rewrite He by done. rewrite Nat2Z.id, take_app_length.
  by rewrite (proj2 (decodeOperationResponse_ok VERSION_MINOR_0_2 (responseBytes r)
    (mkResponse 0 0 0 0 0 0 zeroValue) r (responseBytes_byte r Hrw)) (conj Hrw (conj Hv eq_refl))).
Qed.

Lemma pollRequest_ok hub :
  is_u8 hub → request_wf (pollRequest hub)
  ∧ validateOperationRequestM VERSION_MINOR_0_2 (pollRequest hub) = OK.
Proof. intros Hh. pose proof none_wf as [? ?]. split; [by split_and!|reflexivity]. Qed.

Lemma identity_decodes i :
  identity_wf i → isValidHostEventIdentity i = true →
  value_wf (identityValue i) ∧ value_clear (identityValue i)
  ∧ tv_type (identityValue i) = STRUCTURE_VALUE_TYPE
  ∧ tv_length (identityValue i) = HOST_EVENT_IDENTITY_SIZE
  ∧ ∀ i0, decodeHostEventIdentity (Some (tv_bytes (identityValue i))) HOST_EVENT_IDENTITY_SIZE i0
          = (OK, i).
Proof.
  intros (H1 & H2 & H3) Hv. unfold identityValue, encodeHostEventIdentity. rewrite Hv.
  cbn [negb]. change (121 <? HOST_EVENT_IDENTITY_SIZE) with false. cbv iota.
  cbn [tv_bytes tv_type tv_length]. destruct i as [a e d]. cbn [sourceDeviceId eventEpoch eventId] in *.
  split; [split_and!; [done|done|by len|]|split; [done|]].
  { apply write32_byte, write32_byte, upd_byte; [apply zeros_byte|done]. }
  split; [done|]. split; [done|].
  intros i0. unfold decodeHostEventIdentity. rewrite Z.eqb_refl. cbn [negb].
  match goal with |- (if negb (_ ?c) then _ else _) = _ => assert (c = mkHostIdentity a e d) as -> end.
  { cbn. f_equal; by apply word32_le. }
  by rewrite Hv.
Qed.

Lemma consumeRequest_ok hub i :
  is_u8 hub → identity_wf i → isValidHostEventIdentity i = true →
  request_wf (consumeRequest hub i)
  ∧ validateOperationRequestM VERSION_MINOR_0_2 (consumeRequest hub i) = OK.
Proof.
  intros Hh Hi Hv. destruct (identity_decodes i Hi Hv) as (? & ? & Ht & Hl & Hd).
  split; [by split_and!|].
  unfold validateOperationRequestM, consumeRequest. cbn [rq_category rq_operation rq_targetId rq_value].
  rewrite Ht, Hl, Hd. reflexivity.
Qed.

Lemma event_sendable request class code value :
  classifyCategoryOperationM VERSION_MINOR_0_2 (rq_category request) (rq_operation request) = VALID →
  rq_category request = OperationCategory.EVENT →
  isValidOperationTarget (rq_category request) (rq_operation request) (rq_targetId request) = true →
  is_u8 code → isValidResultCode class code = true → value_wf value → value_clear value →
  (class = ResultClass.SUCCESS ∧ code = SuccessCode.OK
   ∧ (if rq_operation request =? OperationCode.POLL_EVENTS
      then isValidStructureValue (rq_operation request) value else isNoneValue value) = true
   ∨ class = ResultClass.EVENT_RESULT ∧ code = EventResultCode.STORAGE_FAILURE
     ∧ one_of (rq_operation request) [OperationCode.POLL_EVENTS; OperationCode.CONSUME_EVENT] = true
     ∧ isNoneValue value = true) →
  sendable VERSION_MINOR_0_2 request class code value.
Proof.
  intros Hk Hc Ht Hcode Hr Hw Hcl Hv.
  split_and!; [by destruct Hv as [[-> _]|[-> _]]|done..|].
  unfold validateOperationResponseM, validateEventResponse.
  cbn [rs_category rs_operation rs_targetId resultClass resultCode rs_value].
  rewrite Hk, Ht, Hr, Hc. rewrite !bool_decide_eq_false_2 by done. cbn [negb].
  destruct Hv as [(-> & -> & Hv)|(-> & -> & Ho & Hv)].
  - change (isKnownResultClassM VERSION_MINOR_0_2 ResultClass.SUCCESS) with true.
    rewrite Z.eqb_refl. cbn [negb].
    change (ResultClass.SUCCESS =? ResultClass.EVENT_RESULT) with false. cbn [orb].
    change ((ResultClass.SUCCESS =? ResultClass.SUCCESS) && (SuccessCode.OK =? SuccessCode.OK)) with true.
    cbv iota. destruct (rq_operation request =? OperationCode.POLL_EVENTS); by rewrite Hv.
  - change (isKnownResultClassM VERSION_MINOR_0_2 ResultClass.EVENT_RESULT) with true.
    rewrite !Z.eqb_refl, Hv. cbn [negb orb].
    change (EventResultCode.STORAGE_FAILURE =? EventResultCode.NOT_FOUND) with false. cbn [andb orb].
    by switch_cases Ho.
Qed.

(** ** The service over a sound ledger *)

Section Drain.

Context {W : Type} `{LedgerFacts.DurableCells W}.

Abbreviation M := (st (HubEventLedger.Ledger * W)).

Context (hub node id : Z) (Hhub : is_u8 hub).

Implicit Types (s : HubEventLedger.Ledger) (w : W) (L : list EventRecords.HubRecord).

Lemma handle_event request s w :
  HubEventLedger.ledgerHealthy_ s = true → rq_category request = OperationCategory.EVENT →
  rq_targetDeviceId request = hub → validateOperationRequestM VERSION_MINOR_0_2 request = OK →
  handle id request RuntimeState.HUB hub (s, w)
  = (let base := makeBaseResult id request in
     let result := mkResult HANDLED (rejectionCode base) id (response base) in
     if rq_operation request =? OperationCode.POLL_EVENTS then poll result else
     if rq_operation request =? OperationCode.CONSUME_EVENT then consume result request else
     ret (reject id request RequestRejectionCode.UNSUPPORTED_OPERATION true)) (s, w).
Proof.
  intros Hh Hc Hd Hv. unfold handle. rewrite Hc, Hd, Hv, !Z.eqb_refl, bool_decide_eq_true_2 by done.
  cbn [negb]. unfold gets. cbn [bind]. unfold bind. cbn [fst]. by rewrite Hh.
Qed.

(** The event a poll shows: the oldest, or none. *)
Definition offered L : HostEventRecord :=
  match L with [] => zeroHostEvent | r :: _ => hostEventOf r end.

Lemma offered_ok s w L :
  LedgerOps.hub_sound hub node s w → in_order (HubEventLedger.record_at s) L →
  record_wf (offered L) ∧ isValidHostEventRecord (offered L) = true
  ∧ match HubEventLedger.oldestActive s with
    | Some (_, record) => convert record
    | None => Some zeroHostEvent
    end = Some (offered L).
Proof.
  intros [Hg Hh] HL. pose proof (oldest_head s L Hh HL) as Ho. destruct L as [|r L].
  - rewrite Ho. split; [|done]. cbn [record_wf HostEvent_record offered].
    split_and!; try done. apply zeros_byte.
  - destruct Ho as (i & -> & Hi & <- & Ha).
    destruct (LedgerOps.hub_record_valid hub node s w i Hg Hi) as [Hw Hv].
    by destruct (hostEvent_shown _ Hw Hv Ha) as (-> & ? & ?).
Qed.

Lemma encode_offered e bytes :
  record_wf e → isValidHostEventRecord e = true → bytes = zeros 121 →
  encodeHostEventRecord e (Some bytes) 121
  = (OK, Some (tv_bytes (eventValue e)), HOST_EVENT_RECORD_SIZE).
Proof.
  intros Hw Hv ->. destruct (encodeHostEventValue e setNoneValue) as [res v] eqn:E.
  assert (res = OK) as ->.
  { revert E. unfold encodeHostEventValue, encodeHostEventRecord. rewrite Hv. by intros [= <- _]. }
  destruct (encodeHostEventValue_ok e v Hw E) as [_ ->]. revert E.
  unfold encodeHostEventValue, encodeHostEventRecord. rewrite Hv.
  intros E%(f_equal (tv_bytes ∘ snd)). cbn [compose snd tv_bytes] in E. cbn [negb].
  change (121 <? HOST_EVENT_RECORD_SIZE) with false in *. cbv iota in *. by rewrite <- E.
Qed.

(** Polling answers with the oldest event and changes nothing but counters. *)
Lemma poll_answer s w L :
  LedgerOps.hub_sound hub node s w → in_order (HubEventLedger.record_at s) L →
  ∃ result d, handle id (pollRequest hub) RuntimeState.HUB hub (s, w)
      = (result, (LedgerOps.hub_diagnostics d s, w))
    ∧ hostRead VERSION_MINOR_0_2 result zeroHostEvent = Some (offered L).
Proof.
  intros Hs HL. destruct (offered_ok s w L Hs HL) as (Hw & Hv & Ho).
  destruct (pollRequest_ok hub Hhub) as [Hrw Hrv].
  rewrite handle_event by (try done; apply Hs). cbv zeta.
  change (rq_operation (pollRequest hub) =? OperationCode.POLL_EVENTS) with true. cbv iota.
  unfold poll, gets. unfold bind at 1. cbn [fst]. rewrite Ho. unfold pollResult.
  rewrite encode_offered by done. cbn [negb].
  set (result := setValue _ _).
  assert (Ha : answers id (pollRequest hub) result ResultClass.SUCCESS SuccessCode.OK
    (eventValue (offered L))) by done.
  assert (Hr : hostRead VERSION_MINOR_0_2 result zeroHostEvent = Some (offered L)).
  { pose proof (proj1 (Hw)) as _.
    rewrite (hostRead_sendable VERSION_MINOR_0_2 id (pollRequest hub) result _ _ _ zeroHostEvent Hrw Ha).
    - change (decodeRecord (eventValue (offered L)) zeroHostEvent) with
        (decodeHostEventRecord (Some (tv_bytes (eventValue (offered L))))
           (tv_length (eventValue (offered L))) zeroHostEvent).
      by rewrite decode_eventValue.
    - assert (He : encodeRecord (offered L) setNoneValue = (OK, eventValue (offered L))).
      { change (encodeRecord (offered L) setNoneValue) with
          (encodeHostEventValue (offered L) setNoneValue).
        unfold encodeHostEventValue. by rewrite encode_offered. }
      destruct (codec_value _ _ Hw He) as [? ?].
      apply event_sendable; try done. left. split_and!; [done|done|].
      exact (codec_valid _ _ Hw He). }
  destruct (he_available (offered L) =? 1).
  - exists result. eexists. split; [reflexivity|exact Hr].
  - exists result, (HubEventLedger.diagnostics_ s). split; [|exact Hr]. by destruct s.
Qed.

(** Consuming the oldest event: it is gone, or the flash failed. *)
Lemma consume_answer s w r L :
  LedgerOps.hub_sound hub node s w → in_order (HubEventLedger.record_at s) (r :: L) →
  let request := consumeRequest hub (identityOf (hostEventOf r)) in
  received request = Some request ∧
  ∃ result s' w', handle id request RuntimeState.HUB hub (s, w) = (result, (s', w'))
    ∧ (accepted result = true ∧ LedgerOps.hub_sound hub node s' w'
       ∧ in_order (HubEventLedger.record_at s') L
       ∨ accepted result = false ∧ HubEventLedger.ledgerHealthy_ s' = false
         ∧ ∃ R' L', LedgerOps.hub_custody w' R' ∧ in_order R' L' ∧ (L' = r :: L ∨ L' = L)).
Proof.
  intros Hs HL request.
  destruct (oldest_head s _ (proj2 Hs) HL) as (k & _ & Hk & Hr & Ha).
  destruct (LedgerOps.hub_record_valid hub node s w k (proj1 Hs) Hk) as [Hw Hv]. rewrite Hr in Hw, Hv.
  destruct (hostEvent_shown r Hw Hv Ha) as (_ & (_ & ? & _ & _ & ? & ? & _) & Hval).
  assert (Hiw : identity_wf (identityOf (hostEventOf r))) by by split_and!.
  assert (Hiv : isValidHostEventIdentity (identityOf (hostEventOf r)) = true).
  { revert Hval. unfold isValidHostEventRecord, isValidHostEventIdentity, identityOf.
    change (he_available (hostEventOf r) =? 0) with false. cbv iota.
    cbn [sourceDeviceId eventEpoch eventId]. rewrite !andb_true_iff. tauto. }
  destruct (consumeRequest_ok hub _ Hhub Hiw Hiv) as [Hrw Hrv]. fold request in Hrw, Hrv.
  split; [by apply received_valid|].
  rewrite handle_event by (done || apply Hs). cbv zeta.
  change (rq_operation request =? OperationCode.POLL_EVENTS) with false.
  change (rq_operation request =? OperationCode.CONSUME_EVENT) with true. cbv iota.
  set (result := mkResult _ _ _ _).
  destruct (identity_decodes _ Hiw Hiv) as (_ & _ & _ & Hlen & Hdec).
  unfold consume, request, consumeRequest. cbn [rq_value]. rewrite Hlen, Hdec.
  cbn [sourceDeviceId eventEpoch eventId identityOf hostEventOf he_sourceDeviceId he_eventEpoch he_eventId].
  change (EventProtocol.mkIdentity _ _ _) with (LedgerOps.hub_identity r).
  destruct (LedgerOps.consume_cases hub node s w (LedgerOps.hub_identity r) Hs)
    as (res & s' & w' & Ho & E). unfold bind. rewrite E. cbn [fst snd ret].
  assert (Hfound : ∀ i, (i < 8)%nat →
    HubEventLedger.hasIdentity (LedgerOps.hub_identity r) (HubEventLedger.record_at s i) = true → i = k).
  { intros i Hi Hid. destruct (decide (i = k)) as [|Hne]; [done|]. exfalso.
    destruct (LedgerOps.hg_distinct _ _ _ _ (proj1 Hs) i k Hi Hk Hne) as [Hd _].
    - by eapply LedgerOps.hasIdentity_owned.
    - apply active_owned. by rewrite Hr.
    - apply Hd. rewrite Hr. symmetry. by apply LedgerLife.hasIdentity_spec. }
  assert (Hk' : HubEventLedger.hasIdentity (LedgerOps.hub_identity r) (HubEventLedger.record_at s k) = true).
  { rewrite Hr. unfold HubEventLedger.hasIdentity, LedgerOps.hub_identity.
    cbn [EventProtocol.sourceDeviceId EventProtocol.identityEpoch EventProtocol.identityId].
    by rewrite active_owned, !Z.eqb_refl. }
  assert (HLk : in_order (HubEventLedger.record_at s) (HubEventLedger.record_at s k :: L)) by by rewrite Hr.
  eexists _, s', w'. split; [reflexivity|].
  destruct Ho as [Hno|i Hi Hid Hst|i s1 w1 Hi Hid Hst [Hs1 Hr1]|i s1 w1 Hi Hid Hst [Hh1 Hc1]].
  - by rewrite Hno in Hk'.
  - rewrite (Hfound i Hi Hid), Hr in Hst. unfold is_active in Ha. by rewrite Hst in Ha.
  - left. rewrite (Hfound i Hi Hid) in *. split_and!; [|done|].
    + pose proof none_wf as [? ?].
      rewrite (accepted_sendable id request _ ResultClass.SUCCESS SuccessCode.OK setNoneValue);
        [done|done|done|]. apply event_sendable; try done. by left.
    + eapply in_order_ext; [intros j; symmetry; apply Hr1|]. by apply in_order_consumed.
  - right. rewrite (Hfound i Hi Hid) in *. split_and!; [|done|].
    + pose proof none_wf as [? ?].
      rewrite (accepted_sendable id request _ ResultClass.EVENT_RESULT EventResultCode.STORAGE_FAILURE
        setNoneValue); [done|done|done|]. apply event_sendable; try done. by right.
    + destruct Hc1 as [Hc|Hc]; eexists _, _; (split; [exact Hc|]).
      * split; [exact HL|]. by left.
      * split; [by apply in_order_consumed|]. by right.
Qed.

(** One request of the host, over the encoding. *)
Definition asked (request : OperationRequest) : M (option Result) :=
  match received request with
  | None => ret None
  | Some r => result <~ handle id r RuntimeState.HUB hub ;; ret (Some result)
  end.

(** The host's loop: poll the oldest event, consume it, and so on until there is
    none ([true]) or an answer that is not a success. *)
Fixpoint drain (fuel : nat) : M (list HostEventRecord * bool) :=
  match fuel with
  | O => ret ([], false)
  | S fuel' =>
      polled <~ asked (pollRequest hub) ;;
      match polled ≫= λ result, hostRead VERSION_MINOR_0_2 result zeroHostEvent with
      | None => ret ([], false)
      | Some event =>
          if he_available event =? 0 then ret ([], true) else
          consumed <~ asked (consumeRequest hub (identityOf event)) ;;
          if default false (accepted <$> consumed) then
            rest <~ drain fuel' ;;
            ret (event :: rest.1, rest.2)
          else ret ([event], false)
      end
  end.

Lemma drain_sound fuel : ∀ s w L seen finished x,
  LedgerOps.hub_sound hub node s w → in_order (HubEventLedger.record_at s) L →
  (length L < fuel)%nat → drain fuel (s, w) = ((seen, finished), x) →
  ∃ R' L', LedgerLife.hub_serving hub node R' x ∧ in_order R' L'
    ∧ (finished = true ∧ HubEventLedger.ledgerHealthy_ x.1 = true ∧ seen = hostEventOf <$> L ∧ L' = []
       ∨ finished = false ∧ HubEventLedger.ledgerHealthy_ x.1 = false
         ∧ ∃ past r future, L = past ++ r :: future
           ∧ seen = hostEventOf <$> past ++ [r]
           ∧ (L' = r :: future ∨ L' = future)).
Proof.
  induction fuel as [|fuel IH]; intros s w L seen finished x Hs HL Hf E; [lia|].
  cbn [drain] in E. destruct (pollRequest_ok hub Hhub) as [Hrw Hrv].
  destruct (poll_answer s w L Hs HL) as (result & d & Ep & Hread).
  assert (Ea : asked (pollRequest hub) (s, w) = (Some result, (LedgerOps.hub_diagnostics d s, w))).
  { unfold asked. rewrite received_valid by done. by rewrite (bind_run _ _ _ _ _ Ep). }
  rewrite (bind_run _ _ _ _ _ Ea) in E. cbn [mbind option_bind] in E. rewrite Hread in E.
  apply (LedgerOps.hub_sound_diagnostics hub node d) in Hs.
  set (s1 := LedgerOps.hub_diagnostics d s) in *.
  change (HubEventLedger.record_at s) with (HubEventLedger.record_at s1) in HL.
  destruct L as [|r L].
  { cbn in E. injection E as <- <- <-. exists (HubEventLedger.record_at s1), [].
    split; [by apply LedgerLife.hub_serving_sound|]. split; [done|]. left. by destruct Hs. }
  change (he_available (offered (r :: L)) =? 0) with false in E. cbv iota in E.
  destruct (consume_answer s1 w r L Hs HL) as (Hrec & result2 & s2 & w2 & Ec & Hres).
  assert (Ea2 : asked (consumeRequest hub (identityOf (offered (r :: L)))) (s1, w)
    = (Some result2, (s2, w2))).
  { unfold asked. cbn [offered]. rewrite Hrec. by rewrite (bind_run _ _ _ _ _ Ec). }
  rewrite (bind_run _ _ _ _ _ Ea2) in E. cbn [fmap option_fmap option_map default] in E.
  destruct Hres as [(Hacc & Hs2 & HL2)|(Hacc & Hh & R' & L' & Hc & HL' & Hor)];
    rewrite Hacc in E; cbn [default from_option] in E; unfold Datatypes.id in E.
  - destruct (drain fuel (s2, w2)) as [[seen' finished'] x'] eqn:Ed.
    rewrite (bind_run _ _ _ _ _ Ed) in E. cbn in E. injection E as <- <- <-.
    cbn [length] in Hf.
    destruct (IH s2 w2 L seen' finished' x' Hs2 HL2 ltac:(lia) Ed) as (R' & L' & Hx & Ho & Hcase).
    exists R', L'. split; [done|]. split; [done|].
    destruct Hcase as [(? & ? & -> & ->)|(? & ? & past & r' & future & -> & -> & HL')]; [by left|right].
    split; [done|]. split; [done|]. by exists (r :: past), r', future.
  - injection E as <- <- <-. exists R', L'. split; [by right|]. split; [done|]. right.
    split; [done|]. split; [done|]. by exists [], r, L.
Qed.

(** C29. The host loses no event.  Let a host poll the oldest event and consume
    it, over and over, against a ledger that serves: nine rounds are enough,
    and what it decodes is every active event of the ledger, each once, oldest
    admission first and as it was admitted, after which none is left.  Or the
    flash fails a consumption: then the loop stops at that event with the
    events before it seen and consumed, and the flash keeps in order all the
    events after it, and that event or not, for the next start. *)
Theorem host_drains_ledger s w :
  LedgerOps.hub_sound hub node s w →
  ∃ L, in_order (HubEventLedger.record_at s) L ∧
  let '((seen, finished), x) := drain 9 (s, w) in
  ∃ R' L', LedgerLife.hub_serving hub node R' x ∧ in_order R' L'
    ∧ (finished = true ∧ HubEventLedger.ledgerHealthy_ x.1 = true ∧ seen = hostEventOf <$> L ∧ L' = []
       ∨ finished = false ∧ HubEventLedger.ledgerHealthy_ x.1 = false
         ∧ ∃ past r future, L = past ++ r :: future
           ∧ seen = hostEventOf <$> past ++ [r]
           ∧ (L' = r :: future ∨ L' = future)).
Proof.
  intros Hs. destruct (actives_ordered _ (LedgerOps.hg_distinct _ _ _ _ (proj1 Hs))) as [L HL].
  exists L. split; [done|]. destruct (drain 9 (s, w)) as [[seen finished] x] eqn:E.
  eapply drain_sound; [done|done| |done]. pose proof (in_order_length _ _ HL). lia.
Qed.

End Drain.

(** ** A ledger with one event *)

Import LedgerLife.

Lemma host_drains_ledger_witness :
  let run := drain 1 7 9 (admitted_one.1, admitted_one.2) in
  (run.1.2 = true
   ∧ run.1.1 = [mkHostEvent 1 17 EventProtocol.Family.BUTTON 0 5 9 60 1
                  [3; 0; 0; 0; 0; 0; 0; 0; 0; 0; 0; 0]])
  ∧ ∃ L, in_order (HubEventLedger.record_at admitted_one.1) L ∧
  let '((seen, finished), x) := run in
  ∃ R' L', LedgerLife.hub_serving 1 17 R' x ∧ in_order R' L'
    ∧ (finished = true ∧ HubEventLedger.ledgerHealthy_ x.1 = true ∧ seen = hostEventOf <$> L ∧ L' = []
       ∨ finished = false ∧ HubEventLedger.ledgerHealthy_ x.1 = false
         ∧ ∃ past r future, L = past ++ r :: future
           ∧ seen = hostEventOf <$> past ++ [r]
           ∧ (L' = r :: future ∨ L' = future)).
Proof.
  cbv zeta. split; [split; vm_compute; reflexivity|].
  assert (H1 : is_u8 1) by (uint_unfold; lia).
  exact (host_drains_ledger 1 17 7 H1 admitted_one.1
    admitted_one.2 (proj1 admitted_one_facts)).
Defined.

End HostEventFacts.
