(* ===== verification/WireOps.v ===== *)
(** Structured operations over the radio, lib/wire_operations: the request and
    response payloads, the command and response packets, the remote side of a
    capability operation, and the transaction states of Node and Hub. *)

From S2P Require Import Prelude Wire Diagnostics Capabilities HostFrame HostRecords HostMessages.

Module WireOperations.

Import Protocol.
Import HostProtocolRecords(readUint16Le, writeUint16Le, expectedScalarValueLength, TypedValue,
  mkTyped, zeroValue).
Import HostProtocolMessages(isValidSuccessfulOperationValue).

(* wire_operations.h:11 REQUEST_FIXED_SIZE *)
Definition REQUEST_FIXED_SIZE : Z := 4.

(* wire_operations.h:12 RESPONSE_FIXED_SIZE *)
Definition RESPONSE_FIXED_SIZE : Z := 5.

(* wire_operations.h:13-14 MAX_REQUEST_VALUE_SIZE *)
Definition MAX_REQUEST_VALUE_SIZE : Z := Protocol.MAX_PAYLOAD_SIZE - REQUEST_FIXED_SIZE.

(* wire_operations.h:15-16 MAX_RESPONSE_VALUE_SIZE *)
Definition MAX_RESPONSE_VALUE_SIZE : Z := Protocol.MAX_PAYLOAD_SIZE - RESPONSE_FIXED_SIZE.

(* wire_operations.h:17 STRUCTURE_VALUE_TYPE *)
Definition STRUCTURE_VALUE_TYPE : Z := HostProtocol.STRUCTURE_VALUE_TYPE.

(* wire_operations.h:22-26 Value *)
Record Value := mkWireValue { v_type : Z; v_length : Z; v_bytes : list Z }.

(** [Value value = {};] *)
Definition zeroWireValue : Value := mkWireValue 0 0 (zeros 22).

(* wire_operations.h:28-31 = Request *)
Record Request := mkWireRequest { wq_targetId : Z; wq_value : Value }.

(* wire_operations.h:33-37 = Response *)
Record Response := mkWireResponse { ws_status : Z; ws_targetId : Z; ws_value : Value }.

Definition zeroWireRequest : Request := mkWireRequest 0 zeroWireValue.

Definition zeroWireResponse : Response := mkWireResponse 0 0 zeroWireValue.

(* wire_operations.h:39-49 CodecResult *)
Inductive CodecResult :=
  OK | NULL_ARGUMENT | UNSUPPORTED_OPCODE | INVALID_LENGTH | INVALID_TARGET | INVALID_VALUE_TYPE
| INVALID_VALUE | INVALID_STATUS | OUTPUT_TOO_SMALL.

#[global] Instance CodecResult_eq_dec : EqDecision CodecResult.
Proof. solve_decision. Defined.

(* wire_operations.h:51-54 isStructuredOpcode *)
Definition isStructuredOpcode (opcode : Z) : bool :=
  (Opcode.PING <=? opcode) && (opcode <=? Opcode.GET_DIAGNOSTICS).

(* wire_operations.h:56-58 scalarLength *)
Definition scalarLength (type : Z) : Z := expectedScalarValueLength type.

(* wire_operations.h:60-67 isScalarValue *)
Definition isScalarValue (value : Value) : bool :=
  if (v_type value =? STRUCTURE_VALUE_TYPE)
     || negb (DeviceCapabilities.isKnownValueType (v_type value)) then false else
  if negb (v_length value =? scalarLength (v_type value)) then false else
  negb (v_type value =? DeviceCapabilities.ValueType.BOOLEAN) || (rd (v_bytes value) 0 <=? 1).

(* wire_operations.h:69-72 isNone *)
Definition isNone (value : Value) : bool :=
  (v_type value =? DeviceCapabilities.ValueType.NONE) && (v_length value =? 0).

(* wire_operations.h:74-77 isUint32 *)
Definition isUint32 (value : Value) : bool :=
  (v_type value =? DeviceCapabilities.ValueType.UNSIGNED_32) && isScalarValue value.

(* wire_operations.h:79-104 isValidRequestSchema *)
Definition isValidRequestSchema (opcode : Z) (request : Request) : bool :=
  if negb (isStructuredOpcode opcode) || negb (isScalarValue (wq_value request)) then false else
  if one_of opcode [Opcode.PING; Opcode.GET_DEVICE_INFO; Opcode.GET_STATUS]
  then (wq_targetId request =? 0) && isNone (wq_value request) else
  if one_of opcode [Opcode.GET_CAPABILITIES; Opcode.GET_DIAGNOSTICS]
  then (wq_targetId request =? 0) && (isNone (wq_value request) || isUint32 (wq_value request)) else
  if one_of opcode [Opcode.DESCRIBE_CAPABILITY; Opcode.READ_CAPABILITY]
  then negb (wq_targetId request =? 0) && isNone (wq_value request) else
  if opcode =? Opcode.SET_INDICATOR
  then negb (wq_targetId request =? 0)
       && (v_type (wq_value request) =? DeviceCapabilities.ValueType.BOOLEAN) else
  if opcode =? Opcode.RUN_PROCEDURE then negb (wq_targetId request =? 0) else
  false.

(** An encoder returns its result, the buffer as it leaves it, and the length. *)
(* wire_operations.h:106-126 encodeRequest *)
Definition encodeRequest (opcode : Z) (request : Request) (output : option (list Z)) (capacity : Z)
    : CodecResult * option (list Z) * Z :=
  match output with
  | None => (NULL_ARGUMENT, None, 0)
  | Some out =>
      if negb (isStructuredOpcode opcode) then (UNSUPPORTED_OPCODE, output, 0) else
      if negb (isValidRequestSchema opcode request) then (INVALID_VALUE, output, 0) else
      let value := wq_value request in
      let required := REQUEST_FIXED_SIZE + v_length value in
      if Protocol.MAX_PAYLOAD_SIZE <? required then (INVALID_LENGTH, output, 0) else
      if capacity <? required then (OUTPUT_TOO_SMALL, output, 0) else
      let out := writeUint16Le out 0 (wq_targetId request) in
      let out := upd (upd out 2 (v_type value)) 3 (v_length value) in
      (OK, Some (copy_bytes (Z.to_nat (v_length value)) out 4 (v_bytes value) 0), required)
  end.

(* wire_operations.h:128-154 decodeRequest *)
Definition decodeRequest (opcode : Z) (input : option (list Z)) (inputLength : Z)
    (request : Request) : CodecResult * Request :=
  match input with
  | None => (NULL_ARGUMENT, request)
  | Some inp =>
      if negb (isStructuredOpcode opcode) then (UNSUPPORTED_OPCODE, request) else
      if (inputLength <? REQUEST_FIXED_SIZE) || (Protocol.MAX_PAYLOAD_SIZE <? inputLength)
      then (INVALID_LENGTH, request) else
      let valueLength := rd inp 3 in
      if (MAX_REQUEST_VALUE_SIZE <? valueLength)
         || negb (inputLength =? REQUEST_FIXED_SIZE + valueLength)
      then (INVALID_LENGTH, request) else
      let candidate :=
        mkWireRequest (readUint16Le inp 0)
          (mkWireValue (rd inp 2) valueLength
             (copy_bytes (Z.to_nat valueLength) (zeros 22) 0 inp 4)) in
      let type := v_type (wq_value candidate) in
      if negb (DeviceCapabilities.isKnownValueType type) || (type =? STRUCTURE_VALUE_TYPE)
      then (INVALID_VALUE_TYPE, request) else
      if negb (isValidRequestSchema opcode candidate) then (INVALID_VALUE, request) else
      (OK, candidate)
  end.

(* wire_operations.h:156-163 toHostValue *)
Definition toHostValue (input : Value) (output : TypedValue) : bool * TypedValue :=
  if MAX_REQUEST_VALUE_SIZE <? v_length input then (false, output) else
  (true, mkTyped (v_type input) (v_length input)
           (copy_bytes (Z.to_nat (v_length input)) (zeros 121) 0 (v_bytes input) 0)).

(* wire_operations.h:165-170 isValidSuccessValue *)
Definition isValidSuccessValue (opcode : Z) (value : Value) : bool :=
  let (converted, host) := toHostValue value zeroValue in
  if negb converted then false else isValidSuccessfulOperationValue opcode host.

(* wire_operations.h:175-180 = isValidResponseSchema, the operations without a target *)
Definition zeroTargetOperation (opcode : Z) : bool :=
  (opcode =? Opcode.PING) || (opcode =? Opcode.GET_DEVICE_INFO) || (opcode =? Opcode.GET_STATUS)
  || (opcode =? Opcode.GET_CAPABILITIES) || (opcode =? Opcode.GET_DIAGNOSTICS).

(* wire_operations.h:172-185 isValidResponseSchema *)
Definition isValidResponseSchema (opcode : Z) (response : Response) : bool :=
  if negb (isStructuredOpcode opcode)
     || negb (DeviceCapabilities.isKnownOperationStatus (ws_status response)) then false else
  if (zeroTargetOperation opcode && negb (ws_targetId response =? 0))
     || (negb (zeroTargetOperation opcode) && (ws_targetId response =? 0)) then false else
  if negb (ws_status response =? DeviceCapabilities.OperationStatus.OK)
  then isNone (ws_value response) else
  isValidSuccessValue opcode (ws_value response).

(* wire_operations.h:187-208 encodeResponse *)
Definition encodeResponse (opcode : Z) (response : Response) (output : option (list Z))
    (capacity : Z) : CodecResult * option (list Z) * Z :=
  match output with
  | None => (NULL_ARGUMENT, None, 0)
  | Some out =>
      if negb (isStructuredOpcode opcode) then (UNSUPPORTED_OPCODE, output, 0) else
      if negb (isValidResponseSchema opcode response) then (INVALID_VALUE, output, 0) else
      let value := ws_value response in
      let required := RESPONSE_FIXED_SIZE + v_length value in
      if Protocol.MAX_PAYLOAD_SIZE <? required then (INVALID_LENGTH, output, 0) else
      if capacity <? required then (OUTPUT_TOO_SMALL, output, 0) else
      let out := upd out 0 (ws_status response) in
      let out := writeUint16Le out 1 (ws_targetId response) in
      let out := upd (upd out 3 (v_type value)) 4 (v_length value) in
      (OK, Some (copy_bytes (Z.to_nat (v_length value)) out 5 (v_bytes value) 0), required)
  end.

(* wire_operations.h:210-235 decodeResponse *)
Definition decodeResponse (opcode : Z) (input : option (list Z)) (inputLength : Z)
    (response : Response) : CodecResult * Response :=
  match input with
  | None => (NULL_ARGUMENT, response)
  | Some inp =>
      if negb (isStructuredOpcode opcode) then (UNSUPPORTED_OPCODE, response) else
      if (inputLength <? RESPONSE_FIXED_SIZE) || (Protocol.MAX_PAYLOAD_SIZE <? inputLength)
      then (INVALID_LENGTH, response) else
      let valueLength := rd inp 4 in
      if (MAX_RESPONSE_VALUE_SIZE <? valueLength)
         || negb (inputLength =? RESPONSE_FIXED_SIZE + valueLength)
      then (INVALID_LENGTH, response) else
      let candidate :=
        mkWireResponse (rd inp 0) (readUint16Le inp 1)
          (mkWireValue (rd inp 3) valueLength
             (copy_bytes (Z.to_nat valueLength) (zeros 22) 0 inp 5)) in
      if negb (DeviceCapabilities.isKnownOperationStatus (ws_status candidate))
      then (INVALID_STATUS, response) else
      if negb (isValidResponseSchema opcode candidate) then (INVALID_VALUE, response) else
      (OK, candidate)
  end.

(** The payload of a packet after an encoder has written to it. *)
Definition encodedInto (packet : Packet) (encoded : CodecResult * option (list Z) * Z) : Packet :=
  match encoded with
  | (result, buffer, length) =>
      mkPacket (type packet) (source packet) (destination packet) (sequence packet) (opcode packet)
        (if bool_decide (result = OK) then u8 length else payloadLength packet)
        (default (payload packet) buffer)
  end.

(* wire_operations.h:237-250 makeCommand *)
Definition makeCommand (source destination sequence opcode : Z) (request : Request) : Packet :=
  let packet := mkPacket PacketType.COMMAND source destination sequence opcode 0 (zeros 26) in
  encodedInto packet (encodeRequest opcode request (Some (payload packet)) 26).

(* wire_operations.h:252-264 makeResponsePacket *)
Definition makeResponsePacket (command : Packet) (response : Response) : Packet :=
  let packet :=
    mkPacket PacketType.RESPONSE (destination command) (source command) (sequence command)
      (opcode command) 0 (zeros 26) in
  encodedInto packet (encodeResponse (opcode command) response (Some (payload packet)) 26).

(** ** The remote side of a capability operation *)

Section Remote.

Import DeviceCapabilities.

Context {W : Type} `{LocalCapabilityHandler W}.

(** The handler's result, checked. *)
(* wire_operations.h:305-313 = processRemoteCapability, the handler *)
Definition remoteExecute (descriptor : CapabilityDescriptor) (operation : Z)
    (input : CapabilityValue) : st W OperationResult :=
  result <~ execute descriptor operation input ;;
  ret (
    if negb (isValidOperationResult result) || negb (isHandlerOwnedStatus (result_status result))
       || ((result_status result =? OperationStatus.OK) && (operation =? Operation.READ)
           && negb (isValueWithinBounds descriptor (result_value result)))
       || ((result_status result =? OperationStatus.OK) && negb (operation =? Operation.READ)
           && negb (isCanonicalNoneValue (result_value result)))
    then makeCanonicalFailureResult OperationStatus.OPERATION_FAILED else result).

(* wire_operations.h:276-317 = processRemoteCapability, the result *)
Definition remoteResult (registry : CapabilityRegistryView) (capabilityId operation : Z)
    (input : CapabilityValue) (interlock : Z) : st W OperationResult :=
  let refuse status := ret (makeCanonicalFailureResult status) in
  if negb (isValidCapabilityRegistry registry) then refuse OperationStatus.INVALID_DESCRIPTOR else
  let (found, descriptor) := findCapability registry capabilityId zeroDescriptor in
  if negb found then refuse OperationStatus.CAPABILITY_NOT_FOUND else
  let caller := mkCaller CallerClass.FUTURE_REMOTE (zeros 3) in
  if (operation =? Operation.SET) || (operation =? Operation.RUN_LOCAL_PROCEDURE)
  then refuse OperationStatus.UNAUTHORIZED else
  if negb (isHandlerDispatchableOperation operation)
     || negb (supportsOperation descriptor operation)
  then refuse OperationStatus.UNSUPPORTED_OPERATION else
  if negb (isOperationAuthorized descriptor operation caller)
  then refuse OperationStatus.UNAUTHORIZED else
  if (operation =? Operation.SET)
     && (negb (isValidCapabilityValue input)
         || negb (value_type input =? valueType descriptor))
  then refuse OperationStatus.INVALID_VALUE_TYPE else
  if (operation =? Operation.SET) && negb (isValueWithinBounds descriptor input)
  then refuse OperationStatus.VALUE_OUT_OF_RANGE else
  if negb (operation =? Operation.SET) && negb (isCanonicalNoneValue input)
  then refuse OperationStatus.INVALID_VALUE_TYPE else
  if negb (isOperationSafe descriptor operation interlock)
  then refuse OperationStatus.INTERLOCK_ACTIVE else
  remoteExecute descriptor operation input.

(* wire_operations.h:266-319 processRemoteCapability *)
Definition processRemoteCapability (registry : CapabilityRegistryView) (capabilityId operation : Z)
    (input : CapabilityValue) (interlock : Z) : st (CapabilityDiagnosticsSnapshot * W) OperationResult :=
  result <~ outside (remoteResult registry capabilityId operation input interlock) ;;
  update (λ s, (recordOutcome (result_status result) 1 s).2) ;;;
  ret result.

End Remote.

(** ** The Node *)

(* wire_transaction_state.h:8-16 AdmissionOutcome *)
Inductive AdmissionOutcome :=
  IGNORE | ADMISSION_UNSUPPORTED_OPCODE | MALFORMED | ADMITTED | DUPLICATE_PENDING
| DUPLICATE_COMPLETE | ACTIVE_BUSY.

(* wire_transaction_state.h:83-92 = NodeRetainedOperation fields *)
Record NodeRetainedOperation := mkRetained {
  hasEntry_ : bool;
  complete_ : bool;
  source_ : Z;
  destination_ : Z;
  sequence_ : Z;
  opcode_ : Z;
  payloadLength_ : Z;
  payload_ : list Z;
  response_ : Packet;
  lookupCount_ : Z
}.

#[export] Instance eta_NodeRetainedOperation : RecEta NodeRetainedOperation := λ r,
  mkRetained (hasEntry_ r) (complete_ r) (source_ r) (destination_ r) (sequence_ r) (opcode_ r)
    (payloadLength_ r) (payload_ r) (response_ r) (lookupCount_ r).

(** Also [NodeRetainedOperation::reset]. *)
(* wire_transaction_state.h:83-92 = NodeRetainedOperation, initial values *)
Definition newRetained : NodeRetainedOperation :=
  mkRetained false false 0 0 0 0 0 (zeros 26) zeroPacket 0.

(* wire_transaction_state.h:20 NodeRetainedOperation::isActive *)
Definition isActive (r : NodeRetainedOperation) : bool := hasEntry_ r && negb (complete_ r).

(* wire_transaction_state.h:22 NodeRetainedOperation::isComplete *)
Definition isComplete (r : NodeRetainedOperation) : bool := hasEntry_ r && complete_ r.

(* wire_transaction_state.h:25-34 NodeRetainedOperation::isDuplicate *)
Definition isDuplicate (command : Packet) (r : NodeRetainedOperation)
    : bool * NodeRetainedOperation :=
  let r := r <| lookupCount_ := u32 (lookupCount_ r + 1) |> in
  if negb (hasEntry_ r) || negb (source command =? source_ r)
     || negb (sequence command =? sequence_ r) || negb (opcode command =? opcode_ r)
     || negb (payloadLength command =? payloadLength_ r)
  then (false, r)
  else (bytes_eqb (Z.to_nat (payloadLength command)) (payload command) (payload_ r) 0, r).

(* wire_transaction_state.h:36-47 NodeRetainedOperation::reserve *)
Definition reserve (command : Packet) (r : NodeRetainedOperation) : bool * NodeRetainedOperation :=
  if isActive r || (Protocol.MAX_PAYLOAD_SIZE <? payloadLength command) then (false, r) else
  (true,
   mkRetained true false (source command) (destination command) (sequence command)
     (opcode command) (payloadLength command)
     (map (λ i, if Z.of_nat i <? payloadLength command then rd (payload command) i else 0)
        (seq 0 26))
     zeroPacket (lookupCount_ r)).

(* wire_transaction_state.h:49-63 NodeRetainedOperation::complete *)
Definition complete (response : Packet) (r : NodeRetainedOperation)
    : bool * NodeRetainedOperation :=
  if negb (isActive r) || negb (type response =? PacketType.RESPONSE)
     || negb (source response =? destination_ r) || negb (destination response =? source_ r)
     || negb (sequence response =? sequence_ r) || negb (opcode response =? opcode_ r)
  then (false, r) else
  match decodeResponse (opcode response) (Some (payload response)) (payloadLength response)
          zeroWireResponse with
  | (OK, decoded) =>
      match decodeRequest (opcode_ r) (Some (payload_ r)) (payloadLength_ r) zeroWireRequest with
      | (OK, request) =>
          if negb (ws_targetId decoded =? wq_targetId request) then (false, r)
          else (true, r <| response_ := response |> <| complete_ := true |>)
      | _ => (false, r)
      end
  | _ => (false, r)
  end.

(* wire_transaction_state.h:74-82 NodeRetainedOperation::rememberedCommand *)
Definition rememberedCommand (r : NodeRetainedOperation) : Packet :=
  mkPacket PacketType.COMMAND (source_ r) (destination_ r) (sequence_ r) (opcode_ r)
    (payloadLength_ r) (copy_bytes (Z.to_nat (payloadLength_ r)) (zeros 26) 0 (payload_ r) 0).

(* wire_transaction_state.h:65-69 NodeRetainedOperation::acknowledgment *)
Definition acknowledgment (r : NodeRetainedOperation) : Packet :=
  TransactionEngine.makeAcknowledgment (rememberedCommand r) AckStatus.SUCCESS.

(* wire_transaction_state.h:95-98 = AdmissionResult *)
Record AdmissionResult := mkAdmissionResult {
  ar_outcome : AdmissionOutcome;
  acknowledgmentStatus : Z
}.

(* wire_transaction_state.h:100-125 admitNodeCommand *)
Definition admitNodeCommand (command : Packet) (localId peerId : Z)
    : st NodeRetainedOperation AdmissionResult := λ retained,
  if negb (destination command =? localId) || negb (source command =? peerId)
     || negb (type command =? PacketType.COMMAND)
  then (mkAdmissionResult IGNORE AckStatus.SUCCESS, retained) else
  if negb (isStructuredOpcode (opcode command))
  then (mkAdmissionResult ADMISSION_UNSUPPORTED_OPCODE AckStatus.UNSUPPORTED_OPCODE, retained) else
  if negb (bool_decide ((decodeRequest (opcode command) (Some (payload command))
                           (payloadLength command) zeroWireRequest).1 = OK))
  then (mkAdmissionResult MALFORMED AckStatus.MALFORMED_PACKET, retained) else
  let (duplicate, retained) := isDuplicate command retained in
  if duplicate
  then (mkAdmissionResult (if isComplete retained then DUPLICATE_COMPLETE else DUPLICATE_PENDING)
          AckStatus.SUCCESS, retained) else
  if isActive retained then (mkAdmissionResult ACTIVE_BUSY AckStatus.SUCCESS, retained) else
  (mkAdmissionResult ADMITTED AckStatus.SUCCESS, (reserve command retained).2).

(** ** The Hub *)

(* wire_transaction_state.h:127 PeerSupport *)
Inductive PeerSupport := SUPPORT_UNKNOWN | SUPPORTED | UNSUPPORTED.

#[global] Instance PeerSupport_eq_dec : EqDecision PeerSupport.
Proof. solve_decision. Defined.

(* wire_transaction_state.h:129-135 mayStartStructuredOperation *)
Definition mayStartStructuredOperation (support : PeerSupport) (opcode : Z)
    (explicitlyConfigured : bool) : bool :=
  explicitlyConfigured || bool_decide (support = SUPPORTED)
  || (bool_decide (support = SUPPORT_UNKNOWN) && (opcode =? Opcode.PING)).

(* wire_transaction_state.h:137 StructuredPhase *)
Inductive StructuredPhase := IDLE | AWAITING_ACK | AWAITING_RESPONSE.

#[global] Instance StructuredPhase_eq_dec : EqDecision StructuredPhase.
Proof. solve_decision. Defined.

(* wire_transaction_state.h:138-141 StructuredEvent *)
Inductive StructuredEvent :=
  EVENT_NONE | ACK_ACCEPTED | REMOTE_REJECTED | RESPONSE_COMPLETE | MALFORMED_IGNORED
| MISMATCH_IGNORED | RETRANSMIT | TIMEOUT.

(* wire_transaction_state.h:212-219 = HubStructuredTransaction fields *)
Record HubStructuredTransaction := mkTransaction {
  phase_ : StructuredPhase;
  support_ : PeerSupport;
  command_ : Packet;
  result_ : Response;
  requestTarget_ : Z;
  deadline_ : Z;
  retries_ : Z;
  maxRetries_ : Z
}.

#[export] Instance eta_HubStructuredTransaction : RecEta HubStructuredTransaction := λ t,
  mkTransaction (phase_ t) (support_ t) (command_ t) (result_ t) (requestTarget_ t) (deadline_ t)
    (retries_ t) (maxRetries_ t).

(* wire_transaction_state.h:212-219 = HubStructuredTransaction, initial values *)
Definition newTransaction : HubStructuredTransaction :=
  mkTransaction IDLE SUPPORT_UNKNOWN zeroPacket zeroWireResponse 0 0 0 0.

(* wire_transaction_state.h:145-157 HubStructuredTransaction::begin *)
Definition begin (command : Packet) (now overallTimeout maxRetries : Z)
    : st HubStructuredTransaction bool := λ t,
  if negb (bool_decide (phase_ t = IDLE)) || negb (type command =? PacketType.COMMAND)
     || negb (isStructuredOpcode (opcode command)) then (false, t) else
  match decodeRequest (opcode command) (Some (payload command)) (payloadLength command)
          zeroWireRequest with
  | (OK, request) =>
      (true, mkTransaction AWAITING_ACK (support_ t) command (result_ t) (wq_targetId request)
               (u32 (now + overallTimeout)) 0 maxRetries)
  | _ => (false, t)
  end.

(* wire_transaction_state.h:165-197 HubStructuredTransaction::receive *)
Definition receive (packet : Packet) : st HubStructuredTransaction StructuredEvent := λ t,
  if bool_decide (phase_ t = IDLE) then (MISMATCH_IGNORED, t) else
  if negb (source packet =? destination (command_ t))
     || negb (destination packet =? source (command_ t))
     || negb (sequence packet =? sequence (command_ t))
     || negb (opcode packet =? opcode (command_ t))
  then (MISMATCH_IGNORED, t) else
  if type packet =? PacketType.ACK then
    let status := rd (payload packet) 0 in
    if negb (payloadLength packet =? 1) || negb (isValidAckStatus status)
    then (MALFORMED_IGNORED, t) else
    if negb (status =? AckStatus.SUCCESS) then
      let t := if (opcode (command_ t) =? Opcode.PING) && (status =? AckStatus.UNSUPPORTED_OPCODE)
               then t <| support_ := UNSUPPORTED |> else t in
      (REMOTE_REJECTED, t <| phase_ := IDLE |>)
    else (ACK_ACCEPTED, t <| phase_ := AWAITING_RESPONSE |>)
  else
  if negb (type packet =? PacketType.RESPONSE) then (MISMATCH_IGNORED, t) else
  match decodeResponse (opcode packet) (Some (payload packet)) (payloadLength packet)
          zeroWireResponse with
  | (OK, decoded) =>
      if negb (ws_targetId decoded =? requestTarget_ t) then (MALFORMED_IGNORED, t) else
      (RESPONSE_COMPLETE,
       t <| result_ := decoded |> <| support_ := SUPPORTED |> <| phase_ := IDLE |>)
  | _ => (MALFORMED_IGNORED, t)
  end.

(* wire_transaction_state.h:199-208 HubStructuredTransaction::service *)
Definition service (now : Z) : st HubStructuredTransaction StructuredEvent := λ t,
  if bool_decide (phase_ t = IDLE) || (sint32 (now - deadline_ t) <? 0) then (EVENT_NONE, t) else
  if retries_ t <? maxRetries_ t
  then (RETRANSMIT, t <| retries_ := u8 (retries_ t + 1) |>)
  else (TIMEOUT, t <| phase_ := IDLE |>).

(* wire_transaction_state.h:209 HubStructuredTransaction::configureSupport *)
Definition configureSupport (support : PeerSupport) (t : HubStructuredTransaction)
    : HubStructuredTransaction := t <| support_ := support |>.

End WireOperations.
