(* ===== verification/Bridge.v ===== *)
(** The bridge between host operations and radio operations,
    lib/radio_operation_bridge: on the Hub a host request becomes a command and
    the peer's response a host response; on the Node an admitted command is
    executed once and its response kept for duplicates. *)

From S2P Require Import Prelude Wire Diagnostics Capabilities HostFrame HostRecords HostMessages HostService WireOps.

Module RadioOperationBridge.

Import Protocol WireOperations.
Import HostProtocolRecords(TypedValue, mkTyped, tv_type, tv_length, tv_bytes, zeroValue, setNoneValue).
Import HostProtocolMessages(OperationRequest, mkRequest, rq_category, rq_operation,
  rq_targetDeviceId, rq_targetId, rq_value, OperationResponse, mkResponse, rs_category, rs_operation,
  rs_targetDeviceId, rs_targetId, resultClass, resultCode, rs_value).

(* radio_operation_bridge.h:10-16 HubAction *)
Inductive HubAction := HUB_NONE | NOT_HANDLED | NOT_ACCEPTED | TRANSMIT_COMMAND | HOST_RESPONSE_READY.

#[global] Instance HubAction_eq_dec : EqDecision HubAction.
Proof. solve_decision. Defined.

(* radio_operation_bridge.h:18-23 = HubResult *)
Record HubResult := mkHubResult {
  hb_action : HubAction;
  hb_requestId : Z;
  hb_packet : Packet;
  hb_response : OperationResponse
}.

Definition zeroHostResponse : OperationResponse := mkResponse 0 0 0 0 0 0 zeroValue.

(** [HubResult result = {};] *)
Definition zeroHubResult : HubResult := mkHubResult HUB_NONE 0 zeroPacket zeroHostResponse.

(** The copies take as many bytes as the value says it has; into a Wire value
    that is room for 22. *)
(* radio_operation_bridge.h:25-35 copyHostToWireValue *)
Definition copyHostToWireValue (s : TypedValue) : Value :=
  mkWireValue (tv_type s) (tv_length s)
    (copy_bytes (Z.to_nat (tv_length s)) (zeros 22) 0 (tv_bytes s) 0).

(* radio_operation_bridge.h:37-47 copyWireToHostValue *)
Definition copyWireToHostValue (s : Value) : TypedValue :=
  mkTyped (v_type s) (v_length s) (copy_bytes (Z.to_nat (v_length s)) (zeros 121) 0 (v_bytes s) 0).

(* radio_operation_bridge.h:49-59 makeHostResponseBase *)
Definition makeHostResponseBase (request : OperationRequest) : OperationResponse :=
  mkResponse (rq_category request) (rq_operation request) (rq_targetDeviceId request)
    (rq_targetId request) 0 0 setNoneValue.

(** The response with a result and a value. *)
Definition answered (response : OperationResponse) (class code : Z) (value : TypedValue)
    : OperationResponse :=
  mkResponse (rs_category response) (rs_operation response) (rs_targetDeviceId response)
    (rs_targetId response) class code value.

(** ** The Hub *)

(* radio_operation_bridge.h:203-208 = HubStructuredOperationBridge fields *)
Record HubStructuredOperationBridge := mkBridge {
  active_ : bool;
  nextSequence_ : Z;
  requestId_ : Z;
  request_ : OperationRequest;
  peerSupport_ : PeerSupport;
  transaction_ : HubStructuredTransaction
}.

#[export] Instance eta_HubStructuredOperationBridge : RecEta HubStructuredOperationBridge := λ b,
  mkBridge (active_ b) (nextSequence_ b) (requestId_ b) (request_ b) (peerSupport_ b)
    (transaction_ b).

Definition zeroRequest : OperationRequest := mkRequest 0 0 0 0 zeroValue.

(* radio_operation_bridge.h:203-208 = HubStructuredOperationBridge, initial values *)
Definition newBridge : HubStructuredOperationBridge :=
  mkBridge false 0 0 zeroRequest SUPPORT_UNKNOWN newTransaction.

(* radio_operation_bridge.h:67-69 configurePeerSupport *)
Definition configurePeerSupport (support : PeerSupport) (b : HubStructuredOperationBridge)
    : HubStructuredOperationBridge := b <| peerSupport_ := support |>.

(* radio_operation_bridge.h:177-185 HubStructuredOperationBridge::reject *)
Definition reject (result : HubResult) (code : Z) : HubResult :=
  mkHubResult HOST_RESPONSE_READY (hb_requestId result) (hb_packet result)
    (answered (hb_response result) HostProtocol.ResultClass.REQUEST_REJECTED code
       (rs_value (hb_response result))).

(* radio_operation_bridge.h:187-194 activeBase *)
Definition activeBase (b : HubStructuredOperationBridge) : HubResult :=
  if active_ b
  then mkHubResult HUB_NONE (requestId_ b) zeroPacket (makeHostResponseBase (request_ b))
  else zeroHubResult.

(* radio_operation_bridge.h:196-201 HubStructuredOperationBridge::finish *)
Definition finish (result : HubResult) : st HubStructuredOperationBridge HubResult := λ b,
  (mkHubResult HOST_RESPONSE_READY (hb_requestId result) (hb_packet result) (hb_response result),
   b <| active_ := false |> <| nextSequence_ := u8 (nextSequence_ b + 1) |>).

(* radio_operation_bridge.h:71-128 submit *)
Definition submit (requestId : Z) (request : OperationRequest) (localRole : RuntimeState.DeviceRole)
    (localId peerId now overallTimeout maxRetries : Z) (explicitlyConfigured : bool)
    : st HubStructuredOperationBridge HubResult := λ b,
  let result := mkHubResult HUB_NONE requestId zeroPacket (makeHostResponseBase request) in
  let refused action := mkHubResult action requestId zeroPacket (makeHostResponseBase request) in
  let validation := HostProtocolMessages.validateOperationRequest request in
  if negb (bool_decide (validation = HostProtocolRecords.OK)) then
    (reject result
       (if bool_decide (validation = HostProtocolRecords.UNSUPPORTED_CATEGORY_OPERATION)
        then HostProtocol.RequestRejectionCode.UNSUPPORTED_OPERATION
        else HostProtocol.RequestRejectionCode.MALFORMED_REQUEST), b) else
  if rq_targetDeviceId request =? localId then (refused NOT_HANDLED, b) else
  if negb (match localRole with RuntimeState.HUB => true | _ => false end)
     || negb (rq_targetDeviceId request =? peerId)
  then (reject result HostProtocol.RequestRejectionCode.BAD_TARGET, b) else
  if active_ b then (refused NOT_ACCEPTED, b) else
  let opcode := rq_operation request in
  if negb (mayStartStructuredOperation (peerSupport_ b) opcode explicitlyConfigured)
  then (reject result HostProtocol.RequestRejectionCode.UNSUPPORTED_OPERATION, b) else
  let wireRequest := mkWireRequest (rq_targetId request) (copyHostToWireValue (rq_value request)) in
  let command := makeCommand localId peerId (nextSequence_ b) opcode wireRequest in
  if payloadLength command =? 0 then (refused NOT_ACCEPTED, b) else
  let (begun, transaction) := begin command now overallTimeout maxRetries (transaction_ b) in
  if negb begun then (refused NOT_ACCEPTED, b <| transaction_ := transaction |>) else
  (mkHubResult TRANSMIT_COMMAND requestId command (makeHostResponseBase request),
   mkBridge true (nextSequence_ b) requestId request (peerSupport_ b)
     (configureSupport (peerSupport_ b) transaction)).

(* radio_operation_bridge.h:130-150 HubStructuredOperationBridge::receive *)
Definition receive (packet : Packet) : st HubStructuredOperationBridge HubResult := λ b,
  let result := activeBase b in
  if negb (active_ b) then (result, b) else
  let (event, transaction) := WireOperations.receive packet (transaction_ b) in
  let b := b <| transaction_ := transaction |> <| peerSupport_ := support_ transaction |> in
  let respond class code value :=
    finish (mkHubResult (hb_action result) (hb_requestId result) (hb_packet result)
              (answered (hb_response result) class code value)) b in
  match event with
  | RESPONSE_COMPLETE =>
      respond HostProtocol.ResultClass.OPERATION_RESULT (ws_status (result_ transaction))
        (copyWireToHostValue (ws_value (result_ transaction)))
  | REMOTE_REJECTED =>
      respond HostProtocol.ResultClass.RADIO_RESULT HostProtocol.RadioResultCode.REMOTE_REJECTED
        (rs_value (hb_response result))
  | _ => (result, b)
  end.

(* radio_operation_bridge.h:152-166 HubStructuredOperationBridge::service *)
Definition service (now : Z) : st HubStructuredOperationBridge HubResult := λ b,
  let result := activeBase b in
  if negb (active_ b) then (result, b) else
  let (event, transaction) := WireOperations.service now (transaction_ b) in
  let b := b <| transaction_ := transaction |> in
  match event with
  | RETRANSMIT =>
      (mkHubResult TRANSMIT_COMMAND (hb_requestId result) (command_ transaction)
         (hb_response result), b)
  | TIMEOUT =>
      finish (mkHubResult (hb_action result) (hb_requestId result) (hb_packet result)
                (answered (hb_response result) HostProtocol.ResultClass.RADIO_RESULT
                   HostProtocol.RadioResultCode.TIMEOUT (rs_value (hb_response result)))) b
  | _ => (result, b)
  end.

(* radio_operation_bridge.h:168-174 HubStructuredOperationBridge::reset *)
Definition resetBridge (b : HubStructuredOperationBridge) : HubStructuredOperationBridge :=
  mkBridge false (nextSequence_ b) 0 zeroRequest (peerSupport_ b)
    (configureSupport (peerSupport_ b) newTransaction).

(** ** The Node *)

(* radio_operation_bridge.h:211-219 NodeAction *)
Inductive NodeAction :=
  NODE_IGNORE | SEND_ACK | ACK_THEN_EXECUTE | SEND_ACK_AND_RESPONSE | NODE_BUSY
| SEND_REJECTION_ACK | RESPONSE_READY.

(* radio_operation_bridge.h:221-225 = NodeResult *)
Record NodeResult := mkNodeResult {
  nd_action : NodeAction;
  nd_acknowledgment : Packet;
  nd_response : Packet
}.

(** [NodeResult result = {};] *)
Definition zeroNodeResult : NodeResult := mkNodeResult NODE_IGNORE zeroPacket zeroPacket.

(* radio_operation_bridge.h:382-385 = NodeStructuredOperationProcessor fields *)
Record NodeStructuredOperationProcessor := mkProcessor {
  retained_ : NodeRetainedOperation;
  pendingCommand_ : Packet;
  hasPendingCommand_ : bool;
  hostScratch_ : TypedValue
}.

#[export] Instance eta_NodeStructuredOperationProcessor
  : RecEta NodeStructuredOperationProcessor := λ p,
  mkProcessor (retained_ p) (pendingCommand_ p) (hasPendingCommand_ p) (hostScratch_ p).

(* radio_operation_bridge.h:382-385 = NodeStructuredOperationProcessor, initial values *)
Definition newProcessor : NodeStructuredOperationProcessor :=
  mkProcessor newRetained zeroPacket false zeroValue.

(* radio_operation_bridge.h:229-267 NodeStructuredOperationProcessor::admit *)
Definition admitCommand (command : Packet) (localId peerId : Z)
    : st NodeStructuredOperationProcessor NodeResult := λ p,
  let (admission, retained) := admitNodeCommand command localId peerId (retained_ p) in
  let p := p <| retained_ := retained |> in
  match ar_outcome admission with
  | IGNORE => (zeroNodeResult, p)
  | ADMISSION_UNSUPPORTED_OPCODE | MALFORMED =>
      (mkNodeResult SEND_REJECTION_ACK
         (TransactionEngine.makeAcknowledgment command (acknowledgmentStatus admission))
         zeroPacket, p)
  | ACTIVE_BUSY => (mkNodeResult NODE_BUSY zeroPacket zeroPacket, p)
  | DUPLICATE_PENDING => (mkNodeResult SEND_ACK (acknowledgment retained) zeroPacket, p)
  | DUPLICATE_COMPLETE =>
      (mkNodeResult SEND_ACK_AND_RESPONSE (acknowledgment retained) (response_ retained), p)
  | ADMITTED =>
      (mkNodeResult ACK_THEN_EXECUTE (acknowledgment retained) zeroPacket,
       p <| pendingCommand_ := command |> <| hasPendingCommand_ := true |>)
  end.

(* radio_operation_bridge.h:361-380 categoryFor *)
Definition categoryFor (operation : Z) : Z :=
  if one_of operation [HostProtocol.OperationCode.PING; HostProtocol.OperationCode.GET_DEVICE_INFO;
       HostProtocol.OperationCode.GET_STATUS]
  then HostProtocol.OperationCategory.DEVICE else
  if one_of operation [HostProtocol.OperationCode.GET_CAPABILITIES;
       HostProtocol.OperationCode.DESCRIBE_CAPABILITY; HostProtocol.OperationCode.READ_CAPABILITY;
       HostProtocol.OperationCode.SET_INDICATOR]
  then HostProtocol.OperationCategory.CAPABILITY else
  if operation =? HostProtocol.OperationCode.RUN_PROCEDURE
  then HostProtocol.OperationCategory.PROCEDURE else
  if operation =? HostProtocol.OperationCode.GET_DIAGNOSTICS
  then HostProtocol.OperationCategory.DIAGNOSTIC else 0.

Section Execution.

Import DeviceCapabilities HostOperationService CapabilityRoleIntegration.

Context {W : Type} `{LocalCapabilityHandler W}.

(** The status of the operation and the value in [hostScratch_], where a refused
    one is not left. *)
(* radio_operation_bridge.h:292-317 = executeAdmittedOperation, a read or a set *)
Definition remoteCapability (registry : CapabilityRegistryView) (interlock operation : Z)
    (wireRequest : Request) : st (Local W) (Z * TypedValue) :=
  match hostValueToCapabilityValue (copyWireToHostValue (wq_value wireRequest)) with
  | None => ret (OperationStatus.INVALID_VALUE_TYPE, setNoneValue)
  | Some input =>
      let reading := operation =? HostProtocol.OperationCode.READ_CAPABILITY in
      operationResult <~ outside (processRemoteCapability registry (wq_targetId wireRequest)
        (if reading then Operation.READ else Operation.SET) input interlock) ;;
      ret
        (if (result_status operationResult =? OperationStatus.OK) && reading then
           let (converted, value) :=
             capabilityValueToHostValue (result_value operationResult) setNoneValue in
           if negb converted then (OperationStatus.OPERATION_FAILED, setNoneValue)
           else (result_status operationResult, value)
         else (result_status operationResult, setNoneValue))
  end.

(* radio_operation_bridge.h:289-333 = executeAdmittedOperation, the operation *)
Definition performOperation (snapshot : DeviceSnapshot) (registryValid : bool)
    (registry : CapabilityRegistryView) (interlock : Z) (availability : AvailabilityProvider)
    (operation : Z) (wireRequest : Request) : st (Local W) (Z * TypedValue) :=
  if (operation =? HostProtocol.OperationCode.READ_CAPABILITY)
     || (operation =? HostProtocol.OperationCode.SET_INDICATOR)
  then remoteCapability registry interlock operation wireRequest else
  if operation =? HostProtocol.OperationCode.RUN_PROCEDURE
  then ret (OperationStatus.UNAUTHORIZED, setNoneValue) else
  let hostRequest :=
    mkRequest (categoryFor operation) operation (ds_deviceId snapshot) (wq_targetId wireRequest)
      (copyWireToHostValue (wq_value wireRequest)) in
  local <~ handleLocalOperation 1 hostRequest snapshot registryValid registry interlock
    availability HostProtocol.VERSION_MINOR_0_1 ;;
  ret (resultCode (HostOperationService.response local), rs_value (HostOperationService.response local)).

(* radio_operation_bridge.h:269-349 executeAdmittedOperation *)
Definition executeAdmittedOperation (snapshot : DeviceSnapshot) (registryValid : bool)
    (registry : CapabilityRegistryView) (interlock : Z) (availability : AvailabilityProvider)
    : st (NodeStructuredOperationProcessor * Local W) NodeResult :=
  p <~ gets fst ;;
  if negb (hasPendingCommand_ p) || negb (isActive (retained_ p)) then ret zeroNodeResult else
  let command := pendingCommand_ p in
  match decodeRequest (opcode command) (Some (payload command)) (payloadLength command)
          zeroWireRequest with
  | (OK, wireRequest) =>
      performed <~ outside (performOperation snapshot registryValid registry interlock availability
        (opcode command) wireRequest) ;;
      let (status, scratch) := (performed : Z * TypedValue) in
      let value := if negb (status =? OperationStatus.OK) then mkWireValue ValueType.NONE 0 (zeros 22)
                   else copyHostToWireValue scratch in
      let response :=
        makeResponsePacket command (mkWireResponse status (wq_targetId wireRequest) value) in
      update (λ p, p <| hostScratch_ := scratch |>) ;;;
      if payloadLength response =? 0 then ret zeroNodeResult else
      let (completed, retained) := complete response (retained_ p) in
      if negb completed then ret zeroNodeResult else
      update (λ p, p <| retained_ := retained |> <| hasPendingCommand_ := false |>) ;;;
      ret (mkNodeResult RESPONSE_READY zeroPacket (response_ retained))
  | _ => ret zeroNodeResult
  end.

End Execution.

(* radio_operation_bridge.h:353-358 NodeStructuredOperationProcessor::reset *)
Definition resetProcessor : NodeStructuredOperationProcessor :=
  mkProcessor newRetained zeroPacket false setNoneValue.

End RadioOperationBridge.
