(* ===== verification/WireFacts.v ===== *)
(** The wire codecs are exact, and every request that a packet can carry is one
    that the host protocol accepts: the two protocols agree on what a device may
    be asked and on what it may answer. *)

From S2P Require Import Prelude Wire Capabilities CapabilityFacts HostFrame HostRecords HostMessages HostMessageFacts HostRecordFacts HostService WireOps Bridge.

Module WireFacts.

Import Protocol WireOperations RadioOperationBridge HostMessageFacts.
Import HostRecordFacts.
Import HostProtocolRecords(TypedValue, mkTyped, tv_type, tv_length, tv_bytes, readUint16Le,
  expectedScalarValueLength,
  isValidScalarValue, isNoneValue).
Import HostProtocolMessages(isValidSuccessfulOperationValue, isValidStructureValue,
  isValidStructureLength, isValidOperationTarget, isValidOperationRequestValue, validateOperationRequest, validateOperationRequestM, OperationRequest,
  mkRequest, rq_category, rq_operation, rq_targetDeviceId, rq_targetId, rq_value).

(** ** Values *)

Definition wire_wf (v : Value) : Prop :=
  is_u8 (v_type v) ∧ is_u8 (v_length v) ∧ length (v_bytes v) = 22%nat ∧ is_byte_list (v_bytes v).

(** Nothing past the value's length. *)
Definition wire_clear (v : Value) : Prop :=
  v_length v ≤ 22 ∧ all_zero (drop (Z.to_nat (v_length v)) (v_bytes v)) = true.

(** The bytes of a value in a payload. *)
Definition wireBytes (v : Value) : list Z :=
  [v_type v; v_length v] ++ take (Z.to_nat (v_length v)) (v_bytes v).

Lemma length_wireBytes v :
  wire_wf v → wire_clear v → length (wireBytes v) = (2 + Z.to_nat (v_length v))%nat.
Proof. intros (_ & _ & Hl & _) (Hm & _). unfold wireBytes. len. Qed.

(** The value a decoder reads. *)
Definition wireValue (inp : list Z) (type n : Z) (offset : nat) : Value :=
  mkWireValue type n (copy_bytes (Z.to_nat n) (zeros 22) 0 inp offset).

Lemma wireValue_after (p rest : list Z) v :
  wire_wf v → wire_clear v →
  wireValue ((p ++ wireBytes v) ++ rest) (v_type v) (v_length v) (length p + 2) = v.
Proof.
  intros (_ & Hl8 & Hl & _) (Hm & Hz). unfold wireValue, is_uint in *.
  destruct v as [ty n b]. cbn [v_type v_length v_bytes] in *. f_equal.
  unfold wireBytes. cbn [v_type v_length v_bytes].
  rewrite (app_assoc p), <- app_assoc.
  rewrite copy_bytes_spec
    by (rewrite ?length_zeros, ?length_app, ?length_take; cbn [length]; lia).
  rewrite take_0, app_nil_l, drop_app_length' by (rewrite length_app; cbn [length]; lia).
  rewrite take_app_length' by (rewrite length_take; lia).
  unfold zeros. rewrite drop_replicate, <- Hl. by apply take_drop_zeros.
Qed.

Lemma wireValue_wf inp type n offset :
  is_byte_list inp → is_u8 type → 0 ≤ n ≤ 22 → (offset + Z.to_nat n ≤ length inp)%nat →
  let v := wireValue inp type n offset in
  wire_wf v ∧ wire_clear v ∧ take (Z.to_nat n) (v_bytes v) = take (Z.to_nat n) (drop offset inp).
Proof.
  intros Hb Ht Hn Hl. unfold wire_wf, wire_clear, wireValue. cbn [v_type v_length v_bytes].
  rewrite length_copy_bytes, length_zeros. rewrite copy_bytes_spec by (rewrite ?length_zeros; lia).
  rewrite take_0, app_nil_l. unfold zeros. rewrite drop_replicate.
  assert (Hlen : length (take (Z.to_nat n) (drop offset inp)) = Z.to_nat n)
    by (rewrite length_take, length_drop; lia).
  split_and!; [done|uint|done|apply byte_app; [bytes|apply zeros_byte]|lia| |].
  - rewrite drop_app_length' by done. apply all_zero_spec. unfold zeros.
    by rewrite length_replicate.
  - by rewrite take_app_length' by done.
Qed.

(** ** Wire values and host values *)

Lemma copyWireToHost_wf v :
  wire_wf v → wire_clear v →
  value_wf (copyWireToHostValue v) ∧ value_clear (copyWireToHostValue v)
  ∧ take (Z.to_nat (v_length v)) (tv_bytes (copyWireToHostValue v))
    = take (Z.to_nat (v_length v)) (v_bytes v).
Proof.
  intros (Ht & Hn & Hl & Hb) (Hm & Hz). unfold is_uint in Hn.
  exact (readValue_wf (v_bytes v) (v_type v) (v_length v) 0 Hb Ht ltac:(lia) ltac:(lia)).
Qed.

Lemma copyHostToWire_wf v :
  value_wf v → value_clear v → tv_length v ≤ 22 →
  wire_wf (copyHostToWireValue v) ∧ wire_clear (copyHostToWireValue v)
  ∧ take (Z.to_nat (tv_length v)) (v_bytes (copyHostToWireValue v))
    = take (Z.to_nat (tv_length v)) (tv_bytes v).
Proof.
  intros (Ht & Hn & Hl & Hb) (Hm & Hz) Hs. unfold is_uint in Hn.
  exact (wireValue_wf (tv_bytes v) (tv_type v) (tv_length v) 0 Hb Ht ltac:(lia) ltac:(lia)).
Qed.

(** A list is its front and zeros. *)
Lemma zero_tail_eq (a b : list Z) n :
  length a = length b → take n a = take n b → all_zero (drop n a) = true →
  all_zero (drop n b) = true → a = b.
Proof.
  intros Hl Ht Ha Hb. rewrite <- (take_drop n a), <- (take_drop n b), Ht. f_equal.
  apply all_zero_spec in Ha. apply all_zero_spec in Hb. rewrite Ha, Hb.
  by rewrite !length_drop, Hl.
Qed.

(** A value that fits the wire crosses it unchanged. *)
Lemma host_wire_host v :
  value_wf v → value_clear v → tv_length v ≤ 22 →
  copyWireToHostValue (copyHostToWireValue v) = v.
Proof.
  intros Hw Hc Hs. destruct (copyHostToWire_wf v Hw Hc Hs) as (Hw' & Hc' & Ht').
  destruct (copyWireToHost_wf _ Hw' Hc') as (Hw2 & Hc2 & Ht2). destruct v as [ty n b].
  unfold copyWireToHostValue at 1. cbn [copyHostToWireValue v_type v_length tv_type tv_length] in *.
  f_equal. destruct Hw as (_ & _ & Hl & _), Hw2 as (_ & _ & Hl2 & _).
  cbn [tv_bytes copyWireToHostValue copyHostToWireValue v_type v_length tv_type tv_length] in *.
  apply (zero_tail_eq _ _ (Z.to_nat n)); [congruence|congruence|apply Hc2|apply Hc].
Qed.

Lemma wire_host_wire v :
  wire_wf v → wire_clear v → copyHostToWireValue (copyWireToHostValue v) = v.
Proof.
  intros Hw Hc. destruct (copyWireToHost_wf v Hw Hc) as (Hw' & Hc' & Ht').
  destruct (copyHostToWire_wf _ Hw' Hc') as (Hw2 & Hc2 & Ht2); [apply Hc|]. destruct v as [ty n b].
  unfold copyHostToWireValue at 1. cbn [copyWireToHostValue v_type v_length tv_type tv_length] in *.
  f_equal. destruct Hw as (_ & _ & Hl & _), Hw2 as (_ & _ & Hl2 & _).
  cbn [v_bytes copyWireToHostValue copyHostToWireValue v_type v_length tv_type tv_length] in *.
  apply (zero_tail_eq _ _ (Z.to_nat n)); [congruence|congruence|apply Hc2|apply Hc].
Qed.

(** ** What may be asked and answered *)

(** The operations that go over the radio. *)
Definition remoteOperations : list Z :=
  [Opcode.PING; Opcode.GET_DEVICE_INFO; Opcode.GET_STATUS; Opcode.GET_CAPABILITIES;
   Opcode.DESCRIBE_CAPABILITY; Opcode.READ_CAPABILITY; Opcode.SET_INDICATOR; Opcode.RUN_PROCEDURE;
   Opcode.GET_DIAGNOSTICS].

Lemma structured_operation opcode :
  isStructuredOpcode opcode = true → one_of opcode remoteOperations = true.
Proof.
  unfold isStructuredOpcode. rewrite andb_true_iff, !Z.leb_le. intros [Hlo Hhi].
  apply one_of_spec. change Opcode.PING with 32 in Hlo. change Opcode.GET_DIAGNOSTICS with 40 in Hhi.
  assert (opcode = 32 ∨ opcode = 33 ∨ opcode = 34 ∨ opcode = 35 ∨ opcode = 36 ∨ opcode = 37
    ∨ opcode = 38 ∨ opcode = 39 ∨ opcode = 40) as Ho by lia.
  change remoteOperations with [32; 33; 34; 35; 36; 37; 38; 39; 40]. set_solver.
Qed.

(** The two notions of a scalar. *)
Lemma scalar_host v :
  wire_wf v → wire_clear v → isScalarValue v = isValidScalarValue (copyWireToHostValue v).
Proof.
  intros Hw Hc. destruct (copyWireToHost_wf v Hw Hc) as (_ & _ & Ht).
  unfold isScalarValue, isValidScalarValue, scalarLength, STRUCTURE_VALUE_TYPE.
  change (tv_type (copyWireToHostValue v)) with (v_type v).
  change (tv_length (copyWireToHostValue v)) with (v_length v).
  destruct (_ || _); [done|]. destruct (Z.eqb_spec (v_length v) (expectedScalarValueLength (v_type v)))
    as [El|]; [|done]. cbn [negb].
  destruct (Z.eqb_spec (v_type v) DeviceCapabilities.ValueType.BOOLEAN) as [Eb|]; [|done]. cbn [negb orb].
  assert (Hl : Z.to_nat (v_length v) = 1%nat) by by rewrite El, Eb.
  rewrite Hl in Ht. apply (f_equal (λ l, rd l 0)) in Ht. f_equal. symmetry.
  destruct Hw as (_ & _ & Hlen & _). destruct (v_bytes v); [done|].
  by destruct (tv_bytes (copyWireToHostValue v)).
Qed.

Lemma none_host v : isNone v = isNoneValue (copyWireToHostValue v).
Proof. done. Qed.

Lemma none_scalar_wire v : isNone v = true → isScalarValue v = true.
Proof. unfold isNone. intros [H1%Z.eqb_eq H2%Z.eqb_eq]%andb_true_iff. destruct v; simpl in *. by subst. Qed.

(** The host protocol's judgment of an operation that goes over the radio. *)
Lemma host_request opcode device target v :
  one_of opcode remoteOperations = true →
  validateOperationRequest (mkRequest (categoryFor opcode) opcode device target v)
    = HostProtocolRecords.OK
  ↔ isValidOperationTarget (categoryFor opcode) opcode target
    && isValidOperationRequestValue opcode v = true.
Proof.
  intros Ho. unfold validateOperationRequest, validateOperationRequestM.
  cbn [rq_category rq_operation rq_targetId rq_value].
  assert (HostProtocolMessages.classifyCategoryOperationM HostProtocol.VERSION_MINOR_0_1
    (categoryFor opcode) opcode = HostProtocolMessages.VALID) as ->.
  { revert Ho. unfold remoteOperations. intros Ho. by switch_cases Ho. }
  assert (categoryFor opcode =? HostProtocol.OperationCategory.EVENT = false) as ->.
  { revert Ho. unfold remoteOperations. intros Ho. by switch_cases Ho. }
  rewrite !bool_decide_eq_false_2 by done. cbn [andb].
  by destruct (isValidOperationTarget _ _ _), (isValidOperationRequestValue _ _).
Qed.

(** A request that a packet can carry is one that the host protocol accepts,
    and conversely. *)
Lemma request_schema_host opcode target v device :
  wire_wf v → wire_clear v → isStructuredOpcode opcode = true →
  isValidRequestSchema opcode (mkWireRequest target v) = true
  ↔ validateOperationRequest (mkRequest (categoryFor opcode) opcode device target
      (copyWireToHostValue v)) = HostProtocolRecords.OK.
Proof.
  intros Hw Hc Hs. pose proof (structured_operation _ Hs) as Ho. rewrite host_request by done.
  pose proof (scalar_host v Hw Hc) as Hsc. pose proof (none_host v) as Hn.
  pose proof (none_scalar_wire v) as Hns. unfold isValidRequestSchema, isUint32 in *. rewrite Hs.
  cbn [negb orb wq_targetId wq_value]. unfold isValidOperationRequestValue, isValidOperationTarget.
  change (tv_type (copyWireToHostValue v)) with (v_type v).
  rewrite <- Hsc, <- Hn. clear Hsc Hn Hw Hc Hs. revert Ho. unfold remoteOperations. intros Ho.
  unfold one_of, existsb.
  switch_cases Ho; unfold categoryFor, one_of, existsb; which_operation; cbn [orb].
  all: change (target =? DeviceCapabilities.INVALID_CAPABILITY_ID) with (target =? 0).
  all: destruct (target =? 0), (isNone v), (isScalarValue v); try specialize (Hns eq_refl);
    try discriminate; cbn [andb orb negb]; rewrite ?andb_true_r, ?andb_false_r; tauto.
Qed.

(** What a packet may answer is what the host protocol may answer. *)
Lemma success_host opcode v :
  wire_wf v → wire_clear v →
  isValidSuccessValue opcode v = isValidSuccessfulOperationValue opcode (copyWireToHostValue v).
Proof.
  intros _ [Hm _]. unfold isValidSuccessValue, toHostValue.
  change MAX_REQUEST_VALUE_SIZE with 22. by rewrite (proj2 (Z.ltb_ge _ _)) by lia.
Qed.

(** The longest answer is a page of nine capabilities. *)
Lemma success_length opcode v :
  one_of opcode remoteOperations = true → isValidSuccessfulOperationValue opcode v = true →
  tv_length v ≤ 21.
Proof.
  intros Ho Hv. revert Hv. unfold isValidSuccessfulOperationValue, isValidStructureValue,
    HostProtocolRecords.isNonNoneScalarValue, remoteOperations in *.
  pose proof (scalar_length v) as Hs. pose proof (none_scalar v) as Hn.
  unfold one_of, existsb. switch_cases Ho; which_operation; cbn [orb];
    rewrite ?andb_true_iff; intros Hv; destruct_and?; try (assert (tv_length v ≤ 4) by auto; lia).
  all: destruct (isValidStructureLength _ _) eqn:E; [|by rewrite orb_true_r in Hv].
  all: revert E; unfold isValidStructureLength; which_operation.
  all: rewrite ?andb_true_iff, ?Z.eqb_eq, ?Z.leb_le; intros; destruct_and?.
  all: unfold HostProtocolRecords.DEVICE_INFO_SIZE, HostProtocolRecords.STATUS_SIZE,
    HostProtocolRecords.CAPABILITY_DESCRIPTION_SIZE in *; lia.
Qed.

(** ** Payloads *)

Definition wireRequest_wf (r : Request) : Prop :=
  is_u16 (wq_targetId r) ∧ wire_wf (wq_value r) ∧ wire_clear (wq_value r).

Definition wireResponse_wf (r : Response) : Prop :=
  is_u8 (ws_status r) ∧ is_u16 (ws_targetId r) ∧ wire_wf (ws_value r) ∧ wire_clear (ws_value r).

Definition wireRequestBytes (r : Request) : list Z := le16 (wq_targetId r) ++ wireBytes (wq_value r).

Definition wireResponseBytes (r : Response) : list Z :=
  ([ws_status r] ++ le16 (ws_targetId r)) ++ wireBytes (ws_value r).

(** The end of both encoders. *)
Lemma copy_wire h v out :
  wire_wf v → wire_clear v → (Z.to_nat (v_length v) ≤ length out)%nat →
  copy_bytes (Z.to_nat (v_length v)) ((h ++ [v_type v; v_length v]) ++ out) (length h + 2)
    (v_bytes v) 0
  = (h ++ wireBytes v) ++ drop (Z.to_nat (v_length v)) out.
Proof.
  intros (_ & _ & Hb & _) (Hm & _) Hl.
  replace (length h + 2)%nat with (length (h ++ [v_type v; v_length v])) by (rewrite length_app; done).
  rewrite copy_after by lia. unfold wireBytes. by rewrite <- !app_assoc.
Qed.

Lemma request_short opcode r :
  wireRequest_wf r → isValidRequestSchema opcode r = true → v_length (wq_value r) ≤ 4.
Proof.
  intros (_ & Hw & Hc). unfold isValidRequestSchema. rewrite (scalar_host _ Hw Hc).
  destruct (isValidScalarValue _) eqn:E; [|by rewrite orb_true_r]. intros _.
  exact (scalar_length _ E).
Qed.

Lemma response_short opcode r :
  wireResponse_wf r → isValidResponseSchema opcode r = true → v_length (ws_value r) ≤ 21.
Proof.
  intros (_ & _ & Hw & Hc). unfold isValidResponseSchema.
  destruct (isStructuredOpcode opcode) eqn:Ho; [|done]. destruct (DeviceCapabilities.isKnownOperationStatus _); [|done].
  cbn [negb orb]. destruct (_ || _); [done|]. destruct (negb _).
  - unfold isNone. intros [_ E%Z.eqb_eq]%andb_true_iff. lia.
  - rewrite (success_host _ _ Hw Hc). apply (success_length opcode (copyWireToHostValue (ws_value r))).
    by apply structured_operation.
Qed.

Lemma length_wireRequest r :
  wireRequest_wf r → length (wireRequestBytes r) = (4 + Z.to_nat (v_length (wq_value r)))%nat.
Proof.
  intros (_ & Hw & Hc). unfold wireRequestBytes. rewrite length_app, (length_wireBytes _ Hw Hc).
  cbn [length le16]. lia.
Qed.

Lemma length_wireResponse r :
  wireResponse_wf r → length (wireResponseBytes r) = (5 + Z.to_nat (v_length (ws_value r)))%nat.
Proof.
  intros (_ & _ & Hw & Hc). unfold wireResponseBytes. rewrite length_app, (length_wireBytes _ Hw Hc).
  cbn [length le16 app]. lia.
Qed.

Lemma encodeRequest_spec opcode r out :
  wireRequest_wf r → isValidRequestSchema opcode r = true → (26 ≤ length out)%nat →
  encodeRequest opcode r (Some out) (Z.of_nat (length out))
  = (OK, Some (wireRequestBytes r ++ drop (length (wireRequestBytes r)) out),
     Z.of_nat (length (wireRequestBytes r))).
Proof.
  intros Hr Hs Hl. pose proof (request_short _ _ Hr Hs). rewrite length_wireRequest by done.
  destruct Hr as (Ht & Hw & Hc). unfold encodeRequest. rewrite Hs.
  assert (isStructuredOpcode opcode = true) as ->
    by (revert Hs; unfold isValidRequestSchema; by destruct (isStructuredOpcode opcode)).
  pose proof Hw as (_ & [? _] & _).
  unfold REQUEST_FIXED_SIZE. change Protocol.MAX_PAYLOAD_SIZE with 26. cbn [negb].
  rewrite !(proj2 (Z.ltb_ge _ _)) by lia. f_equal; [|lia]. do 2 f_equal.
  do 4 (destruct out as [|? out]; [cbn in Hl; lia|]). cbn [length] in Hl.
  exact (copy_wire (le16 (wq_targetId r)) (wq_value r) out Hw Hc ltac:(lia)).
Qed.

Lemma encodeResponse_spec opcode r out :
  wireResponse_wf r → isValidResponseSchema opcode r = true → (26 ≤ length out)%nat →
  encodeResponse opcode r (Some out) (Z.of_nat (length out))
  = (OK, Some (wireResponseBytes r ++ drop (length (wireResponseBytes r)) out),
     Z.of_nat (length (wireResponseBytes r))).
Proof.
  intros Hr Hs Hl. pose proof (response_short _ _ Hr Hs). rewrite length_wireResponse by done.
  destruct Hr as (_ & Ht & Hw & Hc). unfold encodeResponse. rewrite Hs.
  assert (isStructuredOpcode opcode = true) as ->
    by (revert Hs; unfold isValidResponseSchema; by destruct (isStructuredOpcode opcode)).
  pose proof Hw as (_ & [? _] & _).
  unfold RESPONSE_FIXED_SIZE. change Protocol.MAX_PAYLOAD_SIZE with 26. cbn [negb].
  rewrite !(proj2 (Z.ltb_ge _ _)) by lia. f_equal; [|lia]. do 2 f_equal.
  do 5 (destruct out as [|? out]; [cbn in Hl; lia|]). cbn [length] in Hl.
  exact (copy_wire ([ws_status r] ++ le16 (ws_targetId r)) (ws_value r) out Hw Hc ltac:(lia)).
Qed.

Lemma known_type opcode r :
  wireRequest_wf r → isValidRequestSchema opcode r = true →
  DeviceCapabilities.isKnownValueType (v_type (wq_value r)) = true
  ∧ v_type (wq_value r) =? STRUCTURE_VALUE_TYPE = false.
Proof.
  intros _. unfold isValidRequestSchema, isScalarValue.
  destruct (_ =? STRUCTURE_VALUE_TYPE); [by rewrite orb_true_r|].
  destruct (DeviceCapabilities.isKnownValueType _); [done|by rewrite orb_true_r].
Qed.

Lemma decodeRequest_ok opcode inp n r0 r :
  is_byte_list inp → 0 ≤ n ≤ Z.of_nat (length inp) →
  decodeRequest opcode (Some inp) n r0 = (OK, r)
  ↔ wireRequest_wf r ∧ isValidRequestSchema opcode r = true
    ∧ take (Z.to_nat n) inp = wireRequestBytes r.
Proof.
  intros Hb Hn. unfold decodeRequest, REQUEST_FIXED_SIZE. change Protocol.MAX_PAYLOAD_SIZE with 26.
  change MAX_REQUEST_VALUE_SIZE with 22. split.
  - destruct (isStructuredOpcode opcode) eqn:Ho; [|done]. cbn [negb].
    destruct (Z.ltb_spec n 4); [done|]. destruct (Z.ltb_spec 26 n); [done|]. cbn [orb].
    destruct (Z.ltb_spec 22 (rd inp 3)); [done|].
    destruct (Z.eqb_spec n (4 + rd inp 3)) as [El|]; [|done]. cbn [negb orb].
    do 4 (destruct inp as [|? inp]; [cbn in *; lia|]).
    change (rd _ 3) with z2 in *. change (rd _ 2) with z1. cbn [length] in *.
    change (readUint16Le _ 0) with (Z.lor z (Z.shiftl z0 8)).
    fold (wireValue (z :: z0 :: z1 :: z2 :: inp) z1 z2 4).
    destruct (_ || _); [done|]. destruct (isValidRequestSchema _ _) eqn:Hs; [|done]. cbn [negb].
    intros [= <-]. pose proof Hb as Hb'. repeat (apply Forall_cons in Hb' as [? Hb']).
    destruct (wireValue_wf (z :: z0 :: z1 :: z2 :: inp) z1 z2 4) as (Hw & Hc & Ht);
      [done..|lia|cbn [length]; lia|].
    split_and!; [split_and!; cbn [wq_targetId wq_value]; try done; by apply word16_range|done|].
    unfold wireRequestBytes, wireBytes. cbn [wq_targetId wq_value]. rewrite le16_word by done.
    change (v_type (wireValue _ z1 z2 4)) with z1. change (v_length (wireValue _ z1 z2 4)) with z2.
    rewrite Ht. change (drop 4 _) with inp. cbn [app].
    replace (Z.to_nat n) with (S (S (S (S (Z.to_nat z2))))) by lia. reflexivity.
  - intros (Hw & Hs & Ht). pose proof (known_type _ _ Hw Hs) as [Hk1 Hk2].
    pose proof (request_short _ _ Hw Hs). pose proof (length_wireRequest _ Hw) as HL.
    assert (HN : Z.to_nat n = length (wireRequestBytes r)) by (rewrite <- Ht, length_take; lia).
    assert (isStructuredOpcode opcode = true) as ->
      by (revert Hs; unfold isValidRequestSchema; by destruct (isStructuredOpcode opcode)).
    destruct Hw as (Hid & Hw & Hc). pose proof Hw as (_ & [H0 _] & _).
    assert (Ei : inp = wireRequestBytes r ++ drop (Z.to_nat n) inp)
      by (rewrite <- Ht; by rewrite take_drop).
    set (rest := drop _ inp) in Ei. clearbody rest. subst inp.
    change (rd (wireRequestBytes r ++ rest) 3) with (v_length (wq_value r)).
    change (rd (wireRequestBytes r ++ rest) 2) with (v_type (wq_value r)).
    change (readUint16Le (wireRequestBytes r ++ rest) 0) with
      (Z.lor (u8 (wq_targetId r)) (Z.shiftl (u8 (Z.shiftr (wq_targetId r) 8)) 8)).
    rewrite word16_le by done. cbn [negb].
    rewrite !(proj2 (Z.ltb_ge _ _)) by lia. rewrite (proj2 (Z.eqb_eq _ _)) by lia. cbn [orb negb].
    cbn [wq_value v_type]. rewrite Hk1, Hk2. cbn [negb orb].
    assert (Hread : wireValue (wireRequestBytes r ++ rest) (v_type (wq_value r))
      (v_length (wq_value r)) 4 = wq_value r)
      by exact (wireValue_after (le16 (wq_targetId r)) rest (wq_value r) Hw Hc).
    unfold wireValue in Hread. rewrite Hread. destruct r as [id v]. cbn [wq_targetId wq_value] in *.
    by rewrite Hs.
Qed.

Lemma decodeResponse_ok opcode inp n r0 r :
  is_byte_list inp → 0 ≤ n ≤ Z.of_nat (length inp) →
  decodeResponse opcode (Some inp) n r0 = (OK, r)
  ↔ wireResponse_wf r ∧ isValidResponseSchema opcode r = true
    ∧ take (Z.to_nat n) inp = wireResponseBytes r.
Proof.
  intros Hb Hn. unfold decodeResponse, RESPONSE_FIXED_SIZE. change Protocol.MAX_PAYLOAD_SIZE with 26.
  change MAX_RESPONSE_VALUE_SIZE with 21. split.
  - destruct (isStructuredOpcode opcode) eqn:Ho; [|done]. cbn [negb].
    destruct (Z.ltb_spec n 5); [done|]. destruct (Z.ltb_spec 26 n); [done|]. cbn [orb].
    destruct (Z.ltb_spec 21 (rd inp 4)); [done|].
    destruct (Z.eqb_spec n (5 + rd inp 4)) as [El|]; [|done]. cbn [negb orb].
    do 5 (destruct inp as [|? inp]; [cbn in *; lia|]).
    change (rd _ 4) with z3 in *. change (rd _ 3) with z2. change (rd _ 0) with z. cbn [length] in *.
    change (readUint16Le _ 1) with (Z.lor z0 (Z.shiftl z1 8)).
    fold (wireValue (z :: z0 :: z1 :: z2 :: z3 :: inp) z2 z3 5).
    destruct (negb _); [done|]. destruct (isValidResponseSchema _ _) eqn:Hs; [|done]. cbn [negb].
    intros [= <-]. pose proof Hb as Hb'. repeat (apply Forall_cons in Hb' as [? Hb']).
    destruct (wireValue_wf (z :: z0 :: z1 :: z2 :: z3 :: inp) z2 z3 5) as (Hw & Hc & Ht);
      [done..|lia|cbn [length]; lia|].
    split_and!; [split_and!; cbn [ws_status ws_targetId ws_value]; try done; by apply word16_range|done|].
    unfold wireResponseBytes, wireBytes. cbn [ws_status ws_targetId ws_value]. rewrite le16_word by done.
    change (v_type (wireValue _ z2 z3 5)) with z2. change (v_length (wireValue _ z2 z3 5)) with z3.
    rewrite Ht. change (drop 5 _) with inp. cbn [app].
    replace (Z.to_nat n) with (S (S (S (S (S (Z.to_nat z3)))))) by lia. reflexivity.
  - intros (Hw & Hs & Ht).
    pose proof (response_short _ _ Hw Hs). pose proof (length_wireResponse _ Hw) as HL.
    assert (HN : Z.to_nat n = length (wireResponseBytes r)) by (rewrite <- Ht, length_take; lia).
    assert (isStructuredOpcode opcode = true ∧ DeviceCapabilities.isKnownOperationStatus (ws_status r) = true)
      as [-> Hk].
    { revert Hs. unfold isValidResponseSchema. destruct (isStructuredOpcode opcode); [|done].
      by destruct (DeviceCapabilities.isKnownOperationStatus _). }
    destruct Hw as (Hst & Hid & Hw & Hc). pose proof Hw as (_ & [H0 _] & _).
    assert (Ei : inp = wireResponseBytes r ++ drop (Z.to_nat n) inp)
      by (rewrite <- Ht; by rewrite take_drop).
    set (rest := drop _ inp) in Ei. clearbody rest. subst inp.
    change (rd (wireResponseBytes r ++ rest) 4) with (v_length (ws_value r)).
    change (rd (wireResponseBytes r ++ rest) 3) with (v_type (ws_value r)).
    change (rd (wireResponseBytes r ++ rest) 0) with (ws_status r).
    change (readUint16Le (wireResponseBytes r ++ rest) 1) with
      (Z.lor (u8 (ws_targetId r)) (Z.shiftl (u8 (Z.shiftr (ws_targetId r) 8)) 8)).
    rewrite word16_le by done. cbn [negb].
    rewrite !(proj2 (Z.ltb_ge _ _)) by lia. rewrite (proj2 (Z.eqb_eq _ _)) by lia. cbn [orb negb].
    cbn [ws_status]. rewrite Hk. cbn [negb orb].
    assert (Hread : wireValue (wireResponseBytes r ++ rest) (v_type (ws_value r))
      (v_length (ws_value r)) 5 = ws_value r)
      by exact (wireValue_after ([ws_status r] ++ le16 (ws_targetId r)) rest (ws_value r) Hw Hc).
    unfold wireValue in Hread. rewrite Hread. destruct r as [st id v].
    cbn [ws_status ws_targetId ws_value] in *. by rewrite Hs.
Qed.

End WireFacts.
