(* ===== verification/BridgeFacts.v ===== *)
(** What the bridge promises: a Node answers every admitted command once and
    with what its own service answers, no command from the radio reaches the
    capability handler, and a request of the host crosses the radio and comes
    back as a response the host can decode. *)

From S2P Require Import Prelude Wire Capabilities CapabilityFacts Diagnostics HostFrame HostRecords HostMessages HostMessageFacts HostRecordFacts HostService HostServiceFacts WireOps Bridge WireFacts.

Module BridgeFacts.

Import Protocol WireOperations RadioOperationBridge WireFacts HostMessageFacts HostRecordFacts.
Import HostProtocolRecords(TypedValue, tv_type, tv_length, tv_bytes, setNoneValue, isNoneValue).
Import HostProtocolMessages(OperationRequest, mkRequest, rq_category, rq_operation,
  rq_targetDeviceId, rq_targetId, rq_value, OperationResponse, mkResponse, rs_category, rs_operation,
  rs_targetDeviceId, rs_targetId, resultClass, resultCode, rs_value, isValidSuccessfulOperationValue,
  validateOperationRequest, validateOperationRequestM, validateOperationResponseM).
Import HostServiceFacts(snapshot_wf, registry_wf, good, answers, sendable).
Import CapabilityRoleIntegration(Local).
Import HostOperationService(DeviceSnapshot, ds_deviceId, AvailabilityProvider, handleLocalOperation,
  response).

(** ** What the Node answers *)

(** A status with the value that goes with it. *)
Definition answerable (opcode status : Z) (value : TypedValue) : Prop :=
  DeviceCapabilities.isKnownOperationStatus status = true ∧ value_wf value ∧ value_clear value
  ∧ (if status =? DeviceCapabilities.OperationStatus.OK
     then isValidSuccessfulOperationValue opcode value else isNoneValue value) = true.

Lemma failure_answerable opcode status :
  DeviceCapabilities.isKnownOperationStatus status = true →
  status ≠ DeviceCapabilities.OperationStatus.OK → answerable opcode status setNoneValue.
Proof.
  intros Hk Hn. pose proof HostServiceFacts.none_wf as [? ?]. split_and!; try done.
  by rewrite (proj2 (Z.eqb_neq _ _) Hn).
Qed.

Lemma answerable_short opcode status value :
  one_of opcode remoteOperations = true → answerable opcode status value → tv_length value ≤ 21.
Proof.
  intros Ho (_ & _ & _ & Hv). destruct (status =? _); [by eapply success_length|].
  unfold isNoneValue in Hv. apply andb_true_iff in Hv as [_ E%Z.eqb_eq]. lia.
Qed.

(** The response packet of an answer. *)
Definition answerOf (target status : Z) (value : TypedValue) : Response :=
  mkWireResponse status target
    (if negb (status =? DeviceCapabilities.OperationStatus.OK)
     then mkWireValue DeviceCapabilities.ValueType.NONE 0 (zeros 22) else copyHostToWireValue value).

Lemma none_wire_wf : wire_wf (mkWireValue 0 0 (zeros 22)) ∧ wire_clear (mkWireValue 0 0 (zeros 22)).
Proof. split; [split_and!; [done..|apply zeros_byte]|done]. Qed.

(** There is one clear value that is none. *)
Lemma none_value v : value_wf v → value_clear v → isNoneValue v = true → v = setNoneValue.
Proof.
  destruct v as [ty n b]. intros (_ & _ & Hl & _) [_ Hz].
  unfold isNoneValue. cbn [tv_type tv_length tv_bytes] in *.
  intros [-> %Z.eqb_eq ->%Z.eqb_eq]%andb_true_iff. apply all_zero_spec in Hz.
  change (drop (Z.to_nat 0) b) with b in Hz. rewrite Hl in Hz. by subst b.
Qed.

(** An answer fits a packet, and the packet is the answer. *)
Lemma answer_valid opcode target status value :
  one_of opcode remoteOperations = true → is_u16 target →
  zeroTargetOperation opcode = (target =? 0) → answerable opcode status value →
  wireResponse_wf (answerOf target status value)
  ∧ isValidResponseSchema opcode (answerOf target status value) = true
  ∧ copyWireToHostValue (ws_value (answerOf target status value)) = value.
Proof.
  intros Ho Ht Hz Ha. pose proof (answerable_short _ _ _ Ho Ha) as Hshort.
  destruct Ha as (Hk & Hw & Hc & Hv).
  assert (Hs8 : is_u8 status) by (revert Hk; clear; intros Hk; by switch_cases Hk).
  assert (Hso : isStructuredOpcode opcode = true)
    by (revert Ho; clear; unfold remoteOperations; intros Ho; by switch_cases Ho).
  unfold answerOf. destruct (Z.eqb_spec status DeviceCapabilities.OperationStatus.OK) as [E|E];
    cbn [negb ws_value].
  - destruct (copyHostToWire_wf value Hw Hc) as (Hw' & Hc' & _); [lia|].
    split; [by split_and!|split; [|apply host_wire_host; [done..|lia]]].
    unfold isValidResponseSchema. cbn [ws_status ws_targetId ws_value]. rewrite Hso, Hk, Hz.
    rewrite (proj2 (Z.eqb_eq _ _) E). cbn [negb orb].
    rewrite (success_host _ _ Hw' Hc'), host_wire_host by (done || lia). rewrite Hv.
    by destruct (target =? 0).
  - split; [|split; [|symmetry; by apply none_value]].
    + pose proof none_wire_wf as [? ?]. by split_and!.
    + unfold isValidResponseSchema. cbn [ws_status ws_targetId ws_value]. rewrite Hso, Hk, Hz.
      rewrite (proj2 (Z.eqb_neq _ _) E). cbn [negb orb]. by destruct (target =? 0).
Qed.

(** What can be sent as the result of an operation is answerable. *)
Lemma sendable_answerable opcode device target asked status value :
  one_of opcode remoteOperations = true →
  sendable HostProtocol.VERSION_MINOR_0_1 (mkRequest (categoryFor opcode) opcode device target asked)
    HostProtocol.ResultClass.OPERATION_RESULT status value →
  answerable opcode status value.
Proof.
  intros Ho (_ & _ & Hw & Hc & Hv). unfold answerable. revert Hv.
  unfold validateOperationResponseM.
  cbn [rs_category rs_operation rs_targetId resultClass resultCode rs_value rq_category rq_operation
    rq_targetId rq_targetDeviceId].
  destruct (bool_decide _); [by case_match|]. destruct (bool_decide _); [done|].
  destruct (negb (HostProtocolMessages.isValidOperationTarget _ _ _)); [done|].
  destruct (negb _); [done|]. unfold HostProtocol.isValidResultCode.
  assert (categoryFor opcode =? HostProtocol.OperationCategory.EVENT = false) as ->
    by (revert Ho; clear; unfold remoteOperations; intros Ho; by switch_cases Ho).
  which_operation. cbn [orb andb].
  destruct (DeviceCapabilities.isKnownOperationStatus status) eqn:Hk; cbn [negb]; [|done].
  destruct (status =? DeviceCapabilities.OperationStatus.OK).
  - by destruct (isValidSuccessfulOperationValue opcode value).
  - by destruct (isNoneValue value).
Qed.

(** A result that the local service made is one of an operation. *)
Definition of_operation (result : HostOperationService.Result) : Prop :=
  resultClass (response result) = HostProtocol.ResultClass.OPERATION_RESULT.

Lemma encoded_of_operation result encoder :
  of_operation result → of_operation (HostOperationService.setEncoded result encoder).
Proof.
  intros H. unfold HostOperationService.setEncoded. destruct (encoder _) as [payload value].
  by destruct (negb _).
Qed.

Lemma getCapabilities_of_operation result request valid registry :
  of_operation (HostOperationService.getCapabilities result request valid registry).
Proof.
  unfold HostOperationService.getCapabilities.
  repeat first [done|by apply encoded_of_operation|case_match].
Qed.

Lemma describeCapability_of_operation result request valid registry availability :
  of_operation (HostOperationService.describeCapability result request valid registry availability).
Proof.
  unfold HostOperationService.describeCapability.
  repeat first [done|by apply encoded_of_operation|case_match].
Qed.

Lemma device_of_operation id request snapshot minor :
  validateOperationRequestM minor request = HostProtocolRecords.OK →
  one_of (rq_category request) [HostProtocol.OperationCategory.DEVICE;
    HostProtocol.OperationCategory.DIAGNOSTIC] = true →
  rq_targetDeviceId request = ds_deviceId snapshot →
  of_operation (HostOperationService.handleLocalDeviceOrDiagnostic id request snapshot minor).
Proof.
  intros Hv Hc Hd. unfold HostOperationService.handleLocalDeviceOrDiagnostic.
  rewrite Hv, Hd, Z.eqb_refl, bool_decide_eq_true_2 by done. cbn [negb].
  assert (negb (rq_category request =? HostProtocol.OperationCategory.DEVICE)
    && negb (rq_category request =? HostProtocol.OperationCategory.DIAGNOSTIC) = false) as ->
    by by switch_cases Hc.
  unfold HostOperationService.getDiagnostics.
  repeat first [done|by apply encoded_of_operation|case_match].
Qed.

Section Perform.

Context {W : Type} `{DeviceCapabilities.LocalCapabilityHandler W}.

(** Nothing asked from the radio reaches the handler. *)
Lemma remote_refused registry id operation input interlock (w : W) :
  ∃ status, remoteResult registry id operation input interlock w
            = (DeviceCapabilities.makeCanonicalFailureResult status, w)
    ∧ status ≠ DeviceCapabilities.OperationStatus.OK
    ∧ DeviceCapabilities.isKnownOperationStatus status = true.
Proof.
  unfold remoteResult. destruct (negb (DeviceCapabilities.isValidCapabilityRegistry _));
    [by eexists|]. destruct (DeviceCapabilities.findCapability _ _ _) as [[] d]; [|by eexists].
  cbn [negb]. destruct ((operation =? _) || _); [by eexists|].
  destruct (_ || _); [by eexists|].
  assert (DeviceCapabilities.isOperationAuthorized d operation
    (DeviceCapabilities.mkCaller DeviceCapabilities.CallerClass.FUTURE_REMOTE (zeros 3)) = false) as ->.
  { unfold DeviceCapabilities.isOperationAuthorized. by destruct (_ || _). }
  by eexists.
Qed.

Lemma remote_world registry id operation input interlock
    (s : DeviceCapabilities.CapabilityDiagnosticsSnapshot * W) :
  ∃ status diagnostics,
    processRemoteCapability registry id operation input interlock s
    = (DeviceCapabilities.makeCanonicalFailureResult status, (diagnostics, s.2))
    ∧ status ≠ DeviceCapabilities.OperationStatus.OK
    ∧ DeviceCapabilities.isKnownOperationStatus status = true.
Proof.
  destruct (remote_refused registry id operation input interlock s.2) as (status & E & ? & ?).
  unfold processRemoteCapability, bind, outside, zoom, update, modify, ret. rewrite E.
  by eexists _, _.
Qed.

Lemma processed_world registry id operation input interlock
    (s : DeviceCapabilities.CapabilityDiagnosticsSnapshot * W) :
  (processRemoteCapability registry id operation input interlock s).2.2 = s.2.
Proof.
  by destruct (remote_world registry id operation input interlock s) as (? & ? & -> & _).
Qed.

(** The other capability operations do not reach it either. *)
Lemma service_world id opcode device target v snapshot registryValid registry interlock availability
    minor (s : Local W) :
  (opcode =? HostProtocol.OperationCode.READ_CAPABILITY)
    || (opcode =? HostProtocol.OperationCode.SET_INDICATOR) = false →
  (handleLocalOperation id (mkRequest (categoryFor opcode) opcode device target v) snapshot
     registryValid registry interlock availability minor s).2 = s.
Proof.
  intros [Hr Hset]%orb_false_iff. unfold handleLocalOperation.
  cbn [rq_category]. destruct (Z.eqb_spec (categoryFor opcode) HostProtocol.OperationCategory.CAPABILITY) as [Ec|]; [|done].
  unfold HostOperationService.handleLocalCapability. cbn [rq_category rq_operation] in *.
  destruct (negb _); [done|]. destruct (negb _); [done|]. destruct (negb _); [done|].
  destruct (opcode =? HostProtocol.OperationCode.GET_CAPABILITIES) eqn:E1; [done|].
  destruct (opcode =? HostProtocol.OperationCode.DESCRIBE_CAPABILITY) eqn:E2; [done|].
  exfalso. revert Ec. unfold categoryFor.
  destruct (one_of opcode [HostProtocol.OperationCode.PING; _; _]); [done|].
  unfold one_of, existsb. rewrite E1, E2, Hr, Hset. cbn [orb]. by repeat case_match.
Qed.

(** The operations that the Node's own service answers. *)
Definition localOperations : list Z :=
  [Opcode.PING; Opcode.GET_DEVICE_INFO; Opcode.GET_STATUS; Opcode.GET_CAPABILITIES;
   Opcode.DESCRIBE_CAPABILITY; Opcode.GET_DIAGNOSTICS].

Context (snapshot : DeviceSnapshot) (registryValid : bool)
  (registry : DeviceCapabilities.CapabilityRegistryView) (interlock : Z)
  (availability : AvailabilityProvider).
Context (Hsnapshot : snapshot_wf snapshot) (Hregistry : registry_wf registry).

(** The request as the Node's service sees it. *)
Definition hostRequestOf (opcode : Z) (r : Request) : OperationRequest :=
  mkRequest (categoryFor opcode) opcode (ds_deviceId snapshot) (wq_targetId r)
    (copyWireToHostValue (wq_value r)).

Abbreviation service opcode r := (handleLocalOperation 1 (hostRequestOf opcode r) snapshot
  registryValid registry interlock availability HostProtocol.VERSION_MINOR_0_1).

Lemma hostRequest_wf opcode r :
  wireRequest_wf r → is_u8 opcode → is_u8 (categoryFor opcode) → request_wf (hostRequestOf opcode r).
Proof.
  intros (Ht & Hw & Hc) Ho Hcat. destruct (copyWireToHost_wf _ Hw Hc) as (? & ? & _).
  destruct Hsnapshot. by split_and!.
Qed.

Lemma service_answers opcode r (s : Local W) :
  wireRequest_wf r → isValidRequestSchema opcode r = true → one_of opcode localOperations = true →
  (service opcode r s).2 = s
  ∧ ∃ status value,
      response (service opcode r s).1
      = mkResponse (categoryFor opcode) opcode (ds_deviceId snapshot) (wq_targetId r)
          HostProtocol.ResultClass.OPERATION_RESULT status value
    ∧ answerable opcode status value.
Proof.
  intros Hr Hs Ho. assert (Hstr : isStructuredOpcode opcode = true)
    by (revert Hs; unfold isValidRequestSchema; by destruct (isStructuredOpcode opcode)).
  pose proof (structured_operation _ Hstr) as Hrem.
  pose proof Hr as (Ht & Hw & Hc). destruct r as [target v]. cbn [wq_targetId wq_value] in *.
  pose proof (proj1 (request_schema_host opcode target v (ds_deviceId snapshot) Hw Hc Hstr) Hs) as Hval.
  assert (H8 : is_u8 opcode ∧ is_u8 (categoryFor opcode))
    by (revert Ho; clear; unfold localOperations; intros Ho; by switch_cases Ho).
  pose proof (hostRequest_wf opcode _ Hr (proj1 H8) (proj2 H8)) as Hwf.
  set (request := hostRequestOf opcode (mkWireRequest target v)) in *.
  change (validateOperationRequest request = HostProtocolRecords.OK) in Hval.
  assert (Hg : (service opcode (mkWireRequest target v) s).2 = s
    ∧ good HostProtocol.VERSION_MINOR_0_1 1 request (service opcode (mkWireRequest target v) s).1
    ∧ of_operation (service opcode (mkWireRequest target v) s).1).
  { fold request. unfold handleLocalOperation.
    destruct (Z.eqb_spec (rq_category request) HostProtocol.OperationCategory.CAPABILITY) as [Ec|Ec].
    - split; [|split; [by apply HostServiceFacts.capability_good|]];
        unfold HostOperationService.handleLocalCapability;
        rewrite Hval, bool_decide_eq_true_2 by done;
        rewrite Ec, !Z.eqb_refl; cbn [negb].
      all: assert (rq_operation request = HostProtocol.OperationCode.GET_CAPABILITIES
        ∨ rq_operation request = HostProtocol.OperationCode.DESCRIBE_CAPABILITY) as Hop
        by (subst request; revert Ho Ec; clear; unfold localOperations; cbn [rq_category rq_operation hostRequestOf];
            intros Ho; switch_cases Ho; (by left) || (by right) || done).
      all: destruct Hop as [Hop|Hop]; rewrite Hop; which_operation; cbn [ret fst snd]; try done.
      + apply getCapabilities_of_operation.
      + apply describeCapability_of_operation.
    - split; [done|]. cbn [ret fst].
      assert (one_of (rq_category request) [HostProtocol.OperationCategory.DEVICE;
        HostProtocol.OperationCategory.DIAGNOSTIC] = true) as Hcat
        by (subst request; revert Ho Ec; clear; unfold localOperations; cbn [rq_category hostRequestOf];
            intros Ho; by switch_cases Ho).
      split; [|by apply device_of_operation].
      destruct (HostServiceFacts.valid_request _ _ Hval) as [Hvalid Htarget].
      assert (rq_category request = HostProtocol.OperationCategory.DEVICE
        ∨ rq_category request = HostProtocol.OperationCategory.DIAGNOSTIC) as Hcat2.
      { apply one_of_spec, elem_of_cons in Hcat as [|Hcat]; [by left|].
        apply list_elem_of_singleton in Hcat. by right. }
      apply HostServiceFacts.device_good; try done. by destruct Hcat2 as [-> | ->]. }
  destruct Hg as (E & (_ & class & status & value & [_ Hresp] & Hsend) & Hcl). split; [done|].
  exists status, value. unfold of_operation in Hcl. rewrite Hresp in Hcl. cbn [resultClass] in Hcl.
  subst class. split; [exact Hresp|]. by eapply sendable_answerable.
Qed.

(** What the Node makes of a request: the answer of its own service, or a
    refusal. *)
Lemma perform_answers opcode r (s : Local W) :
  wireRequest_wf r → isValidRequestSchema opcode r = true →
  ∃ status value s',
    performOperation snapshot registryValid registry interlock availability opcode r s
    = ((status, value), s')
  ∧ answerable opcode status value ∧ s'.1 = s.1 ∧ s'.2.2 = s.2.2
  ∧ if one_of opcode localOperations
    then s' = s ∧ response (service opcode r s).1
         = mkResponse (categoryFor opcode) opcode (ds_deviceId snapshot) (wq_targetId r)
             HostProtocol.ResultClass.OPERATION_RESULT status value
    else status ≠ DeviceCapabilities.OperationStatus.OK ∧ value = setNoneValue.
Proof.
  intros Hr Hs. assert (Hstr : isStructuredOpcode opcode = true)
    by (revert Hs; unfold isValidRequestSchema; by destruct (isStructuredOpcode opcode)).
  pose proof (structured_operation _ Hstr) as Hrem.
  destruct (one_of opcode localOperations) eqn:Ho.
  - destruct (service_answers opcode r s Hr Hs Ho) as (E & status & value & Hresp & Ha).
    exists status, value, s. split; [|done].
    assert ((opcode =? HostProtocol.OperationCode.READ_CAPABILITY)
      || (opcode =? HostProtocol.OperationCode.SET_INDICATOR) = false
      ∧ opcode =? HostProtocol.OperationCode.RUN_PROCEDURE = false) as [H1 H2]
      by (revert Ho; clear; unfold localOperations; intros Ho; by switch_cases Ho).
    unfold performOperation. rewrite H1, H2. fold (hostRequestOf opcode r).
    unfold bind, ret. rewrite Hresp, E. by destruct s.
  - unfold performOperation, remoteCapability. destruct (_ || _) eqn:Hrw.
    + destruct (HostOperationService.hostValueToCapabilityValue _) as [input|].
      * set (op := if _ =? _ then _ else _).
        destruct (remote_world registry (wq_targetId r) op input interlock s.2)
          as (status & diagnostics & E & Hn & Hk).
        unfold bind, outside, zoom. rewrite E. cbn [fst snd].
        change (DeviceCapabilities.result_status
          (DeviceCapabilities.makeCanonicalFailureResult status)) with status.
        rewrite (proj2 (Z.eqb_neq _ _) Hn). cbn [andb ret].
        eexists _, _, _. split; [done|]. split_and!; try done. by apply failure_answerable.
      * eexists _, _, _. split; [done|]. split_and!; try done. by apply failure_answerable.
    + destruct (Z.eqb_spec opcode HostProtocol.OperationCode.RUN_PROCEDURE) as [E|E].
      * eexists _, _, _. split; [done|]. split_and!; try done. by apply failure_answerable.
      * exfalso. apply orb_false_iff in Hrw as [H1%Z.eqb_neq H2%Z.eqb_neq].
        revert Hrem Ho H1 H2 E. clear. unfold remoteOperations, localOperations. intros Hrem.
        by switch_cases Hrem.
Qed.

End Perform.

(** C26. No command from the radio reaches the capability handler.  Whatever the
    Node's processor holds - any command, any opcode, any payload, admitted or
    not - executing it leaves the device behind the handler and the runtime
    state exactly as they were: reads and sets come from a caller that no
    authorization policy admits, procedures are refused outright, and the other
    operations are answered from the registry and the counters.  At most the
    capability diagnostics count the refusal. *)
Theorem remote_never_executes {W} `{DeviceCapabilities.LocalCapabilityHandler W} snapshot
    registryValid registry interlock availability p (s : Local W) :
  let s' := (executeAdmittedOperation snapshot registryValid registry interlock availability
               (p, s)).2.2 in
  s'.2.2 = s.2.2 ∧ s'.1 = s.1.
Proof.
  unfold executeAdmittedOperation, bind, gets. cbn [fst snd].
  destruct (_ || _); [done|]. destruct (decodeRequest _ _ _ _) as [[] r]; try done.
  unfold outside, zoom, update, modify, ret. cbn [fst snd].
  set (performed := performOperation _ _ _ _ _ _ _ _).
  assert (Hw : performed.2.2.2 = s.2.2 ∧ performed.2.1 = s.1).
  { subst performed. unfold performOperation, remoteCapability. destruct (_ || _) eqn:E.
    - destruct (HostOperationService.hostValueToCapabilityValue _) as [input|]; [|done].
      unfold bind, outside, zoom, ret. cbn [fst snd]. by rewrite processed_world.
    - destruct (opcode (pendingCommand_ p) =? HostProtocol.OperationCode.RUN_PROCEDURE); [done|].
      unfold bind. cbn [fst snd ret]. rewrite service_world by done. done. }
  destruct performed as [[status scratch] s']. cbn [fst snd] in *.
  destruct (payloadLength _ =? 0); [done|]. by destruct (complete _ _) as [[] retained].
Qed.

End BridgeFacts.
