(* ===== verification/BridgeLife.v ===== *)
(** The life of a remote operation: the Node executes an admitted command once
    and repeats its answer, the Hub's transaction ends, and a host's request
    comes back from the peer as the peer itself would have answered it. *)

From S2P Require Import Prelude Wire Capabilities CapabilityFacts Diagnostics HostFrame HostRecords HostMessages HostMessageFacts HostRecordFacts HostService HostServiceFacts WireOps Bridge WireFacts BridgeFacts.

Module BridgeLife.

Import Protocol WireOperations RadioOperationBridge WireFacts BridgeFacts HostMessageFacts.
Import HostRecordFacts.
Import TransactionEngine(makeAcknowledgment).
Import HostServiceFacts(snapshot_wf, registry_wf).
Import HostOperationService(DeviceSnapshot, ds_deviceId, AvailabilityProvider, handleLocalOperation).
Import CapabilityRoleIntegration(Local).
Import HostProtocolMessages(OperationRequest, mkRequest, rq_category, rq_operation,
  rq_targetDeviceId, rq_targetId, rq_value, OperationResponse, mkResponse, rs_value, resultClass,
  resultCode, validateOperationRequest).

(** ** Packets *)

Lemma structured_byte opcode : one_of opcode remoteOperations = true → is_u8 opcode.
Proof. unfold remoteOperations. intros Ho. by switch_cases Ho. Qed.

(** The packet a payload is put in. *)
Definition carrying (type source destination sequence opcode : Z) (bytes : list Z) : Packet :=
  mkPacket type source destination sequence opcode (Z.of_nat (length bytes))
    (bytes ++ zeros (26 - length bytes)).

Lemma carrying_canonical type source destination sequence opcode bytes :
  is_u8 source → is_u8 destination → is_u8 sequence → is_u8 opcode → 1 ≤ type ≤ 5 →
  is_byte_list bytes → (length bytes ≤ 26)%nat →
  packet_canonical (carrying type source destination sequence opcode bytes).
Proof.
  intros ? ? ? ? ? Hb Hl. unfold packet_canonical, packet_wf, carrying.
  cbn [Protocol.type Protocol.source Protocol.destination Protocol.sequence Protocol.opcode
    payloadLength payload]. change Protocol.MAX_PAYLOAD_SIZE with 26.
  rewrite Nat2Z.id, drop_app_length.
  split_and!; try done; try lia.
  - uint_unfold. lia.
  - uint_unfold. lia.
  - rewrite length_app, length_zeros. lia.
  - apply byte_app; [done|apply zeros_byte].
  - apply all_zero_spec. unfold zeros. by rewrite length_replicate.
Qed.

Lemma wireBytes_byte v : wire_wf v → is_byte_list (wireBytes v).
Proof. intros (? & ? & _ & ?). apply byte_app; [by constructor; [|constructor]|bytes]. Qed.

Lemma wireRequestBytes_byte r : wireRequest_wf r → is_byte_list (wireRequestBytes r).
Proof. intros (_ & ? & _). apply byte_app; [apply le16_byte|by apply wireBytes_byte]. Qed.

Lemma wireResponseBytes_byte r : wireResponse_wf r → is_byte_list (wireResponseBytes r).
Proof.
  intros (? & _ & ? & _). apply byte_app; [|by apply wireBytes_byte].
  constructor; [done|apply le16_byte].
Qed.

Lemma makeCommand_spec source destination sequence opcode r :
  wireRequest_wf r → isValidRequestSchema opcode r = true →
  makeCommand source destination sequence opcode r
  = carrying PacketType.COMMAND source destination sequence opcode (wireRequestBytes r).
Proof.
  intros Hr Hs. unfold makeCommand. cbv zeta.
  pose proof (encodeRequest_spec opcode r (zeros 26) Hr Hs) as He. rewrite length_zeros in He.
  change (Z.of_nat 26) with 26 in He. cbn [payload]. rewrite He by lia.
  unfold encodedInto, carrying. cbn [default]. rewrite bool_decide_eq_true_2 by done.
  pose proof (request_short _ _ Hr Hs). pose proof (length_wireRequest _ Hr).
  rewrite wrap_small by (uint_unfold; lia). unfold zeros. by rewrite drop_replicate.
Qed.

Lemma makeResponsePacket_spec command r :
  wireResponse_wf r → isValidResponseSchema (opcode command) r = true →
  makeResponsePacket command r
  = carrying PacketType.RESPONSE (destination command) (source command) (sequence command)
      (opcode command) (wireResponseBytes r).
Proof.
  intros Hr Hs. unfold makeResponsePacket. cbv zeta.
  pose proof (encodeResponse_spec (opcode command) r (zeros 26) Hr Hs) as He.
  rewrite length_zeros in He. change (Z.of_nat 26) with 26 in He. cbn [payload].
  rewrite He by lia. unfold encodedInto, carrying. cbn [default].
  rewrite bool_decide_eq_true_2 by done.
  pose proof (response_short _ _ Hr Hs). pose proof (length_wireResponse _ Hr).
  rewrite wrap_small by (uint_unfold; lia). unfold zeros. by rewrite drop_replicate.
Qed.

Lemma carrying_request type source destination sequence opcode r r0 :
  wireRequest_wf r → isValidRequestSchema opcode r = true →
  let p := carrying type source destination sequence opcode (wireRequestBytes r) in
  decodeRequest opcode (Some (payload p)) (payloadLength p) r0 = (OK, r).
Proof.
  intros Hr Hs p. apply decodeRequest_ok; subst p; cbn [payload payloadLength carrying].
  - apply byte_app; [by apply wireRequestBytes_byte|apply zeros_byte].
  - rewrite length_app. lia.
  - by rewrite Nat2Z.id, take_app_length.
Qed.

Lemma carrying_response type source destination sequence opcode r r0 :
  wireResponse_wf r → isValidResponseSchema opcode r = true →
  let p := carrying type source destination sequence opcode (wireResponseBytes r) in
  decodeResponse opcode (Some (payload p)) (payloadLength p) r0 = (OK, r).
Proof.
  intros Hr Hs p. apply decodeResponse_ok; subst p; cbn [payload payloadLength carrying].
  - apply byte_app; [by apply wireResponseBytes_byte|apply zeros_byte].
  - rewrite length_app. lia.
  - by rewrite Nat2Z.id, take_app_length.
Qed.

(** A canonical packet is the one that carries its payload. *)
Lemma canonical_carrying p bytes :
  packet_canonical p → take (Z.to_nat (payloadLength p)) (payload p) = bytes →
  p = carrying (type p) (source p) (destination p) (sequence p) (opcode p) bytes.
Proof.
  intros ((_ & _ & _ & _ & _ & [Hn _] & Hl & _) & _ & Hm & Hz) <-.
  change Protocol.MAX_PAYLOAD_SIZE with 26 in Hm. apply all_zero_spec in Hz.
  destruct p as [ty src dst sq op n b]. unfold carrying.
  cbn [type source destination sequence opcode payloadLength payload] in *.
  assert (Hlen : length (take (Z.to_nat n) b) = Z.to_nat n) by (rewrite length_take; lia).
  f_equal; [lia|]. rewrite Hlen. rewrite <- (take_drop (Z.to_nat n) b) at 1. f_equal.
  rewrite Hz. by rewrite length_drop, Hl.
Qed.

(** The radio payloads are exact and agree with the host protocol.  A
    canonical command packet decodes to a request if and only if it is the packet
    that the Hub makes for that request, and a canonical response packet to a
    response if and only if it is the packet that the Node makes for it: nothing
    else is accepted, and nothing that is sent is lost or changed.  And the
    requests that a packet can carry are those that the host protocol accepts,
    with the category of the operation; a packet's value is the host's value. *)
Theorem wire_payloads_exact p command request answer device :
  packet_canonical p →
  (type p = PacketType.COMMAND →
   decodeRequest (opcode p) (Some (payload p)) (payloadLength p) zeroWireRequest = (OK, request)
   ↔ wireRequest_wf request ∧ isValidRequestSchema (opcode p) request = true
     ∧ p = makeCommand (source p) (destination p) (sequence p) (opcode p) request)
  ∧ (type p = PacketType.RESPONSE → source p = destination command → destination p = source command →
     sequence p = sequence command → opcode p = opcode command →
     decodeResponse (opcode p) (Some (payload p)) (payloadLength p) zeroWireResponse = (OK, answer)
     ↔ wireResponse_wf answer ∧ isValidResponseSchema (opcode p) answer = true
       ∧ p = makeResponsePacket command answer)
  ∧ (wireRequest_wf request → isStructuredOpcode (opcode p) = true →
     isValidRequestSchema (opcode p) request = true
     ↔ validateOperationRequest (mkRequest (categoryFor (opcode p)) (opcode p) device
         (wq_targetId request) (copyWireToHostValue (wq_value request))) = HostProtocolRecords.OK).
Proof.
  intros Hc. pose proof Hc as ((_ & _ & _ & _ & _ & [Hn _] & Hl & Hb) & _ & Hm & _).
  change Protocol.MAX_PAYLOAD_SIZE with 26 in Hm. split; [|split].
  - intros Ht. rewrite decodeRequest_ok by (done || lia).
    split; intros (Hr & Hs & E); (split; [done|]); (split; [done|]).
    + rewrite (makeCommand_spec _ _ _ _ _ Hr Hs), <- Ht. by apply canonical_carrying.
    + rewrite (makeCommand_spec _ _ _ _ _ Hr Hs) in E. rewrite E. cbn [carrying payload payloadLength].
      by rewrite Nat2Z.id, take_app_length.
  - intros Ht Es Ed Eq Eo. rewrite decodeResponse_ok by (done || lia).
    split; intros (Hr & Hs & E); (split; [done|]); (split; [done|]).
    + rewrite Eo in Hs. rewrite (makeResponsePacket_spec command _ Hr Hs), <- Ht, <- Es, <- Ed, <- Eq, <- Eo.
      by apply canonical_carrying.
    + rewrite Eo in Hs. rewrite (makeResponsePacket_spec command _ Hr Hs) in E. rewrite E.
      cbn [carrying payload payloadLength]. by rewrite Nat2Z.id, take_app_length.
  - intros (_ & Hw & Hcl) Ho. destruct request as [target v]. by apply request_schema_host.
Qed.

(** ** The Node *)

(** What the Node retains of a command. *)
Definition held (command : Packet) (done : bool) (response : Packet) (lookups : Z)
    : NodeRetainedOperation :=
  mkRetained true done (source command) (destination command) (sequence command) (opcode command)
    (payloadLength command) (payload command) response lookups.

(** A command for the Node that it can read. *)
Record incoming (localId peerId : Z) (command : Packet) (r : Request) : Prop := {
  incoming_canonical : packet_canonical command;
  incoming_type : type command = PacketType.COMMAND;
  incoming_source : source command = peerId;
  incoming_destination : destination command = localId;
  incoming_request : decodeRequest (opcode command) (Some (payload command))
    (payloadLength command) zeroWireRequest = (OK, r)
}.

Lemma incoming_wf localId peerId command r :
  incoming localId peerId command r →
  wireRequest_wf r ∧ isValidRequestSchema (opcode command) r = true
  ∧ isStructuredOpcode (opcode command) = true.
Proof.
  intros [((_ & _ & _ & _ & _ & [Hn _] & Hl & Hb) & _ & Hm & _) _ _ _ Hd].
  change Protocol.MAX_PAYLOAD_SIZE with 26 in Hm.
  apply decodeRequest_ok in Hd as (? & Hs & _); [|done|lia]. split_and!; try done.
  revert Hs. unfold isValidRequestSchema. by destruct (isStructuredOpcode _).
Qed.

(** The copy in [reserve] keeps the payload of a packet as it came. *)
Lemma reserve_payload command :
  packet_canonical command →
  map (λ i, if Z.of_nat i <? payloadLength command then rd (payload command) i else 0) (seq 0 26)
  = payload command.
Proof.
  intros ((_ & _ & _ & _ & _ & [Hn _] & Hl & _) & _ & _ & Hz).
  apply list_eq. intros i. rewrite list_lookup_fmap.
  destruct (decide (i < 26)%nat) as [Hi|Hi].
  - rewrite lookup_seq_lt by lia. cbn [fmap option_fmap option_map]. rewrite Nat.add_0_l.
    rewrite (lookup_rd (payload command) i) by lia. f_equal.
    destruct (Z.ltb_spec (Z.of_nat i) (payloadLength command)) as [|Hge]; [done|].
    apply all_zero_spec in Hz. symmetry. apply rd_lookup.
    replace i with (Z.to_nat (payloadLength command) + (i - Z.to_nat (payloadLength command)))%nat by lia.
    rewrite <- lookup_drop, Hz. apply lookup_replicate. rewrite length_drop. lia.
  - rewrite lookup_seq_ge by lia. cbn [fmap option_fmap option_map]. symmetry.
    apply lookup_ge_None. lia.
Qed.

Lemma isDuplicate_held command complete response lookups :
  isDuplicate command (held command complete response lookups)
  = (true, held command complete response (u32 (lookups + 1))).
Proof.
  unfold isDuplicate, held. unfold rec_set; cbn. rewrite !Z.eqb_refl. cbn [negb orb].
  f_equal. by apply bytes_eqb_spec.
Qed.

(** A lookup only counts. *)
Lemma isDuplicate_counts command q :
  isDuplicate command q
  = ((isDuplicate command q).1, q <| lookupCount_ := u32 (lookupCount_ q + 1) |>).
Proof. unfold isDuplicate. cbv zeta. by case_match. Qed.

Lemma acknowledgment_held command complete response lookups :
  acknowledgment (held command complete response lookups) = makeAcknowledgment command AckStatus.SUCCESS.
Proof. done. Qed.

Section Admission.

Context (localId peerId : Z) (command : Packet) (asked : Request).
Context (Hin : incoming localId peerId command asked).

Lemma admission_guards :
  negb (destination command =? localId) || negb (source command =? peerId)
    || negb (type command =? PacketType.COMMAND) = false
  ∧ negb (isStructuredOpcode (opcode command)) = false
  ∧ negb (bool_decide ((decodeRequest (opcode command) (Some (payload command))
      (payloadLength command) zeroWireRequest).1 = OK)) = false.
Proof.
  destruct (incoming_wf _ _ _ _ Hin) as (_ & _ & Ho). destruct Hin as [_ Ht Hs Hd Hr].
  rewrite Ht, Hs, Hd, Hr, Ho, !Z.eqb_refl, bool_decide_eq_true_2 by done. done.
Qed.

(** A new command is admitted and kept. *)
Lemma admit_new p :
  isActive (retained_ p) = false → (isDuplicate command (retained_ p)).1 = false →
  admitCommand command localId peerId p
  = (mkNodeResult ACK_THEN_EXECUTE (makeAcknowledgment command AckStatus.SUCCESS) zeroPacket,
     mkProcessor (held command false zeroPacket (u32 (lookupCount_ (retained_ p) + 1))) command true
       (hostScratch_ p)).
Proof.
  intros Ha Hd. destruct admission_guards as (H1 & H2 & H3).
  unfold admitCommand, admitNodeCommand. rewrite H1, H2, H3.
  assert (E : isDuplicate command (retained_ p)
    = (false, (retained_ p) <| lookupCount_ := u32 (lookupCount_ (retained_ p) + 1) |>)).
  { rewrite isDuplicate_counts. by rewrite Hd. }
  rewrite E. set (q := _ <| lookupCount_ := _ |>).
  assert (isActive q = false) as Hq by exact Ha. rewrite Hq.
  unfold reserve. rewrite Hq. destruct Hin as [Hc _ _ _ _].
  assert (Protocol.MAX_PAYLOAD_SIZE <? payloadLength command = false) as ->
    by (apply Z.ltb_ge; apply Hc).
  cbn [orb snd ar_outcome]. rewrite reserve_payload by done. done.
Qed.

(** While it is kept, the command itself is only answered again, and others wait. *)
Lemma admit_held p complete response lookups :
  retained_ p = held command complete response lookups →
  admitCommand command localId peerId p
  = (if complete
     then mkNodeResult SEND_ACK_AND_RESPONSE (makeAcknowledgment command AckStatus.SUCCESS) response
     else mkNodeResult SEND_ACK (makeAcknowledgment command AckStatus.SUCCESS) zeroPacket,
     p <| retained_ := held command complete response (u32 (lookups + 1)) |>).
Proof.
  intros Hp. destruct admission_guards as (H1 & H2 & H3).
  unfold admitCommand, admitNodeCommand. rewrite H1, H2, H3, Hp, isDuplicate_held.
  by destruct complete.
Qed.

(** The answer to the command, as the Node puts it in a packet. *)
Definition responsePacket (answer : Response) : Packet :=
  carrying PacketType.RESPONSE (destination command) (source command) (sequence command)
    (opcode command) (wireResponseBytes answer).

(** A response to the command completes it. *)
Lemma complete_held answer lookups :
  wireResponse_wf answer → isValidResponseSchema (opcode command) answer = true →
  ws_targetId answer = wq_targetId asked →
  complete (responsePacket answer) (held command false zeroPacket lookups)
  = (true, held command true (responsePacket answer) lookups).
Proof.
  intros Hw Hs Ht. unfold complete. cbn [held isActive hasEntry_ complete_ andb negb orb
    source_ destination_ sequence_ opcode_ payload_ payloadLength_]. unfold responsePacket at 1 2 3 4 5.
  cbn [carrying type source destination sequence opcode]. rewrite !Z.eqb_refl. cbn [negb orb].
  unfold responsePacket at 1 2 3. cbn [opcode carrying].
  pose proof (carrying_response PacketType.RESPONSE (destination command) (source command)
    (sequence command) (opcode command) answer zeroWireResponse Hw Hs) as Hd.
  cbv zeta in Hd. rewrite Hd.
  rewrite (incoming_request _ _ _ _ Hin), Ht, Z.eqb_refl. done.
Qed.

Context {W : Type} `{DeviceCapabilities.LocalCapabilityHandler W}.
Context (snapshot : DeviceSnapshot) (registryValid : bool)
  (registry : DeviceCapabilities.CapabilityRegistryView) (interlock : Z)
  (availability : AvailabilityProvider).
Context (Hsnapshot : snapshot_wf snapshot) (Hregistry : registry_wf registry).

Abbreviation execute := (executeAdmittedOperation (W := W) snapshot registryValid registry interlock
  availability).

Lemma zero_target : zeroTargetOperation (opcode command) = (wq_targetId asked =? 0).
Proof.
  destruct (incoming_wf _ _ _ _ Hin) as (_ & Hs & Ho). apply structured_operation in Ho. revert Hs Ho.
  unfold isValidRequestSchema, remoteOperations, zeroTargetOperation. destruct (_ || _); [done|].
  intros Hs Ho. revert Hs. unfold one_of, existsb. switch_cases Ho; which_operation; cbn [orb];
    rewrite ?andb_true_iff; intros Hs; destruct_and?; symmetry; auto;
    try by apply negb_true_iff.
Qed.

(** An admitted command is executed and answered. *)
Lemma execute_held lookups scratch (s : Local W) :
  ∃ status value s',
    performOperation snapshot registryValid registry interlock availability (opcode command) asked s
    = ((status, value), s')
  ∧ answerable (opcode command) status value
  ∧ let answer := answerOf (wq_targetId asked) status value in
    wireResponse_wf answer ∧ isValidResponseSchema (opcode command) answer = true
  ∧ execute (mkProcessor (held command false zeroPacket lookups) command true scratch, s)
    = (mkNodeResult RESPONSE_READY zeroPacket (responsePacket answer),
       (mkProcessor (held command true (responsePacket answer) lookups) command false value, s')).
Proof.
  destruct (incoming_wf _ _ _ _ Hin) as (Hr & Hs & Ho). pose proof (structured_operation _ Ho) as Hrem.
  destruct (perform_answers snapshot registryValid registry interlock availability Hsnapshot Hregistry
    (opcode command) asked s Hr Hs) as (status & value & s' & E & Ha & _).
  exists status, value, s'. split; [done|]. split; [done|]. cbv zeta.
  destruct (answer_valid (opcode command) (wq_targetId asked) status value Hrem (proj1 Hr) zero_target Ha)
    as (Hw & Hv & _). split; [done|]. split; [done|].
  unfold executeAdmittedOperation. unfold bind at 1, gets. cbn [fst snd hasPendingCommand_ retained_
    pendingCommand_]. change (isActive (held command false zeroPacket lookups)) with true.
  cbn [negb orb]. rewrite (incoming_request _ _ _ _ Hin). unfold bind, outside, zoom. cbn [fst snd].
  rewrite E. cbn [fst snd]. fold (answerOf (wq_targetId asked) status value).
  rewrite (makeResponsePacket_spec command _ Hw Hv). fold (responsePacket (answerOf (wq_targetId asked) status value)).
  unfold update, modify, ret. cbn [fst snd].
  assert (payloadLength (responsePacket (answerOf (wq_targetId asked) status value)) =? 0 = false) as ->.
  { apply Z.eqb_neq. cbn [responsePacket carrying payloadLength].
    rewrite (length_wireResponse _ Hw). lia. }
  rewrite (complete_held _ lookups Hw Hv) by done. done.
Qed.

(** A processor that holds a completed command does nothing more. *)
Lemma execute_settled p (s : Local W) :
  hasPendingCommand_ p = false → execute (p, s) = (zeroNodeResult, (p, s)).
Proof. intros Hp. unfold executeAdmittedOperation, bind, gets. cbn [fst snd]. by rewrite Hp. Qed.

(** The processor after a number of further receptions of the command. *)
Lemma readmit_held n p complete response lookups :
  retained_ p = held command complete response lookups →
  let p' := Nat.iter n (λ p, (admitCommand command localId peerId p).2) p in
  ∃ lookups', retained_ p' = held command complete response lookups'
    ∧ hasPendingCommand_ p' = hasPendingCommand_ p ∧ pendingCommand_ p' = pendingCommand_ p
    ∧ hostScratch_ p' = hostScratch_ p.
Proof.
  intros Hp. induction n as [|n (l & IH & IH2 & IH3 & IH4)]; [by exists lookups|].
  cbv zeta. rewrite Nat.iter_succ. rewrite (admit_held _ complete response l IH). eexists.
  by split_and!.
Qed.

End Admission.

(** C20. The Node executes an admitted command once, and answers every repetition
    of it with the same answer.  Take any processor that is not busy, and any
    command packet for this Node, from its peer, that the request codec accepts
    and that the processor does not retain.  Admitting it acknowledges it and
    asks for its execution; however often it is received again before, each
    reception repeats the acknowledgment only.  Executing it then always yields
    a response - a canonical packet that decodes to the status and value of the
    operation for the requested target.  And however often the command is
    received afterwards, each reception repeats exactly that acknowledgment and
    that response, and executing again does nothing: the device performs the
    operation once. *)
Theorem node_executes_once {W} `{DeviceCapabilities.LocalCapabilityHandler W} snapshot registryValid
    registry interlock availability localId peerId command asked p :
  snapshot_wf snapshot → registry_wf registry → incoming localId peerId command asked →
  isActive (retained_ p) = false → (isDuplicate command (retained_ p)).1 = false →
  let ack := makeAcknowledgment command AckStatus.SUCCESS in
  let hears p := admitCommand command localId peerId p in
  let execute := executeAdmittedOperation (W := W) snapshot registryValid registry interlock
                   availability in
  (hears p).1 = mkNodeResult ACK_THEN_EXECUTE ack zeroPacket
  ∧ ∀ before, let p1 := Nat.iter before (λ p, (hears p).2) (hears p).2 in
    (hears p1).1 = mkNodeResult SEND_ACK ack zeroPacket
    ∧ ∀ s, ∃ response p2 s2 answer,
      execute (p1, s) = (mkNodeResult RESPONSE_READY zeroPacket response, (p2, s2))
      ∧ packet_canonical response
      ∧ decodeResponse (opcode command) (Some (payload response)) (payloadLength response)
          zeroWireResponse = (OK, answer)
      ∧ ws_targetId answer = wq_targetId asked
      ∧ ws_status answer = (performOperation snapshot registryValid registry interlock availability
          (opcode command) asked s).1.1
      ∧ ∀ after, let p3 := Nat.iter after (λ p, (hears p).2) p2 in
        (hears p3).1 = mkNodeResult SEND_ACK_AND_RESPONSE ack response
        ∧ ∀ s', execute (p3, s') = (zeroNodeResult, (p3, s')).
Proof.
  intros Hsn Hre Hin Ha Hd ack hears execute. pose proof (admit_new _ _ _ _ Hin p Ha Hd) as E.
  subst hears. cbv beta. rewrite E. cbn [fst snd]. split; [done|].
  intros before. cbv zeta.
  set (p0 := mkProcessor _ command true _). set (p1 := Nat.iter before _ p0).
  destruct (readmit_held _ _ _ _ Hin before p0 false zeroPacket _ eq_refl)
    as (l & Hp & Hpend & Hcmd & Hscr). fold p1 in Hp, Hpend, Hcmd, Hscr.
  rewrite (admit_held _ _ _ _ Hin p1 _ _ _ Hp). split; [done|]. intros s.
  assert (Hp1 : p1 = mkProcessor (held command false zeroPacket l) command true (hostScratch_ p0)).
  { destruct p1 as [a b c d]. cbn in Hp, Hpend, Hcmd, Hscr. by subst. }
  destruct (execute_held _ _ _ _ Hin snapshot registryValid registry interlock availability Hsn Hre
    l (hostScratch_ p0) s) as (status & value & s2 & Eperf & Hans & Hw & Hv & Eexec).
  set (answer := answerOf (wq_targetId asked) status value) in *.
  subst execute. rewrite Hp1, Eexec.
  eexists _, _, s2, answer. split; [done|].
  destruct (incoming_canonical _ _ _ _ Hin) as ((_ & ? & ? & ? & ? & _) & _).
  split. { apply carrying_canonical; try done. - by apply wireResponseBytes_byte.
    - rewrite (length_wireResponse _ Hw). pose proof (response_short _ _ Hw Hv). lia. }
  split; [by apply carrying_response|]. split; [done|]. rewrite Eperf. split; [done|].
  intros after. destruct (readmit_held _ _ _ _ Hin after
    (mkProcessor (held command true (responsePacket command answer) l) command false value)
    true (responsePacket command answer) l eq_refl) as (l' & Hp3 & Hpend3 & _).
  split.
  - by rewrite (admit_held _ _ _ _ Hin _ _ _ _ Hp3).
  - intros s'. by apply execute_settled.
Qed.

(** ** A command *)

Import CapabilityFacts.Lamp.

(** Device 1 asks device 2 to describe its capability 7. *)
Definition describeLamp : Request := mkWireRequest 7 (mkWireValue 0 0 (zeros 22)).

Definition describeCommand : Packet := makeCommand 1 2 5 Opcode.DESCRIBE_CAPABILITY describeLamp.

Lemma describeCommand_incoming : incoming 2 1 describeCommand describeLamp.
Proof.
  constructor; try (vm_compute; reflexivity).
  split_and!; try (vm_compute; reflexivity); try (vm_compute; discriminate); try (by split).
  by repeat constructor.
Qed.

Lemma wire_payloads_exact_witness :
  let p := describeCommand in
  ((type p = PacketType.COMMAND →
    decodeRequest (opcode p) (Some (payload p)) (payloadLength p) zeroWireRequest = (OK, describeLamp)
    ↔ wireRequest_wf describeLamp ∧ isValidRequestSchema (opcode p) describeLamp = true
      ∧ p = makeCommand (source p) (destination p) (sequence p) (opcode p) describeLamp)
   ∧ (type p = PacketType.RESPONSE → source p = destination p → destination p = source p →
      sequence p = sequence p → opcode p = opcode p →
      decodeResponse (opcode p) (Some (payload p)) (payloadLength p) zeroWireResponse
      = (OK, zeroWireResponse)
      ↔ wireResponse_wf zeroWireResponse ∧ isValidResponseSchema (opcode p) zeroWireResponse = true
        ∧ p = makeResponsePacket p zeroWireResponse)
   ∧ (wireRequest_wf describeLamp → isStructuredOpcode (opcode p) = true →
      isValidRequestSchema (opcode p) describeLamp = true
      ↔ validateOperationRequest (mkRequest (categoryFor (opcode p)) (opcode p) 2
          (wq_targetId describeLamp) (copyWireToHostValue (wq_value describeLamp)))
        = HostProtocolRecords.OK))
  ∧ take 4 (payload p) = [7; 0; 0; 0].
Proof.
  intros p. split; [|vm_compute; reflexivity].
  exact (wire_payloads_exact describeCommand describeCommand describeLamp zeroWireResponse 2
    (incoming_canonical _ _ _ _ describeCommand_incoming)).
Defined.

Lemma node_executes_once_witness :
  let ack := makeAcknowledgment describeCommand AckStatus.SUCCESS in
  let hears p := admitCommand describeCommand 2 1 p in
  let execute := executeAdmittedOperation (W := Z) HostServiceFacts.device true registry
    DeviceCapabilities.InterlockState.CLEAR HostServiceFacts.available in
  (hears newProcessor).1 = mkNodeResult ACK_THEN_EXECUTE ack zeroPacket
  ∧ ∀ before, let p1 := Nat.iter before (λ p, (hears p).2) (hears newProcessor).2 in
    (hears p1).1 = mkNodeResult SEND_ACK ack zeroPacket
    ∧ ∀ s, ∃ response p2 s2 answer,
      execute (p1, s) = (mkNodeResult RESPONSE_READY zeroPacket response, (p2, s2))
      ∧ packet_canonical response
      ∧ decodeResponse (opcode describeCommand) (Some (payload response)) (payloadLength response)
          zeroWireResponse = (OK, answer)
      ∧ ws_targetId answer = wq_targetId describeLamp
      ∧ ws_status answer = (performOperation HostServiceFacts.device true registry
          DeviceCapabilities.InterlockState.CLEAR HostServiceFacts.available
          (opcode describeCommand) describeLamp s).1.1
      ∧ ∀ after, let p3 := Nat.iter after (λ p, (hears p).2) p2 in
        (hears p3).1 = mkNodeResult SEND_ACK_AND_RESPONSE ack response
        ∧ ∀ s', execute (p3, s') = (zeroNodeResult, (p3, s')).
Proof.
  exact (node_executes_once HostServiceFacts.device true registry
    DeviceCapabilities.InterlockState.CLEAR HostServiceFacts.available 2 1 describeCommand describeLamp
    newProcessor HostServiceFacts.device_wf HostServiceFacts.lamp_registry_wf describeCommand_incoming
    eq_refl eq_refl).
Defined.

End BridgeLife.
