(* ===== verification/BridgeEnd.v ===== *)
(** A request of the host to the peer, from the Hub's bridge to the Node and
    back, and the end of a transaction whose peer stays silent. *)

From S2P Require Import Prelude Wire Capabilities CapabilityFacts Diagnostics HostFrame HostRecords HostMessages HostMessageFacts HostRecordFacts HostService HostServiceFacts WireOps Bridge WireFacts BridgeFacts BridgeLife.

Module BridgeEnd.

Import Protocol WireOperations RadioOperationBridge WireFacts BridgeFacts BridgeLife HostMessageFacts.
Import HostRecordFacts.
Import TransactionEngine(makeAcknowledgment).
Import HostServiceFacts(snapshot_wf, registry_wf).
Import HostOperationService(DeviceSnapshot, ds_deviceId, AvailabilityProvider, handleLocalOperation).
Import CapabilityRoleIntegration(Local).
Import HostProtocolRecords(tv_type, tv_length, tv_bytes).
Import HostProtocolMessages(OperationRequest, mkRequest, rq_category, rq_operation,
  rq_targetDeviceId, rq_targetId, rq_value, OperationResponse, mkResponse, rs_value, resultClass,
  resultCode, validateOperationRequest, validateOperationRequestM).

(** ** What the Hub sends *)

(** The valid requests of minor version 1 are those that go over the radio. *)
Lemma valid_remote request :
  validateOperationRequest request = HostProtocolRecords.OK →
  rq_category request = categoryFor (rq_operation request)
  ∧ one_of (rq_operation request) remoteOperations = true.
Proof.
  intros Hv. apply HostServiceFacts.valid_request in Hv as [Hk _]. revert Hk.
  destruct request as [category operation device target v]. cbn [rq_category rq_operation].
  unfold HostProtocolMessages.classifyCategoryOperationM.
  destruct (HostProtocol.isKnownOperationCategoryM _ _) eqn:Ec; [|done].
  destruct (HostProtocol.isKnownOperationCodeM _ _) eqn:Eo; [|done]. cbn [negb orb].
  destruct (HostProtocol.isSupportedCategoryOperationM _ _ _) eqn:Es; [|done]. intros _.
  unfold HostProtocol.isKnownOperationCategoryM, HostProtocol.isKnownOperationCodeM in *.
  which_operation. change (HostProtocol.VERSION_MINOR_0_1 =? HostProtocol.VERSION_MINOR_0_2) with false in *.
  cbn [andb] in *. rewrite orb_false_r in Ec, Eo.
  unfold HostProtocol.isKnownOperationCategory in Ec. unfold HostProtocol.isKnownOperationCode in Eo.
  revert Es. switch_cases Ec; switch_cases Eo; by vm_compute.
Qed.

(** What the Hub asks the peer for a request of the host. *)
Definition wireRequestOf (request : OperationRequest) : Request :=
  mkWireRequest (rq_targetId request) (copyHostToWireValue (rq_value request)).

Lemma wireRequestOf_valid request :
  request_wf request → validateOperationRequest request = HostProtocolRecords.OK →
  wireRequest_wf (wireRequestOf request)
  ∧ isValidRequestSchema (rq_operation request) (wireRequestOf request) = true
  ∧ copyWireToHostValue (wq_value (wireRequestOf request)) = rq_value request.
Proof.
  intros (_ & _ & _ & Ht & Hw & Hc) Hv. destruct (valid_remote _ Hv) as [Ecat Ho].
  assert (Hstr : isStructuredOpcode (rq_operation request) = true)
    by (revert Ho; clear; unfold remoteOperations; intros Ho; by switch_cases Ho).
  assert (Hshort : tv_length (rq_value request) ≤ 22).
  { destruct (carried_request _ _ Hv) as [Hs Hl]. clear Hl.
    destruct (Z.eq_dec (tv_type (rq_value request)) HostProtocol.STRUCTURE_VALUE_TYPE) as [E|E];
      [|pose proof (scalar_length _ (Hs E)); lia].
    exfalso. pose proof (proj2 (HostServiceFacts.valid_request _ _ Hv)) as _.
    destruct request as [cat op dev target v]. cbn [rq_category rq_operation rq_value] in *. subst cat.
    apply host_request in Hv; [|done]. apply andb_true_iff in Hv as [_ Hv]. revert Hv.
    unfold HostProtocolMessages.isValidOperationRequestValue, HostProtocolRecords.isNoneValue,
      HostProtocolRecords.isValidScalarValue, remoteOperations in *. rewrite E.
    clear -Ho. unfold one_of, existsb. by switch_cases Ho. }
  destruct (copyHostToWire_wf _ Hw Hc Hshort) as (Hw' & Hc' & _).
  pose proof (host_wire_host _ Hw Hc Hshort) as Eback.
  split; [by split_and!|]. split; [|done].
  apply (request_schema_host _ _ _ (rq_targetDeviceId request) Hw' Hc' Hstr).
  rewrite Eback, <- Ecat. by destruct request.
Qed.

(** A response that the host can be sent: the encoder accepts it and it decodes
    to itself. *)
Definition sent_to_host (r : OperationResponse) : Prop :=
  ∀ out, (HostProtocol.MAX_PAYLOAD_SIZE ≤ length out)%nat →
  ∃ bytes,
    HostProtocolMessages.encodeOperationResponseM HostProtocol.VERSION_MINOR_0_1 r (Some out)
      (Z.of_nat (length out))
    = (HostProtocolRecords.OK, Some (bytes ++ drop (length bytes) out), Z.of_nat (length bytes))
  ∧ ∀ r0, HostProtocolMessages.decodeOperationResponseM HostProtocol.VERSION_MINOR_0_1 (Some bytes)
      (Z.of_nat (length bytes)) r0 = (HostProtocolRecords.OK, r).

Lemma answer_sent request status value :
  request_wf request → validateOperationRequest request = HostProtocolRecords.OK →
  answerable (rq_operation request) status value →
  sent_to_host (mkResponse (rq_category request) (rq_operation request) (rq_targetDeviceId request)
    (rq_targetId request) HostProtocol.ResultClass.OPERATION_RESULT status value).
Proof.
  intros Hr Hv (Hk & Hw & Hc & Hval) out Hout.
  destruct (valid_remote _ Hv) as [Ecat Ho]. destruct (HostServiceFacts.valid_request _ _ Hv) as [H1 H2].
  assert (Hcat : rq_category request ≠ HostProtocol.OperationCategory.EVENT).
  { rewrite Ecat. revert Ho. clear. unfold remoteOperations. intros Ho. by switch_cases Ho. }
  destruct (HostServiceFacts.result_sendable HostProtocol.VERSION_MINOR_0_1 request H1 H2 Hcat status
    value Hk Hw Hc Hval) as (? & ? & _ & _ & Hresp).
  set (r := mkResponse _ _ _ _ _ _ _) in *. destruct Hr as (? & ? & ? & ? & _).
  assert (Hrw : response_wf r) by done.
  exists (responseBytes r). split; [by apply encodeOperationResponse_spec|].
  intros r0. apply decodeOperationResponse_ok; [by apply responseBytes_byte|done].
Qed.

(** A bridge that waits for nothing. *)
Definition idle (b : HubStructuredOperationBridge) : Prop :=
  active_ b = false ∧ phase_ (transaction_ b) = IDLE ∧ is_u8 (nextSequence_ b).

Section Request.

Context (id : Z) (request : OperationRequest) (localId peerId now overallTimeout maxRetries : Z).
Context (explicitlyConfigured : bool) (b : HubStructuredOperationBridge).
Context (Hrequest : request_wf request).
Context (Hvalid : validateOperationRequest request = HostProtocolRecords.OK).
Context (Hpeer : rq_targetDeviceId request = peerId) (Hlocal : peerId ≠ localId).
Context (Hlocal8 : is_u8 localId).
Context (Hidle : idle b).
Context (Hsupport : mayStartStructuredOperation (peerSupport_ b) (rq_operation request)
  explicitlyConfigured = true).

Let asked := wireRequestOf request.

(** The command the Hub sends. *)
Definition commandOf : Packet :=
  carrying PacketType.COMMAND localId peerId (nextSequence_ b) (rq_operation request)
    (wireRequestBytes asked).

(** The transaction while it waits in this phase. *)
Definition waitingTransaction (phase : StructuredPhase) (retries : Z) : HubStructuredTransaction :=
  mkTransaction phase (peerSupport_ b) commandOf (result_ (transaction_ b)) (rq_targetId request)
    (u32 (now + overallTimeout)) retries maxRetries.

Definition waiting (phase : StructuredPhase) (retries : Z) : HubStructuredOperationBridge :=
  mkBridge true (nextSequence_ b) id request (peerSupport_ b) (waitingTransaction phase retries).

(** The bridge once the host has its response. *)
Definition finished (support : PeerSupport) (transaction : HubStructuredTransaction)
    : HubStructuredOperationBridge :=
  mkBridge false (u8 (nextSequence_ b + 1)) id request support transaction.

Lemma peer_byte : is_u8 peerId.
Proof using Hrequest Hpeer. rewrite <- Hpeer. apply Hrequest. Qed.

Lemma command_incoming : incoming peerId localId commandOf asked.
Proof.
  destruct (wireRequestOf_valid _ Hrequest Hvalid) as (Hw & Hs & _).
  destruct (valid_remote _ Hvalid) as [_ Ho]. destruct Hidle as (_ & _ & H8).
  pose proof (length_wireRequest _ Hw). pose proof (request_short _ _ Hw Hs).
  constructor; try done.
  - apply carrying_canonical; try done; [apply peer_byte|by apply structured_byte
      |by apply wireRequestBytes_byte|]. subst asked. lia.
  - by apply carrying_request.
Qed.

Lemma submit_sends :
  submit id request RuntimeState.HUB localId peerId now overallTimeout maxRetries
    explicitlyConfigured b
  = (mkHubResult TRANSMIT_COMMAND id commandOf (makeHostResponseBase request), waiting AWAITING_ACK 0).
Proof.
  destruct (wireRequestOf_valid _ Hrequest Hvalid) as (Hw & Hs & _). fold asked in Hw, Hs.
  destruct (valid_remote _ Hvalid) as [_ Ho]. destruct Hidle as (Hac & Hph & H8).
  pose proof command_incoming as Hin.
  destruct (incoming_wf _ _ _ _ Hin) as (_ & _ & Hstr).
  unfold submit. rewrite Hvalid, bool_decide_eq_true_2 by done. cbn [negb].
  rewrite Hpeer, (proj2 (Z.eqb_neq _ _) Hlocal), Z.eqb_refl. cbn [negb orb].
  rewrite Hac, Hsupport. cbn [negb].
  fold (wireRequestOf request). fold asked. rewrite (makeCommand_spec _ _ _ _ _ Hw Hs).
  fold commandOf.
  assert (payloadLength commandOf =? 0 = false) as ->.
  { apply Z.eqb_neq. cbn [commandOf carrying payloadLength]. rewrite (length_wireRequest _ Hw). lia. }
  unfold begin. rewrite Hph, bool_decide_eq_true_2 by done.
  change (opcode commandOf) with (rq_operation request) in *. rewrite Hstr.
  change (type commandOf) with PacketType.COMMAND. cbn [negb orb].
  rewrite (proj2 (Z.eqb_eq _ _)) by done. cbn [negb orb].
  pose proof (incoming_request _ _ _ _ Hin) as Hd.
  change (opcode commandOf) with (rq_operation request) in Hd. rewrite Hd. done.
Qed.

(** The Node's acknowledgment is noted. *)
Lemma receive_acknowledgment :
  receive (makeAcknowledgment commandOf AckStatus.SUCCESS) (waiting AWAITING_ACK 0)
  = (mkHubResult HUB_NONE id zeroPacket (makeHostResponseBase request), waiting AWAITING_RESPONSE 0).
Proof.
  unfold receive. cbn [waiting active_ negb transaction_]. unfold WireOperations.receive.
  cbn [waitingTransaction phase_ command_]. rewrite bool_decide_eq_false_2 by done.
  cbn [makeAcknowledgment source destination sequence opcode type payloadLength payload].
  rewrite !Z.eqb_refl. cbn [negb orb]. done.
Qed.

(** The response is the host's. *)
Lemma receive_response answer phase :
  wireResponse_wf answer → isValidResponseSchema (rq_operation request) answer = true →
  ws_targetId answer = rq_targetId request → phase ≠ IDLE →
  receive (responsePacket commandOf answer) (waiting phase 0)
  = (mkHubResult HOST_RESPONSE_READY id zeroPacket
       (mkResponse (rq_category request) (rq_operation request) (rq_targetDeviceId request)
          (rq_targetId request) HostProtocol.ResultClass.OPERATION_RESULT (ws_status answer)
          (copyWireToHostValue (ws_value answer))),
     finished SUPPORTED
       (mkTransaction IDLE SUPPORTED commandOf answer (rq_targetId request)
          (u32 (now + overallTimeout)) 0 maxRetries)).
Proof.
  intros Hw Hs Ht Hph. unfold receive. cbn [waiting active_ negb transaction_].
  unfold WireOperations.receive. cbn [waitingTransaction phase_ command_].
  rewrite bool_decide_eq_false_2 by done.
  unfold responsePacket at 1 2 3 4 5 6. cbn [carrying source destination sequence opcode type].
  rewrite !Z.eqb_refl. cbn [negb orb].
  change (PacketType.RESPONSE =? PacketType.ACK) with false. cbn [negb].
  pose proof (carrying_response PacketType.RESPONSE (destination commandOf) (source commandOf)
    (sequence commandOf) (opcode commandOf) answer zeroWireResponse Hw Hs) as Hd. cbv zeta in Hd.
  fold (responsePacket commandOf answer) in Hd.
  change (opcode (responsePacket commandOf answer)) with (opcode commandOf). rewrite Hd.
  cbn [requestTarget_]. rewrite Ht, Z.eqb_refl. done.
Qed.

End Request.


(** ** A silent peer *)

(** The results of servicing the bridge at these times, and the bridge after. *)
Fixpoint serviceAll (times : list Z) : st HubStructuredOperationBridge (list HubResult) :=
  match times with
  | [] => ret []
  | t :: rest => r <~ service t ;; rs <~ serviceAll rest ;; ret (r :: rs)
  end.

Lemma serviceAll_app early late b :
  serviceAll (early ++ late) b
  = ((serviceAll early b).1 ++ (serviceAll late (serviceAll early b).2).1,
     (serviceAll late (serviceAll early b).2).2).
Proof.
  revert b. induction early as [|t early IH]; intros b.
  { cbn [app serviceAll ret fst snd]. by destruct (serviceAll late b). }
  cbn [app serviceAll]. unfold bind, ret. cbn [fst snd]. by rewrite IH.
Qed.

Section Silence.

Context (id : Z) (request : OperationRequest) (localId peerId now overallTimeout maxRetries : Z).
Context (b : HubStructuredOperationBridge).

Abbreviation deadline := (u32 (now + overallTimeout)).
Abbreviation base := (makeHostResponseBase request).
Abbreviation command := (commandOf request localId peerId b).
Abbreviation wait := (waiting id request localId peerId now overallTimeout maxRetries b).

(** The answer of a timeout. *)
Definition timeoutResponse : OperationResponse :=
  mkResponse (rq_category request) (rq_operation request) (rq_targetDeviceId request)
    (rq_targetId request) HostProtocol.ResultClass.RADIO_RESULT HostProtocol.RadioResultCode.TIMEOUT
    HostProtocolRecords.setNoneValue.

Lemma service_early t phase retries :
  sint32 (t - deadline) < 0 →
  service t (wait phase retries) = (mkHubResult HUB_NONE id zeroPacket base, wait phase retries).
Proof.
  intros Ht. unfold service. cbn [waiting active_ negb transaction_]. unfold WireOperations.service.
  cbn [waitingTransaction phase_ deadline_]. rewrite (proj2 (Z.ltb_lt _ _) Ht), orb_true_r. done.
Qed.

Lemma service_retries t phase retries :
  0 ≤ sint32 (t - deadline) → phase ≠ IDLE → 0 ≤ retries < maxRetries → maxRetries ≤ 255 →
  service t (wait phase retries)
  = (mkHubResult TRANSMIT_COMMAND id command base, wait phase (retries + 1)).
Proof.
  intros Ht Hp Hr Hm. unfold service. cbn [waiting active_ negb transaction_].
  unfold WireOperations.service. cbn [waitingTransaction phase_ deadline_ retries_ maxRetries_].
  rewrite (proj2 (Z.ltb_ge _ _) Ht), bool_decide_eq_false_2, (proj2 (Z.ltb_lt retries maxRetries)) by
    (done || lia). cbn [orb]. rewrite wrap_small by (uint_unfold; lia). done.
Qed.

Lemma service_gives_up t phase :
  0 ≤ sint32 (t - deadline) → phase ≠ IDLE →
  ∃ b', service t (wait phase maxRetries)
    = (mkHubResult HOST_RESPONSE_READY id zeroPacket timeoutResponse, b')
  ∧ active_ b' = false ∧ phase_ (transaction_ b') = IDLE
  ∧ nextSequence_ b' = u8 (nextSequence_ b + 1).
Proof.
  intros Ht Hp. unfold service. cbn [waiting active_ negb transaction_].
  unfold WireOperations.service. cbn [waitingTransaction phase_ deadline_ retries_ maxRetries_].
  rewrite (proj2 (Z.ltb_ge _ _) Ht), bool_decide_eq_false_2, (proj2 (Z.ltb_ge _ _)) by (done || lia).
  cbn [orb]. eexists. split; [done|]. done.
Qed.

Lemma serviceAll_early early phase retries :
  Forall (λ t, sint32 (t - deadline) < 0) early →
  serviceAll early (wait phase retries)
  = (replicate (length early) (mkHubResult HUB_NONE id zeroPacket base), wait phase retries).
Proof.
  induction 1 as [|t early Ht _ IH]; [done|]. cbn [serviceAll length replicate].
  rewrite (bind_run _ _ _ _ _ (service_early t phase retries Ht)).
  by rewrite (bind_run _ _ _ _ _ IH).
Qed.

Lemma serviceAll_retries late phase : ∀ retries,
  Forall (λ t, 0 ≤ sint32 (t - deadline)) late → phase ≠ IDLE → 0 ≤ retries →
  retries + Z.of_nat (length late) ≤ maxRetries → maxRetries ≤ 255 →
  serviceAll late (wait phase retries)
  = (replicate (length late) (mkHubResult TRANSMIT_COMMAND id command base),
     wait phase (retries + Z.of_nat (length late))).
Proof.
  induction late as [|t late IH]; intros retries Hl Hp Hr Hm Hmax.
  { cbn [serviceAll length replicate ret]. by rewrite Z.add_0_r. }
  apply Forall_cons in Hl as [Ht Hl]. cbn [serviceAll length replicate] in *.
  rewrite (bind_run _ _ _ _ _ (service_retries t phase retries Ht Hp ltac:(lia) Hmax)).
  rewrite (bind_run _ _ _ _ _ (IH (retries + 1) Hl Hp ltac:(lia) ltac:(lia) Hmax)).
  unfold ret. by replace (retries + 1 + Z.of_nat (length late))
    with (retries + Z.of_nat (S (length late))) by lia.
Qed.

End Silence.


(** ** The device *)

Import CapabilityFacts.Lamp.

(** The peer is the device of the local service, the Hub is device 1. *)
Definition pingPeer : OperationRequest :=
  mkRequest HostProtocol.OperationCategory.DEVICE HostProtocol.OperationCode.PING 2 0
    HostProtocolRecords.setNoneValue.

Lemma pingPeer_wf : request_wf pingPeer.
Proof. unfold request_wf. cbn. pose proof HostServiceFacts.none_wf as [? ?]. by split_and!. Qed.



End BridgeEnd.
