(* ===== verification/HostLife.v ===== *)
(** The life of a host operation, lib/host_operation_lifecycle: a request is
    accepted once, answered by the device itself, by its event service or over
    the radio, and its response kept for a host that asks again.  The device's
    own operations act on [Local W], the event service on the ledger over [V];
    each reports to the runtime state it holds. *)

From S2P Require Import Prelude Wire Diagnostics Ledger Capabilities HostFrame HostRecords HostMessages HostService HostEvents WireOps Bridge.

Module HostOperationLifecycle.

Import Protocol(Packet, zeroPacket).
Import HostProtocolMessages(OperationRequest, rq_category, rq_targetDeviceId, OperationResponse,
  mkResponse, resultClass, rs_value).
Import HostOperationService(DeviceSnapshot, ds_role, ds_deviceId, AvailabilityProvider,
  Result, disposition, rejectionCode, response, HANDLED, REJECTED).
Import CapabilityRoleIntegration(Local).
Import RadioOperationBridge.

(* host_operation_lifecycle.h:11 State *)
Inductive State := EMPTY | ACTIVE | COMPLETED.

#[global] Instance State_eq_dec : EqDecision State.
Proof. solve_decision. Defined.

(* host_operation_lifecycle.h:13-21 Action *)
Inductive Action :=
  NONE | INVALID_REQUEST | ACTIVE_DUPLICATE | LIFE_TRANSMIT_COMMAND | RESPONSE_READY_TO_HOST
| HOST_RESPONSE_SUPPRESSED | RESPONSE_RETAINED.

#[global] Instance Action_eq_dec : EqDecision Action.
Proof. solve_decision. Defined.

(* host_operation_lifecycle.h:23-29 = Result *)
Record LifeResult := mkLifeResult {
  lf_action : Action;
  lf_requestId : Z;
  lf_responseMinor : Z;
  lf_packet : Packet;
  lf_response : OperationResponse
}.

(** [Result result = {};] *)
Definition zeroLifeResult : LifeResult := mkLifeResult NONE 0 0 zeroPacket zeroHostResponse.

(* host_operation_lifecycle.h:31-37 RetainedEntry *)
Record RetainedEntry := mkEntry {
  requestId : Z;
  requestMinor : Z;
  requestPayloadLength : Z;
  requestPayload : list Z;
  en_response : OperationResponse
}.

(** [entry_ = {};] *)
Definition zeroEntry : RetainedEntry :=
  mkEntry 0 0 0 (zeros HostProtocol.MAX_PAYLOAD_SIZE) zeroHostResponse.

(* host_operation_lifecycle.h:240-243 = Lifecycle fields *)
Record Lifecycle := mkLifecycle {
  state_ : State;
  hostConnected_ : bool;
  entry_ : RetainedEntry;
  remoteBridge_ : HubStructuredOperationBridge
}.

#[export] Instance eta_Lifecycle : RecEta Lifecycle := λ l,
  mkLifecycle (state_ l) (hostConnected_ l) (entry_ l) (remoteBridge_ l).

(** Also what [Lifecycle::reset] leaves. *)
(* host_operation_lifecycle.h:240-243 = Lifecycle, initial values *)
Definition newLifecycle : Lifecycle := mkLifecycle EMPTY true zeroEntry newBridge.

(* host_operation_lifecycle.h:181-187 Lifecycle::samePayload *)
Definition samePayload (payload : list Z) (payloadLength : Z) (l : Lifecycle) : bool :=
  if negb (payloadLength =? requestPayloadLength (entry_ l)) then false else
  bytes_eqb (Z.to_nat payloadLength) payload (requestPayload (entry_ l)) 0.

(* host_operation_lifecycle.h:44-48 Lifecycle::isExactRetainedRequest *)
Definition isExactRetainedRequest (id : Z) (payload : option (list Z)) (payloadLength : Z)
    (l : Lifecycle) : bool :=
  bool_decide (state_ l = COMPLETED) && (id =? requestId (entry_ l))
  && match payload with None => false | Some bytes => samePayload bytes payloadLength l end.

(* host_operation_lifecycle.h:189-200 Lifecycle::acceptIdentity *)
Definition acceptIdentity (id minor : Z) (payload : list Z) (payloadLength : Z) (l : Lifecycle)
    : Lifecycle :=
  l <| entry_ :=
         mkEntry id minor (u8 payloadLength)
           (copy_bytes (Z.to_nat payloadLength) (zeros HostProtocol.MAX_PAYLOAD_SIZE) 0 payload 0)
           zeroHostResponse |>
    <| state_ := ACTIVE |>.

(* host_operation_lifecycle.h:202-205 Lifecycle::complete *)
Definition complete (r : OperationResponse) (l : Lifecycle) : Lifecycle :=
  let e := entry_ l in
  l <| entry_ := mkEntry (requestId e) (requestMinor e) (requestPayloadLength e) (requestPayload e) r |>
    <| state_ := COMPLETED |>.

(* host_operation_lifecycle.h:207-220 Lifecycle::rejection *)
Definition rejection (id : Z) (request : OperationRequest) (minor code : Z) (l : Lifecycle)
    : LifeResult :=
  let base := makeHostResponseBase request in
  mkLifeResult (if hostConnected_ l then RESPONSE_READY_TO_HOST else HOST_RESPONSE_SUPPRESSED)
    id minor zeroPacket
    (answered base HostProtocol.ResultClass.REQUEST_REJECTED code (rs_value base)).

(** What the caller of [submit] tells of the device, the radio and the time. *)
(* host_operation_lifecycle.h:53-72 = Lifecycle::submit, the arguments of the caller *)
Record Surroundings := mkSurroundings {
  su_snapshot : DeviceSnapshot;
  su_peerId : Z;
  su_registryValid : bool;
  su_registry : DeviceCapabilities.CapabilityRegistryView;
  su_interlock : Z;
  su_availability : AvailabilityProvider;
  su_now : Z;
  su_overallTimeout : Z;
  su_maxRetries : Z;
  su_explicitlyConfigured : bool;
  su_eventService : bool
}.

(* host_operation_lifecycle.h:222-238 Lifecycle::consumeRemote *)
Definition consumeRemote (remote : HubResult) : st Lifecycle LifeResult := λ l,
  if negb (bool_decide (state_ l = ACTIVE)) then (zeroLifeResult, l) else
  let e := entry_ l in
  match hb_action remote with
  | TRANSMIT_COMMAND =>
      (mkLifeResult LIFE_TRANSMIT_COMMAND (requestId e) (requestMinor e) (hb_packet remote)
         zeroHostResponse, l)
  | HOST_RESPONSE_READY =>
      let l := complete (hb_response remote) l in
      (mkLifeResult (if hostConnected_ l then RESPONSE_READY_TO_HOST else RESPONSE_RETAINED)
         (requestId e) (requestMinor e) zeroPacket (en_response (entry_ l)), l)
  | _ => (mkLifeResult NONE (requestId e) (requestMinor e) zeroPacket zeroHostResponse, l)
  end.

(* host_operation_lifecycle.h:162-164 Lifecycle::receive *)
Definition receive (packet : Packet) : st Lifecycle LifeResult := λ l,
  let (remote, bridge) := RadioOperationBridge.receive packet (remoteBridge_ l) in
  consumeRemote remote (l <| remoteBridge_ := bridge |>).

(* host_operation_lifecycle.h:166-168 Lifecycle::service *)
Definition service (now : Z) : st Lifecycle LifeResult := λ l,
  let (remote, bridge) := RadioOperationBridge.service now (remoteBridge_ l) in
  consumeRemote remote (l <| remoteBridge_ := bridge |>).

(* host_operation_lifecycle.h:170 Lifecycle::onHostDisconnect *)
Definition onHostDisconnect (l : Lifecycle) : Lifecycle := l <| hostConnected_ := false |>.

(* host_operation_lifecycle.h:171 Lifecycle::onHostReconnect *)
Definition onHostReconnect (l : Lifecycle) : Lifecycle := l <| hostConnected_ := true |>.

Section Submit.

Context {W V : Type} `{DeviceCapabilities.LocalCapabilityHandler W} `{HubEventLedger.Storage V}.

(** The device and its ledger. *)
Definition Device : Type := Local W * (HubEventLedger.Ledger * V).

(** The operations of the device itself and of its event service. *)
(* host_operation_lifecycle.h:108-121 = Lifecycle::submit, the local result *)
Definition localOperation (id : Z) (request : OperationRequest) (minor : Z) (su : Surroundings)
    : st Device Result :=
  let snapshot := su_snapshot su in
  if rq_category request =? HostProtocol.OperationCategory.EVENT then
    if su_eventService su
    then outside (HostEventService.handle id request (ds_role snapshot) (ds_deviceId snapshot))
    else ret (HostOperationService.reject id request
      (if rq_targetDeviceId request =? ds_deviceId snapshot
       then HostProtocol.RequestRejectionCode.UNSUPPORTED_OPERATION
       else HostProtocol.RequestRejectionCode.BAD_TARGET) true)
  else zoom fst (λ local s, (local, s.2))
    (HostOperationService.handleLocalOperation id request snapshot (su_registryValid su)
       (su_registry su) (su_interlock su) (su_availability su) minor).

(** The answer to a local result. *)
(* host_operation_lifecycle.h:122-140 = Lifecycle::submit, after the local result *)
Definition settleLocal (id : Z) (request : OperationRequest) (minor : Z) (payload : list Z)
    (payloadLength : Z) (local : Result) : st Lifecycle LifeResult := λ l,
  match disposition local with
  | HostOperationService.NOT_HANDLED =>
      (rejection id request minor HostProtocol.RequestRejectionCode.UNSUPPORTED_OPERATION l, l)
  | REJECTED => (rejection id request minor (rejectionCode local) l, l)
  | HANDLED =>
      if resultClass (response local) =? HostProtocol.ResultClass.REQUEST_REJECTED then
        (mkLifeResult (if hostConnected_ l then RESPONSE_READY_TO_HOST else HOST_RESPONSE_SUPPRESSED)
           id minor zeroPacket (response local), l)
      else
        let l := complete (response local) (acceptIdentity id minor payload payloadLength l) in
        (mkLifeResult (if hostConnected_ l then RESPONSE_READY_TO_HOST else RESPONSE_RETAINED)
           id minor zeroPacket (en_response (entry_ l)), l)
  end.

(** A request for the peer. *)
(* host_operation_lifecycle.h:143-159 = Lifecycle::submit, the remote request *)
Definition submitRemote (id : Z) (request : OperationRequest) (minor : Z) (payload : list Z)
    (payloadLength : Z) (su : Surroundings) : st Lifecycle LifeResult := λ l,
  let (remote, bridge) :=
    RadioOperationBridge.submit id request (ds_role (su_snapshot su)) (ds_deviceId (su_snapshot su))
      (su_peerId su) (su_now su) (su_overallTimeout su) (su_maxRetries su)
      (su_explicitlyConfigured su) (remoteBridge_ l) in
  let l := l <| remoteBridge_ := bridge |> in
  match hb_action remote with
  | TRANSMIT_COMMAND =>
      (mkLifeResult LIFE_TRANSMIT_COMMAND id minor (hb_packet remote) zeroHostResponse,
       acceptIdentity id minor payload payloadLength l)
  | HOST_RESPONSE_READY =>
      (mkLifeResult (if hostConnected_ l then RESPONSE_READY_TO_HOST else HOST_RESPONSE_SUPPRESSED)
         id minor zeroPacket (hb_response remote), l)
  | _ => (mkLifeResult INVALID_REQUEST id minor zeroPacket zeroHostResponse, l)
  end.

(* host_operation_lifecycle.h:53-160 Lifecycle::submit *)
Definition submit (id : Z) (payload : option (list Z)) (payloadLength minor : Z)
    (su : Surroundings) : st (Lifecycle * Device) LifeResult :=
  let invalid := ret (mkLifeResult INVALID_REQUEST id minor zeroPacket zeroHostResponse) in
  match payload with
  | None => invalid
  | Some bytes =>
      if negb (HostProtocol.isValidRequestId id)
         || (Z.of_nat HostProtocol.MAX_PAYLOAD_SIZE <? payloadLength) then invalid else
      match HostProtocolMessages.decodeOperationRequestM minor payload payloadLength zeroRequest with
      | (HostProtocolRecords.OK, request) =>
          l <~ gets fst ;;
          if negb (bool_decide (state_ l = EMPTY)) && (id =? requestId (entry_ l)) then
            if negb (samePayload bytes payloadLength l)
            then ret (rejection id request minor HostProtocol.RequestRejectionCode.MISMATCH l) else
            if bool_decide (state_ l = ACTIVE)
            then ret (mkLifeResult ACTIVE_DUPLICATE id minor zeroPacket zeroHostResponse) else
            ret (mkLifeResult (if hostConnected_ l then RESPONSE_READY_TO_HOST
                               else RESPONSE_RETAINED)
                   id (requestMinor (entry_ l)) zeroPacket (en_response (entry_ l)))
          else
          if bool_decide (state_ l = ACTIVE)
          then ret (rejection id request minor HostProtocol.RequestRejectionCode.BUSY l) else
          if (rq_targetDeviceId request =? ds_deviceId (su_snapshot su))
             || (rq_category request =? HostProtocol.OperationCategory.EVENT)
          then
            local <~ outside (localOperation id request minor su) ;;
            zoom fst (λ l s, (l, s.2)) (settleLocal id request minor bytes payloadLength local)
          else zoom fst (λ l s, (l, s.2)) (submitRemote id request minor bytes payloadLength su)
      | _ => invalid
      end
  end.

End Submit.

End HostOperationLifecycle.
