(* ===== verification/HostRole.v ===== *)
(** The host's side of a role, lib/host_role_integration with
    lib/host_protocol_diagnostics: frames come in over the transport and become
    hello answers, operations or protocol errors, and responses go out; the
    counters record each frame once.  The members that a structured-trace build
    adds are left out. *)

From S2P Require Import Prelude Wire Diagnostics Ledger Capabilities HostFrame HostTransport HostRecords HostMessages HostService HostEvents WireOps Bridge HostLife.

Module HostProtocolDiagnostics.

Import HostProtocol.

(* host_protocol_diagnostics.h:10-20 Snapshot *)
Record Snapshot := mkSnapshot {
  framesReceived : Z;
  framesAccepted : Z;
  malformedFrames : Z;
  unsupportedVersions : Z;
  unsupportedMessageTypes : Z;
  requestsDispatched : Z;
  responsesEmitted : Z;
  busyOrRejectedRequests : Z;
  transportResets : Z
}.

#[export] Instance eta_Snapshot : RecEta Snapshot := λ s,
  mkSnapshot (framesReceived s) (framesAccepted s) (malformedFrames s) (unsupportedVersions s)
    (unsupportedMessageTypes s) (requestsDispatched s) (responsesEmitted s)
    (busyOrRejectedRequests s) (transportResets s).

(** Also what [Diagnostics::reset] leaves. *)
Definition zeroSnapshot : Snapshot := mkSnapshot 0 0 0 0 0 0 0 0 0.

(* host_protocol_diagnostics.h:22-27 MessageBoundaryResult *)
Inductive MessageBoundaryResult :=
  ACCEPTED | BOUNDARY_MALFORMED | BOUNDARY_UNSUPPORTED_VERSION | BOUNDARY_UNSUPPORTED_TYPE.

(* host_protocol_diagnostics.h:29-35 saturatingAdd *)
Definition saturatingAdd (value amount : Z) : Z :=
  if UINT32_MAX - value <? amount then UINT32_MAX else value + amount.

Definition countMalformed (s : Snapshot) : Snapshot :=
  s <| malformedFrames := saturatingAdd (malformedFrames s) 1 |>.

Definition countVersion (s : Snapshot) : Snapshot :=
  s <| unsupportedVersions := saturatingAdd (unsupportedVersions s) 1 |>.

Definition countType (s : Snapshot) : Snapshot :=
  s <| unsupportedMessageTypes := saturatingAdd (unsupportedMessageTypes s) 1 |>.

(* host_protocol_diagnostics.h:100-116 observeDecodeFailure *)
Definition observeDecodeFailure (result : DecodeResult) (s : Snapshot) : Snapshot :=
  match result with
  | UNSUPPORTED_VERSION | UNSUPPORTED_MAJOR | UNSUPPORTED_MINOR => countVersion s
  | UNSUPPORTED_MESSAGE_TYPE => countType s
  | DECODE_OK => s
  | _ => countMalformed s
  end.

(* host_protocol_diagnostics.h:45-77 observeFrame *)
Definition observeFrame (stream : StreamResult) (boundary : MessageBoundaryResult) (s : Snapshot)
    : Snapshot :=
  let received := s <| framesReceived := saturatingAdd (framesReceived s) 1 |> in
  match event stream with
  | OVERSIZED_CANDIDATE => countMalformed received
  | FRAME_REJECTED => observeDecodeFailure (decodeResult stream) received
  | FRAME_READY =>
      match boundary with
      | ACCEPTED => received <| framesAccepted := saturatingAdd (framesAccepted received) 1 |>
      | BOUNDARY_MALFORMED => countMalformed received
      | BOUNDARY_UNSUPPORTED_VERSION => countVersion received
      | BOUNDARY_UNSUPPORTED_TYPE => countType received
      end
  | _ => s
  end.

(* host_protocol_diagnostics.h:79-81 observeRequestDispatched *)
Definition observeRequestDispatched (s : Snapshot) : Snapshot :=
  s <| requestsDispatched := saturatingAdd (requestsDispatched s) 1 |>.

(* host_protocol_diagnostics.h:83-89 observeOperationResponse *)
Definition observeOperationResponse (r : HostProtocolMessages.OperationResponse) (s : Snapshot)
    : Snapshot :=
  if HostProtocolMessages.resultClass r =? ResultClass.REQUEST_REJECTED
  then s <| busyOrRejectedRequests := saturatingAdd (busyOrRejectedRequests s) 1 |> else s.

(* host_protocol_diagnostics.h:91-93 observeResponseHandoff *)
Definition observeResponseHandoff (s : Snapshot) : Snapshot :=
  s <| responsesEmitted := saturatingAdd (responsesEmitted s) 1 |>.

(* host_protocol_diagnostics.h:95-97 observeTransportReset *)
Definition observeTransportReset (s : Snapshot) : Snapshot :=
  s <| transportResets := saturatingAdd (transportResets s) 1 |>.

End HostProtocolDiagnostics.

Module HostRoleIntegration.

Import HostProtocol HostTransport HostProtocolDiagnostics HostOperationLifecycle.
Import HostProtocolMessages(OperationResponse, resultClass, ProtocolError, mkProtocolError).

(* host_role_integration.h:15 RX_SERVICE_BUDGET *)
Definition RX_SERVICE_BUDGET : nat := MAX_ENCODED_FRAME_SIZE.

(* host_role_integration.h:16 TX_SERVICE_BUDGET *)
Definition TX_SERVICE_BUDGET : nat := MAX_ENCODED_FRAME_SIZE.

(* host_role_integration.h:19 = Action *)
Inductive RoleAction := ROLE_NONE | ROLE_TRANSMIT_COMMAND | HOST_RESPONSE_HANDOFF.

(* host_role_integration.h:21-24 = Result *)
Record RoleResult := mkRoleResult { ro_action : RoleAction; ro_packet : Protocol.Packet }.

(** [Result result = {};] *)
Definition zeroRoleResult : RoleResult := mkRoleResult ROLE_NONE Protocol.zeroPacket.

(** [eventService_] is whether there is one: the service's state is the ledger. *)
(* host_role_integration.h:299-304 = Stack fields *)
Record Stack := mkStack {
  transport_ : Adapter;
  lifecycle_ : Lifecycle;
  diagnostics_ : Snapshot;
  connected_ : bool;
  pendingOriginalDelivery_ : bool;
  eventService_ : bool
}.

#[export] Instance eta_Stack : RecEta Stack := λ s,
  mkStack (transport_ s) (lifecycle_ s) (diagnostics_ s) (connected_ s)
    (pendingOriginalDelivery_ s) (eventService_ s).

(** The adapter's buffers hold anything before their first byte. *)
Definition newAdapter (storage pending : list Z) : Adapter :=
  mkAdapter (newParser storage) pending O O.

(* host_role_integration.h:28-31 = Stack constructor *)
Definition newStack (storage pending : list Z) (connected : bool) : Stack :=
  mkStack (newAdapter storage pending) (if connected then newLifecycle else onHostDisconnect newLifecycle)
    zeroSnapshot connected false false.

(* host_role_integration.h:38-40 Stack::setEventService *)
Definition setEventService (service : bool) (s : Stack) : Stack := s <| eventService_ := service |>.

Definition observe (f : Snapshot → Snapshot) (s : Stack) : Stack :=
  s <| diagnostics_ := f (diagnostics_ s) |>.

(* host_role_integration.h:42-53 Stack::observeConnection *)
Definition observeConnection (connected : bool) (s : Stack) : Stack :=
  if Bool.eqb connected (connected_ s) then s else
  let s := s <| connected_ := connected |> in
  if negb connected then
    observe observeTransportReset
      (s <| transport_ := HostTransport.reset (transport_ s) |>
         <| lifecycle_ := onHostDisconnect (lifecycle_ s) |>
         <| pendingOriginalDelivery_ := false |>)
  else s <| lifecycle_ := onHostReconnect (lifecycle_ s) |>.

(* host_role_integration.h:243-248 Stack::reset *)
Definition resetStack (s : Stack) : Stack :=
  s <| transport_ := HostTransport.reset (transport_ s) |>
    <| lifecycle_ := newLifecycle |> <| pendingOriginalDelivery_ := false |>
    <| connected_ := true |>.

(** ** Frames out *)

(* host_role_integration.h:251-269 Stack::submitFrame *)
Definition submitFrame (minor type requestId : Z) (payload : list Z) (payloadLength : Z)
    : st Stack bool := λ s,
  let frame :=
    mkFrame VERSION_MAJOR minor type 0 requestId (u16 payloadLength)
      (copy_bytes (Z.to_nat payloadLength) (zeros MAX_PAYLOAD_SIZE) 0 payload 0) in
  match encodeFrame frame (Some (zeros MAX_ENCODED_FRAME_SIZE)) MAX_ENCODED_FRAME_SIZE with
  | (ENCODE_OK, encoded, encodedLength) =>
      let (status, transport) := HostTransport.submit encoded encodedLength (transport_ s) in
      if negb (bool_decide (status = SUBMIT_OK)) then (false, s <| transport_ := transport |>)
      else (true, observe observeResponseHandoff (s <| transport_ := transport |>))
  | _ => (false, s)
  end.

(** The frame of a payload, if an encoder made it. *)
(* host_role_integration.h:274-278 = Stack::submitOperationResponse, the encoding *)
Definition submitEncoded (minor type requestId : Z)
    (encoded : HostProtocolRecords.PayloadResult * option (list Z) * Z) : st Stack bool :=
  match encoded with
  | (HostProtocolRecords.OK, Some payload, length) => submitFrame minor type requestId payload length
  | _ => ret false
  end.

(** [uint8_t payload[MAX_PAYLOAD_SIZE] = {};] *)
Definition room : list Z := zeros MAX_PAYLOAD_SIZE.

(* host_role_integration.h:271-279 Stack::submitOperationResponse *)
Definition submitOperationResponse (minor requestId : Z) (r : OperationResponse) : st Stack bool :=
  submitEncoded minor MessageType.OPERATION_RESPONSE requestId
    (HostProtocolMessages.encodeOperationResponseM minor r (Some room) (Z.of_nat MAX_PAYLOAD_SIZE)).

Definition submitProtocolError (minor requestId : Z) (error : ProtocolError) : st Stack bool :=
  submitEncoded minor MessageType.PROTOCOL_ERROR requestId
    (HostProtocolMessages.encodeProtocolError error (Some room) (Z.of_nat MAX_PAYLOAD_SIZE)).

Definition handoff (submitted : bool) : RoleResult :=
  mkRoleResult (if submitted then HOST_RESPONSE_HANDOFF else ROLE_NONE) Protocol.zeroPacket.

(* host_role_integration.h:59-68 Stack::servicePendingDelivery *)
Definition servicePendingDelivery : st Stack bool := λ s,
  if negb (connected_ s) || negb (pendingOriginalDelivery_ s) || hasPendingTx (transport_ s)
     || negb (bool_decide (state_ (lifecycle_ s) = COMPLETED))
  then (false, s) else
  let entry := entry_ (lifecycle_ s) in
  let (submitted, s) :=
    submitOperationResponse (requestMinor entry) (requestId entry) (en_response entry) s in
  if negb submitted then (false, s) else (true, s <| pendingOriginalDelivery_ := false |>).

(* host_role_integration.h:281-297 Stack::consumeRemote *)
Definition consumeRemoteLife (life : LifeResult) : st Stack RoleResult := λ s,
  match lf_action life with
  | LIFE_TRANSMIT_COMMAND => (mkRoleResult ROLE_TRANSMIT_COMMAND (lf_packet life), s)
  | RESPONSE_READY_TO_HOST =>
      let s := observe (observeOperationResponse (lf_response life)) s in
      let (submitted, s) :=
        if negb (hasPendingTx (transport_ s))
        then submitOperationResponse (lf_responseMinor life) (lf_requestId life) (lf_response life) s
        else (false, s) in
      if submitted then (mkRoleResult HOST_RESPONSE_HANDOFF Protocol.zeroPacket, s)
      else (zeroRoleResult,
            if connected_ s then s <| pendingOriginalDelivery_ := true |> else s)
  | _ => (zeroRoleResult, s)
  end.

(* host_role_integration.h:235-237 Stack::onRadioPacket *)
Definition onRadioPacket (packet : Protocol.Packet) : st Stack RoleResult := λ s,
  let (life, l) := HostOperationLifecycle.receive packet (lifecycle_ s) in
  consumeRemoteLife life (s <| lifecycle_ := l |>).

(* host_role_integration.h:239-241 Stack::serviceRemote *)
Definition serviceRemote (now : Z) : st Stack RoleResult := λ s,
  let (life, l) := HostOperationLifecycle.service now (lifecycle_ s) in
  consumeRemoteLife life (s <| lifecycle_ := l |>).

(** ** Frames in *)

(** The protocol error a rejected frame is answered with, if its envelope could
    be trusted. *)
(* host_role_integration.h:99-118 = Stack::serviceRx, the switch *)
Definition rejectedFrameError (failure : DecodeResult) : option Z :=
  match failure with
  | UNSUPPORTED_MAJOR => Some ProtocolErrorCode.UNSUPPORTED_MAJOR
  | UNSUPPORTED_MINOR => Some ProtocolErrorCode.UNSUPPORTED_MINOR
  | UNSUPPORTED_MESSAGE_TYPE => Some ProtocolErrorCode.UNSUPPORTED_MESSAGE_TYPE
  | UNSUPPORTED_FLAGS => Some ProtocolErrorCode.UNSUPPORTED_FLAGS
  | INVALID_REQUEST_ID => Some ProtocolErrorCode.INVALID_REQUEST_ID
  | _ => None
  end.

(* host_role_integration.h:94-135 = Stack::serviceRx, a frame that is not ready *)
Definition answerRejectedFrame (parsed : StreamResult) : st Stack RoleResult := λ s,
  let s := observe (observeFrame parsed ACCEPTED) s in
  match rejectedFrameError (decodeResult parsed) with
  | None => (zeroRoleResult, s)
  | Some code =>
      let frame := stream_frame parsed in
      let minor := if isSupportedVersion VERSION_MAJOR (minor frame) then minor frame
                   else VERSION_MINOR_0_1 in
      let (submitted, s) :=
        submitProtocolError minor (HostProtocol.requestId frame)
          (mkProtocolError code (messageType frame) 0) s in
      (handoff submitted, s)
  end.

Section Role.

Context {P W V : Type} `{ByteStream P} `{DeviceCapabilities.LocalCapabilityHandler W}
  `{HubEventLedger.Storage V}.

(** The stack, the serial port, and the device. *)
Abbreviation M := (st (Stack * (P * @Device W V))).

Definition stacked {X} (m : st Stack X) : M X := zoom fst (λ s x, (s, x.2)) m.

(* host_role_integration.h:137-180 = Stack::serviceRx, a hello request *)
Definition answerHello (parsed : StreamResult) (su : Surroundings) (radioBridge : bool)
    : st Stack RoleResult := λ s,
  let frame := stream_frame parsed in
  match HostProtocolMessages.decodeHelloRequestM (minor frame) (Some (payload frame))
          (payloadLength frame) (HostProtocolMessages.mkHelloRequest 0 0) with
  | (HostProtocolRecords.OK, request) =>
      let s := observe (observeFrame parsed ACCEPTED) s in
      let hello :=
        HostOperationService.handleHelloM (HostProtocol.requestId frame) (major frame) (minor frame)
          request (su_snapshot su) radioBridge (eventService_ s) in
      let (submitted, s) :=
        match HostOperationService.hello_disposition hello with
        | HostOperationService.RESPONSE =>
            submitEncoded (minor frame) MessageType.HELLO_RESPONSE (HostProtocol.requestId frame)
              (HostProtocolMessages.encodeHelloResponse (HostOperationService.hello_response hello)
                 (Some room) (Z.of_nat MAX_PAYLOAD_SIZE)) s
        | HostOperationService.PROTOCOL_ERROR =>
            submitProtocolError (minor frame) (HostProtocol.requestId frame)
              (HostOperationService.hello_error hello) s
        end in
      (handoff submitted, s)
  | _ =>
      let s := observe (observeFrame parsed BOUNDARY_MALFORMED) s in
      let (submitted, s) :=
        submitProtocolError (minor frame) (HostProtocol.requestId frame)
          (mkProtocolError ProtocolErrorCode.MALFORMED_PAYLOAD (messageType frame) 0) s in
      (handoff submitted, s)
  end.

(** What the lifecycle made of a request goes out. *)
(* host_role_integration.h:211-231 = Stack::serviceRx, after the lifecycle *)
Definition deliverLife (before : State) (retainedReplay : bool) (life : LifeResult)
    : st Stack RoleResult := λ s,
  match lf_action life with
  | LIFE_TRANSMIT_COMMAND =>
      (mkRoleResult ROLE_TRANSMIT_COMMAND (lf_packet life), observe observeRequestDispatched s)
  | RESPONSE_READY_TO_HOST =>
      let s := if negb retainedReplay
                  && (bool_decide (before = EMPTY) || bool_decide (before = COMPLETED))
                  && negb (resultClass (lf_response life) =? ResultClass.REQUEST_REJECTED)
               then observe observeRequestDispatched s else s in
      let s := observe (observeOperationResponse (lf_response life)) s in
      let (submitted, s) :=
        submitOperationResponse (lf_responseMinor life) (lf_requestId life) (lf_response life) s in
      (handoff submitted, s)
  | _ => (zeroRoleResult, s)
  end.

(* host_role_integration.h:186-232 = Stack::serviceRx, an operation request *)
Definition answerOperation (parsed : StreamResult) (su : Surroundings) : M RoleResult :=
  let frame := stream_frame parsed in
  match HostProtocolMessages.decodeOperationRequestM (minor frame) (Some (payload frame))
          (payloadLength frame) RadioOperationBridge.zeroRequest with
  | (HostProtocolRecords.OK, _) =>
      stacked (modify (observe (observeFrame parsed ACCEPTED))) ;;;
      s <~ gets fst ;;
      let before := state_ (lifecycle_ s) in
      let retainedReplay :=
        isExactRetainedRequest (HostProtocol.requestId frame) (Some (payload frame))
          (payloadLength frame) (lifecycle_ s) in
      life <~ zoom (λ x : Stack * (P * @Device W V), (lifecycle_ x.1, x.2.2))
        (λ l x, (x.1 <| lifecycle_ := l.1 |>, (x.2.1, l.2)))
        (HostOperationLifecycle.submit (HostProtocol.requestId frame) (Some (payload frame))
           (payloadLength frame) (minor frame) su) ;;
      stacked (deliverLife before retainedReplay life)
  | _ =>
      stacked (modify (observe (observeFrame parsed BOUNDARY_MALFORMED))) ;;;
      ret zeroRoleResult
  end.

(** A frame that is ready. *)
(* host_role_integration.h:136-233 = Stack::serviceRx, a frame that is ready *)
Definition answerFrame (parsed : StreamResult) (su : Surroundings) (radioBridge : bool)
    : M RoleResult :=
  let type := messageType (stream_frame parsed) in
  if type =? MessageType.HELLO_REQUEST then stacked (answerHello parsed su radioBridge) else
  if negb (type =? MessageType.OPERATION_REQUEST) then
    stacked (modify (observe (observeFrame parsed BOUNDARY_UNSUPPORTED_TYPE))) ;;;
    ret zeroRoleResult
  else answerOperation parsed su.

(* host_role_integration.h:55-57 Stack::serviceTx *)
Definition serviceTx (budget : nat) : M TxResult :=
  zoom (λ x : Stack * (P * @Device W V), (transport_ x.1, x.2.1))
    (λ t x, (x.1 <| transport_ := t.1 |>, (t.2, x.2.2))) (HostTransport.serviceTx budget).

(** The stack's own lifecycle is asked with 2 retries, not explicitly configured. *)
(* host_role_integration.h:70-233 Stack::serviceRx *)
Definition serviceRx (su : Surroundings) (radioBridge : bool) (budget : nat) : M RoleResult :=
  s <~ gets fst ;;
  if negb (connected_ s) || hasPendingTx (transport_ s) then ret zeroRoleResult else
  rx <~ zoom (λ x : Stack * (P * @Device W V), (transport_ x.1, x.2.1))
    (λ t x, (x.1 <| transport_ := t.1 |>, (t.2, x.2.2))) (HostTransport.serviceRx budget) ;;
  match rx_status rx with
  | PARSER_EVENT =>
      let parsed := parserResult rx in
      if negb (bool_decide (event parsed = FRAME_READY)) then stacked (answerRejectedFrame parsed) else
      let su := mkSurroundings (su_snapshot su) (su_peerId su) (su_registryValid su) (su_registry su)
                  (su_interlock su) (su_availability su) (su_now su) (su_overallTimeout su) 2 false
                  (eventService_ s) in
      answerFrame parsed su radioBridge
  | _ => ret zeroRoleResult
  end.

End Role.

End HostRoleIntegration.
