(* ===== verification/LifeFacts.v ===== *)
(** The lifecycle answers every valid request, one at a time, and repeats the
    answer of the last one without asking the device again. *)

From stdpp Require Import relations.
From S2P Require Import Prelude Wire Capabilities CapabilityFacts Diagnostics Ledger LedgerLife HostFrame HostRecords HostMessages HostMessageFacts HostRecordFacts HostService HostServiceFacts HostEvents WireOps Bridge WireFacts BridgeFacts BridgeLife BridgeEnd HostLife.

Module LifeFacts.

Import Protocol(Packet, zeroPacket).
Import HostMessageFacts.
Import HostProtocolMessages(OperationRequest, rq_category, rq_operation, rq_targetDeviceId,
  rq_targetId, rq_value, decodeOperationRequestM, validateOperationRequest, resultClass).
Import RadioOperationBridge HostOperationLifecycle.
Import HostOperationService(ds_deviceId, ds_role).

(** ** The bridge between calls *)

(** The bridge is active exactly while its transaction waits. *)
Definition bridge_inv (b : HubStructuredOperationBridge) : Prop :=
  active_ b = true ↔ WireOperations.phase_ (transaction_ b) ≠ WireOperations.IDLE.

(** What a call may do to the activity of the bridge. *)
Definition bridge_call (b : HubStructuredOperationBridge) (action : HubAction)
    (b' : HubStructuredOperationBridge) : Prop :=
  bridge_inv b'
  ∧ if decide (action = HOST_RESPONSE_READY) then active_ b = true ∧ active_ b' = false
    else active_ b' = active_ b ∧ requestId_ b' = requestId_ b.

Lemma receive_call packet b :
  bridge_inv b →
  bridge_call b (hb_action (RadioOperationBridge.receive packet b).1)
    (RadioOperationBridge.receive packet b).2.
Proof.
  intros Hb. unfold RadioOperationBridge.receive, activeBase.
  destruct (active_ b) eqn:Ha; cbn [negb]; [|by split; cbn [fst snd]].
  assert (Hp : WireOperations.phase_ (transaction_ b) ≠ WireOperations.IDLE) by by apply Hb.
  unfold WireOperations.receive. rewrite bool_decide_eq_false_2 by done.
  repeat first [progress cbn [fst snd hb_action]|case_match]; simplify_eq;
    split; unfold bridge_inv; cbn; rewrite ?Ha; try done; try (by split).
Qed.

Lemma service_call now b :
  bridge_inv b →
  bridge_call b (hb_action (RadioOperationBridge.service now b).1)
    (RadioOperationBridge.service now b).2.
Proof.
  intros Hb. unfold RadioOperationBridge.service, activeBase.
  destruct (active_ b) eqn:Ha; cbn [negb]; [|by split; cbn [fst snd]].
  assert (Hp : WireOperations.phase_ (transaction_ b) ≠ WireOperations.IDLE) by by apply Hb.
  unfold WireOperations.service. rewrite bool_decide_eq_false_2 by done.
  repeat first [progress cbn [fst snd hb_action]|case_match]; simplify_eq;
    split; unfold bridge_inv; cbn; rewrite ?Ha; try done; try (by split).
Qed.

(** A submission makes an inactive bridge active, or leaves its activity. *)
Lemma submit_call id request role localId peerId now timeout retries configured b :
  bridge_inv b →
  let out := RadioOperationBridge.submit id request role localId peerId now timeout retries
               configured b in
  bridge_inv out.2
  ∧ if decide (hb_action out.1 = TRANSMIT_COMMAND)
    then active_ b = false ∧ active_ out.2 = true ∧ requestId_ out.2 = id
    else active_ out.2 = active_ b ∧ requestId_ out.2 = requestId_ b.
Proof.
  intros Hb out. subst out. unfold RadioOperationBridge.submit.
  destruct (negb _); [done|]. destruct (_ =? localId); [done|]. destruct (_ || _); [done|].
  destruct (active_ b) eqn:Ha; [by cbn; rewrite Ha|]. destruct (negb _); [by cbn; rewrite Ha|].
  destruct (_ =? 0); [by cbn; rewrite Ha|]. unfold WireOperations.begin.
  destruct (_ || _); [by cbn; rewrite Ha|].
  destruct (WireOperations.decodeRequest _ _ _ _) as [[] r]; cbn; by rewrite ?Ha.
Qed.

(** A valid request for another device is sent or refused with a response. *)
Lemma submit_decides id request role localId peerId now timeout retries configured b minor :
  request_wf request → HostProtocolMessages.validateOperationRequestM minor request = HostProtocolRecords.OK →
  bridge_inv b → active_ b = false → rq_targetDeviceId request ≠ localId →
  let out := RadioOperationBridge.submit id request role localId peerId now timeout retries
               configured b in
  hb_action out.1 = TRANSMIT_COMMAND ∨ hb_action out.1 = HOST_RESPONSE_READY.
Proof.
  intros Hr _ Hb Ha Hd out. subst out. unfold RadioOperationBridge.submit.
  destruct (bool_decide_reflect (validateOperationRequest request = HostProtocolRecords.OK)) as [Hv|];
    cbn [negb]; [|by right].
  rewrite (proj2 (Z.eqb_neq _ _) Hd). destruct (_ || _); [by right|]. rewrite Ha.
  destruct (negb _); [by right|].
  destruct (BridgeEnd.wireRequestOf_valid _ Hr Hv) as (Hw & Hs & _).
  change (WireOperations.mkWireRequest (rq_targetId request) (copyHostToWireValue (rq_value request)))
    with (BridgeEnd.wireRequestOf request).
  rewrite (BridgeLife.makeCommand_spec _ _ _ _ _ Hw Hs).
  set (command := BridgeLife.carrying _ _ _ _ _ _).
  assert (Protocol.payloadLength command =? 0 = false) as ->.
  { apply Z.eqb_neq. cbn [command BridgeLife.carrying Protocol.payloadLength].
    rewrite (WireFacts.length_wireRequest _ Hw). lia. }
  unfold WireOperations.begin.
  assert (Hidle : WireOperations.phase_ (transaction_ b) = WireOperations.IDLE).
  { destruct (decide (WireOperations.phase_ (transaction_ b) = WireOperations.IDLE)) as [|Hn]; [done|].
    apply Hb in Hn. congruence. }
  rewrite Hidle, bool_decide_eq_true_2 by done.
  change (Protocol.type command) with Protocol.PacketType.COMMAND.
  change (Protocol.opcode command) with (rq_operation request).
  assert (WireOperations.isStructuredOpcode (rq_operation request) = true) as ->
    by (revert Hs; unfold WireOperations.isValidRequestSchema;
        by destruct (WireOperations.isStructuredOpcode _)).
  rewrite Z.eqb_refl. cbn [negb orb].
  pose proof (BridgeLife.carrying_request Protocol.PacketType.COMMAND localId peerId (nextSequence_ b)
    (rq_operation request) _ WireOperations.zeroWireRequest Hw Hs) as Hdec. cbv zeta in Hdec.
  fold command in Hdec. rewrite Hdec. by left.
Qed.

(** ** The lifecycle between calls *)

(** A request is active exactly while the bridge works for it. *)
Record life_inv (l : Lifecycle) : Prop := {
  life_bridge : bridge_inv (remoteBridge_ l);
  life_active : active_ (remoteBridge_ l) = true ↔ state_ l = ACTIVE;
  life_request : state_ l = ACTIVE → requestId_ (remoteBridge_ l) = requestId (entry_ l)
}.

Lemma consumeRemote_inv remote b l :
  life_inv l →
  bridge_call (remoteBridge_ l) (hb_action remote) b →
  life_inv (consumeRemote remote (l <| remoteBridge_ := b |>)).2.
Proof.
  intros [Hb Ha Hr] [Hb' Hcase]. unfold consumeRemote. cbn [state_].
  destruct (bool_decide_reflect (state_ l = ACTIVE)) as [Es|Es].
  - unfold rec_set; cbn. rewrite bool_decide_eq_true_2 by done. cbn [negb].
    specialize (Hr Es).
    destruct (hb_action remote) eqn:E; cbn in Hcase; destruct Hcase as [H1 H2];
      (split; cbn; [done|rewrite ?H1, ?H2|rewrite ?H1, ?H2]; try done; try congruence; try (by split)).
    all: by rewrite ?Es.
  - assert (Hn : active_ (remoteBridge_ l) ≠ true) by (intros H; by apply Es, Ha).
    unfold rec_set; cbn. rewrite bool_decide_eq_false_2 by done. cbn [negb snd].
    destruct (decide _); destruct Hcase as [H1 H2]; [done|].
    split; cbn; [done|by rewrite H1|done].
Qed.

(** The lifecycle holds the answer of a request that it is not working on. *)
Lemma settled_inv id minor payload n r l :
  life_inv l → state_ l ≠ ACTIVE →
  life_inv (complete r (acceptIdentity id minor payload n l)).
Proof.
  intros [Hb Ha Hr] Hs. split; cbn; [done| |done]. split; [|done]. by intros ?%Ha.
Qed.

Lemma settleLocal_inv id request minor payload n local l :
  life_inv l → state_ l ≠ ACTIVE → life_inv (settleLocal id request minor payload n local l).2.
Proof.
  intros Hl Hs. unfold settleLocal. by repeat case_match; cbn [snd]; try apply settled_inv.
Qed.

Lemma submitRemote_inv id request minor payload n su l :
  life_inv l → state_ l ≠ ACTIVE → life_inv (submitRemote id request minor payload n su l).2.
Proof.
  intros [Hb Ha Hr] Hs. unfold submitRemote.
  pose proof (submit_call id request (ds_role (su_snapshot su)) (ds_deviceId (su_snapshot su))
    (su_peerId su) (su_now su) (su_overallTimeout su) (su_maxRetries su) (su_explicitlyConfigured su)
    (remoteBridge_ l) Hb) as [Hb' Hcase].
  destruct (RadioOperationBridge.submit _ _ _ _ _ _ _ _ _ _) as [remote b]. cbn [fst snd] in *.
  destruct (hb_action remote) eqn:E; cbn [decide] in Hcase; cbn in Hcase; destruct_and! Hcase;
    split; cbn; try done; try (intros; congruence).
Qed.

Section Life.

Context {W V : Type} `{DeviceCapabilities.LocalCapabilityHandler W} `{HubEventLedger.Storage V}.

Abbreviation life := (Lifecycle * @Device W V)%type.

(** One call to the lifecycle; between calls the device lives its own life. *)
Inductive life_step : life → life → Prop :=
| step_submit id payload n minor su s : life_step s (submit id payload n minor su s).2
| step_receive packet l d : life_step (l, d) ((receive packet l).2, d)
| step_service now l d : life_step (l, d) ((service now l).2, d)
| step_disconnect l d : life_step (l, d) (onHostDisconnect l, d)
| step_reconnect l d : life_step (l, d) (onHostReconnect l, d)
| step_device l d d' : life_step (l, d) (l, d').

(** What becomes of a request whose payload is understood. *)
Lemma submit_decoded id bytes n minor su request (l : Lifecycle) (d : @Device W V) :
  HostProtocol.isValidRequestId id = true → (Z.of_nat HostProtocol.MAX_PAYLOAD_SIZE <? n) = false →
  decodeOperationRequestM minor (Some bytes) n zeroRequest = (HostProtocolRecords.OK, request) →
  submit id (Some bytes) n minor su (l, d)
  = if negb (bool_decide (state_ l = EMPTY)) && (id =? requestId (entry_ l)) then
      (if negb (samePayload bytes n l)
       then rejection id request minor HostProtocol.RequestRejectionCode.MISMATCH l
       else if bool_decide (state_ l = ACTIVE)
       then mkLifeResult ACTIVE_DUPLICATE id minor zeroPacket zeroHostResponse
       else mkLifeResult (if hostConnected_ l then RESPONSE_READY_TO_HOST else RESPONSE_RETAINED)
              id (requestMinor (entry_ l)) zeroPacket (en_response (entry_ l)), (l, d))
    else if bool_decide (state_ l = ACTIVE)
    then (rejection id request minor HostProtocol.RequestRejectionCode.BUSY l, (l, d))
    else if (rq_targetDeviceId request =? ds_deviceId (su_snapshot su))
            || (rq_category request =? HostProtocol.OperationCategory.EVENT)
    then let local := localOperation id request minor su d in
         let out := settleLocal id request minor bytes n local.1 l in (out.1, (out.2, local.2))
    else let out := submitRemote id request minor bytes n su l in (out.1, (out.2, d)).
Proof.
  intros Hid Hn Hdec. unfold submit. rewrite Hid, Hn. cbn [negb orb]. rewrite Hdec.
  unfold bind at 1, gets. cbn [fst snd]. destruct (_ && _).
  - destruct (negb _); [done|]. by destruct (bool_decide _).
  - destruct (bool_decide _); [done|]. by destruct (_ || _).
Qed.

Lemma submit_invalid id payload n minor su (s : life) :
  (∀ request, payload = None ∨ HostProtocol.isValidRequestId id = false
    ∨ (Z.of_nat HostProtocol.MAX_PAYLOAD_SIZE <? n) = true
    ∨ decodeOperationRequestM minor payload n zeroRequest ≠ (HostProtocolRecords.OK, request)) →
  (submit id payload n minor su s).2 = s.
Proof.
  intros Hno. unfold submit. destruct payload as [bytes|]; [|done].
  destruct (HostProtocol.isValidRequestId id); [|done]. cbn [negb orb].
  destruct (_ <? n); [done|].
  destruct (decodeOperationRequestM _ _ _ _) as [result request] eqn:E.
  destruct result; try done. by destruct (Hno request) as [|[|[|]]].
Qed.

Lemma submit_inv id payload n minor su (l : Lifecycle) (d : @Device W V) :
  life_inv l → life_inv (submit id payload n minor su (l, d)).2.1.
Proof.
  intros Hl. destruct payload as [bytes|]; [|by rewrite submit_invalid by (by left)].
  destruct (HostProtocol.isValidRequestId id) eqn:Hid;
    [|by rewrite submit_invalid by (intros; right; by left)].
  destruct (Z.of_nat HostProtocol.MAX_PAYLOAD_SIZE <? n) eqn:Hn;
    [by rewrite submit_invalid by (intros; right; right; by left)|].
  destruct (decodeOperationRequestM minor (Some bytes) n zeroRequest) as [[] request] eqn:E;
    try (by rewrite submit_invalid by (intros; right; right; right; rewrite E; by intros [=])).
  rewrite (submit_decoded _ _ _ _ _ request) by done. destruct (_ && _); [done|].
  destruct (bool_decide_reflect (state_ l = ACTIVE)); [done|].
  destruct (_ || _); cbn [fst snd]; [by apply settleLocal_inv|by apply submitRemote_inv].
Qed.

(** Every call keeps the invariant. *)
Lemma life_step_inv (s s' : life) : life_step s s' → life_inv s.1 → life_inv s'.1.
Proof.
  destruct 1 as [id payload n minor su [l d]|packet l d|now l d|l d|l d|l d d']; cbn [fst]; intros Hl.
  - by apply submit_inv.
  - unfold receive. destruct (RadioOperationBridge.receive packet (remoteBridge_ l)) as [remote b] eqn:E.
    apply consumeRemote_inv; [done|]. pose proof (receive_call packet _ (life_bridge _ Hl)) as Hc.
    by rewrite E in Hc.
  - unfold service. destruct (RadioOperationBridge.service now (remoteBridge_ l)) as [remote b] eqn:E.
    apply consumeRemote_inv; [done|]. pose proof (service_call now _ (life_bridge _ Hl)) as Hc.
    by rewrite E in Hc.
  - destruct Hl as [? ? ?]. by split.
  - destruct Hl as [? ? ?]. by split.
  - done.
Qed.

Lemma new_inv : life_inv newLifecycle.
Proof. split; [|done|done]. split; [done|]. by intros []. Qed.

Lemma reachable_inv (l : Lifecycle) (d0 d : @Device W V) :
  rtc life_step (newLifecycle, d0) (l, d) → life_inv l.
Proof.
  intros Hr. change l with (l, d).1. revert Hr.
  apply (rtc_ind_r (λ s, life_inv s.1)); [apply new_inv|].
  intros s s' _ Hs Hi. by eapply life_step_inv.
Qed.

(** What the host learns of a request: a response now, or once it is connected
    or the peer has answered. *)
Definition told (connected : bool) (action : Action) : Prop :=
  action = RESPONSE_READY_TO_HOST
  ∨ (connected = false ∧ (action = HOST_RESPONSE_SUPPRESSED ∨ action = RESPONSE_RETAINED)).

Lemma rejection_told id request minor code l :
  lf_requestId (rejection id request minor code l) = id
  ∧ told (hostConnected_ l) (lf_action (rejection id request minor code l)).
Proof. split; [done|]. unfold told, rejection. cbn. destruct (hostConnected_ l); auto. Qed.

Lemma settleLocal_told id request minor payload n local l :
  lf_requestId (settleLocal id request minor payload n local l).1 = id
  ∧ told (hostConnected_ l) (lf_action (settleLocal id request minor payload n local l).1).
Proof.
  unfold settleLocal, told.
  destruct (HostOperationService.disposition local); [apply rejection_told| |apply rejection_told].
  destruct (_ =? _); cbn; (split; [done|]); destruct (hostConnected_ l); auto.
Qed.

(** ** Repetition *)

(** A device's answer is retained with the request's own bytes. *)
Lemma samePayload_accepted id minor bytes r (l : Lifecycle) :
  (length bytes ≤ HostProtocol.MAX_PAYLOAD_SIZE)%nat →
  samePayload bytes (Z.of_nat (length bytes))
    (complete r (acceptIdentity id minor bytes (Z.of_nat (length bytes)) l)) = true.
Proof.
  intros Hn. unfold samePayload, complete, acceptIdentity, rec_set.
  cbn [entry_ state_ requestPayloadLength requestPayload]. unfold HostProtocol.MAX_PAYLOAD_SIZE in *.
  rewrite wrap_small by (uint_unfold; lia). rewrite Z.eqb_refl. cbn [negb]. rewrite Nat2Z.id.
  apply bytes_eqb_spec. intros k Hk. rewrite copy_bytes_spec by (rewrite ?length_zeros; lia).
  rewrite take_0, app_nil_l, drop_0, take_ge by lia. symmetry. apply rd_lookup.
  rewrite lookup_app_l by lia. apply lookup_rd. lia.
Qed.

(** What may happen after a request was answered: the host asks again, goes
    away, or comes back. *)
Inductive Occurrence := ASKS (minor : Z) (su : Surroundings) | LEAVES | RETURNS.

Fixpoint occur (id : Z) (bytes : list Z) (occurrences : list Occurrence)
    : st (Lifecycle * @Device W V) (list LifeResult) :=
  match occurrences with
  | [] => ret []
  | ASKS minor su :: rest =>
      r <~ submit id (Some bytes) (Z.of_nat (length bytes)) minor su ;;
      rs <~ occur id bytes rest ;;
      ret (r :: rs)
  | LEAVES :: rest => modify (λ s, (onHostDisconnect s.1, s.2)) ;;; occur id bytes rest
  | RETURNS :: rest => modify (λ s, (onHostReconnect s.1, s.2)) ;;; occur id bytes rest
  end.

(** The host asks in a version that understands the request. *)
Definition understood (bytes : list Z) (o : Occurrence) : Prop :=
  match o with
  | ASKS minor _ =>
      ∃ request, decodeOperationRequestM minor (Some bytes) (Z.of_nat (length bytes)) zeroRequest
                 = (HostProtocolRecords.OK, request)
  | _ => True
  end.

Lemma occur_retained id bytes occurrences : ∀ (l : Lifecycle) (d : @Device W V),
  HostProtocol.isValidRequestId id = true → (length bytes ≤ HostProtocol.MAX_PAYLOAD_SIZE)%nat →
  state_ l = COMPLETED → requestId (entry_ l) = id →
  samePayload bytes (Z.of_nat (length bytes)) l = true → Forall (understood bytes) occurrences →
  let out := occur id bytes occurrences (l, d) in
  out.2.2 = d ∧ entry_ out.2.1 = entry_ l ∧ state_ out.2.1 = COMPLETED
  ∧ Forall (λ r, lf_requestId r = id ∧ lf_response r = en_response (entry_ l)
                 ∧ (lf_action r = RESPONSE_READY_TO_HOST ∨ lf_action r = RESPONSE_RETAINED)) out.1.
Proof.
  induction occurrences as [|o rest IH]; intros l d Hid Hn Hs Hreq Hsame Hall; [by split_and!|].
  apply Forall_cons in Hall as [Ho Hall]. cbn [occur].
  destruct o as [minor su| |]; cbn [understood] in Ho.
  - destruct Ho as [request Hdec].
    assert (E : submit id (Some bytes) (Z.of_nat (length bytes)) minor su (l, d)
      = (mkLifeResult (if hostConnected_ l then RESPONSE_READY_TO_HOST else RESPONSE_RETAINED)
           id (requestMinor (entry_ l)) zeroPacket (en_response (entry_ l)), (l, d))).
    { rewrite (submit_decoded _ _ _ _ _ request) by (try done; apply Z.ltb_ge; lia).
      rewrite Hs, Hreq, Z.eqb_refl, Hsame. rewrite !bool_decide_eq_false_2 by done. done. }
    rewrite (bind_run _ _ _ _ _ E).
    destruct (IH l d Hid Hn Hs Hreq Hsame Hall) as (H1 & H2 & H3 & H4).
    unfold bind, ret. cbn [fst snd]. split_and!; try done.
    constructor; [|done]. split_and!; try done. destruct (hostConnected_ l); cbn; auto.
  - exact (IH (onHostDisconnect l) d Hid Hn Hs Hreq Hsame Hall).
  - exact (IH (onHostReconnect l) d Hid Hn Hs Hreq Hsame Hall).
Qed.

End Life.

(** C23. Every request of the host is decided, one at a time.  However the lifecycle
    came about - any submissions, radio packets, service calls, disconnections
    and changes of the device - a request with a valid identifier and a payload
    that the codec understands is never dropped: its result names the request,
    and it is a response for the host (retained or suppressed only while the host
    is away), a command for the peer that leaves the request active, or the note
    that this very request is already being worked on.  While a request is
    active, submissions change neither the lifecycle nor the device. *)
Theorem host_request_decided {W V} `{DeviceCapabilities.LocalCapabilityHandler W}
    `{HubEventLedger.Storage V} (d0 d : @Device W V) l id bytes minor su request :
  rtc life_step (newLifecycle, d0) (l, d) → HostProtocol.isValidRequestId id = true →
  is_byte_list bytes →
  decodeOperationRequestM minor (Some bytes) (Z.of_nat (length bytes)) zeroRequest
  = (HostProtocolRecords.OK, request) →
  let out := submit id (Some bytes) (Z.of_nat (length bytes)) minor su (l, d) in
  lf_requestId out.1 = id
  ∧ (told (hostConnected_ l) (lf_action out.1)
     ∨ (lf_action out.1 = LIFE_TRANSMIT_COMMAND ∧ state_ out.2.1 = ACTIVE
        ∧ requestId (entry_ out.2.1) = id)
     ∨ (lf_action out.1 = ACTIVE_DUPLICATE ∧ state_ l = ACTIVE ∧ requestId (entry_ l) = id))
  ∧ (state_ l = ACTIVE → out.2 = (l, d)).
Proof.
  intros Hreach Hid Hb Hdec. pose proof (reachable_inv l d0 d Hreach) as Hl. cbv zeta.
  assert (Hn : Z.of_nat HostProtocol.MAX_PAYLOAD_SIZE <? Z.of_nat (length bytes) = false).
  { revert Hdec. unfold decodeOperationRequestM. destruct (_ <? _); [done|].
    by destruct (Z.of_nat HostProtocol.MAX_PAYLOAD_SIZE <? Z.of_nat (length bytes)). }
  pose proof (proj1 (decodeOperationRequest_ok minor bytes zeroRequest request Hb) Hdec)
    as (Hwf & Hval & _).
  rewrite (submit_decoded _ _ _ _ _ request) by done.
  destruct (negb (bool_decide (state_ l = EMPTY)) && (id =? requestId (entry_ l))) eqn:Eid;
    cbn [fst snd].
  - apply andb_true_iff in Eid as [_ Eid%Z.eqb_eq].
    destruct (negb (samePayload bytes _ l)).
    { destruct (rejection_told id request minor HostProtocol.RequestRejectionCode.MISMATCH l) as [-> Ht].
      split_and!; [done|by left|done]. }
    destruct (bool_decide_reflect (state_ l = ACTIVE)); cbn.
    + split_and!; [done|by right; right|done].
    + split_and!; [done| |done]. left. unfold told. destruct (hostConnected_ l); auto.
  - destruct (bool_decide_reflect (state_ l = ACTIVE)) as [Es|Es]; cbn [fst snd].
    { destruct (rejection_told id request minor HostProtocol.RequestRejectionCode.BUSY l) as [-> Ht].
      split_and!; [done|by left|done]. }
    destruct (_ || _) eqn:Elocal; cbn [fst snd].
    { destruct (settleLocal_told id request minor bytes (Z.of_nat (length bytes))
        (localOperation id request minor su d).1 l) as [-> Ht]. split_and!; [done|by left|done]. }
    apply orb_false_iff in Elocal as [Elocal%Z.eqb_neq _].
    assert (Hinactive : active_ (remoteBridge_ l) = false).
    { destruct (active_ (remoteBridge_ l)) eqn:Ea; [|done]. by apply (life_active _ Hl) in Ea. }
    pose proof (submit_decides id request (ds_role (su_snapshot su)) (ds_deviceId (su_snapshot su))
      (su_peerId su) (su_now su) (su_overallTimeout su) (su_maxRetries su)
      (su_explicitlyConfigured su) (remoteBridge_ l) minor Hwf Hval (life_bridge _ Hl) Hinactive Elocal)
      as Hdecides.
    unfold submitRemote. destruct (RadioOperationBridge.submit _ _ _ _ _ _ _ _ _ _) as [remote b].
    cbn [fst] in Hdecides. cbv zeta in Hdecides.
    destruct Hdecides as [-> | ->]; cbn; (split; [done|]); (split; [|done]).
    + right; left. done.
    + left. unfold told. destruct (hostConnected_ l); auto.
Qed.

(** C22. A local request is performed once, however often the host repeats it.  When
    the lifecycle is not working on another request and the device handles a
    request that is not the retained one, then - whatever the host does next:
    ask again with the same identifier and bytes, in any version that understands
    them and whatever the device now reports, disconnect, reconnect, in any order
    - the device and its ledger stay as that one execution left them, and each
    repetition is answered with the same response. *)
Theorem host_request_performed_once {W V} `{DeviceCapabilities.LocalCapabilityHandler W}
    `{HubEventLedger.Storage V} (l : Lifecycle) (d : @Device W V) id bytes minor su request
    occurrences :
  HostProtocol.isValidRequestId id = true →
  decodeOperationRequestM minor (Some bytes) (Z.of_nat (length bytes)) zeroRequest
  = (HostProtocolRecords.OK, request) →
  state_ l ≠ ACTIVE → (state_ l = EMPTY ∨ requestId (entry_ l) ≠ id) →
  rq_targetDeviceId request = ds_deviceId (su_snapshot su)
    ∨ rq_category request = HostProtocol.OperationCategory.EVENT →
  let local := localOperation id request minor su d in
  HostOperationService.disposition local.1 = HostOperationService.HANDLED →
  resultClass (HostOperationService.response local.1) ≠ HostProtocol.ResultClass.REQUEST_REJECTED →
  Forall (understood bytes) occurrences →
  let first := submit id (Some bytes) (Z.of_nat (length bytes)) minor su (l, d) in
  let later := occur id bytes occurrences first.2 in
  told (hostConnected_ l) (lf_action first.1)
  ∧ lf_response first.1 = HostOperationService.response local.1
  ∧ first.2.2 = local.2 ∧ later.2.2 = local.2
  ∧ Forall (λ r, lf_requestId r = id ∧ lf_response r = lf_response first.1
                 ∧ (lf_action r = RESPONSE_READY_TO_HOST ∨ lf_action r = RESPONSE_RETAINED)) later.1.
Proof.
  intros Hid Hdec Hs Hnew Htarget local Hd Hc Hall first later.
  assert (Hn : Z.of_nat HostProtocol.MAX_PAYLOAD_SIZE <? Z.of_nat (length bytes) = false).
  { revert Hdec. unfold decodeOperationRequestM. destruct (_ <? _); [done|].
    by destruct (Z.of_nat HostProtocol.MAX_PAYLOAD_SIZE <? Z.of_nat (length bytes)). }
  set (l1 := complete (HostOperationService.response local.1)
    (acceptIdentity id minor bytes (Z.of_nat (length bytes)) l)).
  assert (E : first = (mkLifeResult
      (if hostConnected_ l then RESPONSE_READY_TO_HOST else RESPONSE_RETAINED) id minor zeroPacket
      (HostOperationService.response local.1), (l1, local.2))).
  { subst first. rewrite (submit_decoded _ _ _ _ _ request) by done.
    assert (negb (bool_decide (state_ l = EMPTY)) && (id =? requestId (entry_ l)) = false) as ->.
    { destruct Hnew as [-> |Hne]; [done|]. rewrite (proj2 (Z.eqb_neq id _)) by congruence.
      apply andb_false_r. }
    rewrite bool_decide_eq_false_2 by done.
    assert ((rq_targetDeviceId request =? ds_deviceId (su_snapshot su))
      || (rq_category request =? HostProtocol.OperationCategory.EVENT) = true) as ->
      by (apply orb_true_iff; by destruct Htarget; [left|right]; apply Z.eqb_eq).
    fold local. unfold settleLocal. rewrite Hd, (proj2 (Z.eqb_neq _ _) Hc). done. }
  clearbody first. subst first. cbn [fst snd lf_action lf_response] in *.
  apply Z.ltb_ge in Hn.
  destruct (occur_retained id bytes occurrences l1 local.2 Hid ltac:(lia) eq_refl eq_refl
    (samePayload_accepted id minor bytes _ l ltac:(lia)) Hall) as (H1 & _ & _ & H4).
  split_and!; try done. unfold told. destruct (hostConnected_ l); cbn; auto.
Qed.

(** ** A device with a lamp *)

Import CapabilityFacts.Lamp LedgerLife.

Definition lampDevice : @Device Z LedgerLife.Shelf :=
  (HostServiceFacts.local, (HubEventLedger.newLedger, LedgerLife.mkShelf [] [])).

Definition lampSurroundings : Surroundings :=
  mkSurroundings HostServiceFacts.device 1 true registry DeviceCapabilities.InterlockState.CLEAR
    HostServiceFacts.available 0 2000 2 false false.

(** The host turns the lamp on. *)
Definition lampOn : list Z := [2; HostProtocol.OperationCode.SET_INDICATOR; 2; 7; 0; 1; 1; 1].

Definition lampRequest : OperationRequest :=
  HostProtocolMessages.mkRequest 2 HostProtocol.OperationCode.SET_INDICATOR 2 7
    (HostProtocolRecords.mkTyped 1 1 (1 :: zeros 120)).

Definition lampOccurrences : list Occurrence :=
  [ASKS 1 lampSurroundings; LEAVES; ASKS 1 lampSurroundings; RETURNS; ASKS 2 lampSurroundings].

Lemma lampOccurrences_understood : Forall (understood lampOn) lampOccurrences.
Proof. repeat constructor; exists lampRequest; vm_compute; reflexivity. Qed.

Lemma host_request_performed_once_witness :
  let local := localOperation 5 lampRequest 1 lampSurroundings lampDevice in
  let first := submit 5 (Some lampOn) 8 1 lampSurroundings (newLifecycle, lampDevice) in
  let later := occur 5 lampOn lampOccurrences first.2 in
  (told true (lf_action first.1)
   ∧ lf_response first.1 = HostOperationService.response local.1
   ∧ first.2.2 = local.2 ∧ later.2.2 = local.2
   ∧ Forall (λ r, lf_requestId r = 5 ∧ lf_response r = lf_response first.1
                  ∧ (lf_action r = RESPONSE_READY_TO_HOST ∨ lf_action r = RESPONSE_RETAINED)) later.1)
  ∧ later.2.2.1.2.2 = 1 ∧ length later.1 = 3%nat.
Proof.
  intros local first later. split; [|split; vm_compute; reflexivity].
  assert (Hdec : decodeOperationRequestM 1 (Some lampOn) (Z.of_nat (length lampOn)) zeroRequest
    = (HostProtocolRecords.OK, lampRequest)) by (vm_compute; reflexivity).
  assert (Hd : HostOperationService.disposition local.1 = HostOperationService.HANDLED)
    by (vm_compute; reflexivity).
  assert (Hc : resultClass (HostOperationService.response local.1)
    ≠ HostProtocol.ResultClass.REQUEST_REJECTED) by (vm_compute; discriminate).
  exact (host_request_performed_once newLifecycle lampDevice 5 lampOn 1 lampSurroundings lampRequest
    lampOccurrences eq_refl Hdec ltac:(done) (or_introl eq_refl) (or_introl eq_refl) Hd Hc
    lampOccurrences_understood).
Defined.

Lemma host_request_decided_witness :
  let l := onHostDisconnect newLifecycle in
  let out := submit 5 (Some lampOn) 8 1 lampSurroundings (l, lampDevice) in
  (lf_requestId out.1 = 5
   ∧ (told (hostConnected_ l) (lf_action out.1)
      ∨ (lf_action out.1 = LIFE_TRANSMIT_COMMAND ∧ state_ out.2.1 = ACTIVE
         ∧ requestId (entry_ out.2.1) = 5)
      ∨ (lf_action out.1 = ACTIVE_DUPLICATE ∧ state_ l = ACTIVE ∧ requestId (entry_ l) = 5))
   ∧ (state_ l = ACTIVE → out.2 = (l, lampDevice)))
  ∧ lf_action out.1 = RESPONSE_RETAINED.
Proof.
  intros l out. split; [|vm_compute; reflexivity].
  assert (Hdec : decodeOperationRequestM 1 (Some lampOn) (Z.of_nat (length lampOn)) zeroRequest
    = (HostProtocolRecords.OK, lampRequest)) by (vm_compute; reflexivity).
  assert (Hb : is_byte_list lampOn) by by repeat constructor.
  exact (host_request_decided lampDevice lampDevice l 5 lampOn 1 lampSurroundings lampRequest
    (rtc_once _ _ (step_disconnect newLifecycle lampDevice)) eq_refl Hb Hdec).
Defined.

End LifeFacts.
