(* ===== verification/RoleFacts.v ===== *)
(** The host's side of a role: a request frame that comes in over the transport
    is answered by a response frame that goes out over it, a payload that is not
    understood is counted and left without an answer, and every frame is counted
    once. *)

From stdpp Require Import relations.
From S2P Require Import Prelude Wire Capabilities CapabilityFacts Diagnostics Ledger LedgerLife HostFrame HostFrameFacts HostTransport HostLink HostRecords HostMessages HostMessageFacts HostRecordFacts HostService HostServiceFacts HostEvents WireOps Bridge BridgeEnd HostLife LifeFacts HostRole.

Module RoleFacts.

Import HostProtocol HostTransport HostProtocolDiagnostics HostOperationLifecycle HostRoleIntegration.
Import HostFrameFacts(frame_wf, frame_valid, wire, decodeFrame_wire, encodeFrame_spec, length_wire).
Import HostLink(adapter_wf, unsent).
Import HostMessageFacts.
Import HostProtocolMessages(OperationRequest, rq_category, rq_operation, rq_targetDeviceId,
  rq_targetId, rq_value, OperationResponse, resultClass, decodeOperationRequestM,
  decodeOperationResponseM, encodeOperationResponseM, validateOperationRequestM).
Import HostServiceFacts(snapshot_wf, registry_wf, good, answers, sendable).
Import HostOperationService(ds_deviceId, handleLocalOperation).

(** ** Frames out *)

(** The frame of a payload. *)
Definition outgoing (minor type requestId : Z) (payload : list Z) : Frame :=
  mkFrame VERSION_MAJOR minor type 0 requestId (Z.of_nat (length payload))
    (payload ++ zeros (128 - length payload)).

Lemma outgoing_valid minor type requestId payload :
  is_u8 minor → is_u8 type → is_u16 requestId → is_byte_list payload → (length payload ≤ 128)%nat →
  isSupportedVersion VERSION_MAJOR minor = true → isKnownMessageType type = true →
  isValidEnvelopeRequestId type requestId = true →
  frame_wf (outgoing minor type requestId payload) ∧ frame_valid (outgoing minor type requestId payload).
Proof.
  intros ? ? ? Hb Hl Hv Hk Hi. split.
  - unfold frame_wf, outgoing. cbn [major HostProtocol.minor messageType flags HostProtocol.requestId
      payloadLength HostProtocol.payload]. split_and!; try done.
    + uint_unfold. lia.
    + rewrite length_app, length_zeros. lia.
    + apply byte_app; [done|apply zeros_byte].
  - unfold frame_valid, outgoing. cbn [payloadLength HostProtocol.payload]. split_and!; [lia| |].
    + apply HostFrameFacts.vocabulary_ok. cbn [major HostProtocol.minor messageType flags
        HostProtocol.requestId]. done.
    + rewrite Nat2Z.id, drop_app_length. apply all_zero_spec. unfold zeros. by rewrite length_replicate.
Qed.

(** A payload that fits is taken by an idle transport, and its frame is what is
    sent next. *)
Lemma submitFrame_sends minor type requestId payload rest s :
  is_u8 minor → is_u8 type → is_u16 requestId → is_byte_list payload → (length payload ≤ 128)%nat →
  isSupportedVersion VERSION_MAJOR minor = true → isKnownMessageType type = true →
  isValidEnvelopeRequestId type requestId = true →
  adapter_wf (transport_ s) → hasPendingTx (transport_ s) = false →
  let g := outgoing minor type requestId payload in
  let out := submitFrame minor type requestId (payload ++ rest) (Z.of_nat (length payload)) s in
  out.1 = true
  ∧ unsent (transport_ out.2) = wire g
  ∧ decodeFrame (Some (wire g)) (length (wire g)) zeroFrame = (DECODE_OK, g)
  ∧ lifecycle_ out.2 = lifecycle_ s ∧ connected_ out.2 = connected_ s
  ∧ diagnostics_ out.2 = observeResponseHandoff (diagnostics_ s).
Proof.
  intros Hm Ht Hr Hb Hl Hv Hk Hi Ha Hp g out.
  destruct (outgoing_valid minor type requestId payload Hm Ht Hr Hb Hl Hv Hk Hi) as [Hgw Hgv].
  fold g in Hgw, Hgv. pose proof (proj1 Hgv) as Hgn.
  pose proof (length_wire g Hgw Hgn) as Hlw.
  assert (Hlw' : (length (wire g) ≤ 140)%nat) by lia.
  subst out. unfold submitFrame.
  assert (Eg : mkFrame VERSION_MAJOR minor type 0 requestId (u16 (Z.of_nat (length payload)))
    (copy_bytes (Z.to_nat (Z.of_nat (length payload))) (zeros MAX_PAYLOAD_SIZE) 0 (payload ++ rest) 0)
    = g).
  { unfold g, outgoing. rewrite wrap_small by (uint_unfold; lia). f_equal. rewrite Nat2Z.id.
    change MAX_PAYLOAD_SIZE with 128%nat.
    rewrite copy_bytes_spec by (rewrite ?length_zeros, ?length_app; lia).
    rewrite take_0, drop_0, app_nil_l, take_app_length. unfold zeros. by rewrite drop_replicate. }
  rewrite Eg. change MAX_ENCODED_FRAME_SIZE with 140%nat.
  rewrite (encodeFrame_spec g (zeros 140) 140 Hgw Hgn (proj1 (proj2 Hgv))) by
    (rewrite ?length_zeros; lia).
  unfold HostTransport.submit.
  assert (Hpl : pendingLength_ (transport_ s) = 0%nat).
  { revert Hp. unfold hasPendingTx. by destruct (Nat.eqb_spec (pendingLength_ (transport_ s)) 0). }
  rewrite Hpl, Nat.eqb_refl. cbn [negb].
  rewrite (proj2 (Nat.eqb_neq (length (wire g)) 0)) by lia.
  rewrite (proj2 (Nat.ltb_ge _ _)) by (unfold MAX_ENCODED_FRAME_SIZE; lia). cbn [orb].
  pose proof (decodeFrame_wire g zeroFrame Hgw Hgv) as Hdec.
  assert (Hpre : (decodeFrame (Some (wire g ++ drop (length (wire g)) (zeros 140))) (length (wire g))
    zeroFrame).1 = DECODE_OK).
  { rewrite HostFrameFacts.decodeFrame_prefix. by rewrite Hdec. }
  rewrite Hpre, bool_decide_eq_true_2 by done. cbn [negb].
  rewrite bool_decide_eq_true_2 by done. cbn [negb].
  split; [done|]. split; [|done].
  unfold observe, rec_set. cbn [fst snd transport_]. destruct Ha as (_ & Hlen & _ & _).
  unfold unsent, remainingTx, load, rec_set. cbn [pending_ pendingLength_ pendingOffset_].
  rewrite (proj2 (Nat.eqb_neq _ _)) by lia. rewrite drop_0, Nat.sub_0_r.
  rewrite copy_bytes_spec by (rewrite ?length_app; lia).
  rewrite take_0, drop_0, app_nil_l, take_app_length. by rewrite take_app_length.
Qed.

(** ** Requests in a frame's payload *)

Lemma decode_prefix minor b z r0 :
  decodeOperationRequestM minor (Some (b ++ z)) (Z.of_nat (length b)) r0
  = decodeOperationRequestM minor (Some b) (Z.of_nat (length b)) r0.
Proof.
  unfold decodeOperationRequestM, HostProtocolRecords.OPERATION_REQUEST_FIXED_SIZE.
  destruct (Z.ltb_spec (Z.of_nat (length b)) 7); [done|]. cbn [orb]. destruct (_ <? _); [done|].
  assert (Hrd : ∀ i, (i < 7)%nat → rd (b ++ z) i = rd b i).
  { intros i Hi. unfold rd. by rewrite app_nth1 by lia. }
  unfold HostProtocolRecords.readUint16Le, read16. rewrite !Hrd by lia.
  destruct (Z.eqb_spec (Z.of_nat (length b)) (7 + rd b 6)) as [E|]; [|done]. cbn [negb].
  assert (Hv : HostProtocolMessages.readValue (b ++ z) (rd b 5) (rd b 6) 7
    = HostProtocolMessages.readValue b (rd b 5) (rd b 6) 7); [|by rewrite Hv].
  unfold HostProtocolMessages.readValue. f_equal.
  assert (Hc : ∀ n dst i, (7 + i + n ≤ length b)%nat →
    copy_bytes n dst i (b ++ z) (7 + i) = copy_bytes n dst i b (7 + i)); [|].
  { induction n as [|n IH]; intros dst i Hi; [done|]. cbn [copy_bytes].
    replace (S (7 + i)) with (7 + S i)%nat by lia. unfold rd at 1.
    rewrite app_nth1 by lia. fold (rd b (7 + i)). apply IH. lia. }
  exact (Hc (Z.to_nat (rd b 6)) _ 0%nat ltac:(lia)).
Qed.

(** The request of a frame. *)
Lemma frame_request f request :
  frame_wf f → frame_valid f →
  decodeOperationRequestM (minor f) (Some (payload f)) (payloadLength f) RadioOperationBridge.zeroRequest
  = (HostProtocolRecords.OK, request) →
  request_wf request ∧ validateOperationRequestM (minor f) request = HostProtocolRecords.OK.
Proof.
  intros (_ & _ & _ & _ & _ & [Hn _] & Hl & Hb) (Hm & _) Hdec.
  set (b := take (Z.to_nat (payloadLength f)) (payload f)).
  assert (Hlb : Z.of_nat (length b) = payloadLength f) by (unfold b; rewrite length_take; lia).
  assert (Hp : payload f = b ++ drop (Z.to_nat (payloadLength f)) (payload f))
    by (unfold b; by rewrite take_drop).
  rewrite Hp, <- Hlb, decode_prefix in Hdec.
  apply decodeOperationRequest_ok in Hdec as (? & ? & _); [done|]. unfold b. bytes.
Qed.

(** The answer of the device's own service can be sent to the host. *)
Lemma local_answer_good {W V} `{DeviceCapabilities.LocalCapabilityHandler W} `{HubEventLedger.Storage V}
    id request minor su (d : @Device W V) :
  request_wf request → validateOperationRequestM minor request = HostProtocolRecords.OK →
  rq_targetDeviceId request = ds_deviceId (su_snapshot su) →
  one_of (rq_category request) [OperationCategory.DEVICE; OperationCategory.CAPABILITY;
    OperationCategory.DIAGNOSTIC] = true →
  snapshot_wf (su_snapshot su) → registry_wf (su_registry su) →
  good minor id request (localOperation id request minor su d).1.
Proof.
  intros Hwf Hval Hd Hc Hs Hr. destruct (HostServiceFacts.valid_request _ _ Hval) as [Hvalid Htarget].
  assert (Hne : rq_category request ≠ OperationCategory.EVENT) by by switch_cases Hc.
  unfold localOperation. rewrite (proj2 (Z.eqb_neq _ _) Hne). unfold zoom. cbn [fst].
  unfold handleLocalOperation.
  destruct (Z.eqb_spec (rq_category request) OperationCategory.CAPABILITY).
  - by apply HostServiceFacts.capability_good.
  - apply HostServiceFacts.device_good; try done.
    apply one_of_spec in Hc. apply elem_of_cons in Hc as [|Hc]; [by left|].
    apply elem_of_cons in Hc as [|Hc]; [done|]. apply list_elem_of_singleton in Hc. by right.
Qed.

(** A good response goes out in a frame. *)
Lemma submitResponse_sends minor id request result s :
  is_u8 minor → is_u16 id → isValidRequestId id = true → isSupportedVersion VERSION_MAJOR minor = true →
  request_wf request → good minor id request result →
  adapter_wf (transport_ s) → hasPendingTx (transport_ s) = false →
  let r := HostOperationService.response result in
  let out := submitOperationResponse minor id r s in
  ∃ g, out.1 = true ∧ unsent (transport_ out.2) = wire g
  ∧ decodeFrame (Some (wire g)) (length (wire g)) zeroFrame = (DECODE_OK, g)
  ∧ messageType g = MessageType.OPERATION_RESPONSE ∧ HostProtocol.requestId g = id
  ∧ HostProtocol.minor g = minor
  ∧ (∀ r0, decodeOperationResponseM minor (Some (take (Z.to_nat (payloadLength g)) (payload g)))
             (payloadLength g) r0 = (HostProtocolRecords.OK, r))
  ∧ lifecycle_ out.2 = lifecycle_ s ∧ connected_ out.2 = connected_ s
  ∧ diagnostics_ out.2 = observeResponseHandoff (diagnostics_ s).
Proof.
  intros Hm Hid Hvid Hv Hwf Hg Ha Hp r out. pose proof Hwf as (Q1 & Q2 & Q3 & Q4 & _).
  destruct Hg as (_ & class & code & value & [_ Hr] & Hcl & Hco & Hvw & Hvc & Hval).
  fold r in Hr. rewrite <- Hr in Hval.
  assert (Hrw : response_wf r) by (rewrite Hr; done).
  pose proof (encodeOperationResponse_spec minor r (zeros 128) Hrw Hval) as He.
  rewrite length_zeros in He. specialize (He ltac:(done)).
  set (b := responseBytes r) in *.
  assert (Hb : is_byte_list b) by by apply HostRecordFacts.responseBytes_byte.
  assert (Hlb : (length b ≤ 128)%nat).
  { destruct (carried_response _ _ Hval) as [_ Hlen]. unfold b, responseBytes.
    destruct Hrw as (_ & _ & _ & _ & _ & _ & Hw & Hc). pose proof Hw as (_ & [Hlow _] & _).
    rewrite length_app, (length_valueBytes _ Hw Hc). cbn [length responseHead app le16]. lia. }
  assert (Hk : isKnownMessageType MessageType.OPERATION_RESPONSE = true) by done.
  assert (Hi : isValidEnvelopeRequestId MessageType.OPERATION_RESPONSE id = true)
    by (unfold isValidEnvelopeRequestId; by rewrite Hvid).
  destruct (submitFrame_sends minor MessageType.OPERATION_RESPONSE id b (drop (length b) (zeros 128)) s
    Hm ltac:(done) Hid Hb Hlb Hv Hk Hi Ha Hp) as (H1 & H2 & H3 & H4 & H5 & H6).
  assert (E : out = submitFrame minor MessageType.OPERATION_RESPONSE id
    (b ++ drop (length b) (zeros 128)) (Z.of_nat (length b)) s).
  { subst out. unfold submitOperationResponse, submitEncoded, room. change MAX_PAYLOAD_SIZE with 128%nat.
    by rewrite He. }
  exists (outgoing minor MessageType.OPERATION_RESPONSE id b). rewrite E.
  split_and!; try done.
  intros r0. cbn [outgoing payloadLength payload]. rewrite Nat2Z.id, take_app_length.
  by apply decodeOperationResponse_ok.
Qed.

(** C24. A request frame is answered by a response frame.  Take a connected stack
    whose transport has nothing to send, whose lifecycle is not working on a
    request and does not retain this identifier, and any valid request frame for
    the device itself - of the device, capability or diagnostic category, in any
    supported version.  Serving it hands a response off, and what the transport
    sends next is exactly one frame: it decodes, is an operation response, has
    the request's identifier and version, and its payload decodes to the very
    response the device's own service gave.  The device has performed the
    operation once, the response is retained, and the frame is counted as
    accepted. *)
Theorem request_frame_answered {P W V} `{ByteStream P} `{DeviceCapabilities.LocalCapabilityHandler W}
    `{HubEventLedger.Storage V} parsed su request s (port : P) (d : @Device W V) :
  let f := stream_frame parsed in
  event parsed = FRAME_READY → frame_wf f → frame_valid f →
  messageType f = MessageType.OPERATION_REQUEST → isValidRequestId (HostProtocol.requestId f) = true →
  decodeOperationRequestM (minor f) (Some (payload f)) (payloadLength f)
    RadioOperationBridge.zeroRequest = (HostProtocolRecords.OK, request) →
  rq_targetDeviceId request = ds_deviceId (su_snapshot su) →
  one_of (rq_category request) [OperationCategory.DEVICE; OperationCategory.CAPABILITY;
    OperationCategory.DIAGNOSTIC] = true →
  snapshot_wf (su_snapshot su) → registry_wf (su_registry su) →
  adapter_wf (transport_ s) → hasPendingTx (transport_ s) = false →
  hostConnected_ (lifecycle_ s) = true → state_ (lifecycle_ s) ≠ ACTIVE →
  state_ (lifecycle_ s) = EMPTY ∨ requestId (entry_ (lifecycle_ s)) ≠ HostProtocol.requestId f →
  let local := localOperation (HostProtocol.requestId f) request (minor f) su d in
  let out := answerOperation (P := P) parsed su (s, (port, d)) in
  ∃ g, ro_action out.1 = HOST_RESPONSE_HANDOFF
  ∧ unsent (transport_ out.2.1) = wire g
  ∧ decodeFrame (Some (wire g)) (length (wire g)) zeroFrame = (DECODE_OK, g)
  ∧ messageType g = MessageType.OPERATION_RESPONSE
  ∧ HostProtocol.requestId g = HostProtocol.requestId f ∧ minor g = minor f
  ∧ (∀ r0, decodeOperationResponseM (minor f) (Some (take (Z.to_nat (payloadLength g)) (payload g)))
             (payloadLength g) r0
           = (HostProtocolRecords.OK, HostOperationService.response local.1))
  ∧ out.2.2 = (port, local.2)
  ∧ framesAccepted (diagnostics_ out.2.1) = saturatingAdd (framesAccepted (diagnostics_ s)) 1.
Proof.
  intros f Hev Hf Hfv Hty Hid Hdec Hd Hc Hsn Hre Ha Hp Hconn Hact Hnew local out.
  destruct (frame_request f request Hf Hfv Hdec) as [Hwf Hval].
  pose proof (local_answer_good (HostProtocol.requestId f) request (minor f) su d Hwf Hval Hd Hc Hsn Hre)
    as Hg. fold local in Hg. pose proof Hg as (Hdisp & _).
  set (s1 := observe (observeFrame parsed ACCEPTED) s).
  assert (Elife : HostOperationLifecycle.submit (HostProtocol.requestId f) (Some (payload f))
      (payloadLength f) (minor f) su (lifecycle_ s, d)
    = let o := settleLocal (HostProtocol.requestId f) request (minor f) (payload f) (payloadLength f)
                 local.1 (lifecycle_ s) in (o.1, (o.2, local.2))).
  { rewrite (LifeFacts.submit_decoded _ _ _ _ _ request); [|done|apply Z.ltb_ge, Hfv|done].
    assert (negb (bool_decide (state_ (lifecycle_ s) = EMPTY))
      && (HostProtocol.requestId f =? requestId (entry_ (lifecycle_ s))) = false) as ->.
    { destruct Hnew as [-> |Hne]; [done|]. rewrite (proj2 (Z.eqb_neq (HostProtocol.requestId f) _)) by
        congruence. apply andb_false_r. }
    rewrite bool_decide_eq_false_2 by done. rewrite (proj2 (Z.eqb_eq _ _) Hd). done. }
  assert (Hsettle : ∃ l', settleLocal (HostProtocol.requestId f) request (minor f) (payload f)
      (payloadLength f) local.1 (lifecycle_ s)
    = (mkLifeResult RESPONSE_READY_TO_HOST (HostProtocol.requestId f) (minor f) Protocol.zeroPacket
         (HostOperationService.response local.1), l')).
  { unfold settleLocal. rewrite Hdisp. destruct (_ =? _); unfold complete, acceptIdentity, rec_set;
      cbn [hostConnected_ entry_ en_response]; rewrite Hconn; by eexists. }
  destruct Hsettle as [l' Hsettle]. rewrite Hsettle in Elife. cbn [fst snd] in Elife.
  set (s2 := s1 <| lifecycle_ := l' |>).
  assert (Hdeliver : ∃ s3, deliverLife (state_ (lifecycle_ s))
      (isExactRetainedRequest (HostProtocol.requestId f) (Some (payload f)) (payloadLength f) (lifecycle_ s))
      (mkLifeResult RESPONSE_READY_TO_HOST (HostProtocol.requestId f) (minor f) Protocol.zeroPacket
         (HostOperationService.response local.1)) s2
    = (let (submitted, s) := submitOperationResponse (minor f) (HostProtocol.requestId f)
         (HostOperationService.response local.1) s3 in (handoff submitted, s))
    ∧ transport_ s3 = transport_ s
    ∧ framesAccepted (diagnostics_ s3) = saturatingAdd (framesAccepted (diagnostics_ s)) 1).
  { eexists. split; [reflexivity|].
    assert (Hacc : framesAccepted (observeFrame parsed ACCEPTED (diagnostics_ s))
      = saturatingAdd (framesAccepted (diagnostics_ s)) 1) by (unfold observeFrame; by rewrite Hev).
    split; [by repeat case_match|]. unfold observeOperationResponse. by repeat case_match. }
  destruct Hdeliver as (s3 & Hdeliver & Htr & Hacc).
  pose proof Hf as (_ & Hmin & _ & _ & Hrid & _). pose proof Hfv as (_ & Hvoc & _).
  apply HostFrameFacts.vocabulary_ok in Hvoc as (Hver & _).
  assert (Hver' : isSupportedVersion VERSION_MAJOR (minor f) = true).
  { revert Hver. unfold isSupportedVersion. rewrite !andb_true_iff. naive_solver. }
  destruct (submitResponse_sends (minor f) (HostProtocol.requestId f) request local.1 s3 Hmin Hrid Hid
    Hver' Hwf Hg) as (g & G1 & G2 & G3 & G4 & G5 & G6 & G7 & _ & _ & G8); [by rewrite Htr..|].
  exists g.
  assert (E : out = (mkRoleResult HOST_RESPONSE_HANDOFF Protocol.zeroPacket,
    ((submitOperationResponse (minor f) (HostProtocol.requestId f)
        (HostOperationService.response local.1) s3).2, (port, local.2)))).
  { subst out. unfold answerOperation. fold f. rewrite Hdec.
    unfold bind, stacked, zoom, modify, gets. cbn [fst snd]. fold s1.
    change (lifecycle_ s1) with (lifecycle_ s). rewrite Elife. cbn [fst snd]. fold s2.
    rewrite Hdeliver. destruct (submitOperationResponse _ _ _ s3) as [b s4]. cbn [fst snd] in *.
    by subst b. }
  rewrite E. cbn [fst snd ro_action]. split_and!; try done.
  rewrite G8. exact Hacc.
Qed.

(** ** Counting *)

(** The counters of frames: received, and what became of them. *)
Definition tally (c : Snapshot) : Z * Z * Z * Z * Z :=
  (framesReceived c, framesAccepted c, malformedFrames c, unsupportedVersions c,
   unsupportedMessageTypes c).

(** Every frame received is in one of the four counters, until the first of them
    saturates. *)
Definition tallied (c : Snapshot) : Prop :=
  (0 ≤ framesReceived c ≤ UINT32_MAX ∧ 0 ≤ framesAccepted c ∧ 0 ≤ malformedFrames c
   ∧ 0 ≤ unsupportedVersions c ∧ 0 ≤ unsupportedMessageTypes c)
  ∧ (framesReceived c < UINT32_MAX →
     framesReceived c = framesAccepted c + malformedFrames c + unsupportedVersions c
                        + unsupportedMessageTypes c).

Lemma tallied_tally c c' : tally c' = tally c → tallied c → tallied c'.
Proof. unfold tally, tallied. intros [= -> -> -> -> ->]. done. Qed.

(** What a parser event may be. *)
Definition heard_frame (parsed : StreamResult) : Prop :=
  event parsed = FRAME_READY ∨ event parsed = OVERSIZED_CANDIDATE
  ∨ (event parsed = FRAME_REJECTED ∧ decodeResult parsed ≠ DECODE_OK).

Lemma saturating_range x : 0 ≤ x → 0 ≤ saturatingAdd x 1.
Proof. unfold saturatingAdd, UINT32_MAX. case_match; lia. Qed.

(** One of the four counters grows with the frames received. *)
Lemma observeFrame_tallied parsed boundary c :
  heard_frame parsed → tallied c → tallied (observeFrame parsed boundary c).
Proof.
  intros Hp ((Hr & Ha & Hm & Hv & Ht) & Hsum).
  assert (Hcase : ∃ (a m v t : Z), (a, m, v, t) ∈ [(1, 0, 0, 0); (0, 1, 0, 0); (0, 0, 1, 0); (0, 0, 0, 1)]
    ∧ tally (observeFrame parsed boundary c)
      = (saturatingAdd (framesReceived c) 1,
         if a =? 1 then saturatingAdd (framesAccepted c) 1 else framesAccepted c,
         if m =? 1 then saturatingAdd (malformedFrames c) 1 else malformedFrames c,
         if v =? 1 then saturatingAdd (unsupportedVersions c) 1 else unsupportedVersions c,
         if t =? 1 then saturatingAdd (unsupportedMessageTypes c) 1 else unsupportedMessageTypes c)).
  { unfold observeFrame. destruct Hp as [-> |[-> |[-> Hn]]].
    - destruct boundary; [exists 1, 0, 0, 0|exists 0, 1, 0, 0|exists 0, 0, 1, 0|exists 0, 0, 0, 1];
        (split; [set_solver|reflexivity]).
    - exists 0, 1, 0, 0. split; [set_solver|reflexivity].
    - unfold observeDecodeFailure. destruct (decodeResult parsed); try done;
        first [by (exists 0, 1, 0, 0; split; [set_solver|reflexivity])
              |by (exists 0, 0, 1, 0; split; [set_solver|reflexivity])
              |by (exists 0, 0, 0, 1; split; [set_solver|reflexivity])]. }
  destruct Hcase as (a & m & v & t & Hin & E). unfold tally in E.
  injection E as E1 E2 E3 E4 E5. unfold tallied. rewrite E1, E2, E3, E4, E5.
  unfold saturatingAdd, UINT32_MAX in *.
  repeat (apply elem_of_cons in Hin as [[= -> -> -> ->]|Hin]); [..|by apply elem_of_nil in Hin];
    cbn [Z.eqb Pos.eqb]; repeat case_match; lia.
Qed.

(** The other counters do not matter. *)
Lemma submitFrame_tally minor type id payload n s :
  tally (diagnostics_ (submitFrame minor type id payload n s).2) = tally (diagnostics_ s).
Proof.
  unfold submitFrame. destruct (encodeFrame _ _ _) as [[[] out] n']; try done.
  destruct (HostTransport.submit _ _ _) as [status transport]. by destruct (negb _).
Qed.

Lemma submitEncoded_tally minor type id e s :
  tally (diagnostics_ (submitEncoded minor type id e s).2) = tally (diagnostics_ s).
Proof. destruct e as [[[] [out|]] n]; try done. apply submitFrame_tally. Qed.

Lemma submitResponse_tally minor id r s :
  tally (diagnostics_ (submitOperationResponse minor id r s).2) = tally (diagnostics_ s).
Proof. apply submitEncoded_tally. Qed.

Lemma observeResponse_tally r c : tally (observeOperationResponse r c) = tally c.
Proof. unfold observeOperationResponse. by case_match. Qed.

Lemma observe_tally g s :
  (∀ c, tally (g c) = tally c) → tally (diagnostics_ (observe g s)) = tally (diagnostics_ s).
Proof. intros Hg. exact (Hg (diagnostics_ s)). Qed.

Lemma pending_tally s : tally (diagnostics_ (servicePendingDelivery s).2) = tally (diagnostics_ s).
Proof.
  unfold servicePendingDelivery. destruct (_ || _ || _ || _); [done|]. cbv zeta.
  match goal with |- context [submitOperationResponse ?m ?i ?r ?s] =>
    pose proof (submitResponse_tally m i r s) as E; destruct (submitOperationResponse m i r s) as [b s'] end.
  by destruct b.
Qed.

Lemma consumeRemote_tally life s :
  tally (diagnostics_ (consumeRemoteLife life s).2) = tally (diagnostics_ s).
Proof.
  unfold consumeRemoteLife. destruct (lf_action life); try done.
  set (s1 := observe _ s).
  assert (E1 : tally (diagnostics_ s1) = tally (diagnostics_ s)) by apply observeResponse_tally.
  destruct (negb _).
  - pose proof (submitResponse_tally (lf_responseMinor life) (lf_requestId life) (lf_response life) s1) as E.
    destruct (submitOperationResponse _ _ _ _) as [b s'] eqn:Es. cbn [snd] in E. rewrite <- E1, <- E.
    by destruct b, (connected_ s').
  - rewrite <- E1. by destruct (connected_ s1).
Qed.

Lemma deliver_tally before replay life s :
  tally (diagnostics_ (deliverLife before replay life s).2) = tally (diagnostics_ s).
Proof.
  unfold deliverLife. destruct (lf_action life); try done.
  match goal with |- context [submitOperationResponse ?m ?i ?r ?s] =>
    pose proof (submitResponse_tally m i r s) as E; destruct (submitOperationResponse m i r s) as [b s'] end.
  cbn [snd] in E. cbn [fst snd]. rewrite E.
  rewrite (observe_tally _ _ (observeResponse_tally (lf_response life))). by case_match.
Qed.

Lemma rejected_tally parsed s :
  tally (diagnostics_ (answerRejectedFrame parsed s).2)
  = tally (observeFrame parsed ACCEPTED (diagnostics_ s)).
Proof.
  unfold answerRejectedFrame. destruct (rejectedFrameError _) as [code|]; [|done]. cbv zeta.
  unfold submitProtocolError.
  match goal with |- context [submitEncoded ?m ?t ?i ?e ?s] =>
    pose proof (submitEncoded_tally m t i e s) as E; destruct (submitEncoded m t i e s) as [b s'] end.
  exact E.
Qed.

Lemma hello_tally parsed su bridge s :
  ∃ boundary, tally (diagnostics_ (answerHello parsed su bridge s).2)
    = tally (observeFrame parsed boundary (diagnostics_ s)).
Proof.
  unfold answerHello, submitProtocolError.
  destruct (HostProtocolMessages.decodeHelloRequestM _ _ _ _) as [[] request]; cbv zeta;
    try (exists BOUNDARY_MALFORMED;
      match goal with |- context [submitEncoded ?m ?t ?i ?e ?s] =>
        pose proof (submitEncoded_tally m t i e s) as E; destruct (submitEncoded m t i e s) as [b s'] end;
      exact E).
  exists ACCEPTED. destruct (HostOperationService.hello_disposition _);
    match goal with |- context [submitEncoded ?m ?t ?i ?e ?s] =>
      pose proof (submitEncoded_tally m t i e s) as E; destruct (submitEncoded m t i e s) as [b s'] end;
    exact E.
Qed.

Section Run.

Context {P W V : Type} `{ByteStream P} `{DeviceCapabilities.LocalCapabilityHandler W}
  `{HubEventLedger.Storage V}.

Abbreviation role := (Stack * (P * @Device W V))%type.

Lemma operation_tally parsed su (s : role) :
  ∃ boundary, tally (diagnostics_ (answerOperation parsed su s).2.1)
    = tally (observeFrame parsed boundary (diagnostics_ s.1)).
Proof.
  unfold answerOperation.
  destruct (decodeOperationRequestM _ _ _ _) as [[] request]; try (by exists BOUNDARY_MALFORMED).
  exists ACCEPTED. unfold bind, stacked, zoom, modify, gets. cbn [fst snd].
  rewrite deliver_tally. done.
Qed.

Lemma frame_tally parsed su bridge (s : role) :
  ∃ boundary, tally (diagnostics_ (answerFrame parsed su bridge s).2.1)
    = tally (observeFrame parsed boundary (diagnostics_ s.1)).
Proof.
  unfold answerFrame. destruct (_ =? MessageType.HELLO_REQUEST).
  - unfold stacked, zoom. cbn [fst snd]. apply hello_tally.
  - destruct (negb _); [by exists BOUNDARY_UNSUPPORTED_TYPE|]. apply operation_tally.
Qed.

(** What a read of the transport may report. *)
Lemma rxLoop_heard turns : ∀ n last a (w : P),
  match rx_status (rxLoop turns n last (a, w)).1 with
  | PARSER_EVENT => heard_frame (parserResult (rxLoop turns n last (a, w)).1)
  | _ => True
  end.
Proof.
  induction turns as [|turns IH]; intros n last a w; cbn [rxLoop].
  { cbn. by destruct (n =? 0)%nat. }
  unfold bind, outside, zoom, this, gets, update, modify. cbn [fst snd].
  destruct (_ <=? 0); [cbn; by destruct (n =? 0)%nat|]. destruct (_ <? 0); [done|].
  destruct (consume _ _ _) as [result parser] eqn:Ec. cbn [fst snd].
  destruct (bool_decide_reflect (event result = STREAM_NONE)) as [|Hn]; cbn [negb]; [apply IH|].
  cbn [ret fst rx_status parserResult]. revert Ec Hn. cbn [consume consumeLoop].
  unfold consumeByte. destruct (discardingOversize _).
  { destruct (_ =? FRAME_DELIMITER); intros [= <- _]; [|done]. intros _. right; left. done. }
  destruct (negb _); [destruct (_ <? _)%nat; by intros [= <- _]|].
  destruct (_ =? 0)%nat; [by intros [= <- _]|].
  destruct (completeCandidate _) as [r frame].
  destruct (bool_decide_reflect (r = DECODE_OK)); intros [= <- _] _; [by left|]. right; right. done.
Qed.

Lemma serviceRx_tally su bridge budget (s : role) :
  tallied (diagnostics_ s.1) → tallied (diagnostics_ (serviceRx su bridge budget s).2.1).
Proof.
  intros Ht. unfold serviceRx. unfold bind at 1, gets. cbn [fst snd].
  destruct (_ || _); [done|]. unfold bind, zoom. cbn [fst snd].
  pose proof (rxLoop_heard budget 0 noResult (transport_ s.1) s.2.1) as Hh.
  unfold HostTransport.serviceRx. destruct (rxLoop _ _ _ _) as [rx [a w]]. cbn [fst snd] in *.
  destruct (rx_status rx); try done. destruct (negb _).
  - unfold stacked, zoom. cbn [fst snd]. eapply tallied_tally; [apply rejected_tally|].
    by apply observeFrame_tallied.
  - match goal with |- context [answerFrame ?p ?su ?b ?x] =>
      destruct (frame_tally p su b x) as [boundary E] end.
    eapply tallied_tally; [exact E|]. by apply observeFrame_tallied.
Qed.

(** One call to the stack; between calls the port and the device live their own
    life. *)
Inductive role_step : role → role → Prop :=
| role_rx su bridge budget s : role_step s (serviceRx su bridge budget s).2
| role_tx budget s : role_step s (serviceTx budget s).2
| role_pending s x : role_step (s, x) ((servicePendingDelivery s).2, x)
| role_radio packet s x : role_step (s, x) ((onRadioPacket packet s).2, x)
| role_remote now s x : role_step (s, x) ((serviceRemote now s).2, x)
| role_connection connected s x : role_step (s, x) (observeConnection connected s, x)
| role_reset s x : role_step (s, x) (resetStack s, x)
| role_events service s x : role_step (s, x) (setEventService service s, x)
| role_world s x x' : role_step (s, x) (s, x').

Lemma role_step_tallied (s s' : role) :
  role_step s s' → tallied (diagnostics_ s.1) → tallied (diagnostics_ s'.1).
Proof.
  destruct 1 as [su bridge budget s|budget s|s x|packet s x|now s x|connected s x|s x|service s x|s x x'];
    cbn [fst]; intros Ht; try done.
  - by apply serviceRx_tally.
  - eapply tallied_tally; [apply pending_tally|done].
  - unfold onRadioPacket. destruct (HostOperationLifecycle.receive _ _) as [life l].
    eapply tallied_tally; [apply consumeRemote_tally|done].
  - unfold serviceRemote. destruct (HostOperationLifecycle.service _ _) as [life l].
    eapply tallied_tally; [apply consumeRemote_tally|done].
  - unfold observeConnection. destruct (Bool.eqb _ _); [done|]. by destruct (negb connected).
Qed.

End Run.

(** Every frame is counted once.  Whatever the stack is asked to do, in any
    order - reading the port, writing it, radio packets, service calls, lost and
    regained connections, resets, whatever the port and the device do meanwhile -
    the frames it has received are those it accepted plus those it counted as
    malformed, as of an unsupported version and as of an unsupported type, as
    long as the counter of received frames has not saturated. *)
Theorem frames_tallied {P W V} `{ByteStream P} `{DeviceCapabilities.LocalCapabilityHandler W}
    `{HubEventLedger.Storage V} storage pending connected (x0 x : P * @Device W V) s :
  rtc role_step (newStack storage pending connected, x0) (s, x) →
  let c := diagnostics_ s in
  framesReceived c < UINT32_MAX →
  framesReceived c = framesAccepted c + malformedFrames c + unsupportedVersions c
                     + unsupportedMessageTypes c.
Proof.
  intros Hr. cbv zeta. assert (Ht : tallied (diagnostics_ (s, x).1)); [|by apply Ht].
  revert Hr. apply (rtc_ind_r (λ s, tallied (diagnostics_ s.1))).
  - split; cbn; [unfold UINT32_MAX; lia|done].
  - intros y z _ Hs Hi. by eapply role_step_tallied.
Qed.

(** A request that is not understood gets no answer.  When the payload of an
    operation request does not decode - unknown category or operation, a pair
    that is not supported, an invalid target or value - nothing is handed to the
    transport, no command is made, the lifecycle, the port and the device stay as
    they are, and the frame is counted as malformed. *)
Theorem unreadable_request_unanswered {P W V} `{ByteStream P}
    `{DeviceCapabilities.LocalCapabilityHandler W} `{HubEventLedger.Storage V} parsed su bridge
    (s : Stack) (x : P * @Device W V) request result :
  let f := stream_frame parsed in
  event parsed = FRAME_READY → messageType f = MessageType.OPERATION_REQUEST →
  decodeOperationRequestM (minor f) (Some (payload f)) (payloadLength f)
    RadioOperationBridge.zeroRequest = (result, request) →
  result ≠ HostProtocolRecords.OK →
  answerFrame parsed su bridge (s, x)
  = (zeroRoleResult, (observe (observeFrame parsed BOUNDARY_MALFORMED) s, x))
  ∧ malformedFrames (observeFrame parsed BOUNDARY_MALFORMED (diagnostics_ s))
    = saturatingAdd (malformedFrames (diagnostics_ s)) 1.
Proof.
  intros f Hev Hty Hdec Hres. split; [|unfold observeFrame; by rewrite Hev].
  unfold answerFrame. fold f. rewrite Hty.
  change (MessageType.OPERATION_REQUEST =? MessageType.HELLO_REQUEST) with false.
  rewrite Z.eqb_refl. cbn [negb]. unfold answerOperation. fold f. rewrite Hdec. by destruct result.
Qed.

(** ** A device with a lamp on a cable *)

Import CapabilityFacts.Lamp LedgerLife HostLink.Cable.
Import LifeFacts(lampOn, lampRequest, lampDevice, lampSurroundings).

Definition lampFrame : Frame :=
  mkFrame 0 1 MessageType.OPERATION_REQUEST 0 261 8 (lampOn ++ zeros 120).

Definition lampParsed : StreamResult := mkStream 1 FRAME_READY DECODE_OK lampFrame.

Definition lampStack : Stack := newStack (zeros 139) (zeros 140) true.

Definition lampPort : port := mkPort (wire lampFrame) [] [] 0.

Lemma lampFrame_wf : frame_wf lampFrame.
Proof. unfold frame_wf. concrete. Qed.

Lemma lampFrame_valid : frame_valid lampFrame.
Proof. split_and!; vm_compute; (discriminate || reflexivity). Qed.

Lemma lampStack_wf : adapter_wf (transport_ lampStack).
Proof. split_and!; vm_compute; lia. Qed.

Lemma request_frame_answered_witness :
  let local := localOperation 261 lampRequest 1 lampSurroundings lampDevice in
  let out := answerOperation (P := port) lampParsed lampSurroundings
               (lampStack, (lampPort, lampDevice)) in
  (∃ g, ro_action out.1 = HOST_RESPONSE_HANDOFF
   ∧ unsent (transport_ out.2.1) = wire g
   ∧ decodeFrame (Some (wire g)) (length (wire g)) zeroFrame = (DECODE_OK, g)
   ∧ messageType g = MessageType.OPERATION_RESPONSE
   ∧ HostProtocol.requestId g = 261 ∧ minor g = 1
   ∧ (∀ r0, decodeOperationResponseM 1 (Some (take (Z.to_nat (payloadLength g)) (payload g)))
              (payloadLength g) r0
            = (HostProtocolRecords.OK, HostOperationService.response local.1))
   ∧ out.2.2 = (lampPort, local.2)
   ∧ framesAccepted (diagnostics_ out.2.1) = saturatingAdd (framesAccepted (diagnostics_ lampStack)) 1)
  ∧ out.2.2.2.1.2.2 = 1.
Proof.
  intros local out. split; [|vm_compute; reflexivity].
  assert (Hdec : decodeOperationRequestM (minor lampFrame) (Some (payload lampFrame))
    (payloadLength lampFrame) RadioOperationBridge.zeroRequest
    = (HostProtocolRecords.OK, lampRequest)) by (vm_compute; reflexivity).
  exact (request_frame_answered (P := port) lampParsed lampSurroundings lampRequest lampStack lampPort
    lampDevice eq_refl lampFrame_wf lampFrame_valid eq_refl eq_refl Hdec eq_refl eq_refl
    HostServiceFacts.device_wf HostServiceFacts.lamp_registry_wf lampStack_wf eq_refl eq_refl
    ltac:(done) (or_introl eq_refl)).
Defined.

Definition readAgain (sx : Stack * (port * @Device Z LedgerLife.Shelf)) :=
  (serviceRx lampSurroundings false 140 sx).2.

Lemma reads_reach n sx : rtc role_step sx (Nat.iter n readAgain sx).
Proof.
  induction n as [|n IH]; [apply rtc_refl|]. cbn [Nat.iter nat_rect].
  eapply rtc_r; [exact IH|]. apply role_rx.
Qed.

Lemma frames_tallied_witness :
  let out := Nat.iter 20 readAgain (lampStack, (lampPort, lampDevice)) in
  let c := diagnostics_ out.1 in
  (framesReceived c = framesAccepted c + malformedFrames c + unsupportedVersions c
                      + unsupportedMessageTypes c)
  ∧ framesReceived c = 1.
Proof.
  intros out c. assert (E : framesReceived c = 1) by (vm_compute; reflexivity).
  split; [|exact E].
  assert (Hr : rtc role_step (lampStack, (lampPort, lampDevice)) (out.1, out.2))
    by (rewrite <- surjective_pairing; apply reads_reach).
  exact (frames_tallied (zeros 139) (zeros 140) true (lampPort, lampDevice) out.2 out.1 Hr
    ltac:(fold c; rewrite E; reflexivity)).
Defined.

(** The host asks for an operation that does not exist. *)
Definition unknownFrame : Frame :=
  mkFrame 0 1 MessageType.OPERATION_REQUEST 0 7 7 ([1; 99; 2; 0; 0; 0; 0] ++ zeros 121).

Lemma unreadable_request_unanswered_witness :
  let parsed := mkStream 1 FRAME_READY DECODE_OK unknownFrame in
  let s := lampStack in let x := (lampPort, lampDevice) in
  (answerFrame parsed lampSurroundings false (s, x)
   = (zeroRoleResult, (observe (observeFrame parsed BOUNDARY_MALFORMED) s, x))
   ∧ malformedFrames (observeFrame parsed BOUNDARY_MALFORMED (diagnostics_ s))
     = saturatingAdd (malformedFrames (diagnostics_ s)) 1)
  ∧ frame_valid unknownFrame.
Proof.
  intros parsed s x. split; [|split_and!; vm_compute; (discriminate || reflexivity)].
  assert (Hdec : decodeOperationRequestM (minor unknownFrame) (Some (payload unknownFrame))
    (payloadLength unknownFrame) RadioOperationBridge.zeroRequest
    = (HostProtocolRecords.UNKNOWN_OPERATION, RadioOperationBridge.zeroRequest))
    by (vm_compute; reflexivity).
  exact (unreadable_request_unanswered parsed lampSurroundings false s x _ _ eq_refl eq_refl Hdec
    ltac:(done)).
Defined.

End RoleFacts.
