(* ===== verification/Input.v ===== *)
(** * The button, and the producers of events

    [DeviceInput] is device_input.h: the debounced button and the gestures it
    reports.  [EventProducers] is event_producers.h: what turns gestures and a
    sensor's samples into events.  [NodeEventCreation] is node_event_creation.h and
    node_event_service_time.h: the sink the Node's producers write to, and the
    calls of the controller at a freshly sampled time.  Facts are in
    InputFacts.v. *)

From S2P Require Import Prelude EventWire Records Identity Diagnostics NodeStore Delivery.

Module DeviceInput.

(* device_input.h:7-14 ButtonEvent *)
Inductive ButtonEvent := NONE | PRESS | RELEASE | SHORT_PRESS | LONG_PRESS | VERY_LONG_PRESS.

#[export] Instance ButtonEvent_eq_dec : EqDecision ButtonEvent.
Proof. solve_decision. Defined.

(** [static_cast<uint8_t>] of a button event. *)
(* device_input.h:7-14 = ButtonEvent, the values *)
Definition eventCode (event : ButtonEvent) : Z :=
  match event with
  | NONE => 0 | PRESS => 1 | RELEASE => 2 | SHORT_PRESS => 3 | LONG_PRESS => 4
  | VERY_LONG_PRESS => 5
  end.

(* device_input.h:18-21 ButtonEvents *)
Record ButtonEvents := mkEvents { first : ButtonEvent; second : ButtonEvent }.

(* device_input.h:18-21 = ButtonEvents, initial values *)
Definition noEvents : ButtonEvents := mkEvents NONE NONE.

(* device_input.h:23-26 ButtonSnapshot *)
Record ButtonSnapshot := mkSnapshot { available : bool; pressed : bool }.

(* device_input.h:140-150 = Button fields *)
Record Button := mkButton {
  debounceMs_ : Z;
  longPressMs_ : Z;
  veryLongPressMs_ : Z;
  initialized_ : bool;
  armed_ : bool;
  stablePressed_ : bool;
  candidatePressed_ : bool;
  longPressEmitted_ : bool;
  veryLongPressEmitted_ : bool;
  candidateSinceMs_ : Z;
  pressSinceMs_ : Z
}.

#[export] Instance eta_Button : RecEta Button := λ b,
  mkButton (debounceMs_ b) (longPressMs_ b) (veryLongPressMs_ b) (initialized_ b) (armed_ b)
    (stablePressed_ b) (candidatePressed_ b) (longPressEmitted_ b) (veryLongPressEmitted_ b)
    (candidateSinceMs_ b) (pressSinceMs_ b).

(* device_input.h:30-37 Button::Button *)
Definition newButton (debounceMs longPressMs veryLongPressMs : Z) : Button :=
  mkButton debounceMs longPressMs veryLongPressMs false false false false false false 0 0.

(* device_input.h:110-112 Button::elapsed *)
Definition elapsed (nowMs sinceMs : Z) : Z := u32 (nowMs - sinceMs).

(* device_input.h:114-120 Button::append *)
Definition append (event : ButtonEvent) (events : ButtonEvents) : ButtonEvents :=
  if bool_decide (first events = NONE) then mkEvents event (second events) else
  if bool_decide (second events = NONE) then mkEvents (first events) event else
  events.

(* device_input.h:122-138 Button::updateStartupHeldState *)
Definition updateStartupHeldState (pressed : bool) (nowMs : Z) (b : Button) : Button :=
  if pressed then b <| candidatePressed_ := true |> <| candidateSinceMs_ := nowMs |> else
  let b := if candidatePressed_ b
           then b <| candidatePressed_ := false |> <| candidateSinceMs_ := nowMs |> else b in
  if debounceMs_ b <=? elapsed nowMs (candidateSinceMs_ b)
  then b <| stablePressed_ := false |> <| armed_ := true |> else b.

(** The level of the input, debounced. *)
(* device_input.h:56-79 = Button::update, the stable level *)
Definition debounce (pressed : bool) (nowMs : Z) : st Button ButtonEvents := λ b,
  if eqb pressed (stablePressed_ b) then
    (noEvents,
     b <| candidatePressed_ := stablePressed_ b |> <| candidateSinceMs_ := nowMs |>)
  else
    let b := if negb (eqb (candidatePressed_ b) pressed)
             then b <| candidatePressed_ := pressed |> <| candidateSinceMs_ := nowMs |> else b in
    if debounceMs_ b <=? elapsed nowMs (candidateSinceMs_ b) then
      let b := b <| stablePressed_ := pressed |> in
      if pressed then
        (mkEvents PRESS NONE,
         b <| pressSinceMs_ := nowMs |> <| longPressEmitted_ := false |>
           <| veryLongPressEmitted_ := false |>)
      else (mkEvents RELEASE (if negb (longPressEmitted_ b) then SHORT_PRESS else NONE), b)
    else (noEvents, b).

(** A press that is held reports that it is long, and that it is very long. *)
(* device_input.h:81-97 = Button::update, long presses *)
Definition holdEvents (nowMs : Z) (events : ButtonEvents) : st Button ButtonEvents := λ b,
  let (events, b) :=
    if stablePressed_ b && negb (longPressEmitted_ b)
       && (longPressMs_ b <=? elapsed nowMs (pressSinceMs_ b))
    then (append LONG_PRESS events, b <| longPressEmitted_ := true |>) else (events, b) in
  if stablePressed_ b && negb (veryLongPressEmitted_ b)
     && (veryLongPressMs_ b <=? elapsed nowMs (pressSinceMs_ b))
  then (append VERY_LONG_PRESS events, b <| veryLongPressEmitted_ := true |>) else (events, b).

(* device_input.h:39-100 Button::update *)
Definition update (pressed : bool) (nowMs : Z) : st Button ButtonEvents := λ b,
  if negb (initialized_ b) then
    (noEvents,
     b <| initialized_ := true |> <| stablePressed_ := pressed |> <| candidatePressed_ := pressed |>
       <| candidateSinceMs_ := nowMs |> <| armed_ := negb pressed |>) else
  if negb (armed_ b) then (noEvents, updateStartupHeldState pressed nowMs b) else
  bind (debounce pressed nowMs) (holdEvents nowMs) b.

(* device_input.h:102-107 Button::snapshot *)
Definition snapshot (b : Button) : ButtonSnapshot :=
  let available := initialized_ b && armed_ b in
  mkSnapshot available (available && stablePressed_ b).

End DeviceInput.

Module EventProducers.

Import DeviceInput.

(* event_producers.h:14 PRODUCER_FLAGS *)
Definition PRODUCER_FLAGS : Z := 0.

(* event_producers.h:15 PRODUCER_LIFETIME_SECONDS *)
Definition PRODUCER_LIFETIME_SECONDS : Z := 3600.

(* event_producers.h:17-22 CreationResult *)
Inductive CreationResult := ENQUEUED | QUEUE_FULL | INVALID_EVENT | STORAGE_FAILURE.

#[export] Instance CreationResult_eq_dec : EqDecision CreationResult.
Proof. solve_decision. Defined.

(* event_producers.h:24-28 CreationSink *)
Class CreationSink (W : Type) := {
  create : NodeEventStore.EventInput → st W CreationResult
}.

(* event_producers.h:30-44 normalize *)
Definition normalize (status : NodeEventStore.EnqueueStatus) : CreationResult :=
  match status with
  | NodeEventStore.ENQUEUED => ENQUEUED
  | NodeEventStore.QUEUE_FULL => QUEUE_FULL
  | NodeEventStore.ENQUEUE_INVALID_EVENT => INVALID_EVENT
  | _ => STORAGE_FAILURE
  end.

(* event_producers.h:46-60 diagnosticResult *)
Definition diagnosticResult (result : CreationResult) : RuntimeState.EventProducerResult :=
  match result with
  | ENQUEUED => RuntimeState.CREATED
  | QUEUE_FULL => RuntimeState.QUEUE_FULL
  | INVALID_EVENT => RuntimeState.INVALID_EVENT
  | STORAGE_FAILURE => RuntimeState.STORAGE_FAILURE
  end.

(* event_producers.h:77-79 = StoreCreationSink fields *)
Record StoreCreationSink := mkStoreSink {
  lastResultAvailable_ : bool;
  lastResult_ : NodeEventStore.EnqueueResult
}.

(* event_producers.h:77-79 = StoreCreationSink, initial values *)
Definition newStoreSink : StoreCreationSink :=
  mkStoreSink false
    (NodeEventStore.mkEnqueueResult NodeEventStore.ENQUEUED NodeEventStore.noIdentity 0%nat).

(** The sink that enqueues in a store. *)
(* event_producers.h:66-70 StoreCreationSink::create *)
Definition createInStore {W} `{NodeEventStore.Storage W} `{EventIdentity.EntropySource W}
    (input : NodeEventStore.EventInput) : st (StoreCreationSink * (NodeEventStore.Store * W)) CreationResult :=
  enqueued <~ outside (NodeEventStore.enqueue input) ;;
  Prelude.update (λ _, mkStoreSink true enqueued) ;;;
  ret (normalize (NodeEventStore.enqueue_status enqueued)).

#[export] Instance storeCreate {W} `{NodeEventStore.Storage W} `{EventIdentity.EntropySource W}
    : CreationSink (StoreCreationSink * (NodeEventStore.Store * W)) := {
  create := createInStore
}.

(* event_producers.h:83-86 Emission *)
Record Emission := mkEmission { attempted : bool; em_result : CreationResult }.

(* event_producers.h:88-90 noEmission *)
Definition noEmission : Emission := mkEmission false INVALID_EVENT.

(** [makeInput], with the length and the bytes its caller puts in. *)
(* event_producers.h:92-98 makeInput *)
Definition makeInput (family bodyLength : Z) (body : list Z) : NodeEventStore.EventInput :=
  NodeEventStore.mkInput family PRODUCER_FLAGS PRODUCER_LIFETIME_SECONDS bodyLength
    (copy_bytes (length body) (zeros 12) 0 body 0).

(* event_producers.h:119-124 ButtonContext *)
Record ButtonContext := mkContext {
  displayAwake : bool;
  editorActive : bool;
  homeScreen : bool;
  buttonEventSelected : bool
}.

(* event_producers.h:126-130 ButtonProductionResult *)
Record ButtonProductionResult := mkProduction {
  pr_button : Emission;
  pr_manualCheckIn : Emission;
  buttonSuppressed : bool
}.

#[export] Instance eta_ButtonProductionResult : RecEta ButtonProductionResult := λ r,
  mkProduction (pr_button r) (pr_manualCheckIn r) (buttonSuppressed r).

(* event_producers.h:191-195 = ButtonProducer fields *)
Record ButtonProducer := mkProducer {
  gestureEligible_ : bool;
  gestureSuppressed_ : bool;
  manualEligible_ : bool;
  longObserved_ : bool;
  veryLongObserved_ : bool
}.

#[export] Instance eta_ButtonProducer : RecEta ButtonProducer := λ p,
  mkProducer (gestureEligible_ p) (gestureSuppressed_ p) (manualEligible_ p) (longObserved_ p)
    (veryLongObserved_ p).

(* event_producers.h:191-195 = ButtonProducer, initial values *)
Definition newProducer : ButtonProducer := mkProducer false false false false false.

(* event_producers.h:198-204 ThresholdPolicy *)
Record ThresholdPolicy := mkThreshold {
  capabilityId : Z;
  valueType : Z;
  thresholdBits : Z;
  hysteresisBits : Z;
  relation : Z
}.

(* event_producers.h:273-275 = SensorThresholdProducer fields *)
Record SensorThresholdProducer := mkSensor {
  policy_ : ThresholdPolicy;
  sensorInitialized_ : bool;
  sensorArmed_ : bool
}.

#[export] Instance eta_SensorThresholdProducer : RecEta SensorThresholdProducer := λ s,
  mkSensor (policy_ s) (sensorInitialized_ s) (sensorArmed_ s).

(* event_producers.h:208 SensorThresholdProducer::SensorThresholdProducer *)
Definition newSensor (policy : ThresholdPolicy) : SensorThresholdProducer :=
  mkSensor policy false false.

(* event_producers.h:246-250 validObserved *)
Definition validObserved (policy : ThresholdPolicy) (bits : Z) : bool :=
  (negb (valueType policy =? EventProtocol.SensorValueType.NORMALIZED_U16)
   && negb (valueType policy =? EventProtocol.SensorValueType.ENUM_U16))
  || (Z.land bits 4294901760 =? 0).

(* event_producers.h:239-245 validPolicy *)
Definition validPolicy (policy : ThresholdPolicy) : bool :=
  if (capabilityId policy =? 0)
     || negb (EventProtocol.isValidSensorValueType (valueType policy))
     || negb (EventProtocol.isValidThresholdRelation (relation policy)) then false else
  validObserved policy (thresholdBits policy).

(** An [int64_t], which holds every value of 32 bits. *)
(* event_producers.h:265-271 numericValue *)
Definition numericValue (policy : ThresholdPolicy) (bits : Z) : Z :=
  if (valueType policy =? EventProtocol.SensorValueType.SIGNED_32)
     || (valueType policy =? EventProtocol.SensorValueType.FIXED_Q16_16)
  then sint32 bits else bits.

(* event_producers.h:251-256 isActive *)
Definition isActive (policy : ThresholdPolicy) (value : Z) : bool :=
  let observed := numericValue policy value in
  let threshold := numericValue policy (thresholdBits policy) in
  if relation policy =? EventProtocol.ThresholdRelation.CROSSED_ABOVE
  then threshold <? observed else observed <? threshold.

(* event_producers.h:257-264 isRearmed *)
Definition isRearmed (policy : ThresholdPolicy) (value : Z) : bool :=
  let observed := numericValue policy value in
  let threshold := numericValue policy (thresholdBits policy) in
  let hysteresis := hysteresisBits policy in
  if relation policy =? EventProtocol.ThresholdRelation.CROSSED_ABOVE
  then observed <=? threshold - hysteresis else threshold + hysteresis <=? observed.

(** The event of a crossing. *)
(* event_producers.h:227-235 = SensorThresholdProducer::observe, the event *)
Definition sensorInput (policy : ThresholdPolicy) (observedBits : Z) : NodeEventStore.EventInput :=
  makeInput EventProtocol.Family.SENSOR_THRESHOLD 8
    ([u8 (Z.land (capabilityId policy) 255); u8 (Z.shiftr (capabilityId policy) 8);
      valueType policy] ++ le32 observedBits ++ [relation policy]).

Section Produce.

Context {W : Type} `{CreationSink W}.

(* event_producers.h:100-109 emitButton *)
Definition emitButton (event : ButtonEvent) : st W Emission :=
  if bool_decide (event = NONE) then ret noEmission else
  let value := eventCode event in
  if negb (EventProtocol.isValidButtonEvent value) then ret noEmission else
  created <~ create (makeInput EventProtocol.Family.BUTTON 1 [value]) ;;
  ret (mkEmission true created).

(* event_producers.h:111-117 emitManualCheckIn *)
Definition emitManualCheckIn : st W Emission :=
  created <~ create (makeInput EventProtocol.Family.MANUAL_CHECK_IN 1 [EventProtocol.USER_REQUEST]) ;;
  ret (mkEmission true created).

(** One event of the button; the result so far goes in and comes out. *)
(* event_producers.h:150-189 ButtonProducer::observeOne *)
Definition observeOne (event : ButtonEvent) (context : ButtonContext)
    (result : ButtonProductionResult) : st (ButtonProducer * W) ButtonProductionResult :=
  match event with
  | PRESS =>
      let eligible := buttonEventSelected context && displayAwake context
                      && negb (editorActive context) in
      Prelude.update (λ _, mkProducer eligible (buttonEventSelected context && negb eligible)
        (displayAwake context && negb (editorActive context) && homeScreen context) false false) ;;;
      ret result
  | SHORT_PRESS =>
      p <~ this id ;;
      result <~ (if gestureEligible_ p
                 then emitted <~ outside (emitButton event) ;;
                      ret (result <| pr_button := emitted |>)
                 else ret (if gestureSuppressed_ p then result <| buttonSuppressed := true |>
                           else result)) ;;
      Prelude.update (λ p, p <| gestureEligible_ := false |> <| gestureSuppressed_ := false |>
                             <| manualEligible_ := false |>) ;;;
      ret result
  | LONG_PRESS =>
      Prelude.update (λ p, if manualEligible_ p then p <| longObserved_ := true |> else p) ;;;
      ret result
  | VERY_LONG_PRESS =>
      Prelude.update (λ p, p <| veryLongObserved_ := true |> <| manualEligible_ := false |>) ;;;
      ret result
  | RELEASE =>
      p <~ this id ;;
      result <~ (if manualEligible_ p && longObserved_ p && negb (veryLongObserved_ p)
                 then emitted <~ outside emitManualCheckIn ;;
                      ret (result <| pr_manualCheckIn := emitted |>)
                 else ret result) ;;
      Prelude.update (λ p, mkProducer (if longObserved_ p then false else gestureEligible_ p)
        false false false false) ;;;
      ret result
  | NONE => ret result
  end.

(* event_producers.h:138-147 ButtonProducer::observe *)
Definition observe (events : ButtonEvents) (context : ButtonContext)
    : st (ButtonProducer * W) ButtonProductionResult :=
  result <~ observeOne (first events) context (mkProduction noEmission noEmission false) ;;
  observeOne (second events) context result.

(* event_producers.h:210-236 SensorThresholdProducer::observe *)
Definition observeSensor (available : bool) (observedBits : Z)
    : st (SensorThresholdProducer * W) Emission :=
  s <~ this id ;;
  let policy := policy_ s in
  if negb available || negb (validPolicy policy) || negb (validObserved policy observedBits)
  then ret noEmission else
  let active := isActive policy observedBits in
  if negb (sensorInitialized_ s) then
    Prelude.update (λ s, s <| sensorInitialized_ := true |> <| sensorArmed_ := negb active |>) ;;;
    ret noEmission else
  if negb (sensorArmed_ s) then
    Prelude.update (λ s, if isRearmed policy observedBits then s <| sensorArmed_ := true |> else s) ;;;
    ret noEmission else
  if negb active then ret noEmission else
  Prelude.update (λ s, s <| sensorArmed_ := false |>) ;;;
  created <~ outside (create (sensorInput policy observedBits)) ;;
  ret (mkEmission true created).

End Produce.

End EventProducers.

Module NodeEventCreation.

Import EventProducers.

(** [clock_()]: the time at the moment of the call. *)
(* node_event_creation.h:10-14 = TrackedCreationSink, the clock *)
Class Clock (W : Type) := { clock : st W Z }.

Section Creation.

Context {W : Type} `{NodeEventStore.Storage W} `{EventIdentity.EntropySource W}
  `{NodeEventDelivery.SequenceSource W} `{NodeEventDelivery.JitterSource W} `{Clock W}.

(** The sink and the controller, whose store the sink writes to. *)
Abbreviation M := (st (StoreCreationSink * (NodeEventDelivery.Controller * W))).

Definition onStore {X} (m : st (StoreCreationSink * (NodeEventStore.Store * W)) X) : M X :=
  zoom (λ s, (s.1, (NodeEventDelivery.store_ s.2.1, s.2.2)))
    (λ t s, (t.1, ((s.2.1) <| NodeEventDelivery.store_ := t.2.1 |>, t.2.2))) m.

(* node_event_creation.h:16-28 TrackedCreationSink::create *)
Definition createTracked (input : NodeEventStore.EventInput) : M CreationResult :=
  controller <~ gets (λ s, s.2.1) ;;
  if NodeEventDelivery.degraded_ controller then ret STORAGE_FAILURE else
  created <~ onStore (create input) ;;
  if negb (bool_decide (created = ENQUEUED)) then ret created else
  last <~ gets (λ s, lastResult_ s.1) ;;
  now <~ outside (outside clock) ;;
  tracked <~ outside
    (NodeEventDelivery.trackEnqueued (NodeEventStore.enqueue_slot last) (u32 now)) ;;
  if negb (bool_decide (tracked = NodeEventDelivery.OK)) then ret STORAGE_FAILURE else
  ret ENQUEUED.

#[export] Instance TrackedCreationSink
  : CreationSink (StoreCreationSink * (NodeEventDelivery.Controller * W)) := {
  create := createTracked
}.

(* node_event_service_time.h:7-10 ServiceTick *)
Record ServiceTick := mkTick { tick_now : Z; tick_result : NodeEventDelivery.ControllerResult }.

(* node_event_service_time.h:15-19 serviceNow *)
Definition serviceNow (synchronousWork : bool) : st (NodeEventDelivery.Controller * W) ServiceTick :=
  now <~ outside clock ;;
  result <~ NodeEventDelivery.service (u32 now) synchronousWork ;;
  ret (mkTick (u32 now) result).

(* node_event_service_time.h:23-26 txCompletedNow *)
Definition txCompletedNow : st (NodeEventDelivery.Controller * W) NodeEventDelivery.ControllerResult :=
  now <~ outside clock ;;
  NodeEventDelivery.txCompleted (u32 now).

End Creation.

End NodeEventCreation.
