(* ===== verification/InputFacts.v ===== *)
(** * What the button and the producers report

    Every run of the button reports whole gestures, each change of level backed by
    samples that agree for the debounce time; the producers turn a gesture into at
    most one event, and a sensor's crossing into one event until it has come back
    by the hysteresis.  The Node's sink reports a creation only for an event that
    is in the store and whose lifetime runs. *)

From S2P Require Import Prelude EventWire Records Identity Diagnostics NodeStore Delivery Input.

Module InputFacts.

Import DeviceInput.

(** ** Runs of the button *)

Abbreviation sample := (bool * Z)%type.

Fixpoint sampleAll (l : list sample) : st Button (list ButtonEvents) :=
  match l with
  | [] => ret []
  | (pressed, now) :: l' =>
      events <~ update pressed now ;;
      rest <~ sampleAll l' ;;
      ret (events :: rest)
  end.

Lemma sampleAll_app l1 l2 b :
  sampleAll (l1 ++ l2) b
  = let r1 := sampleAll l1 b in let r2 := sampleAll l2 r1.2 in (r1.1 ++ r2.1, r2.2).
Proof.
  revert b. induction l1 as [|[p t] l1 IH]; intros b; cbn [sampleAll app].
  - cbn. by destruct (sampleAll l2 b).
  - unfold bind, ret. rewrite IH. cbn. done.
Qed.

(** ** Gestures

    What may be reported, one event after the other: a press, then at most one
    long and one very long press, then the release, followed by a short press
    exactly if there was no long one. *)

Inductive phase := Idle | Held (long very : bool) | LetGo.

Definition next (p : phase) (event : ButtonEvent) : option phase :=
  match p, event with
  | _, NONE => Some p
  | Idle, PRESS => Some (Held false false)
  | Held false v, LONG_PRESS => Some (Held true v)
  | Held l false, VERY_LONG_PRESS => Some (Held l true)
  | Held l _, RELEASE => Some (if l then Idle else LetGo)
  | LetGo, SHORT_PRESS => Some Idle
  | _, _ => None
  end.

Fixpoint accepts (p : phase) (l : list ButtonEvent) : option phase :=
  match l with
  | [] => Some p
  | event :: l' => match next p event with Some q => accepts q l' | None => None end
  end.

Lemma accepts_app p q l1 l2 : accepts p l1 = Some q → accepts p (l1 ++ l2) = accepts q l2.
Proof.
  revert p. induction l1 as [|e l1 IH]; intros p; cbn [accepts app]; [by intros [= ->]|].
  destruct (next p e); [apply IH|done].
Qed.

Definition both (e : ButtonEvents) : list ButtonEvent := [first e; second e].

Definition trace (l : list ButtonEvents) : list ButtonEvent := concat (map both l).

(** The phase the button is in. *)

Definition in_phase (b : Button) (p : phase) : Prop :=
  if initialized_ b && armed_ b && stablePressed_ b
  then ∃ very, p = Held (longPressEmitted_ b) very ∧ (very = true → veryLongPressEmitted_ b = true)
  else p = Idle.

#[local] Arguments elapsed : simpl never.
#[local] Opaque elapsed.

Ltac fields :=
  unfold rec_set, noEvents;
  cbn [debounceMs_ longPressMs_ veryLongPressMs_ initialized_ armed_ stablePressed_ candidatePressed_
    longPressEmitted_ veryLongPressEmitted_ candidateSinceMs_ pressSinceMs_ fst snd first second
    andb negb eqb].

Lemma hold_phase now e b p :
  initialized_ b && armed_ b = true →
  match e with
  | mkEvents NONE NONE => in_phase b p
  | mkEvents PRESS NONE => stablePressed_ b = true ∧ longPressEmitted_ b = false
      ∧ veryLongPressEmitted_ b = false ∧ p = Idle
  | mkEvents RELEASE x => stablePressed_ b = false
      ∧ ∃ l v, p = Held l v ∧ x = if l then NONE else SHORT_PRESS
  | _ => False
  end →
  ∃ q, accepts p (both (holdEvents now e b).1) = Some q ∧ in_phase (holdEvents now e b).2 q.
Proof.
  destruct b as [d l v i a s c le ve cs ps]. unfold holdEvents, in_phase.
  cbn [initialized_ armed_ stablePressed_ longPressEmitted_ veryLongPressEmitted_ longPressMs_
    veryLongPressMs_ pressSinceMs_].
  intros Hon He. destruct s; cbn [andb].
  - destruct (negb le && (l <=? elapsed now ps)) eqn:E1; unfold rec_set;
      cbn [veryLongPressEmitted_ veryLongPressMs_ pressSinceMs_ stablePressed_ andb];
      destruct (negb ve && (v <=? elapsed now ps)) eqn:E2; unfold rec_set;
      cbn [fst snd initialized_ armed_ stablePressed_ longPressEmitted_ veryLongPressEmitted_];
      rewrite Hon; cbn [andb];
      first [apply andb_true_iff in E1 as [E1%negb_true_iff _]; subst le|clear E1];
      first [apply andb_true_iff in E2 as [E2%negb_true_iff _]; subst ve|clear E2];
      destruct e as [[] []]; try done; cbn [first second];
      repeat match goal with
        | H : _ ∧ _ |- _ => destruct H
        | H : ∃ _, _ |- _ => destruct H
        | H : (if ?b then _ else _) |- _ => rewrite Hon in H; cbn [andb] in H
        end; subst; try done.
    all: try (destruct x; [try (exfalso; naive_solver; fail)|]); try destruct le;
      (eexists; split; [reflexivity|]; eexists; split; [reflexivity|auto]).
  - cbn [fst snd initialized_ armed_ stablePressed_ andb]. rewrite !andb_false_r in *.
    destruct e as [[] x]; try done.
    + destruct x; try done. subst p. by exists Idle.
    + by destruct x, He.
    + destruct He as (_ & l' & v' & -> & ->). by destruct l', v'; exists Idle || exists LetGo.
Qed.

(** What debouncing does to the level.  [b1] is the button after the new candidate. *)

Definition candidate (pressed : bool) (now : Z) (b : Button) : Button :=
  if negb (eqb (candidatePressed_ b) pressed)
  then b <| candidatePressed_ := pressed |> <| candidateSinceMs_ := now |> else b.

Lemma candidate_keeps pressed now b :
  let c := candidate pressed now b in
  initialized_ c = initialized_ b ∧ armed_ c = armed_ b ∧ stablePressed_ c = stablePressed_ b
  ∧ longPressEmitted_ c = longPressEmitted_ b ∧ veryLongPressEmitted_ c = veryLongPressEmitted_ b
  ∧ debounceMs_ c = debounceMs_ b ∧ longPressMs_ c = longPressMs_ b
  ∧ veryLongPressMs_ c = veryLongPressMs_ b ∧ pressSinceMs_ c = pressSinceMs_ b
  ∧ candidatePressed_ c = pressed.
Proof.
  unfold candidate. destruct (candidatePressed_ b) eqn:E, pressed; cbn [negb eqb]; fields; by rewrite ?E.
Qed.

(** When the level [pressed] was first seen, if it is not the stable one. *)

Definition since (pressed : bool) (now : Z) (b : Button) : Z :=
  candidateSinceMs_ (candidate pressed now b).

Definition same_flags (b c : Button) : Prop :=
  longPressEmitted_ c = longPressEmitted_ b ∧ veryLongPressEmitted_ c = veryLongPressEmitted_ b
  ∧ pressSinceMs_ c = pressSinceMs_ b.

Lemma debounce_cases pressed now b :
  let out := debounce pressed now b in
  initialized_ out.2 = initialized_ b ∧ armed_ out.2 = armed_ b
  ∧ (longPressMs_ out.2 = longPressMs_ b ∧ veryLongPressMs_ out.2 = veryLongPressMs_ b
     ∧ debounceMs_ out.2 = debounceMs_ b)
  ∧ ((out.1 = noEvents ∧ stablePressed_ out.2 = stablePressed_ b ∧ same_flags b out.2
      ∧ ((pressed = stablePressed_ b ∧ candidatePressed_ out.2 = stablePressed_ b)
         ∨ (candidatePressed_ out.2 = pressed ∧ stablePressed_ b = negb pressed
            ∧ candidateSinceMs_ out.2 = since pressed now b
            ∧ (debounceMs_ b <=? elapsed now (since pressed now b)) = false)))
     ∨ (stablePressed_ b = negb pressed ∧ stablePressed_ out.2 = pressed
        ∧ candidatePressed_ out.2 = pressed
        ∧ (debounceMs_ b <=? elapsed now (since pressed now b)) = true
        ∧ ((pressed = true ∧ out.1 = mkEvents PRESS NONE ∧ longPressEmitted_ out.2 = false
            ∧ veryLongPressEmitted_ out.2 = false ∧ pressSinceMs_ out.2 = now)
           ∨ (pressed = false
              ∧ out.1 = mkEvents RELEASE (if longPressEmitted_ b then NONE else SHORT_PRESS))))).
Proof.
  cbv zeta. unfold debounce, same_flags, since. destruct (eqb pressed (stablePressed_ b)) eqn:E.
  { fields. split_and!; [done..|]. left. split_and!; [done..|]. left.
    split; [by apply eqb_prop|done]. }
  cbv zeta. fold (candidate pressed now b).
  destruct (candidate_keeps pressed now b) as (H1 & H2 & H3 & H4 & H5 & H6 & H7 & H8 & H9 & H10).
  set (c := candidate pressed now b) in *. clearbody c.
  assert (Hs : stablePressed_ b = negb pressed) by (by destruct pressed, (stablePressed_ b)).
  rewrite H6. destruct (debounceMs_ b <=? elapsed now (candidateSinceMs_ c)) eqn:El.
  - destruct pressed; fields; rewrite ?H1, ?H2, ?H4, ?H6, ?H7, ?H8, ?H10, Hs; (split; [done|]);
      (split; [done|]); (split; [done|]); right; (split; [done|]); (split; [done|]); (split; [done|]);
      (split; [done|]); [by left|right]. by destruct (longPressEmitted_ b).
  - fields. rewrite H1, H2, H3, H4, H5, H6, H7, H8, H9, H10. split_and!; [done..|].
    left. split_and!; [done..|]. by right.
Qed.

Lemma debounce_phase pressed now b p :
  initialized_ b && armed_ b = true → in_phase b p →
  ∃ q, accepts p (both (holdEvents now (debounce pressed now b).1 (debounce pressed now b).2).1) = Some q
       ∧ in_phase (holdEvents now (debounce pressed now b).1 (debounce pressed now b).2).2 q.
Proof.
  intros Hon Hp. destruct (debounce_cases pressed now b) as (Hi & Ha & _ & Hc).
  destruct (debounce pressed now b) as [e b']. cbn [fst snd] in *.
  apply hold_phase; [by rewrite Hi, Ha|]. unfold in_phase in *. rewrite Hon in Hp. cbn [andb] in Hp.
  destruct Hc as [(-> & Hs & (Hl & Hv & _) & _)
    |(Hs & Hs' & _ & _ & [(-> & -> & Hl & Hv & _)|(-> & ->)])].
  - unfold noEvents. by rewrite Hi, Ha, Hon, Hs, Hl, Hv.
  - by rewrite Hs in Hp.
  - rewrite Hs in Hp. destruct Hp as (very & -> & _). split; [done|]. by exists (longPressEmitted_ b), very.
Qed.

Lemma update_phase pressed now b p :
  in_phase b p →
  ∃ q, accepts p (both (update pressed now b).1) = Some q ∧ in_phase (update pressed now b).2 q.
Proof.
  intros Hp. unfold update. destruct (initialized_ b) eqn:Ei; cbn [negb].
  - destruct (armed_ b) eqn:Ea; cbn [negb].
    { apply debounce_phase; [by rewrite Ei, Ea|done]. }
    unfold in_phase in *. rewrite Ei, Ea in Hp. cbn in Hp. subst p. exists Idle. split; [done|].
    unfold updateStartupHeldState. destruct pressed; cbn [fst snd].
    + fields. rewrite Ei, Ea. by cbn [andb].
    + cbv zeta. destruct (candidatePressed_ b); fields; destruct (_ <=? _);
        fields; rewrite Ei, ?Ea; by cbn [andb].
  - unfold in_phase in *. rewrite Ei in Hp. cbn in Hp. subst p. exists Idle. split; [done|].
    fields. by destruct pressed; cbn [andb].
Qed.

(** ** The samples behind a report *)

Definition history (l : list sample) (b : Button) : list (sample * ButtonEvents) :=
  zip l (sampleAll l b).1.

Lemma sampleAll_length l b : length (sampleAll l b).1 = length l.
Proof.
  revert b. induction l as [|[p t] l IH]; intros b; cbn [sampleAll]; [done|].
  unfold bind, ret. cbn [fst length]. by rewrite IH.
Qed.

Lemma history_snoc l p now b :
  history (l ++ [(p, now)]) b
  = history l b ++ [((p, now), (update p now (sampleAll l b).2).1)].
Proof.
  unfold history. rewrite sampleAll_app. cbn [sampleAll]. unfold bind, ret. cbn [fst snd].
  rewrite zip_with_app by (by rewrite sampleAll_length). done.
Qed.

(** The level of the input at the last sample, and the time of the first sample of
    the unbroken run that is at this level. *)

Definition run_step (r : option sample) (x : sample) : option sample :=
  match r with
  | Some (p, t) => if eqb x.1 p then Some (p, t) else Some x
  | None => Some x
  end.

Definition level_since (l : list sample) : option sample := foldl run_step None l.

Lemma level_since_snoc l x : level_since (l ++ [x]) = run_step (level_since l) x.
Proof. unfold level_since. by rewrite foldl_app. Qed.

(** A press was reported at [since], and no release after it. *)

Definition held (since : Z) (h : list (sample * ButtonEvents)) : Prop :=
  ∃ h1 p e h2, h = h1 ++ ((p, since), e) :: h2 ∧ first e = PRESS
    ∧ Forall (λ x, RELEASE ∉ both x.2) ((p, since, e) :: h2).

Lemma held_snoc since h x : held since h → RELEASE ∉ both x.2 → held since (h ++ [x]).
Proof.
  intros (h1 & p & e & h2 & -> & He & Hf) Hx. exists h1, p, e, (h2 ++ [x]).
  split; [by rewrite <- app_assoc|]. split; [done|]. rewrite app_comm_cons.
  apply Forall_app. by split; [|constructor].
Qed.

(** What the button's fields remember of the samples. *)

Definition remembers (l : list sample) (h : list (sample * ButtonEvents)) (b : Button) : Prop :=
  initialized_ b && armed_ b = true →
  (∃ t, level_since l = Some (candidatePressed_ b, t)
        ∧ (candidatePressed_ b ≠ stablePressed_ b → t = candidateSinceMs_ b))
  ∧ (stablePressed_ b = true → held (pressSinceMs_ b) h).

(** Holding only adds the long presses, and remembers them. *)

Lemma hold_cases now e b :
  let out := holdEvents now e b in
  initialized_ out.2 = initialized_ b ∧ armed_ out.2 = armed_ b
  ∧ stablePressed_ out.2 = stablePressed_ b ∧ candidatePressed_ out.2 = candidatePressed_ b
  ∧ candidateSinceMs_ out.2 = candidateSinceMs_ b ∧ pressSinceMs_ out.2 = pressSinceMs_ b
  ∧ (first e ≠ NONE → first out.1 = first e) ∧ (RELEASE ∈ both out.1 → RELEASE ∈ both e)
  ∧ (PRESS ∈ both out.1 → PRESS ∈ both e)
  ∧ (LONG_PRESS ∈ both out.1 → LONG_PRESS ∉ both e →
     stablePressed_ b = true ∧ longPressMs_ b ≤ elapsed now (pressSinceMs_ b))
  ∧ (VERY_LONG_PRESS ∈ both out.1 → VERY_LONG_PRESS ∉ both e →
     stablePressed_ b = true ∧ veryLongPressMs_ b ≤ elapsed now (pressSinceMs_ b)).
Proof.
  assert (Hin : ∀ x y e, x ∈ both (append y e) → x = y ∨ x ∈ both e).
  { intros x y [f g]. unfold append, both. cbn [first second].
    repeat case_bool_decide; cbn [first second]; set_solver. }
  assert (Hfirst : ∀ y e, first e ≠ NONE → first (append y e) = first e).
  { intros y [f g] Hf. unfold append. cbn [first second] in *.
    rewrite bool_decide_false by done. by case_bool_decide. }
  cbv zeta. unfold holdEvents.
  destruct (stablePressed_ b && negb (longPressEmitted_ b)
            && (longPressMs_ b <=? elapsed now (pressSinceMs_ b))) eqn:E1; fields;
  destruct (stablePressed_ b && negb (veryLongPressEmitted_ b)
            && (veryLongPressMs_ b <=? elapsed now (pressSinceMs_ b))) eqn:E2; fields;
    (split_and!;
     [done|done|done|done|done|done
     |by intros Hf; repeat rewrite Hfirst by (rewrite ?Hfirst; done)
     |intros Hx; repeat (apply Hin in Hx as [Hx|Hx]; [done|]); done
     |intros Hx; repeat (apply Hin in Hx as [Hx|Hx]; [done|]); done
     |intros Hx Hn; repeat (apply Hin in Hx as [Hx|Hx]; [try done|]); try done; zbool; naive_solver lia
     |intros Hx Hn; repeat (apply Hin in Hx as [Hx|Hx]; [try done|]); try done; zbool; naive_solver lia]).
Qed.

Lemma candidate_since pressed now b l t :
  level_since l = Some (candidatePressed_ b, t) →
  (candidatePressed_ b ≠ stablePressed_ b → t = candidateSinceMs_ b) →
  stablePressed_ b = negb pressed →
  level_since (l ++ [(pressed, now)]) = Some (pressed, since pressed now b).
Proof.
  intros Hl Ht Hs. rewrite level_since_snoc, Hl. unfold since, candidate, run_step. cbn [fst].
  destruct (candidatePressed_ b) eqn:E, pressed; fields; rewrite ?Ht by (by rewrite Hs); done.
Qed.

(** The first sample, and the samples until the button is armed, report nothing. *)

Lemma starting pressed now b :
  initialized_ b && armed_ b = false →
  let out := update pressed now b in
  out.1 = noEvents
  ∧ (initialized_ out.2 && armed_ out.2 = true →
     pressed = false ∧ candidatePressed_ out.2 = false ∧ stablePressed_ out.2 = false).
Proof.
  intros Eon. cbv zeta. unfold update. destruct (initialized_ b) eqn:Ei; cbn [negb].
  - cbn [andb] in Eon. rewrite Eon. cbn [negb fst snd]. split; [done|]. unfold updateStartupHeldState.
    destruct pressed; [fields; by rewrite Eon, andb_false_r|].
    destruct (candidatePressed_ b) eqn:Ec; fields;
      match goal with |- context [if ?t then _ else _] => destruct t end; fields;
      rewrite ?Eon, ?andb_false_r, ?Ec; done.
  - fields. split; [done|]. by destruct pressed.
Qed.

Lemma update_remembers pressed now b l h :
  remembers l h b →
  let out := update pressed now b in
  remembers (l ++ [(pressed, now)]) (h ++ [((pressed, now), out.1)]) out.2.
Proof.
  intros Hr. cbv zeta. unfold update. destruct (initialized_ b && armed_ b) eqn:Eon.
  - destruct (Hr Eon) as [(t & Hc & Ht) Hh]. apply andb_true_iff in Eon as [-> ->]. cbn [negb]. intros _.
    unfold bind. destruct (debounce_cases pressed now b) as (Hi & Ha & _ & Hd).
    destruct (debounce pressed now b) as [e b1]. cbn [fst snd] in *.
    destruct (hold_cases now e b1) as (_ & _ & H3 & H4 & H5 & H6 & H7 & H8 & _).
    rewrite H3, H4, H5, H6.
    destruct Hd as [(He & Hs & (_ & _ & Hp) & Hcase)|(Hs & Hs' & Hc' & Hl & Hcase)].
    + split.
      * destruct Hcase as [[Ep Ec]|(Ec & Es & Et & _)].
        -- rewrite Ec, Hs, level_since_snoc, Hc, Ep. unfold run_step. cbn [fst].
           destruct (eqb (stablePressed_ b) (candidatePressed_ b)) eqn:Eq;
             [|eexists; split; [reflexivity|congruence]].
           apply eqb_prop in Eq. rewrite Eq. eexists; split; [reflexivity|congruence].
        -- rewrite Ec, Et, (candidate_since _ now _ _ _ Hc Ht Es). eexists; split; [reflexivity|congruence].
      * rewrite Hs, Hp. intros Est. apply held_snoc; [by apply Hh|]. cbn [snd]. intros Hin%H8.
        rewrite He in Hin. unfold noEvents, both in Hin. cbn [first second] in Hin. set_solver.
    + split; [rewrite Hs', Hc', (candidate_since _ now _ _ _ Hc Ht Hs); eexists; split;
             [reflexivity|congruence]|].
      rewrite Hs'. intros ->. destruct Hcase as [(_ & He & _ & _ & Hp)|[? _]]; [|done]. rewrite Hp.
      exists h, true, (holdEvents now e b1).1, []. split; [done|]. split; [rewrite H7; by rewrite He|].
      constructor; [|done]. cbn [snd]. intros Hin%H8. rewrite He in Hin.
      unfold both in Hin. cbn [first second] in Hin. set_solver.
  - intros Hon. fold (update pressed now b) in *. destruct (starting pressed now b Eon) as (_ & Hst).
    destruct (Hst Hon) as (-> & Hc & Hs). rewrite Hc, Hs. split; [|done].
    rewrite level_since_snoc. unfold run_step. cbn [fst].
    destruct (level_since l) as [[[] t]|]; cbn [eqb]; (eexists; split; [reflexivity|congruence]).
Qed.

(** ** The button after any samples *)

Lemma update_constants pressed now b :
  let b' := (update pressed now b).2 in
  debounceMs_ b' = debounceMs_ b ∧ longPressMs_ b' = longPressMs_ b
  ∧ veryLongPressMs_ b' = veryLongPressMs_ b.
Proof.
  assert (Hh : ∀ e c, let c' := (holdEvents now e c).2 in
    debounceMs_ c' = debounceMs_ c ∧ longPressMs_ c' = longPressMs_ c
    ∧ veryLongPressMs_ c' = veryLongPressMs_ c).
  { intros e c. cbv zeta. unfold holdEvents.
    destruct (stablePressed_ c && negb (longPressEmitted_ c)
              && (longPressMs_ c <=? elapsed now (pressSinceMs_ c))); fields;
    destruct (stablePressed_ c && negb (veryLongPressEmitted_ c)
              && (veryLongPressMs_ c <=? elapsed now (pressSinceMs_ c))); fields; done. }
  cbv zeta. unfold update. destruct (initialized_ b); [|done]. destruct (armed_ b); cbn [negb].
  - unfold bind. destruct (debounce_cases pressed now b) as (_ & _ & (H1 & H2 & H3) & _).
    specialize (Hh (debounce pressed now b).1 (debounce pressed now b).2) as (-> & -> & ->). done.
  - cbn [fst snd]. unfold updateStartupHeldState. destruct pressed; [done|].
    destruct (candidatePressed_ b); fields;
      match goal with |- context [if ?t then _ else _] => destruct t end; done.
Qed.

Definition ran (before : list sample) (b : Button) : Button := (sampleAll before b).2.

Lemma ran_snoc before pressed now b :
  ran (before ++ [(pressed, now)]) b = (update pressed now (ran before b)).2.
Proof. unfold ran. rewrite sampleAll_app. done. Qed.

Lemma ran_invariant before d l v :
  let b0 := newButton d l v in let b := ran before b0 in
  debounceMs_ b = d ∧ longPressMs_ b = l ∧ veryLongPressMs_ b = v
  ∧ remembers before (history before b0) b
  ∧ ∃ p, accepts Idle (trace (sampleAll before b0).1) = Some p ∧ in_phase b p.
Proof.
  cbv zeta. induction before as [|[p t] before IH] using rev_ind.
  { split_and!; [done..|by intros|]. by exists Idle. }
  destruct IH as (H1 & H2 & H3 & Hr & q & Hq & Hp).
  rewrite ran_snoc, history_snoc. set (b := ran before _) in *.
  destruct (update_constants p t b) as (-> & -> & ->). split_and!; [done..| |].
  - by apply update_remembers.
  - destruct (update_phase p t b q Hp) as (q' & Ha & Hp'). exists q'. split; [|done].
    rewrite sampleAll_app. cbn [fst]. unfold trace. rewrite map_app, concat_app.
    rewrite (accepts_app _ _ _ _ Hq). cbn [sampleAll]. unfold bind, ret. cbn [fst map concat].
    by rewrite app_nil_r.
Qed.

(** What an available button reports of the level, and of how long it is held. *)

Lemma armed_level pressed now b :
  initialized_ b && armed_ b = true →
  let e := (update pressed now b).1 in
  let lasted := debounceMs_ b ≤ elapsed now (since pressed now b) in
  (PRESS ∈ both e ↔ stablePressed_ b = false ∧ pressed = true ∧ lasted)
  ∧ (RELEASE ∈ both e ↔ stablePressed_ b = true ∧ pressed = false ∧ lasted).
Proof.
  intros [Hi Ha]%andb_true_iff. cbv zeta. unfold update. rewrite Hi, Ha. cbn [negb]. unfold bind.
  destruct (debounce_cases pressed now b) as (_ & _ & _ & Hd).
  destruct (debounce pressed now b) as [e b1]. cbn [fst snd] in *.
  destruct (hold_cases now e b1) as (_ & _ & _ & _ & _ & _ & H7 & H8 & H9 & _).
  assert (Hup : ∀ x, x ≠ NONE → first e = x → x ∈ both (holdEvents now e b1).1).
  { intros x Hx E. unfold both. rewrite H7, E by (by rewrite E). set_solver. }
  destruct Hd as [(-> & Hs & _ & Hcase)|(Hs & Hs' & Hc' & Hl%Z.leb_le & Hcase)].
  - unfold noEvents, both in H8, H9. cbn [first second] in H8, H9.
    assert (Hno : ∀ s, stablePressed_ b = s → pressed = negb s →
              ¬ debounceMs_ b ≤ elapsed now (since pressed now b)).
    { intros s Es Ep. destruct Hcase as [[E _]|(_ & _ & _ & E%Z.leb_gt)]; [rewrite Ep, Es in E; by destruct s|lia]. }
    split; (split; [intros Hin; first [apply H9 in Hin|apply H8 in Hin]; set_solver|]);
      intros (Es & Ep & ?); exfalso; by eapply Hno.
  - destruct Hcase as [(-> & -> & _)|(-> & ->)]; rewrite Hs; cbn [negb first] in *.
    + split; split; [done|intros _; by apply Hup| |by intros (_ & ? & _)].
      intros Hin%H8. unfold both in Hin. cbn [first second] in Hin. set_solver.
    + split; split; [|by intros (_ & ? & _)|done|intros _; by apply Hup].
      intros Hin%H9. unfold both in Hin. cbn [first second] in Hin.
      destruct (longPressEmitted_ b); set_solver.
Qed.

Lemma armed_long pressed now b h :
  initialized_ b && armed_ b = true →
  let out := update pressed now b in
  (stablePressed_ out.2 = true → held (pressSinceMs_ out.2) h) →
  (LONG_PRESS ∈ both out.1 → ∃ t0, held t0 h ∧ longPressMs_ b ≤ elapsed now t0)
  ∧ (VERY_LONG_PRESS ∈ both out.1 → ∃ t0, held t0 h ∧ veryLongPressMs_ b ≤ elapsed now t0).
Proof.
  intros [Hi Ha]%andb_true_iff. cbv zeta. unfold update. rewrite Hi, Ha. cbn [negb]. unfold bind.
  destruct (debounce_cases pressed now b) as (_ & _ & (<- & <- & _) & Hd).
  destruct (debounce pressed now b) as [e b1]. cbn [fst snd] in *.
  destruct (hold_cases now e b1) as (_ & _ & -> & _ & _ & -> & _ & _ & _ & H10 & H11). intros Hh.
  assert (Hno : LONG_PRESS ∉ both e ∧ VERY_LONG_PRESS ∉ both e).
  { unfold both. destruct Hd as [(-> & _)|(_ & _ & _ & _ & [(_ & -> & _)|(_ & ->)])];
      cbn [noEvents first second]; [set_solver..|]. destruct (longPressEmitted_ b); set_solver. }
  split; intros Hin; [destruct (H10 Hin) as [Hs Hl]|destruct (H11 Hin) as [Hs Hl]]; try apply Hno;
    exists (pressSinceMs_ b1); by split; [apply Hh|].
Qed.

Lemma run_level l p t : ∃ t0, level_since (l ++ [(p, t)]) = Some (p, t0).
Proof.
  rewrite level_since_snoc. unfold run_step. destruct (level_since l) as [[q u]|]; [|eauto].
  cbn [fst]. destruct (eqb p q) eqn:E; [apply eqb_prop in E as ->|]; eauto.
Qed.

Lemma update_on pressed now b :
  initialized_ b && armed_ b = true →
  initialized_ (update pressed now b).2 && armed_ (update pressed now b).2 = true.
Proof.
  intros Hon. pose proof Hon as [Hi Ha]%andb_true_iff. unfold update. rewrite Hi, Ha. cbn [negb].
  unfold bind. destruct (debounce_cases pressed now b) as (H1 & H2 & _).
  destruct (debounce pressed now b) as [e b1]. cbn [fst snd] in *.
  destruct (hold_cases now e b1) as (-> & -> & _). by rewrite H1, H2.
Qed.


(** ** From gestures to events *)

Import EventProducers.

(** A finished gesture: the context at its press, and whether it was reported long
    and very long. *)

Record gesture := mkGesture { g_context : ButtonContext; g_long : bool; g_very : bool }.

Definition gesture_step (open : option gesture) (x : ButtonEvent * ButtonContext)
    : option gesture * option gesture :=
  match x.1, open with
  | PRESS, _ => (Some (mkGesture x.2 false false), None)
  | LONG_PRESS, Some g => (Some (mkGesture (g_context g) true (g_very g)), None)
  | VERY_LONG_PRESS, Some g => (Some (mkGesture (g_context g) (g_long g) true), None)
  | RELEASE, Some g => if g_long g then (None, Some g) else (Some g, None)
  | SHORT_PRESS, Some g => (None, Some g)
  | _, _ => (open, None)
  end.

Fixpoint gestures (open : option gesture) (l : list (ButtonEvent * ButtonContext)) : list gesture :=
  match l with
  | [] => []
  | x :: l' => option_list (gesture_step open x).2 ++ gestures (gesture_step open x).1 l'
  end.

(** The event that a gesture is worth. *)

Definition wanted (g : gesture) : option NodeEventStore.EventInput :=
  let c := g_context g in
  let here := displayAwake c && negb (editorActive c) in
  if g_long g then
    if here && homeScreen c && negb (g_very g)
    then Some (makeInput EventProtocol.Family.MANUAL_CHECK_IN 1 [EventProtocol.USER_REQUEST])
    else None
  else
    if buttonEventSelected c && here
    then Some (makeInput EventProtocol.Family.BUTTON 1 [EventProtocol.ButtonEvent.SHORT_PRESS])
    else None.

Lemma wanted_valid g input : wanted g = Some input → NodeEventStore.validInput input = true.
Proof. unfold wanted. repeat case_match; intros [= <-]; reflexivity. Qed.

(** What the producer remembers of the gesture. *)

Definition producing (p : phase) (open : option gesture) (s : ButtonProducer) : Prop :=
  match p, open with
  | Idle, None =>
      gestureSuppressed_ s = false ∧ manualEligible_ s = false ∧ longObserved_ s = false
  | Held l v, Some (mkGesture c l' v') =>
      l' = l ∧ v' = v
      ∧ gestureEligible_ s = buttonEventSelected c && displayAwake c && negb (editorActive c)
      ∧ manualEligible_ s = displayAwake c && negb (editorActive c) && homeScreen c && negb v
      ∧ veryLongObserved_ s = v ∧ (longObserved_ s = true → l = true)
      ∧ (manualEligible_ s = true → longObserved_ s = l)
  | LetGo, Some (mkGesture c l' _) =>
      l' = false ∧ gestureSuppressed_ s = false ∧ longObserved_ s = false
      ∧ gestureEligible_ s = buttonEventSelected c && displayAwake c && negb (editorActive c)
  | _, _ => False
  end.

Section Producing.

Context {W : Type} `{CreationSink W}.

Fixpoint createAll (l : list NodeEventStore.EventInput) : st W (list CreationResult) :=
  match l with
  | [] => ret []
  | input :: l' => r <~ create input ;; rest <~ createAll l' ;; ret (r :: rest)
  end.

Lemma createAll_app l1 l2 w :
  createAll (l1 ++ l2) w
  = let r1 := createAll l1 w in let r2 := createAll l2 r1.2 in (r1.1 ++ r2.1, r2.2).
Proof.
  revert w. induction l1 as [|x l1 IH]; intros w; cbn [createAll app].
  - cbn. by destruct (createAll l2 w).
  - unfold bind, ret. rewrite IH. done.
Qed.

(** The creations a result reports. *)

Definition tried (e : Emission) : list CreationResult := if attempted e then [em_result e] else [].

Definition attempts (r : ButtonProductionResult) : list CreationResult :=
  tried (pr_manualCheckIn r) ++ tried (pr_button r).

Definition emptied (r : ButtonProductionResult) : Prop :=
  attempted (pr_button r) = false ∧ attempted (pr_manualCheckIn r) = false.

(** One event makes the creations of the gesture it finishes, and no others. *)

Definition makes (event : ButtonEvent) (context : ButtonContext) (open : option gesture)
    (result : ButtonProductionResult) (w : W)
    (out : ButtonProductionResult * (ButtonProducer * W)) : Prop :=
  let made := createAll (omap wanted (option_list (gesture_step open (event, context)).2)) w in
  out.2.2 = made.2 ∧ attempts out.1 = attempts result ++ made.1
  ∧ buttonSuppressed out.1 = buttonSuppressed result.

Lemma attempts_nil r : attempts r = [] → emptied r.
Proof.
  unfold attempts, tried, emptied.
  by destruct (attempted (pr_manualCheckIn r)), (attempted (pr_button r)).
Qed.

Lemma omap_one g : omap wanted (option_list (Some g)) = option_list (wanted g).
Proof. cbn. by destruct (wanted g). Qed.

Lemma quiet_makes event context open result w s :
  event ≠ SHORT_PRESS → event ≠ RELEASE → makes event context open result w (result, (s, w)).
Proof.
  intros H1 H2. unfold makes.
  assert ((gesture_step open (event, context)).2 = None) as -> by (destruct event, open; done).
  cbn. by rewrite app_nil_r.
Qed.

Lemma release_makes l v open context result s w :
  producing (Held l v) open s → emptied result →
  makes RELEASE context open result w (observeOne RELEASE context result (s, w)).
Proof.
  destruct open as [[c l' v']|]; [|done]. intros (-> & -> & _ & Hm & Hv & _ & Hl) [Hb Hc].
  unfold makes, observeOne, gesture_step. cbn [fst snd g_long].
  unfold bind, this, gets. cbn [fst snd id]. rewrite Hm, Hv.
  destruct (displayAwake c && negb (editorActive c) && homeScreen c && negb v) eqn:E; cbn [andb].
  - rewrite (Hl Hm). apply andb_true_iff in E as [E Ev]. destruct l, v; try done; cbn [andb negb].
    + unfold emitManualCheckIn, Prelude.update, outside, zoom, modify, ret, bind, rec_set. cbn [fst snd].
      rewrite omap_one. unfold wanted. cbn [g_long g_context g_very negb].
      rewrite E. cbn [andb option_list createAll]. unfold bind, ret. cbn [fst snd attempts].
      unfold attempts, tried in *. cbn [pr_button pr_manualCheckIn attempted em_result buttonSuppressed].
      rewrite Hb, Hc. by rewrite app_nil_r.
    + unfold Prelude.update, modify, ret. cbn. by rewrite app_nil_r.
  - unfold Prelude.update, modify, ret. cbn [fst snd]. destruct l; [|cbn; by rewrite app_nil_r].
    cbn [snd]. rewrite omap_one. unfold wanted. cbn [g_long g_context g_very].
    rewrite E. cbn. by rewrite app_nil_r.
Qed.

Lemma short_makes open context result s w :
  producing LetGo open s → emptied result →
  makes SHORT_PRESS context open result w (observeOne SHORT_PRESS context result (s, w)).
Proof.
  destruct open as [[c l' v']|]; [|done]. intros (-> & Hg & _ & He) [Hb Hc].
  unfold makes, observeOne, gesture_step. cbn [fst snd]. rewrite omap_one.
  unfold bind, this, gets, wanted. cbn [fst snd id g_long g_context]. rewrite He, Hg, <- andb_assoc.
  destruct (buttonEventSelected c && (displayAwake c && negb (editorActive c))).
  - unfold emitButton. change (bool_decide (SHORT_PRESS = NONE)) with false.
    change (negb (EventProtocol.isValidButtonEvent (eventCode SHORT_PRESS))) with false. cbv iota.
    unfold Prelude.update, outside, zoom, modify, ret, bind, rec_set. cbn [fst snd option_list createAll].
    unfold bind, ret, attempts, tried in *.
    cbn [fst snd pr_button pr_manualCheckIn attempted em_result buttonSuppressed].
    rewrite Hb, Hc. done.
  - unfold Prelude.update, modify, ret. cbn. by rewrite app_nil_r.
Qed.

(** The producer's fields after an event, whatever the sink does. *)

Definition follows (event : ButtonEvent) (c : ButtonContext) (s : ButtonProducer) : ButtonProducer :=
  match event with
  | NONE => s
  | PRESS =>
      let eligible := buttonEventSelected c && displayAwake c && negb (editorActive c) in
      mkProducer eligible (buttonEventSelected c && negb eligible)
        (displayAwake c && negb (editorActive c) && homeScreen c) false false
  | SHORT_PRESS => mkProducer false false false (longObserved_ s) (veryLongObserved_ s)
  | LONG_PRESS =>
      mkProducer (gestureEligible_ s) (gestureSuppressed_ s) (manualEligible_ s)
        (manualEligible_ s || longObserved_ s) (veryLongObserved_ s)
  | VERY_LONG_PRESS =>
      mkProducer (gestureEligible_ s) (gestureSuppressed_ s) false (longObserved_ s) true
  | RELEASE => mkProducer (negb (longObserved_ s) && gestureEligible_ s) false false false false
  end.

Lemma observeOne_follows event context result s w :
  (observeOne event context result (s, w)).2.1 = follows event context s
  ∧ (event ≠ SHORT_PRESS → event ≠ RELEASE →
     observeOne event context result (s, w) = (result, (follows event context s, w))).
Proof.
  destruct s as [ge gs me lo vo]. destruct event; try (split; done); (split; [|try done]);
    unfold observeOne, bind, this, gets, Prelude.update, modify, ret, rec_set;
    cbn [fst snd id gestureEligible_ gestureSuppressed_ manualEligible_ longObserved_ veryLongObserved_
      follows].
  - by destruct (me && lo && negb vo), lo.
  - by destruct ge, gs.
  - by destruct me.
  - by destruct me.
Qed.

Lemma follows_producing p q open event context s :
  next p event = Some q → producing p open s →
  producing q (gesture_step open (event, context)).1 (follows event context s).
Proof.
  intros Hq Hp. destruct event, p as [|l v|]; cbn in Hq; try discriminate;
    try (destruct l; try discriminate); try (destruct v; try discriminate); injection Hq as <-;
    destruct open as [[c l' v']|]; cbn in Hp; try done; destruct_and? Hp; subst; try done;
    cbn [gesture_step fst snd producing follows g_long g_context g_very]; rewrite ?andb_true_r, ?andb_false_r;
    destruct s as [ge gs me lo vo]; cbn in *; subst; try done; split_and!;
    rewrite ?andb_true_r, ?andb_false_r in *; try done;
    first [intros ->; done|destruct lo; naive_solver].
Qed.

(** The samples of the button, each with the context of the moment it is taken in. *)

Fixpoint serviceAll (l : list (sample * ButtonContext))
    : st (Button * (ButtonProducer * W)) (list ButtonProductionResult) :=
  match l with
  | [] => ret []
  | ((pressed, now), context) :: l' =>
      events <~ zoom fst (λ b s, (b, s.2)) (update pressed now) ;;
      result <~ outside (observe events context) ;;
      rest <~ serviceAll l' ;;
      ret (result :: rest)
  end.

(** The events of the button, each with its context. *)

Definition seen (l : list (sample * ButtonContext)) (b : Button) : list (ButtonEvent * ButtonContext) :=
  concat (zip_with (λ e c, [(first e, c); (second e, c)]) (sampleAll (map fst l) b).1 (map snd l)).

Lemma observeOne_makes p q open event context result s w :
  next p event = Some q → producing p open s →
  attempts result = [] ∨ event ≠ SHORT_PRESS ∧ event ≠ RELEASE →
  makes event context open result w (observeOne event context result (s, w)).
Proof.
  intros Hq Hp Hr.
  destruct (decide (event = SHORT_PRESS)) as [->|H1]; [|destruct (decide (event = RELEASE)) as [->|H2]].
  - destruct Hr as [He|[]]; [|done]. destruct p as [|[] []|]; try discriminate.
    by apply short_makes, attempts_nil.
  - destruct Hr as [He|[]]; [|done]. destruct p as [|l v|]; try discriminate.
    by apply (release_makes l v), attempts_nil.
  - rewrite (proj2 (observeOne_follows event context result s w)) by done. by apply quiet_makes.
Qed.

(** The second event of a sample finishes a gesture only if the first finished none. *)

Lemma quiet_again p q event event' r open context s :
  next p event = Some q → next q event' = Some r → producing p open s →
  (gesture_step open (event, context)).2 = None ∨ event' ≠ SHORT_PRESS ∧ event' ≠ RELEASE.
Proof.
  intros Hq Hr Hp. destruct event; try (left; by destruct open).
  - destruct p as [|l v|]; cbn in Hq; try (destruct l, v; discriminate); try discriminate.
    destruct open as [[c l' v']|]; [|done]. destruct Hp as [-> _]. destruct l; [|by left].
    destruct v; injection Hq as <-; right; by destruct event'.
  - destruct p as [|[] []|]; try discriminate. injection Hq as <-. right. by destruct event'.
Qed.

Lemma observe_produces events context p q r open s w :
  next p (first events) = Some q → next q (second events) = Some r → producing p open s →
  let out := observe events context (s, w) in
  let xs := [(first events, context); (second events, context)] in
  let made := createAll (omap wanted (gestures open xs)) w in
  producing r (foldl (λ o x, (gesture_step o x).1) open xs) out.2.1
  ∧ out.2.2 = made.2 ∧ attempts out.1 = made.1 ∧ buttonSuppressed out.1 = false.
Proof.
  intros Hq Hr Hp. cbv zeta. unfold observe, bind.
  set (r0 := mkProduction noEmission noEmission false).
  destruct (observeOne_follows (first events) context r0 s w) as [Hf _].
  pose proof (observeOne_makes _ _ _ _ context r0 s w Hq Hp (or_introl eq_refl)) as (Hw & Ha & Hs).
  pose proof (follows_producing _ _ _ _ context _ Hq Hp) as Hp1. rewrite <- Hf in Hp1.
  pose proof (quiet_again _ _ _ (second events) r open context s Hq Hr Hp) as Hquiet.
  destruct (observeOne (first events) context r0 (s, w)) as [r1 [s1 w1]]. cbn [fst snd] in *.
  destruct (observeOne_follows (second events) context r1 s1 w1) as [Hf2 _].
  assert (Hr1 : attempts r1 = [] ∨ second events ≠ SHORT_PRESS ∧ second events ≠ RELEASE).
  { destruct Hquiet as [E|?]; [left|by right]. rewrite Ha, E. done. }
  pose proof (observeOne_makes _ _ _ _ context r1 s1 w1 Hr Hp1 Hr1) as (Hw2 & Ha2 & Hs2).
  pose proof (follows_producing _ _ _ _ context _ Hr Hp1) as Hp2. rewrite <- Hf2 in Hp2.
  cbn [gestures foldl]. rewrite app_nil_r, omap_app, createAll_app. cbv zeta.
  rewrite <- Hw. split; [done|]. split; [done|]. rewrite Ha2, Ha, Hs2, Hs. done.
Qed.

Lemma gestures_app open l1 l2 :
  gestures open (l1 ++ l2)
  = gestures open l1 ++ gestures (foldl (λ o x, (gesture_step o x).1) open l1) l2.
Proof.
  revert open. induction l1 as [|x l1 IH]; intros open; cbn [gestures foldl app]; [done|].
  by rewrite IH, app_assoc.
Qed.

Lemma seen_cons pressed now context l b :
  let out := update pressed now b in
  seen (((pressed, now), context) :: l) b
  = [(first out.1, context); (second out.1, context)] ++ seen l out.2.
Proof. done. Qed.

Lemma serviceAll_produces l : ∀ b p open s w,
  in_phase b p → producing p open s →
  let out := serviceAll l (b, (s, w)) in
  let made := createAll (omap wanted (gestures open (seen l b))) w in
  out.2.2.2 = made.2 ∧ concat (map attempts out.1) = made.1
  ∧ Forall (λ r, buttonSuppressed r = false) out.1.
Proof.
  induction l as [|[[pressed now] context] l IH]; intros b p open s w Hb Hp.
  { cbn. done. }
  cbv zeta. rewrite seen_cons, gestures_app, omap_app, createAll_app.
  destruct (update_phase pressed now b p Hb) as (r & Hr & Hb').
  unfold both in Hr. cbn [accepts] in Hr.
  destruct (next p _) as [q|] eqn:E1; [|done]. destruct (next q _) as [r'|] eqn:E2; [|done].
  injection Hr as ->. cbn [serviceAll]. unfold bind, zoom, outside, ret. cbn [fst snd].
  destruct (observe_produces _ context _ _ _ open s w E1 E2 Hp) as (Hp' & Hw & Ha & Hs).
  unfold zoom. cbn [fst snd]. destruct (observe _ context (s, w)) as [res [s' w']]. cbn [fst snd] in *.
  destruct (IH _ _ _ s' w' Hb' Hp') as (Hw2 & Ha2 & Hs2).
  rewrite <- Hw. cbn [map concat]. rewrite Ha, Ha2. split_and!; [done|done|by constructor].
Qed.


(** ** A sensor's crossings *)

Definition usable (policy : ThresholdPolicy) (x : bool * Z) : bool :=
  x.1 && validPolicy policy && validObserved policy x.2.

Definition used (policy : ThresholdPolicy) (l : list (bool * Z)) : list Z :=
  map snd (filter (λ x, usable policy x = true) l).

Fixpoint observeAll (l : list (bool * Z)) : st (SensorThresholdProducer * W) (list Emission) :=
  match l with
  | [] => ret []
  | (available, bits) :: l' =>
      e <~ observeSensor available bits ;; rest <~ observeAll l' ;; ret (e :: rest)
  end.

Lemma observeAll_app l1 l2 s :
  observeAll (l1 ++ l2) s
  = let r1 := observeAll l1 s in let r2 := observeAll l2 r1.2 in (r1.1 ++ r2.1, r2.2).
Proof.
  revert s. induction l1 as [|[a x] l1 IH]; intros s; cbn [observeAll app].
  - cbn. by destruct (observeAll l2 s).
  - unfold bind, ret. rewrite IH. done.
Qed.

(** The values so far leave the producer ready for a crossing: one of them had come
    back by the hysteresis, or was the first and not beyond the threshold, and none
    after it was beyond. *)

Definition ready_to_cross (policy : ThresholdPolicy) (l : list Z) : Prop :=
  ∃ l1 x l2, l = l1 ++ x :: l2 ∧ (isRearmed policy x = true ∨ l1 = [] ∧ isActive policy x = false)
    ∧ Forall (λ y, isActive policy y = false) l2.

Lemma rearmed_inactive policy x :
  0 ≤ hysteresisBits policy → isRearmed policy x = true → isActive policy x = false.
Proof. unfold isRearmed, isActive. destruct (_ =? _); intros; blia. Qed.

Lemma ready_snoc policy l x :
  0 ≤ hysteresisBits policy →
  ready_to_cross policy (l ++ [x])
  ↔ isActive policy x = false ∧ (isRearmed policy x = true ∨ l = [] ∨ ready_to_cross policy l).
Proof.
  intros Hh. split.
  - intros (l1 & y & l2 & E & Hy & Hf). destruct l2 as [|z l2 _] using rev_ind.
    + apply app_inj_tail in E as [<- <-]. destruct Hy as [Hy|[-> Hy]]; [|by auto].
      split; [by apply rearmed_inactive|by left].
    + rewrite app_comm_cons, app_assoc in E. apply app_inj_tail in E as [-> ->].
      apply Forall_app in Hf as [Hf [Hz _]%Forall_cons]. split; [done|]. right; right.
      by exists l1, y, l2.
  - intros [Hx [Hr|[->|(l1 & y & l2 & -> & Hy & Hf)]]].
    + exists l, x, []. split_and!; [done|by left|done].
    + exists [], x, []. split_and!; [done|by right|done].
    + exists l1, y, (l2 ++ [x]). split; [by rewrite <- app_assoc|]. split; [done|].
      apply Forall_app. by split; [|constructor].
Qed.

(** What the producer's fields say of the values so far. *)

Definition tracks (policy : ThresholdPolicy) (l : list Z) (s : SensorThresholdProducer) : Prop :=
  policy_ s = policy ∧ (sensorInitialized_ s = true ↔ l ≠ [])
  ∧ (l ≠ [] → (sensorArmed_ s = true ↔ ready_to_cross policy l)).

Lemma observeSensor_tracks policy l s w available bits :
  0 ≤ hysteresisBits policy → tracks policy l s →
  let out := observeSensor available bits (s, w) in
  let fires := usable policy (available, bits) = true ∧ isActive policy bits = true
               ∧ ready_to_cross policy l in
  tracks policy (l ++ used policy [(available, bits)]) out.2.1
  ∧ ((fires ∧ attempted out.1 = true
      ∧ (em_result out.1, out.2.2) = create (sensorInput policy bits) w)
     ∨ (¬ fires ∧ out.1 = noEmission ∧ out.2.2 = w)).
Proof.
  intros Hh (Hp & Hi & Ha). cbv zeta. unfold observeSensor, used.
  unfold bind, this, gets. cbn [fst snd id]. rewrite Hp.
  assert (negb available || negb (validPolicy policy) || negb (validObserved policy bits)
          = negb (usable policy (available, bits))) as ->.
  { unfold usable. cbn [fst snd]. by destruct available, (validPolicy _), (validObserved _ _). }
  destruct (usable policy (available, bits)) eqn:Eu; cbn [negb]; last first.
  { rewrite filter_cons_False by (by rewrite Eu). cbn [filter list_filter map].
    rewrite app_nil_r. split; [done|]. right. split; [by intros [? _]|done]. }
  rewrite filter_cons_True by done. cbn [filter list_filter map snd].
  pose proof (ready_snoc policy l bits Hh) as Hrs.
  assert (Hne : l ++ [bits] ≠ []) by (by destruct l).
  unfold Prelude.update, modify, ret, outside, zoom, rec_set.
  destruct (sensorInitialized_ s) eqn:Ei; cbn [negb]; last first.
  { assert (l = []) as -> by (destruct l; [done|]; by discriminate (proj2 Hi ltac:(done))). cbn [fst snd].
    split; [split_and!; [done|done|]|].
    - intros _. cbn [sensorArmed_]. rewrite Hrs, negb_true_iff. intuition.
    - right. split; [|done]. intros (_ & _ & (l1 & y & l2 & E & _)). by destruct l1. }
  specialize (Ha (proj1 Hi eq_refl)).
  destruct (sensorArmed_ s) eqn:Ea; cbn [negb].
  - destruct (isActive policy bits) eqn:Eact; cbn [negb fst snd].
    + split; [split_and!; [done|done|]|].
      * intros _. cbn [sensorArmed_]. rewrite Hrs. split; [done|]. by intros [? _].
      * left. split_and!; [done|done|by apply Ha|done|by destruct (create _ w)].
    + split; [split_and!; [done|by rewrite Ei|]|].
      * intros _. rewrite Ea, Hrs. intuition.
      * right. split; [|done]. by intros (_ & ? & _).
  - cbn [fst snd]. assert (Hnot : ¬ ready_to_cross policy l) by (by intros E%Ha). split.
    + destruct (isRearmed policy bits) eqn:Er; (split_and!; [done|by rewrite ?Ei|]); intros _;
        rewrite Hrs; cbn [sensorArmed_]; [rewrite (rearmed_inactive policy bits Hh Er)|rewrite Ea];
        naive_solver.
    + right. split; [naive_solver|done].
Qed.

Lemma observeAll_tracks policy l w :
  0 ≤ hysteresisBits policy →
  tracks policy (used policy l) (observeAll l (newSensor policy, w)).2.1.
Proof.
  intros Hh. induction l as [|[a x] l IH] using rev_ind; [by split_and!|].
  rewrite observeAll_app. cbv zeta. destruct (observeAll l _) as [r [s w']]. cbn [fst snd] in *.
  cbn [observeAll]. unfold bind, ret. cbn [fst snd].
  destruct (observeSensor_tracks policy _ s w' a x Hh IH) as [Ht _].
  unfold used in *. by rewrite filter_app, map_app.
Qed.

(** Without the bits of its upper half a word fits 16 bits. *)

Lemma upper_half_clear bits :
  is_u32 bits → Z.land bits 4294901760 = 0 → Z.shiftr bits 16 = 0.
Proof.
  intros Hb Ho. apply Z.bits_inj'. intros i Hi. rewrite Z.bits_0, Z.shiftr_spec by done.
  destruct (Z.ltb_spec i 16) as [Hlt|Hge].
  - pose proof (f_equal (λ z, Z.testbit z (i + 16)) Ho) as Ht. cbv beta in Ht.
    change 4294901760 with (Z.shiftl (Z.ones 16) 16) in Ht.
    rewrite Z.land_spec, Z.shiftl_spec, Z.bits_0, Z.add_simpl_r, Z.ones_spec_low, andb_true_r in Ht by lia.
    exact Ht.
  - rewrite <- (Z.mod_small bits (2 ^ 32)) by done. apply Z.mod_pow2_bits_high. lia.
Qed.

(** The body of a sensor's event: the capability, the type, the value and the relation. *)

Lemma sensor_body a b t c0 c1 c2 c3 r :
  NodeEventStore.validInput
    (NodeEventStore.mkInput EventProtocol.Family.SENSOR_THRESHOLD PRODUCER_FLAGS
       PRODUCER_LIFETIME_SECONDS 8 [a; b; t; c0; c1; c2; c3; r; 0; 0; 0; 0])
  = negb (Z.lor a (Z.shiftl b 8) =? 0) && EventProtocol.isValidSensorValueType t
    && EventProtocol.isValidThresholdRelation r
    && (if (t =? EventProtocol.SensorValueType.NORMALIZED_U16)
           || (t =? EventProtocol.SensorValueType.ENUM_U16)
        then (c2 =? 0) && (c3 =? 0) else true).
Proof.
  unfold NodeEventStore.validInput.
  cbn [NodeEventStore.in_flags NodeEventStore.in_lifetimeBudgetSeconds NodeEventStore.in_bodyLength
    NodeEventStore.in_family NodeEventStore.in_body].
  assert (EventRecords.allZero [a; b; t; c0; c1; c2; c3; r; 0; 0; 0; 0] (Z.to_nat 8) (12 - Z.to_nat 8)
          = true) as -> by reflexivity.
  match goal with |- (if ?x || negb ?y then _ else _) = _ =>
    change x with false; change y with
      (if (Z.lor a (Z.shiftl b 8) =? 0) || negb (EventProtocol.isValidSensorValueType t)
          || negb (EventProtocol.isValidThresholdRelation r) then false
       else if (t =? EventProtocol.SensorValueType.NORMALIZED_U16)
               || (t =? EventProtocol.SensorValueType.ENUM_U16)
            then (c2 =? 0) && (c3 =? 0) else true) end.
  destruct (_ =? 0), (EventProtocol.isValidSensorValueType t),
    (EventProtocol.isValidThresholdRelation r); cbn [orb andb negb]; try done.
  by destruct (_ || _), (c2 =? 0), (c3 =? 0).
Qed.

Lemma sensorInput_valid policy bits :
  validPolicy policy = true → validObserved policy bits = true →
  is_u16 (capabilityId policy) → is_u32 bits →
  NodeEventStore.validInput (sensorInput policy bits) = true.
Proof.
  intros Hp Ho Hc Hb. unfold validPolicy in Hp.
  destruct (_ || _) eqn:E in Hp; [done|]. apply orb_false_iff in E as [[E1 E2]%orb_false_iff E3].
  apply negb_false_iff in E2, E3.
  change (sensorInput policy bits) with
    (NodeEventStore.mkInput EventProtocol.Family.SENSOR_THRESHOLD PRODUCER_FLAGS
       PRODUCER_LIFETIME_SECONDS 8
       [u8 (Z.land (capabilityId policy) 255); u8 (Z.shiftr (capabilityId policy) 8); valueType policy;
        u8 bits; u8 (Z.shiftr bits 8); u8 (Z.shiftr bits 16); u8 (Z.shiftr bits 24); relation policy;
        0; 0; 0; 0]).
  rewrite sensor_body, E2, E3. change 255 with (Z.ones 8). rewrite Z.land_ones by lia.
  change (capabilityId policy `mod` 2 ^ 8) with (u8 (capabilityId policy)).
  rewrite (wrap_small 8 (u8 _)) by apply u8_range. rewrite word16_le by done. rewrite E1.
  cbn [negb andb]. unfold validObserved in Ho.
  destruct (_ =? EventProtocol.SensorValueType.NORMALIZED_U16),
    (_ =? EventProtocol.SensorValueType.ENUM_U16); cbn [negb andb orb] in *; try done.
  all: apply Z.eqb_eq in Ho; pose proof (upper_half_clear bits Hb Ho) as Hz; rewrite Hz.
  all: assert (Z.shiftr bits 24 = 0) as -> by
    (change 24 with (16 + 8); by rewrite <- Z.shiftr_shiftr, Hz by lia); done.
Qed.

(** C35. A sensor's crossing is one event, until the value has come back.  After any
    samples, for a valid policy: the next sample makes the producer create an event
    if and only if it is available and in range, lies beyond the threshold, and
    among the samples used before there is one that had come back by the hysteresis
    - or was the very first, and not beyond the threshold - with none beyond the
    threshold after it.  It is then created once, with the policy's capability,
    type and relation and the value as it was observed, and the store finds it
    valid. *)
Theorem sensor_crossings policy before available bits w :
  validPolicy policy = true → is_u16 (capabilityId policy) → 0 ≤ hysteresisBits policy →
  is_u32 bits →
  let ran := observeAll before (newSensor policy, w) in
  let out := observeSensor available bits ran.2 in
  let input := sensorInput policy bits in
  let fires := usable policy (available, bits) = true ∧ isActive policy bits = true
               ∧ ready_to_cross policy (used policy before) in
  (fires ∧ attempted out.1 = true ∧ (em_result out.1, out.2.2) = create input ran.2.2
   ∧ NodeEventStore.validInput input = true)
  ∨ (¬ fires ∧ out.1 = noEmission ∧ out.2.2 = ran.2.2).
Proof.
  intros Hp Hc Hh Hb ran out input fires.
  pose proof (observeAll_tracks policy before w Hh) as Ht. fold ran in Ht.
  subst out. destruct ran as [r [s w']]. cbn [fst snd] in *.
  destruct (observeSensor_tracks policy _ s w' available bits Hh Ht) as [_ [(Hf & Ha & He)|Hn]].
  - left. split_and!; try done; [apply Hf..|]. apply sensorInput_valid; try done.
    destruct Hf as [Hu _]. unfold usable in Hu. cbn [fst snd] in Hu.
    by apply andb_true_iff in Hu as [_ ?].
  - by right.
Qed.

End Producing.

(** ** A sensor on a list of the events it made *)

Definition Heap := list NodeEventStore.EventInput.

#[export] Instance heap : CreationSink Heap := {
  create input := λ w, (ENQUEUED, w ++ [input])
}.

Definition warm : ThresholdPolicy :=
  mkThreshold 769 EventProtocol.SensorValueType.NORMALIZED_U16 1000 100
    EventProtocol.ThresholdRelation.CROSSED_ABOVE.

Definition day : list (bool * Z) :=
  [(true, 900); (true, 1001); (true, 1500); (true, 950); (true, 1200); (false, 0); (true, 900)].

Lemma sensor_crossings_witness :
  let ran := observeAll day (newSensor warm, [] : Heap) in
  let out := observeSensor true 2000 ran.2 in
  let input := sensorInput warm 2000 in
  let fires := usable warm (true, 2000) = true ∧ isActive warm 2000 = true
               ∧ ready_to_cross warm (used warm day) in
  ((fires ∧ attempted out.1 = true ∧ (em_result out.1, out.2.2) = create input ran.2.2
    ∧ NodeEventStore.validInput input = true)
   ∨ (¬ fires ∧ out.1 = noEmission ∧ out.2.2 = ran.2.2))
  ∧ length out.2.2 = 2%nat ∧ attempted out.1 = true.
Proof.
  intros ran out input fires. split; [|vm_compute; by split].
  exact (sensor_crossings warm day true 2000 ([] : Heap) eq_refl ltac:(vm_compute; by split)
    ltac:(vm_compute; done) ltac:(vm_compute; by split)).
Defined.

(** A button pressed briefly, and then held long. *)

Definition atHome : ButtonContext := mkContext true false true false.

Definition atRadio : ButtonContext := mkContext true false false true.

Definition presses : list (sample * ButtonContext) :=
  map (λ x, (x, atRadio)) [(false, 0); (true, 10); (true, 60); (false, 200); (false, 240)]
  ++ map (λ x, (x, atHome)) [(true, 1000); (true, 1030); (true, 2000); (false, 2100); (false, 2130)].

Example presses_made :
  (serviceAll presses (newButton 30 800 3000, (newProducer, [] : Heap))).2.2.2
  = [makeInput EventProtocol.Family.BUTTON 1 [3]; makeInput EventProtocol.Family.MANUAL_CHECK_IN 1 [1]].
Proof. vm_compute. reflexivity. Qed.

End InputFacts.
