(* ===== verification/CreationFacts.v ===== *)
(** * The Node's sink for new events

    An event that the sink reports as created is in the store and its lifetime
    runs; when the sink reports a storage failure, nothing is served any more. *)

From S2P Require Import Prelude EventWire Copies Records Identity Diagnostics NodeStore NodeQueue NodeFacts NodeOps NodeRecovery Delivery DeliveryFacts DeliveryOps DeliveryCalls DeliveryLife Input.

Module CreationFacts.

Import EventProducers NodeEventCreation.
Import EventRecords.
Import NodeEventStore (Store, Storage, EventInput, record_at, slot_at, recordAt, healthy_, validInput,
  enqueuedRecord, mkEnqueueResult, present, NODE_EVENT_CAPACITY).
Import NodeQueue NodeFacts NodeOps NodeRecovery NodeEventDelivery DeliveryFacts DeliveryOps.

(** Reading the clock leaves the flash alone. *)

Class QuietClock (W : Type) `{Storage W} `{EventIdentity.EntropySource W}
    `{!EventIdentity.DurableMetadata W} `{!NodeFacts.DurableEvents W} `{Clock W} := {
  clock_keeps (w : W) : same_flash w (clock w).2
}.

Section Creation.

Context {W : Type} `{Storage W} `{!EventIdentity.MetadataStorageLaws W} `{!NodeFacts.StorageLaws W}
  `{EventIdentity.EntropySource W} `{!EventIdentity.DurableMetadata W} `{!NodeFacts.DurableEvents W}
  `{SequenceSource W} `{JitterSource W} `{Clock W} `{!QuietClock W}.

Implicit Types (s : Controller) (t : Store) (w : W).

(** The controller and the store serve. *)

Definition working (src : Z) s w : Prop :=
  sound src (store_ s) w ∧ usable s = true ∧ policyBound_ (policy_ s) = true ∧ metered (policy_ s).

(** Tracking an event that is queued starts its lifetime. *)

Lemma track_starts src slot now s w :
  working src s w → (slot < 8)%nat → nr_state (record_at (store_ s) slot) = NodeState.QUEUED →
  ∃ s', trackEnqueued slot now (s, w) = (OK, (s', w)) ∧ working src s' w ∧ store_ s' = store_ s
        ∧ runtime_at slot s' = mkRuntime true now 0.
Proof.
  intros (Hs & Hu & Hb & Hm) Hi Hq. pose proof Hu as (Hin & Hd & Hbd & Hh & Hr)%usable_spec.
  destruct (sound_record src (store_ s) w slot Hs Hi) as [_ Hp].
  pose proof (queued_present s slot Hi Hp) as Eq. rewrite Hq, Z.eqb_refl in Eq.
  unfold trackEnqueued. rewrite bind_this, Hu. cbn [negb]. unfold policyTrackEnqueued, bind, this, gets.
  cbn [fst snd id]. rewrite Hr, Hb, Hh. cbn [negb orb]. change NODE_EVENT_CAPACITY with 8%nat.
  rewrite (proj2 (Nat.leb_gt _ _) Hi), Eq. cbn [negb]. rewrite observe_run. unfold update, modify, ret.
  cbn [fst snd]. rewrite bool_decide_true by done. cbn [negb].
  eexists. split; [reflexivity|]. split; [|split; [done|]].
  - split; [done|]. split; [by apply usable_spec|]. split; [done|]. unfold set_runtime.
    by apply metered_set.
  - unfold runtime_at, set_runtime, rec_set. cbn [policy_ runtime_ with_parts].
    apply nth_lookup_Some, list_lookup_insert_eq. by rewrite (me_length _ Hm).
Qed.

(** The sink's call on the store. *)

Lemma onStore_create input sink s w :
  onStore (create input) (sink, (s, w))
  = let r := NodeEventStore.enqueue input (store_ s, w) in
    (normalize (NodeEventStore.enqueue_status r.1),
     (mkStoreSink true r.1, (s <| store_ := r.2.1 |>, r.2.2))).
Proof.
  unfold onStore, zoom. cbn [create storeCreate]. unfold createInStore.
  unfold bind, outside, zoom, Prelude.update, modify, ret. cbn [fst snd].
  by destruct (NodeEventStore.enqueue input (store_ s, w)) as [r [t w']].
Qed.

(** How a creation ends. *)

Inductive creation src s w (input : EventInput) :
    CreationResult → StoreCreationSink → Controller → W → Prop :=
| creation_done i x now s' w' :
    validInput input = true → first_free (store_ s) i →
    EventProtocol.sourceDeviceId x = src → EventIdentity.valid_identity x →
    (∀ y, in_custody src (store_ s) y → EventIdentity.id_lt y x) →
    (∀ j, record_at (store_ s') j
          = replaced i (enqueuedRecord (record_at (store_ s) i) x input) (record_at (store_ s)) j) →
    working src s' w' → runtime_at i s' = mkRuntime true (u32 now) 0 →
    creation src s w input ENQUEUED
      (mkStoreSink true (mkEnqueueResult NodeEventStore.ENQUEUED x i)) s' w'
| creation_full sink s' :
    validInput input = true →
    (∀ j, (j < 8)%nat → holdsEvent (record_at (store_ s) j) = true) →
    (∀ j, record_at (store_ s') j = record_at (store_ s) j) → working src s' w →
    creation src s w input QUEUE_FULL sink s' w
| creation_invalid sink :
    validInput input = false → creation src s w input EventProducers.INVALID_EVENT sink s w
| creation_failed sink s' w' R' :
    usable s' = false → custody src w' R' →
    (∀ j, holdsEvent (record_at (store_ s) j) = true → R' j = record_at (store_ s) j) →
    creation src s w input EventProducers.STORAGE_FAILURE sink s' w'.

Lemma working_store src s w t w' :
  working src s w → sound src t w' → working src (s <| store_ := t |>) w'.
Proof.
  intros (Hs & Hu & Hb & Hm) Ht. split; [done|]. split; [|done]. apply usable_spec in Hu.
  apply usable_spec. unfold rec_set. cbn. pose proof (sound_healthy _ _ _ Ht). naive_solver.
Qed.

Lemma broken_store s t : healthy_ t = false → usable (s <| store_ := t |>) = false.
Proof. intros Hh. unfold usable, rec_set. cbn. by rewrite Hh, andb_false_r, andb_false_l. Qed.

Lemma createTracked_ends src s w input sink :
  working src s w → input_wf input →
  let out := createTracked input (sink, (s, w)) in
  creation src s w input out.1 out.2.1 out.2.2.1 out.2.2.2.
Proof.
  intros Hw Hwf. pose proof Hw as (Hs & (_ & Hd & _)%usable_spec & _).
  cbv zeta. unfold createTracked, bind, gets. cbn [fst snd]. rewrite Hd, onStore_create.
  destruct (enqueue_cases src (store_ s) w input Hs Hwf) as (res & t & w1 & Ho & E).
  rewrite E. cbv zeta. cbn [fst snd]. destruct Ho as
    [Hv|t Hv Hall Ht Hsl _|i t w1 Hv Hi Hh Hc|i x t w1 Hv Hi [Hh Hc]|i x t w1 Hv Hi Hx1 Hx2 Hx3 Ht Hr];
    cbn [NodeEventStore.enqueue_status normalize]; decide_eqs; cbn [negb ret fst snd].
  - replace (s <| store_ := store_ s |>) with s by (by destruct s). by apply creation_invalid.
  - apply creation_full; [done|done| |by eapply working_store].
    intros j. unfold record_at, slot_at. cbn. by rewrite Hsl.
  - eapply creation_failed; [by apply broken_store|exact Hc|done].
  - destruct Hc as [Hc|Hc]; (eapply creation_failed; [by apply broken_store|exact Hc|]); [done|].
    intros j Hj. unfold replaced. rewrite decide_False; [done|]. intros ->. by destruct Hi as (_ & Hf & _); rewrite Hj in Hf.
  - unfold outside, zoom. cbn [fst snd].
    set (s1 := s <| store_ := t |>). set (w2 := (clock w1).2). set (now := (clock w1).1).
    assert (Hw1 : working src s1 w2).
    { subst s1. eapply working_store; [exact Hw|]. eapply sound_same; [apply clock_keeps|exact Ht]. }
    assert (Hq : nr_state (record_at (store_ s1) i) = NodeState.QUEUED).
    { change (store_ s1) with t. rewrite Hr. unfold replaced. by rewrite decide_True. }
    destruct (track_starts src i (u32 now) s1 w2 Hw1 (proj1 Hi) Hq) as (s' & Et & Hw' & Hst & Hrt).
    cbn [lastResult_ NodeEventStore.enqueue_slot]. rewrite Et. cbn [fst snd]. decide_eqs. cbn [negb ret fst snd].
    eapply creation_done; try done. intros j. rewrite Hst. change (store_ s1) with t. apply Hr.
Qed.

(** C36. An event reported as created is in the store and its lifetime runs.  Ask the
    Node's sink to create an event while the controller and its store work.  If it
    answers ENQUEUED, the event is in the first slot that was free, queued with its
    content under an identity later than every one in custody, all other records are
    as they were, its lifetime is counted from the time read after the store had it,
    and everything still works.  If it answers that the queue is full, all slots held
    events, and if that the event is invalid, it is; nothing has changed.  If it
    reports a storage failure, the controller no longer serves, and the flash keeps
    every record that held an event. *)
Theorem created_event_tracked src s w input sink :
  working src s w → input_wf input →
  let out := createTracked input (sink, (s, w)) in
  creation src s w input out.1 out.2.1 out.2.2.1 out.2.2.2.
Proof. apply createTracked_ends. Qed.

End Creation.

(** ** A board with a clock *)

Import DeliveryLife.

#[export] Instance board_clock : Clock Board := { clock b := (4294967296 + 7000, b) }.

#[export] Instance board_quiet_clock : QuietClock Board.
Proof. split. intros w. by split. Qed.

Lemma after_works cs :
  usable (after cs).1 = true → policyBound_ (policy_ (after cs).1) = true →
  metered (policy_ (after cs).1) → working 17 (after cs).1 (after cs).2.
Proof.
  intros Hu Hb Hm. split; [|done]. pose proof Hu as (_ & _ & _ & Hh & _)%usable_spec.
  destruct (after_ok cs) as (R & [[Hs _]|[Hf _]] & _); [done|]. cbn [fst] in Hf. congruence.
Qed.

Abbreviation running := (after [Recover 17 1 1000 false None]).

Lemma running_usable : usable running.1 = true ∧ policyBound_ (policy_ running.1) = true.
Proof. vm_compute. by split. Qed.

Lemma running_runtime : runtime_ (policy_ running.1) = mkRuntime true 1000 0 :: replicate 7 zeroRuntime.
Proof. vm_compute. reflexivity. Qed.

Lemma running_metered : metered (policy_ running.1).
Proof.
  split; rewrite running_runtime; [done|]. intros i. do 9 (destruct i as [|i]; [cbn; lia|]). cbn. lia.
Qed.

Lemma running_works : working 17 running.1 running.2.
Proof.
  exact (after_works [Recover 17 1 1000 false None] (proj1 running_usable) (proj2 running_usable)
    running_metered).
Qed.

Lemma created_event_tracked_witness :
  let out := createTracked longInput (newStoreSink, (running.1, running.2)) in
  creation 17 running.1 running.2 longInput out.1 out.2.1 out.2.2.1 out.2.2.2
  ∧ out.1 = ENQUEUED ∧ runtime_at 1 out.2.2.1 = mkRuntime true 7000 0.
Proof.
  intros out. split; [|vm_compute; by split].
  exact (created_event_tracked 17 running.1 running.2 longInput newStoreSink running_works
    ltac:(unfold input_wf; split_and!; concrete)).
Defined.

End CreationFacts.
