(* ===== verification/Ui.v ===== *)
(** * The user interface of a device

    [DeviceUi] is device_ui.h: the screens, the settings editor and the controller
    that turns button events into navigation, settings drafts and requests to
    render.  What the screens show is in Screens.v.  [SettingsIntegration],
    [HubSettingsIntegration] and [NodeSettingsIntegration] are the headers of those
    names: the queue of settings requests, the configuration state of a load, save
    or reset, and when persistence is safe. *)

From S2P Require Import Prelude Diagnostics Settings Input.

Module DeviceUi.

Import DeviceSettings.

(* device_ui.h:13-21 Screen *)
Inductive Screen := HOME | RADIO | DEVICE | LAST_PACKET | DIAGNOSTICS | ABOUT | EVENT_DIAGNOSTICS.

#[export] Instance Screen_eq_dec : EqDecision Screen.
Proof. solve_decision. Defined.

(* device_ui.h:23-30 isLiveScreen *)
Definition isLiveScreen (screen : Screen) : bool :=
  match screen with RADIO | LAST_PACKET | DIAGNOSTICS | EVENT_DIAGNOSTICS => true | _ => false end.

(* device_ui.h:34-36 isButtonProducerScreen *)
Definition isButtonProducerScreen (screen : Screen) : bool :=
  match screen with HOME | EVENT_DIAGNOSTICS => false | _ => true end.

(* device_ui.h:38-44 UiAction *)
Inductive UiAction := NO_ACTION | RENDER | DISPLAY_ON | DISPLAY_ON_AND_RENDER | DISPLAY_OFF.

#[export] Instance UiAction_eq_dec : EqDecision UiAction.
Proof. solve_decision. Defined.

(* device_ui.h:46-50 EditorAction *)
Inductive EditorAction := NO_REQUEST | SAVE_SETTINGS_REQUEST | FACTORY_RESET_REQUEST.

#[export] Instance EditorAction_eq_dec : EqDecision EditorAction.
Proof. solve_decision. Defined.

(* device_ui.h:52-62 EditorItem *)
Inductive EditorItem :=
  DISPLAY_TIMEOUT | DISPLAY_CONTRAST | LED_ENABLED | DIAGNOSTICS_ENABLED | DEFAULT_SCREEN_ITEM
| BUTTON_FEEDBACK | SAVE | CANCEL | FACTORY_RESET.

#[export] Instance EditorItem_eq_dec : EqDecision EditorItem.
Proof. solve_decision. Defined.

(* device_ui.h:64-69 ConfigurationSource *)
Inductive ConfigurationSource := SOURCE_NONE | SOURCE_DEFAULTS | SLOT_A | SLOT_B.

(* device_ui.h:71-84 ConfigurationStatus *)
Inductive ConfigurationStatus :=
  NOT_SUPPLIED | LOADED | DEFAULTED | FALLBACK | REPAIRED | UNSUPPORTED | UNAVAILABLE
| RESET_COMPLETED | SAVED | UNCHANGED | SAVE_FAILED | RESET_FAILED.

(* device_ui.h:86-91 PeerState *)
Inductive PeerState := PEER_UNKNOWN | PEER_REACHABLE | PEER_DEGRADED | PEER_SEEN.

#[export] Instance PeerState_eq_dec : EqDecision PeerState.
Proof. solve_decision. Defined.

(* device_ui.h:148-153 EditorPresentationInput *)
Record EditorPresentationInput := mkEditorInput {
  ei_selectedItem : EditorItem;
  ei_draft : Settings;
  ei_dirty : bool;
  ei_resetArmed : bool
}.

(* device_ui.h:893 DEFAULT_INACTIVITY_TIMEOUT_MS *)
Definition DEFAULT_INACTIVITY_TIMEOUT_MS : Z := 30000.

(* device_ui.h:894 DEFAULT_MINIMUM_RENDER_INTERVAL_MS *)
Definition DEFAULT_MINIMUM_RENDER_INTERVAL_MS : Z := 100.

(* device_ui.h:895 DEFAULT_LIVE_REFRESH_INTERVAL_MS *)
Definition DEFAULT_LIVE_REFRESH_INTERVAL_MS : Z := 1000.

(* device_ui.h:896 RESET_CONFIRMATION_TIMEOUT_MS *)
Definition RESET_CONFIRMATION_TIMEOUT_MS : Z := 10000.

(* device_ui.h:1318-1339 = Controller fields *)
Record Controller := mkUi {
  inactivityTimeoutMs_ : Z;
  minimumRenderIntervalMs_ : Z;
  liveRefreshIntervalMs_ : Z;
  screen_ : Screen;
  displayAwake_ : bool;
  dirty_ : bool;
  renderPending_ : bool;
  dirtyWhileRenderPending_ : bool;
  displayOnPending_ : bool;
  suppressWakeGesture_ : bool;
  wakeGestureWasLong_ : bool;
  hasRendered_ : bool;
  lastInputAtMs_ : Z;
  lastRenderAtMs_ : Z;
  lastLiveRefreshAtMs_ : Z;
  currentSettings_ : Settings;
  draftSettings_ : Settings;
  selectedEditorItem_ : EditorItem;
  pendingEditorAction_ : EditorAction;
  editorActive_ : bool;
  resetArmed_ : bool;
  resetArmedAtMs_ : Z
}.

#[export] Instance eta_Controller : RecEta Controller := λ c,
  mkUi (inactivityTimeoutMs_ c) (minimumRenderIntervalMs_ c) (liveRefreshIntervalMs_ c) (screen_ c)
    (displayAwake_ c) (dirty_ c) (renderPending_ c) (dirtyWhileRenderPending_ c)
    (displayOnPending_ c) (suppressWakeGesture_ c) (wakeGestureWasLong_ c) (hasRendered_ c)
    (lastInputAtMs_ c) (lastRenderAtMs_ c) (lastLiveRefreshAtMs_ c) (currentSettings_ c)
    (draftSettings_ c) (selectedEditorItem_ c) (pendingEditorAction_ c) (editorActive_ c)
    (resetArmed_ c) (resetArmedAtMs_ c).

(* device_ui.h:898-909 Controller::Controller *)
Definition newUi (initialTimeMs inactivityTimeoutMs minimumRenderIntervalMs liveRefreshIntervalMs : Z)
    : Controller :=
  mkUi inactivityTimeoutMs minimumRenderIntervalMs liveRefreshIntervalMs HOME true true false false
    false false false false initialTimeMs 0 initialTimeMs defaults defaults DISPLAY_TIMEOUT NO_REQUEST
    false false 0.

(* device_ui.h:1129-1131 Controller::elapsed *)
Definition elapsed (nowMs sinceMs : Z) : Z := u32 (nowMs - sinceMs).

(** ** Rendering *)

(* device_ui.h:1290-1295 Controller::invalidate *)
Definition invalidate (c : Controller) : Controller :=
  c <| dirty_ := true |>
    <| dirtyWhileRenderPending_ := if renderPending_ c then true else dirtyWhileRenderPending_ c |>.

(* device_ui.h:1297-1300 Controller::beginRenderRequest *)
Definition beginRenderRequest (c : Controller) : Controller :=
  c <| renderPending_ := true |> <| dirtyWhileRenderPending_ := false |>.

(* device_ui.h:981-983 Controller::markDirty *)
Definition markDirty (c : Controller) : Controller := invalidate c.

(* device_ui.h:1113-1126 Controller::recordRendered *)
Definition recordRendered (nowMs : Z) (c : Controller) : Controller :=
  if negb (renderPending_ c) then c else
  c <| renderPending_ := false |> <| dirty_ := dirtyWhileRenderPending_ c |>
    <| dirtyWhileRenderPending_ := false |> <| hasRendered_ := true |> <| lastRenderAtMs_ := nowMs |>
    <| lastLiveRefreshAtMs_ := if negb (editorActive_ c) && isLiveScreen (screen_ c) then nowMs
                               else lastLiveRefreshAtMs_ c |>.

(** ** Settings and screens from outside *)

(* device_ui.h:923-928 Controller::setCurrentSettings *)
Definition setCurrentSettings (settings : Settings) (c : Controller) : Controller :=
  c <| currentSettings_ := settings |>
    <| draftSettings_ := if negb (editorActive_ c) then settings else draftSettings_ c |>.

(* device_ui.h:930-933 Controller::setInactivityTimeoutMs *)
Definition setInactivityTimeoutMs (timeoutMs nowMs : Z) (c : Controller) : Controller :=
  c <| inactivityTimeoutMs_ := timeoutMs |> <| lastInputAtMs_ := nowMs |>.

(* device_ui.h:935-940 Controller::selectConfiguredScreen *)
Definition selectConfiguredScreen (screen : Screen) (c : Controller) : Controller :=
  if negb (bool_decide (screen_ c = screen)) then invalidate (c <| screen_ := screen |>) else c.

(* device_ui.h:958-960 Controller::editorDirty *)
Definition editorDirty (c : Controller) : bool :=
  negb (settings_eqb (draftSettings_ c) (currentSettings_ c)).

(* device_ui.h:966-973 Controller::editorPresentation *)
Definition editorPresentation (c : Controller) : EditorPresentationInput :=
  mkEditorInput (selectedEditorItem_ c) (draftSettings_ c) (editorDirty c) (resetArmed_ c).

(* device_ui.h:975-979 Controller::takeEditorAction *)
Definition takeEditorAction : st Controller EditorAction := λ c,
  (pendingEditorAction_ c, c <| pendingEditorAction_ := NO_REQUEST |>).

(** ** The editor *)

(* device_ui.h:1133-1152 Controller::nextScreen *)
Definition nextScreen (screen : Screen) : Screen :=
  match screen with
  | HOME => EVENT_DIAGNOSTICS
  | EVENT_DIAGNOSTICS => RADIO
  | RADIO => DEVICE
  | DEVICE => LAST_PACKET
  | LAST_PACKET => DIAGNOSTICS
  | DIAGNOSTICS => ABOUT
  | ABOUT => HOME
  end.

(** The enumerator after [item], and the first after the last. *)
(* device_ui.h:1154-1159 Controller::nextEditorItem *)
Definition nextEditorItem (item : EditorItem) : EditorItem :=
  match item with
  | DISPLAY_TIMEOUT => DISPLAY_CONTRAST
  | DISPLAY_CONTRAST => LED_ENABLED
  | LED_ENABLED => DIAGNOSTICS_ENABLED
  | DIAGNOSTICS_ENABLED => DEFAULT_SCREEN_ITEM
  | DEFAULT_SCREEN_ITEM => BUTTON_FEEDBACK
  | BUTTON_FEEDBACK => SAVE
  | SAVE => CANCEL
  | CANCEL => FACTORY_RESET
  | FACTORY_RESET => DISPLAY_TIMEOUT
  end.

(* device_ui.h:1162-1169 = Controller::nextPreset, the loop *)
Fixpoint presetAfter (current : Z) (presets : list Z) : option Z :=
  match presets with
  | [] => None
  | x :: l => if current <? x then Some x else presetAfter current l
  end.

(* device_ui.h:1161-1169 Controller::nextPreset *)
Definition nextPreset (current : Z) (presets : list Z) : Z :=
  match presetAfter current presets with Some x => x | None => nth 0 presets 0 end.

(* device_ui.h:1191-1193 = TIMEOUT_PRESETS *)
Definition TIMEOUT_PRESETS : list Z := [0; 15; 30; 60; 120; 300; 600].

(* device_ui.h:1194-1196 = CONTRAST_PRESETS *)
Definition CONTRAST_PRESETS : list Z := [32; 64; 128; 207; 255].

(* device_ui.h:1171-1178 Controller::enterEditor *)
Definition enterEditor (nowMs : Z) (c : Controller) : Controller :=
  invalidate
    (c <| editorActive_ := true |> <| draftSettings_ := currentSettings_ c |>
       <| selectedEditorItem_ := DISPLAY_TIMEOUT |> <| resetArmed_ := false |>
       <| lastInputAtMs_ := nowMs |>).

(* device_ui.h:1180-1188 Controller::exitEditor *)
Definition exitEditor (retainDraft : bool) (c : Controller) : Controller :=
  invalidate
    (c <| editorActive_ := false |> <| resetArmed_ := false |>
       <| selectedEditorItem_ := DISPLAY_TIMEOUT |>
       <| draftSettings_ := if negb retainDraft then currentSettings_ c else draftSettings_ c |>).

(** What a setting becomes when it is advanced. *)
(* device_ui.h:1197-1235 = Controller::advanceSelectedSetting, the switch *)
Definition advanced (item : EditorItem) (d : Settings) : Settings :=
  match item with
  | DISPLAY_TIMEOUT =>
      d <| displayTimeoutSeconds := nextPreset (displayTimeoutSeconds d) TIMEOUT_PRESETS |>
  | DISPLAY_CONTRAST => d <| displayContrast := nextPreset (displayContrast d) CONTRAST_PRESETS |>
  | LED_ENABLED => d <| ledEnabled := negb (ledEnabled d) |>
  | DIAGNOSTICS_ENABLED => d <| diagnosticsEnabled := negb (diagnosticsEnabled d) |>
  | DEFAULT_SCREEN_ITEM =>
      let next := u8 (defaultScreen d + 1) in
      d <| defaultScreen := if DefaultScreen.ABOUT <? next then DefaultScreen.HOME else next |>
  | BUTTON_FEEDBACK => d <| buttonFeedbackEnabled := negb (buttonFeedbackEnabled d) |>
  | SAVE | CANCEL | FACTORY_RESET => d
  end.

(* device_ui.h:1190-1236 Controller::advanceSelectedSetting *)
Definition advanceSelectedSetting (c : Controller) : Controller :=
  c <| draftSettings_ := advanced (selectedEditorItem_ c) (draftSettings_ c) |>.

(* device_ui.h:1260-1288 Controller::activateEditorItem *)
Definition activateEditorItem (nowMs : Z) (c : Controller) : Controller :=
  if bool_decide (selectedEditorItem_ c = SAVE)
  then exitEditor true (c <| pendingEditorAction_ := SAVE_SETTINGS_REQUEST |>) else
  if bool_decide (selectedEditorItem_ c = CANCEL) then exitEditor false c else
  if bool_decide (selectedEditorItem_ c = FACTORY_RESET) then
    if resetArmed_ c && (elapsed nowMs (resetArmedAtMs_ c) <=? RESET_CONFIRMATION_TIMEOUT_MS)
    then exitEditor false (c <| pendingEditorAction_ := FACTORY_RESET_REQUEST |>)
    else invalidate (c <| resetArmed_ := true |> <| resetArmedAtMs_ := nowMs |>)
  else
  invalidate (advanceSelectedSetting (c <| resetArmed_ := false |>)).

(* device_ui.h:1238-1258 Controller::handleEditor *)
Definition handleEditor (event : DeviceInput.ButtonEvent) (nowMs : Z) (c : Controller) : Controller :=
  match event with
  | DeviceInput.PRESS => c <| lastInputAtMs_ := nowMs |>
  | DeviceInput.SHORT_PRESS =>
      invalidate (c <| selectedEditorItem_ := nextEditorItem (selectedEditorItem_ c) |>
                    <| resetArmed_ := false |> <| lastInputAtMs_ := nowMs |>)
  | DeviceInput.LONG_PRESS => activateEditorItem nowMs (c <| lastInputAtMs_ := nowMs |>)
  | _ => c
  end.

(* device_ui.h:1302-1316 Controller::handleSuppressedWakeGesture *)
Definition handleSuppressedWakeGesture (event : DeviceInput.ButtonEvent) (c : Controller)
    : Controller :=
  match event with
  | DeviceInput.LONG_PRESS | DeviceInput.VERY_LONG_PRESS => c <| wakeGestureWasLong_ := true |>
  | DeviceInput.SHORT_PRESS => c <| suppressWakeGesture_ := false |>
  | DeviceInput.RELEASE =>
      if wakeGestureWasLong_ c then c <| suppressWakeGesture_ := false |> else c
  | _ => c
  end.

(** ** Button events *)

(** On a normal screen. *)
(* device_ui.h:1009-1035 = Controller::handle, the switch *)
Definition navigate (event : DeviceInput.ButtonEvent) (nowMs : Z) (c : Controller) : Controller :=
  match event with
  | DeviceInput.PRESS => c <| lastInputAtMs_ := nowMs |>
  | DeviceInput.SHORT_PRESS =>
      invalidate (c <| screen_ := nextScreen (screen_ c) |> <| lastInputAtMs_ := nowMs |>)
  | DeviceInput.LONG_PRESS =>
      let c := c <| lastInputAtMs_ := nowMs |> in
      if negb (bool_decide (screen_ c = HOME)) then invalidate (c <| screen_ := HOME |>) else c
  | DeviceInput.VERY_LONG_PRESS => enterEditor nowMs c
  | _ => c
  end.

(* device_ui.h:985-1036 Controller::handle *)
Definition handle (event : DeviceInput.ButtonEvent) (nowMs : Z) (c : Controller) : Controller :=
  if negb (displayAwake_ c) then
    match event with
    | DeviceInput.PRESS =>
        invalidate (c <| displayAwake_ := true |> <| displayOnPending_ := true |>
                      <| suppressWakeGesture_ := true |> <| wakeGestureWasLong_ := false |>
                      <| lastInputAtMs_ := nowMs |>)
    | _ => c
    end else
  if suppressWakeGesture_ c then handleSuppressedWakeGesture event c else
  if editorActive_ c then handleEditor event nowMs c else
  navigate event nowMs c.

(** ** The passage of time *)

(** The display goes dark. *)
(* device_ui.h:1049-1053 = Controller::update, the display off *)
Definition displayOff (c : Controller) : Controller :=
  c <| displayAwake_ := false |> <| displayOnPending_ := false |> <| renderPending_ := false |>
    <| dirtyWhileRenderPending_ := false |>.

(** An armed reset lapses while the editor is open. *)
(* device_ui.h:1055-1062 = Controller::update, an armed reset *)
Definition disarm (nowMs : Z) (c : Controller) : Controller :=
  if editorActive_ c && resetArmed_ c
     && (RESET_CONFIRMATION_TIMEOUT_MS <? elapsed nowMs (resetArmedAtMs_ c))
  then invalidate (c <| resetArmed_ := false |>) else c.

(** A live screen is rendered again from time to time. *)
(* device_ui.h:1082-1089 = Controller::update, a live screen *)
Definition refresh (nowMs : Z) (c : Controller) : Controller :=
  if negb (dirty_ c) && negb (editorActive_ c) && isLiveScreen (screen_ c)
     && (liveRefreshIntervalMs_ c <=? elapsed nowMs (lastLiveRefreshAtMs_ c))
  then invalidate c else c.

(** What an awake display is asked to do. *)
(* device_ui.h:1082-1109 = Controller::update, an awake display *)
Definition requestRender (nowMs : Z) : st Controller UiAction := λ c,
  let c := refresh nowMs c in
  let renderEligible :=
    negb (hasRendered_ c) || (minimumRenderIntervalMs_ c <=? elapsed nowMs (lastRenderAtMs_ c)) in
  let wanted := dirty_ c && negb (renderPending_ c) && renderEligible in
  if displayOnPending_ c then
    let c := c <| displayOnPending_ := false |> in
    if wanted then (DISPLAY_ON_AND_RENDER, beginRenderRequest c) else (DISPLAY_ON, c)
  else if wanted then (RENDER, beginRenderRequest c) else (NO_ACTION, c).

(* device_ui.h:1038-1110 Controller::update *)
Definition update (nowMs : Z) : st Controller UiAction := λ c,
  let editorTimeoutMs := u32 (displayTimeoutSeconds (currentSettings_ c) * 1000) in
  if editorActive_ c && negb (editorTimeoutMs =? 0)
     && (editorTimeoutMs <=? elapsed nowMs (lastInputAtMs_ c))
  then (DISPLAY_OFF, displayOff (exitEditor false c)) else
  let c := disarm nowMs c in
  if negb (editorActive_ c) && displayAwake_ c && negb (inactivityTimeoutMs_ c =? 0)
     && (inactivityTimeoutMs_ c <=? elapsed nowMs (lastInputAtMs_ c))
  then (DISPLAY_OFF, displayOff c) else
  if negb (displayAwake_ c) then (NO_ACTION, c) else
  requestRender nowMs c.

End DeviceUi.

Module SettingsIntegration.

Import DeviceSettings.

(* settings_integration.h:10-15 = enum class Request *)
Inductive Request := NO_REQUEST | AUTOMATIC_REPAIR | SAVE | FACTORY_RESET.

#[export] Instance Request_eq_dec : EqDecision Request.
Proof. solve_decision. Defined.

(* settings_integration.h:52-55 = RequestQueue, its members *)
Record RequestQueue := mkQueue {
  pending_ : Request;
  saveDraft_ : Settings
}.

(* settings_integration.h:52-55 = RequestQueue, as constructed *)
Definition newQueue : RequestQueue := mkQueue NO_REQUEST defaults.

(* settings_integration.h:19-24 RequestQueue::queueAutomaticRepair *)
Definition queueAutomaticRepair (q : RequestQueue) : RequestQueue :=
  match pending_ q with NO_REQUEST => mkQueue AUTOMATIC_REPAIR defaults | _ => q end.

(* settings_integration.h:26-32 RequestQueue::queueSave *)
Definition queueSave (draft : Settings) (q : RequestQueue) : RequestQueue :=
  match pending_ q with FACTORY_RESET => q | _ => mkQueue SAVE draft end.

(* settings_integration.h:34-37 RequestQueue::queueFactoryReset *)
Definition queueFactoryReset (q : RequestQueue) : RequestQueue := mkQueue FACTORY_RESET defaults.

(* settings_integration.h:47-50 RequestQueue::clear *)
Definition clear (q : RequestQueue) : RequestQueue := mkQueue NO_REQUEST defaults.

(* settings_integration.h:57-59 timeoutMs *)
Definition timeoutMs (settings : Settings) : Z := u32 (displayTimeoutSeconds settings * 1000).

(* settings_integration.h:61-77 screen *)
Definition screen (value : Z) : DeviceUi.Screen :=
  if value =? DefaultScreen.HOME then DeviceUi.HOME else
  if value =? DefaultScreen.RADIO then DeviceUi.RADIO else
  if value =? DefaultScreen.DEVICE then DeviceUi.DEVICE else
  if value =? DefaultScreen.LAST_PACKET then DeviceUi.LAST_PACKET else
  if value =? DefaultScreen.DIAGNOSTICS then DeviceUi.DIAGNOSTICS else
  if value =? DefaultScreen.ABOUT then DeviceUi.ABOUT else
  DeviceUi.HOME.

(* settings_integration.h:79-88 source *)
Definition source (manager : SettingsManager) : DeviceUi.ConfigurationSource :=
  if negb (hasActiveSlot_ manager) then DeviceUi.SOURCE_DEFAULTS else
  match activeSlot_ manager with A => DeviceUi.SLOT_A | B => DeviceUi.SLOT_B end.

(* settings_integration.h:90-99 = struct ConfigurationState *)
Record ConfigurationState := mkConfiguration {
  cs_status : DeviceUi.ConfigurationStatus;
  cs_source : DeviceUi.ConfigurationSource;
  cs_generationAvailable : bool;
  cs_generation : Z;
  cs_repairPending : bool;
  cs_unsupportedPreserved : bool
}.

#[export] Instance eta_ConfigurationState : RecEta ConfigurationState := λ s,
  mkConfiguration (cs_status s) (cs_source s) (cs_generationAvailable s) (cs_generation s)
    (cs_repairPending s) (cs_unsupportedPreserved s).

(* settings_integration.h:101-111 snapshot *)
Definition snapshot (manager : SettingsManager) : ConfigurationState :=
  mkConfiguration DeviceUi.NOT_SUPPLIED (source manager) (hasActiveSlot_ manager)
    (generation_ manager) (repairPending_ manager) (unsupportedSchema manager).

(* settings_integration.h:113-147 fromLoad *)
Definition fromLoad (result : LoadStatus.t) (manager : SettingsManager) : ConfigurationState :=
  let state := snapshot manager in
  match result with
  | LoadStatus.LOADED => state <| cs_status := DeviceUi.LOADED |>
  | LoadStatus.LOADED_FALLBACK_SLOT => state <| cs_status := DeviceUi.FALLBACK |>
  | LoadStatus.REPAIRED_SCHEMA_1 => state <| cs_status := DeviceUi.REPAIRED |>
  | LoadStatus.DEFAULTED_MISSING | LoadStatus.DEFAULTED_CORRUPT =>
      state <| cs_status := DeviceUi.DEFAULTED |>
  | LoadStatus.UNSUPPORTED_SCHEMA =>
      state <| cs_status := DeviceUi.UNSUPPORTED |> <| cs_unsupportedPreserved := true |>
  | LoadStatus.STORAGE_UNAVAILABLE => state <| cs_status := DeviceUi.UNAVAILABLE |>
  | LoadStatus.RESET_COMPLETED => state <| cs_status := DeviceUi.RESET_COMPLETED |>
  | LoadStatus.RESET_RECOVERY_FAILED => state <| cs_status := DeviceUi.RESET_FAILED |>
  end.

(* settings_integration.h:149-175 fromSave *)
Definition fromSave (result : SaveStatus.t) (manager : SettingsManager) : ConfigurationState :=
  let state := snapshot manager in
  match result with
  | SaveStatus.SAVED | SaveStatus.REPAIRED_SAVED => state <| cs_status := DeviceUi.SAVED |>
  | SaveStatus.UNCHANGED | SaveStatus.REPAIRED_UNCHANGED =>
      state <| cs_status := DeviceUi.UNCHANGED |>
  | SaveStatus.UNSUPPORTED_SCHEMA =>
      state <| cs_status := DeviceUi.UNSUPPORTED |> <| cs_unsupportedPreserved := true |>
  | SaveStatus.STORAGE_UNAVAILABLE | SaveStatus.WRITE_FAILED | SaveStatus.READ_BACK_FAILED
  | SaveStatus.VERIFICATION_FAILED => state <| cs_status := DeviceUi.SAVE_FAILED |>
  end.

(* settings_integration.h:177-186 fromReset *)
Definition fromReset (result : ResetResult.t) (manager : SettingsManager) : ConfigurationState :=
  (snapshot manager) <| cs_status := if bool_decide (result = ResetResult.RESET_COMPLETED)
                                   then DeviceUi.RESET_COMPLETED else DeviceUi.RESET_FAILED |>.

(* settings_integration.h:188-191 saveSucceeded *)
Definition saveSucceeded (result : SaveStatus.t) : bool :=
  match result with SaveStatus.SAVED | SaveStatus.REPAIRED_SAVED => true | _ => false end.

(* settings_integration.h:193-201 feedbackAllowed *)
Definition feedbackAllowed (settings : Settings) (event : DeviceInput.ButtonEvent) : bool :=
  ledEnabled settings && buttonFeedbackEnabled settings
  && match event with
     | DeviceInput.SHORT_PRESS | DeviceInput.LONG_PRESS | DeviceInput.VERY_LONG_PRESS => true
     | _ => false
     end.

End SettingsIntegration.

Module HubSettingsIntegration.

(* hub_settings_integration.h:20-32 persistenceSafe *)
Definition persistenceSafe (phase : RuntimeState.RuntimePhase) (awaitingAcknowledgment retryScheduled
    radioEventPending rendering : bool) : bool :=
  match phase with RuntimeState.IDLE => true | _ => false end
  && negb awaitingAcknowledgment && negb retryScheduled && negb radioEventPending && negb rendering.

End HubSettingsIntegration.

Module NodeSettingsIntegration.

Import SettingsIntegration.

(* node_settings_integration.h:20-31 = struct SafePointState *)
Record SafePointState := mkSafePoint {
  acknowledgmentCompleted : bool;
  quietListeningMaintenance : bool;
  processingInbound : bool;
  validatingCommand : bool;
  preparingAcknowledgment : bool;
  acknowledgmentPending : bool;
  duplicateReplayPending : bool;
  radioEventPending : bool;
  radioStandby : bool;
  rendering : bool
}.

(* node_settings_integration.h:33-44 persistenceSafe *)
Definition persistenceSafe (state : SafePointState) : bool :=
  (acknowledgmentCompleted state || quietListeningMaintenance state)
  && negb (processingInbound state) && negb (validatingCommand state)
  && negb (preparingAcknowledgment state) && negb (acknowledgmentPending state)
  && negb (duplicateReplayPending state) && negb (radioEventPending state)
  && radioStandby state && negb (rendering state).

(* node_settings_integration.h:46-62 quietMaintenanceAllowed *)
Definition quietMaintenanceAllowed (request : Request) (attemptArmed : bool)
    (phase : RuntimeState.RuntimePhase)
    (radioEventPending acknowledgmentObligation duplicateReplayObligation rendering : bool) : bool :=
  negb (bool_decide (request = NO_REQUEST)) && attemptArmed
  && match phase with RuntimeState.LISTENING => true | _ => false end
  && negb radioEventPending && negb acknowledgmentObligation && negb duplicateReplayObligation
  && negb rendering.

(* node_settings_integration.h:64-68 = enum class AcquisitionOutcome *)
Inductive AcquisitionOutcome := OWNED | EVENT_PENDING | STANDBY_FAILED.

(* node_settings_integration.h:70-80 classifyAcquisition *)
Definition classifyAcquisition (standbySucceeded radioEventPending : bool) : AcquisitionOutcome :=
  if radioEventPending then EVENT_PENDING else if standbySucceeded then OWNED else STANDBY_FAILED.

(* node_settings_integration.h:82-84 restoreReceiveImmediately *)
Definition restoreReceiveImmediately (outcome : AcquisitionOutcome) : bool :=
  match outcome with EVENT_PENDING => false | _ => true end.

End NodeSettingsIntegration.
