(* ===== verification/UiFacts.v ===== *)
(** * What the user interface promises

    Over every run of calls a device makes on the controller: what was last
    rendered is what is to be shown unless a render is owed, and a render owed is
    asked for; a factory reset is requested only by two long presses on its item,
    at most ten seconds apart and with no other press between; the settings handed
    over for saving are valid and are saved as they are. *)

From S2P Require Import Prelude Settings SettingsFacts SettingsLife Input Ui.

Module UiFacts.

Import DeviceSettings SettingsFacts.SettingsFacts DeviceUi.

(** ** Runs of the controller

    The calls of the sketches: a button event, the periodic update, the end of a
    render, a change of what is shown besides the controller's own state, new
    settings, and taking the editor's request. *)

Inductive call :=
| Handle (event : DeviceInput.ButtonEvent) (nowMs : Z)
| Update (nowMs : Z)
| Rendered (nowMs : Z)
| Changed
| Apply (settings : Settings) (nowMs : Z) (applyDefaultScreen : bool)
| Take.

(** New settings, as [applyCurrentSettings] of the sketches hands them on. *)
Definition apply (settings : Settings) (nowMs : Z) (applyDefaultScreen : bool) (c : Controller)
    : Controller :=
  let c := setInactivityTimeoutMs (SettingsIntegration.timeoutMs settings) nowMs
             (setCurrentSettings settings c) in
  markDirty (if applyDefaultScreen
             then selectConfiguredScreen (SettingsIntegration.screen (defaultScreen settings)) c else c).

Definition perform (k : call) (c : Controller) : Controller :=
  match k with
  | Handle event nowMs => handle event nowMs c
  | Update nowMs => (update nowMs c).2
  | Rendered nowMs => recordRendered nowMs c
  | Changed => markDirty c
  | Apply settings nowMs applyDefaultScreen => apply settings nowMs applyDefaultScreen c
  | Take => (takeEditorAction c).2
  end.

Fixpoint performAll (l : list call) (c : Controller) : Controller :=
  match l with [] => c | k :: l' => performAll l' (perform k c) end.

Lemma performAll_app l1 l2 c : performAll (l1 ++ l2) c = performAll l2 (performAll l1 c).
Proof. revert c. induction l1 as [|k l1 IH]; intros c; [done|exact (IH _)]. Qed.

(** An invariant of each call is one of every run. *)
Lemma performed_keep (P : Controller → Prop) (ok : call → Prop) l c :
  (∀ k d, ok k → P d → P (perform k d)) → Forall ok l → P c → P (performAll l c).
Proof.
  intros Hstep Hl. revert c. induction Hl as [|k l Hk _ IH]; intros c Hc; [done|].
  apply IH, Hstep; done.
Qed.

#[local] Arguments elapsed : simpl never.
#[local] Arguments nextPreset : simpl never.

Ltac fields :=
  repeat match goal with c : Controller |- _ => destruct c end;
  cbv beta iota zeta delta [rec_set inactivityTimeoutMs_ minimumRenderIntervalMs_
    liveRefreshIntervalMs_ screen_ displayAwake_ dirty_ renderPending_ dirtyWhileRenderPending_
    displayOnPending_ suppressWakeGesture_ wakeGestureWasLong_ hasRendered_ lastInputAtMs_
    lastRenderAtMs_ lastLiveRefreshAtMs_ currentSettings_ draftSettings_ selectedEditorItem_
    pendingEditorAction_ editorActive_ resetArmed_ resetArmedAtMs_ fst snd andb negb orb] in *.

(** ** Rendering *)

(** What the display is to show: a screen or the editor, and the version of all
    that is shown besides. *)
Definition shows (c : Controller) : Screen + EditorPresentationInput :=
  if editorActive_ c then inr (editorPresentation c) else inl (screen_ c).

(** A run, with what was to be shown when the last render was asked for and when
    the last finished one was. *)
Record seen := mkSeen {
  ui : Controller;
  version : nat;
  requested : option ((Screen + EditorPresentationInput) * nat);
  rendered : option ((Screen + EditorPresentationInput) * nat)
}.

Definition toShow (s : seen) : (Screen + EditorPresentationInput) * nat := (shows (ui s), version s).

Definition asksToRender (a : UiAction) : bool :=
  match a with RENDER | DISPLAY_ON_AND_RENDER => true | _ => false end.

Definition observe (k : call) (s : seen) : seen :=
  let ui' := perform k (ui s) in
  match k with
  | Update nowMs =>
      mkSeen ui' (version s)
        (if asksToRender (update nowMs (ui s)).1 then Some (shows ui', version s) else requested s)
        (rendered s)
  | Rendered _ =>
      mkSeen ui' (version s) (requested s)
        (if renderPending_ (ui s) then requested s else rendered s)
  | Changed | Apply _ _ _ => mkSeen ui' (S (version s)) (requested s) (rendered s)
  | _ => mkSeen ui' (version s) (requested s) (rendered s)
  end.

Fixpoint observeAll (l : list call) (s : seen) : seen :=
  match l with [] => s | k :: l' => observeAll l' (observe k s) end.

(** Nothing shown is stale unless a render is owed. *)
Record fresh (s : seen) : Prop := {
  fresh_clean : dirty_ (ui s) = false → renderPending_ (ui s) = false ∧ rendered s = Some (toShow s);
  fresh_pending : renderPending_ (ui s) = true → dirtyWhileRenderPending_ (ui s) = false →
                  requested s = Some (toShow s);
  fresh_editor : editorActive_ (ui s) = true → displayAwake_ (ui s) = true
}.

(** A call that invalidates owes a render. *)
Definition owes (c : Controller) : Prop :=
  dirty_ c = true ∧ (renderPending_ c = true → dirtyWhileRenderPending_ c = true)
  ∧ (editorActive_ c = true → displayAwake_ c = true).

Lemma owes_fresh s : owes (ui s) → fresh s.
Proof. intros (H1 & H2 & H3). split; [congruence| |done]. intros H. rewrite (H2 H). done. Qed.

Lemma invalidate_owes c :
  (editorActive_ c = true → displayAwake_ c = true) → owes (invalidate c).
Proof. intros H. unfold owes, invalidate. fields. split; [done|split; [by case_match|done]]. Qed.

(** A call that touches nothing that is shown. *)
Definition unseen (c d : Controller) : Prop :=
  shows d = shows c ∧ dirty_ d = dirty_ c ∧ renderPending_ d = renderPending_ c
  ∧ dirtyWhileRenderPending_ d = dirtyWhileRenderPending_ c ∧ editorActive_ d = editorActive_ c
  ∧ displayAwake_ d = displayAwake_ c.

Lemma unseen_fresh s d : unseen (ui s) d → fresh s → fresh (mkSeen d (version s) (requested s) (rendered s)).
Proof.
  intros (H1 & H2 & H3 & H4 & H5 & H6) [F1 F2 F3].
  split; unfold toShow; cbn; rewrite ?H1, ?H2, ?H3, ?H4, ?H5, ?H6; auto.
Qed.

Ltac owing := apply invalidate_owes; fields; first [done | assumption | congruence].
Ltac unseen_one := unfold unseen, shows, editorPresentation, editorDirty; fields; by repeat split.
Ltac unseen_case := right; unseen_one.

Lemma activateEditorItem_owes nowMs c : editorActive_ c = true → displayAwake_ c = true →
  owes (activateEditorItem nowMs c).
Proof.
  intros Hed Haw. unfold activateEditorItem, exitEditor, advanceSelectedSetting.
  repeat case_bool_decide; try owing. destruct (_ && _); owing.
Qed.

(** A button event owes a render or changes nothing shown. *)
Lemma handle_cases event nowMs c :
  (editorActive_ c = true → displayAwake_ c = true) →
  owes (handle event nowMs c) ∨ unseen c (handle event nowMs c).
Proof.
  intros Hed. unfold handle. destruct (displayAwake_ c) eqn:Haw; cbn [negb].
  - destruct (suppressWakeGesture_ c).
    { unfold handleSuppressedWakeGesture. destruct event; try (unseen_case).
      destruct (wakeGestureWasLong_ c); unseen_case. }
    destruct (editorActive_ c) eqn:Hea.
    + unfold handleEditor. destruct event; try (unseen_case); left.
      * owing.
      * apply activateEditorItem_owes; by fields.
    + unfold navigate, enterEditor. destruct event; try (unseen_case); try (left; owing).
      case_bool_decide; [unseen_case|left; owing].
  - destruct event; try (unseen_case). left. owing.
Qed.

(** ** The periodic update *)

Abbreviation freshAs c v rq rd := (fresh (mkSeen c v rq rd)).

Lemma refresh_cases nowMs c :
  (editorActive_ c = true → displayAwake_ c = true) → owes (refresh nowMs c) ∨ refresh nowMs c = c.
Proof. intros H. unfold refresh. destruct (_ && _); [left; by apply invalidate_owes|by right]. Qed.

Lemma disarm_cases nowMs c :
  (editorActive_ c = true → displayAwake_ c = true) → owes (disarm nowMs c) ∨ disarm nowMs c = c.
Proof.
  intros H. unfold disarm. destruct (_ && _); [left; apply invalidate_owes; by fields|by right].
Qed.

Lemma begun_fresh c v rd : dirty_ c = true → (editorActive_ c = true → displayAwake_ c = true) →
  freshAs (beginRenderRequest c) v (Some (shows (beginRenderRequest c), v)) rd.
Proof.
  intros Hd He. split; cbn [ui requested rendered]; [|done|].
  - intros Hc. exfalso. revert Hc. unfold beginRenderRequest. fields. congruence.
  - unfold beginRenderRequest. by fields.
Qed.

Lemma requestRender_fresh nowMs c v rq rd :
  freshAs c v rq rd →
  let r := requestRender nowMs c in
  freshAs r.2 v (if asksToRender r.1 then Some (shows r.2, v) else rq) rd.
Proof.
  intros H. unfold requestRender.
  assert (Hr : freshAs (refresh nowMs c) v rq rd).
  { destruct (refresh_cases nowMs c) as [Ho| ->]; [by destruct H|by apply owes_fresh|done]. }
  clear H. generalize dependent (refresh nowMs c). clear c. intros c Hc.
  set (wanted := dirty_ c && _ && _). assert (Hw : wanted = true → dirty_ c = true)
    by (subst wanted; by destruct (dirty_ c)). clearbody wanted.
  destruct Hc as [F1 F2 F3]. cbn [ui] in *.
  destruct (displayOnPending_ c), wanted; cbn [fst snd asksToRender].
  - apply begun_fresh; [|done..]. by apply Hw.
  - apply (unseen_fresh (mkSeen c v rq rd)); [|by split]. unseen_one.
  - apply begun_fresh; [|done..]. by apply Hw.
  - by split.
Qed.

(** Going dark drops a render that is in flight, not what is owed. *)
Lemma displayOff_fresh c v rq rd :
  (dirty_ c = false → renderPending_ c = false ∧ rd = Some (shows c, v)) → editorActive_ c = false →
  freshAs (displayOff c) v rq rd.
Proof. intros H He. split; cbn [ui requested rendered]; unfold toShow; fields; done || naive_solver. Qed.

Lemma update_fresh nowMs c v rq rd :
  freshAs c v rq rd →
  let r := update nowMs c in
  freshAs r.2 v (if asksToRender r.1 then Some (shows r.2, v) else rq) rd.
Proof.
  intros Hc. unfold update. destruct (editorActive_ c && _ && _).
  { apply displayOff_fresh; unfold exitEditor, invalidate; by fields. }
  assert (Hd : freshAs (disarm nowMs c) v rq rd).
  { destruct (disarm_cases nowMs c) as [Ho| ->]; [by destruct Hc|by apply owes_fresh|done]. }
  clear Hc. generalize dependent (disarm nowMs c). clear c. intros c Hc.
  destruct (editorActive_ c) eqn:He; cbn [negb andb].
  - destruct (displayAwake_ c); [by apply requestRender_fresh|done].
  - destruct (displayAwake_ c && _ && _).
    + apply displayOff_fresh; [apply Hc|done].
    + destruct (displayAwake_ c); [by apply requestRender_fresh|done].
Qed.

Lemma apply_owes settings nowMs b c :
  (editorActive_ c = true → displayAwake_ c = true) → owes (apply settings nowMs b c).
Proof.
  intros H. unfold apply, markDirty, selectConfiguredScreen. apply invalidate_owes.
  destruct b; [case_bool_decide|]; cbn [negb]; unfold invalidate, setInactivityTimeoutMs, setCurrentSettings;
    by fields.
Qed.

Lemma observe_fresh k s : fresh s → fresh (observe k s).
Proof.
  destruct s as [c v rq rd]. intros Hc. pose proof (fresh_editor _ Hc) as He. cbn [ui] in He.
  destruct k as [event nowMs|nowMs|nowMs| |settings nowMs b|]; unfold observe, perform; cbn [ui version requested rendered].
  - destruct (handle_cases event nowMs c He) as [H|H]; [by apply owes_fresh|].
    by apply (unseen_fresh (mkSeen c v rq rd)).
  - by apply update_fresh.
  - destruct Hc as [F1 F2 F3]. cbn [ui requested rendered] in *. unfold recordRendered.
    destruct (renderPending_ c) eqn:Hp; cbn [negb];
      [|split; cbn [ui requested rendered]; rewrite ?Hp; done].
    split; cbn [ui requested rendered]; unfold toShow in *; cbn [ui version] in *.
    + intros Hd. split; [by fields|]. rewrite F2; [|done|]; unfold shows, editorPresentation, editorDirty;
        by fields.
    + by fields.
    + by fields.
  - apply owes_fresh. by apply invalidate_owes.
  - apply owes_fresh. by apply apply_owes.
  - apply (unseen_fresh (mkSeen c v rq rd)); [|done]. unfold takeEditorAction. unseen_one.
Qed.

Lemma observeAll_fresh l s : fresh s → fresh (observeAll l s).
Proof. revert s. induction l as [|k l IH]; intros s H; [done|]. by apply IH, observe_fresh. Qed.

(** The shortest time between two renders has passed. *)
Definition eligible (nowMs : Z) (c : Controller) : bool :=
  negb (hasRendered_ c) || (minimumRenderIntervalMs_ c <=? elapsed nowMs (lastRenderAtMs_ c)).

Lemma owed_is_asked nowMs c :
  dirty_ c = true → displayAwake_ c = true → renderPending_ c = false → eligible nowMs c = true →
  asksToRender (update nowMs c).1 = true ∨ (update nowMs c).1 = DISPLAY_OFF.
Proof.
  intros H1 H2 H3 H4. unfold update. destruct (editorActive_ c && _ && _); [by right|].
  assert (Hd : dirty_ (disarm nowMs c) = true ∧ displayAwake_ (disarm nowMs c) = true
    ∧ renderPending_ (disarm nowMs c) = false ∧ eligible nowMs (disarm nowMs c) = true).
  { unfold disarm. destruct (_ && _); [|done]. unfold invalidate, eligible in *. by fields. }
  clear H1 H2 H3 H4. generalize dependent (disarm nowMs c). clear c. intros c (H1 & H2 & H3 & H4).
  destruct (negb (editorActive_ c) && _ && _ && _); [by right|]. rewrite H2. cbn [negb]. left.
  unfold requestRender, refresh. rewrite H1. cbn [negb andb]. rewrite H1, H3.
  unfold eligible in H4. rewrite H4. cbn. by destruct (displayOnPending_ c).
Qed.

(** C37. What the user sees is never stale.  After any sequence of button events,
    updates, finished renders, new settings and changes of what is shown, either
    the controller owes a render or the last finished render was asked for with
    exactly the screen, the editor state and the version of the rest that are
    current now; and a render that is owed while the display is on, none is in
    flight and the minimum interval has passed is asked for by the next update,
    unless that update turns the display off. *)
Theorem view_never_stale l initial timeout interval refreshInterval nowMs :
  let s := observeAll l (mkSeen (newUi initial timeout interval refreshInterval) 0 None None) in
  let c := ui s in
  if negb (dirty_ c) then renderPending_ c = false ∧ rendered s = Some (shows c, version s)
  else negb (displayAwake_ c) || renderPending_ c || negb (eligible nowMs c)
       || asksToRender (update nowMs c).1 || bool_decide ((update nowMs c).1 = DISPLAY_OFF) = true.
Proof.
  intros s c. assert (H : fresh s) by (apply observeAll_fresh; by split).
  destruct (dirty_ c) eqn:Hd; cbn [negb]; [|by apply H].
  destruct (displayAwake_ c) eqn:Ha, (renderPending_ c) eqn:Hp, (eligible nowMs c) eqn:He; try done.
  destruct (owed_is_asked nowMs c Hd Ha Hp He) as [H'|H'];
    [by rewrite H'|by rewrite bool_decide_eq_true_2, orb_true_r].
Qed.

(** ** The factory reset *)

(** The editor is open at the factory reset, and button events reach it. *)
Definition atReset (c : Controller) : Prop :=
  editorActive_ c = true ∧ displayAwake_ c = true ∧ suppressWakeGesture_ c = false
  ∧ selectedEditorItem_ c = FACTORY_RESET.

(** No short or long press. *)
Definition quiet (k : call) : Prop :=
  match k with Handle DeviceInput.SHORT_PRESS _ | Handle DeviceInput.LONG_PRESS _ => False | _ => True end.

(** A call that leaves an armed reset as it is. *)
Definition leaves (c d : Controller) : Prop :=
  resetArmedAtMs_ d = resetArmedAtMs_ c
  ∧ (pendingEditorAction_ d = pendingEditorAction_ c ∨ pendingEditorAction_ d = NO_REQUEST)
  ∧ (resetArmed_ d = true → resetArmed_ c = true ∧ (atReset c → atReset d)).

Ltac left_alone := unfold leaves, atReset, invalidate; fields; intuition congruence.

Lemma leaves_trans c d e : leaves c d → leaves d e → leaves c e.
Proof.
  intros (A1 & A2 & A3) (B1 & B2 & B3). split; [congruence|split; [intuition congruence|]].
  intros H. destruct (B3 H) as [H1 H2]. destruct (A3 H1) as [H3 H4]. auto.
Qed.

Lemma leaves_invalidate c d : leaves c d → leaves c (invalidate d).
Proof. intros H. eapply leaves_trans; [exact H|]. left_alone. Qed.

Lemma requestRender_leaves nowMs c : leaves c (requestRender nowMs c).2.
Proof.
  unfold requestRender. apply leaves_trans with (refresh nowMs c).
  { unfold refresh. destruct (_ && _); left_alone. }
  set (wanted := dirty_ (refresh nowMs c) && _ && _). clearbody wanted.
  generalize (refresh nowMs c). intros d. unfold beginRenderRequest.
  destruct (displayOnPending_ d), wanted; cbn [snd]; left_alone.
Qed.

Lemma update_leaves nowMs c : leaves c (update nowMs c).2.
Proof.
  unfold update. destruct (editorActive_ c && _ && _).
  { cbn [snd]. unfold displayOff, exitEditor. left_alone. }
  apply leaves_trans with (disarm nowMs c).
  { unfold disarm. destruct (_ && _); left_alone. }
  generalize (disarm nowMs c). intros d. destruct (editorActive_ d) eqn:He; cbn [negb andb].
  - destruct (displayAwake_ d); [apply requestRender_leaves|left_alone].
  - destruct (displayAwake_ d && _ && _).
    + cbn [snd]. unfold displayOff. destruct d. left_alone.
    + destruct (displayAwake_ d); [apply requestRender_leaves|left_alone].
Qed.

Lemma quiet_leaves k c : quiet k → leaves c (perform k c).
Proof.
  destruct k as [event nowMs|nowMs|nowMs| |settings nowMs b|]; intros Hq; cbn [perform].
  - unfold handle. destruct (displayAwake_ c) eqn:Haw; cbn [negb].
    + destruct (suppressWakeGesture_ c).
      { unfold handleSuppressedWakeGesture. destruct event; try destruct (wakeGestureWasLong_ c); left_alone. }
      destruct (editorActive_ c).
      * unfold handleEditor. destruct event; done || left_alone.
      * unfold navigate, enterEditor. destruct event; done || left_alone.
    + destruct event; left_alone.
  - apply update_leaves.
  - unfold recordRendered. destruct (renderPending_ c); left_alone.
  - left_alone.
  - unfold apply, selectConfiguredScreen, setInactivityTimeoutMs, setCurrentSettings. apply leaves_invalidate.
    destruct b; [case_bool_decide|]; cbn [negb]; try apply leaves_invalidate; left_alone.
  - unfold takeEditorAction. left_alone.
Qed.

(** A short press disarms. *)
Lemma short_press nowMs c :
  (resetArmed_ c = true → atReset c) →
  let d := handle DeviceInput.SHORT_PRESS nowMs c in
  resetArmed_ d = false ∧ pendingEditorAction_ d = pendingEditorAction_ c.
Proof.
  unfold atReset. intros H. unfold handle. destruct (displayAwake_ c) eqn:Ha, (suppressWakeGesture_ c) eqn:Hs,
    (editorActive_ c) eqn:He; cbn [negb]; unfold handleSuppressedWakeGesture, handleEditor, navigate, invalidate;
    fields; destruct resetArmed_0; intuition congruence.
Qed.

(** A long press confirms an armed reset in time, or arms one at its item, or
    leaves none armed. *)
Lemma long_press nowMs c :
  (resetArmed_ c = true → atReset c) →
  let d := handle DeviceInput.LONG_PRESS nowMs c in
  (resetArmed_ d = true → resetArmedAtMs_ d = nowMs ∧ atReset c ∧ atReset d)
  ∧ (pendingEditorAction_ d = FACTORY_RESET_REQUEST →
     pendingEditorAction_ c = FACTORY_RESET_REQUEST
     ∨ resetArmed_ c = true ∧ elapsed nowMs (resetArmedAtMs_ c) <= RESET_CONFIRMATION_TIMEOUT_MS).
Proof.
  unfold atReset. intros H. unfold handle. destruct (displayAwake_ c) eqn:Ha, (suppressWakeGesture_ c) eqn:Hs,
    (editorActive_ c) eqn:He; cbn [negb]; try (unfold handleSuppressedWakeGesture, navigate, invalidate;
    try case_bool_decide; fields; intuition congruence).
  unfold handleEditor, activateEditorItem, exitEditor, advanceSelectedSetting, invalidate.
  repeat case_bool_decide; try (fields; intuition congruence).
  destruct (_ && _) eqn:Hc; [|fields; intuition congruence].
  apply andb_prop in Hc as [Hc1 Hc2%Z.leb_le]. fields. intuition congruence.
Qed.

Lemma quiet_or_press k :
  quiet k ∨ ∃ nowMs, k = Handle DeviceInput.SHORT_PRESS nowMs ∨ k = Handle DeviceInput.LONG_PRESS nowMs.
Proof. destruct k as [[]| | | | |]; try (by left); right; eauto. Qed.

(** What an armed reset goes back to. *)
Lemma armed_since l initial timeout interval refreshInterval :
  let c := performAll l (newUi initial timeout interval refreshInterval) in
  resetArmed_ c = true →
  atReset c ∧ ∃ l1 l2, l = l1 ++ Handle DeviceInput.LONG_PRESS (resetArmedAtMs_ c) :: l2 ∧ Forall quiet l2
    ∧ atReset (performAll l1 (newUi initial timeout interval refreshInterval)).
Proof.
  induction l as [|k l IH] using rev_ind; [done|]. cbv zeta in *. rewrite performAll_app. cbn [performAll].
  generalize dependent (newUi initial timeout interval refreshInterval). intros c0 IH Hd.
  assert (Hinv : resetArmed_ (performAll l c0) = true → atReset (performAll l c0)) by (intros H; apply (IH H)).
  destruct (quiet_or_press k) as [Hk|(nowMs & [->| ->])].
  - destruct (quiet_leaves k (performAll l c0) Hk) as (Hat & _ & H3). rewrite Hat.
    destruct (H3 Hd) as [Harm H4]. destruct (IH Harm) as (Hc & l1 & l2 & E & Hq & Hl1).
    split; [by apply H4|]. exists l1, (l2 ++ [k]). split; [by rewrite E at 1; rewrite <-app_assoc|].
    split; [|done]. apply Forall_app. split; [done|by constructor].
  - cbn [perform] in Hd. destruct (short_press nowMs (performAll l c0) Hinv) as [H _]. congruence.
  - cbn [perform] in *. destruct (long_press nowMs (performAll l c0) Hinv) as [H _].
    destruct (H Hd) as (Hat & H1 & H2). rewrite Hat. split; [done|]. by exists l, [].
Qed.

(** C38. No factory reset by accident.  After any sequence of calls, the request
    to reset the device appears only with a long press, and only if an earlier
    long press was made with the editor open at the factory reset, at most ten
    seconds before, with no short and no other long press in between. *)
Theorem reset_needs_confirmation l k initial timeout interval refreshInterval :
  let c0 := newUi initial timeout interval refreshInterval in
  let c := performAll l c0 in
  pendingEditorAction_ c ≠ FACTORY_RESET_REQUEST →
  pendingEditorAction_ (perform k c) = FACTORY_RESET_REQUEST →
  ∃ l1 t1 l2 t2,
    k = Handle DeviceInput.LONG_PRESS t2
    ∧ l = l1 ++ Handle DeviceInput.LONG_PRESS t1 :: l2 ∧ Forall quiet l2
    ∧ u32 (t2 - t1) <= 10000
    ∧ atReset (performAll l1 c0) ∧ atReset c.
Proof.
  intros c0 c Hno Hd.
  pose proof (armed_since l initial timeout interval refreshInterval) as Ha. cbv zeta in Ha. fold c0 c in Ha.
  assert (Hinv : resetArmed_ c = true → atReset c) by (intros H; apply (Ha H)).
  destruct (quiet_or_press k) as [Hk|(t2 & [->| ->])].
  - destruct (quiet_leaves k c Hk) as (_ & [H|H] & _); congruence.
  - cbn [perform] in Hd. destruct (short_press t2 c Hinv) as [_ H]. congruence.
  - cbn [perform] in Hd. destruct (long_press t2 c Hinv) as [_ H]. destruct (H Hd) as [|[Harm Ht]]; [done|].
    destruct (Ha Harm) as (Hat & l1 & l2 & E & Hq & Hl1).
    exists l1, (resetArmedAtMs_ c), l2, t2. auto 10.
Qed.

(** Into the editor, to the last item, and two long presses. *)
Definition confirmedReset : list call :=
  Handle DeviceInput.VERY_LONG_PRESS 3000
  :: ((λ i, Handle DeviceInput.SHORT_PRESS (4000 + 500 * Z.of_nat i)) <$> seq 0 8)
  ++ [Handle DeviceInput.LONG_PRESS 9000; Update 9500].

Lemma reset_needs_confirmation_witness :
  ∃ l1 t1 l2 t2,
    Handle DeviceInput.LONG_PRESS 19000 = Handle DeviceInput.LONG_PRESS t2
    ∧ confirmedReset = l1 ++ Handle DeviceInput.LONG_PRESS t1 :: l2 ∧ Forall quiet l2
    ∧ u32 (t2 - t1) <= 10000
    ∧ atReset (performAll l1 (newUi 0 30000 100 1000))
    ∧ atReset (performAll confirmedReset (newUi 0 30000 100 1000)).
Proof.
  exact (reset_needs_confirmation confirmedReset (Handle DeviceInput.LONG_PRESS 19000) 0 30000 100 1000
    ltac:(vm_compute; discriminate) ltac:(vm_compute; reflexivity)).
Defined.

(** ** The drafts of the editor *)

Definition sound (s : Settings) : Prop := isValid s = true ∧ settings_wf s.

Lemma sound_defaults : sound defaults.
Proof. split; [done|]. by vm_compute. Qed.

Lemma presetAfter_in x y presets : presetAfter x presets = Some y → y ∈ presets.
Proof.
  induction presets as [|p l IH]; cbn; [done|]. destruct (x <? p); [intros [= ->]; left|by right; auto].
Qed.

Lemma nextPreset_in x presets : presets ≠ [] → nextPreset x presets ∈ presets.
Proof.
  intros Hne. unfold nextPreset. destruct (presetAfter x presets) as [y|] eqn:E.
  - by eapply presetAfter_in.
  - destruct presets; [done|]. left.
Qed.

Lemma presets_valid :
  Forall (λ x, isValidDisplayTimeoutSeconds x = true ∧ 0 <= x < 65536) TIMEOUT_PRESETS
  ∧ Forall (λ x, isValidDisplayContrast x = true ∧ 0 <= x < 256) CONTRAST_PRESETS.
Proof. split; repeat constructor; done. Qed.

Lemma advanced_sound item d : sound d → sound (advanced item d).
Proof.
  destruct presets_valid as [HT HC]. rewrite Forall_forall in HT, HC.
  assert (Ht := HT _ (nextPreset_in (displayTimeoutSeconds d) TIMEOUT_PRESETS ltac:(done))).
  assert (Hc := HC _ (nextPreset_in (displayContrast d) CONTRAST_PRESETS ltac:(done))).
  destruct d as [t c le di sc f]. unfold sound, isValid, settings_wf. cbn [displayTimeoutSeconds
    displayContrast defaultScreen] in *. rewrite !andb_true_iff.
  intros [[[H1 H2] H3] (W1 & W2 & W3)].
  destruct item; cbn -[nextPreset isValidDisplayTimeoutSeconds isValidDisplayContrast isValidDefaultScreen Z.mul Z.pow Z.ltb wrap Z.add];
    try (split_and!; assumption).
  - destruct Ht as [Ht1 Ht2]. split_and!; try assumption.
  - destruct Hc as [Hc1 Hc2]. split_and!; try assumption.
  - unfold isValidDefaultScreen in H3.
    assert (Hs : sc = 0 ∨ sc = 1 ∨ sc = 2 ∨ sc = 3 ∨ sc = 4 ∨ sc = 5).
    { revert H3. unfold one_of. cbn. rewrite !orb_true_iff, !Z.eqb_eq. naive_solver. }
    destruct Hs as [->|[->|[->|[->|[->| ->]]]]]; split_and!; try assumption; done.
Qed.

(** What a call makes of the draft. *)
Definition drafts (c d : Controller) : Prop :=
  currentSettings_ d = currentSettings_ c
  ∧ (draftSettings_ d = draftSettings_ c ∨ draftSettings_ d = currentSettings_ c
     ∨ ∃ item, draftSettings_ d = advanced item (draftSettings_ c)).

Ltac drafting := unfold drafts, invalidate; fields; (split; [done|]); first [by left | by right; left].

Lemma requestRender_drafts nowMs c : drafts c (requestRender nowMs c).2 ∧ draftSettings_ (requestRender nowMs c).2 = draftSettings_ c.
Proof.
  unfold requestRender, refresh, beginRenderRequest, invalidate.
  set (live := negb (dirty_ c) && _ && _ && _). clearbody live.
  set (d := if live then _ else c).
  assert (Hd : draftSettings_ d = draftSettings_ c ∧ currentSettings_ d = currentSettings_ c)
    by (subst d; destruct live; by fields).
  clearbody d. set (wanted := dirty_ d && _ && _). clearbody wanted.
  unfold drafts. destruct (displayOnPending_ d), wanted; cbn [snd]; fields; intuition congruence.
Qed.

Lemma update_drafts nowMs c : drafts c (update nowMs c).2.
Proof.
  unfold update, displayOff, exitEditor. destruct (editorActive_ c && _ && _); [cbn [snd]; drafting|].
  assert (Hd : draftSettings_ (disarm nowMs c) = draftSettings_ c
    ∧ currentSettings_ (disarm nowMs c) = currentSettings_ c).
  { unfold disarm, invalidate. destruct (_ && _); by fields. }
  generalize dependent (disarm nowMs c). intros d [H1 H2].
  assert (Hr : drafts c (requestRender nowMs d).2).
  { destruct (requestRender_drafts nowMs d) as [[Hr _] Hr']. split; [congruence|left; congruence]. }
  destruct (negb (editorActive_ d) && _ && _ && _); [cbn [snd]; unfold drafts; fields; naive_solver|].
  destruct (negb (displayAwake_ d)); [by split; [|left]|done].
Qed.

Lemma perform_drafts k c : (∀ settings nowMs b, k ≠ Apply settings nowMs b) → drafts c (perform k c).
Proof.
  destruct k as [event nowMs|nowMs|nowMs| |settings nowMs b|]; intros Hk; cbn [perform]; [| | | |by destruct (Hk settings nowMs b)|].
  - unfold handle, handleSuppressedWakeGesture, navigate, enterEditor.
    destruct (negb (displayAwake_ c)); [destruct event; drafting|].
    destruct (suppressWakeGesture_ c).
    { destruct event; try drafting. destruct (wakeGestureWasLong_ c); drafting. }
    destruct (editorActive_ c).
    + unfold handleEditor. destruct event; try drafting.
      unfold activateEditorItem, exitEditor, advanceSelectedSetting.
      repeat case_bool_decide; try drafting; [destruct (_ && _); drafting|].
      unfold drafts, invalidate. fields. eauto.
    + destruct event; try drafting. case_bool_decide; drafting.
  - apply update_drafts.
  - unfold recordRendered. destruct (renderPending_ c); drafting.
  - unfold markDirty. drafting.
  - unfold takeEditorAction. cbn [snd]. drafting.
Qed.

(** Only sound settings are applied. *)
Definition soundCall (k : call) : Prop := match k with Apply settings _ _ => sound settings | _ => True end.

Lemma perform_sound k c : soundCall k →
  sound (draftSettings_ c) ∧ sound (currentSettings_ c) →
  sound (draftSettings_ (perform k c)) ∧ sound (currentSettings_ (perform k c)).
Proof.
  intros Hk [Hd Hc].
  assert (H : (∃ settings nowMs b, k = Apply settings nowMs b) ∨ ∀ settings nowMs b, k ≠ Apply settings nowMs b).
  { destruct k; try (by right); left; eauto. }
  destruct H as [(settings & nowMs & b & ->)|H].
  - cbn [perform soundCall] in *. unfold apply, markDirty, selectConfiguredScreen, setInactivityTimeoutMs,
      setCurrentSettings, invalidate.
    destruct b; [case_bool_decide|]; fields; destruct editorActive_0; done.
  - destruct (perform_drafts k c H) as [-> [->|[->|[item ->]]]]; auto using advanced_sound.
Qed.

(** What is saved is the candidate, when it is valid. *)
Definition adopts (s : Settings) {W} (r : SaveStatus.t * (SettingsManager * W)) : Prop :=
  r.1 ≠ SaveStatus.REPAIRED_SAVED ∧ r.1 ≠ SaveStatus.REPAIRED_UNCHANGED
  ∧ (r.1 = SaveStatus.SAVED ∨ r.1 = SaveStatus.UNCHANGED → settings_ r.2.1 = s).

Lemma commitTo_adopts `{RecordStore W} target s generation m (w : W) :
  adopts s (commitTo target s false generation (m, w)).
Proof.
  unfold commitTo. destruct (encodeRecord _ _ _ _) as [[] [e|]]; try (by split_and!; [done|done|intros [|]]).
  unfold outside, zoom, bind. cbn [fst snd].
  destruct (writeSlot target e RECORD_SIZE w) as [wr w1]. cbn [fst snd].
  repeat match goal with |- adopts _ ((if ?b then _ else _) _) => destruct b end;
    try (by split_and!; [done|done|intros [|]]).
  cbn [fst snd]. generalize (readSlot target (zeros RECORD_SIZE) RECORD_SIZE w1).
  intros [[[rr b] n] w2]. cbn [fst snd].
  repeat match goal with |- adopts _ ((if ?b then _ else _) _) => destruct b end;
    try (by split_and!; [done|done|intros [|]]).
Qed.

Lemma validateAndRepair_valid s : isValid s = true → validateAndRepair s = (ValidationResult.UNCHANGED, s).
Proof.
  unfold isValid, validateAndRepair. rewrite !andb_true_iff. intros [[H1 H2] H3].
  rewrite H1. cbn [negb]. rewrite H2. cbn [negb]. by rewrite H3.
Qed.

Lemma save_adopts `{RecordStore W} s m (w : W) : isValid s = true → adopts s (save s (m, w)).
Proof.
  intros Hv. unfold save. rewrite (validateAndRepair_valid s Hv), bind_this.
  destruct (negb (hasActiveSlot_ m) && _); [by split_and!; [done|done|intros [|]]|].
  destruct (settings_eqb s (settings_ m)) eqn:He; cbn [andb].
  - destruct (negb (repairPending_ m)).
    + apply settings_eqb_eq in He. by split_and!; [done|done|intros _].
    + destruct (isUnsupportedSlot _ m); [by split_and!; [done|done|intros [|]]|apply commitTo_adopts].
  - destruct (isUnsupportedSlot _ m); [by split_and!; [done|done|intros [|]]|apply commitTo_adopts].
Qed.

(** A request to save comes from a long press on that item. *)
Lemma save_request k c :
  (resetArmed_ c = true → atReset c) →
  pendingEditorAction_ c ≠ SAVE_SETTINGS_REQUEST →
  pendingEditorAction_ (perform k c) = SAVE_SETTINGS_REQUEST →
  (∃ t, k = Handle DeviceInput.LONG_PRESS t) ∧ editorActive_ c = true ∧ selectedEditorItem_ c = SAVE
  ∧ draftSettings_ (perform k c) = draftSettings_ c.
Proof.
  intros Hinv Hno Hd. destruct (quiet_or_press k) as [Hk|(t & [->| ->])].
  - destruct (quiet_leaves k c Hk) as (_ & [H|H] & _); congruence.
  - cbn [perform] in Hd. destruct (short_press t c Hinv) as [_ H]. congruence.
  - split; [by eexists|]. revert Hd. cbn [perform]. unfold handle, handleSuppressedWakeGesture, navigate,
      handleEditor, activateEditorItem, exitEditor, advanceSelectedSetting, invalidate.
    destruct (negb (displayAwake_ c)); [congruence|].
    destruct (suppressWakeGesture_ c); [fields; congruence|].
    destruct (editorActive_ c) eqn:He; [|repeat case_bool_decide; fields; congruence].
    repeat case_bool_decide; try destruct (_ && _); fields; intuition congruence.
Qed.

(** C39. The settings saved are the ones on the screen.  After any sequence of
    calls that applies only valid settings, a request to save appears only with a
    long press while the open editor shows its save item; the draft it hands on is
    the one shown, it is valid, and the settings manager, given that draft through
    the request queue by any store, never repairs it: settings reported as saved
    or as unchanged are exactly the draft. *)
Theorem editor_saves_what_it_shows `{RecordStore W} l k initial timeout interval refreshInterval q m (w : W) :
  let c := performAll l (newUi initial timeout interval refreshInterval) in
  let d := perform k c in
  Forall soundCall l →
  pendingEditorAction_ c ≠ SAVE_SETTINGS_REQUEST → pendingEditorAction_ d = SAVE_SETTINGS_REQUEST →
  SettingsIntegration.pending_ q ≠ SettingsIntegration.FACTORY_RESET →
  (∃ t, k = Handle DeviceInput.LONG_PRESS t) ∧ editorActive_ c = true ∧ selectedEditorItem_ c = SAVE
  ∧ sound (draftSettings_ c)
  ∧ adopts (draftSettings_ c)
      (save (SettingsIntegration.saveDraft_ (SettingsIntegration.queueSave (draftSettings_ d) q)) (m, w)).
Proof.
  intros c d Hl Hno Hd Hq.
  destruct (save_request k c) as (H1 & H2 & H3 & H4); [|done..|].
  { intros Ha. by apply (armed_since l initial timeout interval refreshInterval). }
  assert (Hs : sound (draftSettings_ c) ∧ sound (currentSettings_ c)).
  { apply (performed_keep (λ c, sound (draftSettings_ c) ∧ sound (currentSettings_ c)) soundCall); [|done|].
    - intros k' c' Hk'. by apply perform_sound.
    - split; apply sound_defaults. }
  split_and!; [done|done|done|apply Hs..|]. subst d. rewrite H4.
  replace (SettingsIntegration.saveDraft_ _) with (draftSettings_ c)
    by (unfold SettingsIntegration.queueSave; by destruct (SettingsIntegration.pending_ q)).
  apply save_adopts, Hs.
Qed.

(** Into the editor, one more contrast step, and to the save item. *)
Definition editedContrast : list call :=
  [Apply (mkSettings 60 128 true true 1 false) 100 true; Handle DeviceInput.VERY_LONG_PRESS 3000;
   Handle DeviceInput.SHORT_PRESS 4000; Handle DeviceInput.LONG_PRESS 5000]
  ++ ((λ i, Handle DeviceInput.SHORT_PRESS (6000 + 500 * Z.of_nat i)) <$> seq 0 5).

#[local] Existing Instance SettingsLife.MemoryStore.store.

Lemma editor_saves_what_it_shows_witness :
  let c := performAll editedContrast (newUi 0 30000 100 1000) in
  let d := perform (Handle DeviceInput.LONG_PRESS 9500) c in
  let q := SettingsIntegration.newQueue in
  let w := SettingsLife.MemoryStore.mkMemory None None SettingsLife.ABSENT [] in
  (∃ t, Handle DeviceInput.LONG_PRESS 9500 = Handle DeviceInput.LONG_PRESS t)
  ∧ editorActive_ c = true ∧ selectedEditorItem_ c = SAVE ∧ sound (draftSettings_ c)
  ∧ adopts (draftSettings_ c)
      (save (SettingsIntegration.saveDraft_ (SettingsIntegration.queueSave (draftSettings_ d) q))
         (newManager, w)).
Proof.
  exact (editor_saves_what_it_shows editedContrast
    (Handle DeviceInput.LONG_PRESS 9500) 0 30000 100 1000 SettingsIntegration.newQueue newManager
    (SettingsLife.MemoryStore.mkMemory None None SettingsLife.ABSENT [])
    ltac:(repeat constructor; vm_compute; repeat split; done)
    ltac:(vm_compute; discriminate) ltac:(vm_compute; reflexivity) ltac:(done)).
Defined.

End UiFacts.
