(* ===== verification/Boards.v ===== *)
(** * The capabilities of the boards

    The two registries a device can be built with and the handlers behind them:
    the Heltec board's indicator, button and analog input ([HeltecV4Capabilities])
    and their simulation ([SimulatedCapabilities]).  Each handler is an instance of
    the interface the dispatcher is proved against, so what CapabilityFacts.v says
    of a dispatch holds of these devices; what they add is that an indicator reads
    back what was last accepted for it, and nothing else changes the device. *)

From S2P Require Import Prelude Capabilities CapabilityFacts.

Module SimulatedCapabilities.

Import DeviceCapabilities.

(* simulated_capabilities.h:11 APPLICATION_INDICATOR_ID *)
Definition APPLICATION_INDICATOR_ID : Z := 257.

(* simulated_capabilities.h:12 DIGITAL_INPUT_ID *)
Definition DIGITAL_INPUT_ID : Z := 513.

(* simulated_capabilities.h:13 ANALOG_INPUT_0_ID *)
Definition ANALOG_INPUT_0_ID : Z := 769.

(* simulated_capabilities.h:14 CAPABILITY_COUNT *)
Definition CAPABILITY_COUNT : Z := 3.

(* simulated_capabilities.h:16-64 = DESCRIPTORS *)
Definition DESCRIPTORS : list CapabilityDescriptor :=
  [mkDescriptor APPLICATION_INDICATOR_ID CapabilityClass.INDICATOR_OUTPUT
     (Z.lor (Z.lor OPERATION_FLAG_DESCRIBE OPERATION_FLAG_READ) OPERATION_FLAG_SET)
     ValueType.BOOLEAN LOCAL_ONLY_AUTHORIZATION_POLICY_ID MUTATING_INTERLOCK_SAFETY_POLICY_ID
     UnitCode.BOOLEAN METADATA_SIMULATED 0 0 1;
   mkDescriptor DIGITAL_INPUT_ID CapabilityClass.DIGITAL_INPUT
     (Z.lor OPERATION_FLAG_DESCRIBE OPERATION_FLAG_READ)
     ValueType.BOOLEAN LOCAL_ONLY_AUTHORIZATION_POLICY_ID NO_ADDITIONAL_SAFETY_POLICY_ID
     UnitCode.BOOLEAN METADATA_SIMULATED 0 0 1;
   mkDescriptor ANALOG_INPUT_0_ID CapabilityClass.ANALOG_INPUT
     (Z.lor OPERATION_FLAG_DESCRIBE OPERATION_FLAG_READ)
     ValueType.NORMALIZED_U16 LOCAL_ONLY_AUTHORIZATION_POLICY_ID NO_ADDITIONAL_SAFETY_POLICY_ID
     UnitCode.NORMALIZED METADATA_SIMULATED 0 0 65535].

(* simulated_capabilities.h:66-72 registryView *)
Definition registryView : CapabilityRegistryView := mkRegistry (Some DESCRIPTORS) CAPABILITY_COUNT.

(* simulated_capabilities.h:74-78 = struct State *)
Record State := mkState { indicator : bool; digitalInput : bool; analogInput : Z }.

#[export] Instance eta_State : RecEta State := λ s,
  mkState (indicator s) (digitalInput s) (analogInput s).

(* simulated_capabilities.h:80-91 capabilityAvailability *)
Definition capabilityAvailability (_ : State) (capabilityId : Z) (available : bool) : bool * bool :=
  let (found, _) := findCapability registryView capabilityId zeroDescriptor in
  if negb found then (false, available) else (true, true).

(* simulated_capabilities.h:93-99 makeSuccess *)
Definition makeSuccess (type bits : Z) : OperationResult :=
  mkResult OperationStatus.OK (zeros 3) (mkValue type (zeros 3) bits).

(* simulated_capabilities.h:101-149 = class Handler *)
Definition handlerExecute (descriptor : CapabilityDescriptor) (operation : Z) (input : CapabilityValue)
    : st State OperationResult := λ s,
  let failed := (makeCanonicalFailureResult OperationStatus.OPERATION_FAILED, s) in
  if cap_id descriptor =? APPLICATION_INDICATOR_ID then
    if operation =? Operation.READ then (makeSuccess ValueType.BOOLEAN (Z.b2z (indicator s)), s) else
    if operation =? Operation.SET
    then (makeSuccess ValueType.NONE 0, s <| indicator := bits input =? 1 |>) else failed
  else if cap_id descriptor =? DIGITAL_INPUT_ID then
    if operation =? Operation.READ then (makeSuccess ValueType.BOOLEAN (Z.b2z (digitalInput s)), s)
    else failed
  else if cap_id descriptor =? ANALOG_INPUT_0_ID then
    if operation =? Operation.READ then (makeSuccess ValueType.NORMALIZED_U16 (analogInput s), s)
    else failed
  else failed.

#[export] Instance Handler : LocalCapabilityHandler State := handlerExecute.

End SimulatedCapabilities.

Module HeltecV4Capabilities.

Import DeviceCapabilities.

(* heltec_v4_capabilities.h:11 APPLICATION_INDICATOR_ID *)
Definition APPLICATION_INDICATOR_ID : Z := 257.

(* heltec_v4_capabilities.h:12 DIGITAL_INPUT_ID *)
Definition DIGITAL_INPUT_ID : Z := 513.

(* heltec_v4_capabilities.h:13 ANALOG_INPUT_0_ID *)
Definition ANALOG_INPUT_0_ID : Z := 769.

(* heltec_v4_capabilities.h:14 CAPABILITY_COUNT *)
Definition CAPABILITY_COUNT : Z := 3.

(* heltec_v4_capabilities.h:42-90 = DESCRIPTORS *)
Definition DESCRIPTORS : list CapabilityDescriptor :=
  [mkDescriptor APPLICATION_INDICATOR_ID CapabilityClass.INDICATOR_OUTPUT
     (Z.lor (Z.lor OPERATION_FLAG_DESCRIBE OPERATION_FLAG_READ) OPERATION_FLAG_SET)
     ValueType.BOOLEAN LOCAL_ONLY_AUTHORIZATION_POLICY_ID MUTATING_INTERLOCK_SAFETY_POLICY_ID
     UnitCode.BOOLEAN 0 0 0 1;
   mkDescriptor DIGITAL_INPUT_ID CapabilityClass.DIGITAL_INPUT
     (Z.lor OPERATION_FLAG_DESCRIBE OPERATION_FLAG_READ)
     ValueType.BOOLEAN LOCAL_ONLY_AUTHORIZATION_POLICY_ID NO_ADDITIONAL_SAFETY_POLICY_ID
     UnitCode.BOOLEAN 0 0 0 1;
   mkDescriptor ANALOG_INPUT_0_ID CapabilityClass.ANALOG_INPUT
     (Z.lor OPERATION_FLAG_DESCRIBE OPERATION_FLAG_READ)
     ValueType.NORMALIZED_U16 LOCAL_ONLY_AUTHORIZATION_POLICY_ID NO_ADDITIONAL_SAFETY_POLICY_ID
     UnitCode.NORMALIZED 0 0 0 65535].

(* heltec_v4_capabilities.h:92-98 registryView *)
Definition registryView : CapabilityRegistryView := mkRegistry (Some DESCRIPTORS) CAPABILITY_COUNT.

(* heltec_v4_capabilities.h:100-106 = struct ProfileState *)
Record ProfileState := mkProfile {
  indicatorRequested : bool;
  digitalInputAvailable : bool;
  digitalInputActive : bool;
  analogInputAvailable : bool;
  analogInputNormalized : Z
}.

#[export] Instance eta_ProfileState : RecEta ProfileState := λ s,
  mkProfile (indicatorRequested s) (digitalInputAvailable s) (digitalInputActive s)
    (analogInputAvailable s) (analogInputNormalized s).

(* heltec_v4_capabilities.h:108-110 initializeProfileState *)
Definition initializeProfileState : ProfileState := mkProfile false false false false 0.

(* heltec_v4_capabilities.h:112-129 capabilityAvailability *)
Definition capabilityAvailability (state : ProfileState) (capabilityId : Z) (available : bool)
    : bool * bool :=
  if capabilityId =? APPLICATION_INDICATOR_ID then (true, true) else
  if capabilityId =? DIGITAL_INPUT_ID then (true, digitalInputAvailable state) else
  if capabilityId =? ANALOG_INPUT_0_ID then (true, analogInputAvailable state) else
  (false, available).

(* heltec_v4_capabilities.h:131-137 makeSuccess *)
Definition makeSuccess (type bits : Z) : OperationResult :=
  mkResult OperationStatus.OK (zeros 3) (mkValue type (zeros 3) bits).

(* heltec_v4_capabilities.h:139-197 = class HeltecV4CapabilityHandler *)
Definition handlerExecute (descriptor : CapabilityDescriptor) (operation : Z) (input : CapabilityValue)
    : st ProfileState OperationResult := λ s,
  let fails status := (makeCanonicalFailureResult status, s) in
  if cap_id descriptor =? APPLICATION_INDICATOR_ID then
    if operation =? Operation.READ
    then (makeSuccess ValueType.BOOLEAN (Z.b2z (indicatorRequested s)), s) else
    if operation =? Operation.SET
    then (makeSuccess ValueType.NONE 0, s <| indicatorRequested := bits input =? 1 |>)
    else fails OperationStatus.OPERATION_FAILED
  else if cap_id descriptor =? DIGITAL_INPUT_ID then
    if operation =? Operation.READ then
      if negb (digitalInputAvailable s) then fails OperationStatus.HARDWARE_UNAVAILABLE
      else (makeSuccess ValueType.BOOLEAN (Z.b2z (digitalInputActive s)), s)
    else fails OperationStatus.OPERATION_FAILED
  else if cap_id descriptor =? ANALOG_INPUT_0_ID then
    if operation =? Operation.READ then
      if negb (analogInputAvailable s) then fails OperationStatus.HARDWARE_UNAVAILABLE
      else (makeSuccess ValueType.NORMALIZED_U16 (analogInputNormalized s), s)
    else fails OperationStatus.OPERATION_FAILED
  else fails OperationStatus.OPERATION_FAILED.

#[export] Instance HeltecV4CapabilityHandler : LocalCapabilityHandler ProfileState := handlerExecute.

End HeltecV4Capabilities.

Module BoardFacts.

Import DeviceCapabilities CapabilityFacts.CapabilityFacts HeltecV4Capabilities.

Lemma board_registry_valid : isValidCapabilityRegistry registryView = true.
Proof. by vm_compute. Qed.

Lemma registry_typed : Forall descriptor_typed (entries registryView).
Proof. repeat constructor; concrete. Qed.

Lemma entries_registry : entries registryView = DESCRIPTORS.
Proof. by vm_compute. Qed.

(** What the board has to say of a capability. *)
Definition shown (s : ProfileState) (id : Z) : Z :=
  if id =? APPLICATION_INDICATOR_ID then Z.b2z (indicatorRequested s)
  else if id =? DIGITAL_INPUT_ID then Z.b2z (digitalInputActive s) else analogInputNormalized s.

(** What a permitted operation does to the board and answers. *)
Definition carriedOut (d : CapabilityDescriptor) (operation : Z) (input : CapabilityValue) (s : ProfileState)
    : OperationResult * ProfileState :=
  if operation =? Operation.SET
  then (makeSuccess ValueType.NONE 0, s <| indicatorRequested := bits input =? 1 |>)
  else if (capabilityAvailability s (cap_id d) false).2
  then (makeSuccess (valueType d) (shown s (cap_id d)), s)
  else (makeCanonicalFailureResult OperationStatus.HARDWARE_UNAVAILABLE, s).

(** A sample of the converter is a value of its type. *)
Lemma analog_value v : 0 <= v < 65536 → isValidCapabilityValue (mkValue ValueType.NORMALIZED_U16 (zeros 3) v) = true.
Proof.
  intros Hv. unfold isValidCapabilityValue. cbn -[Z.land]. apply Z.eqb_eq, Z.bits_inj'. intros i Hi.
  change 4294901760 with (Z.shiftl 65535 16). rewrite Z.land_spec, Z.bits_0, Z.shiftl_spec by lia.
  destruct (Z.lt_ge_cases i 16).
  - rewrite (Z.testbit_neg_r 65535) by lia. apply andb_false_r.
  - rewrite <- (wrap_small 16 v Hv). unfold wrap. by rewrite Z.mod_pow2_bits_high by lia.
Qed.

Lemma analog_in_bounds v :
  0 <= v < 65536 →
  isValueWithinBounds (nth 2 DESCRIPTORS zeroDescriptor) (mkValue ValueType.NORMALIZED_U16 (zeros 3) v) = true.
Proof.
  intros Hv. apply within_bounds_spec; [done|unfold descriptor_typed; concrete|cbn; revert Hv; uint|].
  split; [by apply analog_value|split; [done|]]. unfold denotes. cbn [bits].
  replace (one_of _ _) with false by done. change (0 <= v <= 65535). lia.
Qed.

(** A value read within its bounds passes the checks of the dispatcher. *)
Lemma checked_read d input s v :
  execute d Operation.READ input s = (makeSuccess (valueType d) v, s) →
  isValueWithinBounds d (mkValue (valueType d) (zeros 3) v) = true →
  checkedExecute d Operation.READ input s = (makeSuccess (valueType d) v, s).
Proof.
  intros E Hb. pose proof (proj1 (within_compatible _ _ Hb)) as Hv.
  unfold checkedExecute, bind, ret. rewrite E. cbn [fst snd].
  assert (Hr : isValidOperationResult (makeSuccess (valueType d) v) = true).
  { unfold isValidOperationResult, makeSuccess. cbn [result_status result_reserved result_value]. by rewrite Hv. }
  rewrite Hr. unfold makeSuccess at 1 2 3 4 5. cbn [result_status result_value]. cbn -[isValueWithinBounds zeros].
  by rewrite Hb.
Qed.

(** A permitted operation is carried out: what the handler returns passes the
    checks of the dispatcher. *)
Lemma permitted_carried_out id d operation input caller interlock s :
  0 <= analogInputNormalized s < 65536 →
  permitted registryView id operation input caller interlock d →
  checkedExecute d operation input s = carriedOut d operation input s.
Proof.
  intros Ha Hp. pose proof (permitted_entry _ _ _ _ _ _ _ Hp) as Hd. rewrite entries_registry in Hd.
  pose proof (permitted_operation _ _ _ _ _ _ _ Hp) as Ho. clear Hp.
  pose proof (analog_in_bounds _ Ha) as Hb. destruct s as [i da dx aa av].
  unfold DESCRIPTORS in Hd. rewrite !elem_of_cons in Hd.
  destruct Hd as [->|[->|[->|Hd%elem_of_nil]]]; [| | |done];
    destruct Ho as [[-> Hf]|[-> Hf]]; try (vm_compute in Hf; done).
  - by destruct i.
  - by destruct da, dx.
  - destruct aa; [|done].
    exact (checked_read (nth 2 DESCRIPTORS zeroDescriptor) input (mkProfile i da dx true av) av eq_refl Hb).
Qed.



End BoardFacts.
