(* ===== verification/NodeMain.v ===== *)
(** * The Node's firmware

    [NodeMain] is src-rx/main.cpp in the build with the binary Host stream
    (ARGUS_HOST_MACHINE_STREAM): the global objects as one record, and each function
    of the sketch over them, down to [setup] and [loop].  The text stream, the bench
    characterization and the drawing of the screens' contents are left out.

    The world is in two parts.  The radio chip is a class of its own, whose
    interrupt handler [setRadioFlag] the sketch shares a flag with: wherever the
    flag is read, the interrupts raised until then have run.  The rest of the board -
    clock, button, LED, display, serial port and flash - is behind the classes the
    modelled libraries use. *)

From S2P Require Import Prelude Wire EventWire Copies Records Identity Diagnostics NodeStore Delivery Radio Capabilities Settings HostFrame HostTransport Ledger HostService WireOps Bridge HostLife HostRole Input Ui Boards.

Module NodeMain.

Import RuntimeState(State, RuntimePhase, Health, phase_, health_, EventDetailSnapshot).
Import DeviceSettings(Settings, SettingsManager).
Import SettingsIntegration(ConfigurationState, RequestQueue).
Import HeltecV4Capabilities(ProfileState).

#[local] Existing Instances DeviceUi.PeerState_eq_dec DeviceUi.Screen_eq_dec SettingsIntegration.Request_eq_dec
  EventProducers.CreationResult_eq_dec NodeEventCreation.TrackedCreationSink
  HeltecV4Capabilities.eta_ProfileState HeltecV4Capabilities.HeltecV4CapabilityHandler.

#[export] Instance RuntimePhase_eq_dec : EqDecision RuntimePhase.
Proof. solve_decision. Defined.

#[export] Instance Health_eq_dec : EqDecision Health.
Proof. solve_decision. Defined.

(** ** The radio and the board *)

(** The chip, through the functions the sketch calls: each answers a state, 0 for
    success.  [interrupts] is how often it has raised its line since last asked. *)
Class Radio (R : Type) := {
  begin : st R Z;
  standby : st R Z;
  startReceive : st R Z;
  startTransmit : list Z → st R Z;
  getPacketLength : st R Z;
  readData : Z → st R (Z * list Z);
  getRSSI : st R Z;
  getSNR : st R Z;
  interrupts : st R nat
}.

(** The rest: the clock, a random source, the button, the LED, the display and
    the state of the serial connection.  A render is given what it shows. *)
Class Board (Q : Type) := {
  millis : st Q Z;
  esp_random : st Q Z;
  buttonPressed : st Q bool;
  writeLed : bool → st Q unit;
  render : DeviceUi.Screen + DeviceUi.EditorPresentationInput → st Q unit;
  displayOn : st Q unit;
  displayOff : st Q unit;
  setContrast : Z → st Q unit;
  serialConnected : st Q bool
}.

(* src-rx/main.cpp:48 BUTTON_DEBOUNCE_MS *)
Definition BUTTON_DEBOUNCE_MS : Z := 30.

(* src-rx/main.cpp:49 BUTTON_LONG_PRESS_MS *)
Definition BUTTON_LONG_PRESS_MS : Z := 800.

(* src-rx/main.cpp:50 BUTTON_VERY_LONG_PRESS_MS *)
Definition BUTTON_VERY_LONG_PRESS_MS : Z := 3000.

(* src-rx/main.cpp:51 BUTTON_FEEDBACK_MS *)
Definition BUTTON_FEEDBACK_MS : Z := 50.

(** The value of [EventSequence] is part of the world the delivery works on. *)
Section Sources.

Context {Q : Type} `{Board Q} `{NodeEventStore.Storage Q}.

Abbreviation inner m := (outside (S := Z) (W := Q) m).

#[export] Instance sequenced_metadata : EventIdentity.MetadataStorage (Z * Q) := {
  EventIdentity.read slot out := inner (EventIdentity.read slot out);
  EventIdentity.write slot bytes := inner (EventIdentity.write slot bytes);
  EventIdentity.commit := inner EventIdentity.commit
}.

#[export] Instance sequenced_storage : NodeEventStore.Storage (Z * Q) := {
  NodeEventStore.readEventCopy slot copy out := inner (NodeEventStore.readEventCopy slot copy out);
  NodeEventStore.writeEventCopy slot copy bytes := inner (NodeEventStore.writeEventCopy slot copy bytes)
}.

(* src-rx/main.cpp:94-97 = EspEventEntropy *)
Definition nextUint32 (value : Z) : st (Z * Q) (bool * Z) :=
  random <~ inner esp_random ;;
  ret (true, u32 random).

(* src-rx/main.cpp:98-105 = EventSequence *)
Definition nextSequence (value : Z) : st (Z * Q) (bool * Z) := λ s,
  let v := u8 (s.1 + 1) in
  let v := if v =? 0 then u8 (v + 1) else v in
  ((true, v), (v, s.2)).

(* src-rx/main.cpp:106-111 = EventJitter *)
Definition nextMilliseconds : st (Z * Q) Z :=
  random <~ inner esp_random ;;
  ret (u16 (u32 random mod 251)).

#[export] Instance EspEventEntropy : EventIdentity.EntropySource (Z * Q) := {
  EventIdentity.nextUint32 := nextUint32
}.

#[export] Instance EventSequence : NodeEventDelivery.SequenceSource (Z * Q) := {
  NodeEventDelivery.next := nextSequence
}.

#[export] Instance EventJitter : NodeEventDelivery.JitterSource (Z * Q) := {
  NodeEventDelivery.nextMilliseconds := nextMilliseconds
}.

#[export] Instance sketch_clock : NodeEventCreation.Clock (Z * Q) := {
  NodeEventCreation.clock := inner millis
}.

End Sources.

(** The Node's Host stack has no event service, so the ledger its type names is
    never asked. *)
#[export] Instance no_ledger : HubEventLedger.Storage unit := {
  HubEventLedger.readHubMetadata _ out := ret (EventIdentity.S_MISSING, out, 0);
  HubEventLedger.writeHubMetadata _ _ := ret EventIdentity.S_MISSING;
  HubEventLedger.readHubEventCopy _ _ out := ret (EventIdentity.S_MISSING, out, 0);
  HubEventLedger.writeHubEventCopy _ _ _ := ret EventIdentity.S_MISSING;
  HubEventLedger.commit := ret EventIdentity.S_MISSING
}.

(** ** The global objects *)

(** The store is inside the delivery controller, which holds it by reference. *)
(* src-rx/main.cpp:53-151 = the global objects *)
Record Node := mkNode {
  runtimeState : State;
  applicationButton : DeviceInput.Button;
  uiController : DeviceUi.Controller;
  peerState : DeviceUi.PeerState;
  settingsManager : SettingsManager;
  currentSettings : Settings;
  configurationState : ConfigurationState;
  persistenceRequests : RequestQueue;
  capabilityState : ProfileState;
  capabilityDiagnostics : DeviceCapabilities.CapabilityDiagnosticsSnapshot;
  capabilityRegistryValid : bool;
  capabilitySummaryAvailable : bool;
  renderingPresentation : bool;
  radioLedActive : bool;
  feedbackLedActive : bool;
  feedbackLedUntilMs : Z;
  quietMaintenanceAttemptArmed : bool;
  maintenanceOwnershipActive : bool;
  operationDone : bool;
  eventTxObservationWindow : bool;
  dioDuringEventTx : Z;
  dioOutsideEventTx : Z;
  eventTxObserver : EventTxDiagnostics.Observer;
  eventDelivery : NodeEventDelivery.Controller;
  eventCreationSink : EventProducers.StoreCreationSink;
  buttonEventProducer : EventProducers.ButtonProducer;
  analogThresholdProducer : EventProducers.SensorThresholdProducer;
  eventSequence : Z;
  eventRadio : EventRadioIntegration.NodeOwner;
  commandPreAck : EventRadioIntegration.CommandPreAckTimer;
  eventSubsystemReady : bool;
  receiveBuffer : list Z;
  transmitBuffer : list Z;
  transmitLength : Z;
  pendingAcknowledgment : Protocol.Packet;
  pendingAcknowledgmentDuplicate : bool;
  duplicateTracker : TransactionEngine.NodeDuplicateTracker;
  hostStack : HostRoleIntegration.Stack;
  structuredProcessor : RadioOperationBridge.NodeStructuredOperationProcessor;
  structuredAckThenExecute : bool;
  structuredCachedResponseAfterAck : bool;
  structuredResponse : Protocol.Packet
}.

#[export] Instance eta_Node : RecEta Node := λ n,
  mkNode (runtimeState n) (applicationButton n) (uiController n) (peerState n)
    (settingsManager n) (currentSettings n) (configurationState n) (persistenceRequests n)
    (capabilityState n) (capabilityDiagnostics n) (capabilityRegistryValid n)
    (capabilitySummaryAvailable n) (renderingPresentation n) (radioLedActive n)
    (feedbackLedActive n) (feedbackLedUntilMs n) (quietMaintenanceAttemptArmed n)
    (maintenanceOwnershipActive n) (operationDone n) (eventTxObservationWindow n)
    (dioDuringEventTx n) (dioOutsideEventTx n) (eventTxObserver n) (eventDelivery n)
    (eventCreationSink n) (buttonEventProducer n) (analogThresholdProducer n)
    (eventSequence n) (eventRadio n) (commandPreAck n) (eventSubsystemReady n)
    (receiveBuffer n) (transmitBuffer n) (transmitLength n) (pendingAcknowledgment n)
    (pendingAcknowledgmentDuplicate n) (duplicateTracker n) (hostStack n)
    (structuredProcessor n) (structuredAckThenExecute n)
    (structuredCachedResponseAfterAck n) (structuredResponse n).

(** The threshold that makes the analog input an event. *)
(* src-rx/main.cpp:120-126 = analogThresholdPolicy *)
Definition analogThresholdPolicy : EventProducers.ThresholdPolicy :=
  EventProducers.mkThreshold HeltecV4Capabilities.ANALOG_INPUT_0_ID
    EventProtocol.SensorValueType.NORMALIZED_U16 49152 4096 EventProtocol.ThresholdRelation.CROSSED_ABOVE.

Definition newConfiguration : ConfigurationState :=
  SettingsIntegration.mkConfiguration DeviceUi.NOT_SUPPLIED DeviceUi.SOURCE_DEFAULTS false 0 false false.

(** [CapabilityDiagnostics] as constructed. *)
Definition newDiagnostics : DeviceCapabilities.CapabilityDiagnosticsSnapshot :=
  RuntimeState.zeroCapabilityDiagnostics.

(** The objects before [setup]. *)
(* src-rx/main.cpp:53-151 = the global objects, their initial values *)
Definition newNode (localId peerId : Z) : Node :=
  mkNode (RuntimeState.newState RuntimeState.NODE localId peerId)
    (DeviceInput.newButton BUTTON_DEBOUNCE_MS BUTTON_LONG_PRESS_MS BUTTON_VERY_LONG_PRESS_MS)
    (DeviceUi.newUi 0 DeviceUi.DEFAULT_INACTIVITY_TIMEOUT_MS DeviceUi.DEFAULT_MINIMUM_RENDER_INTERVAL_MS
       DeviceUi.DEFAULT_LIVE_REFRESH_INTERVAL_MS)
    DeviceUi.PEER_UNKNOWN DeviceSettings.newManager DeviceSettings.defaults newConfiguration
    SettingsIntegration.newQueue HeltecV4Capabilities.initializeProfileState newDiagnostics
    false false false false false 0 false false
    false false 0 0 EventTxDiagnostics.newObserver
    (NodeEventDelivery.newController NodeEventStore.newStore) EventProducers.newStoreSink
    EventProducers.newProducer (EventProducers.newSensor analogThresholdPolicy) 0
    EventRadioIntegration.LISTENING (EventRadioIntegration.mkTimer false false 0) false
    (zeros 32) (zeros 32) 0 Protocol.zeroPacket false TransactionEngine.newTracker
    (HostRoleIntegration.newStack (zeros HostProtocol.MAX_ENCODED_FRAME_SIZE)
       (zeros HostProtocol.MAX_ENCODED_FRAME_SIZE) false)
    RadioOperationBridge.newProcessor false false Protocol.zeroPacket.

(** ** The interrupt *)

(* src-rx/main.cpp:178-185 setRadioFlag *)
Definition setRadioFlag (n : Node) : Node :=
  let n := if eventTxObservationWindow n
    then if negb (dioDuringEventTx n =? UINT32_MAX)
         then n <| dioDuringEventTx := dioDuringEventTx n + 1 |> else n
    else if negb (dioOutsideEventTx n =? UINT32_MAX)
         then n <| dioOutsideEventTx := dioOutsideEventTx n + 1 |> else n in
  n <| operationDone := true |>.

(** ** What the objects are asked with

    The delivery controller holds the runtime state and the transmission observer
    by pointer: it is lent what they hold, and what it wrote is taken back.  All
    the store and the controller write of the runtime state is its event
    snapshot. *)

Definition lend (n : Node) : NodeEventDelivery.Controller :=
  let c := eventDelivery n in
  c <| NodeEventDelivery.store_ := (NodeEventDelivery.store_ c)
         <| NodeEventStore.diagnostics_ :=
              (λ _, runtimeState n) <$> NodeEventStore.diagnostics_ (NodeEventDelivery.store_ c) |> |>
    <| NodeEventDelivery.observer_ := (λ _, eventTxObserver n) <$> NodeEventDelivery.observer_ c |>.

Definition takeBack (c : NodeEventDelivery.Controller) (n : Node) : Node :=
  n <| eventDelivery := c |>
    <| runtimeState := match NodeEventStore.diagnostics_ (NodeEventDelivery.store_ c) with
                       | Some r => (runtimeState n) <| RuntimeState.eventSnapshot_ := RuntimeState.eventSnapshot_ r |>
                       | None => runtimeState n
                       end |>
    <| eventTxObserver := match NodeEventDelivery.observer_ c with
                          | Some o => o
                          | None => eventTxObserver n
                          end |>.

(** The services of the Host and of the Hub's commands write the capability
    diagnostics, their copy in the runtime state, and the board's state. *)
Definition takeLocal (l : CapabilityRoleIntegration.Local ProfileState) (n : Node) : Node :=
  n <| runtimeState := (runtimeState n)
         <| RuntimeState.capabilityDiagnostics_ := RuntimeState.capabilityDiagnostics_ l.1 |>
         <| RuntimeState.capabilityDiagnosticsAvailable_ := RuntimeState.capabilityDiagnosticsAvailable_ l.1 |> |>
    <| capabilityDiagnostics := l.2.1 |>
    <| capabilityState := l.2.2 |>.

Definition localState (n : Node) : CapabilityRoleIntegration.Local ProfileState :=
  (runtimeState n, (capabilityDiagnostics n, capabilityState n)).

(* src-rx/main.cpp:164-176 = queryHostAvailability, hostAvailability *)
Definition hostAvailability (n : Node) : HostOperationService.AvailabilityProvider :=
  HostOperationService.makeAvailabilityProvider
    (Some (λ capabilityId, HeltecV4Capabilities.capabilityAvailability (capabilityState n) capabilityId false)).

(** ** The event snapshot *)

#[export] Instance eta_EventDetailSnapshot : RecEta EventDetailSnapshot := λ d,
  RuntimeState.mkDetail (RuntimeState.txLifecycle d) (RuntimeState.custodyCount d)
    (RuntimeState.detailCapacity d) (RuntimeState.detailActiveCount d) (RuntimeState.consumedCount d)
    (RuntimeState.recordAvailable d) (RuntimeState.detailState d) (RuntimeState.detailIdentity d)
    (RuntimeState.family d) (RuntimeState.attemptsUsed d) (RuntimeState.attemptsMaximum d)
    (RuntimeState.waitingForAdmission d) (RuntimeState.waitingForRetry d)
    (RuntimeState.remainingLifetimeAvailable d) (RuntimeState.remainingLifetimeSeconds d)
    (RuntimeState.admissionOrdinalAvailable d) (RuntimeState.admissionOrdinal d)
    (RuntimeState.recentAdmissionAvailable d) (RuntimeState.recentAdmission d)
    (RuntimeState.detailPersistenceDegraded d) (RuntimeState.detailHubUnavailable d)
    (RuntimeState.lastProducer d) (RuntimeState.detailCounters d).

(** [RuntimeState::EventDetailSnapshot detail;] *)
Definition emptyDetail : EventDetailSnapshot :=
  RuntimeState.mkDetail EventTxDiagnostics.newSnapshot 0 0 0 0 false RuntimeState.EMPTY
    (RuntimeState.mkIdentitySnapshot 0 0 0) 0 0 0 false false false 0 false 0 false
    (RuntimeState.mkIdentitySnapshot 0 0 0) false false RuntimeState.zeroProducer
    (RuntimeState.mkEventCounters 0 0 0 0 0 0 0 0 0 0 0 0 0 0 0).

(* src-rx/main.cpp:223-247 = eventDetailState *)
Definition eventDetailState (state : NodeEventDelivery.DeliveryState) : RuntimeState.EventDetailState :=
  match state with
  | NodeEventDelivery.D_QUEUED => RuntimeState.QUEUED
  | NodeEventDelivery.D_READY => RuntimeState.DETAIL_READY
  | NodeEventDelivery.TX_PREPARE => RuntimeState.TX_PREPARE
  | NodeEventDelivery.TX => RuntimeState.DETAIL_TRANSMITTING
  | NodeEventDelivery.WAIT_ADMISSION => RuntimeState.WAIT_ADMISSION
  | NodeEventDelivery.BACKOFF => RuntimeState.BACKOFF
  | NodeEventDelivery.D_RELEASED => RuntimeState.RELEASED
  | NodeEventDelivery.D_FAILED => RuntimeState.FAILED
  | NodeEventDelivery.D_EXPIRED => RuntimeState.EXPIRED
  end.

(** [static_cast<uint8_t>] of the two enumerations of the snapshot. *)
(* node_event_delivery.h:223-226 = RuntimeState, its values *)
Definition deliveryCode (state : NodeEventDelivery.DeliveryState) : Z :=
  match state with
  | NodeEventDelivery.D_QUEUED => 0
  | NodeEventDelivery.D_READY => 1
  | NodeEventDelivery.TX_PREPARE => 2
  | NodeEventDelivery.TX => 3
  | NodeEventDelivery.WAIT_ADMISSION => 4
  | NodeEventDelivery.BACKOFF => 5
  | NodeEventDelivery.D_RELEASED => 6
  | NodeEventDelivery.D_FAILED => 7
  | NodeEventDelivery.D_EXPIRED => 8
  end.

(* node_event_radio.h:9-17 = NodeOwner, its values *)
Definition ownerCode (owner : EventRadioIntegration.NodeOwner) : Z :=
  match owner with
  | EventRadioIntegration.LISTENING => 0
  | EventRadioIntegration.STANDBY_ACQUIRED => 1
  | EventRadioIntegration.EVENT_TX => 2
  | EventRadioIntegration.COMMAND_PRE_ACK => 3
  | EventRadioIntegration.COMMAND_ACK_TX => 4
  | EventRadioIntegration.COMMAND_RESPONSE_TX => 5
  | EventRadioIntegration.MAINTENANCE => 6
  end.

(** [irqs > UINT16_MAX ? UINT16_MAX : static_cast<uint16_t>(irqs)]. *)
Definition clampIrqs (irqs : Z) : Z := if UINT16_MAX <? irqs then UINT16_MAX else u16 irqs.

(* src-rx/main.cpp:259-269 = buildEventDetailSnapshot, the transmissions *)
Definition txLifecycleOf (n : Node) : EventTxDiagnostics.Snapshot :=
  let tx := EventTxDiagnostics.snapshot_ (eventTxObserver n) in
  let counters := EventTxDiagnostics.counters tx in
  let counters := upd counters (EventTxDiagnostics.index_of EventTxDiagnostics.DIO_EVENT)
                    (clampIrqs (dioDuringEventTx n)) in
  let counters := upd counters (EventTxDiagnostics.index_of EventTxDiagnostics.DIO_OTHER)
                    (clampIrqs (dioOutsideEventTx n)) in
  tx <| EventTxDiagnostics.controllerState := deliveryCode (NodeEventDelivery.state_ (eventDelivery n)) |>
     <| EventTxDiagnostics.radioOwner := ownerCode (eventRadio n) |>
     <| EventTxDiagnostics.counters := counters |>.

(** The first of the slots that is not free. *)
(* src-rx/main.cpp:273-283 = buildEventDetailSnapshot, a slot in use *)
Fixpoint firstOwned (left slot : nat) (s : NodeEventStore.Store) : option (EventRecords.NodeRecord * nat) :=
  match left with
  | O => None
  | S left' =>
      match NodeEventStore.recordAt slot s with
      | Some owned =>
          if negb (EventRecords.nr_state owned =? EventRecords.NodeState.FREE) then Some (owned, slot)
          else firstOwned left' (S slot) s
      | None => firstOwned left' (S slot) s
      end
  end.

(* src-rx/main.cpp:290-309 = buildEventDetailSnapshot, a record *)
Definition recordDetail (n : Node) (r : EventRecords.NodeRecord) (slot : nat) (d : EventDetailSnapshot)
    : EventDetailSnapshot :=
  let delivery := eventDelivery n in
  let state := NodeEventDelivery.state_ delivery in
  let d := d <| RuntimeState.recordAvailable := true |>
             <| RuntimeState.detailIdentity :=
                  RuntimeState.mkIdentitySnapshot (RuntimeState.localId_ (runtimeState n))
                    (EventRecords.nr_eventEpoch r) (EventRecords.nr_eventId r) |>
             <| RuntimeState.family := EventRecords.nr_family r |>
             <| RuntimeState.attemptsUsed := EventRecords.attemptsUsed r |>
             <| RuntimeState.attemptsMaximum := EventRecords.MAX_ATTEMPTS |> in
  if EventRecords.nr_state r =? EventRecords.NodeState.FAILED
  then d <| RuntimeState.detailState := RuntimeState.FAILED |> else
  if EventRecords.nr_state r =? EventRecords.NodeState.EXPIRED
  then d <| RuntimeState.detailState := RuntimeState.EXPIRED |> else
  if NodeEventDelivery.active_ delivery && (NodeEventDelivery.activeSlot_ delivery =? slot)%nat
  then d <| RuntimeState.detailState := eventDetailState state |>
         <| RuntimeState.waitingForAdmission := bool_decide (state = NodeEventDelivery.WAIT_ADMISSION) |>
         <| RuntimeState.waitingForRetry := bool_decide (state = NodeEventDelivery.BACKOFF) |>
         <| RuntimeState.remainingLifetimeAvailable := true |>
         <| RuntimeState.remainingLifetimeSeconds := NodeEventDelivery.effectiveRemainingSeconds delivery |>
  else d <| RuntimeState.detailState := RuntimeState.QUEUED |>
         <| RuntimeState.remainingLifetimeAvailable := true |>
         <| RuntimeState.remainingLifetimeSeconds := EventRecords.remainingActiveSeconds r |>.

(* src-rx/main.cpp:249-310 = buildEventDetailSnapshot *)
Definition buildEventDetailSnapshot (n : Node) : EventDetailSnapshot :=
  let summary := RuntimeState.eventSnapshot_ (runtimeState n) in
  let store := NodeEventDelivery.store_ (eventDelivery n) in
  let d := emptyDetail
    <| RuntimeState.custodyCount := u8 (Z.of_nat (NodeEventStore.ownedCount store)) |>
    <| RuntimeState.detailCapacity := u8 (Z.of_nat NodeEventStore.NODE_EVENT_CAPACITY) |>
    <| RuntimeState.detailPersistenceDegraded := RuntimeState.persistenceDegraded summary |>
    <| RuntimeState.detailHubUnavailable := RuntimeState.hubUnavailable summary |>
    <| RuntimeState.lastProducer := RuntimeState.lastEventProducer_ (runtimeState n) |>
    <| RuntimeState.detailCounters := RuntimeState.eventCounters summary |>
    <| RuntimeState.txLifecycle := txLifecycleOf n |> in
  match (match NodeEventStore.queuedAt 0 store with
         | Some found => Some found
         | None => firstOwned NodeEventStore.NODE_EVENT_CAPACITY 0 store
         end) with
  | Some (r, slot) => recordDetail n r slot d
  | None =>
      if bool_decide (NodeEventDelivery.state_ (eventDelivery n) = NodeEventDelivery.D_RELEASED)
      then d <| RuntimeState.detailState := RuntimeState.RELEASED |> else d
  end.

Section Sketch.

Context {R Q : Type} `{Radio R} `{Board Q} `{NodeEventStore.Storage Q} `{DeviceSettings.RecordStore Q}
  `{HostTransport.ByteStream Q}.

(** The objects, the radio and the board. *)
Abbreviation M := (st (Node * (R * Q))).

Definition radio {X} (m : st R X) : M X := outside (zoom fst (λ r w, (r, w.2)) m).

Definition board {X} (m : st Q X) : M X := outside (zoom snd (λ q w, (w.1, q)) m).

Definition now : M Z := t <~ board millis ;; ret (u32 t).

Definition on_runtime (f : State → State) : M unit :=
  update (λ n, n <| runtimeState := f (runtimeState n) |>).

Definition on_ui (f : DeviceUi.Controller → DeviceUi.Controller) : M unit :=
  update (λ n, n <| uiController := f (uiController n) |>).

Definition on_observer (f : EventTxDiagnostics.Observer → EventTxDiagnostics.Observer) : M unit :=
  update (λ n, n <| eventTxObserver := f (eventTxObserver n) |>).

Definition on_owner (f : EventRadioIntegration.NodeOwner → EventRadioIntegration.NodeOwner) : M unit :=
  update (λ n, n <| eventRadio := f (eventRadio n) |>).

(** A call on the delivery controller, and one on the sink that feeds it. *)
Definition lent (x : Node * (R * Q)) : NodeEventDelivery.Controller * (Z * Q) :=
  (lend x.1, (eventSequence x.1, x.2.2)).

Definition returned (t : NodeEventDelivery.Controller * (Z * Q)) (x : Node * (R * Q)) : Node * (R * Q) :=
  ((takeBack t.1 x.1) <| eventSequence := t.2.1 |>, (x.2.1, t.2.2)).

Definition on_delivery {X} (m : st (NodeEventDelivery.Controller * (Z * Q)) X) : M X :=
  zoom lent returned m.

(** A producer of events, which creates them through the sink. *)
Definition producing {T X} (get : Node → T) (put : T → Node → Node)
    (m : st (T * (EventProducers.StoreCreationSink * (NodeEventDelivery.Controller * (Z * Q)))) X) : M X :=
  zoom (λ x, (get x.1, (eventCreationSink x.1, lent x)))
    (λ t x, let x := returned t.2.2 x in ((put t.1 x.1) <| eventCreationSink := t.2.1 |>, x.2)) m.

(** A call on the settings manager. *)
Definition on_settings {X} (m : st (SettingsManager * Q) X) : M X :=
  zoom (λ x, (settingsManager x.1, x.2.2))
    (λ t x, (x.1 <| settingsManager := t.1 |>, (x.2.1, t.2))) m.

(** A call on the Host stack. *)
Definition on_host {X}
    (m : st (HostRoleIntegration.Stack * (Q * @HostOperationLifecycle.Device ProfileState unit)) X) : M X :=
  zoom (λ x, (hostStack x.1, (x.2.2, (localState x.1, (HubEventLedger.newLedger, tt)))))
    (λ t x, (takeLocal t.2.2.1 (x.1 <| hostStack := t.1 |>), (x.2.1, t.2.1))) m.

(** Interrupts raised since the flag was last read have set it. *)
Definition operationPending : M bool :=
  raised <~ radio interrupts ;;
  update (Nat.iter raised setRadioFlag) ;;;
  this operationDone.

(* src-rx/main.cpp:187-191 clearRadioFlag *)
Definition clearRadioFlag : M unit :=
  pending <~ operationPending ;;
  window <~ this eventTxObservationWindow ;;
  t <~ now ;;
  on_observer (EventTxDiagnostics.clearingFlag pending window t) ;;;
  update (λ n, n <| operationDone := false |>).

(** ** Small changes *)

(* src-rx/main.cpp:193-195 markPresentationChanged *)
Definition markPresentationChanged : M unit := on_ui DeviceUi.markDirty.

(* src-rx/main.cpp:197-202 setRuntimePhase *)
Definition setRuntimePhase (phase : RuntimePhase) : M unit :=
  current <~ this (λ n, phase_ (runtimeState n)) ;;
  if negb (bool_decide (current = phase))
  then on_runtime (RuntimeState.setPhase phase) ;;; markPresentationChanged else ret tt.

(* src-rx/main.cpp:204-209 setHealth *)
Definition setHealth (health : Health) : M unit :=
  current <~ this (λ n, health_ (runtimeState n)) ;;
  if negb (bool_decide (current = health))
  then on_runtime (RuntimeState.setHealth health) ;;; markPresentationChanged else ret tt.

(* src-rx/main.cpp:211-214 recordError *)
Definition recordError (error : RuntimeState.ErrorClass) : M unit :=
  on_runtime (RuntimeState.recordError error) ;;; markPresentationChanged.

(* src-rx/main.cpp:216-221 setPeerState *)
Definition setPeerState (state : DeviceUi.PeerState) : M unit :=
  current <~ this peerState ;;
  if negb (bool_decide (current = state))
  then update (λ n, n <| peerState := state |>) ;;; markPresentationChanged else ret tt.

(** Ready, or degraded by an invalid registry. *)
(* src-rx/main.cpp:924-928 = resumeListening, the health *)
Definition setReadyHealth : M unit :=
  valid <~ this capabilityRegistryValid ;;
  setHealth (if (valid : bool) then RuntimeState.HEALTH_READY else RuntimeState.DEGRADED).

(* src-rx/main.cpp:376-388 updateLedOutput *)
Definition updateLedOutput : M unit :=
  n <~ this id ;;
  board (writeLed
    (CapabilityRoleIntegration.ledOutputRequested (DeviceSettings.ledEnabled (currentSettings n))
       (radioLedActive n) (feedbackLedActive n)
       (HeltecV4Capabilities.indicatorRequested (capabilityState n)))).

Definition setRadioLed (on : bool) : M unit :=
  update (λ n, n <| radioLedActive := on |>) ;;; updateLedOutput.

(** ** Display, LED and button *)

(* src-rx/main.cpp:356-374 renderCurrentPresentation *)
Definition renderCurrentPresentation (nowMs : Z) : M unit :=
  update (λ n, n <| renderingPresentation := true |>) ;;;
  ui <~ this uiController ;;
  board (render (if DeviceUi.editorActive_ ui then inr (DeviceUi.editorPresentation ui)
                 else inl (DeviceUi.screen_ ui))) ;;;
  update (λ n, n <| renderingPresentation := false |>) ;;;
  on_ui (DeviceUi.recordRendered nowMs).

(* src-rx/main.cpp:390-400 requestButtonFeedback *)
Definition requestButtonFeedback (event : DeviceInput.ButtonEvent) (nowMs : Z) : M unit :=
  settings <~ this currentSettings ;;
  if negb (SettingsIntegration.feedbackAllowed settings event) then ret tt else
  update (λ n, n <| feedbackLedActive := true |>
                 <| feedbackLedUntilMs := u32 (nowMs + BUTTON_FEEDBACK_MS) |>) ;;;
  updateLedOutput.

(* src-rx/main.cpp:402-410 serviceButtonFeedback *)
Definition serviceButtonFeedback (nowMs : Z) : M unit :=
  n <~ this id ;;
  if feedbackLedActive n && (0 <=? sint32 (nowMs - feedbackLedUntilMs n))
  then update (λ n, n <| feedbackLedActive := false |>) ;;; updateLedOutput else ret tt.

(* src-rx/main.cpp:412-425 queueEditorAction *)
Definition queueEditorAction : M unit :=
  action <~ zoom (λ x : Node * (R * Q), uiController x.1)
    (λ c x, (x.1 <| uiController := c |>, x.2)) DeviceUi.takeEditorAction ;;
  match action with
  | DeviceUi.SAVE_SETTINGS_REQUEST =>
      update (λ n, n <| persistenceRequests :=
                     SettingsIntegration.queueSave (DeviceUi.draftSettings_ (uiController n)) (persistenceRequests n) |>
                     <| quietMaintenanceAttemptArmed := true |>)
  | DeviceUi.FACTORY_RESET_REQUEST =>
      update (λ n, n <| persistenceRequests := SettingsIntegration.queueFactoryReset (persistenceRequests n) |>
                     <| quietMaintenanceAttemptArmed := true |>)
  | DeviceUi.NO_REQUEST => ret tt
  end.

(* src-rx/main.cpp:427-446 recordProducerEmission *)
Definition recordProducerEmission (kind : RuntimeState.EventProducerKind) (emission : EventProducers.Emission)
    : M unit :=
  if negb (EventProducers.attempted emission) then ret tt else
  sink <~ this eventCreationSink ;;
  let identity :=
    if bool_decide (EventProducers.em_result emission = EventProducers.ENQUEUED)
       && EventProducers.lastResultAvailable_ sink
    then let i := NodeEventStore.enqueue_identity (EventProducers.lastResult_ sink) in
         Some (RuntimeState.mkIdentitySnapshot (EventProtocol.sourceDeviceId i)
                 (EventProtocol.identityEpoch i) (EventProtocol.identityId i))
    else None in
  on_runtime (RuntimeState.recordEventProducer kind
    (EventProducers.diagnosticResult (EventProducers.em_result emission)) identity) ;;;
  markPresentationChanged.

(** An attempt that failed in the store. *)
(* src-rx/main.cpp:475-480 = serviceButton, a storage failure *)
Definition storageFailed (e : EventProducers.Emission) : bool :=
  EventProducers.attempted e && bool_decide (EventProducers.em_result e = EventProducers.STORAGE_FAILURE).

(* src-rx/main.cpp:456-481 = serviceButton, the producer *)
Definition produceFromButton (events : DeviceInput.ButtonEvents) : M unit :=
  ui <~ this uiController ;;
  let context := EventProducers.mkContext (DeviceUi.displayAwake_ ui) (DeviceUi.editorActive_ ui)
    (bool_decide (DeviceUi.screen_ ui = DeviceUi.HOME)) (DeviceUi.isButtonProducerScreen (DeviceUi.screen_ ui)) in
  produced <~ producing buttonEventProducer (λ p (n : Node), n <| buttonEventProducer := p |>)
    (EventProducers.observe events context) ;;
  recordProducerEmission RuntimeState.KIND_BUTTON (EventProducers.pr_button produced) ;;;
  recordProducerEmission RuntimeState.KIND_MANUAL_CHECK_IN (EventProducers.pr_manualCheckIn produced) ;;;
  (if EventProducers.buttonSuppressed produced
   then on_runtime (RuntimeState.recordEventProducer RuntimeState.KIND_BUTTON RuntimeState.SUPPRESSED None) ;;;
        markPresentationChanged
   else ret tt) ;;;
  if storageFailed (EventProducers.pr_button produced) || storageFailed (EventProducers.pr_manualCheckIn produced)
  then update (λ n, n <| eventSubsystemReady := false |>) else ret tt.

(* src-rx/main.cpp:448-487 serviceButton *)
Definition serviceButton (nowMs : Z) : M unit :=
  pressed <~ board buttonPressed ;;
  events <~ zoom (λ x : Node * (R * Q), applicationButton x.1)
    (λ b x, (x.1 <| applicationButton := b |>, x.2)) (DeviceInput.update pressed nowMs) ;;
  snapshot <~ this (λ n, DeviceInput.snapshot (applicationButton n)) ;;
  update (λ n, n <| capabilityState := (capabilityState n)
      <| HeltecV4Capabilities.digitalInputAvailable := DeviceInput.available snapshot |>
      <| HeltecV4Capabilities.digitalInputActive := DeviceInput.pressed snapshot |> |>) ;;;
  ready <~ this eventSubsystemReady ;;
  (if (ready : bool) then produceFromButton events else ret tt) ;;;
  on_ui (DeviceUi.handle (DeviceInput.first events) nowMs) ;;;
  requestButtonFeedback (DeviceInput.first events) nowMs ;;;
  on_ui (DeviceUi.handle (DeviceInput.second events) nowMs) ;;;
  requestButtonFeedback (DeviceInput.second events) nowMs ;;;
  queueEditorAction.

(* src-rx/main.cpp:489-502 serviceSensorThresholdProducer *)
Definition serviceSensorThresholdProducer : M unit :=
  n <~ this id ;;
  if negb (eventSubsystemReady n) then ret tt else
  produced <~ producing analogThresholdProducer (λ p (n : Node), n <| analogThresholdProducer := p |>)
    (EventProducers.observeSensor (HeltecV4Capabilities.analogInputAvailable (capabilityState n))
       (HeltecV4Capabilities.analogInputNormalized (capabilityState n))) ;;
  recordProducerEmission RuntimeState.KIND_SENSOR_THRESHOLD produced ;;;
  if storageFailed produced then update (λ n, n <| eventSubsystemReady := false |>) else ret tt.

(* src-rx/main.cpp:727-751 serviceUi *)
Definition serviceUi (nowMs : Z) : M unit :=
  action <~ zoom (λ x : Node * (R * Q), uiController x.1)
    (λ c x, (x.1 <| uiController := c |>, x.2)) (DeviceUi.update nowMs) ;;
  match action with
  | DeviceUi.RENDER => renderCurrentPresentation nowMs
  | DeviceUi.DISPLAY_ON => board displayOn
  | DeviceUi.DISPLAY_ON_AND_RENDER => board displayOn ;;; renderCurrentPresentation nowMs
  | DeviceUi.DISPLAY_OFF => board displayOff
  | DeviceUi.NO_ACTION => ret tt
  end.

(** ** Settings *)

(* src-rx/main.cpp:799-813 applyCurrentSettings *)
Definition applyCurrentSettings (nowMs : Z) (applyDefaultScreen : bool) : M unit :=
  settings <~ this currentSettings ;;
  on_ui (DeviceUi.setCurrentSettings settings) ;;;
  on_ui (DeviceUi.setInactivityTimeoutMs (SettingsIntegration.timeoutMs settings) nowMs) ;;;
  board (setContrast (DeviceSettings.displayContrast settings)) ;;;
  (if applyDefaultScreen
   then on_ui (DeviceUi.selectConfiguredScreen (SettingsIntegration.screen (DeviceSettings.defaultScreen settings)))
   else ret tt) ;;;
  updateLedOutput ;;;
  markPresentationChanged.

(* src-rx/main.cpp:815-828 loadSettings *)
Definition loadSettings (nowMs : Z) : M unit :=
  result <~ on_settings DeviceSettings.load ;;
  update (λ n, n <| currentSettings := DeviceSettings.settings_ (settingsManager n) |>
                 <| configurationState := SettingsIntegration.fromLoad result (settingsManager n) |>) ;;;
  applyCurrentSettings nowMs true ;;;
  update (λ n, if DeviceSettings.repairPending_ (settingsManager n)
    then n <| persistenceRequests := SettingsIntegration.queueAutomaticRepair (persistenceRequests n) |>
           <| quietMaintenanceAttemptArmed := true |>
    else n).

(** The request has been served. *)
(* src-rx/main.cpp:867-868 = servicePendingPersistence, its end *)
Definition requestServed : M unit :=
  update (λ n, n <| persistenceRequests := SettingsIntegration.clear (persistenceRequests n) |>
                 <| quietMaintenanceAttemptArmed := false |>).

(* src-rx/main.cpp:830-869 servicePendingPersistence *)
Definition servicePendingPersistence (nowMs : Z) : M unit :=
  request <~ this (λ n, SettingsIntegration.pending_ (persistenceRequests n)) ;;
  if bool_decide (request = SettingsIntegration.FACTORY_RESET) then
    result <~ on_settings DeviceSettings.factoryReset ;;
    update (λ n, n <| configurationState := SettingsIntegration.fromReset result (settingsManager n) |>) ;;;
    (if bool_decide (result = DeviceSettings.ResetResult.RESET_COMPLETED)
     then update (λ n, n <| currentSettings := DeviceSettings.settings_ (settingsManager n) |>) ;;;
          applyCurrentSettings nowMs true
     else markPresentationChanged) ;;;
    requestServed
  else
    candidate <~ this (λ n, if bool_decide (request = SettingsIntegration.SAVE)
                            then SettingsIntegration.saveDraft_ (persistenceRequests n)
                            else currentSettings n) ;;
    result <~ on_settings (DeviceSettings.save candidate) ;;
    update (λ n, n <| configurationState := SettingsIntegration.fromSave result (settingsManager n) |>) ;;;
    (if SettingsIntegration.saveSucceeded result
     then update (λ n, n <| currentSettings := DeviceSettings.settings_ (settingsManager n) |>) ;;;
          applyCurrentSettings nowMs false
     else markPresentationChanged) ;;;
    requestServed.

(* src-rx/main.cpp:871-894 servicePersistenceAfterAcknowledgment *)
Definition servicePersistenceAfterAcknowledgment (nowMs : Z) (radioStandby : bool) : M unit :=
  request <~ this (λ n, SettingsIntegration.pending_ (persistenceRequests n)) ;;
  if bool_decide (request = SettingsIntegration.NO_REQUEST) then ret tt else
  pending <~ operationPending ;;
  rendering <~ this renderingPresentation ;;
  let safePoint := NodeSettingsIntegration.mkSafePoint true false false false false false false
    pending radioStandby rendering in
  if negb (NodeSettingsIntegration.persistenceSafe safePoint)
  then if negb radioStandby then update (λ n, n <| quietMaintenanceAttemptArmed := false |>) else ret tt
  else servicePendingPersistence nowMs.

(** ** Listening *)

(* src-rx/main.cpp:896-919 startListening *)
Definition startListening : M bool :=
  n <~ this id ;;
  (if bool_decide (NodeEventDelivery.state_ (eventDelivery n) = NodeEventDelivery.TX)
   then t <~ now ;; on_observer (EventTxDiagnostics.note EventTxDiagnostics.RECEIVE_DURING_TX t)
   else ret tt) ;;;
  clearRadioFlag ;;;
  setRuntimePhase RuntimeState.LISTENING ;;;
  state <~ radio startReceive ;;
  if negb (state =? 0) then
    on_runtime (RuntimeState.incrementRadioErrors 1) ;;;
    setHealth RuntimeState.DEGRADED ;;;
    recordError RuntimeState.RADIO_START_RECEIVE ;;;
    ret false
  else
    on_owner EventRadioIntegration.restoreListening ;;;
    ret true.

(* src-rx/main.cpp:921-930 resumeListening *)
Definition resumeListening : M unit :=
  _ <~ radio standby ;;
  listening <~ startListening ;;
  if (listening : bool) then setReadyHealth else ret tt.

(** [startListening()] for its effect. *)
Definition listen : M unit := _ <~ startListening ;; ret tt.

(* src-rx/main.cpp:932-989 serviceQuietMaintenance *)
Definition serviceQuietMaintenance (nowMs : Z) : M unit :=
  pending <~ operationPending ;;
  n <~ this id ;;
  if negb (NodeSettingsIntegration.quietMaintenanceAllowed
             (SettingsIntegration.pending_ (persistenceRequests n)) (quietMaintenanceAttemptArmed n)
             (phase_ (runtimeState n)) pending false false (renderingPresentation n))
  then ret tt else
  update (λ n, n <| maintenanceOwnershipActive := true |>) ;;;
  (if eventTxObservationWindow n
   then on_observer (EventTxDiagnostics.note EventTxDiagnostics.MAINTENANCE_DURING_TX nowMs) else ret tt) ;;;
  standbyState <~ radio standby ;;
  arrived <~ operationPending ;;
  pending <~ operationPending ;;
  match NodeSettingsIntegration.classifyAcquisition (standbyState =? 0) (arrived || pending) with
  | NodeSettingsIntegration.EVENT_PENDING => update (λ n, n <| maintenanceOwnershipActive := false |>)
  | NodeSettingsIntegration.STANDBY_FAILED =>
      update (λ n, n <| maintenanceOwnershipActive := false |> <| quietMaintenanceAttemptArmed := false |>) ;;;
      listen
  | NodeSettingsIntegration.OWNED =>
      pending <~ operationPending ;;
      rendering <~ this renderingPresentation ;;
      let safePoint := NodeSettingsIntegration.mkSafePoint false true false false false false false
        pending true rendering in
      if negb (NodeSettingsIntegration.persistenceSafe safePoint) then
        update (λ n, n <| maintenanceOwnershipActive := false |>) ;;;
        pending <~ operationPending ;;
        if negb pending then listen else ret tt
      else
        servicePendingPersistence nowMs ;;;
        update (λ n, n <| maintenanceOwnershipActive := false |>) ;;;
        listen
  end.

(** ** Acknowledgments and responses *)

(** [Protocol::encode] into the transmit buffer. *)
Definition encodeToTransmit (packet : Protocol.Packet) : M (bool * Z) :=
  n <~ this id ;;
  match Protocol.encode packet (Some (transmitBuffer n)) with
  | (ok, Some bytes, length) => update (λ n, n <| transmitBuffer := bytes |>) ;;; ret (ok, length)
  | (ok, None, length) => ret (ok, length)
  end.

(** [radio.startTransmit(transmitBuffer, transmitLength)]. *)
Definition transmit : M Z :=
  n <~ this id ;;
  radio (startTransmit (take (Z.to_nat (transmitLength n)) (transmitBuffer n))).

(* src-rx/main.cpp:991-1024 startAcknowledgment *)
Definition startAcknowledgment (command : Protocol.Packet) (status : Z) (duplicate : bool) : M bool :=
  update (λ n, n <| pendingAcknowledgment := TransactionEngine.makeAcknowledgment command status |>
                 <| transmitLength := 0 |>) ;;;
  acknowledgment <~ this pendingAcknowledgment ;;
  encoded <~ encodeToTransmit acknowledgment ;;
  update (λ n, n <| transmitLength := encoded.2 |>) ;;;
  if negb encoded.1 then listen ;;; ret false else
  update (λ n, n <| pendingAcknowledgmentDuplicate := duplicate |>) ;;;
  standbyState <~ radio standby ;;
  if negb (standbyState =? 0) then listen ;;; ret false else
  on_owner EventRadioIntegration.beginCommandPreAck ;;;
  t <~ now ;;
  update (λ n, n <| commandPreAck := EventRadioIntegration.begin t (commandPreAck n) |>) ;;;
  setRuntimePhase RuntimeState.TRANSMITTING_ACK ;;;
  ret true.

(* src-rx/main.cpp:1026-1057 serviceCommandPreAck *)
Definition serviceCommandPreAck (nowMs : Z) : M unit :=
  due <~ zoom (λ x : Node * (R * Q), commandPreAck x.1)
    (λ t x, (x.1 <| commandPreAck := t |>, x.2)) (EventRadioIntegration.due nowMs) ;;
  if negb due then ret tt else
  update (λ n, n <| commandPreAck := EventRadioIntegration.clear (commandPreAck n) |>) ;;;
  clearRadioFlag ;;;
  on_owner EventRadioIntegration.beginCommandAckTx ;;;
  setRadioLed true ;;;
  state <~ transmit ;;
  if negb (state =? 0) then
    setRadioLed false ;;;
    on_runtime (RuntimeState.incrementRadioErrors 1) ;;;
    setHealth RuntimeState.DEGRADED ;;;
    recordError RuntimeState.RADIO_START_TRANSMIT ;;;
    update (λ n, n <| structuredAckThenExecute := false |> <| structuredCachedResponseAfterAck := false |>) ;;;
    listen
  else ret tt.

(* src-rx/main.cpp:1060-1080 startStructuredResponse *)
Definition startStructuredResponse (response : Protocol.Packet) : M bool :=
  encoded <~ encodeToTransmit response ;;
  if negb encoded.1 then ret false else
  update (λ n, n <| structuredResponse := response |> <| transmitLength := encoded.2 |>) ;;;
  clearRadioFlag ;;;
  setRuntimePhase RuntimeState.TRANSMITTING_RESPONSE ;;;
  on_owner EventRadioIntegration.beginCommandResponseTx ;;;
  setRadioLed true ;;;
  state <~ transmit ;;
  if negb (state =? 0) then
    setRadioLed false ;;;
    on_runtime (RuntimeState.incrementRadioErrors 1) ;;;
    recordError RuntimeState.RADIO_START_TRANSMIT ;;;
    listen ;;;
    ret false
  else ret true.

(** The command the processor holds, carried out on the device. *)
(* src-rx/main.cpp:1085-1093 = beginStructuredResponseAfterAck, the execution *)
Definition executeStructured : M RadioOperationBridge.NodeResult :=
  t <~ now ;;
  n <~ this id ;;
  let snapshot := HostOperationService.makeDeviceSnapshot (runtimeState n) (t / 1000) emptyDetail in
  executed <~ zoom (λ x : Node * (R * Q), (structuredProcessor x.1, localState x.1))
    (λ t x, (takeLocal t.2 (x.1 <| structuredProcessor := t.1 |>), x.2))
    (RadioOperationBridge.executeAdmittedOperation snapshot (capabilityRegistryValid n)
       HeltecV4Capabilities.registryView DeviceCapabilities.InterlockState.CLEAR (hostAvailability n)) ;;
  update (λ n, n <| runtimeState := (RuntimeState.updateCapabilityDiagnostics (capabilityDiagnostics n) (runtimeState n)).2 |>) ;;;
  ret executed.

(** [None] if the execution made no response. *)
(* src-rx/main.cpp:1083-1097 = beginStructuredResponseAfterAck, the response *)
Definition responseAfterAck : M (option Protocol.Packet) :=
  n <~ this id ;;
  if structuredAckThenExecute n then
    executed <~ executeStructured ;;
    match RadioOperationBridge.nd_action executed with
    | RadioOperationBridge.RESPONSE_READY => ret (Some (RadioOperationBridge.nd_response executed))
    | _ => ret None
    end
  else ret (Some (structuredResponse n)).

(* src-rx/main.cpp:1082-1102 beginStructuredResponseAfterAck *)
Definition beginStructuredResponseAfterAck : M bool :=
  response <~ responseAfterAck ;;
  match response with
  | None => ret false
  | Some response =>
      update (λ n, n <| structuredAckThenExecute := false |> <| structuredCachedResponseAfterAck := false |>) ;;;
      updateLedOutput ;;;
      startStructuredResponse response
  end.

(** A transmission has gone out. *)
(* src-rx/main.cpp:1107-1109 = finishStructuredResponse, the counters *)
Definition countTransmission : M unit :=
  on_runtime (RuntimeState.incrementTransmissionsCompleted 1) ;;;
  t <~ now ;;
  on_runtime (RuntimeState.recordActivity t) ;;;
  markPresentationChanged.

(* src-rx/main.cpp:1104-1111 finishStructuredResponse *)
Definition finishStructuredResponse : M unit :=
  setRadioLed false ;;;
  countTransmission ;;;
  listen.

(* src-rx/main.cpp:1139-1179 finishAcknowledgment *)
Definition finishAcknowledgment : M unit :=
  setRadioLed false ;;;
  standbyState <~ radio standby ;;
  on_delivery NodeEventDelivery.successfulHubExchange ;;;
  n <~ this id ;;
  if structuredAckThenExecute n || structuredCachedResponseAfterAck n then
    countTransmission ;;;
    _ <~ beginStructuredResponseAfterAck ;;
    ret tt
  else
    t <~ now ;;
    servicePersistenceAfterAcknowledgment t (standbyState =? 0) ;;;
    listening <~ startListening ;;
    countTransmission ;;;
    if (listening : bool) then setReadyHealth else ret tt.

(** ** The Host *)

(** What the Host stack is told of the device. *)
(* src-rx/main.cpp:1126-1132 = serviceProductionHost, the arguments *)
Definition surroundings (nowMs : Z) (n : Node) : HostOperationLifecycle.Surroundings :=
  HostOperationLifecycle.mkSurroundings
    (HostOperationService.makeDeviceSnapshot (runtimeState n) (nowMs / 1000) (buildEventDetailSnapshot n))
    (RuntimeState.peerId_ (runtimeState n)) (capabilityRegistryValid n) HeltecV4Capabilities.registryView
    DeviceCapabilities.InterlockState.CLEAR (hostAvailability n) nowMs 2500 2 false false.

Definition on_stack (f : HostRoleIntegration.Stack → HostRoleIntegration.Stack) : M unit :=
  update (λ n, n <| hostStack := f (hostStack n) |>).

(* src-rx/main.cpp:1113-1136 serviceProductionHost *)
Definition serviceProductionHost (nowMs : Z) : M unit :=
  connected <~ board serialConnected ;;
  on_stack (HostRoleIntegration.observeConnection connected) ;;;
  _ <~ on_host (HostRoleIntegration.serviceTx HostRoleIntegration.TX_SERVICE_BUDGET) ;;
  on_stack (λ s, (HostRoleIntegration.servicePendingDelivery s).2) ;;;
  pending <~ operationPending ;;
  n <~ this id ;;
  if negb (RuntimeState.ready_ (runtimeState n)) || pending
     || negb (bool_decide (phase_ (runtimeState n) = RuntimeState.LISTENING)) then ret tt else
  available <~ board HostTransport.available ;;
  if available <=? 0 then ret tt else
  (if eventTxObservationWindow n
   then on_observer (EventTxDiagnostics.note EventTxDiagnostics.HOST_DURING_TX nowMs) else ret tt) ;;;
  standbyState <~ radio standby ;;
  pending <~ operationPending ;;
  if negb (standbyState =? 0) || pending then listen else
  su <~ this (surroundings nowMs) ;;
  _ <~ on_host (HostRoleIntegration.serviceRx su false HostRoleIntegration.RX_SERVICE_BUDGET) ;;
  update (λ n, n <| runtimeState := (RuntimeState.updateCapabilityDiagnostics (capabilityDiagnostics n) (runtimeState n)).2 |>) ;;;
  updateLedOutput ;;;
  listen.

(** ** A received packet *)

(* src-rx/main.cpp:1264-1299 = handleReceivedPacket, a structured command *)
Definition handleStructured (command : Protocol.Packet) : M unit :=
  n <~ this id ;;
  structured <~ zoom (λ x : Node * (R * Q), structuredProcessor x.1)
    (λ p x, (x.1 <| structuredProcessor := p |>, x.2))
    (RadioOperationBridge.admitCommand command (RuntimeState.localId_ (runtimeState n))
       (RuntimeState.peerId_ (runtimeState n))) ;;
  match RadioOperationBridge.nd_action structured with
  | RadioOperationBridge.ACK_THEN_EXECUTE =>
      on_runtime (RuntimeState.incrementAcceptedCommands 1) ;;;
      update (λ n, n <| structuredAckThenExecute := true |> <| structuredCachedResponseAfterAck := false |>) ;;;
      _ <~ startAcknowledgment command Protocol.AckStatus.SUCCESS false ;;
      ret tt
  | RadioOperationBridge.SEND_ACK =>
      on_runtime (RuntimeState.incrementDuplicates 1) ;;;
      _ <~ startAcknowledgment command Protocol.AckStatus.SUCCESS true ;;
      ret tt
  | RadioOperationBridge.SEND_ACK_AND_RESPONSE =>
      on_runtime (RuntimeState.incrementDuplicates 1) ;;;
      update (λ n, n <| structuredResponse := RadioOperationBridge.nd_response structured |>
                     <| structuredCachedResponseAfterAck := true |> <| structuredAckThenExecute := false |>) ;;;
      _ <~ startAcknowledgment command Protocol.AckStatus.SUCCESS true ;;
      ret tt
  | RadioOperationBridge.SEND_REJECTION_ACK =>
      _ <~ startAcknowledgment command
             (rd (Protocol.payload (RadioOperationBridge.nd_acknowledgment structured)) 0) false ;;
      ret tt
  | RadioOperationBridge.NODE_BUSY | RadioOperationBridge.NODE_IGNORE | RadioOperationBridge.RESPONSE_READY =>
      resumeListening
  end.

(** A packet that is not for the Node. *)
(* src-rx/main.cpp:1310-1328 = handleReceivedPacket, an ignored packet *)
Definition ignorePacket : M unit :=
  on_runtime (RuntimeState.incrementIgnoredPackets 1) ;;;
  recordError RuntimeState.PACKET_IGNORED ;;;
  resumeListening.

(* src-rx/main.cpp:1302-1362 = handleReceivedPacket, a command *)
Definition handleCommand (command : Protocol.Packet) : M unit :=
  n <~ this id ;;
  evaluation <~ zoom (λ x : Node * (R * Q), duplicateTracker x.1)
    (λ t x, (x.1 <| duplicateTracker := t |>, x.2))
    (TransactionEngine.evaluateNodeCommand command (RuntimeState.localId_ (runtimeState n))
       (RuntimeState.peerId_ (runtimeState n))) ;;
  let acknowledge duplicate :=
    _ <~ startAcknowledgment command (TransactionEngine.status evaluation) duplicate ;; ret tt in
  match TransactionEngine.outcome evaluation with
  | TransactionEngine.IGNORE_WRONG_DESTINATION | TransactionEngine.IGNORE_WRONG_SENDER
  | TransactionEngine.IGNORE_WRONG_PACKET_TYPE => ignorePacket
  | TransactionEngine.DUPLICATE =>
      on_runtime (RuntimeState.incrementDuplicates 1) ;;;
      markPresentationChanged ;;;
      acknowledge true
  | TransactionEngine.ACK_SUCCESS =>
      on_runtime (RuntimeState.incrementAcceptedCommands 1) ;;;
      setReadyHealth ;;;
      recordError RuntimeState.NONE ;;;
      setPeerState DeviceUi.PEER_SEEN ;;;
      markPresentationChanged ;;;
      acknowledge false
  | TransactionEngine.ACK_UNSUPPORTED_OPCODE => acknowledge false
  | TransactionEngine.ACK_MALFORMED_PACKET =>
      on_runtime (RuntimeState.incrementMalformedPackets 1) ;;;
      markPresentationChanged ;;;
      acknowledge false
  end.

(** The bytes [receiveBuffer, packetLength]. *)
Definition received (packetLength : Z) (n : Node) : list Z :=
  take (Z.to_nat packetLength) (receiveBuffer n).

(* src-rx/main.cpp:1236-1301 = handleReceivedPacket, decoding *)
Definition decodePacket (packetLength observedAtMs : Z) : M unit :=
  bytes <~ this (received packetLength) ;;
  match Protocol.decode (Some bytes) Protocol.zeroPacket with
  | (false, _) =>
      on_runtime (RuntimeState.incrementMalformedPackets 1) ;;;
      recordError RuntimeState.PACKET_DECODE ;;;
      resumeListening
  | (true, command) =>
      on_runtime (RuntimeState.incrementDecodedPacketsReceived 1) ;;;
      on_runtime (RuntimeState.recordInboundPacket (Protocol.type command) (Protocol.source command)
        (Protocol.destination command) (Protocol.sequence command) (Protocol.opcode command)
        (Protocol.payloadLength command) false 0 observedAtMs) ;;;
      markPresentationChanged ;;;
      if (Protocol.type command =? Protocol.PacketType.COMMAND)
         && WireOperations.isStructuredOpcode (Protocol.opcode command)
      then handleStructured command else handleCommand command
  end.

(* src-rx/main.cpp:1181-1363 = handleReceivedPacket *)
Definition handleReceivedPacket : M unit :=
  packetLength <~ radio getPacketLength ;;
  if (packetLength <? Protocol.HEADER_SIZE) || (Protocol.MAX_PACKET_SIZE <? packetLength) then
    on_runtime (RuntimeState.incrementMalformedPackets 1) ;;;
    recordError RuntimeState.PACKET_LENGTH ;;;
    resumeListening
  else
  read <~ radio (readData packetLength) ;;
  let (readState, bytes) := (read : Z * list Z) in
  if negb (readState =? 0) then
    on_runtime (RuntimeState.incrementRadioErrors 1) ;;;
    setHealth RuntimeState.DEGRADED ;;;
    recordError RuntimeState.RADIO_READ ;;;
    resumeListening
  else
  update (λ n, n <| receiveBuffer := copy_bytes (Z.to_nat packetLength) (receiveBuffer n) 0 bytes 0 |>) ;;;
  observedAtMs <~ now ;;
  rssi <~ radio getRSSI ;;
  snr <~ radio getSNR ;;
  on_runtime (RuntimeState.updateRadioMetrics rssi snr) ;;;
  on_runtime (RuntimeState.recordActivity observedAtMs) ;;;
  markPresentationChanged ;;;
  n <~ this id ;;
  (if eventSubsystemReady n
      && bool_decide (NodeEventDelivery.state_ (eventDelivery n) = NodeEventDelivery.WAIT_ADMISSION)
   then _ <~ on_delivery (NodeEventDelivery.admissionCandidate (Some (received packetLength n)) observedAtMs) ;;
        ret tt
   else ret tt) ;;;
  decodePacket packetLength observedAtMs.

(** ** Events *)

(** [eventTxObservationWindow = eventDelivery.state() == TX]. *)
Definition watchTransmission : M unit :=
  update (λ n, n <| eventTxObservationWindow :=
    bool_decide (NodeEventDelivery.state_ (eventDelivery n) = NodeEventDelivery.TX) |>).

(** A status that ends the event subsystem. *)
(* src-rx/main.cpp:1488-1490 = serviceNodeEvents, a failure *)
Definition endsSubsystem (status : NodeEventDelivery.ControllerStatus) : bool :=
  match status with
  | NodeEventDelivery.DEGRADED | NodeEventDelivery.POLICY_FAILURE | NodeEventDelivery.STORAGE_FAILURE => true
  | _ => false
  end.

(* src-rx/main.cpp:1533-1554 = serviceNodeEvents, a granted attempt *)
Definition transmitEvent (nowMs : Z) : M unit :=
  on_observer (EventTxDiagnostics.note EventTxDiagnostics.ARBITRATION_GRANTED nowMs) ;;;
  grant <~ on_delivery (NodeEventDelivery.grantTransmit nowMs) ;;
  let action := NodeEventDelivery.result_action grant in
  match NodeEventDelivery.action_type action with
  | NodeEventDelivery.TRANSMIT =>
      watchTransmission ;;;
      clearRadioFlag ;;;
      t <~ now ;;
      on_observer (EventTxDiagnostics.start t) ;;;
      startResult <~ radio (startTransmit
        (take (Z.to_nat (NodeEventDelivery.action_length action)) (NodeEventDelivery.action_bytes action))) ;;
      t <~ now ;;
      on_observer (EventTxDiagnostics.startResult startResult t) ;;;
      if negb (startResult =? 0) then
        _ <~ on_delivery (NodeEventDelivery.txStartFailed nowMs) ;;
        watchTransmission ;;;
        listen
      else
        _ <~ on_delivery (NodeEventDelivery.txStarted nowMs) ;;
        watchTransmission
  | _ => listen
  end.

(** [finishStandby] and the owner it leaves. *)
Definition on_arbiter {X} (m : st EventRadioIntegration.NodeOwner X) : M X :=
  zoom (λ x : Node * (R * Q), eventRadio x.1) (λ o x, (x.1 <| eventRadio := o |>, x.2)) m.

(* src-rx/main.cpp:1513-1532 = serviceNodeEvents, taking the radio *)
Definition acquireRadio (nowMs : Z) (synchronousWork : bool) : M unit :=
  pending <~ operationPending ;;
  n <~ this id ;;
  let point := EventRadioIntegration.mkSafePoint (RuntimeState.ready_ (runtimeState n))
    (bool_decide (phase_ (runtimeState n) = RuntimeState.LISTENING)) pending synchronousWork
    (maintenanceOwnershipActive n) (renderingPresentation n) in
  let state := NodeEventDelivery.state_ (eventDelivery n) in
  (if bool_decide (state = NodeEventDelivery.D_READY)
   then on_observer (EventTxDiagnostics.note EventTxDiagnostics.READY_SELECTED nowMs) else ret tt) ;;;
  requested <~ on_arbiter (EventRadioIntegration.requestEvent point state) ;;
  if negb (bool_decide (requested = EventRadioIntegration.ACQUIRE_STANDBY)) then ret tt else
  standbyState <~ radio standby ;;
  pending <~ operationPending ;;
  acquired <~ on_arbiter (EventRadioIntegration.finishStandby (standbyState =? 0) pending) ;;
  match acquired with
  | EventRadioIntegration.RECEIVED_PACKET_WON => ret tt
  | EventRadioIntegration.GRANT_EVENT_TX => transmitEvent nowMs
  | _ => listen
  end.

(** Terminal records are reclaimed in standby, unless delivery needs the radio. *)
(* src-rx/main.cpp:1502-1511 = serviceNodeEvents, reclaiming *)
Definition reclaimInStandby (nowMs : Z) : M unit :=
  standbyState <~ radio standby ;;
  pending <~ operationPending ;;
  if (pending : bool) then ret tt else
  (if standbyState =? 0 then
     reclaimed <~ on_delivery (NodeEventDelivery.reclaimTerminals true nowMs) ;;
     if negb reclaimed then update (λ n, n <| eventSubsystemReady := false |>) else ret tt
   else ret tt) ;;;
  listen.

(* src-rx/main.cpp:1476-1555 serviceNodeEvents *)
Definition serviceNodeEvents : M unit :=
  pending <~ operationPending ;;
  n <~ this id ;;
  if negb (eventSubsystemReady n) then ret tt else
  let synchronousWork :=
    EventRadioIntegration.timer_active (commandPreAck n)
    || negb (bool_decide (eventRadio n = EventRadioIntegration.LISTENING))
    || negb (bool_decide (phase_ (runtimeState n) = RuntimeState.LISTENING))
    || pending || maintenanceOwnershipActive n || renderingPresentation n in
  tick <~ on_delivery (NodeEventCreation.serviceNow synchronousWork) ;;
  let nowMs := NodeEventCreation.tick_now tick in
  watchTransmission ;;;
  if endsSubsystem (NodeEventDelivery.result_status (NodeEventCreation.tick_result tick))
  then update (λ n, n <| eventSubsystemReady := false |>) else
  n <~ this id ;;
  let state := NodeEventDelivery.state_ (eventDelivery n) in
  if NodeEventDelivery.hasTerminalRecords (NodeEventDelivery.store_ (eventDelivery n)) then
    if EventRadioIntegration.eventOwnsRadio (eventRadio n)
       && (bool_decide (state = NodeEventDelivery.D_EXPIRED) || bool_decide (state = NodeEventDelivery.D_FAILED))
    then listen else
    if negb synchronousWork && RuntimeState.ready_ (runtimeState n)
       && negb (bool_decide (state = NodeEventDelivery.TX))
       && negb (bool_decide (state = NodeEventDelivery.TX_PREPARE))
       && negb (bool_decide (state = NodeEventDelivery.WAIT_ADMISSION))
    then reclaimInStandby nowMs else acquireRadio nowMs synchronousWork
  else acquireRadio nowMs synchronousWork.

(** ** Setup and loop *)

(** A store that could not be recovered, or not be cleared of terminal records. *)
(* src-rx/main.cpp:1413-1426 = setup, no event subsystem *)
Definition withoutEvents (status : NodeEventStore.Status) : M unit :=
  on_runtime (RuntimeState.setEventPersistenceDegraded true) ;;;
  (if negb (bool_decide (status = NodeEventStore.READY))
   then on_runtime (RuntimeState.incrementEventDiagnostic RuntimeState.PERSISTENCE_FAILURE 1) else ret tt) ;;;
  match status with
  | NodeEventStore.INDETERMINATE_SLOT | NodeEventStore.RECORD_CONFLICT | NodeEventStore.STATUS_GENERATION_AMBIGUOUS =>
      on_runtime (RuntimeState.incrementEventDiagnostic RuntimeState.STORAGE_CORRUPTION 1)
  | _ => ret tt
  end.

(** [reclaimTerminals] without the controller, whose store and observer it is
    given. *)
(* src-rx/main.cpp:1401-1403 = setup, clearing the store *)
Definition clearStore : M bool :=
  t <~ now ;;
  update (λ n, n <| eventDelivery := (eventDelivery n)
    <| NodeEventDelivery.observer_ := Some (eventTxObserver n) |> |>) ;;;
  reclaimed <~ on_delivery (NodeEventDelivery.reclaimTerminals false t) ;;
  update (λ n, n <| eventDelivery := (eventDelivery n) <| NodeEventDelivery.observer_ := None |> |>) ;;;
  ret reclaimed.

(* src-rx/main.cpp:1396-1426 = setup, the event subsystem *)
Definition recoverEvents : M unit :=
  n <~ this id ;;
  update (λ n, n <| eventDelivery := (eventDelivery n)
    <| NodeEventDelivery.store_ :=
         NodeEventStore.setDiagnostics (Some (runtimeState n)) (NodeEventDelivery.store_ (eventDelivery n)) |> |>) ;;;
  on_observer EventTxDiagnostics.enable ;;;
  status <~ on_delivery (NodeEventDelivery.on_store (NodeEventStore.recover (RuntimeState.localId_ (runtimeState n)))) ;;
  reclaimed <~ (if bool_decide (status = NodeEventStore.READY) then clearStore else ret false) ;;
  if (reclaimed : bool) then
    t <~ now ;;
    observer <~ this eventTxObserver ;;
    recovered <~ on_delivery (NodeEventDelivery.recover (RuntimeState.localId_ (runtimeState n))
      (RuntimeState.peerId_ (runtimeState n)) t true (Some observer)) ;;
    update (λ n, n <| eventSubsystemReady :=
      bool_decide (NodeEventDelivery.result_status recovered = NodeEventDelivery.OK)
      || bool_decide (NodeEventDelivery.result_status recovered = NodeEventDelivery.NO_ACTIVE_EVENT) |>)
  else withoutEvents status.

(** The last render before the sketch gives up, or its first. *)
Definition serviceUiNow : M unit := t <~ now ;; serviceUi t.

(* src-rx/main.cpp:1426-1473 = setup, the radio *)
Definition beginRadio : M unit :=
  state <~ radio begin ;;
  if negb (state =? 0) then
    on_runtime (RuntimeState.setReady false) ;;;
    setHealth RuntimeState.HEALTH_ERROR ;;;
    recordError RuntimeState.RADIO_INITIALIZATION ;;;
    serviceUiNow
  else
  listening <~ startListening ;;
  if negb listening then
    on_runtime (RuntimeState.setReady false) ;;;
    setHealth RuntimeState.HEALTH_ERROR ;;;
    serviceUiNow
  else
  on_runtime (RuntimeState.setReady true) ;;;
  setReadyHealth ;;;
  markPresentationChanged ;;;
  serviceUiNow.

(* src-rx/main.cpp:1365-1474 setup *)
Definition setup : M unit :=
  update (λ n, n <| capabilityState := HeltecV4Capabilities.initializeProfileState |>
                 <| capabilityRegistryValid :=
                      DeviceCapabilities.isValidCapabilityRegistry HeltecV4Capabilities.registryView |>
                 <| capabilitySummaryAvailable := true |>) ;;;
  t <~ now ;;
  loadSettings t ;;;
  recoverEvents ;;;
  beginRadio.

(** The interrupt the radio has raised is dispatched by what it was doing. *)
(* src-rx/main.cpp:1568-1592 = loop, the interrupt *)
Definition dispatchInterrupt (nowMs : Z) : M unit :=
  n <~ this id ;;
  on_observer (EventTxDiagnostics.dispatchDio (EventRadioIntegration.eventOwnsRadio (eventRadio n))
    (eventTxObservationWindow n) nowMs) ;;;
  update (λ n, n <| operationDone := false |>) ;;;
  if EventRadioIntegration.eventOwnsRadio (eventRadio n) then
    _ <~ on_delivery NodeEventCreation.txCompletedNow ;;
    watchTransmission ;;;
    listen
  else match phase_ (runtimeState n) with
  | RuntimeState.TRANSMITTING_ACK => finishAcknowledgment
  | RuntimeState.TRANSMITTING_RESPONSE => finishStructuredResponse
  | _ => handleReceivedPacket
  end.

(** The display is served when nothing is waiting for the radio. *)
(* src-rx/main.cpp:1604-1614 = loop, the display *)
Definition displayMayRun (pending : bool) (n : Node) : bool :=
  negb (bool_decide (phase_ (runtimeState n) = RuntimeState.TRANSMITTING_ACK))
  && negb (bool_decide (phase_ (runtimeState n) = RuntimeState.TRANSMITTING_RESPONSE))
  && negb pending && negb (maintenanceOwnershipActive n).

(* src-rx/main.cpp:1557-1619 loop *)
Definition loop : M unit :=
  nowMs <~ now ;;
  serviceButton nowMs ;;;
  serviceSensorThresholdProducer ;;;
  serviceButtonFeedback nowMs ;;;
  serviceCommandPreAck nowMs ;;;
  pending <~ operationPending ;;
  ready <~ this (λ n, RuntimeState.ready_ (runtimeState n)) ;;
  (if ready && pending then dispatchInterrupt nowMs else ret tt) ;;;
  ready <~ this (λ n, RuntimeState.ready_ (runtimeState n)) ;;
  (if (ready : bool) then serviceProductionHost nowMs ;;; serviceQuietMaintenance nowMs else ret tt) ;;;
  serviceNodeEvents ;;;
  pending <~ operationPending ;;
  n <~ this id ;;
  if displayMayRun pending n then serviceUi nowMs else ret tt.

End Sketch.

End NodeMain.
